(* ===== verification/_CoqProject ===== *)
-Q . S2P
Prelude.v
Str.v
Mmu.v
Spinlock.v
Kalloc.v
Bytes.v
Ide.v
Bio.v
Log.v
Trans.v
Fs.v
FsAlloc.v
FsFile.v
FsInode.v
FsDir.v
FsProps.v
Mkfs.v
MkfsProps.v
MkfsImage.v
Vm.v
VmSpec.v
VmUser.v
VmFork.v
VmCopy.v
VmProps.v
Proc.v
ProcSpec.v
ProcInv.v
ProcFork.v
ProcProps.v
Ring.v
Pipe.v
File.v
Syscall.v
Sysfile.v
SysfileProps.v
Umalloc.v
UmallocProps.v
Grep.v
Sh.v
ShProps.v
Sim.v
SimProps.v
Exec.v
ExecImage.v
ExecProps.v
Console.v
ConsoleProps.v
Kbd.v
Printf.v
Sem.v
Prodcons.v
Wordstack.v
Bootmain.v
Mp.v
Wc.v
Uthread.v
Sysproc.v
Clock.v
