(* ===== verification/Prelude.v ===== *)
(** * Verification of the xv6 teaching kernel and its course programs

    The repository holds the sources of xv6, a small Unix for the x86 ([src/xv6]), with
    the programs that run on it and the program that builds its disk, and the exercises
    of a course on operating systems ([src/lab-01] to [src/lab-08],
    [src/ejemplossemaforos], [src/ejemplossyscalls]).  This library translates the
    parts that can be run in the logic, operation by operation and with the names of
    the source, and proves what makes them correct.

    ** How programs are modelled

    A C function on a state [S] is a function of type [K S A := S → res (A * S)]: it
    returns ([Ok]), calls [panic] ([Panic]), or waits for something that nothing in the
    model can bring about ([Hang]).  [runs m Q s] says that [m] returns from [s], and that
    the result and the new state satisfy [Q]; it is a statement of total correctness, so
    a theorem of that form excludes panics, endless loops and deadlock.  [post] is
    its partial form, used where the code is meant to panic or to sleep.  Numbers are
    [Z], and [u8], [u16], [u32], [s16] and [s32] are the wrap-around of the C types where the source
    stores a value.  Memory is a finite map of bytes or, for blocks and buffers, a list
    of bytes ([Bytes]).  Loops with a bound in the source are recursions on it;
    other loops take fuel, run into [Hang] (or [None]) without it, and the theorems say that the fuel
    the definitions use is enough: one more than the number of characters, pages
    or records that are left to look at.

    Code that runs concurrently is a step relation.  What a critical section does is one
    step where a lock makes it so; the lock itself is verified in [Spinlock].  A process that
    sleeps is a thread whose next step tests its condition again.

    ** The files

    - This file: outcomes and the monad, machine integers, memory, sums, the tactics
      [kstep], [pstep] and [bdestruct_all], the hint database [kernel].
    - [Str] ([string.c], [ulib.c]) and [Mmu] ([mmu.h], [memlayout.h]): byte routines and
      address arithmetic.  [Bytes]: fields of structures in blocks.
    - [Spinlock] ([spinlock.c]): processors that race for locks; mutual exclusion.
    - [Kalloc] ([kalloc.c]): the free list, threaded through the free pages, is a
      stack of pages; no page is handed out twice.
    - The disk, in layers, each verified against the interface of the layer below:
      [Ide] ([ide.c], [memide.c]) implements the class [DiskDriver]; [Bio] ([bio.c]) implements
      [BufCache] over any [DiskDriver]; [Log] ([log.c]) runs over any [BufCache], and its
      theorems are about crashes at any point of the disk writes; [Trans] shows that
      the log provides [LogDisk], blocks inside a transaction; [Fs] ([fs.c]) is written
      over any [LogDisk].  [FsAlloc] (free map), [FsFile] (contents of files), [FsInode]
      (inodes on the disk, [writei]), [FsDir] (inode cache, directories, paths) hold its
      lemmas and [FsProps] its theorems, with the whole stack down to [memide.c] as the
      instance of their examples.
    - [Mkfs] ([mkfs.c]), [MkfsProps], [MkfsImage]: the program that makes the disk image, and
      that the kernel reads from it what the program packed.
    - [Vm] ([vm.c]), [VmSpec] (page tables as maps), [VmUser], [VmFork], [VmCopy], [VmProps]:
      address spaces over the page allocator.
    - [Proc] ([proc.c]), [ProcSpec] (the step relation and its invariant), [ProcInv],
      [ProcFork], [ProcProps]: the process table under every interleaving, [fork] as a
      whole, rounds of the scheduler.  The file layer is the class [FileOps].
    - [Sysproc] ([sysproc.c]): the system calls on processes; [sbrk] and [pgcnt] on the page
      table.  [Clock] ([sys_sleep] of [sysproc.c], the timer of [trap.c]): sleeping on the
      clock, interleaved with the steps of [ProcSpec].
    - [Exec] ([exec.c], [elf.h]), [ExecImage], [ExecProps]: a process becomes the program
      of a file, or is left alone.  The file system is the class [ExecFs].
    - [Ring]: queues in arrays.  [Pipe] ([pipe.c]), [File] ([file.c]), [Syscall]
      ([syscall.c]), [Sysfile] ([sysfile.c]), [SysfileProps]: pipes, open files and the
      calls on them.
    - [Console] ([console.c], [uart.c]), [ConsoleProps], [Kbd] ([kbd.c], [kbd.h]): from the scan
      codes of the keyboard to the line that a process reads.
    - Start-up: [Bootmain] ([bootmain.c]), the boot loader over the ports of the disk, and [Mp]
      ([mp.c], [mp.h]), the search for the tables of the processors.
    - Programs of users: [Uthread] ([uthreadlib.c], [uthread_switch.S]), threads with their
      registers and stacks; [Wc] ([wc.c], [cat.c]); [Printf] ([printf.c], and [cprintf]), [Umalloc] and [UmallocProps]
      ([umalloc.c]), [Grep] ([grep.c]), [Sh] and [ShProps] ([sh.c]).
    - Exercises: [Sim] and [SimProps] ([lab-07/sim.c]), [Sem] (threads with semaphores),
      [Prodcons] ([lab-05/buf.c], [ejemplossemaforos/prodcons.c]), [Wordstack]
      ([lab-05/wordstack.c]).

    ** What the theorems show

    - Refinement: the page allocator is a stack of pages; the disk queue serves requests
      in order and wakes their callers, on read errors too; the log makes a system call one write of the disk, whatever the crash;
      [fork] copies and [exec] replaces an address space or leaves everything as it was;
      a pipe, the console and the bounded buffers deliver what was put in, in order; the
      matcher of [grep] is the relation of regular expressions; the simulator follows the
      policies it names; the shared stack is a stack for any number of processes, as
      long as the private mutex it uses is not found locked by another process.
    - Functional behaviour: [sbrk] for every argument; the boot loader puts the
      segments of the kernel in place; [mpinit] records the processors of the table; [wc]
      counts lines, words and characters of files read in any pieces.
    - Invariants and safety: locks exclude, store by store; processes are not lost and are reaped by their
      parents; descriptors count references; the kernel part of an address space is out
      of reach of user code; copies to user space write user pages only; the
      arguments of system calls lie inside the process; the heap is a row of blocks; a user
      thread finds its registers and its stack as it left them.
    - Round trips: blocks, inodes, files and directory entries are read as they were
      written; the image of [mkfs] is read by the kernel; command lines are parsed
      as the grammar says; a typed line is the line read.
    - Liveness and termination: a round of the scheduler runs every runnable process;
      producers and consumers come to their end; a process that sleeps on the clock is
      ready to run when its time is over, and its call does not return before; paths and command
      lines are read to their end.
    - Errors: the log that is one block too short ([mkfs_log_is_one_block_short]), the table
      entry that [mpinit] never leaves, the break at 0, the [main] of [buf.c] that destroys
      semaphores in use ([buf_main_destroys_too_early]), the mutex in shared memory that
      is private ([wordstack_mutex_is_private]), the simulator that goes on after the end
      of its input ([sim_goes_on_after_the_input]).

    ** Parameters

    What is not in the sources is an argument: the linker symbols [end] and [data], the
    addresses of kernel structures and of [trapret] and [forkret], the table [devsw], the
    file layer in [Proc] and the file system in [Exec] (as classes with laws), [sbrk] in
    [Umalloc], the disk controller in [Bootmain].  The examples
    give each of them a concrete value.  Host system calls of the course programs (shared memory,
    POSIX semaphores) are the semantics of [Sem]; what
    POSIX leaves undefined there (using a destroyed semaphore, a private mutex between
    processes) is a state [Undefined] of its own.

    ** Not modelled

    - Code whose meaning is the hardware: the assembly files but [uthread_switch.S], [lapic.c], [ioapic.c],
      [picirq.c], [uart.c] but for its data registers, the segment descriptors in [vm.c], and
      the order of start-up in [main.c].
    - Weak memory, timing and interrupts at arbitrary instructions: stores are seen in
      program order; a critical section is one step, and interrupts come between steps (the
      statements of [acquire] and [release] themselves are steps in [Spinlock]).
    - The model of [bio.c], [fs.c], [file.c] and [sysfile.c] follows one process at a
      time; that processes exclude each other there rests on the locks, verified on their
      own.
    - [usertests.c] and the small test programs, which exercise the system without
      a contract of their own, and programs that only print or only call the host.
*)

From stdpp Require Export base numbers list strings gmap.

Declare Scope kernel_scope.
Delimit Scope kernel_scope with K.

#[global] Open Scope Z_scope.

(** ** Machine integers *)

(** The value kept by an [unsigned int] (32 bits) assigned [x]. *)
Definition u32 (x : Z) : Z := x mod 2 ^ 32.

(** The value kept by an [int] (32 bits, two's complement) assigned [x]. *)
Definition s32 (x : Z) : Z := (x + 2 ^ 31) mod 2 ^ 32 - 2 ^ 31.

(** The characters of a string literal. *)
Definition chars_of (s : string) : list Z := (λ c, Z.of_nat (Ascii.nat_of_ascii c)) <$> String.list_ascii_of_string s.

(** The value kept by an [unsigned char], a [ushort] and a [short]. *)
Definition u8 (x : Z) : Z := x mod 2 ^ 8.
Definition u16 (x : Z) : Z := x mod 2 ^ 16.
Definition s16 (x : Z) : Z := (x + 2 ^ 15) mod 2 ^ 16 - 2 ^ 15.

(** ** Outcomes of kernel code

    [Ok] is a normal return, [Panic] a call of [panic] (which never returns),
    [Hang] a wait that nothing in the model can end: spinning on a lock that is
    held, or sleeping with nobody left to wake the sleeper. *)
Inductive res (A : Type) : Type :=
| Ok (a : A)
| Panic (msg : string)
| Hang.

Arguments Ok {A} a.
Arguments Panic {A} msg.
Arguments Hang {A}.

(** Kernel code over a state [S]. *)
Definition K (S A : Type) : Type := S → res (A * S).

#[global] Instance K_ret {S} : MRet (K S) := λ A a s, Ok (a, s).

#[global] Instance K_bind {S} : MBind (K S) := λ A B f m s,
  match m s with
  | Ok (a, s') => f a s'
  | Panic msg => Panic msg
  | Hang => Hang
  end.

Definition kpanic {S A} (msg : string) : K S A := λ _, Panic msg.
Definition khang {S A} : K S A := λ _, Hang.
Definition kget {S} : K S S := λ s, Ok (s, s).
Definition kgets {S A} (f : S → A) : K S A := λ s, Ok (f s, s).
Definition kmod {S} (f : S → S) : K S unit := λ s, Ok (tt, f s).
Definition kput {S} (s' : S) : K S unit := λ _, Ok (tt, s').

(** [if(c) panic(msg);] *)
Definition kassert {S} (c : bool) (msg : string) : K S unit :=
  if c then mret tt else kpanic msg.

(** [runs m Q s]: from [s] the code returns, and what it returns satisfies [Q].
    Total: a panic or a hang makes it false. *)
Definition runs {S A} (m : K S A) (Q : A → S → Prop) (s : S) : Prop :=
  ∃ a s', m s = Ok (a, s') ∧ Q a s'.

(** [post m Q s]: if the code returns from [s], the result satisfies [Q].  Used for
    facts that hold along any run, next to [runs]. *)
Definition post {S A} (m : K S A) (Q : A → S → Prop) (s : S) : Prop :=
  ∀ a s', m s = Ok (a, s') → Q a s'.

(** ** Byte-addressed memory *)

(** Memory is a finite map from addresses to bytes, zero where never written. *)
Definition rd (m : gmap Z Z) (a : Z) : Z := default 0 (m !! a).
Definition wr (m : gmap Z Z) (a v : Z) : gmap Z Z := <[a := u8 v]> m.

(** Little-endian 32-bit loads and stores. *)
Definition ld32 (m : gmap Z Z) (a : Z) : Z :=
  rd m a + 2 ^ 8 * rd m (a + 1) + 2 ^ 16 * rd m (a + 2) + 2 ^ 24 * rd m (a + 3).

Definition st32 (m : gmap Z Z) (a v : Z) : gmap Z Z :=
  wr (wr (wr (wr m a v) (a + 1) (v ≫ 8)) (a + 2) (v ≫ 16)) (a + 3) (v ≫ 24).

(** A run of bytes laid out from address [a]. *)
Fixpoint st_bytes (m : gmap Z Z) (a : Z) (l : list Z) : gmap Z Z :=
  match l with
  | [] => m
  | c :: l' => st_bytes (wr m a c) (a + 1) l'
  end.

(** Memory whose cells all hold bytes. *)
Definition mem_ok (m : gmap Z Z) : Prop := ∀ a, 0 ≤ rd m a < 2 ^ 8.

(** A function changed at one point. *)
Definition fupd {A B} `{EqDecision A} (f : A → B) (a : A) (b : B) : A → B :=
  λ x, if decide (x = a) then b else f x.

(** ** Reachability *)

Section star.
Context {A : Type} (R : A → A → Prop).

(** Every state reached from an [init] state by [R] satisfies an inductive
    invariant. *)
Lemma rtc_invariant (I : A → Prop) x y :
  (∀ a b, I a → R a b → I b) → I x → rtc R x y → I y.
Proof. intros Hstep Hx Hxy. induction Hxy; eauto. Qed.
End star.

Lemma fupd_eq {A B} `{EqDecision A} (f : A → B) a b : fupd f a b a = b.
Proof. unfold fupd. by rewrite decide_True. Qed.

Lemma fupd_ne {A B} `{EqDecision A} (f : A → B) a b x : x ≠ a → fupd f a b x = f x.
Proof. intros. unfold fupd. by rewrite decide_False. Qed.

Lemma size_add `{Countable A} (X : gset A) x : (size (X ∪ {[x]}) ≤ S (size X))%nat.
Proof.
  rewrite size_union_alt. assert (size ({[x]} ∖ X) ≤ 1)%nat; [|lia].
  rewrite <- (size_singleton (C := gset A) x). apply subseteq_size. set_solver.
Qed.

Lemma size_pair `{Countable A} (x y : A) : (size ({[x; y]} : gset A) ≤ 2)%nat.
Proof. etrans; [apply size_add|]. by rewrite size_singleton. Qed.

Lemma alter_insert_list {A} (f : A → A) (k : nat) (l : list A) x :
  l !! k = Some x → alter f k l = <[k := f x]> l.
Proof.
  intros E. apply list_eq. intros j. destruct (decide (j = k)) as [-> |].
  - rewrite list_lookup_insert_eq, list_lookup_alter_eq, E by (by eapply lookup_lt_Some). done.
  - by rewrite list_lookup_insert_ne, list_lookup_alter_ne.
Qed.

(** ** Tactics and hints of the development *)

Create HintDb kernel.

Lemma u32_range x : 0 ≤ u32 x < 2 ^ 32.
Proof. apply Z.mod_pos_bound. lia. Qed.

Lemma u32_small x : 0 ≤ x < 2 ^ 32 → u32 x = x.
Proof. intros. by apply Z.mod_small. Qed.

Lemma s32_range x : - 2 ^ 31 ≤ s32 x < 2 ^ 31.
Proof. unfold s32. pose proof (Z.mod_pos_bound (x + 2 ^ 31) (2 ^ 32)). lia. Qed.

Lemma s32_small x : - 2 ^ 31 ≤ x < 2 ^ 31 → s32 x = x.
Proof. intros. unfold s32. rewrite Z.mod_small; lia. Qed.

Lemma u8_range x : 0 ≤ u8 x < 2 ^ 8.
Proof. apply Z.mod_pos_bound. lia. Qed.

Lemma u8_small x : 0 ≤ x < 2 ^ 8 → u8 x = x.
Proof. intros. by apply Z.mod_small. Qed.

#[export] Hint Resolve u32_range u8_range s32_range : kernel.

(** ** Rules of [runs] *)

Section runs.
Context {S : Type}.
Implicit Types s : S.

Lemma runs_ret {A} (a : A) (Q : A → S → Prop) s : Q a s → runs (mret a) Q s.
Proof. intros. by exists a, s. Qed.

Lemma runs_bind {A B} (m : K S A) (f : A → K S B) Q s :
  runs m (λ a s', runs (f a) Q s') s → runs (m ≫= f) Q s.
Proof.
  intros (a & s' & Hm & b & s'' & Hf & HQ). exists b, s''.
  split; [|done]. unfold mbind, K_bind. by rewrite Hm.
Qed.

Lemma runs_bind_inv {A B} (m : K S A) (f : A → K S B) Q s :
  runs (m ≫= f) Q s → runs m (λ a s', runs (f a) Q s') s.
Proof.
  intros (b & s'' & Hm & HQ). unfold mbind, K_bind in Hm.
  destruct (m s) as [[a s']| |] eqn:E; try done. exists a, s'. split; [done|].
  by exists b, s''.
Qed.

(** Nothing follows. *)
Lemma runs_ret_r (m : K S unit) (Q : unit → S → Prop) s :
  runs (m;; mret tt) Q s → runs m Q s.
Proof. intros ([] & s' & Hm & b & s'' & [= <- <-] & HQ)%runs_bind_inv. by exists tt, s'. Qed.

(** Code whose run from [s] is already known. *)
Lemma runs_of_eq {A} (m : K S A) (Q : A → S → Prop) s a s' :
  m s = Ok (a, s') → Q a s' → runs m Q s.
Proof. intros. by exists a, s'. Qed.

Lemma runs_mono {A} (m : K S A) (P Q : A → S → Prop) s :
  runs m P s → (∀ a s', P a s' → Q a s') → runs m Q s.
Proof. intros (a & s' & ? & ?) HPQ. exists a, s'. auto. Qed.

Lemma runs_mod (f : S → S) (Q : unit → S → Prop) s : Q tt (f s) → runs (kmod f) Q s.
Proof. intros. by exists tt, (f s). Qed.

Lemma runs_get (Q : S → S → Prop) s : Q s s → runs kget Q s.
Proof. intros. by exists s, s. Qed.

Lemma runs_gets {A} (f : S → A) (Q : A → S → Prop) s :
  Q (f s) s → runs (kgets f) Q s.
Proof. intros. by exists (f s), s. Qed.

Lemma runs_assert (c : bool) msg (Q : unit → S → Prop) s :
  c = true → Q tt s → runs (kassert c msg) Q s.
Proof. intros -> ?. by exists tt, s. Qed.

Lemma runs_eq {A} (m : K S A) Q s a s' :
  runs m Q s → m s = Ok (a, s') → Q a s'.
Proof. intros (? & ? & E & ?) E'. rewrite E in E'. by simplify_eq. Qed.

Lemma bind_ok {A B} (m : K S A) (f : A → K S B) s a s' :
  m s = Ok (a, s') → (m ≫= f) s = f a s'.
Proof. intros Hm. unfold mbind, K_bind. by rewrite Hm. Qed.

Lemma bind_inv {A B} (m : K S A) (f : A → K S B) s b s'' :
  (m ≫= f) s = Ok (b, s'') → ∃ a s', m s = Ok (a, s') ∧ f a s' = Ok (b, s'').
Proof.
  unfold mbind, K_bind. destruct (m s) as [[a s']| |] eqn:E; intros; try done.
  by exists a, s'.
Qed.

Lemma post_ret {A} (a : A) (Q : A → S → Prop) s : Q a s → post (mret a) Q s.
Proof. intros HQ b s' [= <- <-]. done. Qed.

Lemma post_bind {A B} (m : K S A) (f : A → K S B) Q s :
  post m (λ a s', post (f a) Q s') s → post (m ≫= f) Q s.
Proof. intros Hm b s'' (a & s' & E & Ef)%bind_inv. by apply (Hm a s' E). Qed.

Lemma post_mono {A} (m : K S A) (P Q : A → S → Prop) s :
  post m P s → (∀ a s', P a s' → Q a s') → post m Q s.
Proof. intros Hm HPQ a s' E. by apply HPQ, Hm. Qed.

Lemma post_get (Q : S → S → Prop) s : Q s s → post kget Q s.
Proof. intros HQ a s' [= <- <-]. done. Qed.

Lemma post_gets {A} (f : S → A) (Q : A → S → Prop) s : Q (f s) s → post (kgets f) Q s.
Proof. intros HQ a s' [= <- <-]. done. Qed.

Lemma post_mod (f : S → S) (Q : unit → S → Prop) s : Q tt (f s) → post (kmod f) Q s.
Proof. intros HQ [] s' [= <-]. done. Qed.

Lemma post_put (t : S) (Q : unit → S → Prop) s : Q tt t → post (kput t) Q s.
Proof. intros HQ [] s' [= <-]. done. Qed.

Lemma post_assert (c : bool) msg (Q : unit → S → Prop) s :
  (c = true → Q tt s) → post (kassert c msg) Q s.
Proof. intros HQ [] s'. unfold kassert. destruct c; intros [= <-]. auto. Qed.

Lemma post_panic {A} msg (Q : A → S → Prop) s : post (kpanic msg) Q s.
Proof. done. Qed.

Lemma post_hang {A} (Q : A → S → Prop) s : post khang Q s.
Proof. done. Qed.

Lemma runs_post {A} (m : K S A) (Q : A → S → Prop) s : runs m Q s → post m Q s.
Proof. intros Hm a s' E. by eapply runs_eq. Qed.
End runs.

#[export] Hint Resolve runs_ret runs_mod runs_gets : kernel.

(** Peel one operation of a computation. *)
Ltac kstep :=
  match goal with
  | |- runs (mbind _ _) _ _ => apply runs_bind
  | |- runs (mret _) _ _ => apply runs_ret
  | |- runs (kmod _) _ _ => apply runs_mod
  | |- runs kget _ _ => apply runs_get
  | |- runs (kgets _) _ _ => apply runs_gets
  | |- runs (kassert _ _) _ _ => apply runs_assert
  end.

Ltac pstep :=
  match goal with
  | |- post (mbind _ _) _ _ => apply post_bind
  | |- post (mret _) _ _ => apply post_ret
  | |- post (kmod _) _ _ => apply post_mod
  | |- post (kput _) _ _ => apply post_put
  | |- post kget _ _ => apply post_get
  | |- post (kgets _) _ _ => apply post_gets
  | |- post (kpanic _) _ _ => apply post_panic
  | |- post khang _ _ => apply post_hang
  | |- post (kassert _ _) _ _ => apply post_assert; intros ?
  end.

(** Turn boolean tests of the code into arithmetic facts. *)
Ltac bdestruct_all :=
  repeat match goal with
  | H : context [Z.eqb ?x ?y] |- _ => destruct (Z.eqb_spec x y)
  | |- context [Z.eqb ?x ?y] => destruct (Z.eqb_spec x y)
  | H : context [Z.leb ?x ?y] |- _ => destruct (Z.leb_spec x y)
  | |- context [Z.leb ?x ?y] => destruct (Z.leb_spec x y)
  | H : context [Z.ltb ?x ?y] |- _ => destruct (Z.ltb_spec x y)
  | |- context [Z.ltb ?x ?y] => destruct (Z.ltb_spec x y)
  end.

(** One bit of a number. *)
Lemma land_pow2 x k : 0 ≤ k → Z.land x (2 ^ k) = if Z.testbit x k then 2 ^ k else 0.
Proof.
  intros Hk. apply Z.bits_inj'. intros i Hi. rewrite Z.land_spec, Z.pow2_bits_eqb by done.
  destruct (Z.eqb_spec k i) as [<-|Hne].
  - destruct (Z.testbit x k); simpl; [by rewrite Z.pow2_bits_true|by rewrite Z.bits_0].
  - rewrite andb_false_r. destruct (Z.testbit x k); [|by rewrite Z.bits_0]. by rewrite Z.pow2_bits_false.
Qed.

(** ** Sums over lists *)

Definition sumf {A} (g : A → Z) (l : list A) : Z := foldr (λ x n, g x + n) 0 l.

Lemma sumf_app {A} (g : A → Z) l l' : sumf g (l ++ l') = sumf g l + sumf g l'.
Proof. induction l as [|x l IH]; simpl; [done|]. rewrite IH. lia. Qed.

Lemma sumf_insert {A} (g : A → Z) l i x y : l !! i = Some x → sumf g (<[i := y]> l) = sumf g l - g x + g y.
Proof. revert i. induction l as [|z l IH]; intros [|i] E; simplify_eq/=; [lia|]. rewrite (IH i E). lia. Qed.

Lemma sumf_le {A} (g h : A → Z) l : (∀ x, x ∈ l → g x ≤ h x) → sumf g l ≤ sumf h l.
Proof.
  induction l as [|x l IH]; intros Hle; simpl; [lia|]. pose proof (Hle x (list_elem_of_here _ _)).
  assert (sumf g l ≤ sumf h l) by (apply IH; intros y Hy; apply Hle; by right). lia.
Qed.

Lemma sumf_elem {A} (g : A → Z) l i x : (∀ x, 0 ≤ g x) → l !! i = Some x → g x ≤ sumf g l.
Proof.
  intros Hg. revert i. induction l as [|y l IH]; intros [|i] E; simplify_eq/=.
  - assert (0 ≤ sumf g l) by (clear - Hg; induction l as [|z l IH]; simpl; [lia|]; pose proof (Hg z); lia). lia.
  - pose proof (IH i E). pose proof (Hg y). lia.
Qed.

(** Two elements that count. *)
Lemma sumf_two {A} (g : A → Z) l i j x y : (∀ x, 0 ≤ g x) → l !! i = Some x → l !! j = Some y → i ≠ j → g x + g y ≤ sumf g l.
Proof.
  intros Hg Hi Hj Hij. revert i j Hij Hi Hj. induction l as [|z l IH]; intros [|i] [|j] Hij Hi Hj; simplify_eq/=.
  - pose proof (sumf_elem g l j y Hg Hj). lia.
  - pose proof (sumf_elem g l i x Hg Hi). lia.
  - pose proof (IH i j ltac:(lia) Hi Hj). pose proof (Hg z). lia.
Qed.

Lemma sumf_map {A B} (g : B → Z) (h : A → B) l : sumf g (map h l) = sumf (λ x, g (h x)) l.
Proof. induction l as [|x l IH]; simpl; [done|]. by rewrite IH. Qed.

Lemma sumf_add {A} (g h : A → Z) l : sumf (λ x, g x + h x) l = sumf g l + sumf h l.
Proof. induction l as [|x l IH]; simpl; [done|]. rewrite IH. lia. Qed.

Lemma sumf_opp {A} (g : A → Z) l : sumf (λ x, - g x) l = - sumf g l.
Proof. induction l as [|x l IH]; simpl; [done|]. rewrite IH. lia. Qed.

Lemma sumf_eq {A} (g h : A → Z) l : (∀ x, x ∈ l → g x = h x) → sumf g l = sumf h l.
Proof.
  intros E. apply Z.le_antisymm; apply sumf_le; intros x Hx; rewrite (E x Hx); lia.
Qed.

(** ** Memory lemmas *)

Lemma rd_wr m a v b : rd (wr m a v) b = if a =? b then u8 v else rd m b.
Proof.
  unfold rd, wr. rewrite lookup_insert. case_decide; bdestruct_all; naive_solver.
Qed.

Lemma rd_wr_eq m a v : rd (wr m a v) a = u8 v.
Proof. rewrite rd_wr, Z.eqb_refl. done. Qed.

Lemma rd_wr_ne m a v b : a ≠ b → rd (wr m a v) b = rd m b.
Proof. intros. rewrite rd_wr. bdestruct_all; done. Qed.

Lemma mem_ok_wr m a v : mem_ok m → mem_ok (wr m a v).
Proof.
  intros Hm b. rewrite rd_wr. destruct (a =? b); [apply u8_range | apply Hm].
Qed.

Lemma mem_ok_empty : mem_ok ∅.
Proof. intros a. unfold rd. rewrite lookup_empty. simpl. lia. Qed.

Lemma mem_ok_st32 m a v : mem_ok m → mem_ok (st32 m a v).
Proof. intros. unfold st32. by repeat apply mem_ok_wr. Qed.

Lemma mem_ok_st_bytes l : ∀ m a, mem_ok m → mem_ok (st_bytes m a l).
Proof. induction l; simpl; auto using mem_ok_wr. Qed.

#[export] Hint Resolve mem_ok_wr mem_ok_st32 mem_ok_st_bytes mem_ok_empty : kernel.

Lemma rd_st32 m a v b :
  rd (st32 m a v) b =
    if (a <=? b) && (b <? a + 4) then u8 (v ≫ (8 * (b - a))) else rd m b.
Proof.
  unfold st32. rewrite !rd_wr.
  bdestruct_all; simpl; try lia; subst;
    repeat match goal with |- context [_ ≫ (8 * ?d)] =>
      ring_simplify (8 * d) end; rewrite ?Z.shiftr_0_r; try done; f_equal; f_equal; lia.
Qed.

(** Four bytes of a word, put together again. *)
Lemma bytes_of_word v :
  u8 v + 2 ^ 8 * u8 (v ≫ 8) + 2 ^ 16 * u8 (v ≫ 16) + 2 ^ 24 * u8 (v ≫ 24) = u32 v.
Proof.
  unfold u8, u32. rewrite !Z.shiftr_div_pow2 by lia.
  change (2 ^ 32) with (2 ^ 8 * (2 ^ 8 * (2 ^ 8 * 2 ^ 8))).
  rewrite !Z.rem_mul_r by lia. rewrite !Z.div_div by lia.
  change (2 ^ 8 * 2 ^ 8) with (2 ^ 16). change (2 ^ 16 * 2 ^ 8) with (2 ^ 24). lia.
Qed.

Lemma ld32_st32_eq m a v : ld32 (st32 m a v) a = u32 v.
Proof.
  unfold ld32. rewrite !rd_st32. rewrite <- bytes_of_word.
  bdestruct_all; try lia. simpl.
  replace (8 * (a - a)) with 0 by lia. replace (8 * (a + 1 - a)) with 8 by lia.
  replace (8 * (a + 2 - a)) with 16 by lia. replace (8 * (a + 3 - a)) with 24 by lia.
  rewrite Z.shiftr_0_r. done.
Qed.

Lemma ld32_ext m m' a :
  (∀ b, a ≤ b < a + 4 → rd m b = rd m' b) → ld32 m a = ld32 m' a.
Proof. intros H. unfold ld32. rewrite !H by lia. done. Qed.

Lemma ld32_st32_ne m a v b : a + 4 ≤ b ∨ b + 4 ≤ a → ld32 (st32 m a v) b = ld32 m b.
Proof.
  intros. apply ld32_ext. intros c Hc. rewrite rd_st32. bdestruct_all; simpl; try done; lia.
Qed.

Lemma ld32_range m a : mem_ok m → 0 ≤ ld32 m a < 2 ^ 32.
Proof.
  intros Hm. unfold ld32. pose proof (Hm a). pose proof (Hm (a + 1)).
  pose proof (Hm (a + 2)). pose proof (Hm (a + 3)). lia.
Qed.
