(* ===== verification/Str.v ===== *)
(** * Byte and string routines: [xv6/string.c] and [xv6/ulib.c]

    Every routine works on the byte memory of [Prelude] with pointers as
    addresses, loop by loop as in the source.  A loop bounded by a count is a
    recursion on that count; a loop that only a NUL byte ends takes fuel and
    returns [None] when the fuel runs out, and its theorem says how much is
    enough. *)

From S2P Require Import Prelude.

(** ** [string.c] *)

(** [rep stosb] and [rep stosl] of [x86.h]: store the low byte, or the word, of
    [data] at [cnt] consecutive places. *)
Fixpoint stosb (m : gmap Z Z) (addr data : Z) (cnt : nat) : gmap Z Z :=
  match cnt with
  | O => m
  | S cnt' => stosb (wr m addr data) (addr + 1) data cnt'
  end.

Fixpoint stosl (m : gmap Z Z) (addr data : Z) (cnt : nat) : gmap Z Z :=
  match cnt with
  | O => m
  | S cnt' => stosl (st32 m addr data) (addr + 4) data cnt'
  end.

Definition memset (m : gmap Z Z) (dst c n : Z) : gmap Z Z :=
  if (dst mod 4 =? 0) && (n mod 4 =? 0) then
    let c := Z.land c 255 in
    stosl m dst (Z.lor (Z.lor (Z.lor (c ≪ 24) (c ≪ 16)) (c ≪ 8)) c) (Z.to_nat (n / 4))
  else stosb m dst c (Z.to_nat n).

Fixpoint memcmp (m : gmap Z Z) (s1 s2 : Z) (n : nat) : Z :=
  match n with
  | O => 0
  | S n' =>
      if negb (rd m s1 =? rd m s2) then rd m s1 - rd m s2
      else memcmp m (s1 + 1) (s2 + 1) n'
  end.

(** The two copying loops of [memmove]. *)
Fixpoint copy_down (m : gmap Z Z) (d s : Z) (n : nat) : gmap Z Z :=
  match n with
  | O => m
  | S n' => copy_down (wr m (d - 1) (rd m (s - 1))) (d - 1) (s - 1) n'
  end.

Fixpoint copy_up (m : gmap Z Z) (d s : Z) (n : nat) : gmap Z Z :=
  match n with
  | O => m
  | S n' => copy_up (wr m d (rd m s)) (d + 1) (s + 1) n'
  end.

Definition memmove (m : gmap Z Z) (dst src n : Z) : gmap Z Z :=
  if (src <? dst) && (dst <? src + n)
  then copy_down m (dst + n) (src + n) (Z.to_nat n)
  else copy_up m dst src (Z.to_nat n).

Definition memcpy (m : gmap Z Z) (dst src n : Z) : gmap Z Z := memmove m dst src n.

Fixpoint strncmp (m : gmap Z Z) (p q : Z) (n : nat) : Z :=
  match n with
  | O => 0
  | S n' =>
      if negb (rd m p =? 0) && (rd m p =? rd m q)
      then strncmp m (p + 1) (q + 1) n'
      else rd m p - rd m q
  end.

Fixpoint strncpy (m : gmap Z Z) (s t : Z) (n : nat) : gmap Z Z :=
  match n with
  | O => m
  | S n' =>
      let c := rd m t in
      let m := wr m s c in
      if c =? 0 then stosb m (s + 1) 0 n' else strncpy m (s + 1) (t + 1) n'
  end.

(** The loop of [safestrcpy], with [n - 1] bytes left, and the final store. *)
Fixpoint safestrcpy_loop (m : gmap Z Z) (s t : Z) (n : nat) : gmap Z Z :=
  match n with
  | O => wr m s 0
  | S n' =>
      let c := rd m t in
      let m := wr m s c in
      if c =? 0 then wr m (s + 1) 0 else safestrcpy_loop m (s + 1) (t + 1) n'
  end.

Definition safestrcpy (m : gmap Z Z) (s t n : Z) : gmap Z Z :=
  if n <=? 0 then m else safestrcpy_loop m s t (Z.to_nat (n - 1)).

Fixpoint strlen_loop (fuel : nat) (m : gmap Z Z) (s n : Z) : option Z :=
  match fuel with
  | O => None
  | S fuel' => if rd m (s + n) =? 0 then Some n else strlen_loop fuel' m s (n + 1)
  end.

Definition strlen (fuel : nat) (m : gmap Z Z) (s : Z) : option Z :=
  strlen_loop fuel m s 0.

(** ** [ulib.c] *)

Fixpoint strcpy (fuel : nat) (m : gmap Z Z) (s t : Z) : option (gmap Z Z) :=
  match fuel with
  | O => None
  | S fuel' =>
      let c := rd m t in
      let m := wr m s c in
      if c =? 0 then Some m else strcpy fuel' m (s + 1) (t + 1)
  end.

Fixpoint strcmp (fuel : nat) (m : gmap Z Z) (p q : Z) : option Z :=
  match fuel with
  | O => None
  | S fuel' =>
      if negb (rd m p =? 0) && (rd m p =? rd m q)
      then strcmp fuel' m (p + 1) (q + 1)
      else Some (rd m p - rd m q)
  end.

Definition ulib_memset (m : gmap Z Z) (dst c n : Z) : gmap Z Z :=
  stosb m dst c (Z.to_nat n).

(** [Some None] is the null pointer. *)
Fixpoint strchr (fuel : nat) (m : gmap Z Z) (s c : Z) : option (option Z) :=
  match fuel with
  | O => None
  | S fuel' =>
      if rd m s =? 0 then Some None
      else if rd m s =? c then Some (Some s)
      else strchr fuel' m (s + 1) c
  end.

Fixpoint atoi_loop (fuel : nat) (m : gmap Z Z) (s n : Z) : option Z :=
  match fuel with
  | O => None
  | S fuel' =>
      if (48 <=? rd m s) && (rd m s <=? 57)
      then atoi_loop fuel' m (s + 1) (s32 (n * 10 + rd m s - 48))
      else Some n
  end.

Definition atoi (fuel : nat) (m : gmap Z Z) (s : Z) : option Z := atoi_loop fuel m s 0.

Definition ulib_memmove (m : gmap Z Z) (vdst vsrc n : Z) : gmap Z Z :=
  copy_up m vdst vsrc (Z.to_nat n).

(** ** Specifications *)

(** A NUL-terminated string of length [k] lies at [s]. *)
Definition cstr (m : gmap Z Z) (s : Z) (k : nat) : Prop :=
  rd m (s + Z.of_nat k) = 0 ∧ ∀ i, 0 ≤ i < Z.of_nat k → rd m (s + i) ≠ 0.

(** The decimal value of the [k] digits at [s], most significant first. *)
Fixpoint dec_value (m : gmap Z Z) (s : Z) (k : nat) (acc : Z) : Z :=
  match k with
  | O => acc
  | S k' => dec_value m (s + 1) k' (acc * 10 + (rd m s - 48))
  end.

(** ** Lemmas *)

Lemma rd_stosb n : ∀ m a c b,
  rd (stosb m a c n) b = if (a <=? b) && (b <? a + Z.of_nat n) then u8 c else rd m b.
Proof.
  induction n as [|n IH]; intros m a c b; simpl.
  - bdestruct_all; simpl; try done; lia.
  - rewrite IH, rd_wr. bdestruct_all; simpl; try done; lia.
Qed.

Lemma rd_stosl n : ∀ m a w b,
  rd (stosl m a w n) b =
    if (a <=? b) && (b <? a + 4 * Z.of_nat n) then u8 (w ≫ (8 * ((b - a) mod 4))) else rd m b.
Proof.
  induction n as [|n IH]; intros m a w b; simpl.
  - bdestruct_all; simpl; try done; lia.
  - rewrite IH, rd_st32. bdestruct_all; simpl; try done; try lia.
    + do 3 f_equal. replace (b - a) with (b - (a + 4) + 1 * 4) by lia.
      by rewrite Z.mod_add by lia.
    + do 3 f_equal. rewrite Z.mod_small by lia. done.
Qed.

(** Every byte of the word that [memset] stores is the byte [c]. *)
Lemma splat_byte c i : 0 ≤ i < 4 →
  u8 (Z.lor (Z.lor (Z.lor (Z.land c 255 ≪ 24) (Z.land c 255 ≪ 16)) (Z.land c 255 ≪ 8))
        (Z.land c 255) ≫ (8 * i)) = u8 c.
Proof.
  intros Hi. unfold u8. rewrite <- !Z.land_ones by lia. change 255 with (Z.ones 8).
  apply Z.bits_inj_iff. intros k.
  destruct (Z.ltb_spec k 0); [by rewrite !Z.testbit_neg_r|].
  rewrite !Z.land_spec. destruct (Z.ltb_spec k 8).
  2: { rewrite Z.ones_spec_high by lia. by rewrite !andb_false_r. }
  rewrite Z.ones_spec_low by lia. rewrite !andb_true_r.
  rewrite Z.shiftr_spec by lia. rewrite !Z.lor_spec.
  rewrite !Z.shiftl_spec by lia. rewrite !Z.land_spec.
  assert (i = 0 ∨ i = 1 ∨ i = 2 ∨ i = 3) as [->| [->| [->| ->]]] by lia;
    repeat match goal with
    | |- context [Z.testbit (Z.ones 8) ?e] =>
        first [ rewrite (Z.ones_spec_low 8 e) by lia
              | rewrite (Z.ones_spec_high 8 e) by lia
              | rewrite (Z.testbit_neg_r (Z.ones 8) e) by lia ]
    end; rewrite ?andb_false_r, ?andb_true_r, ?orb_false_l, ?orb_false_r;
    f_equal; lia.
Qed.

Lemma rd_copy_up n : ∀ m d s b,
  mem_ok m → d ≤ s ∨ s + Z.of_nat n ≤ d →
  rd (copy_up m d s n) b =
    if (d <=? b) && (b <? d + Z.of_nat n) then rd m (s + (b - d)) else rd m b.
Proof.
  induction n as [|n IH]; intros m d s b Hm Hd; simpl.
  - bdestruct_all; simpl; try done; lia.
  - rewrite IH by (eauto with kernel; lia).
    rewrite !rd_wr, u8_small by apply Hm.
    bdestruct_all; simpl; try done; try lia; subst; f_equal; lia.
Qed.

Lemma rd_copy_down n : ∀ m d s b,
  mem_ok m → s ≤ d →
  rd (copy_down m d s n) b =
    if (d - Z.of_nat n <=? b) && (b <? d) then rd m (s - (d - b)) else rd m b.
Proof.
  induction n as [|n IH]; intros m d s b Hm Hd; simpl.
  - bdestruct_all; simpl; try done; lia.
  - rewrite IH by (eauto with kernel; lia).
    rewrite !rd_wr, u8_small by apply Hm.
    bdestruct_all; simpl; try done; try lia; subst; f_equal; lia.
Qed.

Lemma mem_ok_stosb n : ∀ m a c, mem_ok m → mem_ok (stosb m a c n).
Proof. induction n; simpl; eauto with kernel. Qed.

Lemma mem_ok_stosl n : ∀ m a c, mem_ok m → mem_ok (stosl m a c n).
Proof. induction n; simpl; eauto with kernel. Qed.

Lemma mem_ok_memset m d c n : mem_ok m → mem_ok (memset m d c n).
Proof. unfold memset. destruct (_ && _); auto using mem_ok_stosb, mem_ok_stosl. Qed.

Lemma mem_ok_copy_up n : ∀ m d s, mem_ok m → mem_ok (copy_up m d s n).
Proof. induction n; simpl; eauto with kernel. Qed.

Lemma mem_ok_copy_down n : ∀ m d s, mem_ok m → mem_ok (copy_down m d s n).
Proof. induction n; simpl; eauto with kernel. Qed.

Lemma mem_ok_memmove m d s n : mem_ok m → mem_ok (memmove m d s n).
Proof. unfold memmove. destruct (_ && _); auto using mem_ok_copy_up, mem_ok_copy_down. Qed.

#[export] Hint Resolve mem_ok_memset mem_ok_memmove : kernel.

(** What [memset] leaves in memory, used by the clients of [string.c]. *)
Lemma rd_memset m dst c n b : 0 ≤ n →
  rd (memset m dst c n) b = if (dst <=? b) && (b <? dst + n) then u8 c else rd m b.
Proof.
  intros Hn. unfold memset.
  destruct (Z.eqb_spec (dst mod 4) 0), (Z.eqb_spec (n mod 4) 0); simpl;
    try (rewrite rd_stosb, Z2Nat.id by lia; done).
  rewrite rd_stosl, Z2Nat.id by (apply Z.div_pos; lia).
  replace (4 * (n / 4)) with n by (pose proof (Z.div_mod n 4); lia).
  destruct (_ && _); [|done]. apply splat_byte. apply Z.mod_pos_bound. lia.
Qed.

Lemma rd_memmove m dst src n b : mem_ok m → 0 ≤ n →
  rd (memmove m dst src n) b =
    if (dst <=? b) && (b <? dst + n) then rd m (src + (b - dst)) else rd m b.
Proof.
  intros Hm Hn. unfold memmove.
  destruct (Z.ltb_spec src dst), (Z.ltb_spec dst (src + n)); simpl.
  1: { rewrite rd_copy_down, Z2Nat.id by (done || lia).
       bdestruct_all; simpl; try done; try lia; f_equal; lia. }
  all: rewrite rd_copy_up, Z2Nat.id by (done || lia); done.
Qed.

Lemma memcmp_eq_iff n : ∀ m p q,
  memcmp m p q n = 0 ↔ ∀ i, 0 ≤ i < Z.of_nat n → rd m (p + i) = rd m (q + i).
Proof.
  induction n as [|n IH]; intros m p q; simpl.
  - split; [intros _ i Hi; lia | done].
  - destruct (Z.eqb_spec (rd m p) (rd m q)) as [E|E]; simpl.
    + rewrite IH. split; intros H i Hi.
      * destruct (decide (i = 0)) as [-> |]; [by rewrite !Z.add_0_r|].
        specialize (H (i - 1)). replace (p + 1 + (i - 1)) with (p + i) in H by lia.
        replace (q + 1 + (i - 1)) with (q + i) in H by lia. apply H. lia.
      * rewrite <- !Z.add_assoc. apply H. lia.
    + split; [lia|]. intros H. specialize (H 0). rewrite !Z.add_0_r in H. lia.
Qed.

(** The two arrays agree up to the first NUL, or over all [n] bytes. *)
Lemma strncmp_eq_iff n : ∀ m p q,
  strncmp m p q n = 0 ↔
  (∀ i, 0 ≤ i < Z.of_nat n → (∀ j, 0 ≤ j < i → rd m (p + j) ≠ 0) →
        rd m (p + i) = rd m (q + i)).
Proof.
  induction n as [|n IH]; intros m p q; simpl.
  - split; [intros _ i Hi; lia | done].
  - destruct (Z.eqb_spec (rd m p) 0) as [E0|E0]; simpl.
    { split.
      - intros H i Hi Hj. destruct (decide (i = 0)) as [-> |]; [rewrite !Z.add_0_r; lia|].
        specialize (Hj 0). rewrite Z.add_0_r in Hj. destruct Hj; [lia|done].
      - intros H. specialize (H 0). rewrite !Z.add_0_r in H.
        rewrite H; [lia|lia|intros; lia]. }
    destruct (Z.eqb_spec (rd m p) (rd m q)) as [E|E].
    + rewrite IH. split; intros H i Hi Hj.
      * destruct (decide (i = 0)) as [-> |]; [by rewrite !Z.add_0_r|].
        specialize (H (i - 1)). replace (p + 1 + (i - 1)) with (p + i) in H by lia.
        replace (q + 1 + (i - 1)) with (q + i) in H by lia. apply H; [lia|].
        intros j ?. rewrite <- Z.add_assoc. apply Hj. lia.
      * rewrite <- !Z.add_assoc. apply H; [lia|]. intros j ?.
        destruct (decide (j = 0)) as [-> |]; [by rewrite Z.add_0_r|].
        specialize (Hj (j - 1)). replace (p + 1 + (j - 1)) with (p + j) in Hj by lia.
        apply Hj. lia.
    + split; [lia|]. intros H. specialize (H 0). rewrite !Z.add_0_r in H.
      rewrite H; [lia|lia|intros; lia].
Qed.

Lemma cstr_tail m s k : cstr m s (S k) → cstr m (s + 1) k ∧ rd m s ≠ 0.
Proof.
  intros [H0 H]. split; [split|].
  - rewrite <- H0. f_equal. lia.
  - intros i Hi. rewrite <- Z.add_assoc. apply H. lia.
  - specialize (H 0). rewrite Z.add_0_r in H. apply H. lia.
Qed.

Lemma cstr_nil m s : cstr m s 0 → rd m s = 0.
Proof. intros [H0 _]. by rewrite Z.add_0_r in H0. Qed.

Lemma strlen_loop_ok k : ∀ fuel m s n,
  cstr m (s + n) k → (k < fuel)%nat → strlen_loop fuel m s n = Some (n + Z.of_nat k).
Proof.
  induction k as [|k IH]; intros [|fuel] m s n Hs Hf; try lia; simpl.
  - rewrite (cstr_nil _ _ Hs). simpl. f_equal. lia.
  - apply cstr_tail in Hs as [Hs H0]. bdestruct_all; [done|].
    rewrite IH; [f_equal; lia| |lia]. by rewrite Z.add_assoc.
Qed.

(** Bytes that [safestrcpy] does not touch. *)
Lemma safestrcpy_loop_frame n : ∀ m s t b,
  b < s ∨ s + Z.of_nat n < b → rd (safestrcpy_loop m s t n) b = rd m b.
Proof.
  induction n as [|n IH]; intros m s t b Hb; simpl.
  - rewrite rd_wr_ne by lia. done.
  - destruct (_ =? 0).
    + rewrite !rd_wr_ne by lia. done.
    + rewrite IH by lia. rewrite rd_wr_ne by lia. done.
Qed.

Lemma safestrcpy_loop_ok n : ∀ m s t k,
  mem_ok m → cstr m t k →
  (∀ i, 0 ≤ i ≤ Z.of_nat n → ∀ j, 0 ≤ j ≤ Z.of_nat k → s + i ≠ t + j) →
  let m' := safestrcpy_loop m s t n in
  cstr m' s (k `min` n) ∧
  (∀ i, 0 ≤ i < Z.of_nat (k `min` n) → rd m' (s + i) = rd m (t + i)).
Proof.
  induction n as [|n IH]; intros m s t k Hm Ht Hdis; simpl.
  - rewrite Nat.min_0_r. split; [|intros; lia]. split; [|intros; lia].
    rewrite Z.add_0_r, rd_wr_eq. done.
  - destruct k as [|k].
    { rewrite (cstr_nil _ _ Ht). simpl. split; [|intros; lia]. split; [|intros; lia].
      rewrite Z.add_0_r, rd_wr_ne, rd_wr_eq by lia. done. }
    destruct (cstr_tail _ _ _ Ht) as [Ht' H0]. bdestruct_all; [done|]. clear n0.
    set (m1 := wr m s (rd m t)).
    assert (Hrd : ∀ j, 0 ≤ j ≤ Z.of_nat k → rd m1 (t + 1 + j) = rd m (t + 1 + j)).
    { intros j Hj. unfold m1. rewrite rd_wr_ne; [done|].
      specialize (Hdis 0 ltac:(lia) (1 + j) ltac:(lia)). lia. }
    destruct (IH m1 (s + 1) (t + 1) k) as [Hc Hp].
    + unfold m1. eauto with kernel.
    + destruct Ht' as [Ha Hb]. split; [rewrite Hrd by lia; done|].
      intros i Hi. rewrite Hrd by lia. auto.
    + intros i Hi j Hj. specialize (Hdis (1 + i) ltac:(lia) (1 + j) ltac:(lia)). lia.
    + assert (Hs : rd (safestrcpy_loop m1 (s + 1) (t + 1) n) s = rd m t).
      { rewrite safestrcpy_loop_frame by lia. unfold m1. rewrite rd_wr_eq.
        apply u8_small, Hm. }
      change (S k `min` S n)%nat with (S (k `min` n)).
      destruct Hc as [Hc1 Hc2]. split; [split|].
      * rewrite <- Hc1. f_equal. lia.
      * intros i Hi. destruct (decide (i = 0)) as [-> |]; [by rewrite Z.add_0_r, Hs|].
        replace (s + i) with (s + 1 + (i - 1)) by lia. apply Hc2. lia.
      * intros i Hi. destruct (decide (i = 0)) as [-> |]; [by rewrite !Z.add_0_r, Hs|].
        replace (s + i) with (s + 1 + (i - 1)) by lia. rewrite Hp by lia.
        rewrite Hrd by lia. f_equal. lia.
Qed.

Lemma strncpy_ok n : ∀ m s t k,
  mem_ok m → (k < n)%nat → cstr m t k →
  (∀ i, 0 ≤ i < Z.of_nat n → ∀ j, 0 ≤ j ≤ Z.of_nat k → s + i ≠ t + j) →
  ∀ b, rd (strncpy m s t n) b =
    if (s <=? b) && (b <? s + Z.of_nat k) then rd m (t + (b - s))
    else if (s <=? b) && (b <? s + Z.of_nat n) then 0 else rd m b.
Proof.
  induction n as [|n IH]; intros m s t k Hm Hk Ht Hdis b; [lia|simpl].
  destruct k as [|k].
  - rewrite (cstr_nil _ _ Ht). simpl. rewrite rd_stosb, rd_wr.
    bdestruct_all; simpl; try done; lia.
  - destruct (cstr_tail _ _ _ Ht) as [Ht' H0].
    destruct (Z.eqb_spec (rd m t) 0); [done|].
    assert (Hrd : ∀ j, 0 ≤ j ≤ Z.of_nat k → rd (wr m s (rd m t)) (t + 1 + j) = rd m (t + 1 + j)).
    { intros j Hj. rewrite rd_wr_ne; [done|].
      specialize (Hdis 0 ltac:(lia) (1 + j) ltac:(lia)). lia. }
    rewrite (IH _ _ _ k); [|eauto with kernel|lia| |].
    + destruct (decide (b = s)) as [-> |].
      * bdestruct_all; simpl; try lia. rewrite rd_wr_eq, Z.sub_diag, Z.add_0_r.
        apply u8_small, Hm.
      * bdestruct_all; simpl; try lia; try rewrite rd_wr_ne by lia; try done.
        replace (t + 1 + (b - (s + 1))) with (t + 1 + (b - s - 1)) by lia.
        rewrite Hrd by lia. f_equal. lia.
    + destruct Ht' as [Ha Hb]. split; [rewrite Hrd by lia; done|].
      intros i Hi. rewrite Hrd by lia. auto.
    + intros i Hi j Hj. specialize (Hdis (1 + i) ltac:(lia) (1 + j) ltac:(lia)). lia.
Qed.

Lemma atoi_loop_ok k : ∀ fuel m s n,
  (k < fuel)%nat →
  (∀ i, 0 ≤ i < Z.of_nat k → 48 ≤ rd m (s + i) ≤ 57) →
  ¬ 48 ≤ rd m (s + Z.of_nat k) ≤ 57 →
  0 ≤ n → dec_value m s k n < 2 ^ 31 →
  atoi_loop fuel m s n = Some (dec_value m s k n).
Proof.
  assert (Hmono : ∀ k m s n, 0 ≤ n →
    (∀ i, 0 ≤ i < Z.of_nat k → 48 ≤ rd m (s + i) ≤ 57) → n ≤ dec_value m s k n).
  { clear k. induction k as [|k IH]; intros m s n Hn Hd; simpl; [lia|].
    pose proof (Hd 0 ltac:(lia)) as H0. rewrite Z.add_0_r in H0.
    etrans; [|apply IH]; [lia|lia|].
    intros i Hi. rewrite <- Z.add_assoc. apply Hd. lia. }
  induction k as [|k IH]; intros [|fuel] m s n Hf Hd Hend Hn Hv; try lia; simpl.
  - rewrite Z.add_0_r in Hend. bdestruct_all; simpl; try done; lia.
  - pose proof (Hd 0 ltac:(lia)) as H0. rewrite Z.add_0_r in H0.
    assert (Hd' : ∀ i, 0 ≤ i < Z.of_nat k → 48 ≤ rd m (s + 1 + i) ≤ 57).
    { intros i Hi. rewrite <- Z.add_assoc. apply Hd. lia. }
    simpl in Hv. pose proof (Hmono k m (s + 1) (n * 10 + (rd m s - 48)) ltac:(lia) Hd').
    bdestruct_all; simpl; try lia.
    rewrite s32_small by lia. replace (n * 10 + rd m s - 48) with (n * 10 + (rd m s - 48)) by lia.
    apply IH; auto with lia. rewrite <- Z.add_assoc.
    replace (1 + Z.of_nat k) with (Z.of_nat (S k)) by lia. done.
Qed.

(** ** Properties *)

(** [memmove] copies the [n] bytes that were at [src] before the call to
    [dst], whatever the overlap of the two areas, and changes nothing else. *)
Theorem memmove_spec m dst src n b : mem_ok m → 0 ≤ n →
  rd (memmove m dst src n) b =
    if (dst <=? b) && (b <? dst + n) then rd m (src + (b - dst)) else rd m b.
Proof. apply rd_memmove. Qed.

(** Two overlapping moves of six bytes, one in each direction. *)
Lemma memmove_spec_witness :
  let m := st_bytes ∅ 100 [1; 2; 3; 4; 5; 6; 7; 8] in
  mem_ok m ∧ rd (memmove m 102 100 6) 107 = 6 ∧ rd (memmove m 100 102 6) 100 = 3.
Proof.
  intros m. assert (Hm : mem_ok m) by (unfold m; eauto with kernel).
  split; [done|]. split.
  - rewrite (memmove_spec m 102 100 6 107 Hm ltac:(lia)). reflexivity.
  - rewrite (memmove_spec m 100 102 6 100 Hm ltac:(lia)). reflexivity.
Defined.

(** [memset] stores the low byte of [c] in each of the [n] bytes at [dst] and
    nothing else: the word-at-a-time path taken for aligned areas is equivalent to
    storing byte by byte. *)
Theorem memset_spec m dst c n b : 0 ≤ n →
  rd (memset m dst c n) b = if (dst <=? b) && (b <? dst + n) then u8 c else rd m b.
Proof. apply rd_memset. Qed.

Lemma memset_spec_witness :
  rd (memset ∅ 4096 257 8) 4103 = 1 ∧ rd (memset ∅ 4097 257 3) 4099 = 1.
Proof.
  split.
  - rewrite (memset_spec ∅ 4096 257 8 4103 ltac:(lia)). reflexivity.
  - rewrite (memset_spec ∅ 4097 257 3 4099 ltac:(lia)). reflexivity.
Defined.

(** [safestrcpy] of a string of length [k] into a separate buffer of [n] bytes
    leaves there a NUL-terminated prefix of the string, of length
    [min k (n - 1)], and writes no byte outside the buffer. *)
Theorem safestrcpy_spec m s t n k :
  mem_ok m → 0 < n → cstr m t k →
  (∀ i, 0 ≤ i < n → ∀ j, 0 ≤ j ≤ Z.of_nat k → s + i ≠ t + j) →
  let m' := safestrcpy m s t n in
  let len := (k `min` Z.to_nat (n - 1))%nat in
  cstr m' s len ∧
  (∀ i, 0 ≤ i < Z.of_nat len → rd m' (s + i) = rd m (t + i)) ∧
  (∀ b, b < s ∨ s + n ≤ b → rd m' b = rd m b).
Proof.
  intros Hm Hn Ht Hdis m' len. unfold m', safestrcpy.
  destruct (Z.leb_spec n 0); [lia|].
  destruct (safestrcpy_loop_ok (Z.to_nat (n - 1)) m s t k) as [Hc Hp]; auto.
  { intros i Hi j Hj. apply Hdis; lia. }
  split; [done|]. split; [done|].
  intros b Hb. apply safestrcpy_loop_frame. lia.
Qed.

(** The process name "init/abc" cut to a buffer of five bytes. *)
Lemma safestrcpy_spec_witness :
  let m := st_bytes ∅ 200 [105; 110; 105; 116; 47; 97; 98; 99] in
  cstr (safestrcpy m 100 200 5) 100 4.
Proof.
  intros m. assert (Hm : mem_ok m) by (unfold m; eauto with kernel).
  assert (Ht : cstr m 200 8).
  { split; [reflexivity|]. intros i Hi.
    assert (i = 0 ∨ i = 1 ∨ i = 2 ∨ i = 3 ∨ i = 4 ∨ i = 5 ∨ i = 6 ∨ i = 7) as Hc by lia.
    destruct Hc as [->| [->| [->| [->| [->| [->| [->| ->]]]]]]]; vm_compute; discriminate. }
  destruct (safestrcpy_spec m 100 200 5 8 Hm ltac:(lia) Ht ltac:(intros; lia)) as [H _].
  exact H.
Defined.
