(* ===== verification/Mmu.v ===== *)
(** * Address and page-table arithmetic: [xv6/mmu.h] and [xv6/memlayout.h]

    The macros on 32-bit addresses, with the wrap-around of the [uint] casts. *)

From S2P Require Import Prelude.

(** ** [memlayout.h] *)

Definition EXTMEM : Z := 0x100000.
Definition PHYSTOP : Z := 0xE000000.
Definition DEVSPACE : Z := 0xFE000000.
Definition KERNBASE : Z := 0x80000000.
Definition KERNLINK : Z := KERNBASE + EXTMEM.

Definition V2P (a : Z) : Z := u32 (u32 a - KERNBASE).
Definition P2V (a : Z) : Z := u32 (a + KERNBASE).

(** ** [mmu.h] *)

Definition NPDENTRIES : Z := 1024.
Definition NPTENTRIES : Z := 1024.
Definition PGSIZE : Z := 4096.
Definition PTXSHIFT : Z := 12.
Definition PDXSHIFT : Z := 22.

Definition PDX (va : Z) : Z := Z.land (u32 va ≫ PDXSHIFT) 0x3FF.
Definition PTX (va : Z) : Z := Z.land (u32 va ≫ PTXSHIFT) 0x3FF.

Definition PGADDR (d t o : Z) : Z :=
  u32 (Z.lor (Z.lor (d ≪ PDXSHIFT) (t ≪ PTXSHIFT)) o).

Definition PGROUNDUP (sz : Z) : Z := Z.land (u32 (sz + PGSIZE - 1)) (Z.lnot (PGSIZE - 1)).
Definition PGROUNDDOWN (a : Z) : Z := Z.land a (Z.lnot (PGSIZE - 1)).

Definition PTE_P : Z := 0x001.
Definition PTE_W : Z := 0x002.
Definition PTE_U : Z := 0x004.

Definition PTE_ADDR (pte : Z) : Z := Z.land (u32 pte) (Z.lnot 0xFFF).
Definition PTE_FLAGS (pte : Z) : Z := Z.land (u32 pte) 0xFFF.

(** ** Lemmas *)

Lemma land_lnot_ones x n : 0 ≤ n → Z.land x (Z.lnot (Z.ones n)) = x - x mod 2 ^ n.
Proof.
  intros Hn. rewrite <- Z.ldiff_land, Z.ldiff_ones_r by done.
  rewrite Z.shiftl_mul_pow2, Z.shiftr_div_pow2 by done.
  pose proof (Z.div_mod x (2 ^ n)). lia.
Qed.

Lemma PGROUNDDOWN_eq a : PGROUNDDOWN a = a - a mod PGSIZE.
Proof. apply (land_lnot_ones a 12). lia. Qed.

Lemma PGROUNDUP_eq a : 0 ≤ a → a + PGSIZE - 1 < 2 ^ 32 →
  PGROUNDUP a = (a + PGSIZE - 1) - (a + PGSIZE - 1) mod PGSIZE.
Proof.
  intros. unfold PGROUNDUP. rewrite u32_small by (unfold PGSIZE in *; lia).
  apply (land_lnot_ones _ 12). lia.
Qed.

Lemma PGROUNDUP_bounds a : 0 ≤ a → a + PGSIZE - 1 < 2 ^ 32 →
  a ≤ PGROUNDUP a < a + PGSIZE ∧ PGROUNDUP a mod PGSIZE = 0.
Proof.
  intros. rewrite PGROUNDUP_eq by done. unfold PGSIZE in *.
  pose proof (Z.mod_pos_bound (a + 4096 - 1) 4096 ltac:(lia)). split; [lia|].
  pose proof (Z.div_mod (a + 4096 - 1) 4096 ltac:(lia)).
  replace (a + 4096 - 1 - (a + 4096 - 1) mod 4096)
    with ((a + 4096 - 1) / 4096 * 4096) by lia. by apply Z.mod_mul.
Qed.

Lemma PTE_ADDR_eq pte : PTE_ADDR pte = u32 pte - u32 pte mod PGSIZE.
Proof. apply (land_lnot_ones _ 12). lia. Qed.

Lemma PTE_FLAGS_eq pte : PTE_FLAGS pte = u32 pte mod PGSIZE.
Proof. apply (Z.land_ones _ 12). lia. Qed.

Lemma PDX_eq va : PDX va = u32 va / 2 ^ 22.
Proof.
  unfold PDX, PDXSHIFT. change 0x3FF with (Z.ones 10).
  rewrite Z.land_ones, Z.shiftr_div_pow2 by lia. apply Z.mod_small.
  pose proof (u32_range va). split; [apply Z.div_pos; lia|].
  apply Z.div_lt_upper_bound; lia.
Qed.

Lemma PTX_eq va : PTX va = u32 va / 2 ^ 12 mod 2 ^ 10.
Proof.
  unfold PTX, PTXSHIFT. change 0x3FF with (Z.ones 10).
  by rewrite Z.land_ones, Z.shiftr_div_pow2 by lia.
Qed.

(** Parts that occupy different bits: their [land] is 0 and their [lor] the sum. *)
Lemma land_low a b n : 0 ≤ n → 0 ≤ b < 2 ^ n → Z.land (a * 2 ^ n) b = 0.
Proof.
  intros Hn Hb. rewrite <- Z.shiftl_mul_pow2 by done.
  apply Z.bits_inj'. intros k Hk. rewrite Z.land_spec, Z.bits_0, Z.shiftl_spec by done.
  destruct (Z.ltb_spec k n).
  - rewrite Z.testbit_neg_r by lia. done.
  - destruct (decide (b = 0)) as [-> |]; [by rewrite Z.bits_0, andb_false_r|].
    rewrite (Z.bits_above_log2 b k), andb_false_r; [done|lia|]. apply Z.log2_lt_pow2; [lia|].
    apply Z.lt_le_trans with (2 ^ n); [lia|]. apply Z.pow_le_mono_r; lia.
Qed.

Lemma lor_add a b n : 0 ≤ n → 0 ≤ b < 2 ^ n → Z.lor (a * 2 ^ n) b = a * 2 ^ n + b.
Proof. intros Hn Hb. by rewrite Z.add_nocarry_lxor, Z.lxor_lor by (by apply land_low). Qed.

Lemma PGADDR_eq d t o : 0 ≤ d → 0 ≤ t < 2 ^ 10 → 0 ≤ o < 2 ^ 12 →
  PGADDR d t o = u32 (d * 2 ^ 22 + t * 2 ^ 12 + o).
Proof.
  intros. unfold PGADDR, PDXSHIFT, PTXSHIFT. rewrite !Z.shiftl_mul_pow2 by lia.
  rewrite (lor_add d (t * 2 ^ 12) 22) by lia.
  replace (d * 2 ^ 22 + t * 2 ^ 12) with ((d * 2 ^ 10 + t) * 2 ^ 12) by lia.
  rewrite lor_add by lia. done.
Qed.

Lemma PDX_range va : 0 ≤ PDX va < NPDENTRIES.
Proof.
  rewrite PDX_eq. pose proof (u32_range va). unfold NPDENTRIES.
  split; [apply Z.div_pos; lia|]. apply Z.div_lt_upper_bound; lia.
Qed.

Lemma PTX_range va : 0 ≤ PTX va < NPTENTRIES.
Proof. rewrite PTX_eq. unfold NPTENTRIES. apply (Z.mod_pos_bound _ (2 ^ 10)). lia. Qed.

Lemma V2P_eq a : KERNBASE ≤ a < 2 ^ 32 → V2P a = a - KERNBASE.
Proof.
  intros. unfold V2P, KERNBASE in *. rewrite (u32_small a) by lia. apply u32_small. lia.
Qed.

Lemma P2V_V2P a : KERNBASE ≤ a < 2 ^ 32 → P2V (V2P a) = a.
Proof.
  intros. rewrite V2P_eq by done. unfold P2V. rewrite u32_small; unfold KERNBASE in *; lia.
Qed.

(** ** Properties *)

(** The three parts of a virtual address put together again give the address:
    [PGADDR(PDX(va), PTX(va), va mod PGSIZE)] is [va], and the two table indices
    are within a 1024-entry table. *)
Theorem pgaddr_roundtrip va :
  PGADDR (PDX va) (PTX va) (u32 va mod PGSIZE) = u32 va ∧
  0 ≤ PDX va < NPDENTRIES ∧ 0 ≤ PTX va < NPTENTRIES.
Proof.
  split; [|split; [apply PDX_range | apply PTX_range]].
  pose proof (PDX_range va). pose proof (PTX_range va).
  unfold NPDENTRIES, NPTENTRIES, PGSIZE in *.
  pose proof (Z.mod_pos_bound (u32 va) 4096 ltac:(lia)).
  rewrite PGADDR_eq by lia. rewrite PDX_eq, PTX_eq.
  assert (E : u32 va / 2 ^ 22 * 2 ^ 22 + u32 va / 2 ^ 12 mod 2 ^ 10 * 2 ^ 12 +
              u32 va mod 4096 = u32 va).
  { pose proof (Z.div_mod (u32 va) 4096 ltac:(lia)).
    pose proof (Z.div_mod (u32 va / 4096) (2 ^ 10) ltac:(lia)) as E2.
    rewrite Z.div_div in E2 by lia. change (4096 * 2 ^ 10) with (2 ^ 22) in E2.
    change (2 ^ 12) with 4096. lia. }
  rewrite E. apply u32_small, u32_range.
Qed.
