(* ===== verification/Spinlock.v ===== *)
(** * Spin locks: [xv6/spinlock.c]

    Several processors share the locks; each has its interrupt flag and the
    nesting depth of [pushcli].  A lock is known by its address and an operation
    takes the number [c] of the processor that runs it.  In [lstep] processors race
    for locks: an exchange of the loop of [acquire] is a step, and so is each store to
    a lock, in the order of the source (the barriers keep that order); the sequential
    [acquire] does not return on a lock that is taken.  The call stack that [acquire]
    saves in [lk->pcs] is only read by a debugger and left out. *)

From S2P Require Import Prelude Mmu.

(** ** State *)

(** Of [struct cpu] and of the processor: the flag [FL_IF] of [%eflags],
    [cpu->ncli] and [cpu->intena]. *)
Record cpu := Cpu {
  c_if : bool;
  c_ncli : Z;
  c_intena : bool
}.

(** [struct spinlock]; [lk_cpu] is the processor that holds it. *)
Record spinlock := Spin {
  lk_locked : Z;
  lk_cpu : option nat
}.

#[export] Instance spinlock_eq : EqDecision spinlock.
Proof. solve_decision. Defined.

Record lkst := Lkst {
  l_cpu : nat → cpu;
  l_locks : gmap Z spinlock
}.

Definition the_lock (s : lkst) (lk : Z) : spinlock := default (Spin 0 None) (l_locks s !! lk).

Definition set_cpu (c : nat) (x : cpu) (s : lkst) : lkst := Lkst (fupd (l_cpu s) c x) (l_locks s).
Definition set_lk (lk : Z) (x : spinlock) (s : lkst) : lkst := Lkst (l_cpu s) (<[lk := x]> (l_locks s)).

(** ** Operations *)

(** The test of [mycpu]: it is called with interrupts disabled. *)
Definition mycpu (c : nat) : K lkst cpu :=
  s ← kget;
  kassert (negb (c_if (l_cpu s c))) "mycpu called with interrupts enabled";;
  mret (l_cpu s c).

Definition cli (c : nat) : K lkst unit :=
  kmod (λ s, set_cpu c (Cpu false (c_ncli (l_cpu s c)) (c_intena (l_cpu s c))) s).
Definition sti (c : nat) : K lkst unit :=
  kmod (λ s, set_cpu c (Cpu true (c_ncli (l_cpu s c)) (c_intena (l_cpu s c))) s).

Definition initlock (lk : Z) : K lkst unit := kmod (set_lk lk (Spin 0 None)).

Definition pushcli (c : nat) : K lkst unit :=
  eflags ← kgets (λ s, c_if (l_cpu s c));
  cli c;;
  x ← mycpu c;
  (if c_ncli x =? 0 then kmod (set_cpu c (Cpu (c_if x) (c_ncli x) eflags)) else mret tt);;
  x ← mycpu c;
  kmod (set_cpu c (Cpu (c_if x) (c_ncli x + 1) (c_intena x))).

Definition popcli (c : nat) : K lkst unit :=
  fl ← kgets (λ s, c_if (l_cpu s c));
  kassert (negb fl) "popcli - interruptible";;
  x ← mycpu c;
  kmod (set_cpu c (Cpu (c_if x) (c_ncli x - 1) (c_intena x)));;
  kassert (negb (c_ncli x - 1 <? 0)) "popcli";;
  x ← mycpu c;
  if (c_ncli x =? 0) && c_intena x then sti c else mret tt.

Definition holding (c : nat) (lk : Z) : K lkst bool :=
  pushcli c;;
  s ← kget;
  mycpu c;;
  let r := negb (lk_locked (the_lock s lk) =? 0) && bool_decide (lk_cpu (the_lock s lk) = Some c) in
  popcli c;;
  mret r.

(** [acquire] up to its loop, one exchange of the loop, and the rest. *)
Definition acquire_enter (c : nat) (lk : Z) : K lkst unit :=
  pushcli c;;
  h ← holding c lk;
  kassert (negb h) "acquire".

Definition xchg1 (lk : Z) : K lkst Z :=
  x ← kgets (λ s, the_lock s lk);
  kmod (set_lk lk (Spin 1 (lk_cpu x)));;
  mret (lk_locked x).

Definition acquire_own (c : nat) (lk : Z) : K lkst unit :=
  mycpu c;;
  x ← kgets (λ s, the_lock s lk);
  kmod (set_lk lk (Spin (lk_locked x) (Some c))).

Definition acquire (c : nat) (lk : Z) : K lkst unit :=
  acquire_enter c lk;;
  r ← xchg1 lk;
  (if negb (r =? 0) then khang else mret tt);;
  acquire_own c lk.

(** The statements of [release], of which other processors see the two stores one
    after the other. *)
Definition release_steps (c : nat) (lk : Z) : list (K lkst unit) := [
  (h ← holding c lk; kassert h "release");
  kmod (λ s, set_lk lk (Spin (lk_locked (the_lock s lk)) None) s);
  kmod (λ s, set_lk lk (Spin 0 (lk_cpu (the_lock s lk))) s);
  popcli c
].

Definition in_order (l : list (K lkst unit)) : K lkst unit := foldr (λ m r, m;; r) (mret tt) l.

Definition release (c : nat) (lk : Z) : K lkst unit := in_order (release_steps c lk).

(** The call stack, by the chain of saved frame pointers from [v]. *)
Fixpoint getcallerpcs_loop (m : gmap Z Z) (ebp : Z) (n : nat) : list Z :=
  match n with
  | O => []
  | S n' =>
      if (ebp =? 0) || (ebp <? KERNBASE) || (ebp =? 4294967295) then replicate n 0
      else ld32 m (ebp + 4) :: getcallerpcs_loop m (ld32 m ebp) n'
  end.

Definition getcallerpcs (m : gmap Z Z) (v : Z) : list Z := getcallerpcs_loop m (u32 (v - 8)) 10.

(** ** Processors racing for locks

    What a processor is doing: the locks whose critical sections it is in, the lock it
    is acquiring or releasing and how far it got, and the interrupt flag its code last
    chose while it held none.  A processor acquires only locks it does not hold and
    releases only locks it holds. *)
Inductive stage := Waiting | Taken | Leaving (k : nat).

Record pcst := Pc {
  pc_held : gset Z;
  pc_busy : option (Z * stage);
  pc_flag : bool
}.

Record racing := Racing { r_lk : lkst; r_pc : nat → pcst }.

(** After statement [k] of [release]. *)
Definition leave (lk : Z) (k : nat) : option (Z * stage) :=
  if (S k <? length (release_steps 0 lk))%nat then Some (lk, Leaving (S k)) else None.

Inductive lstep : racing → racing → Prop :=
| lstep_flag c b s pc :
    pc_held (pc c) = ∅ → pc_busy (pc c) = None →
    lstep (Racing s pc)
      (Racing (set_cpu c (Cpu b (c_ncli (l_cpu s c)) (c_intena (l_cpu s c))) s) (fupd pc c (Pc ∅ None b)))
| lstep_enter c lk s s' pc :
    pc_busy (pc c) = None → lk ∉ pc_held (pc c) →
    acquire_enter c lk s = Ok (tt, s') →
    lstep (Racing s pc) (Racing s' (fupd pc c (Pc (pc_held (pc c)) (Some (lk, Waiting)) (pc_flag (pc c)))))
| lstep_spin c lk r s s' pc :
    pc_busy (pc c) = Some (lk, Waiting) → xchg1 lk s = Ok (r, s') → r ≠ 0 →
    lstep (Racing s pc) (Racing s' pc)
| lstep_take c lk s s' pc :
    pc_busy (pc c) = Some (lk, Waiting) → xchg1 lk s = Ok (0, s') →
    lstep (Racing s pc) (Racing s' (fupd pc c (Pc (pc_held (pc c)) (Some (lk, Taken)) (pc_flag (pc c)))))
| lstep_own c lk s s' pc :
    pc_busy (pc c) = Some (lk, Taken) → acquire_own c lk s = Ok (tt, s') →
    lstep (Racing s pc) (Racing s' (fupd pc c (Pc ({[lk]} ∪ pc_held (pc c)) None (pc_flag (pc c)))))
| lstep_release c lk s pc :
    pc_busy (pc c) = None → lk ∈ pc_held (pc c) →
    lstep (Racing s pc)
      (Racing s (fupd pc c (Pc (pc_held (pc c) ∖ {[lk]}) (Some (lk, Leaving 0)) (pc_flag (pc c)))))
| lstep_leave c lk k op s s' pc :
    pc_busy (pc c) = Some (lk, Leaving k) → release_steps c lk !! k = Some op → op s = Ok (tt, s') →
    lstep (Racing s pc) (Racing s' (fupd pc c (Pc (pc_held (pc c)) (leave lk k) (pc_flag (pc c))))).

(** All locks free, no processor between [pushcli] and [popcli]. *)
Definition linit (t : racing) : Prop :=
  l_locks (r_lk t) = ∅ ∧
  ∀ c, c_ncli (l_cpu (r_lk t) c) = 0 ∧ r_pc t c = Pc ∅ None (c_if (l_cpu (r_lk t) c)).

(** How deep processor [c] is in [pushcli]. *)
Definition depth (p : pcst) : Z :=
  Z.of_nat (size (pc_held p)) + match pc_busy p with Some _ => 1 | None => 0 end.

(** ** Invariant *)

(** What processor [c] made of lock [lk], where it has it: taken and not yet signed,
    held and signed, signed no more, given back. *)
Definition lock_by (p : pcst) (c : nat) (lk : Z) : option spinlock :=
  if decide (lk ∈ pc_held p) then Some (Spin 1 (Some c))
  else match pc_busy p with
       | Some (lk', st) =>
           if decide (lk' = lk) then
             match st with
             | Waiting => None
             | Taken => Some (Spin 1 None)
             | Leaving 0 | Leaving 1 => Some (Spin 1 (Some c))
             | Leaving 2 => Some (Spin 1 None)
             | Leaving _ => None
             end
           else None
       | None => None
       end.

Record cpu_ok (s : lkst) (p : pcst) (c : nat) : Prop := {
  co_ncli : c_ncli (l_cpu s c) = depth p;
  co_if : c_if (l_cpu s c) = if depth p =? 0 then pc_flag p else false;
  co_intena : 0 < depth p → c_intena (l_cpu s c) = pc_flag p;
  co_busy lk st : pc_busy p = Some (lk, st) → lk ∉ pc_held p ∧ ∀ k, st = Leaving k → (k < 4)%nat
}.

(** A lock is free and no processor has it, or one processor has it. *)
Definition lock_ok (s : lkst) (pc : nat → pcst) (lk : Z) : Prop :=
  the_lock s lk = Spin 0 None ∧ (∀ c, lock_by (pc c) c lk = None) ∨
  ∃ c, lock_by (pc c) c lk = Some (the_lock s lk) ∧ ∀ c', c' ≠ c → lock_by (pc c') c' lk = None.

Record linv (t : racing) : Prop := {
  li_cpu c : cpu_ok (r_lk t) (r_pc t c) c;
  li_lock lk : lock_ok (r_lk t) (r_pc t) lk
}.

(** ** Lemmas *)

Lemma depth_nonneg p : 0 ≤ depth p.
Proof. unfold depth. destruct (pc_busy p); lia. Qed.

(** One processor's record replaced, the locks and the others left alone. *)
Record cpu_now (c : nat) (x : cpu) (s s' : lkst) : Prop := {
  cn_this : l_cpu s' c = x;
  cn_other c' : c' ≠ c → l_cpu s' c' = l_cpu s c';
  cn_locks : l_locks s' = l_locks s
}.

Lemma cpu_now_set c x s : cpu_now c x s (set_cpu c x s).
Proof. split; simpl; [by rewrite fupd_eq|intros; by rewrite fupd_ne|done]. Qed.

Lemma cpu_now_trans c x y s1 s2 s3 : cpu_now c x s1 s2 → cpu_now c y s2 s3 → cpu_now c y s1 s3.
Proof.
  intros [A1 A2 A3] [B1 B2 B3]. split; [done|intros; by rewrite B2, A2|congruence].
Qed.

#[local] Hint Resolve cpu_now_set cpu_now_trans : kernel.

Lemma set_cpu_ok c x s0 s (Q : unit → lkst → Prop) y :
  cpu_now c y s0 s → (∀ s', cpu_now c x s0 s' → Q tt s') → runs (kmod (set_cpu c x)) Q s.
Proof. intros. kstep. eauto with kernel. Qed.

Lemma mycpu_ok c s (Q : cpu → lkst → Prop) :
  c_if (l_cpu s c) = false → Q (l_cpu s c) s → runs (mycpu c) Q s.
Proof. intros Hi HQ. unfold mycpu. repeat kstep; [by rewrite Hi|done]. Qed.

Lemma pushcli_ok c s (Q : unit → lkst → Prop) :
  let x := l_cpu s c in
  (∀ s', cpu_now c (Cpu false (c_ncli x + 1) (if c_ncli x =? 0 then c_if x else c_intena x)) s s' → Q tt s') →
  runs (pushcli c) Q s.
Proof.
  intros x HQ. assert (Ex : l_cpu s c = x) by done. clearbody x. unfold pushcli, cli.
  do 4 kstep. kstep. apply mycpu_ok; [simpl; by rewrite fupd_eq|].
  cbn [l_cpu set_cpu]. rewrite fupd_eq, Ex. cbn [c_if c_ncli c_intena]. kstep.
  destruct (c_ncli x =? 0) eqn:E.
  - kstep. kstep. apply mycpu_ok; [simpl; by rewrite fupd_eq|]. kstep. apply HQ.
    cbn [l_cpu set_cpu]. rewrite fupd_eq. cbn [c_if c_ncli c_intena]. eauto with kernel.
  - kstep. kstep. apply mycpu_ok; [simpl; by rewrite fupd_eq|]. kstep. apply HQ.
    cbn [l_cpu set_cpu]. rewrite fupd_eq. cbn [c_if c_ncli c_intena]. eauto with kernel.
Qed.

Lemma popcli_ok c s (Q : unit → lkst → Prop) :
  let x := l_cpu s c in
  c_if x = false → 0 < c_ncli x →
  (∀ s', cpu_now c (Cpu ((c_ncli x =? 1) && c_intena x) (c_ncli x - 1) (c_intena x)) s s' → Q tt s') →
  runs (popcli c) Q s.
Proof.
  intros x Hi Hn HQ. assert (Ex : l_cpu s c = x) by done. clearbody x. unfold popcli, sti.
  do 4 kstep; [by rewrite Ex, Hi|]. kstep. apply mycpu_ok; [by rewrite Ex|]. rewrite Ex. kstep. kstep. kstep. kstep; [bdestruct_all; done || lia|].
  kstep. apply mycpu_ok; [simpl; by rewrite fupd_eq|]. cbn [l_cpu set_cpu]. rewrite fupd_eq.
  cbn [c_if c_ncli c_intena]. replace (c_ncli x - 1 =? 0) with (c_ncli x =? 1) by (bdestruct_all; done || lia).
  destruct ((c_ncli x =? 1) && c_intena x); kstep; apply HQ.
  - cbn [l_cpu set_cpu]. rewrite fupd_eq. cbn [c_if c_ncli c_intena]. eauto with kernel.
  - rewrite <- Hi. eauto with kernel.
Qed.

(** Does processor [c] hold [lk]? *)
Definition owns (s : lkst) (c : nat) (lk : Z) : bool :=
  negb (lk_locked (the_lock s lk) =? 0) && bool_decide (lk_cpu (the_lock s lk) = Some c).

(** [holding] answers that, and leaves the interrupt state as it was. *)
Lemma holding_ok c lk s (Q : bool → lkst → Prop) :
  let x := l_cpu s c in
  0 ≤ c_ncli x → (0 < c_ncli x → c_if x = false) →
  (∀ s', cpu_now c (Cpu (c_if x) (c_ncli x) (if c_ncli x =? 0 then c_if x else c_intena x)) s s' →
     Q (owns s c lk) s') →
  runs (holding c lk) Q s.
Proof.
  intros x Hn Hi HQ. unfold holding. kstep. apply pushcli_ok. fold x. intros s1 H1.
  pose proof (cn_this _ _ _ _ H1) as E1. do 2 kstep. kstep. apply mycpu_ok; [by rewrite E1|]. kstep.
  apply popcli_ok; rewrite E1; [done|simpl; lia|]. intros s2 H2. kstep.
  replace (the_lock s1 lk) with (the_lock s lk) by (unfold the_lock; by rewrite (cn_locks _ _ _ _ H1)).
  apply HQ. eapply cpu_now_trans; [done|]. cbn [c_if c_ncli c_intena] in H2.
  replace (c_ncli x + 1 - 1) with (c_ncli x) in H2 by lia.
  replace (_ && _) with (c_if x) in H2; [done|].
  destruct (Z.eqb_spec (c_ncli x) 0) as [->|]; [done|].
  rewrite Hi by lia. rewrite (proj2 (Z.eqb_neq _ _)) by lia. done.
Qed.

(** ** The operations on a processor in the state [linv] describes *)

Lemma cpu_ok_now s s' p c : cpu_ok s p c → l_cpu s' c = l_cpu s c → cpu_ok s' p c.
Proof. intros [] E. split; rewrite ?E; done. Qed.

Lemma the_lock_same s s' lk : l_locks s' = l_locks s → the_lock s' lk = the_lock s lk.
Proof. unfold the_lock. by intros ->. Qed.

Lemma the_lock_set lk x s lk' :
  the_lock (set_lk lk x s) lk' = if decide (lk' = lk) then x else the_lock s lk'.
Proof.
  unfold the_lock, set_lk. simpl. case_decide; subst.
  - by rewrite lookup_insert_eq.
  - by rewrite lookup_insert_ne.
Qed.

(** What entering [acquire] leaves: deeper by one, spinning. *)
Lemma acquire_enter_ok c lk s p (Q : unit → lkst → Prop) :
  cpu_ok s p c → pc_busy p = None → owns s c lk = false → lk ∉ pc_held p →
  (∀ s' x, cpu_now c x s s' → cpu_ok s' (Pc (pc_held p) (Some (lk, Waiting)) (pc_flag p)) c → Q tt s') →
  runs (acquire_enter c lk) Q s.
Proof.
  intros [Hn Hi He Hs] Hp Ho Hl HQ. unfold acquire_enter. pose proof (depth_nonneg p) as Hd.
  kstep. apply pushcli_ok. intros s1 H1. pose proof (cn_this _ _ _ _ H1) as E1. kstep.
  apply holding_ok; rewrite E1; cbn [c_ncli c_if]; [lia|done|]. intros s2 H2.
  replace (owns s1 c lk) with (owns s c lk) by (unfold owns; by rewrite (the_lock_same s s1) by apply H1).
  kstep; [by rewrite Ho|]. eapply (HQ s2); [by eapply cpu_now_trans|].
  pose proof (cn_this _ _ _ _ H2) as E2. unfold depth in *. rewrite Hp in *.
  split; rewrite ?E2; unfold depth; cbn [c_ncli c_if c_intena pc_held pc_busy pc_flag].
  - lia.
  - rewrite (proj2 (Z.eqb_neq _ _)) by lia. done.
  - intros _. rewrite (proj2 (Z.eqb_neq (c_ncli _ + 1) 0)) by lia. rewrite Hn.
    destruct (Z.eqb_spec (Z.of_nat (size (pc_held p)) + 0) 0) as [E|]; [|by apply He; lia].
    rewrite Hi. by destruct (Z.eqb_spec (Z.of_nat (size (pc_held p)) + 0) 0).
  - by intros ? ? [= <- <-].
Qed.

Lemma xchg1_eq lk s :
  xchg1 lk s = Ok (lk_locked (the_lock s lk), set_lk lk (Spin 1 (lk_cpu (the_lock s lk))) s).
Proof. done. Qed.

Lemma acquire_own_ok c lk s (Q : unit → lkst → Prop) :
  c_if (l_cpu s c) = false → Q tt (set_lk lk (Spin (lk_locked (the_lock s lk)) (Some c)) s) →
  runs (acquire_own c lk) Q s.
Proof. intros. unfold acquire_own. kstep. apply mycpu_ok; [done|]. by repeat kstep. Qed.

(** The check of [release] changes nothing where it passes. *)
Lemma release_check_ok c lk s (Q : unit → lkst → Prop) :
  0 < c_ncli (l_cpu s c) → c_if (l_cpu s c) = false → owns s c lk = true →
  (∀ s', cpu_now c (l_cpu s c) s s' → Q tt s') →
  runs (h ← holding c lk; kassert h "release") Q s.
Proof.
  intros Hn Hi Ho HQ. kstep. apply holding_ok; [lia|done|]. intros s1 H1. rewrite (proj2 (Z.eqb_neq _ _)) in H1 by lia.
  kstep; [done|]. apply HQ. by destruct (l_cpu s c).
Qed.

(** What [release] leaves: the lock free, one level less, the interrupt flag back
    when it was the last. *)
Lemma popped s s' p p' c : cpu_ok s p c → depth p' = depth p - 1 → pc_flag p' = pc_flag p → 0 < depth p → pc_busy p' = None →
  l_cpu s' c = Cpu ((c_ncli (l_cpu s c) =? 1) && c_intena (l_cpu s c)) (c_ncli (l_cpu s c) - 1) (c_intena (l_cpu s c)) →
  cpu_ok s' p' c.
Proof.
  intros [Hn Hi He Hb] Ed Ef Hpos Eb E. split; rewrite ?E, ?Ed, ?Ef, ?Eb; cbn [c_ncli c_if c_intena].
  - lia.
  - rewrite He by lia. destruct (Z.eqb_spec (c_ncli (l_cpu s c)) 1), (Z.eqb_spec (depth p - 1) 0); lia || done.
  - intros. apply He. lia.
  - done.
Qed.

Lemma release_ok c lk s p (Q : unit → lkst → Prop) :
  cpu_ok s p c → pc_busy p = None → lk ∈ pc_held p → owns s c lk = true →
  (∀ s' x, cpu_now c x (set_lk lk (Spin 0 None) s) s' →
     cpu_ok s' (Pc (pc_held p ∖ {[lk]}) None (pc_flag p)) c → Q tt s') →
  runs (release c lk) Q s.
Proof.
  intros Hc Hp Hl Ho HQ. pose proof Hc as [Hn Hi _ _]. unfold release, release_steps, in_order. cbn [foldr].
  assert (size (pc_held p ∖ {[lk]}) = (size (pc_held p) - 1)%nat ∧ (0 < size (pc_held p))%nat) as [Hsz Hpos].
  { rewrite size_difference, size_singleton by set_solver. split; [done|].
    assert (size ({[lk]} : gset Z) ≤ size (pc_held p))%nat as H by (apply subseteq_size; set_solver).
    rewrite size_singleton in H. lia. }
  assert (Hd : depth p = Z.of_nat (size (pc_held p))) by (unfold depth; rewrite Hp; lia).
  rewrite (proj2 (Z.eqb_neq _ _)) in Hi by lia.
  kstep. apply release_check_ok; [lia|done|done|]. intros s1 H1. pose proof (cn_this _ _ _ _ H1) as E1.
  do 5 kstep. apply popcli_ok; cbn [l_cpu set_lk]; rewrite E1; [done|lia|].
  intros s2 H2. kstep. eapply (HQ s2).
  - split; [apply H2| |].
    + intros c' Hc'. rewrite (cn_other _ _ _ _ H2) by done. by apply H1.
    + rewrite (cn_locks _ _ _ _ H2). rewrite !the_lock_set, !decide_True by done. simpl.
      rewrite (cn_locks _ _ _ _ H1), insert_insert_eq. done.
  - eapply popped; [exact Hc|unfold depth in *; simpl; rewrite Hp, Hsz in *; lia|done|lia|done|apply H2].
Qed.

(** ** The sequential operations

    A processor outside every critical section with the lock [lk] free, and one that
    holds [lk] and nothing else. *)
Definition quiet (c : nat) (lk : Z) (b : bool) (s : lkst) : Prop :=
  cpu_ok s (Pc ∅ None b) c ∧ the_lock s lk = Spin 0 None.
Definition holds (c : nat) (lk : Z) (b : bool) (s : lkst) : Prop :=
  cpu_ok s (Pc {[lk]} None b) c ∧ the_lock s lk = Spin 1 (Some c).

Lemma holds_cpu c lk b s : holds c lk b s →
  c_ncli (l_cpu s c) = 1 ∧ c_if (l_cpu s c) = false ∧ owns s c lk = true.
Proof.
  intros [[Hn Hi _ _] Hl]. unfold depth in Hn, Hi. cbn [pc_held pc_busy pc_flag] in Hn, Hi.
  rewrite size_singleton in Hn, Hi.
  split; [done|]. split; [done|]. unfold owns. rewrite Hl. simpl. by apply bool_decide_eq_true.
Qed.

Lemma quiet_init c lk b : quiet c lk b (Lkst (λ _, Cpu b 0 false) ∅).
Proof. split; [|done]. by split. Qed.

(** [acquire] and [release] of a processor that holds the locks [H]. *)
Lemma acquire_held c lk b H s (Q : unit → lkst → Prop) :
  cpu_ok s (Pc H None b) c → lk ∉ H → the_lock s lk = Spin 0 None →
  (∀ s', cpu_ok s' (Pc ({[lk]} ∪ H) None b) c →
     (∀ lk', the_lock s' lk' = if decide (lk' = lk) then Spin 1 (Some c) else the_lock s lk') → Q tt s') →
  runs (acquire c lk) Q s.
Proof.
  intros Hc Hlk Hl HQ. unfold acquire. kstep.
  apply (acquire_enter_ok c lk s (Pc H None b)); [done|done|by unfold owns; rewrite Hl|done|].
  intros s1 x H1 Hc1. simpl in Hc1. kstep.
  assert (Hs : ∀ lk', the_lock s1 lk' = the_lock s lk') by (intros; by apply the_lock_same, H1).
  eapply runs_of_eq; [apply xchg1_eq|]. rewrite Hs, Hl. simpl. kstep. kstep.
  apply acquire_own_ok.
  { cbn [l_cpu set_lk]. rewrite (co_if _ _ _ Hc1). unfold depth. cbn [pc_held pc_busy]. by rewrite (proj2 (Z.eqb_neq _ _)) by lia. }
  apply HQ.
  - eapply (cpu_ok_now s1); [|done]. destruct Hc1 as [Hn Hi He _]. unfold depth in Hn, Hi, He.
    cbn [pc_held pc_busy pc_flag] in Hn, Hi, He.
    split; unfold depth; cbn [pc_held pc_busy pc_flag]; rewrite ?size_union, ?size_singleton by set_solver; [lia| |intros; apply He; lia|done].
    rewrite Hi. by rewrite !(proj2 (Z.eqb_neq _ _)) by lia.
  - intros lk'. rewrite !the_lock_set, Hs. by repeat case_decide.
Qed.

Lemma release_held c lk b H s (Q : unit → lkst → Prop) :
  cpu_ok s (Pc H None b) c → lk ∈ H → the_lock s lk = Spin 1 (Some c) →
  (∀ s', cpu_ok s' (Pc (H ∖ {[lk]}) None b) c →
     (∀ lk', the_lock s' lk' = if decide (lk' = lk) then Spin 0 None else the_lock s lk') → Q tt s') →
  runs (release c lk) Q s.
Proof.
  intros Hc Hlk Hl HQ. apply (release_ok c lk s (Pc H None b)); [done|done|done| |].
  { unfold owns. rewrite Hl. simpl. by apply bool_decide_eq_true. }
  intros s' x H1 Hc1. apply HQ; [done|]. intros lk'. rewrite (the_lock_same (set_lk lk (Spin 0 None) s)) by apply H1.
  apply the_lock_set.
Qed.

Lemma acquire_ok c lk b s (Q : unit → lkst → Prop) :
  quiet c lk b s → (∀ s', holds c lk b s' → Q tt s') → runs (acquire c lk) Q s.
Proof.
  intros [Hc Hl] HQ. eapply acquire_held; [done|set_solver|done|]. intros s' Hc' Hs. apply HQ.
  rewrite union_empty_r_L in Hc'. split; [done|]. by rewrite Hs, decide_True.
Qed.

Lemma release_runs c lk b s (Q : unit → lkst → Prop) :
  holds c lk b s → (∀ s', quiet c lk b s' → Q tt s') → runs (release c lk) Q s.
Proof.
  intros [Hc Hl] HQ. eapply release_held; [done|set_solver|done|]. intros s' Hc' Hs. apply HQ.
  rewrite difference_diag_L in Hc'. split; [done|]. by rewrite Hs, decide_True.
Qed.

Lemma holding_runs c lk b s (Q : bool → lkst → Prop) :
  holds c lk b s → (∀ s', holds c lk b s' → Q true s') → runs (holding c lk) Q s.
Proof.
  intros Hh HQ. destruct (holds_cpu c lk b s Hh) as (Hn & Hi & Ho). destruct Hh as [Hc Hl].
  apply holding_ok; rewrite ?Hn; [done|done|]. intros s' H1. rewrite Ho. apply HQ. split.
  - eapply cpu_ok_now; [exact Hc|]. rewrite (cn_this _ _ _ _ H1). simpl. rewrite <- Hn. by destruct (l_cpu s c).
  - by rewrite (the_lock_same s) by apply H1.
Qed.

(** ** The race keeps the invariant *)

Lemma lock_by_taken p c lk x : lock_by p c lk = Some x → lk_locked x = 1.
Proof.
  unfold lock_by. case_decide; [by intros [= <-]|]. destruct (pc_busy p) as [[lk' st]|]; [|done].
  case_decide; [|done]. destruct st as [| |[|[|[|k]]]]; naive_solver.
Qed.

Lemma lock_by_cpu p c lk x : lock_by p c lk = Some x → lk_cpu x = None ∨ lk_cpu x = Some c.
Proof.
  unfold lock_by. case_decide; [intros [= <-]; by right|]. destruct (pc_busy p) as [[lk' st]|]; [|done].
  case_decide; [|done]. destruct st as [| |[|[|[|k]]]]; naive_solver.
Qed.

(** Who has a lock made it what it is, and is alone. *)
Lemma has_lock t c lk x : linv t → lock_by (r_pc t c) c lk = Some x →
  the_lock (r_lk t) lk = x ∧ ∀ c', c' ≠ c → lock_by (r_pc t c') c' lk = None.
Proof.
  intros Ht E. destruct (li_lock t Ht lk) as [[_ Hn]|(c' & E' & Ho)]; [by rewrite Hn in E|].
  destruct (decide (c' = c)) as [-> |Hne]; [by simplify_eq|]. by rewrite Ho in E.
Qed.

Lemma free_lock t lk : linv t → lk_locked (the_lock (r_lk t) lk) = 0 →
  the_lock (r_lk t) lk = Spin 0 None ∧ ∀ c, lock_by (r_pc t c) c lk = None.
Proof.
  intros Ht E. destruct (li_lock t Ht lk) as [?|(c' & E'%lock_by_taken & _)]; [done|]. by rewrite E in E'.
Qed.

Lemma owns_held t c lk : linv t →
  owns (r_lk t) c lk = bool_decide (lock_by (r_pc t c) c lk = Some (Spin 1 (Some c))).
Proof.
  intros Ht. unfold owns. destruct (li_lock t Ht lk) as [[E Hn]|(c' & E & Ho)].
  - by rewrite E, Hn.
  - destruct (decide (c' = c)) as [-> |Hne].
    + rewrite E. pose proof (lock_by_taken _ _ _ _ E) as Hl. rewrite Hl. simpl.
      destruct (the_lock (r_lk t) lk) as [l o]. simpl in *. subst l. apply bool_decide_ext. naive_solver.
    + rewrite Ho by done. rewrite (bool_decide_eq_false_2 (None = _)) by done. apply andb_false_iff. right.
      apply bool_decide_eq_false. intros Ec. apply lock_by_cpu in E. rewrite Ec in E. naive_solver.
Qed.

(** Processor [c] moves on to [p], and of the locks only [lk] may change. *)
Lemma linv_move s s' pc c p lk :
  linv (Racing s pc) → (∀ c', c' ≠ c → l_cpu s' c' = l_cpu s c') → cpu_ok s' p c →
  (∀ lk', lk' ≠ lk → the_lock s' lk' = the_lock s lk' ∧ lock_by p c lk' = lock_by (pc c) c lk') →
  (lock_by p c lk = Some (the_lock s' lk) ∧
     (is_Some (lock_by (pc c) c lk) ∨ lk_locked (the_lock s lk) = 0) ∨
   lock_by p c lk = None ∧ the_lock s' lk = Spin 0 None ∧ is_Some (lock_by (pc c) c lk) ∨
   lock_by p c lk = lock_by (pc c) c lk ∧ the_lock s' lk = the_lock s lk) →
  linv (Racing s' (fupd pc c p)).
Proof.
  intros Ht Hcpu Hp Hlk Hthis.
  assert (Hby : ∀ c' lk', c' ≠ c → lock_by (fupd pc c p c') c' lk' = lock_by (pc c') c' lk') by (intros; by rewrite fupd_ne).
  assert (Hsame : ∀ lk', lock_by p c lk' = lock_by (pc c) c lk' → the_lock s' lk' = the_lock s lk' → lock_ok s' (fupd pc c p) lk').
  { intros lk' E1 E2. destruct (li_lock _ Ht lk') as [[E Hn]|(c' & E & Ho)]; simpl in *.
    - left. split; [congruence|]. intros c'. destruct (decide (c' = c)) as [-> |]; [rewrite fupd_eq, E1; apply Hn|by rewrite Hby].
    - right. exists c'. rewrite E2. destruct (decide (c' = c)) as [-> |].
      + rewrite fupd_eq, E1. split; [done|]. intros c' Hne. rewrite Hby by done. by apply Ho.
      + rewrite Hby by done. split; [done|]. intros c2 Hne. destruct (decide (c2 = c)) as [-> |].
        * rewrite fupd_eq, E1. by apply Ho.
        * rewrite Hby by done. by apply Ho. }
  split; simpl.
  - intros c'. destruct (decide (c' = c)) as [-> |]; [by rewrite fupd_eq|]. rewrite fupd_ne by done.
    eapply cpu_ok_now; [apply (li_cpu _ Ht)|]. by apply Hcpu.
  - intros lk'. destruct (decide (lk' = lk)) as [-> |Hne]; [|destruct (Hlk lk' Hne); by apply Hsame].
    assert (Hother : is_Some (lock_by (pc c) c lk) ∨ lk_locked (the_lock s lk) = 0 → ∀ c', c' ≠ c → lock_by (fupd pc c p c') c' lk = None).
    { intros Hor c' Hne. rewrite Hby by done. destruct Hor as [[x E]|E]; [by apply (proj2 (has_lock (Racing s pc) c lk x Ht E))|].
      by apply (proj2 (free_lock (Racing s pc) lk Ht E)). }
    destruct Hthis as [[E Hor]|[(E & Ef & Hs)|[E1 E2]]]; [right|left|by apply Hsame].
    + exists c. rewrite fupd_eq. split; [done|]. by apply Hother.
    + split; [done|]. intros c'. destruct (decide (c' = c)) as [-> |]; [by rewrite fupd_eq|]. apply Hother; [by left|done].
Qed.

(** A lock that a processor is neither acquiring nor releasing. *)
Lemma lock_by_other p p' c lk : (lk ∈ pc_held p ↔ lk ∈ pc_held p') →
  (∀ st, pc_busy p ≠ Some (lk, st)) → (∀ st, pc_busy p' ≠ Some (lk, st)) → lock_by p c lk = lock_by p' c lk.
Proof.
  assert (Hoff : ∀ q, (∀ st, pc_busy q ≠ Some (lk, st)) → lock_by q c lk = if decide (lk ∈ pc_held q) then Some (Spin 1 (Some c)) else None).
  { intros q Hq. unfold lock_by. case_decide; [done|]. destruct (pc_busy q) as [[lk' st]|]; [|done].
    case_decide; [|done]. subst. by destruct (Hq st). }
  intros Hh H1 H2. rewrite !Hoff by done. do 2 case_decide; naive_solver.
Qed.

Lemma lock_by_busy H lk st f c : lk ∉ H → lock_by (Pc H (Some (lk, st)) f) c lk =
  match st with
  | Waiting => None
  | Taken => Some (Spin 1 None)
  | Leaving 0 | Leaving 1 => Some (Spin 1 (Some c))
  | Leaving 2 => Some (Spin 1 None)
  | Leaving _ => None
  end.
Proof. intros. unfold lock_by. simpl. by rewrite decide_False, decide_True. Qed.

Lemma cpu_ok_stage s s' H lk st st' f c : cpu_ok s (Pc H (Some (lk, st)) f) c → l_cpu s' c = l_cpu s c →
  (∀ k, st' = Leaving k → (k < 4)%nat) → cpu_ok s' (Pc H (Some (lk, st')) f) c.
Proof.
  intros [Hn Hi He Hb] E Hk. split; rewrite ?E; try done. simpl. intros ? ? [= <- <-].
  split; [by destruct (Hb lk st)|done].
Qed.

(** What the next step of a processor does, in a state of the race. *)
Section moves.
Context (s : lkst) (pc : nat → pcst) (c : nat) (lk : Z) (Ht : linv (Racing s pc)).

Let p := pc c.
Let on (s' : lkst) (q : pcst) : Prop := linv (Racing s' (fupd pc c q)).

Lemma busy_cpu st : pc_busy p = Some (lk, st) →
  lk ∉ pc_held p ∧ 0 < depth p ∧ c_if (l_cpu s c) = false ∧ c_ncli (l_cpu s c) = depth p ∧
  p = Pc (pc_held p) (Some (lk, st)) (pc_flag p).
Proof using All.
  intros Hp. destruct (li_cpu _ Ht c) as [Hn Hi _ Hb]. simpl in *. fold p in Hn, Hi, Hb.
  assert (0 < depth p) by (unfold depth; rewrite Hp; lia). rewrite (proj2 (Z.eqb_neq _ _)) in Hi by lia.
  split_and!; try done; [by apply (Hb lk st)|]. destruct p. simpl in *. by rewrite Hp.
Qed.

(** A stage of the same lock is reached by a step that leaves the processors alone. *)
Lemma stage_move s' st st' : pc_busy p = Some (lk, st) → (∀ k, st' = Leaving k → (k < 4)%nat) →
  l_cpu s' c = l_cpu s c → (∀ c', c' ≠ c → l_cpu s' c' = l_cpu s c') → (∀ lk', lk' ≠ lk → the_lock s' lk' = the_lock s lk') →
  (let q := Pc (pc_held p) (Some (lk, st')) (pc_flag p) in
   lock_by q c lk = Some (the_lock s' lk) ∧ (is_Some (lock_by p c lk) ∨ lk_locked (the_lock s lk) = 0) ∨
   lock_by q c lk = None ∧ the_lock s' lk = Spin 0 None ∧ is_Some (lock_by p c lk)) →
  on s' (Pc (pc_held p) (Some (lk, st')) (pc_flag p)).
Proof using All.
  intros Hp Hk Ec Eo Hl Hq. destruct (busy_cpu st Hp) as (Hn & _ & _ & _ & Ep).
  apply (linv_move s s' pc c _ lk); [done|done| | |destruct Hq; auto].
  - eapply cpu_ok_stage; [|exact Ec|done]. rewrite <- Ep. apply (li_cpu _ Ht).
  - intros lk' Hne. split; [by apply Hl|]. fold p. apply lock_by_other; [done| |]; simpl; intros st2; [|rewrite Hp]; intros [=]; done.
Qed.

Lemma enter_move : pc_busy p = None → lk ∉ pc_held p →
  runs (acquire_enter c lk) (λ _ s', on s' (Pc (pc_held p) (Some (lk, Waiting)) (pc_flag p))) s.
Proof using All.
  intros Hp Hl. apply (acquire_enter_ok c lk s p); [apply (li_cpu _ Ht)|done| |done|].
  - etrans; [apply (owns_held _ c lk Ht)|]. simpl. fold p. unfold lock_by. by rewrite decide_False, Hp.
  - intros s' x H1 H2. apply (linv_move s s' pc c _ lk); [done|apply H1|done| |].
    + intros lk' Hne. split; [by apply the_lock_same, H1|]. fold p.
      apply lock_by_other; [done| |]; simpl; intros st; [|by rewrite Hp]. intros [=]; done.
    + right. right. split; [|by apply the_lock_same, H1]. fold p. rewrite lock_by_busy by done.
      unfold lock_by. by rewrite decide_False, Hp.
Qed.

(** The exchange that finds the lock free. *)
Lemma take_move : pc_busy p = Some (lk, Waiting) → lk_locked (the_lock s lk) = 0 →
  on (set_lk lk (Spin 1 (lk_cpu (the_lock s lk))) s) (Pc (pc_held p) (Some (lk, Taken)) (pc_flag p)).
Proof using All.
  intros Hp E. destruct (busy_cpu _ Hp) as (Hl & _). destruct (free_lock _ lk Ht E) as [Ef _]. simpl in Ef.
  apply (stage_move _ Waiting Taken); try done.
  - intros lk' Hne. by rewrite the_lock_set, decide_False.
  - left. split; [|by right]. by rewrite lock_by_busy, the_lock_set, decide_True, Ef.
Qed.

Lemma own_move : pc_busy p = Some (lk, Taken) →
  runs (acquire_own c lk) (λ _ s', on s' (Pc ({[lk]} ∪ pc_held p) None (pc_flag p))) s.
Proof using All.
  intros Hp. destruct (busy_cpu _ Hp) as (Hl & Hd & Hi & _ & Ep).
  assert (Hb : lock_by p c lk = Some (Spin 1 None)) by (by rewrite Ep, lock_by_busy).
  destruct (has_lock _ c lk _ Ht Hb) as [El _]. simpl in El.
  assert (Ed : depth (Pc ({[lk]} ∪ pc_held p) None (pc_flag p)) = depth p).
  { unfold depth. simpl. rewrite Hp, size_union, size_singleton by set_solver. lia. }
  apply acquire_own_ok; [done|]. rewrite El. apply (linv_move s _ pc c _ lk); [done|done| | |].
  - destruct (li_cpu _ Ht c) as [Hn Hi' He _]. split; rewrite ?Ed; done.
  - intros lk' Hne. rewrite the_lock_set, decide_False by done. split; [done|]. fold p.
    apply lock_by_other; simpl; [set_solver|done|]. intros st. rewrite Hp. by intros [=].
  - left. rewrite the_lock_set, decide_True by done. fold p. rewrite Hb. split; [|by left].
    unfold lock_by. simpl. rewrite decide_True by set_solver. done.
Qed.

Lemma release_move : pc_busy p = None → lk ∈ pc_held p →
  on s (Pc (pc_held p ∖ {[lk]}) (Some (lk, Leaving 0)) (pc_flag p)).
Proof using All.
  intros Hp Hl.
  assert (Ed : depth (Pc (pc_held p ∖ {[lk]}) (Some (lk, Leaving 0)) (pc_flag p)) = depth p).
  { unfold depth. simpl. rewrite Hp, size_difference, size_singleton by set_solver.
    assert (size ({[lk]} : gset Z) ≤ size (pc_held p))%nat as H by (apply subseteq_size; set_solver).
    rewrite size_singleton in H. lia. }
  apply (linv_move s s pc c _ lk); [done|done| | |].
  - destruct (li_cpu _ Ht c) as [Hn Hi' He _]. split; rewrite ?Ed; try done. simpl. intros ? ? [= <- <-].
    split; [set_solver|]. intros k [= <-]. lia.
  - intros lk' Hne. split; [done|]. fold p. apply lock_by_other; simpl; [set_solver| |by rewrite Hp]. intros st [=]; done.
  - right. right. split; [|done]. fold p. rewrite lock_by_busy by set_solver. unfold lock_by. by rewrite decide_True.
Qed.

(** The statements of [release]: none of them panics. *)
Lemma leave_move k : pc_busy p = Some (lk, Leaving k) →
  ∃ op, release_steps c lk !! k = Some op ∧
    runs op (λ _ s', on s' (Pc (pc_held p) (leave lk k) (pc_flag p))) s.
Proof using All.
  intros Hp. destruct (busy_cpu _ Hp) as (Hl & Hd & Hi & Hn & Ep).
  assert (Hk : (k < 4)%nat) by (by apply (co_busy _ _ _ (li_cpu _ Ht c) lk (Leaving k))).
  assert (Hb : lock_by p c lk = match k with 0%nat | 1%nat => Some (Spin 1 (Some c)) | 2%nat => Some (Spin 1 None) | _ => None end)
    by (by rewrite Ep, lock_by_busy).
  destruct k as [|[|[|[|k]]]]; [| | | |lia]; (eexists; split; [reflexivity|]).
  - apply release_check_ok; [lia|done| |].
    { etrans; [apply (owns_held _ c lk Ht)|]. simpl. fold p. rewrite Hb. by apply bool_decide_eq_true. }
    intros s' [E1 E2 E3]. apply (stage_move _ (Leaving 0) (Leaving 1)); try done; [by intros ? [= <-]; lia|intros; by apply the_lock_same|].
    left. rewrite (the_lock_same s s') by done. split; [|left; by rewrite Hb].
    destruct (has_lock _ c lk _ Ht Hb) as [El _]. simpl in El. by rewrite El, lock_by_busy.
  - kstep. destruct (has_lock _ c lk _ Ht Hb) as [El _]. simpl in El.
    apply (stage_move _ (Leaving 1) (Leaving 2)); try done; [by intros ? [= <-]; lia|intros; by rewrite the_lock_set, decide_False|].
    left. rewrite the_lock_set, decide_True, El by done. split; [|left; by rewrite Hb]. by rewrite lock_by_busy.
  - kstep. destruct (has_lock _ c lk _ Ht Hb) as [El _]. simpl in El.
    apply (stage_move _ (Leaving 2) (Leaving 3)); try done; [by intros ? [= <-]; lia|intros; by rewrite the_lock_set, decide_False|].
    right. rewrite the_lock_set, decide_True, El, Hb by done. by rewrite lock_by_busy.
  - apply popcli_ok; [done|lia|]. intros s' [E1 E2 E3]. change (leave lk 3) with (None : option (Z * stage)).
    apply (linv_move s s' pc c _ lk); [done|done| | |].
    + eapply popped; [apply (li_cpu _ Ht c)| |done|done|done|done]. unfold depth. simpl. fold p. rewrite Hp. lia.
    + intros lk' Hne. split; [by apply the_lock_same|]. fold p. apply lock_by_other; simpl; [done|done|]. intros st. rewrite Hp. by intros [=].
    + right. right. split; [|by apply the_lock_same]. fold p. rewrite Hb. unfold lock_by. simpl. by rewrite decide_False.
Qed.
End moves.

Lemma linv_spin s s' pc lk r : linv (Racing s pc) → xchg1 lk s = Ok (r, s') → r ≠ 0 → linv (Racing s' pc).
Proof.
  intros Ht E Hr. rewrite xchg1_eq in E. injection E as E0 <-.
  assert (E1 : Spin 1 (lk_cpu (the_lock s lk)) = the_lock s lk).
  { destruct (li_lock _ Ht lk) as [[E _]|(c & E%lock_by_taken & _)]; simpl in E; [by rewrite E in E0|].
    destruct (the_lock s lk). simpl in *. by subst. }
  assert (Hsame : ∀ lk', the_lock (set_lk lk (Spin 1 (lk_cpu (the_lock s lk))) s) lk' = the_lock s lk').
  { intros lk'. rewrite the_lock_set. case_decide; by subst. }
  split; simpl.
  - intros c. eapply cpu_ok_now; [apply (li_cpu _ Ht)|done].
  - intros lk'. unfold lock_ok. rewrite Hsame. apply (li_lock _ Ht).
Qed.

Lemma linv_step t t' : linv t → lstep t t' → linv t'.
Proof.
  intros Ht Hs. destruct Hs as [c b s pc Hh Hp|c lk s s' pc Hp Hl E|c lk r s s' pc Hp E Hr|c lk s s' pc Hp E
    |c lk s s' pc Hp E|c lk s pc Hp Hl|c lk k op s s' pc Hp Hop E].
  - destruct (li_cpu _ Ht c) as [Hn Hi He Hsp]. simpl in *. unfold depth in Hn, Hi, He. rewrite Hp, Hh in Hn, Hi, He.
    apply (linv_move s _ pc c _ 0); [done|intros; simpl; by rewrite fupd_ne| | |].
    + split; unfold depth; simpl; rewrite ?fupd_eq; done.
    + intros lk' _. split; [done|]. apply lock_by_other; simpl; [by rewrite Hh|done|by rewrite Hp].
    + right. right. split; [|done]. apply lock_by_other; simpl; [by rewrite Hh|done|by rewrite Hp].
  - by apply (runs_eq _ _ _ _ _ (enter_move s pc c lk Ht Hp Hl)) in E.
  - by eapply linv_spin.
  - rewrite xchg1_eq in E. injection E as E0 <-. by apply take_move.
  - by apply (runs_eq _ _ _ _ _ (own_move s pc c lk Ht Hp)) in E.
  - by apply release_move.
  - destruct (leave_move s pc c lk Ht k Hp) as (op' & Eo & Hr). pose proof (eq_trans (eq_sym Eo) Hop) as [= ->]. by apply (runs_eq _ _ _ _ _ Hr) in E.
Qed.

Lemma linv_init t : linit t → linv t.
Proof.
  intros [Hl Hc]. split.
  - intros c. destruct (Hc c) as [Hn Hp]. rewrite Hp. split; unfold depth; simpl; try done.
  - intros lk. left. split; [unfold the_lock; by rewrite Hl, lookup_empty|].
    intros c. destruct (Hc c) as [_ ->]. unfold lock_by. simpl. by rewrite decide_False by set_solver.
Qed.

Lemma linv_reach t0 t : linit t0 → rtc lstep t0 t → linv t.
Proof. intros. eapply rtc_invariant; [apply linv_step|by apply linv_init|done]. Qed.

(** ** What a processor can always do *)

Lemma can_enter t c lk : linv t → pc_busy (r_pc t c) = None → lk ∉ pc_held (r_pc t c) →
  ∃ s', lstep t (Racing s' (fupd (r_pc t) c (Pc (pc_held (r_pc t c)) (Some (lk, Waiting)) (pc_flag (r_pc t c))))).
Proof.
  intros Ht Hp Hl. destruct t as [s pc]. simpl in *. destruct (enter_move s pc c lk Ht Hp Hl) as ([] & s' & E & _).
  exists s'. by apply lstep_enter.
Qed.

Lemma can_take t c lk : linv t → pc_busy (r_pc t c) = Some (lk, Waiting) → (∀ c', lock_by (r_pc t c') c' lk = None) →
  ∃ s', lstep t (Racing s' (fupd (r_pc t) c (Pc (pc_held (r_pc t c)) (Some (lk, Taken)) (pc_flag (r_pc t c))))).
Proof.
  intros Ht Hp Hno. destruct t as [s pc]. simpl in *. eexists. eapply lstep_take; [done|]. rewrite xchg1_eq.
  destruct (li_lock _ Ht lk) as [[E _]|(c' & E & _)]; simpl in E; [by rewrite E|]. by rewrite Hno in E.
Qed.

Lemma can_own t c lk : linv t → pc_busy (r_pc t c) = Some (lk, Taken) →
  ∃ s', lstep t (Racing s' (fupd (r_pc t) c (Pc ({[lk]} ∪ pc_held (r_pc t c)) None (pc_flag (r_pc t c))))).
Proof.
  intros Ht Hp. destruct t as [s pc]. simpl in *. destruct (own_move s pc c lk Ht Hp) as ([] & s' & E & _).
  exists s'. by apply lstep_own.
Qed.

Lemma can_leave t c lk k : linv t → pc_busy (r_pc t c) = Some (lk, Leaving k) →
  ∃ s', lstep t (Racing s' (fupd (r_pc t) c (Pc (pc_held (r_pc t c)) (leave lk k) (pc_flag (r_pc t c))))).
Proof.
  intros Ht Hp. destruct t as [s pc]. simpl in *.
  destruct (leave_move s pc c lk Ht k Hp) as (op & Eo & [] & s' & E & _). exists s'. by eapply lstep_leave.
Qed.

Lemma held_by p c lk : lk ∈ pc_held p → lock_by p c lk = Some (Spin 1 (Some c)).
Proof. intros. unfold lock_by. by rewrite decide_True. Qed.

(** C16. However the processors race, store by store, a lock is held by at most one
    of them, and its words name the holder; a lock that no processor holds, is taking
    or is about to give back is free.  A processor that holds or waits for a lock runs
    with interrupts off, at the nesting depth of [ncli]; one that does neither has the
    interrupt flag it had chosen.  No statement of [acquire] or [release] panics: a
    processor can enter [acquire] of a lock it does not hold, take the lock when it is
    free, and go on through each statement that follows to the end of the call.  The
    stores to a lock are seen in program order, and the processors acquire only locks
    they do not hold and release only locks they hold. *)
Theorem spinlock_mutual_exclusion t0 t :
  linit t0 → rtc lstep t0 t →
  (∀ c c' lk, lk ∈ pc_held (r_pc t c) → lk ∈ pc_held (r_pc t c') → c = c') ∧
  (∀ c lk, lk ∈ pc_held (r_pc t c) → the_lock (r_lk t) lk = Spin 1 (Some c)) ∧
  (∀ lk, (∀ c, lk ∉ pc_held (r_pc t c) ∧ ∀ st, pc_busy (r_pc t c) = Some (lk, st) → st = Waiting ∨ st = Leaving 3) →
     the_lock (r_lk t) lk = Spin 0 None) ∧
  (∀ c, c_ncli (l_cpu (r_lk t) c) = depth (r_pc t c) ∧
        c_if (l_cpu (r_lk t) c) = if depth (r_pc t c) =? 0 then pc_flag (r_pc t c) else false) ∧
  (∀ c lk, pc_busy (r_pc t c) = None → lk ∉ pc_held (r_pc t c) →
     ∃ t', lstep t t' ∧ pc_busy (r_pc t' c) = Some (lk, Waiting)) ∧
  (∀ c lk, pc_busy (r_pc t c) = Some (lk, Waiting) → the_lock (r_lk t) lk = Spin 0 None →
     ∃ t', lstep t t' ∧ pc_busy (r_pc t' c) = Some (lk, Taken)) ∧
  (∀ c lk, pc_busy (r_pc t c) = Some (lk, Taken) →
     ∃ t', lstep t t' ∧ pc_busy (r_pc t' c) = None ∧ lk ∈ pc_held (r_pc t' c)) ∧
  (∀ c lk k, pc_busy (r_pc t c) = Some (lk, Leaving k) →
     ∃ t', lstep t t' ∧ pc_busy (r_pc t' c) = if (k <? 3)%nat then Some (lk, Leaving (S k)) else None).
Proof.
  intros H0 Hr. pose proof (linv_reach _ _ H0 Hr) as Ht. split_and!.
  - intros c c' lk A%(held_by _ c) B%(held_by _ c'). destruct (has_lock t c lk _ Ht A) as [A' _].
    destruct (has_lock t c' lk _ Ht B) as [B' _]. congruence.
  - intros c lk A%(held_by _ c). apply (has_lock t c lk _ Ht A).
  - intros lk Hno. destruct (li_lock t Ht lk) as [[? _]|(c & E & _)]; [done|]. destruct (Hno c) as [Hh Hb].
    unfold lock_by in E. rewrite decide_False in E by done. destruct (pc_busy (r_pc t c)) as [[lk' st]|]; [|done].
    case_decide; [subst|done]. by destruct (Hb st eq_refl) as [-> | ->].
  - intros c. split; apply (li_cpu t Ht).
  - intros c lk Hp Hl. destruct (can_enter t c lk Ht Hp Hl) as [s' Hs]. eexists. split; [exact Hs|]. simpl. by rewrite fupd_eq.
  - intros c lk Hp Hf. destruct (can_take t c lk Ht Hp) as [s' Hs]; [by apply (free_lock t lk Ht); rewrite Hf|].
    eexists. split; [exact Hs|]. simpl. by rewrite fupd_eq.
  - intros c lk Hp. destruct (can_own t c lk Ht Hp) as [s' Hs]. eexists. split; [exact Hs|]. simpl. rewrite fupd_eq.
    split; [done|]. simpl. set_solver.
  - intros c lk k Hp. destruct (can_leave t c lk k Ht Hp) as [s' Hs]. eexists. split; [exact Hs|]. simpl. by rewrite fupd_eq.
Qed.

(** Two processors that want the same lock: the second waits. *)
Definition race_start : racing :=
  Racing (Lkst (λ _, Cpu true 0 false) ∅) (λ _, Pc ∅ None true).

Lemma race_start_run : ∃ t, rtc lstep race_start t ∧
  7 ∈ pc_held (r_pc t 0%nat) ∧ pc_busy (r_pc t 1%nat) = Some (7, Waiting).
Proof.
  assert (H0 : linv race_start) by (apply linv_init; done).
  destruct (can_enter race_start 0 7 H0) as [s1 H1]; [done|simpl; set_solver|].
  pose proof (linv_step _ _ H0 H1) as I1.
  edestruct (can_take _ 0 7 I1) as [s2 H2]; [done|intros [|?]; done|].
  pose proof (linv_step _ _ I1 H2) as I2.
  edestruct (can_own _ 0 7 I2) as [s3 H3]; [done|].
  pose proof (linv_step _ _ I2 H3) as I3.
  edestruct (can_enter _ 1 7 I3) as [s4 H4]; [done|simpl; set_solver|].
  eexists. split; [eapply rtc_l; [exact H1|]; eapply rtc_l; [exact H2|]; eapply rtc_l; [exact H3|]; apply rtc_once, H4|].
  split; [simpl; set_solver|done].
Qed.

Lemma spinlock_mutual_exclusion_witness : ∃ t, rtc lstep race_start t ∧
  7 ∈ pc_held (r_pc t 0%nat) ∧ 7 ∉ pc_held (r_pc t 1%nat).
Proof.
  destruct race_start_run as (t & Hr & H0 & H1). exists t. split; [done|]. split; [done|].
  assert (Hi : linit race_start) by done.
  pose proof (spinlock_mutual_exclusion race_start t Hi Hr) as [Hex _]. intros H.
  by specialize (Hex _ _ _ H0 H).
Defined.
