(* ===== verification/Kalloc.v ===== *)
(** * Physical page allocator: [xv6/kalloc.c]

    The free pages form a linked list threaded through the pages themselves:
    [kmem.freelist] points to the first free page and the first word of a free
    page points to the next one.  [kend] is the linker symbol [end]. *)

From S2P Require Import Prelude Str Mmu.

(** ** State *)

(** [kmem] together with the memory the pages live in. *)
Record kst := Kst {
  k_locked : bool;      (* kmem.lock *)
  k_use_lock : bool;    (* kmem.use_lock *)
  k_freelist : Z;       (* kmem.freelist, 0 for the null pointer *)
  k_mem : gmap Z Z      (* the memory, by kernel virtual address *)
}.

Definition set_locked (b : bool) (s : kst) : kst :=
  Kst b (k_use_lock s) (k_freelist s) (k_mem s).
Definition set_use_lock (b : bool) (s : kst) : kst :=
  Kst (k_locked s) b (k_freelist s) (k_mem s).
Definition set_freelist (p : Z) (s : kst) : kst :=
  Kst (k_locked s) (k_use_lock s) p (k_mem s).
Definition set_kmem (m : gmap Z Z) (s : kst) : kst :=
  Kst (k_locked s) (k_use_lock s) (k_freelist s) m.

(** [if(kmem.use_lock) acquire(&kmem.lock);] and its release. *)
Definition kmem_acquire : K kst unit :=
  s ← kget;
  if k_use_lock s then if k_locked s then khang else kmod (set_locked true) else mret tt.

Definition kmem_release : K kst unit :=
  s ← kget;
  if k_use_lock s then kassert (k_locked s) "release";; kmod (set_locked false) else mret tt.

(** ** Operations *)

Section kalloc.
Context (kend : Z).

Definition kfree (v : Z) : K kst unit :=
  kassert (negb (negb (v mod PGSIZE =? 0) || (v <? kend) || (PHYSTOP <=? V2P v))) "kfree";;
  kmod (λ s, set_kmem (memset (k_mem s) v 1 PGSIZE) s);;
  kmem_acquire;;
  kmod (λ s, set_kmem (st32 (k_mem s) v (k_freelist s)) s);;
  kmod (set_freelist v);;
  kmem_release.

Definition kalloc : K kst Z :=
  kmem_acquire;;
  s ← kget;
  let r := k_freelist s in
  (if negb (r =? 0) then kmod (set_freelist (ld32 (k_mem s) r)) else mret tt);;
  kmem_release;;
  mret r.

Fixpoint freerange_loop (fuel : nat) (p vend : Z) : K kst unit :=
  match fuel with
  | O => khang
  | S fuel' =>
      if p + PGSIZE <=? vend
      then kfree p;; freerange_loop fuel' (p + PGSIZE) vend
      else mret tt
  end.

(** One round per page and one for the failing test. *)
Definition freerange (vstart vend : Z) : K kst unit :=
  let p := PGROUNDUP vstart in
  freerange_loop (S (Z.to_nat ((vend - p) / PGSIZE))) p vend.

Definition kinit1 (vstart vend : Z) : K kst unit :=
  kmod (set_locked false);;
  kmod (set_use_lock false);;
  freerange vstart vend.

Definition kinit2 (vstart vend : Z) : K kst unit :=
  freerange vstart vend;;
  kmod (set_use_lock true).

(** ** Invariant *)

(** A page the allocator accepts. *)
Definition page_ok (v : Z) : Prop :=
  v mod PGSIZE = 0 ∧ kend ≤ v ∧ KERNBASE ≤ v < KERNBASE + PHYSTOP.

(** The pages [l] are linked from [p], in this order. *)
Fixpoint chain (m : gmap Z Z) (p : Z) (l : list Z) : Prop :=
  match l with
  | [] => p = 0
  | v :: l' => p = v ∧ page_ok v ∧ chain m (ld32 m v) l'
  end.

Record kinv (s : kst) (l : list Z) : Prop := {
  kinv_mem : mem_ok (k_mem s);
  kinv_chain : chain (k_mem s) (k_freelist s) l;
  kinv_nodup : NoDup l;
  kinv_lock : k_locked s = false
}.

(** The pages that [freerange] finds in [p, vend). *)
Definition pages_from (p : Z) (n : nat) : list Z :=
  (λ i, p + PGSIZE * Z.of_nat i) <$> seq 0 n.

(** ** Clients: a run of allocations and frees

    [alloc] is the set of pages in the hands of callers.  A client frees only
    pages it was given. *)
Inductive kop := Kalloc | Kfree (v : Z).

Inductive kstep_rel : kst * gset Z → kst * gset Z → Prop :=
| kstep_alloc s s' v al :
    kalloc s = Ok (v, s') → v ≠ 0 → kstep_rel (s, al) (s', {[v]} ∪ al)
| kstep_alloc_fail s s' al :
    kalloc s = Ok (0, s') → kstep_rel (s, al) (s', al)
| kstep_free s s' v al :
    v ∈ al → kfree v s = Ok (tt, s') → kstep_rel (s, al) (s', al ∖ {[v]}).

(** ** Lemmas *)

Lemma page_ok_pos v : page_ok v → v ≠ 0 ∧ v + PGSIZE ≤ KERNBASE + PHYSTOP ∧ 0 ≤ v < 2 ^ 32.
Proof.
  intros (Hal & _ & Hr). unfold KERNBASE, PHYSTOP, PGSIZE in *.
  split; [lia|]. pose proof (Z.div_mod v 4096). lia.
Qed.

(** Two distinct pages do not overlap. *)
Lemma pages_disjoint v w : page_ok v → page_ok w → v ≠ w → v + PGSIZE ≤ w ∨ w + PGSIZE ≤ v.
Proof.
  intros (Hv & _) (Hw & _) Hne. unfold PGSIZE in *.
  pose proof (Z.div_mod v 4096). pose proof (Z.div_mod w 4096). lia.
Qed.

Lemma chain_ext m m' l : ∀ p,
  (∀ v, v ∈ l → ld32 m v = ld32 m' v) → chain m p l → chain m' p l.
Proof.
  induction l as [|v l IH]; intros p Hext; simpl; [done|].
  intros (-> & Hok & Hc). split; [done|]. split; [done|].
  rewrite <- Hext by set_solver. apply IH; [|done]. set_solver.
Qed.

Lemma chain_pages m l : ∀ p, chain m p l → Forall page_ok l.
Proof.
  induction l as [|v l IH]; intros p; simpl; [constructor|].
  intros (-> & ? & ?). eauto.
Qed.

Lemma kfree_guard v : page_ok v →
  negb (negb (v mod PGSIZE =? 0) || (v <? kend) || (PHYSTOP <=? V2P v)) = true.
Proof.
  intros (Hal & He & Hr). rewrite V2P_eq by (unfold KERNBASE, PHYSTOP in *; lia).
  rewrite Hal. bdestruct_all; simpl; try done; lia.
Qed.

Lemma runs_kmem_acquire (Q : unit → kst → Prop) s :
  k_locked s = false → Q tt (set_locked (k_use_lock s) s) → runs kmem_acquire Q s.
Proof.
  intros Hl HQ. unfold kmem_acquire. kstep. eexists _, _. split; [done|].
  destruct (k_use_lock s) eqn:E; [rewrite Hl; by kstep|]. kstep.
  replace s with (set_locked false s); [done|]. unfold set_locked. by destruct s; simpl in *; subst.
Qed.

Lemma runs_kmem_release (Q : unit → kst → Prop) s :
  k_locked s = k_use_lock s → Q tt (set_locked false s) → runs kmem_release Q s.
Proof.
  intros Hl HQ. unfold kmem_release. kstep. eexists _, _. split; [done|].
  destruct (k_use_lock s) eqn:E; [kstep; kstep; [done|]; by kstep|]. kstep.
  replace s with (set_locked false s); [done|]. unfold set_locked. by destruct s; simpl in *; subst.
Qed.

(** The memory a free leaves behind. *)
Definition freed_mem (m : gmap Z Z) (v next : Z) : gmap Z Z :=
  st32 (memset m v 1 PGSIZE) v next.

Lemma rd_freed_mem_out m v next b : b < v ∨ v + PGSIZE ≤ b → rd (freed_mem m v next) b = rd m b.
Proof.
  intros Hb. unfold freed_mem. unfold PGSIZE in *. rewrite rd_st32, rd_memset by lia.
  bdestruct_all; simpl; try done; lia.
Qed.

Lemma ld32_freed_mem_ne m v next w : page_ok v → page_ok w → v ≠ w →
  ld32 (freed_mem m v next) w = ld32 m w.
Proof.
  intros Hv Hw Hne. apply ld32_ext. intros b Hb. apply rd_freed_mem_out.
  pose proof (pages_disjoint v w Hv Hw Hne). unfold PGSIZE in *. lia.
Qed.

Lemma chain_head_range m p l : chain m p l → 0 ≤ p < 2 ^ 32.
Proof. destruct l as [|v l]; simpl; [lia|]. intros (-> & ? & _). by apply page_ok_pos. Qed.

Lemma kfree_ok s l v (Q : unit → kst → Prop) :
  kinv s l → page_ok v → v ∉ l →
  (∀ s', kinv s' (v :: l) → k_use_lock s' = k_use_lock s →
         k_mem s' = freed_mem (k_mem s) v (k_freelist s) → Q tt s') →
  runs (kfree v) Q s.
Proof.
  intros [Hm Hc Hnd Hl] Hv Hnv HQ. unfold kfree.
  kstep. kstep; [by apply kfree_guard|]. kstep. kstep. kstep.
  apply runs_kmem_acquire; [done|]. simpl. do 4 kstep.
  apply runs_kmem_release; [done|]. simpl. apply HQ; simpl; [|done|done].
  split; simpl; eauto with kernel.
  - split; [done|]. split; [done|].
    rewrite ld32_st32_eq, u32_small by eauto using chain_head_range.
    eapply chain_ext; [|done]. intros w Hw. symmetry.
    apply ld32_freed_mem_ne; [done| |set_solver].
    eapply Forall_forall; [by eapply chain_pages | done].
  - by constructor.
Qed.

Lemma kalloc_ok s l (Q : Z → kst → Prop) :
  kinv s l →
  (l = [] → Q 0 s) →
  (∀ v l' s', l = v :: l' → v ≠ 0 → kinv s' l' → k_use_lock s' = k_use_lock s →
              k_mem s' = k_mem s → Q v s') →
  runs kalloc Q s.
Proof.
  intros [Hm Hc Hnd Hl] Hnil Hcons. unfold kalloc. kstep.
  apply runs_kmem_acquire; [done|]. kstep. eexists _, _. split; [done|]. simpl.
  destruct l as [|v l']; simpl in Hc.
  - rewrite Hc. simpl. kstep. kstep. kstep. apply runs_kmem_release; [done|]. kstep.
    replace (set_locked false (set_locked (k_use_lock s) s)) with s; [auto|].
    destruct s; simpl in *; subst. done.
  - destruct Hc as (-> & Hv & Hc). destruct (page_ok_pos _ Hv) as [Hne _].
    bdestruct_all; [done|]. simpl. kstep. kstep. kstep.
    apply runs_kmem_release; [done|]. kstep. simpl. apply NoDup_cons in Hnd as [? ?].
    by eapply Hcons.
Qed.

Lemma pages_from_S p n : pages_from p (S n) = p :: pages_from (p + PGSIZE) n.
Proof.
  unfold pages_from. simpl. f_equal; [lia|]. rewrite <- fmap_S_seq, <- list_fmap_compose.
  apply list_fmap_ext. intros i x _. simpl. lia.
Qed.

Lemma pages_from_spec p n v :
  v ∈ pages_from p n ↔ ∃ i : nat, (i < n)%nat ∧ v = p + PGSIZE * Z.of_nat i.
Proof.
  unfold pages_from. rewrite list_elem_of_fmap. setoid_rewrite elem_of_seq.
  split; intros (i & ? & ?); exists i; split; auto; lia.
Qed.

Lemma freerange_loop_ok n : ∀ fuel s l p vend (Q : unit → kst → Prop),
  kinv s l → (n < fuel)%nat →
  p mod PGSIZE = 0 → kend ≤ p → KERNBASE ≤ p → vend ≤ KERNBASE + PHYSTOP →
  p + PGSIZE * Z.of_nat n ≤ vend < p + PGSIZE * (Z.of_nat n + 1) →
  (∀ v, v ∈ pages_from p n → v ∉ l) →
  (∀ s', kinv s' (rev (pages_from p n) ++ l) → k_use_lock s' = k_use_lock s →
     (∀ b, b < p ∨ p + PGSIZE * Z.of_nat n ≤ b → rd (k_mem s') b = rd (k_mem s) b) → Q tt s') →
  runs (freerange_loop fuel p vend) Q s.
Proof.
  induction n as [|n IH]; intros [|fuel] s l p vend Q Hi Hf Hp Hk Hb He Hn Hdis HQ;
    try lia; simpl; unfold PGSIZE in Hn.
  - unfold PGSIZE at 1. bdestruct_all; [lia|]. kstep. auto.
  - unfold PGSIZE at 1. bdestruct_all; [|lia]. kstep.
    assert (Hpg : page_ok p) by (split; [done|]; lia).
    rewrite pages_from_S in Hdis. apply (kfree_ok s l p); auto; [set_solver|].
    intros s' Hi' Hu Em. apply (IH fuel s' (p :: l)); auto; try lia; unfold PGSIZE in *; try lia.
    + rewrite Z.add_mod, Hp by lia. done.
    + intros v Hv. apply not_elem_of_cons. split; [|set_solver].
      apply pages_from_spec in Hv as (i & _ & ->). unfold PGSIZE. lia.
    + intros s'' Hi'' Hu'' Hm''. apply HQ; [|congruence|].
      * rewrite pages_from_S. simpl. by rewrite <- app_assoc.
      * intros b Hbb. rewrite Hm'' by lia. rewrite Em. apply rd_freed_mem_out. unfold PGSIZE. lia.
Qed.

(** The step relation preserves the allocator's accounting. *)
Definition kacc (pool : gset Z) (c : kst * gset Z) : Prop :=
  ∃ l, kinv c.1 l ∧ (list_to_set l : gset Z) ∪ c.2 = pool ∧
       (list_to_set l : gset Z) ## c.2 ∧ (∀ v, v ∈ c.2 → page_ok v).

Lemma kacc_step pool c c' : kacc pool c → kstep_rel c c' → kacc pool c'.
Proof.
  intros (l & Hi & Hun & Hdis & Hok) Hst. destruct Hst as [s s' v al E Hne|s s' al E|s s' v al Hv E];
    simpl in *.
  - cut (∃ l', l = v :: l' ∧ kinv s' l').
    { intros (l' & -> & Hi'). exists l'. pose proof (kinv_nodup _ _ Hi) as Hnd.
      apply NoDup_cons in Hnd as [Hnd _]. simpl in *.
      split; [done|]. split; [set_solver|]. split; [set_solver|].
      intros w Hw. apply elem_of_union in Hw as [->%elem_of_singleton | ?]; [|auto].
      destruct (kinv_chain _ _ Hi) as (_ & ? & _). done. }
    apply (runs_eq kalloc (λ v s', v ≠ 0 → ∃ l', l = v :: l' ∧ kinv s' l') s v s'); [|done|done].
    eapply kalloc_ok; [done| |]; [intros _ ?; done|]. intros; subst; eauto.
  - cut (s' = s ∧ l = []); [intros [-> ->]; exists []; set_solver|].
    apply (runs_eq kalloc (λ v s', v = 0 → s' = s ∧ l = []) s 0 s'); [|done|done].
    eapply kalloc_ok; [done|done|]. intros; done.
  - cut (kinv s' (v :: l)).
    { intros Hi'. exists (v :: l). simpl. split; [done|]. split.
      - rewrite <- Hun. apply set_eq. intros w. destruct (decide (w = v)); set_solver.
      - split; [set_solver|]. intros w Hw. apply Hok. set_solver. }
    eapply (runs_eq (kfree v) (λ _ s', kinv s' (v :: l)) s); [|done].
    eapply kfree_ok; eauto. set_solver.
Qed.

End kalloc.

(** ** Properties *)

(** C1. The allocator refines a stack of free pages.  From a state whose free list
    is [l], [kalloc] returns the head of [l] and leaves the tail, or returns the
    null pointer and changes nothing when [l] is empty; [kfree v] of a page not on
    the list pushes [v].  Neither touches a byte outside the page freed, and both
    return (no panic, no wait on the lock). *)
Theorem kalloc_kfree_refine_stack kend s l :
  kinv kend s l →
  runs kalloc (λ r s', kinv kend s' (tail l) ∧ r = default 0 (head l) ∧
                       k_mem s' = k_mem s) s ∧
  (∀ v, page_ok kend v → v ∉ l →
     runs (kfree kend v) (λ _ s', kinv kend s' (v :: l) ∧
       ∀ b, b < v ∨ v + PGSIZE ≤ b → rd (k_mem s') b = rd (k_mem s) b) s).
Proof.
  intros Hi. split.
  - eapply kalloc_ok; [done| |].
    + intros ->. done.
    + intros v l' s' -> _ Hi' _ Hm. done.
  - intros v Hv Hnv. eapply kfree_ok; [done..|].
    intros s' Hi' _ Hm. split; [done|]. intros b Hb. rewrite Hm. by apply rd_freed_mem_out.
Qed.

(** Page [0x80400000] freed into an empty allocator and taken back. *)
Lemma kalloc_kfree_refine_stack_witness :
  let s0 := Kst false true 0 ∅ in
  runs (kfree KERNBASE 0x80400000;; kalloc) (λ r _, r = 0x80400000) s0.
Proof.
  intros s0.
  assert (Hi : kinv KERNBASE s0 []).
  { split; simpl; [apply mem_ok_empty|done|constructor|done]. }
  destruct (kalloc_kfree_refine_stack _ _ _ Hi) as [_ Hf].
  assert (Hp : page_ok KERNBASE 0x80400000).
  { vm_compute. repeat split; congruence. }
  apply runs_bind. eapply runs_mono; [apply (Hf _ Hp); set_solver|].
  intros [] s' [Hi' _].
  destruct (kalloc_kfree_refine_stack _ _ _ Hi') as [Ha _].
  eapply runs_mono; [apply Ha|]. intros r s'' (_ & -> & _). reflexivity.
Defined.

(** C2. No page is handed out twice and none is lost: along every sequence of
    allocations and frees by clients that free only what they were given, the
    pages on the free list and the pages in use are disjoint and together are the
    pool the allocator started with, and every page in use lies in the kernel's
    page area. *)
Theorem kalloc_never_double_allocates kend s0 l0 s al :
  kinv kend s0 l0 →
  rtc (kstep_rel kend) (s0, ∅) (s, al) →
  ∃ l, kinv kend s l ∧ (list_to_set l : gset Z) ## al ∧
       (list_to_set l : gset Z) ∪ al = list_to_set l0 ∧
       (∀ v, v ∈ al → page_ok kend v).
Proof.
  intros Hi Hst.
  destruct (rtc_invariant (kstep_rel kend) (kacc kend (list_to_set l0)) (s0, ∅) (s, al))
    as (l & ? & ? & ? & ?); [apply kacc_step| |done|by exists l].
  exists l0. simpl. set_solver.
Qed.

Lemma kalloc_never_double_allocates_witness :
  let s0 := Kst false false 0x80400000 (st32 (st32 ∅ 0x80400000 0x80401000) 0x80401000 0) in
  let s1 := Kst false false 0x80401000 (k_mem s0) in
  let s2 := Kst false false 0 (k_mem s0) in
  ∃ l, kinv KERNBASE s2 l ∧
    (list_to_set l : gset Z) ## {[0x80401000; 0x80400000]}.
Proof.
  intros s0 s1 s2.
  assert (Hi : kinv KERNBASE s0 [0x80400000; 0x80401000]).
  { split; simpl; [eauto with kernel| | |done].
    - vm_compute. repeat split; congruence.
    - rewrite NoDup_cons, NoDup_cons, NoDup_nil. set_solver by lia. }
  assert (Hst : rtc (kstep_rel KERNBASE) (s0, ∅) (s2, {[0x80401000]} ∪ ({[0x80400000]} ∪ ∅))).
  { eapply rtc_l; [apply (kstep_alloc _ s0 s1 0x80400000); [vm_compute; reflexivity|lia]|].
    eapply rtc_l; [apply (kstep_alloc _ s1 s2 0x80401000); [vm_compute; reflexivity|lia]|]. apply rtc_refl. }
  destruct (kalloc_never_double_allocates _ _ _ _ _ Hi Hst) as (l & Hl & Hd & _).
  exists l. split; [exact Hl|]. set_solver.
Defined.

(** Boot: [kinit1] on [vstart, vend) within the kernel's area returns, without
    panicking, with exactly the whole pages of the range free (the last one first),
    and with locking off. *)
Theorem kinit1_frees_the_range kend s vstart vend :
  mem_ok (k_mem s) → k_freelist s = 0 →
  kend ≤ vstart → KERNBASE ≤ vstart ≤ KERNBASE + PHYSTOP →
  PGROUNDUP vstart ≤ vend ≤ KERNBASE + PHYSTOP →
  let n := Z.to_nat ((vend - PGROUNDUP vstart) / PGSIZE) in
  runs (kinit1 kend vstart vend)
    (λ _ s', kinv kend s' (rev (pages_from (PGROUNDUP vstart) n)) ∧ k_use_lock s' = false) s.
Proof.
  intros Hm Hf He Hb Hr n. unfold kinit1, freerange.
  unfold KERNBASE, PHYSTOP in *.
  assert (vstart + PGSIZE - 1 < 2 ^ 32) by (unfold PGSIZE; lia).
  destruct (PGROUNDUP_bounds vstart) as [Hp Ha]; [lia|done|].
  kstep. kstep. kstep. kstep.
  eapply (freerange_loop_ok _ n _ _ []); try done; fold n; try lia.
  - by split; simpl; [|rewrite Hf|constructor|].
  - unfold KERNBASE. lia.
  - unfold KERNBASE, PHYSTOP. lia.
  - unfold n, PGSIZE in *.
    pose proof (Z.div_mod (vend - PGROUNDUP vstart) 4096 ltac:(lia)).
    pose proof (Z.mod_pos_bound (vend - PGROUNDUP vstart) 4096 ltac:(lia)).
    rewrite Z2Nat.id by (apply Z.div_pos; lia). lia.
  - set_solver.
  - intros s' Hi Hu. by rewrite app_nil_r in Hi.
Qed.

(** Two pages and a half from an unaligned start. *)
Lemma kinit1_frees_the_range_witness :
  let s0 := Kst true true 0 ∅ in
  runs (kinit1 KERNBASE 0x80400001 0x80403800)
    (λ _ s', kinv KERNBASE s' [0x80402000; 0x80401000] ∧ k_use_lock s' = false) s0.
Proof.
  intros s0. apply (kinit1_frees_the_range KERNBASE s0 0x80400001 0x80403800);
    [apply mem_ok_empty|reflexivity|vm_compute; intuition congruence..].
Defined.
