(* ===== verification/Bytes.v ===== *)
(** * Blocks and the structures laid out in them

    A disk block, a directory entry or an on-disk inode is a list of bytes.
    [get8], [get16] and [get32] are the loads the compiler emits for the fields
    of a structure at a byte offset (little endian), [splice] is [memmove] into a
    buffer. *)

From S2P Require Import Prelude.

Definition BSIZE : Z := 512.

Definition get8 (l : list Z) (off : Z) : Z := default 0 (l !! Z.to_nat off).
Definition get16 (l : list Z) (off : Z) : Z := get8 l off + 2 ^ 8 * get8 l (off + 1).
Definition get32 (l : list Z) (off : Z) : Z :=
  get8 l off + 2 ^ 8 * get8 l (off + 1) + 2 ^ 16 * get8 l (off + 2) + 2 ^ 24 * get8 l (off + 3).

(** Replace the bytes from [off] on by [d]; nothing is added at the end. *)
Definition splice (l : list Z) (off : Z) (d : list Z) : list Z :=
  take (Z.to_nat off) l ++ take (length l - Z.to_nat off) d ++ drop (Z.to_nat off + length d) l.

Definition le16 (v : Z) : list Z := [u8 v; u8 (v ≫ 8)].
Definition le32 (v : Z) : list Z := [u8 v; u8 (v ≫ 8); u8 (v ≫ 16); u8 (v ≫ 24)].

Definition put8 (l : list Z) (off v : Z) : list Z := splice l off [u8 v].
Definition put16 (l : list Z) (off v : Z) : list Z := splice l off (le16 v).
Definition put32 (l : list Z) (off v : Z) : list Z := splice l off (le32 v).

(** The bytes [off, off + n) of a buffer. *)
Definition slice (l : list Z) (off n : Z) : list Z := take (Z.to_nat n) (drop (Z.to_nat off) l).

Definition zeroes (n : Z) : list Z := replicate (Z.to_nat n) 0.

(** A buffer of [n] bytes. *)
Definition bytes_ok (n : Z) (l : list Z) : Prop :=
  Z.of_nat (length l) = n ∧ Forall (λ b, 0 ≤ b < 2 ^ 8) l.

#[global] Arguments get16 _ _ : simpl never.
#[global] Arguments get32 _ _ : simpl never.
#[global] Arguments splice _ _ _ : simpl never.
#[global] Arguments put8 _ _ _ : simpl never.
#[global] Arguments put16 _ _ _ : simpl never.
#[global] Arguments put32 _ _ _ : simpl never.
#[global] Arguments slice _ _ _ : simpl never.
#[global] Arguments zeroes _ : simpl never.

(** ** Lemmas *)

Lemma length_splice l off d : length (splice l off d) = length l.
Proof. unfold splice. rewrite !length_app, !length_take, length_drop. lia. Qed.

Lemma get8_splice l off d i :
  0 ≤ off → off + Z.of_nat (length d) ≤ Z.of_nat (length l) → 0 ≤ i →
  get8 (splice l off d) i =
    if (off <=? i) && (i <? off + Z.of_nat (length d)) then get8 d (i - off) else get8 l i.
Proof.
  intros Ho Hd Hi. unfold get8, splice. rewrite (take_ge d) by lia.
  bdestruct_all; simpl; try lia.
  - rewrite lookup_app_r by (rewrite length_take; lia). rewrite length_take.
    rewrite lookup_app_l by lia. do 2 f_equal. lia.
  - rewrite lookup_app_r by (rewrite length_take; lia). rewrite length_take.
    rewrite lookup_app_r by lia. rewrite lookup_drop. do 2 f_equal. lia.
  - rewrite lookup_app_l by (rewrite length_take; lia). rewrite lookup_take_lt by lia. done.
Qed.

Lemma get8_splice_out l off d i :
  0 ≤ off → off + Z.of_nat (length d) ≤ Z.of_nat (length l) → 0 ≤ i →
  i < off ∨ off + Z.of_nat (length d) ≤ i → get8 (splice l off d) i = get8 l i.
Proof. intros. rewrite get8_splice by lia. bdestruct_all; simpl; try done; lia. Qed.

Lemma get8_splice_in l off d i :
  0 ≤ off → off + Z.of_nat (length d) ≤ Z.of_nat (length l) →
  off ≤ i < off + Z.of_nat (length d) → get8 (splice l off d) i = get8 d (i - off).
Proof. intros. rewrite get8_splice by lia. bdestruct_all; simpl; try done; lia. Qed.

Lemma get32_splice_out l off d i :
  0 ≤ off → off + Z.of_nat (length d) ≤ Z.of_nat (length l) → 0 ≤ i →
  i + 4 ≤ off ∨ off + Z.of_nat (length d) ≤ i → get32 (splice l off d) i = get32 l i.
Proof. intros. unfold get32. rewrite !get8_splice_out by lia. done. Qed.

Lemma get16_splice_out l off d i :
  0 ≤ off → off + Z.of_nat (length d) ≤ Z.of_nat (length l) → 0 ≤ i →
  i + 2 ≤ off ∨ off + Z.of_nat (length d) ≤ i → get16 (splice l off d) i = get16 l i.
Proof. intros. unfold get16. rewrite !get8_splice_out by lia. done. Qed.

Lemma get32_le32 v : get32 (le32 v) 0 = u32 v.
Proof. rewrite <- bytes_of_word. done. Qed.

Lemma get32_put32_eq l off v :
  0 ≤ off → off + 4 ≤ Z.of_nat (length l) → get32 (put32 l off v) off = u32 v.
Proof.
  intros. rewrite <- get32_le32. unfold put32, get32.
  rewrite !get8_splice_in by (simpl; lia). repeat f_equal; lia.
Qed.

Lemma get32_put32_ne l off v i :
  0 ≤ off → off + 4 ≤ Z.of_nat (length l) → 0 ≤ i → i + 4 ≤ off ∨ off + 4 ≤ i →
  get32 (put32 l off v) i = get32 l i.
Proof. intros. unfold put32. apply get32_splice_out; unfold le32; simpl; lia. Qed.

Lemma get16_le16 v : get16 (le16 v) 0 = u16 v.
Proof.
  unfold get16, get8; simpl. unfold u8, u16. rewrite Z.shiftr_div_pow2 by lia.
  change (2 ^ 16) with (2 ^ 8 * 2 ^ 8). rewrite Z.rem_mul_r by lia. done.
Qed.

Lemma get16_put16_eq l off v :
  0 ≤ off → off + 2 ≤ Z.of_nat (length l) → get16 (put16 l off v) off = u16 v.
Proof.
  intros. rewrite <- get16_le16. unfold put16, get16.
  rewrite !get8_splice_in by (simpl; lia). repeat f_equal; lia.
Qed.

Lemma length_put32 l off v : length (put32 l off v) = length l.
Proof. apply length_splice. Qed.
Lemma length_put16 l off v : length (put16 l off v) = length l.
Proof. apply length_splice. Qed.
Lemma length_put8 l off v : length (put8 l off v) = length l.
Proof. apply length_splice. Qed.

Lemma length_zeroes n : 0 ≤ n → Z.of_nat (length (zeroes n)) = n.
Proof. intros. unfold zeroes. rewrite length_replicate. lia. Qed.

Lemma get8_zeroes n i : get8 (zeroes n) i = 0.
Proof.
  unfold get8, zeroes. destruct (decide (Z.to_nat i < Z.to_nat n)%nat).
  - by rewrite lookup_replicate_2.
  - rewrite lookup_ge_None_2; [done|]. rewrite length_replicate. lia.
Qed.

Lemma get32_zeroes n i : get32 (zeroes n) i = 0.
Proof. unfold get32. rewrite !get8_zeroes. done. Qed.

Lemma get16_zeroes n i : get16 (zeroes n) i = 0.
Proof. unfold get16. rewrite !get8_zeroes. done. Qed.

Lemma get8_range n l i : bytes_ok n l → 0 ≤ get8 l i < 2 ^ 8.
Proof.
  intros [_ H]. unfold get8. destruct (l !! Z.to_nat i) as [b|] eqn:E; simpl; [|lia].
  rewrite Forall_forall in H. apply H. by eapply list_elem_of_lookup_2.
Qed.

Lemma get32_range n l i : bytes_ok n l → 0 ≤ get32 l i < 2 ^ 32.
Proof.
  intros H. unfold get32. pose proof (get8_range n l i H).
  pose proof (get8_range n l (i + 1) H). pose proof (get8_range n l (i + 2) H).
  pose proof (get8_range n l (i + 3) H). lia.
Qed.

Lemma get16_range n l i : bytes_ok n l → 0 ≤ get16 l i < 2 ^ 16.
Proof.
  intros H. unfold get16. pose proof (get8_range n l i H).
  pose proof (get8_range n l (i + 1) H). lia.
Qed.

Lemma bytes_ok_zeroes n : 0 ≤ n → bytes_ok n (zeroes n).
Proof.
  intros. split; [by apply length_zeroes|]. unfold zeroes. apply Forall_replicate. lia.
Qed.

Lemma bytes_ok_le32 v : bytes_ok 4 (le32 v).
Proof. split; [done|]. repeat constructor; apply u8_range. Qed.

Lemma bytes_ok_le16 v : bytes_ok 2 (le16 v).
Proof. split; [done|]. repeat constructor; apply u8_range. Qed.

Lemma bytes_ok_splice n k l off d : bytes_ok n l → bytes_ok k d → bytes_ok n (splice l off d).
Proof.
  intros [Hl Hf] [_ Hd]. split; [by rewrite length_splice|].
  unfold splice. rewrite !Forall_app. auto using Forall_take, Forall_drop.
Qed.

Lemma bytes_ok_put32 n l off v : bytes_ok n l → bytes_ok n (put32 l off v).
Proof. intros. eapply bytes_ok_splice; eauto using bytes_ok_le32. Qed.

Lemma bytes_ok_put16 n l off v : bytes_ok n l → bytes_ok n (put16 l off v).
Proof. intros. eapply bytes_ok_splice; eauto using bytes_ok_le16. Qed.

Lemma bytes_ok_put8 n l off v : bytes_ok n l → bytes_ok n (put8 l off v).
Proof.
  intros. eapply (bytes_ok_splice n 1); [done|]. split; [done|].
  repeat constructor; apply u8_range.
Qed.

Lemma bytes_ok_slice n l off k :
  bytes_ok n l → 0 ≤ off → 0 ≤ k → off + k ≤ n → bytes_ok k (slice l off k).
Proof.
  intros [Hl Hf] ???. unfold slice. split.
  - rewrite length_take, length_drop. lia.
  - auto using Forall_take, Forall_drop.
Qed.

Lemma get8_slice l off k i : 0 ≤ off → 0 ≤ i < k → get8 (slice l off k) i = get8 l (off + i).
Proof.
  intros. unfold get8, slice. rewrite lookup_take_lt by lia. rewrite lookup_drop.
  do 2 f_equal. lia.
Qed.

#[export] Hint Resolve bytes_ok_zeroes bytes_ok_put32 bytes_ok_put16 bytes_ok_put8 : kernel.

(** Two buffers of the same length are equal when their bytes are. *)
Lemma bytes_ext l l' :
  length l = length l' → (∀ i, 0 ≤ i < Z.of_nat (length l) → get8 l i = get8 l' i) → l = l'.
Proof.
  intros Hlen H. apply list_eq_same_length with (length l); [done|done|].
  intros i x y Hi Hx Hy. specialize (H (Z.of_nat i) ltac:(lia)).
  unfold get8 in H. rewrite !Nat2Z.id, Hx, Hy in H. done.
Qed.

(** A slice as the list of its bytes. *)
Lemma slice_seqZ l off n :
  0 ≤ off → 0 ≤ n → off + n ≤ Z.of_nat (length l) → slice l off n = get8 l <$> seqZ off n.
Proof.
  intros Ho Hn Hl. apply list_eq. intros j. rewrite list_lookup_fmap. unfold slice.
  destruct (decide (Z.of_nat j < n)).
  - rewrite lookup_take_lt, lookup_drop by lia. rewrite lookup_seqZ_lt by lia. simpl. unfold get8.
    destruct (lookup_lt_is_Some_2 l (Z.to_nat off + j)) as [c Hc]; [lia|].
    replace (Z.to_nat (off + Z.of_nat j)) with (Z.to_nat off + j)%nat by lia. by rewrite Hc.
  - rewrite lookup_take_ge, lookup_seqZ_ge by lia. done.
Qed.
