(* ===== verification/Ide.v ===== *)
(** * Disk drivers: [xv6/ide.c] and [xv6/memide.c]

    [struct buf] of [buf.h], the in-memory driver, the interrupt-driven driver
    with its request queue, and the interface [DiskDriver] that both implement
    and that the buffer cache is built on. *)

From S2P Require Import Prelude Bytes.

(** ** Buffers and disks *)

Definition B_VALID : Z := 2.
Definition B_DIRTY : Z := 4.

(** [struct buf] without its list pointers, which the containers that thread them
    keep; [b_locked] and [b_pid] are the fields of its sleep lock. *)
Record buf := Buf {
  b_flags : Z;
  b_dev : Z;
  b_blockno : Z;
  b_locked : bool;
  b_pid : Z;
  b_refcnt : Z;
  b_data : list Z
}.

Definition set_flags (f : Z) (b : buf) : buf :=
  Buf f (b_dev b) (b_blockno b) (b_locked b) (b_pid b) (b_refcnt b) (b_data b).
Definition set_data (d : list Z) (b : buf) : buf :=
  Buf (b_flags b) (b_dev b) (b_blockno b) (b_locked b) (b_pid b) (b_refcnt b) d.
Definition set_lock (l : bool) (p : Z) (b : buf) : buf :=
  Buf (b_flags b) (b_dev b) (b_blockno b) l p (b_refcnt b) (b_data b).
Definition set_refcnt (r : Z) (b : buf) : buf :=
  Buf (b_flags b) (b_dev b) (b_blockno b) (b_locked b) (b_pid b) r (b_data b).

#[global] Instance buf_inhabited : Inhabited buf := populate (Buf 0 0 0 false 0 0 []).

(** The contents of the disks by device and block number, and the writes they
    have received, oldest first. *)
Record disk := Disk {
  d_blk : gmap (Z * Z) (list Z);
  d_trace : list ((Z * Z) * list Z)
}.

Definition dread (d : disk) (k : Z * Z) : list Z := default (zeroes BSIZE) (d_blk d !! k).
Definition dwrite (d : disk) (k : Z * Z) (v : list Z) : disk :=
  Disk (<[k := v]> (d_blk d)) (d_trace d ++ [(k, v)]).

(** [holdingsleep(&b->lock)] of [sleeplock.c], for the running process [pid]. *)
Definition holdingsleep (pid : Z) (b : buf) : bool := b_locked b && (b_pid b =? pid).

(** ** [memide.c]: a disk kept in memory *)

Definition memide_iderw (disksize : Z) (pid : Z) (b : buf) (d : disk) : res (buf * disk) :=
  if negb (holdingsleep pid b) then Panic "iderw: buf not locked"
  else if Z.land (b_flags b) (Z.lor B_VALID B_DIRTY) =? B_VALID then Panic "iderw: nothing to do"
  else if negb (b_dev b =? 1) then Panic "iderw: request not for disk 1"
  else if disksize <=? b_blockno b then Panic "iderw: block out of range"
  else
    let k := (b_dev b, b_blockno b) in
    let '(b1, d1) :=
      if negb (Z.land (b_flags b) B_DIRTY =? 0)
      then (set_flags (Z.land (b_flags b) (Z.lnot B_DIRTY)) b, dwrite d k (b_data b))
      else (set_data (dread d k) b, d) in
    Ok (set_flags (Z.lor (b_flags b1) B_VALID) b1, d1).

(** ** [ide.c]: a queue of requests and one in progress *)

Definition SECTOR_SIZE : Z := 512.
Definition FSSIZE : Z := 1000.

(** What [idestart] writes to the controller's registers: [0x1f2] to [0x1f6], the
    command, and the data of a write. *)
Record regs := Regs {
  r_count : Z; r_lba0 : Z; r_lba1 : Z; r_lba2 : Z; r_drive : Z;
  r_cmd : Z; r_out : list Z
}.

(** [i_queue] is the list that starts at [idequeue] and goes through [qnext];
    [i_hw] is the command the controller is executing; [i_asleep] are the buffers whose
    caller of [iderw] sleeps on them. *)
Record ide := IdeState {
  i_queue : list nat;
  i_bufs : list buf;
  i_hw : option regs;
  i_disk : disk;
  i_havedisk1 : bool;
  i_asleep : gset nat
}.

Definition set_queue (q : list nat) (s : ide) : ide :=
  IdeState q (i_bufs s) (i_hw s) (i_disk s) (i_havedisk1 s) (i_asleep s).
Definition set_hw (h : option regs) (s : ide) : ide :=
  IdeState (i_queue s) (i_bufs s) h (i_disk s) (i_havedisk1 s) (i_asleep s).
Definition upd_buf (i : nat) (b : buf) (s : ide) : ide :=
  IdeState (i_queue s) (<[i := b]> (i_bufs s)) (i_hw s) (i_disk s) (i_havedisk1 s) (i_asleep s).

(** [sleep(b, &idelock)] up to the switch, and [wakeup(b)]. *)
Definition ide_sleep (i : nat) (s : ide) : ide :=
  IdeState (i_queue s) (i_bufs s) (i_hw s) (i_disk s) (i_havedisk1 s) ({[i]} ∪ i_asleep s).
Definition ide_wakeup (i : nat) (s : ide) : ide :=
  IdeState (i_queue s) (i_bufs s) (i_hw s) (i_disk s) (i_havedisk1 s) (i_asleep s ∖ {[i]}).

Definition IDE_CMD_READ : Z := 0x20.
Definition IDE_CMD_WRITE : Z := 0x30.
Definition IDE_CMD_RDMUL : Z := 0xc4.
Definition IDE_CMD_WRMUL : Z := 0xc5.

(** The register values [idestart] computes for a buffer. *)
Definition idestart_regs (b : buf) : regs :=
  let sector_per_block := BSIZE / SECTOR_SIZE in
  let sector := b_blockno b * sector_per_block in
  let read_cmd := if sector_per_block =? 1 then IDE_CMD_READ else IDE_CMD_RDMUL in
  let write_cmd := if sector_per_block =? 1 then IDE_CMD_WRITE else IDE_CMD_WRMUL in
  let dirty := negb (Z.land (b_flags b) B_DIRTY =? 0) in
  Regs sector_per_block
    (Z.land sector 0xff) (Z.land (sector ≫ 8) 0xff) (Z.land (sector ≫ 16) 0xff)
    (Z.lor (Z.lor 0xe0 (Z.land (b_dev b) 1 ≪ 4)) (Z.land (sector ≫ 24) 0x0f))
    (if dirty then write_cmd else read_cmd)
    (if dirty then b_data b else []).

Definition idestart (i : nat) : K ide unit :=
  b ← kgets (λ s, i_bufs s !!! i);
  kassert (negb (FSSIZE <=? b_blockno b)) "incorrect blockno";;
  kassert (negb (7 <? BSIZE / SECTOR_SIZE)) "idestart";;
  kmod (set_hw (Some (idestart_regs b))).

(** [insl]: the block that the controller read, when a read command is done. *)
Definition insl_data (s : ide) : list Z :=
  match i_hw s with
  | Some r =>
      dread (i_disk s)
        (Z.land (r_drive r ≫ 4) 1,
         r_lba0 r + 2 ^ 8 * r_lba1 r + 2 ^ 16 * r_lba2 r + 2 ^ 24 * Z.land (r_drive r) 0x0f)
  | None => []
  end.

(** The controller finishes the command in its registers; a write reaches the
    addressed sector. *)
Definition hw_done (s : ide) : ide :=
  match i_hw s with
  | Some r =>
      if r_cmd r =? IDE_CMD_WRITE
      then IdeState (i_queue s) (i_bufs s) (i_hw s)
             (dwrite (i_disk s)
                (Z.land (r_drive r ≫ 4) 1,
                 r_lba0 r + 2 ^ 8 * r_lba1 r + 2 ^ 16 * r_lba2 r + 2 ^ 24 * Z.land (r_drive r) 0x0f)
                (r_out r)) (i_havedisk1 s) (i_asleep s)
      else s
  | None => s
  end.

(** [err] is whether [idewait(1)] reports an error. *)
Definition ideintr (err : bool) : K ide unit :=
  s ← kget;
  match i_queue s with
  | [] => mret tt
  | i :: q =>
      kmod (set_queue q);;
      let b := i_bufs s !!! i in
      let b :=
        if (Z.land (b_flags b) B_DIRTY =? 0) && negb err then set_data (insl_data s) b else b in
      let b := set_flags (Z.lor (b_flags b) B_VALID) b in
      let b := set_flags (Z.land (b_flags b) (Z.lnot B_DIRTY)) b in
      kmod (upd_buf i b);;
      kmod (set_hw None);;
      kmod (ide_wakeup i);;
      match q with
      | [] => mret tt
      | j :: _ => idestart j
      end
  end.

(** [iderw] up to the point where the caller sleeps. *)
Definition iderw_enqueue (pid : Z) (i : nat) : K ide unit :=
  s ← kget;
  let b := i_bufs s !!! i in
  kassert (holdingsleep pid b) "iderw: buf not locked";;
  kassert (negb (Z.land (b_flags b) (Z.lor B_VALID B_DIRTY) =? B_VALID)) "iderw: nothing to do";;
  kassert (negb (negb (b_dev b =? 0) && negb (i_havedisk1 s))) "iderw: ide disk 1 not present";;
  kmod (set_queue (i_queue s ++ [i]));;
  match i_queue s with
  | [] => idestart i
  | _ => mret tt
  end.

(** The condition of the loop in which the caller of [iderw] sleeps. *)
Definition iderw_waiting (s : ide) (i : nat) : bool :=
  negb (Z.land (b_flags (i_bufs s !!! i)) (Z.lor B_VALID B_DIRTY) =? B_VALID).

(** The sleep of the caller: interrupts come in, each when the controller is done with its
    command, with or without an error, until one of them wakes the caller.  The result is
    the interrupts still to come. *)
Fixpoint iderw_sleep (i : nat) (errs : list bool) : K ide (list bool) :=
  s ← kget;
  if bool_decide (i ∈ i_asleep s) then
    match errs with
    | [] => khang
    | err :: errs' => kmod hw_done;; ideintr err;; iderw_sleep i errs'
    end
  else mret errs.

(** [while((b->flags & (B_VALID|B_DIRTY)) != B_VALID) sleep(b, &idelock)]; every round takes
    an interrupt. *)
Fixpoint iderw_loop (fuel : nat) (i : nat) (errs : list bool) : K ide (list bool) :=
  match fuel with
  | O => khang
  | S fuel' =>
      s ← kget;
      if iderw_waiting s i then
        kmod (ide_sleep i);;
        errs' ← iderw_sleep i errs;
        iderw_loop fuel' i errs'
      else mret errs
  end.

Definition iderw (pid : Z) (i : nat) (errs : list bool) : K ide (list bool) :=
  iderw_enqueue pid i;;
  iderw_loop (S (length errs)) i errs.

(** ** The interface of a driver *)

Definition flags_ok (f : Z) : Prop := f = 0 ∨ f = B_VALID ∨ f = B_DIRTY ∨ f = Z.lor B_VALID B_DIRTY.

(** The comment of [iderw] in both drivers: a dirty buffer is written, else one
    that is not valid is read; then it is valid and clean. *)
Definition synced (b : buf) (d : disk) : buf * disk :=
  let k := (b_dev b, b_blockno b) in
  if negb (Z.land (b_flags b) B_DIRTY =? 0)
  then (set_flags B_VALID b, dwrite d k (b_data b))
  else (set_flags B_VALID (set_data (dread d k) b), d).

(** A driver: what it does with a buffer, the blocks it serves, and its promise
    to the buffer cache. *)
Class DiskDriver := {
  drv_iderw : Z → buf → disk → res (buf * disk);
  drv_serves : Z → Z → Prop;
  drv_spec pid b d :
    holdingsleep pid b = true → flags_ok (b_flags b) → b_flags b ≠ B_VALID →
    drv_serves (b_dev b) (b_blockno b) →
    drv_iderw pid b d = Ok (synced b d)
}.

(** ** Invariant of the queue *)

(** A buffer whose request is waiting or being served. *)
Definition request_ok (b : buf) : Prop :=
  flags_ok (b_flags b) ∧ b_flags b ≠ B_VALID ∧ (b_dev b = 0 ∨ b_dev b = 1) ∧
  0 ≤ b_blockno b < FSSIZE.

Record ide_inv (s : ide) : Prop := {
  ide_nodup : NoDup (i_queue s);
  ide_reqs : ∀ i, i ∈ i_queue s → (i < length (i_bufs s))%nat ∧ request_ok (i_bufs s !!! i);
  ide_hw : i_hw s = (λ i, idestart_regs (i_bufs s !!! i)) <$> head (i_queue s)
}.

(** A request that ended with or without an error: a read that failed leaves the bytes of
    the buffer as they were. *)
Definition finished (err : bool) (b : buf) (d : disk) : buf * disk :=
  if err && (Z.land (b_flags b) B_DIRTY =? 0) then (set_flags B_VALID b, d) else synced b d.

(** Requests served one after the other, the errors of their interrupts given. *)
Fixpoint serve (q : list (nat * bool)) (bufs : list buf) (d : disk) : list buf * disk :=
  match q with
  | [] => (bufs, d)
  | (i, err) :: q' =>
      let '(b, d') := finished err (bufs !!! i) d in serve q' (<[i := b]> bufs) d'
  end.

(** [ide.c] as a driver: one request on an idle controller, and its interrupt, without an
    error. *)
Definition ide_once (pid : Z) (b : buf) (d : disk) : res (buf * disk) :=
  match iderw pid 0 [false] (IdeState [] [b] None d true ∅) with
  | Ok (_, s) => Ok (i_bufs s !!! 0%nat, i_disk s)
  | Panic msg => Panic msg
  | Hang => Hang
  end.

(** ** Lemmas *)

Lemma memide_spec disksize pid b d :
  holdingsleep pid b = true → flags_ok (b_flags b) → b_flags b ≠ B_VALID →
  b_dev b = 1 → b_blockno b < disksize →
  memide_iderw disksize pid b d = Ok (synced b d).
Proof.
  intros Hh Hf Hne Hd Hb. unfold memide_iderw, synced. rewrite Hh.
  destruct b as [f dev bn lk pd rc dt]; simpl in *. subst dev.
  destruct (Z.leb_spec disksize bn); [lia|].
  destruct Hf as [-> |[Hf|[-> | ->]]]; done.
Qed.

Lemma memide_law disksize pid b d :
  holdingsleep pid b = true → flags_ok (b_flags b) → b_flags b ≠ B_VALID →
  b_dev b = 1 ∧ b_blockno b < disksize →
  memide_iderw disksize pid b d = Ok (synced b d).
Proof. intros ??? [? ?]. by apply memide_spec. Qed.

#[export] Instance memide_driver (disksize : Z) : DiskDriver := {|
  drv_iderw := memide_iderw disksize;
  drv_serves dev blockno := dev = 1 ∧ blockno < disksize;
  drv_spec := memide_law disksize
|}.

(** The controller addresses the sector and the drive that [idestart] meant. *)
Lemma idestart_regs_addr b :
  0 ≤ b_blockno b < 2 ^ 28 → (b_dev b = 0 ∨ b_dev b = 1) →
  let r := idestart_regs b in
  Z.land (r_drive r ≫ 4) 1 = b_dev b ∧
  r_lba0 r + 2 ^ 8 * r_lba1 r + 2 ^ 16 * r_lba2 r + 2 ^ 24 * Z.land (r_drive r) 0x0f = b_blockno b.
Proof.
  intros Hb Hd r. unfold r, idestart_regs. simpl.
  change (BSIZE / SECTOR_SIZE) with 1. rewrite Z.mul_1_r. set (n := b_blockno b) in *.
  change 0xff with (Z.ones 8). change 0x0f with (Z.ones 4). rewrite !Z.land_ones by lia.
  rewrite !Z.shiftr_div_pow2 by lia.
  assert (Hn : 0 ≤ n / 2 ^ 24 < 16).
  { split; [apply Z.div_pos; lia|]. apply Z.div_lt_upper_bound; lia. }
  rewrite (Z.mod_small (n / 2 ^ 24)) by lia.
  assert (Hsum : n mod 2 ^ 8 + 2 ^ 8 * (n / 2 ^ 8 mod 2 ^ 8) + 2 ^ 16 * (n / 2 ^ 16 mod 2 ^ 8) +
          2 ^ 24 * (n / 2 ^ 24) = n).
  { change (2 ^ 16) with (2 ^ 8 * 2 ^ 8). change (2 ^ 24) with (2 ^ 8 * 2 ^ 8 * 2 ^ 8).
    rewrite <- !Z.div_div by lia. pose proof (Z.div_mod n (2 ^ 8)).
    pose proof (Z.div_mod (n / 2 ^ 8) (2 ^ 8)).
    pose proof (Z.div_mod (n / 2 ^ 8 / 2 ^ 8) (2 ^ 8)). lia. }
  revert Hsum Hn. generalize (n / 2 ^ 24) as t. intros t Hsum Ht.
  assert (t = 0 ∨ t = 1 ∨ t = 2 ∨ t = 3 ∨ t = 4 ∨ t = 5 ∨ t = 6 ∨ t = 7 ∨ t = 8 ∨ t = 9 ∨
          t = 10 ∨ t = 11 ∨ t = 12 ∨ t = 13 ∨ t = 14 ∨ t = 15) as Hc by lia.
  destruct Hd as [-> | ->];
    repeat (destruct Hc as [-> |Hc]; [split; [done|]; etrans; [|exact Hsum]; done|]);
    subst t; (split; [done|]; etrans; [|exact Hsum]; done).
Qed.

Lemma request_not_done b : request_ok b →
  Z.land (b_flags b) (Z.lor B_VALID B_DIRTY) =? B_VALID = false.
Proof. intros ([-> |[Hf|[-> | ->]]] & ? & _); done. Qed.

Lemma runs_idestart (Q : unit → ide → Prop) s i :
  request_ok (i_bufs s !!! i) →
  Q tt (set_hw (Some (idestart_regs (i_bufs s !!! i))) s) → runs (idestart i) Q s.
Proof.
  intros (_ & _ & _ & Hb) HQ. unfold idestart. kstep. kstep. kstep.
  kstep; [by bdestruct_all; [lia|]|]. kstep. kstep; [done|]. by kstep.
Qed.

(** One interrupt serves the head of the queue and starts the next request. *)
Lemma interrupt_ok err s i q (Q : unit → ide → Prop) :
  ide_inv s → i_queue s = i :: q →
  (∀ s', ide_inv s' → i_queue s' = q →
     (i_bufs s', i_disk s') =
       (let '(b, d) := finished err (i_bufs s !!! i) (i_disk s) in (<[i := b]> (i_bufs s), d)) →
     i_asleep s' = i_asleep s ∖ {[i]} → Q tt s') →
  runs (kmod hw_done;; ideintr err) Q s.
Proof.
  intros [Hnd Hreq Hhw] Hq HQ. rewrite Hq in *. simpl in Hhw.
  apply NoDup_cons in Hnd as [Hni Hnd].
  destruct (Hreq i ltac:(set_solver)) as [Hlen Hr].
  pose proof Hr as (Hf & Hne & Hdev & Hbn).
  destruct (idestart_regs_addr (i_bufs s !!! i)) as [Ha1 Ha2];
    [unfold FSSIZE in *; lia|done|].
  set (b := i_bufs s !!! i) in *.
  set (bd := finished err b (i_disk s)) in *.
  kstep. kstep. unfold ideintr. kstep. exists (hw_done s), (hw_done s). split; [done|].
  assert (Hq' : i_queue (hw_done s) = i :: q).
  { unfold hw_done. rewrite Hhw. by destruct (_ =? _). }
  assert (Hb' : i_bufs (hw_done s) = i_bufs s).
  { unfold hw_done. rewrite Hhw. by destruct (_ =? _). }
  assert (Hh' : i_asleep (hw_done s) = i_asleep s).
  { unfold hw_done. rewrite Hhw. by destruct (_ =? _). }
  rewrite Hq'. kstep. kstep. rewrite Hb'. fold b. kstep. kstep. kstep. kstep. kstep. kstep.
  set (s1 := ide_wakeup i _).
  assert (Hs1 : (i_bufs s1, i_disk s1) = (<[i := bd.1]> (i_bufs s), bd.2)).
  { unfold s1, bd, finished, synced. simpl. rewrite Hb'. unfold hw_done, insl_data. rewrite Hhw.
    unfold idestart_regs in *. simpl in *. change (BSIZE / SECTOR_SIZE) with 1 in *.
    rewrite !Z.mul_1_r in *. simpl in *.
    destruct (Z.eqb_spec (Z.land (b_flags b) B_DIRTY) 0) as [E|E]; simpl.
    - rewrite Hhw. simpl. rewrite Ha1, Ha2. destruct err; simpl; (f_equal; f_equal);
        destruct b; unfold set_flags, set_data; simpl in *; f_equal;
        by destruct Hf as [-> |[-> |[-> | ->]]].
    - rewrite andb_false_r, Ha1, Ha2. f_equal. f_equal. destruct b; unfold set_flags; simpl in *.
      f_equal. by destruct Hf as [-> |[-> |[-> | ->]]]. }
  assert (Hs1b : i_bufs s1 = <[i := bd.1]> (i_bufs s)) by exact (f_equal fst Hs1).
  assert (Hs1d : i_disk s1 = bd.2) by exact (f_equal snd Hs1).
  assert (Hs1q : i_queue s1 = q) by done.
  assert (Hs1w : i_hw s1 = None) by done.
  assert (Hs1h : i_asleep s1 = i_asleep s ∖ {[i]}) by (unfold s1; simpl; by rewrite Hh').
  clearbody s1. clear Hs1.
  assert (Hreq' : ∀ j, j ∈ q → (j < length (i_bufs s1))%nat ∧ request_ok (i_bufs s1 !!! j)).
  { intros j Hj. rewrite Hs1b, length_insert, list_lookup_total_insert_ne by set_solver.
    apply Hreq. set_solver. }
  assert (Hbd : (i_bufs s1, i_disk s1) = (let '(b, d) := bd in (<[i := b]> (i_bufs s), d))).
  { rewrite Hs1b, Hs1d. by destruct bd. }
  destruct q as [|j q].
  - kstep. apply HQ; try done. split; rewrite Hs1q; [constructor|set_solver|done].
  - destruct (Hreq' j ltac:(set_solver)) as [_ Hrj].
    apply runs_idestart; [done|]. apply HQ; try done.
    split; simpl; rewrite Hs1q; done.
Qed.

(** A caller that sleeps on buffer [i] is woken by the interrupt for it, and by none before;
    the requests before it are served on the way. *)
Lemma iderw_sleep_ok i q : ∀ errs s (Q : list bool → ide → Prop),
  ide_inv s → i_queue s = q ++ [i] → i ∈ i_asleep s → (length q < length errs)%nat →
  (∀ s', ide_inv s' → i_queue s' = [] →
     (i_bufs s', i_disk s') = serve (zip (q ++ [i]) errs) (i_bufs s) (i_disk s) →
     i_asleep s' = i_asleep s ∖ list_to_set (q ++ [i]) → Q (drop (S (length q)) errs) s') →
  runs (iderw_sleep i errs) Q s.
Proof.
  induction q as [|j q IH]; intros [|err errs] s Q Hi Hq Ha Hlen HQ; simpl in Hlen; try lia;
    cbn [iderw_sleep]; kstep; kstep; (rewrite bool_decide_eq_true_2 by done).
  all: assert (Hassoc : ∀ s, (kmod hw_done;; ideintr err;; iderw_sleep i errs) s =
         ((kmod hw_done;; ideintr err);; iderw_sleep i errs) s) by done.
  all: unfold runs; rewrite Hassoc; apply runs_bind.
  - eapply (interrupt_ok err s i []); [done..|]. intros s' Hi' Hq' Hbd Ha'.
    assert (E : iderw_sleep i errs = (s ← kget; if bool_decide (i ∈ i_asleep s) then
      match errs with [] => khang | e :: r => kmod hw_done;; ideintr e;; iderw_sleep i r end else mret errs)) by (by destruct errs).
    rewrite E. kstep. kstep. rewrite bool_decide_eq_false_2 by set_solver. kstep. apply HQ; [done|done| |set_solver].
    simpl. destruct errs; simpl; rewrite Hbd; by destruct (finished _ _ _).
  - assert (Hne : j ≠ i).
    { pose proof (ide_nodup _ Hi) as Hnd. rewrite Hq in Hnd. simpl in Hnd. apply NoDup_cons in Hnd as [Hnd _]. set_solver. }
    eapply (interrupt_ok err s j (q ++ [i])); [done..|]. intros s' Hi' Hq' Hbd Ha'.
    apply IH; [done|done|set_solver|lia|]. intros s'' Hi'' Hq'' Hbd'' Ha''.
    apply (HQ s''); [done|done| |rewrite Ha'', Ha'; set_solver].
    simpl. destruct (finished err (i_bufs s !!! j) (i_disk s)) as [b d]. injection Hbd as Hb Hd.
    by rewrite Hbd'', Hb, Hd.
Qed.

Lemma iderw_enqueue_ok pid s i (Q : unit → ide → Prop) :
  ide_inv s → i ∉ i_queue s → (i < length (i_bufs s))%nat →
  request_ok (i_bufs s !!! i) → holdingsleep pid (i_bufs s !!! i) = true →
  i_havedisk1 s = true →
  (∀ s', ide_inv s' → i_queue s' = i_queue s ++ [i] → i_bufs s' = i_bufs s →
         i_disk s' = i_disk s → i_asleep s' = i_asleep s → Q tt s') →
  runs (iderw_enqueue pid i) Q s.
Proof.
  intros [Hnd Hreq Hhw] Hni Hlen Hr Hh Hd HQ. unfold iderw_enqueue.
  kstep. exists s, s. split; [done|]. kstep. kstep; [done|].
  kstep. kstep; [by rewrite request_not_done|].
  kstep. kstep; [rewrite Hd; by rewrite andb_false_r|]. kstep. kstep.
  assert (Hnd' : NoDup (i_queue s ++ [i])).
  { apply NoDup_app. split; [done|]. split; [set_solver|]. apply NoDup_singleton. }
  assert (Hreq' : ∀ j, j ∈ i_queue s ++ [i] →
    (j < length (i_bufs s))%nat ∧ request_ok (i_bufs s !!! j)).
  { intros j [Hj|Hj%list_elem_of_singleton]%elem_of_app; [auto|by subst]. }
  destruct (i_queue s) as [|j q] eqn:Hq.
  - apply runs_idestart; [done|]. apply HQ; try done; by split.
  - kstep. apply HQ; try done; by split.
Qed.

(** A buffer that is not in the queue is left alone; one that is, is served. *)
Lemma serve_frame q : ∀ bufs d j, j ∉ q.*1 → (serve q bufs d).1 !!! j = bufs !!! j.
Proof.
  induction q as [|[i err] q IH]; intros bufs d j Hj; simpl; [done|]. simpl in Hj.
  destruct (finished _ _ _) as [b d']. rewrite IH by set_solver.
  apply list_lookup_total_insert_ne. set_solver.
Qed.

Lemma serve_app q1 q2 : ∀ bufs d,
  serve (q1 ++ q2) bufs d = let '(bufs', d') := serve q1 bufs d in serve q2 bufs' d'.
Proof.
  induction q1 as [|[i err] q1 IH]; intros bufs d; simpl; [done|].
  destruct (finished _ _ _) as [b d']. apply IH.
Qed.

Lemma length_serve q : ∀ bufs d, length (serve q bufs d).1 = length bufs.
Proof.
  induction q as [|[i err] q IH]; intros bufs d; simpl; [done|].
  destruct (finished _ _ _) as [b d']. by rewrite IH, length_insert.
Qed.

Lemma finished_flags err b d : b_flags (finished err b d).1 = B_VALID.
Proof. unfold finished, synced. destruct (_ && _); [done|]. by destruct (negb _). Qed.

(** The last request served is valid. *)
Lemma serve_last q i bufs d errs : (i < length bufs)%nat → (length q < length errs)%nat →
  b_flags ((serve (zip (q ++ [i]) errs) bufs d).1 !!! i) = B_VALID.
Proof.
  intros Hi Hlen.
  assert (E : zip (q ++ [i]) errs = zip q (take (length q) errs) ++ [(i, errs !!! length q)]).
  { destruct (lookup_lt_is_Some_2 errs (length q) Hlen) as [e He]. rewrite (list_lookup_total_correct _ _ _ He).
    rewrite <- (take_drop_middle errs (length q) e He) at 1. rewrite zip_with_app by (rewrite length_take; lia). done. }
  rewrite E, serve_app. pose proof (length_serve (zip q (take (length q) errs)) bufs d) as Hl.
  destruct (serve (zip q _) bufs d) as [bufs' d']. simpl in *. pose proof (finished_flags (errs !!! length q) (bufs' !!! i) d') as Hf.
  destruct (finished _ _ _) as [b d'']. simpl in *. by rewrite list_lookup_total_insert_eq by lia.
Qed.

Lemma iderw_ok pid s i errs (Q : list bool → ide → Prop) :
  ide_inv s → i ∉ i_queue s → (i < length (i_bufs s))%nat →
  request_ok (i_bufs s !!! i) → holdingsleep pid (i_bufs s !!! i) = true →
  i_havedisk1 s = true → (length (i_queue s) < length errs)%nat →
  (∀ s', ide_inv s' → i_queue s' = [] →
     (i_bufs s', i_disk s') = serve (zip (i_queue s ++ [i]) errs) (i_bufs s) (i_disk s) →
     i_asleep s' = i_asleep s ∖ list_to_set (i_queue s ++ [i]) → Q (drop (S (length (i_queue s))) errs) s') →
  runs (iderw pid i errs) Q s.
Proof.
  intros Hi Hni Hlen Hr Hh Hd He HQ. unfold iderw. kstep.
  apply iderw_enqueue_ok; try done. intros s1 Hi1 Hq1 Hb1 Hd1 Ha1. destruct errs as [|err errs]; [simpl in He; lia|].
  cbn [length iderw_loop]. kstep. kstep.
  assert (Hw1 : iderw_waiting s1 i = true) by (unfold iderw_waiting; by rewrite Hb1, request_not_done).
  rewrite Hw1. kstep. kstep. kstep. apply (iderw_sleep_ok i (i_queue s)); [by destruct Hi1|done|simpl; set_solver|done|].
  simpl. intros s2 Hi2 Hq2 Hbd2 Ha2. rewrite Hb1, Hd1 in Hbd2. kstep. kstep.
  assert (Hw : iderw_waiting s2 i = false).
  { unfold iderw_waiting. change (i_bufs s2) with (i_bufs s2, i_disk s2).1. rewrite Hbd2, serve_last by done. done. }
  rewrite Hw. kstep. apply HQ; [done|done|done|]. rewrite Ha2, Ha1. set_solver.
Qed.

Lemma ide_law pid b d :
  holdingsleep pid b = true → flags_ok (b_flags b) → b_flags b ≠ B_VALID →
  (b_dev b = 0 ∨ b_dev b = 1) ∧ 0 ≤ b_blockno b < FSSIZE →
  ide_once pid b d = Ok (synced b d).
Proof.
  intros Hh Hf Hne [Hd Hb]. unfold ide_once.
  destruct (iderw_ok pid (IdeState [] [b] None d true ∅) 0 [false]
    (λ _ s', (i_bufs s', i_disk s') = serve [(0%nat, false)] [b] d)) as (r & s' & E & Hs);
    simpl; try done; [split; simpl; [constructor|set_solver|done]|set_solver|lia|lia|].
  rewrite E. simpl in Hs. unfold finished in Hs. simpl in Hs. destruct (synced b d). by injection Hs as -> ->.
Qed.

#[export] Instance ide_driver : DiskDriver := {|
  drv_iderw := ide_once;
  drv_serves dev blockno := (dev = 0 ∨ dev = 1) ∧ 0 ≤ blockno < FSSIZE;
  drv_spec := ide_law
|}.

(** ** Properties *)

(** C3. The interrupt-driven driver serves requests in the order they were queued,
    each exactly once.  With any requests already queued and their callers asleep, a caller
    of [iderw] goes to sleep and is woken by the interrupt for its own buffer, which comes
    after one for each earlier request; the call then returns, without panicking, with
    the queue empty and none of the callers asleep.  Every queued buffer was
    synchronised with the disk in turn: written if it was dirty, read if not, or left with
    its old bytes when the controller reported an error for a read; it is marked valid and
    clean in each case.  Other buffers are not touched. *)
Theorem ide_serves_in_order pid s i errs :
  ide_inv s → i ∉ i_queue s → (i < length (i_bufs s))%nat →
  request_ok (i_bufs s !!! i) → holdingsleep pid (i_bufs s !!! i) = true →
  i_havedisk1 s = true → (length (i_queue s) < length errs)%nat →
  runs (iderw pid i errs)
    (λ rest s', rest = drop (S (length (i_queue s))) errs ∧ i_queue s' = [] ∧ i_hw s' = None ∧
       (i_bufs s', i_disk s') = serve (zip (i_queue s ++ [i]) errs) (i_bufs s) (i_disk s) ∧
       i_asleep s' = i_asleep s ∖ list_to_set (i_queue s ++ [i]) ∧
       b_flags (i_bufs s' !!! i) = B_VALID ∧
       (∀ j, j ≠ i → j ∉ i_queue s → i_bufs s' !!! j = i_bufs s !!! j)) s.
Proof.
  intros Hi Hni Hlen Hr Hh Hd He. apply iderw_ok; try done.
  intros s' [_ _ Hhw] Hq Hbd Ha. rewrite Hq in Hhw. split_and!; try done.
  - change (i_bufs s') with (i_bufs s', i_disk s').1. rewrite Hbd. by apply serve_last.
  - intros j Hj Hnj. change (i_bufs s') with (i_bufs s', i_disk s').1.
    rewrite Hbd. apply serve_frame. intros ([j' e] & -> & Hin)%list_elem_of_fmap.
    apply elem_of_zip_l in Hin. simpl in *. set_solver.
Qed.

(** A write of block 7 is queued and started; a read of the same block queued
    behind it gets the data written. *)
Lemma ide_serves_in_order_witness :
  let data := 9 :: zeroes 511 in
  let bufs := [Buf B_DIRTY 1 7 true 3 1 data; Buf 0 1 7 true 4 1 (zeroes 512)] in
  let s := IdeState [0%nat] bufs (Some (idestart_regs (bufs !!! 0%nat))) (Disk ∅ []) true {[0%nat]} in
  ∃ r s', iderw 4 1 [false; false] s = Ok (r, s') ∧ b_data (i_bufs s' !!! 1%nat) = data ∧ i_asleep s' = ∅.
Proof.
  intros data bufs s.
  assert (Hr : request_ok (bufs !!! 0%nat) ∧ request_ok (bufs !!! 1%nat)).
  { split; vm_compute; intuition congruence. }
  destruct (ide_serves_in_order 4 s 1 [false; false]) as (r & s' & E & _ & _ & _ & Hbd & Ha & _).
  - split; simpl; [apply NoDup_singleton| |reflexivity].
    intros i ->%list_elem_of_singleton. split; [simpl; lia|apply Hr].
  - simpl. set_solver.
  - simpl. lia.
  - apply Hr.
  - reflexivity.
  - reflexivity.
  - simpl. lia.
  - exists r, s'. split; [exact E|]. split; [|rewrite Ha; simpl; set_solver].
    change (i_bufs s') with (i_bufs s', i_disk s').1. rewrite Hbd. vm_compute. reflexivity.
Defined.

(** The sector number and the drive that [idestart] spreads over five
    controller registers are, put together again as the controller does (28-bit
    logical block addresses), the block and the device of the buffer. *)
Theorem idestart_addresses_the_block b :
  0 ≤ b_blockno b < 2 ^ 28 → (b_dev b = 0 ∨ b_dev b = 1) →
  let r := idestart_regs b in
  Z.land (r_drive r ≫ 4) 1 = b_dev b ∧
  r_lba0 r + 2 ^ 8 * r_lba1 r + 2 ^ 16 * r_lba2 r + 2 ^ 24 * Z.land (r_drive r) 0x0f =
    b_blockno b ∧
  (r_cmd r = IDE_CMD_WRITE ↔ Z.land (b_flags b) B_DIRTY ≠ 0).
Proof.
  intros Hb Hd r. destruct (idestart_regs_addr b Hb Hd) as [H1 H2].
  split; [done|]. split; [done|]. unfold r, idestart_regs. simpl.
  change (BSIZE / SECTOR_SIZE) with 1. simpl.
  destruct (Z.eqb_spec (Z.land (b_flags b) B_DIRTY) 0); simpl; split; done.
Qed.

Lemma idestart_addresses_the_block_witness :
  r_lba1 (idestart_regs (Buf B_DIRTY 1 999 true 3 1 [])) = 3 ∧
  r_cmd (idestart_regs (Buf B_DIRTY 1 999 true 3 1 [])) = IDE_CMD_WRITE.
Proof.
  split; [reflexivity|].
  apply (idestart_addresses_the_block (Buf B_DIRTY 1 999 true 3 1 []));
    [simpl; lia|right; reflexivity|vm_compute; discriminate].
Defined.

(** A read error is not reported: when the controller signals an error for a
    read, the interrupt handler still marks the buffer valid, with the bytes it had
    before the request. *)
Theorem ideintr_read_error_marks_valid s i :
  i_queue s = [i] → (i < length (i_bufs s))%nat → b_flags (i_bufs s !!! i) = 0 →
  runs (ideintr true) (λ _ s',
    iderw_waiting s' i = false ∧ b_data (i_bufs s' !!! i) = b_data (i_bufs s !!! i)) s.
Proof.
  intros Hq Hlen Hf. unfold ideintr. kstep. exists s, s. split; [done|]. rewrite Hq.
  kstep. kstep. kstep. kstep. kstep. kstep. kstep. kstep. kstep. unfold iderw_waiting. simpl.
  rewrite andb_false_r, Hf. simpl. rewrite !list_lookup_total_insert_eq by done. done.
Qed.

Lemma ideintr_read_error_marks_valid_witness :
  let s := IdeState [0%nat] [Buf 0 1 7 true 4 1 [5]] None (Disk ∅ []) true {[0%nat]} in
  runs (ideintr true) (λ _ s', iderw_waiting s' 0 = false ∧ b_data (i_bufs s' !!! 0%nat) = [5]) s.
Proof.
  intros s. apply (ideintr_read_error_marks_valid s 0); [reflexivity|simpl; lia|reflexivity].
Defined.
