(* ===== verification/Bio.v ===== *)
(** * Buffer cache: [xv6/bio.c]

    The buffers, the doubly linked list that keeps them in order of use, and the
    four operations of the interface, over any disk driver.  [BufCache] states
    what the cache promises to the log; the last part proves that [bio.c] keeps
    the promise.

    The model follows one process, [bs_pid]: [acquiresleep] on a buffer that is
    locked does not return.  [bcache.lock] protects each list operation and is
    held for its whole length, so it has no state of its own here. *)

From S2P Require Import Prelude Bytes Ide.

(** ** State *)

Definition NBUF : nat := 30.

(** The list head is a [struct buf] of its own, number [NBUF]. *)
Definition bhead : nat := NBUF.

Record bst := Bst {
  bs_bufs : list buf;
  bs_next : gmap nat nat;    (* the next fields, head.next first used last *)
  bs_prev : gmap nat nat;    (* the prev fields *)
  bs_disk : disk;
  bs_pid : Z                 (* the running process *)
}.

Definition upd_bufs (f : list buf → list buf) (s : bst) : bst :=
  Bst (f (bs_bufs s)) (bs_next s) (bs_prev s) (bs_disk s) (bs_pid s).
Definition upd_links (f : gmap nat nat * gmap nat nat → gmap nat nat * gmap nat nat)
    (s : bst) : bst :=
  let '(nx, pv) := f (bs_next s, bs_prev s) in Bst (bs_bufs s) nx pv (bs_disk s) (bs_pid s).
Definition set_disk (d : disk) (s : bst) : bst :=
  Bst (bs_bufs s) (bs_next s) (bs_prev s) d (bs_pid s).
Definition upd_one (i : nat) (f : buf → buf) : K bst unit :=
  kmod (upd_bufs (alter f i)).

(** ** Linked-list operations *)

Definition links : Type := gmap nat nat * gmap nat nat.

(** [b->next = head.next; b->prev = &head; head.next->prev = b; head.next = b;] *)
Definition link_front (b : nat) (ls : links) : links :=
  let '(nx, pv) := ls in
  let nx := <[b := nx !!! bhead]> nx in
  let pv := <[b := bhead]> pv in
  let pv := <[nx !!! bhead := b]> pv in
  let nx := <[bhead := b]> nx in
  (nx, pv).

(** [b->next->prev = b->prev; b->prev->next = b->next;] *)
Definition unlink (b : nat) (ls : links) : links :=
  let '(nx, pv) := ls in
  let pv := <[nx !!! b := pv !!! b]> pv in
  let nx := <[pv !!! b := nx !!! b]> nx in
  (nx, pv).

(** ** Operations *)

Section bio.
Context `{DiskDriver}.

(** [bcache.head.prev = bcache.head.next = &bcache.head], then every buffer is
    put at the front with its lock free. *)
Fixpoint binit_loop (b n : nat) : K bst unit :=
  match n with
  | O => mret tt
  | S n' =>
      upd_one b (set_lock false 0);;
      kmod (upd_links (link_front b));;
      binit_loop (S b) n'
  end.

Definition binit : K bst unit :=
  kmod (upd_links (λ '(nx, pv), (<[bhead := bhead]> nx, <[bhead := bhead]> pv)));;
  binit_loop 0 NBUF.

(** [for(b = start; b != &bcache.head; b = step(b)) if(p(b)) return b;] *)
Fixpoint scan (fuel : nat) (step : bst → nat → nat) (p : buf → bool) (b : nat) : K bst (option nat) :=
  match fuel with
  | O => khang
  | S fuel' =>
      if decide (b = bhead) then mret None
      else
        s ← kget;
        if p (bs_bufs s !!! b) then mret (Some b) else scan fuel' step p (step s b)
  end.

Definition acquiresleep (i : nat) : K bst unit :=
  s ← kget;
  if b_locked (bs_bufs s !!! i) then khang else upd_one i (set_lock true (bs_pid s)).

Definition releasesleep (i : nat) : K bst unit := upd_one i (set_lock false 0).

Definition bget (dev blockno : Z) : K bst nat :=
  s ← kget;
  r ← scan (S NBUF) (λ s b, bs_next s !!! b)
        (λ b, (b_dev b =? dev) && (b_blockno b =? blockno)) (bs_next s !!! bhead);
  match r with
  | Some i =>
      upd_one i (λ b, set_refcnt (b_refcnt b + 1) b);;
      acquiresleep i;;
      mret i
  | None =>
      r ← scan (S NBUF) (λ s b, bs_prev s !!! b)
            (λ b, (b_refcnt b =? 0) && (Z.land (b_flags b) B_DIRTY =? 0)) (bs_prev s !!! bhead);
      match r with
      | Some i =>
          upd_one i (λ b, Buf 0 dev blockno (b_locked b) (b_pid b) 1 (b_data b));;
          acquiresleep i;;
          mret i
      | None => kpanic "bget: no buffers"
      end
  end.

(** [iderw(b)] through the driver. *)
Definition sync (i : nat) : K bst unit := λ s,
  match drv_iderw (bs_pid s) (bs_bufs s !!! i) (bs_disk s) with
  | Ok (b, d) => Ok (tt, set_disk d (upd_bufs (alter (λ _, b) i) s))
  | Panic msg => Panic msg
  | Hang => Hang
  end.

Definition bread (dev blockno : Z) : K bst nat :=
  i ← bget dev blockno;
  s ← kget;
  (if Z.land (b_flags (bs_bufs s !!! i)) B_VALID =? 0 then sync i else mret tt);;
  mret i.

Definition bwrite (i : nat) : K bst unit :=
  s ← kget;
  kassert (holdingsleep (bs_pid s) (bs_bufs s !!! i)) "bwrite";;
  upd_one i (λ b, set_flags (Z.lor (b_flags b) B_DIRTY) b);;
  sync i.

Definition brelse (i : nat) : K bst unit :=
  s ← kget;
  kassert (holdingsleep (bs_pid s) (bs_bufs s !!! i)) "brelse";;
  releasesleep i;;
  upd_one i (λ b, set_refcnt (b_refcnt b - 1) b);;
  s ← kget;
  if b_refcnt (bs_bufs s !!! i) =? 0
  then kmod (upd_links (unlink i));; kmod (upd_links (link_front i))
  else mret tt.

(** Accesses of the holder to [b->data], [b->blockno] and [b->flags |= B_DIRTY]. *)
Definition bdata (i : nat) : K bst (list Z) := kgets (λ s, b_data (bs_bufs s !!! i)).
Definition bstore (i : nat) (d : list Z) : K bst unit := upd_one i (set_data d).
Definition bblockno (i : nat) : K bst Z := kgets (λ s, b_blockno (bs_bufs s !!! i)).
Definition bpin (i : nat) : K bst unit :=
  upd_one i (λ b, set_flags (Z.lor (b_flags b) B_DIRTY) b).

End bio.

(** ** The interface of a buffer cache *)

(** What a client of the cache sees: the contents of every block, the disk behind
    them, the buffers it holds and the blocks pinned in the cache. *)
Record cabs := Cabs {
  a_view : Z * Z → list Z;
  a_disk : disk;
  a_held : gmap (Z * Z) nat;
  a_dirty : gset (Z * Z)
}.

Definition a_busy (a : cabs) : gset (Z * Z) := dom (a_held a) ∪ a_dirty a.

Definition upd_view (a : cabs) (k : Z * Z) (v : list Z) : cabs :=
  Cabs (fupd (a_view a) k v) (a_disk a) (a_held a) (a_dirty a).
Definition upd_held (a : cabs) (f : gmap (Z * Z) nat → gmap (Z * Z) nat) : cabs :=
  Cabs (a_view a) (a_disk a) (f (a_held a)) (a_dirty a).
Definition upd_dirty (a : cabs) (f : gset (Z * Z) → gset (Z * Z)) : cabs :=
  Cabs (a_view a) (a_disk a) (a_held a) (f (a_dirty a)).
Definition upd_adisk (a : cabs) (d : disk) : cabs :=
  Cabs (a_view a) d (a_held a) (a_dirty a).

Class BufCache (S : Type) := {
  bc_bread : Z → Z → K S nat;
  bc_bwrite : nat → K S unit;
  bc_brelse : nat → K S unit;
  bc_data : nat → K S (list Z);
  bc_store : nat → list Z → K S unit;
  bc_blockno : nat → K S Z;
  bc_pin : nat → K S unit;
  bc_serves : Z → Z → Prop;
  bc_size : nat;
  bc_abs : S → cabs → Prop;
  bc_bread_spec s a dev b :
    bc_abs s a → bc_serves dev b → a_held a !! (dev, b) = None →
    (size (a_busy a ∪ {[(dev, b)]}) ≤ bc_size)%nat →
    runs (bc_bread dev b) (λ i s', bc_abs s' (upd_held a (<[(dev, b) := i]>))) s;
  bc_data_spec s a k i :
    bc_abs s a → a_held a !! k = Some i →
    runs (bc_data i) (λ d s', s' = s ∧ d = a_view a k) s;
  bc_store_spec s a k i v :
    bc_abs s a → a_held a !! k = Some i →
    runs (bc_store i v) (λ _ s', bc_abs s' (upd_view a k v)) s;
  bc_blockno_spec s a k i :
    bc_abs s a → a_held a !! k = Some i →
    runs (bc_blockno i) (λ b s', s' = s ∧ b = k.2) s;
  bc_pin_spec s a k i :
    bc_abs s a → a_held a !! k = Some i →
    runs (bc_pin i) (λ _ s', bc_abs s' (upd_dirty a (union {[k]}))) s;
  bc_bwrite_spec s a k i :
    bc_abs s a → a_held a !! k = Some i →
    runs (bc_bwrite i) (λ _ s', bc_abs s'
      (upd_adisk (upd_dirty a (λ X, X ∖ {[k]})) (dwrite (a_disk a) k (a_view a k)))) s;
  bc_brelse_spec s a k i :
    bc_abs s a → a_held a !! k = Some i →
    k ∈ a_dirty a ∨ a_view a k = dread (a_disk a) k →
    runs (bc_brelse i) (λ _ s', bc_abs s' (upd_held a (delete k))) s
}.

(** ** Invariant of [bio.c] *)

(** Following [next] from [x] visits [l] and then [y], and [prev] goes back. *)
Fixpoint path (nx pv : gmap nat nat) (x : nat) (l : list nat) (y : nat) : Prop :=
  match l with
  | [] => nx !!! x = y ∧ pv !!! y = x
  | z :: l' => nx !!! x = z ∧ pv !!! z = x ∧ path nx pv z l' y
  end.

(** The buffers in order of use, most recently used first. *)
Record lru (ls : links) (l : list nat) : Prop := {
  lru_path : path ls.1 ls.2 bhead l bhead;
  lru_perm : l ≡ₚ seq 0 NBUF
}.

Definition bkey (b : buf) : Z * Z := (b_dev b, b_blockno b).
Definition bvalid (b : buf) : bool := negb (Z.land (b_flags b) B_VALID =? 0).
Definition bdirty (b : buf) : bool := negb (Z.land (b_flags b) B_DIRTY =? 0).

(** What holds of each buffer: its lock and count belong to the running process,
    a buffer in use or dirty is valid, one that is not agrees with the disk. *)
Record buf_ok `{DiskDriver} (pid : Z) (d : disk) (b : buf) : Prop := {
  bo_flags : b_flags b = 0 ∨ b_flags b = B_VALID ∨ b_flags b = Z.lor B_VALID B_DIRTY;
  bo_refcnt : b_refcnt b = if b_locked b then 1 else 0;
  bo_pid : b_locked b = true → b_pid b = pid;
  bo_locked_valid : b_locked b = true → bvalid b = true;
  bo_valid_dev : bvalid b = true → b_dev b ≠ 0 ∧ drv_serves (b_dev b) (b_blockno b);
  bo_clean : bvalid b = true → b_locked b = false → bdirty b = false →
             b_data b = dread d (bkey b)
}.

Record binv `{DiskDriver} (s : bst) : Prop := {
  bi_len : length (bs_bufs s) = NBUF;
  bi_lru : ∃ l, lru (bs_next s, bs_prev s) l;
  bi_bufs : ∀ i, (i < NBUF)%nat → buf_ok (bs_pid s) (bs_disk s) (bs_bufs s !!! i);
  bi_uniq : ∀ i j, (i < NBUF)%nat → (j < NBUF)%nat → b_dev (bs_bufs s !!! i) ≠ 0 →
            bkey (bs_bufs s !!! i) = bkey (bs_bufs s !!! j) → i = j
}.

Record babs `{DiskDriver} (s : bst) (a : cabs) : Prop := {
  ba_inv : binv s;
  ba_disk : bs_disk s = a_disk a;
  ba_held k i : a_held a !! k = Some i ↔
    (i < NBUF)%nat ∧ b_locked (bs_bufs s !!! i) = true ∧ bkey (bs_bufs s !!! i) = k;
  ba_dirty k : k ∈ a_dirty a ↔
    ∃ i, (i < NBUF)%nat ∧ bdirty (bs_bufs s !!! i) = true ∧ bkey (bs_bufs s !!! i) = k;
  ba_cached i : (i < NBUF)%nat → bvalid (bs_bufs s !!! i) = true →
    b_data (bs_bufs s !!! i) = a_view a (bkey (bs_bufs s !!! i));
  ba_uncached k : (∀ i, (i < NBUF)%nat → bvalid (bs_bufs s !!! i) = true →
                        bkey (bs_bufs s !!! i) ≠ k) →
    a_view a k = dread (a_disk a) k
}.

(** ** Lemmas: the list *)

Lemma path_ext nx pv nx' pv' l : ∀ x y,
  (∀ z, z = x ∨ z ∈ l → nx' !!! z = nx !!! z) →
  (∀ z, z ∈ l ∨ z = y → pv' !!! z = pv !!! z) →
  path nx pv x l y → path nx' pv' x l y.
Proof.
  induction l as [|z l IH]; intros x y Hn Hp; simpl.
  - intros [? ?]. rewrite Hn, Hp by set_solver. done.
  - intros (? & ? & ?). rewrite Hn, Hp by set_solver. split; [done|]. split; [done|].
    apply IH; [set_solver|set_solver|done].
Qed.

Lemma path_app nx pv l1 z l2 : ∀ x y,
  path nx pv x (l1 ++ z :: l2) y ↔ path nx pv x l1 z ∧ path nx pv z l2 y.
Proof.
  induction l1 as [|w l1 IH]; intros x y; simpl; [tauto|]. rewrite IH. tauto.
Qed.

(** The same list followed through [prev]. *)
Lemma path_rev nx pv l : ∀ x y, path nx pv x l y → path pv nx y (rev l) x.
Proof.
  induction l as [|z l IH]; intros x y; simpl; [tauto|].
  intros (? & ? & Hp). apply path_app. split; [auto|done].
Qed.

(** Read links back after updates of them. *)
Ltac simpl_links :=
  repeat first [ rewrite lookup_total_insert_eq
               | rewrite lookup_total_insert_ne by (done || congruence) ].

Lemma link_front_ok ls l b :
  path ls.1 ls.2 bhead l bhead → b ∉ l → b ≠ bhead → NoDup (bhead :: l) →
  path (link_front b ls).1 (link_front b ls).2 bhead (b :: l) bhead.
Proof.
  destruct ls as [nx pv]. simpl. intros Hp Hb Hbh Hnd. apply NoDup_cons in Hnd as [Hh Hnd].
  rewrite !(lookup_total_insert_ne nx b bhead) by done.
  destruct l as [|y l]; simpl in Hp |- *.
  - destruct Hp as [-> Hpv]. simpl_links. done.
  - destruct Hp as (-> & Hpv & Hp). apply not_elem_of_cons in Hb as [Hby Hb].
    apply not_elem_of_cons in Hh as [Hhy Hh]. apply NoDup_cons in Hnd as [Hy Hnd].
    simpl_links. do 4 (split; [done|]).
    eapply path_ext; [| |exact Hp].
    + intros z Hz. rewrite !lookup_total_insert_ne; [done|..]; set_solver.
    + intros z Hz. rewrite !lookup_total_insert_ne; [done|..]; set_solver.
Qed.

(** Removing the first node after [x]. *)
Lemma unlink_first nx pv x b l2 y :
  nx !!! x = b → pv !!! b = x → path nx pv b l2 y →
  b ∉ l2 → x ∉ l2 → NoDup l2 → y ∉ l2 → b ≠ y → x ≠ b →
  path (<[x := nx !!! b]> nx) (<[nx !!! b := x]> pv) x l2 y.
Proof.
  intros Hx Hb Hp Hb2 Hx2 Hnd Hy Hby Hxb. destruct l2 as [|z l2]; simpl in Hp |- *.
  - destruct Hp as [-> _]. by rewrite !lookup_total_insert_eq.
  - destruct Hp as (-> & Hz & Hp). rewrite !lookup_total_insert_eq.
    apply NoDup_cons in Hnd as [Hz2 Hnd]. split; [done|]. split; [done|].
    eapply path_ext; [| |exact Hp]; intros w Hw; rewrite lookup_total_insert_ne;
      try done; set_solver.
Qed.

Lemma unlink_ok ls l1 b l2 :
  path ls.1 ls.2 bhead (l1 ++ b :: l2) bhead → NoDup (bhead :: l1 ++ b :: l2) →
  path (unlink b ls).1 (unlink b ls).2 bhead (l1 ++ l2) bhead.
Proof.
  destruct ls as [nx pv]. simpl. intros Hp Hnd.
  apply path_app in Hp as [Hp1 Hp2].
  apply NoDup_cons in Hnd as [Hh Hnd]. apply NoDup_app in Hnd as (Hnd1 & Hdis & Hnd2).
  apply NoDup_cons in Hnd2 as [Hb2 Hnd2].
  assert (Hbh : b ≠ bhead) by set_solver.
  assert (Hnb : nx !!! b ≠ b).
  { destruct l2; simpl in Hp2; [destruct Hp2 as [-> _]; done|].
    destruct Hp2 as (-> & _). set_solver. }
  rewrite lookup_total_insert_ne by done.
  destruct l1 as [|x l1' _] using rev_ind.
  - simpl in *. destruct Hp1 as [Hn Hpb]. rewrite Hpb.
    apply unlink_first; auto; set_solver.
  - rewrite path_app in Hp1. simpl in Hp1. destruct Hp1 as (Hp1 & Hn & Hpb). rewrite Hpb.
    rewrite <- app_assoc. simpl. apply NoDup_app in Hnd1 as (Hnd1 & Hdis1 & _).
    apply path_app. split.
    + eapply path_ext; [| |exact Hp1].
      * intros z Hz. rewrite lookup_total_insert_ne; [done|]. set_solver.
      * assert (Hnl : nx !!! b ∉ l1' ++ [x]).
        { destruct l2; simpl in Hp2; destruct Hp2 as [-> _]; [set_solver|].
          intros Hin. apply (Hdis _ Hin). set_solver. }
        intros z Hz. rewrite lookup_total_insert_ne; [done|].
        intros Heq. apply Hnl. rewrite Heq. set_solver.
    + apply unlink_first; auto; set_solver.
Qed.

(** ** Lemmas: the scans *)

Lemma lru_bound ls l i : lru ls l → i ∈ l ↔ (i < NBUF)%nat.
Proof. intros [_ Hp]. rewrite Hp, elem_of_seq. lia. Qed.

Lemma lru_nodup ls l : lru ls l → NoDup (bhead :: l).
Proof.
  intros Hl. constructor.
  - rewrite (lru_bound _ _ _ Hl). unfold bhead. lia.
  - destruct Hl as [_ ->]. apply NoDup_seq.
Qed.

Lemma scan_ok step p nx pv s l : ∀ fuel x,
  (∀ b, step s b = nx !!! b) → path nx pv x l bhead → bhead ∉ l → (length l < fuel)%nat →
  scan fuel step p (nx !!! x) s = Ok (List.find (λ i, p (bs_bufs s !!! i)) l, s).
Proof.
  induction l as [|z l IH]; intros [|fuel] x Hs Hp Hh Hf; simpl in *; try lia.
  - destruct Hp as [-> _]. by rewrite decide_True.
  - destruct Hp as (-> & _ & Hp). rewrite decide_False by set_solver.
    unfold mbind, K_bind, kget. destruct (p (bs_bufs s !!! z)); [done|].
    rewrite Hs. apply IH; [done|done|set_solver|lia].
Qed.

Lemma alter_alter_same {A} (f g : A → A) (l : list A) (i : nat) :
  alter g i (alter f i l) = alter (λ x, g (f x)) i l.
Proof. revert i. induction l as [|x l IH]; intros [|i]; simpl; try done. f_equal. apply IH. Qed.

Lemma find_none_intro {A} (f : A → bool) l :
  (∀ x, x ∈ l → f x = false) → List.find f l = None.
Proof.
  induction l as [|y l IH]; intros Hf; simpl; [done|]. rewrite Hf by set_solver.
  apply IH. set_solver.
Qed.

Lemma find_skip {A} (f : A → bool) l1 l2 :
  (∀ x, x ∈ l1 → f x = false) → List.find f (l1 ++ l2) = List.find f l2.
Proof.
  induction l1 as [|y l IH]; intros Hf; simpl; [done|]. rewrite Hf by set_solver.
  apply IH. set_solver.
Qed.

(** ** Lemmas: changing one buffer *)

Section bio_proofs.
Context `{DiskDriver}.

(** [s'] is [s] with buffer [i] replaced by [b] and the disk by [d]. *)
Record differs (s s' : bst) (i : nat) (b : buf) (d : disk) : Prop := {
  df_pid : bs_pid s' = bs_pid s;
  df_len : length (bs_bufs s') = length (bs_bufs s);
  df_at : bs_bufs s' !!! i = b;
  df_ne j : j ≠ i → bs_bufs s' !!! j = bs_bufs s !!! j;
  df_disk : bs_disk s' = d;
  df_lru : ∃ l, lru (bs_next s', bs_prev s') l
}.

Lemma binv_differs s s' i b d :
  binv s → (i < NBUF)%nat → differs s s' i b d →
  buf_ok (bs_pid s) d b →
  (∀ j, (j < NBUF)%nat → j ≠ i → b_dev (bs_bufs s !!! j) ≠ 0 →
        bkey b ≠ bkey (bs_bufs s !!! j)) →
  (∀ j, (j < NBUF)%nat → j ≠ i → b_dev (bs_bufs s !!! j) ≠ 0 →
        dread d (bkey (bs_bufs s !!! j)) = dread (bs_disk s) (bkey (bs_bufs s !!! j))) →
  binv s'.
Proof.
  intros [Hlen _ Hb Hu] Hi [Hp Hl Hat Hne Hd Hlru] Hok Hkey Hdr. split.
  - congruence.
  - done.
  - intros j Hj. rewrite Hp, Hd. destruct (decide (j = i)) as [-> |Hji]; [by rewrite Hat|].
    rewrite Hne by done. destruct (Hb j Hj). split; auto.
    intros Hv Hlk Hdy. rewrite Hdr; auto. by apply bo_valid_dev0.
  - intros j1 j2 Hj1 Hj2. destruct (decide (j1 = i)) as [-> |H1], (decide (j2 = i)) as [-> |H2].
    + done.
    + rewrite Hat, (Hne j2) by done. intros Hdev Hk. destruct (Hkey j2 Hj2 H2); [|done].
      injection Hk as <- _. done.
    + rewrite Hat, (Hne j1) by done. intros Hdev Hk. by destruct (Hkey j1 Hj1 H1).
    + rewrite !Hne by done. auto.
Qed.

Lemma babs_differs s s' i b d a a' :
  babs s a → (i < NBUF)%nat → differs s s' i b d → binv s' →
  a_disk a' = d →
  (∀ k j, a_held a' !! k = Some j ↔
     (j = i ∧ b_locked b = true ∧ bkey b = k) ∨ (j ≠ i ∧ a_held a !! k = Some j)) →
  (∀ k, k ∈ a_dirty a' ↔ (bdirty b = true ∧ bkey b = k) ∨
     ∃ j, j ≠ i ∧ (j < NBUF)%nat ∧ bdirty (bs_bufs s !!! j) = true ∧ bkey (bs_bufs s !!! j) = k) →
  (bvalid b = true → b_data b = a_view a' (bkey b)) →
  (∀ j, j ≠ i → (j < NBUF)%nat → bvalid (bs_bufs s !!! j) = true →
     a_view a' (bkey (bs_bufs s !!! j)) = a_view a (bkey (bs_bufs s !!! j))) →
  (∀ k, (bvalid b = true → bkey b ≠ k) →
     (∀ j, j ≠ i → (j < NBUF)%nat → bvalid (bs_bufs s !!! j) = true → bkey (bs_bufs s !!! j) ≠ k) →
     a_view a' k = dread d k) →
  babs s' a'.
Proof.
  intros [Hinv _ Hheld Hdirty Hc Hun] Hi [Hp Hl Hat Hne Hdd _] Hinv' Hd Hh' Hd' Hv1 Hv2 Hv3.
  split; [done|congruence|..].
  - intros k j. rewrite Hh'. destruct (decide (j = i)) as [-> |Hj].
    + rewrite Hat. split; [|tauto]. intros [?|[? _]]; [tauto|done].
    + rewrite Hne, Hheld by done. split; [|tauto]. intros [[? _]|[_ ?]]; [done|done].
  - intros k. rewrite Hd'. split.
    + intros [[? ?]|(j & ? & ? & ? & ?)]; [exists i; by rewrite Hat|].
      exists j. by rewrite Hne.
    + intros (j & ? & ? & ?). destruct (decide (j = i)) as [-> |Hj]; [rewrite Hat in *; auto|].
      rewrite Hne in * by done. right. eauto.
  - intros j Hj Hv. destruct (decide (j = i)) as [-> |Hji]; [rewrite Hat in *; auto|].
    rewrite Hne in * by done. rewrite Hv2 by done. auto.
  - intros k Hk. rewrite Hd. apply Hv3.
    + intros Hv. specialize (Hk i Hi). rewrite Hat in Hk. auto.
    + intros j Hji Hj Hv. specialize (Hk j Hj). rewrite Hne in Hk by done. auto.
Qed.

Lemma babs_view_ext s a v' :
  babs s a → (∀ k, v' k = a_view a k) → babs s (Cabs v' (a_disk a) (a_held a) (a_dirty a)).
Proof.
  intros [? ? ? ? Hc Hu] Hv. split; simpl; try done.
  - intros. rewrite Hv. auto.
  - intros. rewrite Hv. auto.
Qed.

(** The buffer of a key, when the key is held. *)
Lemma babs_held s a k i : babs s a → a_held a !! k = Some i →
  (i < NBUF)%nat ∧ b_locked (bs_bufs s !!! i) = true ∧ bkey (bs_bufs s !!! i) = k ∧
  bvalid (bs_bufs s !!! i) = true ∧ b_dev (bs_bufs s !!! i) ≠ 0 ∧
  holdingsleep (bs_pid s) (bs_bufs s !!! i) = true ∧
  drv_serves (b_dev (bs_bufs s !!! i)) (b_blockno (bs_bufs s !!! i)) ∧
  b_data (bs_bufs s !!! i) = a_view a k.
Proof.
  intros Ha Hk. apply (ba_held _ _ Ha) in Hk as (Hi & Hl & Hk).
  destruct (bi_bufs _ (ba_inv _ _ Ha) i Hi) as [_ _ Hpid Hlv Hvd _].
  specialize (Hlv Hl). destruct (Hvd Hlv) as [Hd Hs].
  repeat split; auto.
  - unfold holdingsleep. rewrite Hl, Hpid by done. apply Z.eqb_refl.
  - subst k. by apply (ba_cached _ _ Ha).
Qed.

(** Changing the data and flags of a buffer that is held. *)
Lemma babs_same_key s s' a k i b' d :
  babs s a → a_held a !! k = Some i → differs s s' i b' d →
  bkey b' = k → b_locked b' = true → b_pid b' = bs_pid s → b_refcnt b' = 1 →
  (b_flags b' = B_VALID ∨ b_flags b' = Z.lor B_VALID B_DIRTY) →
  (∀ k', k' ≠ k → dread d k' = dread (a_disk a) k') →
  babs s' (Cabs (fupd (a_view a) k (b_data b')) d (a_held a)
             (if bdirty b' then {[k]} ∪ a_dirty a else a_dirty a ∖ {[k]})).
Proof.
  intros Ha Hk Hdf Hkey Hl Hp Hr Hf Hd.
  destruct (babs_held _ _ _ _ Ha Hk) as (Hi & Hli & Hki & Hvi & Hdi & _ & Hsv & _).
  assert (Hother : ∀ j, (j < NBUF)%nat → j ≠ i → bkey (bs_bufs s !!! j) ≠ k).
  { intros j Hj Hji Hkj. apply Hji. symmetry.
    apply (bi_uniq _ (ba_inv _ _ Ha)); try done. congruence. }
  assert (Hv' : bvalid b' = true) by (unfold bvalid; by destruct Hf as [-> | ->]).
  assert (Hdev : b_dev b' = b_dev (bs_bufs s !!! i) ∧ b_blockno b' = b_blockno (bs_bufs s !!! i)).
  { rewrite <- Hki in Hkey. by injection Hkey. }
  destruct Hdev as [Hdev Hbn].
  eapply (babs_differs s s' i b' d a); try done; simpl.
  - eapply binv_differs; eauto using ba_inv.
    + split; try done; [by right| by rewrite Hl, Hr | by rewrite Hdev, Hbn |]. by rewrite Hl.
    + intros j Hj Hji _. rewrite Hkey. intros E. by apply (Hother j Hj Hji).
    + intros j Hj Hji _. rewrite (ba_disk _ _ Ha). apply Hd. by apply Hother.
  - intros k' j. split.
    + intros Hk'. destruct (decide (j = i)) as [-> |]; [left|by right].
      split; [done|]. split; [done|]. apply (ba_held _ _ Ha) in Hk' as (_ & _ & <-). congruence.
    + intros [(-> & _ & <-)|[_ ?]]; [congruence|done].
  - intros k'. split.
    + destruct (decide (k' = k)) as [-> |Hkk].
      * destruct (bdirty b'); [by left|]. set_solver.
      * intros Hin. right. assert (k' ∈ a_dirty a) as Hin' by (destruct (bdirty b'); set_solver).
        apply (ba_dirty _ _ Ha) in Hin' as (j & ? & ? & <-). exists j. split; [|done].
        intros ->. congruence.
    + intros [[-> <-]|(j & Hji & Hj & Hdj & <-)]; [rewrite Hkey; set_solver|].
      assert (bkey (bs_bufs s !!! j) ∈ a_dirty a) by (apply (ba_dirty _ _ Ha); eauto).
      pose proof (Hother j Hj Hji). destruct (bdirty b'); set_solver.
  - intros _. rewrite Hkey. by rewrite fupd_eq.
  - intros j Hji Hj _. rewrite fupd_ne; [done|]. by apply Hother.
  - intros k' Hk' Hj. rewrite fupd_ne by (intros ->; by apply Hk').
    rewrite Hd by (intros ->; by apply Hk').
    apply (ba_uncached _ _ Ha). intros j Hjn Hv. destruct (decide (j = i)) as [-> |]; [|auto].
    rewrite Hki, <- Hkey. auto.
Qed.

Lemma differs_upd s i b d :
  binv s → (i < NBUF)%nat →
  differs s (set_disk d (upd_bufs (alter (λ _, b) i) s)) i b d.
Proof.
  intros Hs Hi. pose proof (bi_len _ Hs). split; simpl; try done.
  - apply length_alter.
  - by rewrite list_lookup_total_alter_eq by lia.
  - intros j Hj. by rewrite list_lookup_total_alter_ne.
  - apply Hs.
Qed.

Lemma differs_trans s s1 s2 i b1 b2 d1 d2 :
  differs s s1 i b1 d1 → differs s1 s2 i b2 d2 → differs s s2 i b2 d2.
Proof.
  intros [? ? ? H1 ? ?] [? ? ? H2 ? ?]. split; try congruence.
  intros j Hj. by rewrite H2, H1.
Qed.

(** One update, or the last of several, of the buffer that differs. *)
Lemma differs_upd_one s s1 i b d f :
  binv s → (i < NBUF)%nat → differs s s1 i b d →
  differs s (upd_bufs (alter f i) s1) i (f b) d.
Proof.
  intros Hs Hi Hd. pose proof (bi_len _ Hs). destruct Hd as [? ? Hat Hne ? ?].
  split; simpl; try done.
  - by rewrite length_alter.
  - rewrite list_lookup_total_alter_eq by lia. by rewrite Hat.
  - intros j Hj. rewrite list_lookup_total_alter_ne by done. auto.
Qed.

Lemma differs_refl s i : binv s → differs s s i (bs_bufs s !!! i) (bs_disk s).
Proof. intros [? ? ? ?]. by split. Qed.

Lemma runs_upd_one s s1 i b d f (Q : unit → bst → Prop) :
  binv s → (i < NBUF)%nat → differs s s1 i b d →
  (∀ s2, differs s s2 i (f b) d → Q tt s2) → runs (upd_one i f) Q s1.
Proof.
  intros Hs Hi Hd HQ. unfold upd_one. kstep. apply HQ. by apply differs_upd_one.
Qed.

(** [iderw] through the driver, when there is something to do. *)
Lemma runs_sync s s1 i b d (Q : unit → bst → Prop) :
  binv s → (i < NBUF)%nat → differs s s1 i b d →
  holdingsleep (bs_pid s) b = true → flags_ok (b_flags b) → b_flags b ≠ B_VALID →
  drv_serves (b_dev b) (b_blockno b) →
  (∀ s2, differs s s2 i (synced b d).1 (synced b d).2 → Q tt s2) → runs (sync i) Q s1.
Proof.
  intros Hs Hi Hd Hh Hf Hne Hsv HQ. pose proof Hd as [Hpid Hlen Hat Hne' Hdk Hl].
  unfold runs, sync. rewrite Hpid, Hat, Hdk, drv_spec by done.
  destruct (synced b d) as [b' d'] eqn:E. eexists _, _. split; [done|]. apply HQ. simpl.
  pose proof (bi_len _ Hs).
  split; simpl; try done.
  - by rewrite length_alter.
  - by rewrite list_lookup_total_alter_eq by lia.
  - intros j Hj. rewrite list_lookup_total_alter_ne by done. auto.
Qed.

Lemma dirty_same s a k i :
  babs s a → a_held a !! k = Some i →
  (if bdirty (bs_bufs s !!! i) then {[k]} ∪ a_dirty a else a_dirty a ∖ {[k]}) = a_dirty a.
Proof.
  intros Ha Hk. destruct (babs_held _ _ _ _ Ha Hk) as (Hi & _ & Hki & _ & Hdi & _).
  apply set_eq. intros k'. destruct (bdirty (bs_bufs s !!! i)) eqn:E.
  - assert (k ∈ a_dirty a) by (apply (ba_dirty _ _ Ha); eauto). set_solver.
  - assert (k ∉ a_dirty a); [|set_solver]. intros (j & Hj & Hdj & Hkj)%(ba_dirty _ _ Ha).
    assert (i = j) as ->; [|congruence].
    apply (bi_uniq _ (ba_inv _ _ Ha)); congruence.
Qed.

Lemma locked_flags s a k i :
  babs s a → a_held a !! k = Some i →
  b_flags (bs_bufs s !!! i) = B_VALID ∨ b_flags (bs_bufs s !!! i) = Z.lor B_VALID B_DIRTY.
Proof.
  intros Ha Hk. destruct (babs_held _ _ _ _ Ha Hk) as (Hi & _ & _ & Hv & _).
  destruct (bi_bufs _ (ba_inv _ _ Ha) i Hi) as [Hf _ _ _ _ _].
  destruct Hf as [Hf|[?|?]]; auto. unfold bvalid in Hv. by rewrite Hf in Hv.
Qed.

(** ** The promises of the interface, one by one *)

Lemma bdata_spec s a k i :
  babs s a → a_held a !! k = Some i → runs (bdata i) (λ d s', s' = s ∧ d = a_view a k) s.
Proof.
  intros Ha Hk. unfold bdata. kstep. split; [done|].
  by destruct (babs_held _ _ _ _ Ha Hk) as (_ & _ & _ & _ & _ & _ & _ & ->).
Qed.

Lemma bblockno_spec s a k i :
  babs s a → a_held a !! k = Some i → runs (bblockno i) (λ b s', s' = s ∧ b = k.2) s.
Proof.
  intros Ha Hk. unfold bblockno. kstep. split; [done|].
  destruct (babs_held _ _ _ _ Ha Hk) as (_ & _ & <- & _). done.
Qed.

Lemma bstore_spec s a k i v :
  babs s a → a_held a !! k = Some i → runs (bstore i v) (λ _ s', babs s' (upd_view a k v)) s.
Proof.
  intros Ha Hk. pose proof (ba_inv _ _ Ha) as Hs.
  destruct (babs_held _ _ _ _ Ha Hk) as (Hi & Hl & Hki & _ & _ & Hh & _).
  eapply runs_upd_one; [done|done|by apply differs_refl|]. intros s2 Hdf.
  unfold upd_view. rewrite <- (dirty_same s a k i) at 1 by done.
  rewrite <- (ba_disk _ _ Ha).
  eapply (babs_same_key s s2 a k i (set_data v (bs_bufs s !!! i))); simpl; try done.
  - apply andb_prop in Hh as [_ Hh]. by apply Z.eqb_eq in Hh.
  - destruct (bi_bufs _ Hs i Hi) as [_ Hr _ _ _ _]. by rewrite Hr, Hl.
  - by eapply locked_flags.
  - intros. by rewrite (ba_disk _ _ Ha).
Qed.

Lemma bpin_spec s a k i :
  babs s a → a_held a !! k = Some i →
  runs (bpin i) (λ _ s', babs s' (upd_dirty a (union {[k]}))) s.
Proof.
  intros Ha Hk. pose proof (ba_inv _ _ Ha) as Hs.
  destruct (babs_held _ _ _ _ Ha Hk) as (Hi & Hl & Hki & _ & _ & Hh & _ & Hdt).
  eapply runs_upd_one; [done|done|by apply differs_refl|]. intros s2 Hdf.
  set (b' := set_flags _ _) in Hdf.
  assert (Hf' : b_flags b' = Z.lor B_VALID B_DIRTY).
  { unfold b'. simpl. by destruct (locked_flags _ _ _ _ Ha Hk) as [-> | ->]. }
  assert (Hab : babs s2 (Cabs (fupd (a_view a) k (b_data b')) (bs_disk s) (a_held a)
                 (if bdirty b' then {[k]} ∪ a_dirty a else a_dirty a ∖ {[k]}))).
  { eapply (babs_same_key s s2 a k i b'); try done.
    - apply andb_prop in Hh as [_ Hh]. by apply Z.eqb_eq in Hh.
    - simpl. destruct (bi_bufs _ Hs i Hi) as [_ Hr _ _ _ _]. by rewrite Hr, Hl.
    - by right.
    - intros. by rewrite (ba_disk _ _ Ha). }
  unfold bdirty in Hab. rewrite Hf' in Hab.
  apply (babs_view_ext _ _ (a_view a)) in Hab; [|simpl; rewrite Hdt].
  - simpl in Hab. rewrite (ba_disk _ _ Ha) in Hab. done.
  - intros k'. unfold fupd. case_decide; by subst.
Qed.

Lemma dread_dwrite_ne d k v k' : k' ≠ k → dread (dwrite d k v) k' = dread d k'.
Proof. intros. unfold dread, dwrite. simpl. by rewrite lookup_insert_ne. Qed.

Lemma dread_dwrite_eq d k v : dread (dwrite d k v) k = v.
Proof. unfold dread, dwrite. simpl. by rewrite lookup_insert_eq. Qed.

Lemma bwrite_spec s a k i :
  babs s a → a_held a !! k = Some i →
  runs (bwrite i) (λ _ s', babs s'
    (upd_adisk (upd_dirty a (λ X, X ∖ {[k]})) (dwrite (a_disk a) k (a_view a k)))) s.
Proof.
  intros Ha Hk. pose proof (ba_inv _ _ Ha) as Hs.
  destruct (babs_held _ _ _ _ Ha Hk) as (Hi & Hl & Hki & _ & _ & Hh & Hsv & Hdt).
  unfold bwrite. kstep. exists s, s. split; [done|]. kstep. kstep; [done|]. kstep.
  eapply runs_upd_one; [done|done|by apply differs_refl|]. intros s1 Hdf1.
  set (b1 := set_flags _ _) in Hdf1.
  assert (Hf1 : b_flags b1 = Z.lor B_VALID B_DIRTY).
  { unfold b1. simpl. by destruct (locked_flags _ _ _ _ Ha Hk) as [-> | ->]. }
  assert (Hsy : synced b1 (bs_disk s) = (set_flags B_VALID b1, dwrite (bs_disk s) k (a_view a k))).
  { unfold synced. rewrite Hf1. simpl. rewrite Hdt.
    change (b_dev (bs_bufs s !!! i), b_blockno (bs_bufs s !!! i)) with (bkey (bs_bufs s !!! i)).
    by rewrite Hki. }
  eapply runs_sync; [done|done|done|done|..].
  - rewrite Hf1. unfold flags_ok. auto.
  - rewrite Hf1. done.
  - done.
  - rewrite Hsy. simpl. intros s2 Hdf2.
    assert (Hab : babs s2 (Cabs (fupd (a_view a) k (a_view a k))
              (dwrite (bs_disk s) k (a_view a k)) (a_held a) (a_dirty a ∖ {[k]}))).
    { rewrite <- Hdt at 1.
      eapply (babs_same_key s s2 a k i (set_flags B_VALID b1)); try done.
      - apply andb_prop in Hh as [_ Hh]. by apply Z.eqb_eq in Hh.
      - simpl. destruct (bi_bufs _ Hs i Hi) as [_ Hr _ _ _ _]. by rewrite Hr, Hl.
      - by left.
      - intros k' Hk'. rewrite dread_dwrite_ne by done. by rewrite (ba_disk _ _ Ha). }
    apply (babs_view_ext _ _ (a_view a)) in Hab.
    + simpl in Hab. rewrite (ba_disk _ _ Ha) in Hab. done.
    + intros k'. simpl. unfold fupd. case_decide; by subst.
Qed.

(** Moving a buffer to the front of the list. *)
Lemma lru_to_front ls l i :
  lru ls l → (i < NBUF)%nat →
  ∃ l1 l2, l = l1 ++ i :: l2 ∧ lru (link_front i (unlink i ls)) (i :: l1 ++ l2).
Proof.
  intros Hl Hi. pose proof (lru_nodup _ _ Hl) as Hnd.
  assert (Hin : i ∈ l) by (by apply (lru_bound _ _ _ Hl)).
  apply list_elem_of_split in Hin as (l1 & l2 & ->). exists l1, l2. split; [done|].
  destruct Hl as [Hp Hperm]. split.
  - apply NoDup_cons in Hnd as [Hh Hnd]. apply NoDup_app in Hnd as (Hnd1 & Hdis & Hnd2).
    apply NoDup_cons in Hnd2 as [Hi2 Hnd2].
    apply link_front_ok.
    + apply unlink_ok; [done|]. constructor; [done|]. apply NoDup_app. split; [done|].
      split; [done|]. by constructor.
    + set_solver.
    + set_solver.
    + constructor; [set_solver|]. apply NoDup_app. split; [done|]. split; [set_solver|done].
  - rewrite <- Hperm. by rewrite Permutation_middle.
Qed.

Lemma brelse_spec s a k i :
  babs s a → a_held a !! k = Some i →
  k ∈ a_dirty a ∨ a_view a k = dread (a_disk a) k →
  runs (brelse i) (λ _ s', babs s' (upd_held a (delete k))) s.
Proof.
  intros Ha Hk Hkeep. pose proof (ba_inv _ _ Ha) as Hs.
  destruct (babs_held _ _ _ _ Ha Hk) as (Hi & Hl & Hki & Hv & Hdev & Hh & Hsv & Hdt).
  pose proof (bi_bufs _ Hs i Hi) as [Hfl Hr _ _ _ _]. rewrite Hl in Hr.
  unfold brelse. kstep. exists s, s. split; [done|]. kstep. kstep; [done|]. kstep.
  eapply runs_upd_one; [done|done|by apply differs_refl|]. intros s1 Hdf1. kstep.
  eapply runs_upd_one; [done|done|done|]. intros s2 Hdf2. kstep. exists s2, s2. split; [done|].
  rewrite (df_at _ _ _ _ _ Hdf2). simpl. rewrite Hr. simpl.
  set (b' := set_refcnt _ _) in Hdf2.
  kstep. kstep. kstep. set (s3 := upd_links _ (upd_links _ s2)).
  assert (Hdf3 : differs s s3 i b' (bs_disk s)).
  { destruct Hdf2 as [? ? ? ? ? [l Hlru]].
    destruct (lru_to_front _ _ i Hlru Hi) as (l1 & l2 & _ & Hlru').
    unfold s3, upd_links. simpl in *.
    destruct (unlink i (bs_next s2, bs_prev s2)) as [nx1 pv1]. simpl.
    destruct (link_front i (nx1, pv1)) as [nx2 pv2] eqn:E. simpl.
    split; simpl; try done. exists (i :: l1 ++ l2). simpl in Hlru'. 
    unfold link_front in E. by simplify_eq. }
  clearbody s3.
  assert (Hbd : bdirty b' = bdirty (bs_bufs s !!! i)) by done.
  assert (Hbk : bkey b' = k) by done.
  assert (Hother : ∀ j, (j < NBUF)%nat → j ≠ i → bkey (bs_bufs s !!! j) ≠ k).
  { intros j Hj Hji Hkj. apply Hji. symmetry. apply (bi_uniq _ Hs); try done. congruence. }
  eapply (babs_differs s s3 i b' (bs_disk s) a); try done; simpl.
  - eapply binv_differs; [done|done|done| | |done].
    + split; simpl; try done; [by rewrite Hr|].
      intros _ _ Hnd. rewrite Hdt. change (bkey b') with (bkey (bs_bufs s !!! i)).
      rewrite Hki, (ba_disk _ _ Ha). destruct Hkeep as [Hin|?]; [|done].
      apply (ba_dirty _ _ Ha) in Hin as (j & Hj & Hdj & Hkj).
      destruct (decide (j = i)) as [-> |]; [|by destruct (Hother j)].
      rewrite Hbd in Hnd. congruence.
    + intros j Hj Hji _. rewrite Hbk. intros E. by apply (Hother j).
  - by rewrite (ba_disk _ _ Ha).
  - intros k' j. rewrite lookup_delete_Some. split.
    + intros [Hne Hk']. right. split; [|done]. intros ->.
      apply (ba_held _ _ Ha) in Hk' as (_ & _ & Hk'). congruence.
    + intros [(_ & ? & _)|[Hji Hk']]; [done|]. split; [|done]. intros <-. congruence.
  - intros k'. rewrite (ba_dirty _ _ Ha). split.
    + intros (j & ? & ? & ?). destruct (decide (j = i)) as [-> |]; [left|right; eauto].
      by rewrite Hbd, Hbk, <- Hki.
    + intros [[? <-]|(j & _ & ? & ? & ?)]; [exists i|by exists j].
      by rewrite Hbd, Hbk, Hki in *.
  - intros _. by rewrite Hbk.
  - intros k' Hk' Hj. rewrite (ba_disk _ _ Ha). apply (ba_uncached _ _ Ha).
    intros j Hjn Hvj. destruct (decide (j = i)) as [-> |]; [|auto].
    rewrite Hki, <- Hbk. by apply Hk'.
Qed.

(** Taking a buffer for [k]: the one that caches it, or a free one. *)
Lemma babs_acquire s s' a k i bf :
  babs s a → a_held a !! k = None → (i < NBUF)%nat → differs s s' i bf (bs_disk s) →
  b_locked (bs_bufs s !!! i) = false →
  (∀ j, (j < NBUF)%nat → j ≠ i → bkey (bs_bufs s !!! j) ≠ k) →
  bkey bf = k → b_locked bf = true → b_pid bf = bs_pid s → b_refcnt bf = 1 →
  (b_flags bf = B_VALID ∨ b_flags bf = Z.lor B_VALID B_DIRTY) →
  b_data bf = a_view a k → k.1 ≠ 0 → drv_serves k.1 k.2 →
  bdirty bf = bdirty (bs_bufs s !!! i) →
  (bkey (bs_bufs s !!! i) = k ∨ bdirty (bs_bufs s !!! i) = false) →
  babs s' (upd_held a (<[k := i]>)).
Proof.
  intros Ha Hh Hi Hdf Hl Hother Hk Hlf Hpf Hrf Hff Hdt Hdev Hsv Hdy Hold.
  pose proof (ba_inv _ _ Ha) as Hs.
  eapply (babs_differs s s' i bf (bs_disk s) a); try done; simpl.
  - eapply binv_differs; [done|done|done| | |done].
    + split; try done; [by right|by rewrite Hlf|by unfold bvalid; destruct Hff as [-> | ->]|..].
      * intros _. subst k. done.
      * by rewrite Hlf.
    + intros j Hj Hji _. rewrite Hk. intros E. by apply (Hother j).
  - by rewrite (ba_disk _ _ Ha).
  - intros k' j. destruct (decide (k' = k)) as [-> |Hkk].
    + rewrite lookup_insert_eq, Hh. split; [intros [= ->]; auto|].
      intros [[-> _]|[_ ?]]; [done|done].
    + rewrite lookup_insert_ne by done. split.
      * intros Hj. right. split; [|done]. intros ->.
        apply (ba_held _ _ Ha) in Hj as (_ & ? & _). congruence.
      * intros [(_ & _ & ?)|[_ ?]]; [congruence|done].
  - intros k'. rewrite (ba_dirty _ _ Ha). split.
    + intros (j & ? & ? & ?). destruct (decide (j = i)) as [-> |]; [left|right; eauto].
      rewrite Hdy, Hk. destruct Hold; [split; congruence|congruence].
    + intros [[Hd' <-]|(j & _ & ? & ? & ?)]; [exists i|by exists j].
      rewrite Hdy in Hd'. rewrite Hk. destruct Hold; [done|congruence].
  - intros _. by rewrite Hk.
  - intros k' Hk' Hj. rewrite (ba_disk _ _ Ha).
    destruct (decide (bvalid (bs_bufs s !!! i) = true ∧ bkey (bs_bufs s !!! i) = k')) as [[Hv <-]|Hn].
    + destruct Hold as [Hold|Hnd].
      * exfalso. apply Hk'; [by unfold bvalid; destruct Hff as [-> | ->]|congruence].
      * rewrite <- (ba_cached _ _ Ha) by done. rewrite <- (ba_disk _ _ Ha).
        by apply (bi_bufs _ Hs i Hi).
    + apply (ba_uncached _ _ Ha). intros j Hjn Hvj. destruct (decide (j = i)) as [-> |]; [|auto].
      intros E. by apply Hn.
Qed.

(** When no buffer can be recycled, all of them are busy. *)
Lemma no_free_buffer s a k :
  babs s a → (∀ j, (j < NBUF)%nat → bkey (bs_bufs s !!! j) ≠ k) →
  (∀ j, (j < NBUF)%nat → (b_refcnt (bs_bufs s !!! j) =? 0) &&
        (Z.land (b_flags (bs_bufs s !!! j)) B_DIRTY =? 0) = false) →
  (NBUF < size (a_busy a ∪ {[k]}))%nat.
Proof.
  intros Ha Hk Hfull. pose proof (ba_inv _ _ Ha) as Hs.
  assert (Hlocked : ∀ j, (j < NBUF)%nat →
    b_locked (bs_bufs s !!! j) = true ∨ bdirty (bs_bufs s !!! j) = true).
  { intros j Hj. specialize (Hfull j Hj). destruct (bi_bufs _ Hs j Hj) as [_ Hr _ _ _ _].
    rewrite Hr in Hfull. unfold bdirty. destruct (b_locked (bs_bufs s !!! j)); [by left|].
    right. simpl in Hfull. by rewrite Hfull. }
  assert (Hdev : ∀ j, (j < NBUF)%nat → b_dev (bs_bufs s !!! j) ≠ 0).
  { intros j Hj. destruct (bi_bufs _ Hs j Hj) as [Hf _ _ Hlv Hvd _]. apply Hvd.
    destruct (Hlocked j Hj) as [?|Hd]; [auto|].
    unfold bdirty, bvalid in *. by destruct Hf as [Hf|[Hf|Hf]]; rewrite Hf in *. }
  set (keys := (λ j, bkey (bs_bufs s !!! j)) <$> seq 0 NBUF).
  assert (Hnd : NoDup (k :: keys)).
  { apply NoDup_cons. split.
    - unfold keys. intros (j & -> & Hj)%list_elem_of_fmap. apply elem_of_seq in Hj.
      apply (Hk j); [lia|done].
    - apply NoDup_fmap_2_strong; [|apply NoDup_seq]. intros x y Hx Hy E.
      apply elem_of_seq in Hx, Hy. apply (bi_uniq _ Hs); try lia; [|done]. apply Hdev. lia. }
  assert (Hsub : (list_to_set (k :: keys) : gset _) ⊆ a_busy a ∪ {[k]}).
  { rewrite list_to_set_cons. apply union_subseteq. split; [clear; set_solver|]. intros k' Hk'.
    apply elem_of_list_to_set, list_elem_of_fmap in Hk' as (j & -> & Hj).
    apply elem_of_seq in Hj. apply elem_of_union_l. unfold a_busy.
    destruct (Hlocked j ltac:(lia)).
    - apply elem_of_union_l, elem_of_dom. exists j. apply (ba_held _ _ Ha). split; [lia|done].
    - apply elem_of_union_r. apply (ba_dirty _ _ Ha). exists j. split; [lia|done]. }
  apply subseteq_size in Hsub. rewrite size_list_to_set in Hsub by done.
  rewrite length_cons in Hsub. unfold keys in Hsub. rewrite length_fmap, length_seq in Hsub. lia.
Qed.

(** Lock a buffer, and read it when it is not valid. *)
Lemma acquire_and_sync s s1 a k i b1 :
  babs s a → a_held a !! k = None → (i < NBUF)%nat → differs s s1 i b1 (bs_disk s) →
  b_locked (bs_bufs s !!! i) = false →
  (∀ j, (j < NBUF)%nat → j ≠ i → bkey (bs_bufs s !!! j) ≠ k) →
  bkey b1 = k → b_locked b1 = false → b_refcnt b1 = 1 → k.1 ≠ 0 → drv_serves k.1 k.2 →
  (bkey (bs_bufs s !!! i) = k ∧ b_flags b1 = b_flags (bs_bufs s !!! i) ∧
     b_data b1 = b_data (bs_bufs s !!! i) ∨
   bkey (bs_bufs s !!! i) ≠ k ∧ bdirty (bs_bufs s !!! i) = false ∧ b_flags b1 = 0) →
  runs (acquiresleep i) (λ _, runs
       (s ← kget;
        (if Z.land (b_flags (bs_bufs s !!! i)) B_VALID =? 0 then sync i else mret tt);;
        mret i)
    (λ j s', babs s' (upd_held a (<[k := j]>)))) s1.
Proof.
  intros Ha Hh Hi Hdf Hl Hother Hk Hl1 Hr1 Hdev Hsv Hcase. pose proof (ba_inv _ _ Ha) as Hs.
  unfold acquiresleep. kstep. exists s1, s1. split; [done|].
  rewrite (df_at _ _ _ _ _ Hdf), Hl1, (df_pid _ _ _ _ _ Hdf).
  eapply runs_upd_one; [done|done|done|]. intros s2 Hdf2. kstep. exists s2, s2. split; [done|].
  rewrite (df_at _ _ _ _ _ Hdf2). simpl. set (b2 := set_lock _ _ _) in Hdf2.
  pose proof (bi_bufs _ Hs i Hi) as Hok.
  destruct (Z.eqb_spec (Z.land (b_flags b1) B_VALID) 0) as [Hz|Hz]; kstep.
  - assert (Hf1 : b_flags b1 = 0).
    { destruct Hcase as [(_ & Hf & _)|(_ & _ & ?)]; [|done].
      destruct Hok as [[Hf'|[Hf'|Hf']] _ _ _ _ _]; rewrite Hf, Hf' in *; done. }
    assert (Hsy : synced b2 (bs_disk s) =
             (set_flags B_VALID (set_data (dread (bs_disk s) k) b2), bs_disk s)).
    { unfold synced. simpl. rewrite Hf1. simpl. subst k. done. }
    eapply runs_sync; [done|done|done|..].
    + unfold holdingsleep. simpl. apply Z.eqb_refl.
    + simpl. rewrite Hf1. by left.
    + simpl. by rewrite Hf1.
    + simpl. by subst k.
    + rewrite Hsy. simpl. intros s3 Hdf3. kstep.
      assert (Hunc : ∀ j, (j < NBUF)%nat → bvalid (bs_bufs s !!! j) = true →
                          bkey (bs_bufs s !!! j) ≠ k).
      { intros j Hj Hv. destruct (decide (j = i)) as [-> |]; [|auto].
        destruct Hcase as [(_ & Hf & _)|(? & _)]; [|done].
        unfold bvalid in Hv. by rewrite <- Hf, Hf1 in Hv. }
      eapply (babs_acquire s s3 a k i); try done; simpl.
      * by left.
      * rewrite (ba_uncached _ _ Ha) by done. by rewrite (ba_disk _ _ Ha).
      * destruct Hcase as [(_ & Hf & _)|(_ & Hd & _)]; [|done].
        unfold bdirty. by rewrite <- Hf, Hf1.
      * destruct Hcase as [(? & _)|(_ & ? & _)]; auto.
  - kstep. kstep.
    destruct Hcase as [(Hki & Hf & Hd)|(_ & _ & Hf)]; [|by rewrite Hf in Hz].
    eapply (babs_acquire s s2 a k i); try done; simpl.
    + destruct Hok as [[Hf'|[Hf'|Hf']] _ _ _ _ _]; rewrite Hf, Hf' in *; auto; done.
    + rewrite Hd, <- Hki. apply (ba_cached _ _ Ha); [done|]. unfold bvalid. rewrite <- Hf.
      by bdestruct_all.
    + unfold bdirty. simpl. by rewrite Hf.
    + by left.
Qed.

Lemma bread_spec s a dev b :
  babs s a → (dev ≠ 0 ∧ drv_serves dev b) → a_held a !! (dev, b) = None →
  (size (a_busy a ∪ {[(dev, b)]}) ≤ NBUF)%nat →
  runs (bread dev b) (λ i s', babs s' (upd_held a (<[(dev, b) := i]>))) s.
Proof.
  intros Ha [Hdev Hsv] Hh Hroom. pose proof (ba_inv _ _ Ha) as Hs.
  destruct (bi_lru _ Hs) as [l Hlru].
  pose proof (lru_nodup _ _ Hlru) as Hnd. apply NoDup_cons in Hnd as [Hbh Hnd].
  assert (Hlen : length l = NBUF) by (by rewrite (lru_perm _ _ Hlru), length_seq).
  pose proof (lru_path _ _ Hlru) as Hp. simpl in Hp.
  unfold bread. kstep. unfold bget. kstep. exists s, s. split; [done|]. kstep.
  eapply runs_of_eq; [apply (scan_ok _ _ _ (bs_prev s) _ l); [done|exact Hp|done|lia]|].
  set (k := (dev, b)) in *.
  assert (Hfind : ∀ j, (λ b0, (b_dev b0 =? dev) && (b_blockno b0 =? b)) (bs_bufs s !!! j) = true ↔
                       bkey (bs_bufs s !!! j) = k).
  { intros j. unfold bkey, k. rewrite andb_true_iff, !Z.eqb_eq. split; [by intros [-> ->]|].
    by intros [= -> ->]. }
  destruct (List.find _ l) as [i|] eqn:E.
  - apply List.find_some in E as [Hin Hi]. apply list_elem_of_In in Hin.
    apply (lru_bound _ _ _ Hlru) in Hin. apply Hfind in Hi.
    assert (Hl : b_locked (bs_bufs s !!! i) = false).
    { destruct (b_locked (bs_bufs s !!! i)) eqn:El; [|done].
      assert (a_held a !! k = Some i) by (by apply (ba_held _ _ Ha)). congruence. }
    kstep. eapply runs_upd_one; [done|done|by apply differs_refl|]. intros s1 Hdf. kstep.
    destruct (bi_bufs _ Hs i Hin) as [_ Hr _ _ _ _].
    eapply runs_mono; [eapply (acquire_and_sync s s1 a k i); try done|].
    + intros j Hj Hji Hkj. apply Hji. symmetry.
      apply (bi_uniq _ Hs); [done|done| |congruence]. by injection Hi as -> _.
    + simpl. by rewrite Hr, Hl.
    + by left.
    + intros [] s2 H2. by kstep.
  - assert (Hno : ∀ j, (j < NBUF)%nat → bkey (bs_bufs s !!! j) ≠ k).
    { intros j Hj Hk. apply Hfind in Hk.
      pose proof (List.find_none _ _ E j) as Hn. rewrite Hn in Hk; [done|].
      apply list_elem_of_In. by apply (lru_bound _ _ _ Hlru). }
    kstep. eapply runs_of_eq.
    { apply (scan_ok _ _ _ (bs_next s) _ (rev l));
        [done|apply path_rev; exact Hp|by rewrite list_elem_of_In, <- in_rev, <- list_elem_of_In
        |rewrite length_rev; lia]. }
    destruct (List.find _ (rev l)) as [i|] eqn:E2.
    + apply List.find_some in E2 as [Hin Hi]. rewrite <- in_rev, <- list_elem_of_In in Hin.
      apply (lru_bound _ _ _ Hlru) in Hin. apply andb_prop in Hi as [Hr Hd].
      apply Z.eqb_eq in Hr. destruct (bi_bufs _ Hs i Hin) as [_ Hr' _ _ _ _].
      assert (Hl : b_locked (bs_bufs s !!! i) = false)
        by (destruct (b_locked (bs_bufs s !!! i)); [lia|done]).
      kstep. eapply runs_upd_one; [done|done|by apply differs_refl|]. intros s1 Hdf. kstep.
      eapply runs_mono; [eapply (acquire_and_sync s s1 a k i); try done|].
      * by intros; apply Hno.
      * right. split; [by apply Hno|]. split; [|done]. unfold bdirty. by rewrite Hd.
      * intros [] s2 H2. by kstep.
    + exfalso. assert (NBUF < size (a_busy a ∪ {[k]}))%nat; [|lia].
      apply (no_free_buffer s); [done|done|]. intros j Hj.
      apply (List.find_none _ _ E2). rewrite <- in_rev, <- list_elem_of_In.
      by apply (lru_bound _ _ _ Hlru).
Qed.

(** [binit] links all the buffers, the last one first. *)
Lemma binit_loop_ok n : ∀ b l s (Q : unit → bst → Prop),
  path (bs_next s) (bs_prev s) bhead l bhead → NoDup (bhead :: l) →
  (∀ i, i ∈ l → (i < b)%nat) → (b + n = NBUF)%nat → length (bs_bufs s) = NBUF →
  (∀ s', path (bs_next s') (bs_prev s') bhead (rev (seq b n) ++ l) bhead →
     length (bs_bufs s') = NBUF → bs_disk s' = bs_disk s → bs_pid s' = bs_pid s →
     (∀ i, (i < b)%nat → bs_bufs s' !!! i = bs_bufs s !!! i) →
     (∀ i, (b ≤ i < NBUF)%nat → bs_bufs s' !!! i = set_lock false 0 (bs_bufs s !!! i)) → Q tt s') →
  runs (binit_loop b n) Q s.
Proof.
  induction n as [|n IH]; intros b l s Q Hp Hnd Hl Hn Hlen HQ; simpl.
  - kstep. apply HQ; try done. intros. lia.
  - kstep. unfold upd_one. kstep. kstep. kstep.
    assert (Hb : b ∉ l) by (intros Hin; specialize (Hl _ Hin); lia).
    assert (Hbh : b ≠ bhead) by (unfold bhead; lia).
    pose proof (link_front_ok (bs_next s, bs_prev s) l b Hp Hb Hbh Hnd) as Hp'.
    apply (IH (S b) (b :: l)).
    + unfold upd_links. simpl in *. done.
    + apply NoDup_cons in Hnd as [? ?]. constructor; [set_solver|]. by constructor.
    + intros i [-> |Hi]%elem_of_cons; [lia|]. specialize (Hl _ Hi). lia.
    + lia.
    + unfold upd_links. simpl. by rewrite length_alter.
    + intros s' Hps' Hlen' Hd' Hpid' Hlo Hhi. apply HQ; try done.
      * simpl. by rewrite <- app_assoc.
      * intros i Hi. rewrite Hlo by lia. unfold upd_links. simpl.
        by rewrite list_lookup_total_alter_ne by lia.
      * intros i Hi. destruct (decide (i = b)) as [-> |].
        -- rewrite Hlo by lia. unfold upd_links. simpl.
           by rewrite list_lookup_total_alter_eq by lia.
        -- rewrite Hhi by lia. unfold upd_links. simpl.
           by rewrite list_lookup_total_alter_ne by lia.
Qed.

(** A cache as the boot code leaves it before [binit]: static storage is zero. *)
Definition boot (d : disk) (pid : Z) : bst :=
  Bst (replicate NBUF (Buf 0 0 0 false 0 0 [])) ∅ ∅ d pid.

Lemma binit_ok d pid (Q : unit → bst → Prop) :
  (∀ s, babs s (Cabs (dread d) d ∅ ∅) → lru (bs_next s, bs_prev s) (rev (seq 0 NBUF)) →
     (∀ i, (i < NBUF)%nat → bs_bufs s !!! i = Buf 0 0 0 false 0 0 []) → Q tt s) →
  runs binit Q (boot d pid).
Proof.
  intros HQ. unfold binit. kstep. kstep.
  apply (binit_loop_ok NBUF 0 []).
  - simpl. by rewrite !lookup_total_insert_eq.
  - apply NoDup_singleton.
  - intros i Hi. set_solver.
  - lia.
  - done.
  - intros s Hp Hlen Hd Hpid _ Hb.
    assert (Hbuf : ∀ i, (i < NBUF)%nat → bs_bufs s !!! i = Buf 0 0 0 false 0 0 []).
    { intros i Hi. rewrite Hb by lia. unfold boot, upd_links. cbn [bs_bufs].
      by rewrite lookup_total_replicate_2. }
    assert (Hlru : lru (bs_next s, bs_prev s) (rev (seq 0 NBUF))).
    { split; [by rewrite app_nil_r in Hp|]. by rewrite <- Permutation_rev. }
    apply HQ; [|done|done]. split; cbn [a_disk a_held a_dirty a_view]; try done.
    + split; [done|by eexists| |].
      * intros i Hi. rewrite Hbuf by done. split; simpl; try done. by left.
      * intros i j Hi Hj. by rewrite Hbuf by done.
    + intros k i. split; [by rewrite lookup_empty|]. intros (Hi & Hl & _).
      by rewrite Hbuf in Hl.
    + intros k. split; [set_solver|]. intros (i & Hi & Hl & _). by rewrite Hbuf in Hl.
    + intros i Hi Hv. by rewrite Hbuf in Hv.
Qed.

End bio_proofs.

(** [bio.c] over any driver is a buffer cache of [NBUF] buffers. *)
#[export] Instance bio_cache `{DiskDriver} : BufCache bst := {|
  bc_bread := bread;
  bc_bwrite := bwrite;
  bc_brelse := brelse;
  bc_data := bdata;
  bc_store := bstore;
  bc_blockno := bblockno;
  bc_pin := bpin;
  bc_serves dev b := dev ≠ 0 ∧ drv_serves dev b;
  bc_size := NBUF;
  bc_abs := babs;
  bc_bread_spec := bread_spec;
  bc_data_spec := bdata_spec;
  bc_store_spec := bstore_spec;
  bc_blockno_spec := bblockno_spec;
  bc_pin_spec := bpin_spec;
  bc_bwrite_spec := bwrite_spec;
  bc_brelse_spec := brelse_spec
|}.

(** ** Properties *)

Section properties.
Context `{DiskDriver}.

(** [bread] of a block that the process does not hold returns, with one
    buffer: locked by the caller, valid, for the requested device and block, with
    the block's current contents, and no other buffer caches the same block.  The
    cache stays consistent, with that buffer added to those held. *)
Theorem bread_returns_the_block s a dev b :
  babs s a → dev ≠ 0 → drv_serves dev b → a_held a !! (dev, b) = None →
  (size (a_busy a ∪ {[(dev, b)]}) ≤ NBUF)%nat →
  runs (bread dev b) (λ i s',
    babs s' (upd_held a (<[(dev, b) := i]>)) ∧
    holdingsleep (bs_pid s') (bs_bufs s' !!! i) = true ∧
    bvalid (bs_bufs s' !!! i) = true ∧
    bkey (bs_bufs s' !!! i) = (dev, b) ∧
    b_data (bs_bufs s' !!! i) = a_view a (dev, b) ∧
    ∀ j, (j < NBUF)%nat → j ≠ i → bkey (bs_bufs s' !!! j) ≠ (dev, b)) s.
Proof.
  intros Ha Hdev Hsv Hh Hroom. eapply runs_mono; [by apply (bread_spec s a)|].
  simpl. intros i s' Ha'. split; [done|].
  destruct (proj1 (ba_held _ _ Ha' (dev, b) i)) as (Hi & Hl & Hk);
    [simpl; by rewrite lookup_insert_eq|].
  pose proof (ba_inv _ _ Ha') as Hs'. pose proof (bi_bufs _ Hs' i Hi) as [_ _ Hp Hv _ _].
  split; [|split; [by apply Hv|split; [done|split]]].
  - unfold holdingsleep. rewrite Hl, Hp by done. apply Z.eqb_refl.
  - rewrite (ba_cached _ _ Ha') by auto. by rewrite Hk.
  - intros j Hj Hji Hkj. apply Hji. symmetry. apply (bi_uniq _ Hs'); [done..| |congruence].
    by injection Hk as -> _.
Qed.

(** When the block is not cached, [bget] recycles the buffer that is the least
    recently used among those that are neither referenced nor dirty: everything
    after it in the list is in use.  The order of the list does not change, and the
    buffer comes back locked, with one reference and no valid contents. *)
Theorem bget_recycles_least_recently_used s dev b l1 i l2 :
  binv s → lru (bs_next s, bs_prev s) (l1 ++ i :: l2) →
  (∀ j, (j < NBUF)%nat → bkey (bs_bufs s !!! j) ≠ (dev, b)) →
  b_refcnt (bs_bufs s !!! i) = 0 → bdirty (bs_bufs s !!! i) = false →
  (∀ j, j ∈ l2 → b_refcnt (bs_bufs s !!! j) ≠ 0 ∨ bdirty (bs_bufs s !!! j) = true) →
  runs (bget dev b) (λ r s', r = i ∧
    bs_bufs s' = alter (λ x, Buf 0 dev b true (bs_pid s) 1 (b_data x)) i (bs_bufs s) ∧
    lru (bs_next s', bs_prev s') (l1 ++ i :: l2)) s.
Proof.
  intros Hs Hlru Hno Hr Hd Hbusy. pose proof (lru_nodup _ _ Hlru) as Hnd.
  apply NoDup_cons in Hnd as [Hbh _].
  assert (Hlen : length (l1 ++ i :: l2) = NBUF) by (by rewrite (lru_perm _ _ Hlru), length_seq).
  pose proof (lru_path _ _ Hlru) as Hp. simpl in Hp.
  assert (Hi : (i < NBUF)%nat) by (apply (lru_bound _ _ _ Hlru); set_solver).
  unfold bget. kstep. exists s, s. split; [done|]. kstep.
  eapply runs_of_eq; [apply (scan_ok _ _ _ (bs_prev s) _ (l1 ++ i :: l2)); [done|exact Hp|done|lia]|].
  rewrite find_none_intro.
  2:{ intros j Hj. apply (lru_bound _ _ _ Hlru), Hno in Hj. unfold bkey in Hj.
      bdestruct_all; simpl; congruence. }
  kstep. eapply runs_of_eq.
  { apply (scan_ok _ _ _ (bs_next s) _ (rev (l1 ++ i :: l2)));
      [done|by apply path_rev|by rewrite list_elem_of_In, <- in_rev, <- list_elem_of_In
      |rewrite length_rev; lia]. }
  rewrite rev_app_distr. simpl. rewrite <- app_assoc, find_skip.
  2:{ intros j Hj. rewrite list_elem_of_In, <- in_rev, <- list_elem_of_In in Hj.
      destruct (Hbusy j Hj) as [?|Hdj]; [by bdestruct_all|].
      unfold bdirty in Hdj. apply negb_true_iff in Hdj. rewrite Hdj. apply andb_false_r. }
  simpl. rewrite Hr. unfold bdirty in Hd. apply negb_false_iff in Hd. rewrite Hd. simpl.
  destruct (bi_bufs _ Hs i Hi) as [_ Hr' _ _ _ _].
  assert (Hl : b_locked (bs_bufs s !!! i) = false)
    by (destruct (b_locked (bs_bufs s !!! i)); [lia|done]).
  assert (Hin : (i < length (bs_bufs s))%nat) by (by rewrite (bi_len _ Hs)).
  kstep. unfold upd_one. kstep. kstep. unfold acquiresleep. kstep.
  eexists _, _. split; [done|]. cbn [bs_bufs upd_bufs].
  rewrite list_lookup_total_alter_eq by done. cbn [b_locked]. rewrite Hl.
  unfold upd_one. kstep. kstep. split; [done|]. split; [|done].
  cbn [bs_bufs bs_pid upd_bufs]. by rewrite alter_alter_same.
Qed.

(** A block written through the cache is what the cache and the disk hold
    afterwards: [bread], the update of the data, [bwrite] and [brelse], followed by
    another [bread], give the new contents back, and the disk received exactly one
    write, of those contents to that block. *)
Theorem cache_write_read_roundtrip s a dev b v :
  babs s a → dev ≠ 0 → drv_serves dev b → a_held a !! (dev, b) = None →
  (size (a_busy a ∪ {[(dev, b)]}) ≤ NBUF)%nat →
  runs (i ← bread dev b; bstore i v;; bwrite i;; brelse i;;
        j ← bread dev b; bdata j)
    (λ d s', d = v ∧ dread (bs_disk s') (dev, b) = v ∧
             d_trace (bs_disk s') = d_trace (bs_disk s) ++ [((dev, b), v)]) s.
Proof.
  intros Ha Hdev Hsv Hh Hroom.
  kstep. eapply runs_mono; [by apply (bread_spec s a)|]. simpl. intros i s1 H1.
  kstep. eapply runs_mono; [eapply (bstore_spec s1); [exact H1|apply lookup_insert_eq]|].
  simpl. intros _ s2 H2.
  kstep. eapply runs_mono; [eapply (bwrite_spec s2); [exact H2|apply lookup_insert_eq]|].
  simpl. rewrite fupd_eq. intros _ s3 H3.
  kstep. eapply runs_mono.
  { eapply (brelse_spec s3); [exact H3|apply lookup_insert_eq|].
    right. simpl. by rewrite fupd_eq, dread_dwrite_eq. }
  simpl. intros _ s4 H4. unfold upd_held, upd_adisk, upd_dirty, upd_view in H4. simpl in H4.
  rewrite delete_insert_id in H4 by done.
  kstep. eapply runs_mono.
  { eapply (bread_spec s4); [exact H4|done|done|]. etrans; [|exact Hroom].
    apply subseteq_size. unfold a_busy. simpl. set_solver. }
  intros j s5 H5. eapply runs_mono; [eapply (bdata_spec s5); [exact H5|apply lookup_insert_eq]|].
  simpl. intros d s' [-> ->]. rewrite fupd_eq, (ba_disk _ _ H5). simpl.
  rewrite dread_dwrite_eq. by rewrite (ba_disk _ _ Ha).
Qed.

End properties.

(** A disk of 1000 blocks in memory whose block 7 is known. *)
Definition sample_disk : disk := Disk {[ (1, 7) := [1; 2; 3] ]} [].

Lemma bread_returns_the_block_witness :
  runs (binit;; bread (H := memide_driver 1000) 1 7)
    (λ i s', b_data (bs_bufs s' !!! i) = [1; 2; 3]) (boot sample_disk 3).
Proof.
  kstep. apply (binit_ok (H := memide_driver 1000)). intros s Ha _ _.
  eapply runs_mono; [apply (bread_returns_the_block (H := memide_driver 1000) s _ 1 7 Ha)|].
  - done.
  - done.
  - done.
  - vm_compute. lia.
  - simpl. by intros i s' (_ & _ & _ & _ & -> & _).
Defined.

Lemma bget_recycles_least_recently_used_witness :
  runs (binit;; bget 1 7) (λ i _, i = 0%nat) (boot sample_disk 3).
Proof.
  kstep. apply (binit_ok (H := memide_driver 1000)). intros s Ha Hl Hb.
  eapply runs_mono.
  - apply (bget_recycles_least_recently_used (H := memide_driver 1000) s 1 7 (rev (seq 1 29)) 0 []).
    + apply (ba_inv _ _ Ha).
    + exact Hl.
    + intros j Hj. by rewrite Hb.
    + rewrite Hb by (unfold NBUF; lia). done.
    + rewrite Hb by (unfold NBUF; lia). done.
    + set_solver.
  - simpl. by intros i s' [-> _].
Defined.

Lemma cache_write_read_roundtrip_witness :
  runs (binit;; i ← bread (H := memide_driver 1000) 1 7; bstore i [9];;
        bwrite (H := memide_driver 1000) i;; brelse i;;
        j ← bread (H := memide_driver 1000) 1 7; bdata j)
    (λ d s', d = [9]) (boot sample_disk 3).
Proof.
  kstep. apply (binit_ok (H := memide_driver 1000)). intros s Ha _ _.
  eapply runs_mono; [apply (cache_write_read_roundtrip (H := memide_driver 1000) s _ 1 7 [9] Ha)|].
  - done.
  - done.
  - done.
  - vm_compute. lia.
  - simpl. by intros d s' [-> _].
Defined.
