(* ===== verification/Log.v ===== *)
(** * Write-ahead log: [xv6/log.c]

    The log makes the disk writes of a file-system call atomic: [log_write] pins
    the modified block in the cache, [end_op] of the last outstanding call copies
    the pinned blocks to the log area, writes the header (the commit point),
    installs the blocks at home and clears the header; [initlog] replays whatever
    a crash left.

    The code is generic over the buffer cache, [BufCache].  The theorems are about
    the sequence of disk writes: the disk after any prefix of it is what a crash at
    that point leaves, and [logical] is what the log promises of such a disk. *)

From S2P Require Import Prelude Bytes Ide Bio.

Definition MAXOPBLOCKS : Z := 10.
Definition LOGSIZE : Z := MAXOPBLOCKS * 3.

(** ** State *)

(** [struct superblock]. *)
Record superblock := Superblock {
  sb_size : Z;
  sb_nblocks : Z;
  sb_ninodes : Z;
  sb_nlog : Z;
  sb_logstart : Z;
  sb_inodestart : Z;
  sb_bmapstart : Z
}.

(** [struct log]; [lh.block] holds 32-bit patterns.  The lock has no state here. *)
Record lst (S : Type) := Lst {
  l_start : Z;
  l_size : Z;
  l_outstanding : Z;
  l_committing : bool;
  l_dev : Z;
  l_n : Z;                  (* lh.n *)
  l_block : list Z;         (* lh.block *)
  l_cache : S
}.
Arguments Lst {S}.
Arguments l_start {S}. Arguments l_size {S}. Arguments l_outstanding {S}.
Arguments l_committing {S}. Arguments l_dev {S}. Arguments l_n {S}.
Arguments l_block {S}. Arguments l_cache {S}.

Section log.
Context {C : Type} `{BufCache C}.

Definition set_cache (c : C) (s : lst C) : lst C :=
  Lst (l_start s) (l_size s) (l_outstanding s) (l_committing s) (l_dev s) (l_n s) (l_block s) c.
Definition set_lh (n : Z) (bs : list Z) (s : lst C) : lst C :=
  Lst (l_start s) (l_size s) (l_outstanding s) (l_committing s) (l_dev s) n bs (l_cache s).
Definition set_ops (o : Z) (c : bool) (s : lst C) : lst C :=
  Lst (l_start s) (l_size s) o c (l_dev s) (l_n s) (l_block s) (l_cache s).
Definition set_geom (start sz dev : Z) (s : lst C) : lst C :=
  Lst start sz (l_outstanding s) (l_committing s) dev (l_n s) (l_block s) (l_cache s).

(** An operation of the cache, seen from the log. *)
Definition lift {A} (m : K C A) : K (lst C) A := λ s,
  match m (l_cache s) with
  | Ok (a, c) => Ok (a, set_cache c s)
  | Panic msg => Panic msg
  | Hang => Hang
  end.

(** An access outside [lh.block] has no defined behaviour. *)
Definition in_block (n : Z) : K (lst C) unit :=
  kassert (n <=? LOGSIZE) "undefined: access outside lh.block".

(** ** Operations *)

Definition sb_of_bytes (d : list Z) : superblock :=
  Superblock (get32 d 0) (get32 d 4) (get32 d 8) (get32 d 12) (get32 d 16) (get32 d 20) (get32 d 24).

Definition readsb (dev : Z) : K C superblock :=
  bp ← bc_bread dev 1;
  d ← bc_data bp;
  bc_brelse bp;;
  mret (sb_of_bytes d).

(** [for(tail = 0; tail < log.lh.n; tail++)] of [install_trans], [k] rounds left. *)
Fixpoint install_loop (tail : Z) (k : nat) : K (lst C) unit :=
  match k with
  | O => mret tt
  | S k' =>
      s ← kget;
      lbuf ← lift (bc_bread (l_dev s) (u32 (l_start s + tail + 1)));
      dbuf ← lift (bc_bread (l_dev s) (l_block s !!! Z.to_nat tail));
      d ← lift (bc_data lbuf);
      lift (bc_store dbuf d);;
      lift (bc_bwrite dbuf);;
      lift (bc_brelse lbuf);;
      lift (bc_brelse dbuf);;
      install_loop (tail + 1) k'
  end.

Definition install_trans : K (lst C) unit :=
  s ← kget;
  in_block (l_n s);;
  install_loop 0 (Z.to_nat (l_n s)).

(** [for(i = 0; i < n; i++) log.lh.block[i] = lh->block[i];] *)
Fixpoint get_blocks (d : list Z) (i : Z) (k : nat) (bs : list Z) : list Z :=
  match k with
  | O => bs
  | S k' => get_blocks d (i + 1) k' (<[Z.to_nat i := get32 d (4 + 4 * i)]> bs)
  end.

Definition read_head : K (lst C) unit :=
  s ← kget;
  buf ← lift (bc_bread (l_dev s) (u32 (l_start s)));
  d ← lift (bc_data buf);
  let n := s32 (get32 d 0) in
  in_block n;;
  kmod (λ s, set_lh n (get_blocks d 0 (Z.to_nat n) (l_block s)) s);;
  lift (bc_brelse buf).

(** [for(i = 0; i < log.lh.n; i++) hb->block[i] = log.lh.block[i];] *)
Fixpoint put_blocks (bs : list Z) (i : Z) (k : nat) (d : list Z) : list Z :=
  match k with
  | O => d
  | S k' => put_blocks bs (i + 1) k' (put32 d (4 + 4 * i) (bs !!! Z.to_nat i))
  end.

Definition write_head : K (lst C) unit :=
  s ← kget;
  buf ← lift (bc_bread (l_dev s) (u32 (l_start s)));
  d ← lift (bc_data buf);
  in_block (l_n s);;
  lift (bc_store buf (put_blocks (l_block s) 0 (Z.to_nat (l_n s)) (put32 d 0 (l_n s))));;
  lift (bc_bwrite buf);;
  lift (bc_brelse buf).

Definition recover_from_log : K (lst C) unit :=
  read_head;;
  install_trans;;
  kmod (λ s, set_lh 0 (l_block s) s);;
  write_head.

(** [sizeof(struct logheader)]. *)
Definition logheader_size : Z := 4 + 4 * LOGSIZE.

Definition initlog (dev : Z) : K (lst C) unit :=
  kassert (negb (BSIZE <=? logheader_size)) "initlog: too big logheader";;
  sb ← lift (readsb dev);
  kmod (set_geom (s32 (sb_logstart sb)) (s32 (sb_nlog sb)) dev);;
  recover_from_log.

(** The test of [begin_op]'s loop: the caller sleeps while it holds. *)
Definition begin_op_waits (s : lst C) : bool :=
  l_committing s || (LOGSIZE <? l_n s + (l_outstanding s + 1) * MAXOPBLOCKS).

Definition begin_op : K (lst C) unit :=
  s ← kget;
  if begin_op_waits s then khang else kput (set_ops (l_outstanding s + 1) (l_committing s) s).

Fixpoint write_log_loop (tail : Z) (k : nat) : K (lst C) unit :=
  match k with
  | O => mret tt
  | S k' =>
      s ← kget;
      to ← lift (bc_bread (l_dev s) (u32 (l_start s + tail + 1)));
      from ← lift (bc_bread (l_dev s) (l_block s !!! Z.to_nat tail));
      d ← lift (bc_data from);
      lift (bc_store to d);;
      lift (bc_bwrite to);;
      lift (bc_brelse from);;
      lift (bc_brelse to);;
      write_log_loop (tail + 1) k'
  end.

Definition write_log : K (lst C) unit :=
  s ← kget;
  in_block (l_n s);;
  write_log_loop 0 (Z.to_nat (l_n s)).

Definition commit : K (lst C) unit :=
  s ← kget;
  if 0 <? l_n s then
    write_log;;
    write_head;;
    install_trans;;
    kmod (λ s, set_lh 0 (l_block s) s);;
    write_head
  else mret tt.

(** [end_op] up to the release of the lock; returns [do_commit]. *)
Definition end_op_begin : K (lst C) bool :=
  kmod (λ s, set_ops (l_outstanding s - 1) (l_committing s) s);;
  s ← kget;
  kassert (negb (l_committing s)) "log.committing";;
  if l_outstanding s =? 0
  then kmod (set_ops (l_outstanding s) true);; mret true
  else mret false.

Definition end_op : K (lst C) unit :=
  do_commit ← end_op_begin;
  if (do_commit : bool) then
    commit;;
    kmod (λ s, set_ops (l_outstanding s) false s)
  else mret tt.

(** [for(i = 0; i < n; i++) if(log.lh.block[i] == b->blockno) break;] *)
Fixpoint find_block (bs : list Z) (b : Z) (i : Z) (k : nat) : Z :=
  match k with
  | O => i
  | S k' => if bs !!! Z.to_nat i =? b then i else find_block bs b (i + 1) k'
  end.

Definition log_write (b : nat) : K (lst C) unit :=
  s ← kget;
  kassert (negb ((LOGSIZE <=? l_n s) || (l_size s - 1 <=? l_n s))) "too big a transaction";;
  kassert (negb (l_outstanding s <? 1)) "log_write outside of trans";;
  blockno ← lift (bc_blockno b);
  let i := find_block (l_block s) blockno 0 (Z.to_nat (l_n s)) in
  kmod (λ s, set_lh (l_n s) (<[Z.to_nat i := blockno]> (l_block s)) s);;
  (if i =? l_n s then kmod (λ s, set_lh (l_n s + 1) (l_block s) s) else mret tt);;
  lift (bc_pin b).

(** Operations in progress, each with the blocks it has logged, interleaved: an
    operation begins, logs a block or ends, the last one that ends commits, and
    the cache changes under them in any way. *)
Inductive lstep : lst C * list (gset Z) → lst C * list (gset Z) → Prop :=
  | step_begin s s' ops :
      begin_op s = Ok (tt, s') → lstep (s, ops) (s', ∅ :: ops)
  | step_write s s' l1 X l2 i b c :
      bc_blockno i (l_cache s) = Ok (b, c) → Z.of_nat (size X) < MAXOPBLOCKS →
      log_write i s = Ok (tt, s') → lstep (s, l1 ++ X :: l2) (s', l1 ++ ({[b]} ∪ X) :: l2)
  | step_end s s' l1 X l2 do_commit :
      end_op_begin s = Ok (do_commit, s') → lstep (s, l1 ++ X :: l2) (s', l1 ++ l2)
  | step_commit s s' :
      l_committing s = true → commit s = Ok (tt, s') →
      lstep (s, []) (set_ops (l_outstanding s') false s', [])
  | step_cache s ops c : lstep (s, ops) (set_cache c s, ops).

End log.

(** ** What a disk with a log means *)

(** Writes in the order the disk receives them, and their effect on contents. *)
Definition writes (d : disk) (ws : list ((Z * Z) * list Z)) : disk :=
  foldl (λ d w, dwrite d w.1 w.2) d ws.

Definition overlay (f : Z * Z → list Z) (ws : list ((Z * Z) * list Z)) : Z * Z → list Z :=
  foldl (λ f w, fupd f w.1 w.2) f ws.

Section meaning.
Context (dev start : Z).

(** The header block of the contents [f]. *)
Definition hd_n (f : Z * Z → list Z) : Z := s32 (get32 (f (dev, start)) 0).
Definition hd_blocks (f : Z * Z → list Z) : list Z :=
  (λ i, get32 (f (dev, start)) (4 + 4 * Z.of_nat i)) <$> seq 0 (Z.to_nat (hd_n f)).

(** The contents that recovery gives to block [b]: the copy in the log when the
    header lists the block, the block itself otherwise. *)
Definition logical (f : Z * Z → list Z) (b : Z) : list Z :=
  match list_find (λ b', b' = b) (hd_blocks f) with
  | Some (i, _) => f (dev, start + 1 + Z.of_nat i)
  | None => f (dev, b)
  end.

End meaning.

(** ** The effect of copying blocks through the cache *)

(** Block [y] becomes a copy of block [x] and is written. *)
Definition copied (a : cabs) (x y : Z * Z) : cabs :=
  Cabs (fupd (a_view a) y (a_view a x)) (dwrite (a_disk a) y (a_view a x)) (a_held a)
       (a_dirty a ∖ {[y]}).

Definition copies (a : cabs) (l : list ((Z * Z) * (Z * Z))) : cabs :=
  foldl (λ a p, copied a p.1 p.2) a l.

Definition clean (a : cabs) : Prop := ∀ k, k ∈ a_dirty a ∨ a_view a k = dread (a_disk a) k.

(** ** Lemmas: writes *)

Lemma dread_writes ws : ∀ d k, dread (writes d ws) k = overlay (dread d) ws k.
Proof.
  induction ws as [|w ws IH] using rev_ind; intros d k; [done|].
  unfold writes, overlay. rewrite !foldl_app. simpl.
  destruct (decide (k = w.1)) as [-> |Hk].
  - by rewrite dread_dwrite_eq, fupd_eq.
  - rewrite dread_dwrite_ne, fupd_ne by done. apply IH.
Qed.

Lemma overlay_app f ws ws' : overlay f (ws ++ ws') = overlay (overlay f ws) ws'.
Proof. apply foldl_app. Qed.

Lemma writes_app d ws ws' : writes d (ws ++ ws') = writes (writes d ws) ws'.
Proof. apply foldl_app. Qed.

Lemma overlay_out ws : ∀ f k, k ∉ ws.*1 → overlay f ws k = f k.
Proof.
  induction ws as [|w ws IH]; intros f k Hk; [done|]. csimpl in *.
  apply not_elem_of_cons in Hk as [? ?]. unfold overlay in *. simpl.
  rewrite IH by done. by apply fupd_ne.
Qed.

Lemma overlay_in ws : ∀ f k v, NoDup ws.*1 → (k, v) ∈ ws → overlay f ws k = v.
Proof.
  induction ws as [|w ws IH]; intros f k v Hnd Hin; [by apply not_elem_of_nil in Hin|].
  csimpl in *. apply NoDup_cons in Hnd as [Hw Hnd]. apply elem_of_cons in Hin as [<-|Hin].
  - simpl in Hw. change (overlay (fupd f k v) ws k = v).
    rewrite overlay_out by done. apply fupd_eq.
  - by apply IH.
Qed.

Lemma elem_of_take_1 {A} (l : list A) k x : x ∈ take k l → x ∈ l.
Proof. rewrite <- (take_drop k l) at 2. set_solver. Qed.

(** ** Lemmas: copies *)

Lemma copies_disjoint l : ∀ a,
  (∀ p q, p ∈ l → q ∈ l → p.1 ≠ q.2) →
  let ws := (λ p, (p.2, a_view a p.1)) <$> l in
  a_view (copies a l) = overlay (a_view a) ws ∧
  a_disk (copies a l) = writes (a_disk a) ws ∧
  a_held (copies a l) = a_held a ∧
  a_dirty (copies a l) = a_dirty a ∖ list_to_set l.*2.
Proof.
  induction l as [|p l IH]; intros a Hd ws.
  - unfold ws, copies. csimpl. repeat split. set_solver.
  - destruct (IH (copied a p.1 p.2)) as (Hv & Hk & Hh & Hy).
    { intros q q' Hq Hq'. apply Hd; by right. }
    assert (Hws : (λ q, (q.2, a_view (copied a p.1 p.2) q.1)) <$> l =
                  (λ q, (q.2, a_view a q.1)) <$> l).
    { apply list_fmap_ext. intros i q Hq. apply list_elem_of_lookup_2 in Hq. f_equal. simpl.
      apply fupd_ne. apply Hd; [by right|by left]. }
    rewrite Hws in Hv, Hk. change (copies a (p :: l)) with (copies (copied a p.1 p.2) l).
    rewrite Hv, Hk, Hh, Hy. unfold ws. csimpl. repeat split. simpl. set_solver.
Qed.

(** ** Lemmas: the header block *)

Lemma length_put_blocks bs k : ∀ i d, length (put_blocks bs i k d) = length d.
Proof. induction k as [|k IH]; intros; simpl; [done|]. by rewrite IH, length_put32. Qed.

Lemma bytes_ok_put_blocks bs k : ∀ i d n, bytes_ok n d → bytes_ok n (put_blocks bs i k d).
Proof. induction k as [|k IH]; intros; simpl; [done|]. by apply IH, bytes_ok_put32. Qed.

(** [block[j]] of the header after the loop, and every word before it. *)
Lemma get32_put_blocks bs k : ∀ i d j,
  0 ≤ i → 4 + 4 * (i + Z.of_nat k) ≤ Z.of_nat (length d) → -1 ≤ j →
  get32 (put_blocks bs i k d) (4 + 4 * j) =
    if (i <=? j) && (j <? i + Z.of_nat k) then u32 (bs !!! Z.to_nat j) else get32 d (4 + 4 * j).
Proof.
  induction k as [|k IH]; intros i d j Hi Hd Hj; cbn [put_blocks].
  - bdestruct_all; simpl; try done; lia.
  - rewrite IH by (rewrite ?length_put32; lia).
    destruct (decide (j = i)) as [-> |].
    + bdestruct_all; simpl; try lia. rewrite get32_put32_eq by lia. done.
    + rewrite get32_put32_ne by lia.
      bdestruct_all; simpl; try done; lia.
Qed.

Lemma get_blocks_lookup d k : ∀ i bs j,
  0 ≤ i → i + Z.of_nat k ≤ Z.of_nat (length bs) →
  get_blocks d i k bs !! j =
    if decide (Z.to_nat i ≤ j < Z.to_nat i + k)%nat then Some (get32 d (4 + 4 * Z.of_nat j))
    else bs !! j.
Proof.
  induction k as [|k IH]; intros i bs j Hi Hl; cbn [get_blocks].
  - rewrite decide_False by lia. done.
  - rewrite IH by (rewrite ?length_insert; lia).
    destruct (decide (j = Z.to_nat i)) as [-> |].
    + rewrite decide_False by lia. rewrite decide_True by lia.
      rewrite list_lookup_insert_eq by lia. do 3 f_equal. lia.
    + rewrite list_lookup_insert_ne by done. repeat case_decide; try done; lia.
Qed.

Lemma length_get_blocks d k : ∀ i bs, length (get_blocks d i k bs) = length bs.
Proof. induction k as [|k IH]; intros; simpl; [done|]. by rewrite IH, length_insert. Qed.

Lemma s32_u32 v : - 2 ^ 31 ≤ v < 2 ^ 31 → s32 (u32 v) = v.
Proof.
  intros. unfold s32, u32. rewrite Zplus_mod_idemp_l. rewrite Z.mod_small; lia.
Qed.

(** ** Lemmas: recovery at the level of disk contents *)

Section contents.
Context (dev start size dsize : Z).
Context (Hdsize : dsize ≤ 2 ^ 31).
Implicit Types f : Z * Z → list Z.

(** A block of the disk that belongs to the file system and not to the log. *)
Definition home (b : Z) : Prop := 0 ≤ b < dsize ∧ (b < start ∨ start + size ≤ b).

Record log_wf f : Prop := {
  wf_hdr : bytes_ok BSIZE (f (dev, start));
  wf_n : hd_n dev start f ≤ LOGSIZE ∧ hd_n dev start f < size;
  wf_nodup : NoDup (hd_blocks dev start f);
  wf_home : Forall home (hd_blocks dev start f)
}.

(** Writes of the log blocks [i ...] to the blocks listed in the header. *)
Definition install_writes f (bs : list Z) : list ((Z * Z) * list Z) :=
  imap (λ i b, ((dev, b), f (dev, start + 1 + Z.of_nat i))) bs.

Lemma install_writes_keys f bs : (install_writes f bs).*1 = pair dev <$> bs.
Proof.
  unfold install_writes. rewrite fmap_imap. rewrite <- (imap_const (pair dev)). done.
Qed.

Lemma hd_same f f' : f' (dev, start) = f (dev, start) →
  hd_n dev start f' = hd_n dev start f ∧ hd_blocks dev start f' = hd_blocks dev start f.
Proof. intros E. unfold hd_blocks, hd_n. by rewrite E. Qed.

Lemma logical_empty f b : hd_n dev start f = 0 → logical dev start f b = f (dev, b).
Proof. intros E. unfold logical, hd_blocks. by rewrite E. Qed.

Lemma wf_same f f' : f' (dev, start) = f (dev, start) → log_wf f → log_wf f'.
Proof.
  intros E [H1 H2 H3 H4]. destruct (hd_same _ _ E) as [E1 E2].
  split; by rewrite ?E, ?E1, ?E2.
Qed.

Lemma logical_ext f f' b : (∀ k, f' k = f k) → logical dev start f' b = logical dev start f b.
Proof.
  intros E. unfold logical. destruct (hd_same f f' (E _)) as [_ ->].
  destruct (list_find _ _) as [[i ?]|]; apply E.
Qed.

(** Installing any part of the logged blocks does not change what the disk means. *)
Lemma install_prefix f k :
  0 < size → log_wf f →
  let f' := overlay f (take k (install_writes f (hd_blocks dev start f))) in
  log_wf f' ∧ ∀ b, home b → logical dev start f' b = logical dev start f b.
Proof.
  intros Hsz Hwf f'.
  assert (Hout : ∀ c, start ≤ c < start + size → f' (dev, c) = f (dev, c)).
  { intros c Hc. apply overlay_out. intros Hin. rewrite fmap_take, install_writes_keys in Hin.
    apply elem_of_take_1 in Hin. apply list_elem_of_fmap in Hin as (c' & [= <-] & Hc').
    pose proof (wf_home _ Hwf) as Hh. rewrite Forall_forall in Hh.
    destruct (Hh _ Hc'). lia. }
  assert (E : f' (dev, start) = f (dev, start)) by (apply Hout; lia).
  split; [by apply (wf_same f)|]. intros b Hb. unfold logical. destruct (hd_same _ _ E) as [_ ->].
  destruct (list_find _ _) as [[i b']|] eqn:Ef.
  - apply list_find_Some in Ef as (Hi & _). apply Hout. pose proof (wf_n _ Hwf).
    unfold hd_blocks in Hi. rewrite list_lookup_fmap in Hi.
    apply fmap_Some in Hi as (j & Hj%lookup_seq & _). lia.
  - apply overlay_out. intros Hin. rewrite fmap_take, install_writes_keys in Hin.
    apply elem_of_take_1 in Hin. apply list_elem_of_fmap in Hin as (c' & [= <-] & Hc').
    rewrite list_find_None, Forall_forall in Ef. by apply (Ef _ Hc').
Qed.

(** Once all are installed, an empty header means the same as the full one. *)
Lemma install_clear f h :
  0 < size → log_wf f → bytes_ok BSIZE h → get32 h 0 = 0 →
  let f' := fupd (overlay f (install_writes f (hd_blocks dev start f))) (dev, start) h in
  log_wf f' ∧ hd_n dev start f' = 0 ∧
  ∀ b, home b → logical dev start f' b = logical dev start f b.
Proof.
  intros Hsz Hwf Hh Hz f'.
  assert (Hn : hd_n dev start f' = 0) by (unfold hd_n, f'; by rewrite fupd_eq, Hz).
  split; [|split; [done|]].
  - split; rewrite ?Hn; unfold hd_blocks; rewrite ?Hn; unfold LOGSIZE, MAXOPBLOCKS; try lia.
    + unfold f'. by rewrite fupd_eq.
    + apply NoDup_nil_2.
    + by apply Forall_nil_2.
  - intros b [Hb Hb']. rewrite logical_empty by done. unfold f', logical.
    rewrite fupd_ne by (intros [= ->]; lia).
    destruct (list_find _ _) as [[i b']|] eqn:Ef.
    + apply list_find_Some in Ef as (Hi & -> & _). apply overlay_in.
      * rewrite install_writes_keys. apply NoDup_fmap_2; [|apply (wf_nodup _ Hwf)].
        by intros ?? [= ->].
      * unfold install_writes. apply list_elem_of_lookup. exists i.
        rewrite list_lookup_imap, Hi. done.
    + apply overlay_out. rewrite install_writes_keys.
      intros (c' & [= <-] & Hc')%list_elem_of_fmap.
      rewrite list_find_None, Forall_forall in Ef. by apply (Ef _ Hc').
Qed.

(** Every prefix of the writes of [install_trans] followed by the empty header. *)
Lemma install_all_prefix f h k :
  0 < size → log_wf f → bytes_ok BSIZE h → get32 h 0 = 0 →
  let f' := overlay f (take k (install_writes f (hd_blocks dev start f) ++ [((dev, start), h)])) in
  log_wf f' ∧ ∀ b, home b → logical dev start f' b = logical dev start f b.
Proof.
  intros Hsz Hwf Hh Hz f'. set (ws := install_writes f (hd_blocks dev start f)) in *.
  destruct (decide (k ≤ length ws)%nat) as [Hk|Hk]; unfold f'.
  - rewrite take_app_le by done. by apply install_prefix.
  - rewrite take_ge by (rewrite length_app; simpl; lia). rewrite overlay_app.
    by destruct (install_clear f h) as (? & _ & ?).
Qed.

(** The header written by [write_head] lists the blocks of the transaction. *)
Lemma header_written f d bs n :
  bytes_ok BSIZE d → 0 ≤ n ≤ LOGSIZE → length bs = Z.to_nat LOGSIZE →
  Forall home (take (Z.to_nat n) bs) →
  let h := put_blocks bs 0 (Z.to_nat n) (put32 d 0 n) in
  let f' := fupd f (dev, start) h in
  bytes_ok BSIZE h ∧ get32 h 0 = n ∧
  hd_n dev start f' = n ∧ hd_blocks dev start f' = take (Z.to_nat n) bs.
Proof.
  intros Hd Hn Hbs Hhome h f'. assert (HL : LOGSIZE = 30) by done.
  assert (Hlen : Z.of_nat (length (put32 d 0 n)) = 512)
    by (rewrite length_put32; by destruct Hd).
  assert (Hh : bytes_ok BSIZE h) by (by apply bytes_ok_put_blocks, bytes_ok_put32).
  assert (Hz : get32 h 0 = n).
  { unfold h. pose proof (get32_put_blocks bs (Z.to_nat n) 0 (put32 d 0 n) (-1)) as E.
    change (4 + 4 * -1) with 0 in E. rewrite E by lia. simpl. rewrite get32_put32_eq; [by apply u32_small; lia|lia|].
    rewrite length_put32 in Hlen. lia. }
  assert (Hhn : hd_n dev start f' = n)
    by (unfold hd_n, f'; rewrite fupd_eq, Hz; apply s32_small; lia).
  split; [done|]. split; [done|]. split; [done|].
  apply list_eq. intros i. unfold hd_blocks. rewrite Hhn, list_lookup_fmap.
  destruct (decide (i < Z.to_nat n)%nat) as [Hi|Hi].
  - rewrite lookup_seq_lt by done. rewrite lookup_take_lt by done. simpl.
    destruct (lookup_lt_is_Some_2 bs i) as [c Hc]; [lia|]. rewrite Hc. f_equal.
    unfold f'. rewrite fupd_eq. unfold h. rewrite get32_put_blocks by lia.
    bdestruct_all; simpl; try lia. rewrite Nat2Z.id. rewrite (list_lookup_total_correct _ _ _ Hc).
    apply u32_small. rewrite Forall_forall in Hhome.
    destruct (Hhome c) as [? _]; [|lia].
    apply list_elem_of_lookup. exists i. by rewrite lookup_take_lt.
  - rewrite lookup_seq_ge, lookup_take_ge by lia. done.
Qed.

(** Writes to the body of the log say nothing while the header is empty. *)
Lemma log_body_prefix f ws k :
  0 < size → log_wf f → hd_n dev start f = 0 →
  (∀ w, w ∈ ws → ∃ c, w.1 = (dev, c) ∧ start < c < start + size) →
  let f' := overlay f (take k ws) in
  log_wf f' ∧ ∀ b, home b → logical dev start f' b = f (dev, b).
Proof.
  intros Hsz Hwf Hn Hws f'.
  assert (Hout : ∀ c, c = start ∨ home c → f' (dev, c) = f (dev, c)).
  { intros c Hc. apply overlay_out. rewrite fmap_take. intros Hin%elem_of_take_1.
    apply list_elem_of_fmap in Hin as (w & Hw & Hin). destruct (Hws w Hin) as (c' & Hc' & ?).
    rewrite Hc' in Hw. injection Hw as ->. unfold home in Hc. lia. }
  assert (E : f' (dev, start) = f (dev, start)) by (apply Hout; by left).
  split; [by apply (wf_same f)|]. destruct (hd_same _ _ E) as [En _].
  intros b Hb. rewrite logical_empty by congruence. apply Hout. by right.
Qed.

End contents.

(** ** The code against the cache interface *)

Section log_proofs.
Context {C : Type} `{BufCache C}.
Implicit Types (s : lst C) (a : cabs).

Lemma runs_lift {A} (m : K C A) (Q : A → lst C → Prop) s :
  runs m (λ x c, Q x (set_cache c s)) (l_cache s) → runs (lift m) Q s.
Proof. intros (x & c & E & HQ). exists x, (set_cache c s). unfold lift. by rewrite E. Qed.

(** Changes of the state that leave the log's own fields alone. *)
Definition same_log s s' : Prop := s' = set_cache (l_cache s') s.

Lemma same_log_set c s : same_log s (set_cache c s).
Proof. done. Qed.

Lemma same_log_refl s : same_log s s.
Proof. by destruct s. Qed.

Lemma same_log_trans s1 s2 s3 : same_log s1 s2 → same_log s2 s3 → same_log s1 s3.
Proof. unfold same_log. intros -> ->. done. Qed.

Lemma size_busy_le a k X :
  (size (a_dirty a ∪ X) ≤ bc_size)%nat → dom (a_held a) ∪ {[k]} ⊆ X →
  (size (a_busy a ∪ {[k]}) ≤ bc_size)%nat.
Proof.
  intros Hs HX. etrans; [|exact Hs]. apply subseteq_size. unfold a_busy. set_solver.
Qed.

(** The copy itself, with both buffers held. *)
Lemma copy_held s a m x y xb yb (k : K (lst C) unit) Q :
  bc_abs (l_cache s) (upd_held a (λ _, m)) → a_held a = ∅ → clean a → x ≠ y →
  m !! x = Some xb → m !! y = Some yb → dom m = {[x; y]} →
  (∀ s', same_log s s' → bc_abs (l_cache s') (copied a x y) → runs k Q s') →
  runs (d ← lift (bc_data xb); lift (bc_store yb d);; lift (bc_bwrite yb);;
        lift (bc_brelse xb);; lift (bc_brelse yb);; k) Q s.
Proof.
  intros A2 Hh Hc Hxy Hx Hy Hm HQ. kstep. apply runs_lift.
  eapply runs_mono; [by eapply (bc_data_spec _ _ x)|].
  intros d c2' [-> ->]. kstep. apply runs_lift.
  eapply runs_mono; [by eapply (bc_store_spec _ _ y)|]. intros [] c3 A3. kstep. apply runs_lift.
  eapply runs_mono; [by eapply (bc_bwrite_spec _ _ y)|]. intros [] c4 A4. kstep. apply runs_lift.
  eapply runs_mono.
  { eapply (bc_brelse_spec _ _ x); [exact A4|done|]. simpl.
    rewrite fupd_ne, dread_dwrite_ne by done. destruct (Hc x); [left; set_solver|by right]. }
  intros [] c5 A5. kstep. apply runs_lift. eapply runs_mono.
  { eapply (bc_brelse_spec _ _ y); [exact A5| |].
    - simpl. by rewrite lookup_delete_ne.
    - right. simpl. by rewrite fupd_eq, dread_dwrite_eq. }
  intros [] c6 A6. apply HQ; [done|]. unfold copied.
  unfold upd_held, upd_adisk, upd_dirty, upd_view in A6. simpl in A6 |- *.
  rewrite fupd_eq in A6. rewrite Hh. replace (delete y (delete x m)) with (∅ : gmap (Z * Z) nat) in A6;
    [done|].
  symmetry. apply dom_empty_iff_L. rewrite !dom_delete_L, Hm. set_solver.
Qed.

(** One round of [install_trans]. *)
Lemma copy_from_log s a x y (k : K (lst C) unit) Q :
  bc_abs (l_cache s) a → a_held a = ∅ → clean a → x ≠ y →
  bc_serves x.1 x.2 → bc_serves y.1 y.2 →
  (size (a_dirty a ∪ {[x; y]}) ≤ bc_size)%nat →
  (∀ s', same_log s s' → bc_abs (l_cache s') (copied a x y) → runs k Q s') →
  runs (xb ← lift (bc_bread x.1 x.2); yb ← lift (bc_bread y.1 y.2);
        d ← lift (bc_data xb); lift (bc_store yb d);; lift (bc_bwrite yb);;
        lift (bc_brelse xb);; lift (bc_brelse yb);; k) Q s.
Proof.
  intros Ha Hh Hc Hxy Hx Hy Hroom HQ. destruct x as [x1 x2], y as [y1 y2]. simpl in *.
  kstep. apply runs_lift. eapply runs_mono.
  { eapply bc_bread_spec; [done|done|by rewrite Hh, lookup_empty|].
    eapply size_busy_le; [exact Hroom|]. rewrite Hh. set_solver. }
  intros xb c1 A1. kstep. apply runs_lift. eapply runs_mono.
  { eapply bc_bread_spec; [exact A1|done| |].
    - simpl. rewrite lookup_insert_ne by done. by rewrite Hh, lookup_empty.
    - eapply size_busy_le; [exact Hroom|]. simpl. rewrite Hh. set_solver. }
  intros yb c2 A2. eapply (copy_held _ a); [exact A2|done..| | | |].
  - rewrite lookup_insert_ne by done. apply lookup_insert_eq.
  - apply lookup_insert_eq.
  - simpl. rewrite Hh, !dom_insert_L. set_solver.
  - intros s' Hs'. apply HQ. by eapply same_log_trans; [|exact Hs'].
Qed.

(** One round of [write_log]. *)
Lemma copy_to_log s a x y (k : K (lst C) unit) Q :
  bc_abs (l_cache s) a → a_held a = ∅ → clean a → x ≠ y →
  bc_serves x.1 x.2 → bc_serves y.1 y.2 →
  (size (a_dirty a ∪ {[x; y]}) ≤ bc_size)%nat →
  (∀ s', same_log s s' → bc_abs (l_cache s') (copied a x y) → runs k Q s') →
  runs (yb ← lift (bc_bread y.1 y.2); xb ← lift (bc_bread x.1 x.2);
        d ← lift (bc_data xb); lift (bc_store yb d);; lift (bc_bwrite yb);;
        lift (bc_brelse xb);; lift (bc_brelse yb);; k) Q s.
Proof.
  intros Ha Hh Hc Hxy Hx Hy Hroom HQ. destruct x as [x1 x2], y as [y1 y2]. simpl in *.
  kstep. apply runs_lift. eapply runs_mono.
  { eapply bc_bread_spec; [done|done|by rewrite Hh, lookup_empty|].
    eapply size_busy_le; [exact Hroom|]. rewrite Hh. set_solver. }
  intros xb c1 A1. kstep. apply runs_lift. eapply runs_mono.
  { eapply bc_bread_spec; [exact A1|done| |].
    - simpl. rewrite lookup_insert_ne by done. by rewrite Hh, lookup_empty.
    - eapply size_busy_le; [exact Hroom|]. simpl. rewrite Hh. set_solver. }
  intros yb c2 A2. eapply (copy_held _ a); [exact A2|done..| | | |].
  - apply lookup_insert_eq.
  - rewrite lookup_insert_ne by done. apply lookup_insert_eq.
  - simpl. rewrite Hh, !dom_insert_L. set_solver.
  - intros s' Hs'. apply HQ. by eapply same_log_trans; [|exact Hs'].
Qed.

Lemma clean_copied a x y : clean a → clean (copied a x y).
Proof.
  intros Hc k. simpl. destruct (decide (k = y)) as [-> |].
  - right. by rewrite fupd_eq, dread_dwrite_eq.
  - rewrite fupd_ne, dread_dwrite_ne by done. destruct (Hc k); [left; set_solver|by right].
Qed.

Lemma clean_copies l : ∀ a, clean a → clean (copies a l).
Proof. induction l; intros; simpl; [done|]. by apply IHl, clean_copied. Qed.

(** The pairs copied for the blocks [bs], from log block [tail + 1] on. *)
Definition log_pairs (dev start tail : Z) (bs : list Z) : list ((Z * Z) * (Z * Z)) :=
  imap (λ i b, ((dev, start + 1 + tail + Z.of_nat i), (dev, b))) bs.

Lemma log_pairs_cons dev start tail b bs :
  log_pairs dev start tail (b :: bs) =
  ((dev, start + tail + 1), (dev, b)) :: log_pairs dev start (tail + 1) bs.
Proof.
  unfold log_pairs. rewrite imap_cons. f_equal; [f_equal; f_equal; lia|].
  apply imap_ext. intros i x _. simpl. f_equal. f_equal. lia.
Qed.

(** Where the log is, and what the cache must be able to do for it. *)
Context (dev start nlog dsize : Z).
Context (Hdsize : dsize ≤ 2 ^ 31) (Hstart : 0 ≤ start) (Hnlog : start + nlog ≤ dsize).
Context (Hserves : ∀ c, 0 ≤ c < dsize → bc_serves dev c).

(** A set of dirty blocks that leaves room for the two buffers of a copy. *)
Definition room (D : gset (Z * Z)) (b : Z) : Prop :=
  ∀ c, (size (D ∪ {[(dev, c); (dev, b)]}) ≤ bc_size)%nat.

Definition block_ok (D : gset (Z * Z)) (b : Z) : Prop :=
  home start nlog dsize b ∧ room D b.

Lemma room_mono D D' b c :
  D' ⊆ D → room D b → (size (D' ∪ {[(dev, c); (dev, b)]}) ≤ bc_size)%nat.
Proof. intros HD Hr. etrans; [|apply (Hr c)]. apply subseteq_size. set_solver. Qed.

Lemma install_loop_ok D bs : ∀ s a tail (Q : unit → lst C → Prop),
  l_start s = start → l_dev s = dev → bc_abs (l_cache s) a → a_held a = ∅ → clean a →
  0 ≤ tail → a_dirty a ⊆ D → tail + Z.of_nat (length bs) < nlog →
  (∀ i b, bs !! i = Some b → l_block s !! (Z.to_nat tail + i)%nat = Some b) →
  Forall (block_ok D) bs →
  (∀ s', same_log s s' → bc_abs (l_cache s') (copies a (log_pairs dev start tail bs)) → Q tt s') →
  runs (install_loop tail (length bs)) Q s.
Proof.
  induction bs as [|b bs IH]; intros s a tail Q Hst Hdv Ha Hh Hc Ht HD Hn Hbs Hok HQ.
  - simpl. kstep. apply HQ; [apply same_log_refl|done].
  - cbn [length install_loop]. rewrite length_cons in Hn. kstep. kstep. rewrite Hst, Hdv.
    apply Forall_cons in Hok as [([Hb Hb'] & Hr) Hok].
    rewrite u32_small by lia.
    rewrite (list_lookup_total_correct _ (Z.to_nat tail) b)
      by (rewrite <- (Nat.add_0_r (Z.to_nat tail)); by apply Hbs).
    apply (copy_from_log _ a (dev, start + tail + 1) (dev, b)); try done.
    + intros [=]. lia.
    + simpl. apply Hserves. lia.
    + by apply Hserves.
    + by apply (room_mono D).
    + intros s' Hs' Ha'. rewrite Hs'. rewrite log_pairs_cons in HQ.
      apply (IH _ (copied a (dev, start + tail + 1) (dev, b))); try done.
      * by apply clean_copied.
      * lia.
      * simpl. set_solver.
      * lia.
      * intros i c Hc'. replace (Z.to_nat (tail + 1) + i)%nat with (Z.to_nat tail + S i)%nat by lia.
        by apply Hbs.
Qed.

Lemma write_log_loop_ok D bs : ∀ s a tail (Q : unit → lst C → Prop),
  l_start s = start → l_dev s = dev → bc_abs (l_cache s) a → a_held a = ∅ → clean a →
  0 ≤ tail → a_dirty a ⊆ D → tail + Z.of_nat (length bs) < nlog →
  (∀ i b, bs !! i = Some b → l_block s !! (Z.to_nat tail + i)%nat = Some b) →
  Forall (block_ok D) bs →
  (∀ s', same_log s s' →
     bc_abs (l_cache s') (copies a (prod_swap <$> log_pairs dev start tail bs)) → Q tt s') →
  runs (write_log_loop tail (length bs)) Q s.
Proof.
  induction bs as [|b bs IH]; intros s a tail Q Hst Hdv Ha Hh Hc Ht HD Hn Hbs Hok HQ.
  - simpl. kstep. apply HQ; [apply same_log_refl|done].
  - cbn [length write_log_loop]. rewrite length_cons in Hn. kstep. kstep. rewrite Hst, Hdv.
    apply Forall_cons in Hok as [([Hb Hb'] & Hr) Hok].
    rewrite u32_small by lia.
    rewrite (list_lookup_total_correct _ (Z.to_nat tail) b)
      by (rewrite <- (Nat.add_0_r (Z.to_nat tail)); by apply Hbs).
    apply (copy_to_log _ a (dev, b) (dev, start + tail + 1)); try done.
    + intros [=]. lia.
    + by apply Hserves.
    + simpl. apply Hserves. lia.
    + rewrite (union_comm_L {[(dev, b)]}). by apply (room_mono D).
    + intros s' Hs' Ha'. rewrite Hs'. rewrite log_pairs_cons in HQ.
      apply (IH _ (copied a (dev, b) (dev, start + tail + 1))); try done.
      * by apply clean_copied.
      * lia.
      * simpl. set_solver.
      * lia.
      * intros i c Hc'. replace (Z.to_nat (tail + 1) + i)%nat with (Z.to_nat tail + S i)%nat by lia.
        by apply Hbs.
Qed.

(** Block [k] overwritten and written through. *)
Definition stored (a : cabs) (k : Z * Z) (v : list Z) : cabs :=
  Cabs (fupd (a_view a) k v) (dwrite (a_disk a) k v) (a_held a) (a_dirty a ∖ {[k]}).

Lemma clean_stored a k v : clean a → clean (stored a k v).
Proof.
  intros Hc k'. simpl. destruct (decide (k' = k)) as [-> |].
  - right. by rewrite fupd_eq, dread_dwrite_eq.
  - rewrite fupd_ne, dread_dwrite_ne by done. destruct (Hc k'); [left; set_solver|by right].
Qed.

Lemma write_head_ok s a (Q : unit → lst C → Prop) :
  l_start s = start → l_dev s = dev → 0 < nlog → bc_abs (l_cache s) a → a_held a = ∅ →
  l_n s ≤ LOGSIZE → (size (a_dirty a ∪ {[(dev, start)]}) ≤ bc_size)%nat →
  (∀ s', same_log s s' →
     bc_abs (l_cache s') (stored a (dev, start)
       (put_blocks (l_block s) 0 (Z.to_nat (l_n s)) (put32 (a_view a (dev, start)) 0 (l_n s)))) →
     Q tt s') →
  runs write_head Q s.
Proof.
  intros Hst Hdv Hnl Ha Hh Hn Hroom HQ. unfold write_head. kstep. kstep. rewrite Hst, Hdv.
  rewrite u32_small by lia. kstep. apply runs_lift. eapply runs_mono.
  { eapply bc_bread_spec; [done|apply Hserves; lia|by rewrite Hh, lookup_empty|].
    eapply size_busy_le; [exact Hroom|]. rewrite Hh. set_solver. }
  intros b c1 A1. kstep. apply runs_lift. eapply runs_mono.
  { eapply (bc_data_spec _ _ (dev, start)); [exact A1|apply lookup_insert_eq]. }
  intros d c1' [-> ->]. kstep. unfold in_block. kstep; [by apply Z.leb_le|].
  kstep. apply runs_lift. eapply runs_mono.
  { eapply (bc_store_spec _ _ (dev, start)); [exact A1|apply lookup_insert_eq]. }
  intros [] c2 A2. kstep. apply runs_lift. eapply runs_mono.
  { eapply (bc_bwrite_spec _ _ (dev, start)); [exact A2|apply lookup_insert_eq]. }
  intros [] c3 A3. apply runs_lift. eapply runs_mono.
  { eapply (bc_brelse_spec _ _ (dev, start)); [exact A3|apply lookup_insert_eq|].
    right. simpl. by rewrite fupd_eq, dread_dwrite_eq. }
  intros [] c4 A4. apply HQ; [done|]. unfold stored.
  unfold upd_held, upd_adisk, upd_dirty, upd_view in A4. simpl in A4 |- *.
  rewrite fupd_eq in A4. rewrite delete_insert_id in A4 by (by rewrite Hh, lookup_empty). done.
Qed.

Lemma read_head_ok s a (Q : unit → lst C → Prop) :
  l_start s = start → l_dev s = dev → 0 < nlog → bc_abs (l_cache s) a → a_held a = ∅ → clean a →
  hd_n dev start (a_view a) ≤ LOGSIZE → (size (a_dirty a ∪ {[(dev, start)]}) ≤ bc_size)%nat →
  (∀ c, bc_abs c a →
     Q tt (set_cache c (set_lh (hd_n dev start (a_view a))
             (get_blocks (a_view a (dev, start)) 0 (Z.to_nat (hd_n dev start (a_view a))) (l_block s)) s))) →
  runs read_head Q s.
Proof.
  intros Hst Hdv Hnl Ha Hh Hc Hn Hroom HQ. unfold read_head. kstep. kstep. rewrite Hst, Hdv.
  rewrite u32_small by lia. kstep. apply runs_lift. eapply runs_mono.
  { eapply bc_bread_spec; [done|apply Hserves; lia|by rewrite Hh, lookup_empty|].
    eapply size_busy_le; [exact Hroom|]. rewrite Hh. set_solver. }
  intros b c1 A1. kstep. apply runs_lift. eapply runs_mono.
  { eapply (bc_data_spec _ _ (dev, start)); [exact A1|apply lookup_insert_eq]. }
  intros d c1' [-> ->]. kstep. unfold in_block. kstep; [by apply Z.leb_le|].
  kstep. kstep. apply runs_lift. eapply runs_mono.
  { eapply (bc_brelse_spec _ _ (dev, start)); [exact A1|apply lookup_insert_eq|apply Hc]. }
  intros [] c2 A2. apply HQ. unfold upd_held in A2. simpl in A2.
  rewrite delete_insert_id in A2 by (by rewrite Hh, lookup_empty). by destruct a.
Qed.

Lemma log_pairs_writes f bs :
  (λ p, (p.2, f p.1)) <$> log_pairs dev start 0 bs = install_writes dev start f bs.
Proof.
  unfold log_pairs, install_writes. rewrite fmap_imap. apply imap_ext. intros i b _. simpl.
  do 3 f_equal. lia.
Qed.

Lemma log_pairs_snd bs : (log_pairs dev start 0 bs).*2 = pair dev <$> bs.
Proof. unfold log_pairs. rewrite fmap_imap. rewrite <- (imap_const (pair dev)). done. Qed.

Lemma log_pairs_elem bs p : Z.of_nat (length bs) < nlog → p ∈ log_pairs dev start 0 bs →
  ∃ c b, p = ((dev, c), (dev, b)) ∧ start < c < start + nlog ∧ b ∈ bs.
Proof.
  intros Hl Hp. apply list_elem_of_lookup in Hp as [i Hi]. unfold log_pairs in Hi.
  rewrite list_lookup_imap in Hi. apply fmap_Some in Hi as (b & Hb & ->).
  eexists _, _. split; [done|]. split; [apply lookup_lt_Some in Hb; lia|].
  by apply list_elem_of_lookup_2 in Hb.
Qed.

Lemma log_pairs_disjoint bs p q :
  Z.of_nat (length bs) < nlog → Forall (home start nlog dsize) bs →
  p ∈ log_pairs dev start 0 bs → q ∈ log_pairs dev start 0 bs → p.1 ≠ q.2.
Proof.
  intros Hl Hh Hp Hq. destruct (log_pairs_elem _ _ Hl Hp) as (c & b & -> & ? & _).
  destruct (log_pairs_elem _ _ Hl Hq) as (c' & b' & -> & _ & Hb').
  rewrite Forall_forall in Hh. destruct (Hh _ Hb'). simpl. intros [=]. lia.
Qed.

(** The last part of both [recover_from_log] and [commit]. *)
Lemma install_and_clear_ok D s a (Q : unit → lst C → Prop) :
  let f := dread (a_disk a) in
  let bs := take (Z.to_nat (l_n s)) (l_block s) in
  l_start s = start → l_dev s = dev → 0 < nlog → length (l_block s) = Z.to_nat LOGSIZE →
  bc_abs (l_cache s) a → a_held a = ∅ → clean a →
  a_dirty a ⊆ D → (∀ c, start ≤ c < start + nlog → (dev, c) ∉ D) →
  log_wf dev start nlog dsize f → hd_n dev start f = l_n s → hd_blocks dev start f = bs →
  Forall (block_ok D) bs → (size (D ∪ {[(dev, start)]}) ≤ bc_size)%nat →
  (∀ c' a' h, bc_abs c' a' → a_held a' = ∅ → clean a' →
     a_dirty a' = a_dirty a ∖ list_to_set (pair dev <$> bs) →
     a_disk a' = writes (a_disk a) (install_writes dev start f bs ++ [((dev, start), h)]) →
     bytes_ok BSIZE h → get32 h 0 = 0 →
     Q tt (set_cache c' (set_lh 0 (l_block s) s))) →
  runs (install_trans;; kmod (λ s, set_lh 0 (l_block s) s);; write_head) Q s.
Proof.
  intros f bs Hst Hdv Hnl Hlb Ha Hh Hc HD HDl Hwf Hn Hbs Hok Hroom HQ.
  pose proof (wf_n _ _ _ _ _ Hwf) as Hn'. rewrite Hn in Hn'.
  assert (Hlen : length bs = Z.to_nat (l_n s)).
  { unfold bs. rewrite length_take, Hlb. lia. }
  assert (Hl : Z.of_nat (length bs) < nlog) by lia.
  assert (Hview : ∀ c, start ≤ c < start + nlog → a_view a (dev, c) = f (dev, c)).
  { intros c Hc'. destruct (Hc (dev, c)); [|done]. exfalso. eapply HDl; [done|]. by apply HD. }
  assert (Hhome : Forall (home start nlog dsize) bs) by (eapply Forall_impl; [exact Hok|]; by intros ? [? ?]).
  kstep. unfold install_trans. kstep. kstep. kstep. unfold in_block.
  kstep; [apply Z.leb_le; lia|]. rewrite <- Hlen.
  eapply (install_loop_ok D _ _ a); try done.
  { intros i b Hb. unfold bs in Hb. apply lookup_take_Some in Hb. by destruct Hb. }
  intros s' Hs' Ha'. unfold same_log in Hs'. set (c1 := l_cache s') in *. clearbody c1. subst s'.
  destruct (copies_disjoint (log_pairs dev start 0 bs) a) as (Hv & Hk & Hh' & Hy).
  { intros p q. by apply log_pairs_disjoint. }
  assert (Hws : (λ p, (p.2, a_view a p.1)) <$> log_pairs dev start 0 bs = install_writes dev start f bs).
  { rewrite <- log_pairs_writes. apply list_fmap_ext. intros i p Hp%list_elem_of_lookup_2.
    destruct (log_pairs_elem _ _ Hl Hp) as (c & b & -> & ? & _). simpl. f_equal. apply Hview. lia. }
  rewrite Hws, log_pairs_snd in *. set (a1 := copies a _) in *.
  kstep. kstep. eapply (write_head_ok _ a1).
  1-6: simpl; unfold LOGSIZE, MAXOPBLOCKS; (done || lia || congruence).
  { etrans; [|exact Hroom]. apply subseteq_size. set_solver. }
  intros s' Hs' Ha''. unfold same_log in Hs'. set (c2 := l_cache s') in *. clearbody c2. subst s'.
  simpl in Ha''.
  assert (Hhdr : a_view a1 (dev, start) = f (dev, start)).
  { rewrite Hv. rewrite overlay_out; [apply Hview; lia|]. rewrite install_writes_keys.
    intros (b & [= <-] & Hb)%list_elem_of_fmap. rewrite Forall_forall in Hhome.
    destruct (Hhome _ Hb). lia. }
  apply (HQ _ _ (put32 (a_view a1 (dev, start)) 0 0) Ha''); simpl.
  - congruence.
  - by apply clean_stored, clean_copies.
  - rewrite Hy. assert ((dev, start) ∉ a_dirty a) by (intros ?%HD; eapply HDl; [|done]; lia).
    set_solver.
  - by rewrite Hk, writes_app.
  - apply bytes_ok_put32. rewrite Hhdr. apply (wf_hdr _ _ _ _ _ Hwf).
  - rewrite get32_put32_eq; [done|lia|]. rewrite Hhdr. destruct (wf_hdr _ _ _ _ _ Hwf) as [-> _].
    unfold BSIZE. lia.
Qed.

Lemma take_get_blocks f bs :
  hd_n dev start f ≤ LOGSIZE → length bs = Z.to_nat LOGSIZE →
  take (Z.to_nat (hd_n dev start f))
    (get_blocks (f (dev, start)) 0 (Z.to_nat (hd_n dev start f)) bs) = hd_blocks dev start f.
Proof.
  intros Hn Hbs. assert (HL : LOGSIZE = 30) by done. apply list_eq. intros i. unfold hd_blocks.
  rewrite list_lookup_fmap. destruct (decide (i < Z.to_nat (hd_n dev start f))%nat).
  - rewrite lookup_take_lt, lookup_seq_lt, get_blocks_lookup by lia.
    rewrite decide_True by lia. done.
  - rewrite lookup_take_ge, lookup_seq_ge by lia. done.
Qed.

(** A log in memory that [initlog] has just located, over a cache that is empty. *)
Definition fresh (d : disk) (s : lst C) : Prop :=
  l_start s = start ∧ l_dev s = dev ∧ length (l_block s) = Z.to_nat LOGSIZE ∧
  bc_abs (l_cache s) (Cabs (dread d) d ∅ ∅).

(** The disk after recovery, with nothing held or pinned and an empty log. *)
Definition recovered (s : lst C) (g : Z → list Z) : Prop :=
  ∃ a, bc_abs (l_cache s) a ∧ a_held a = ∅ ∧ a_dirty a = ∅ ∧ clean a ∧
       l_n s = 0 ∧ hd_n dev start (dread (a_disk a)) = 0 ∧
       ∀ b, home start nlog dsize b → dread (a_disk a) (dev, b) = g b.

Lemma recover_ok d s (Q : unit → lst C → Prop) :
  let f := dread d in
  0 < nlog → (2 ≤ bc_size)%nat → fresh d s → log_wf dev start nlog dsize f →
  (∀ c' a' h lh, bc_abs c' a' → a_held a' = ∅ → clean a' → a_dirty a' = ∅ →
     a_disk a' = writes d (install_writes dev start f (hd_blocks dev start f) ++ [((dev, start), h)]) →
     bytes_ok BSIZE h → get32 h 0 = 0 → length lh = Z.to_nat LOGSIZE →
     Q tt (set_cache c' (set_lh 0 lh s))) →
  runs recover_from_log Q s.
Proof.
  intros f Hnl Hsz (Hst & Hdv & Hlen & Ha) Hwf HQ. unfold recover_from_log.
  pose proof (wf_n _ _ _ _ _ Hwf) as [Hn Hn'].
  assert (Hc : clean (Cabs (dread d) d ∅ ∅)) by (intros k; by right). kstep.
  eapply (read_head_ok _ _ _ Hst Hdv Hnl Ha); [done|done|done| |].
  { cbn [a_dirty]. etrans; [apply size_add|]. rewrite size_empty. lia. }
  cbn [a_view]. intros c1 Ha1. set (lh := get_blocks _ _ _ _).
  assert (Hlh : length lh = Z.to_nat LOGSIZE) by (unfold lh; by rewrite length_get_blocks).
  assert (Hbs : take (Z.to_nat (hd_n dev start (dread d))) lh = hd_blocks dev start f)
    by (by apply take_get_blocks).
  eapply (install_and_clear_ok ∅ _ (Cabs (dread d) d ∅ ∅));
    cbn [set_cache set_lh l_start l_dev l_n l_block l_cache a_held a_dirty a_disk]; try done.
  - rewrite Hbs. eapply Forall_impl; [apply (wf_home _ _ _ _ _ Hwf)|]. intros b Hb.
    split; [done|]. intros c. rewrite union_empty_l_L. etrans; [apply size_pair|done].
  - etrans; [apply size_add|]. rewrite size_empty. lia.
  - rewrite Hbs. intros c' a' h Ha' Hh' Hc' Hd' Hk' Hb Hz.
    apply (HQ c' a' h lh); try done. rewrite Hd'. apply empty_difference_L.
Qed.

Lemma recovered_intro d s a' h :
  0 < nlog → log_wf dev start nlog dsize (dread d) →
  bc_abs (l_cache s) a' → a_held a' = ∅ → clean a' → a_dirty a' = ∅ → l_n s = 0 →
  a_disk a' = writes d (install_writes dev start (dread d) (hd_blocks dev start (dread d)) ++
                        [((dev, start), h)]) →
  bytes_ok BSIZE h → get32 h 0 = 0 → recovered s (logical dev start (dread d)).
Proof.
  intros Hnl Hwf Ha' Hh' Hc' Hd' Hn Hk' Hb Hz. exists a'.
  destruct (install_clear dev start nlog dsize (dread d) h Hnl Hwf Hb Hz) as (_ & Hn0 & Hcl).
  assert (E : ∀ k, dread (a_disk a') k =
    fupd (overlay (dread d) (install_writes dev start (dread d) (hd_blocks dev start (dread d))))
      (dev, start) h k) by (intros k; by rewrite Hk', dread_writes, overlay_app).
  repeat split; try done.
  - unfold hd_n. rewrite E, fupd_eq, Hz. done.
  - intros b Hh. rewrite <- (Hcl b Hh), E. by rewrite logical_empty.
Qed.

(** Recovery gives every block its logical contents. *)
Lemma recovery_is_logical d s :
  0 < nlog → (2 ≤ bc_size)%nat → fresh d s → log_wf dev start nlog dsize (dread d) →
  runs recover_from_log (λ _ s', recovered s' (logical dev start (dread d))) s.
Proof.
  intros Hnl Hsz Hf Hwf. eapply recover_ok; [done..|].
  intros c' a' h lh Ha' Hh' Hc' Hd' Hk' Hb Hz _. by eapply recovered_intro.
Qed.

(** The blocks of the transaction in memory. *)
Definition lh_blocks (s : lst C) : list Z := take (Z.to_nat (l_n s)) (l_block s).

(** The log while operations run: the transaction's blocks are the ones pinned in
    the cache, and the header on disk is empty. *)
Record log_inv (s : lst C) (a : cabs) : Prop := {
  li_abs : bc_abs (l_cache s) a;
  li_start : l_start s = start;
  li_dev : l_dev s = dev;
  li_size : l_size s = nlog;
  li_len : length (l_block s) = Z.to_nat LOGSIZE;
  li_n : 0 ≤ l_n s ≤ LOGSIZE ∧ l_n s < nlog;
  li_nodup : NoDup (lh_blocks s);
  li_home : Forall (home start nlog dsize) (lh_blocks s);
  li_dirty : a_dirty a = list_to_set (pair dev <$> lh_blocks s);
  li_hdr : bytes_ok BSIZE (dread (a_disk a) (dev, start));
  li_empty : hd_n dev start (dread (a_disk a)) = 0
}.

(** A crash after any part of the writes [ws] to [d] is recovered, with the old
    contents up to some point of the sequence and with the new ones after it. *)
Definition crash_atomic (d : disk) (ws : list ((Z * Z) * list Z)) (old new : Z → list Z) : Prop :=
  ∃ n, ∀ k, let f := dread (writes d (take k ws)) in
    log_wf dev start nlog dsize f ∧
    ∀ b, home start nlog dsize b →
      logical dev start f b = if decide (k ≤ n)%nat then old b else new b.

Section commit.
Context (s : lst C) (a : cabs).
Context (Hinv : log_inv s a) (Hheld : a_held a = ∅) (Hclean : clean a).
Context (Hroom : (Z.to_nat nlog ≤ bc_size)%nat).

Let f0 := dread (a_disk a).
Let bs := lh_blocks s.
Let ws1 : list ((Z * Z) * list Z) :=
  imap (λ i b, ((dev, start + 1 + Z.of_nat i), a_view a (dev, b))) bs.

Lemma commit_len : length bs = Z.to_nat (l_n s).
Proof.
  unfold bs, lh_blocks. rewrite length_take, (li_len _ _ Hinv). pose proof (li_n _ _ Hinv). lia.
Qed.

Lemma commit_size_dirty : size (a_dirty a) = Z.to_nat (l_n s).
Proof.
  rewrite (li_dirty _ _ Hinv), size_list_to_set.
  - rewrite length_fmap. apply commit_len.
  - apply NoDup_fmap_2; [by intros ?? [= ->]|]. apply (li_nodup _ _ Hinv).
Qed.

Lemma commit_room k : (size (a_dirty a ∪ {[k]}) ≤ bc_size)%nat.
Proof.
  etrans; [apply size_add|]. rewrite commit_size_dirty. pose proof (li_n _ _ Hinv). lia.
Qed.

Lemma commit_blocks_ok : Forall (block_ok (a_dirty a)) bs.
Proof.
  apply Forall_forall. intros b Hb. pose proof (li_home _ _ Hinv) as Hh.
  rewrite Forall_forall in Hh. split; [by apply Hh|]. intros c.
  etrans; [|apply (commit_room (dev, c))]. apply subseteq_size.
  assert ((dev, b) ∈ a_dirty a); [|set_solver].
  rewrite (li_dirty _ _ Hinv), elem_of_list_to_set. by apply list_elem_of_fmap_2.
Qed.

Lemma commit_log_clean c : start ≤ c < start + nlog → (dev, c) ∉ a_dirty a.
Proof.
  intros Hc. rewrite (li_dirty _ _ Hinv), elem_of_list_to_set.
  intros (b & [= <-] & Hb)%list_elem_of_fmap. pose proof (li_home _ _ Hinv) as Hh.
  rewrite Forall_forall in Hh. destruct (Hh _ Hb). lia.
Qed.

Lemma commit_wf : log_wf dev start nlog dsize f0.
Proof.
  pose proof (li_empty _ _ Hinv) as E. pose proof (li_n _ _ Hinv).
  unfold f0. split; [apply (li_hdr _ _ Hinv)|rewrite E; unfold LOGSIZE, MAXOPBLOCKS; lia|..];
    unfold hd_blocks; rewrite E; [apply NoDup_nil_2|by apply Forall_nil_2].
Qed.

Lemma commit_log_writes :
  (λ p, (p.2, a_view a p.1)) <$> (prod_swap <$> log_pairs dev start 0 bs) = ws1.
Proof.
  unfold ws1, log_pairs. rewrite <- list_fmap_compose, fmap_imap. apply imap_ext.
  intros i b _. simpl. do 3 f_equal. lia.
Qed.

(** The contents once the header of the transaction is on disk. *)
Definition committed (h : list Z) : Z * Z → list Z := fupd (overlay f0 ws1) (dev, start) h.

Lemma commit_body_keys w : w ∈ ws1 → ∃ c, w.1 = (dev, c) ∧ start < c < start + nlog.
Proof.
  intros (i & Hi)%list_elem_of_lookup. unfold ws1 in Hi. rewrite list_lookup_imap in Hi.
  apply fmap_Some in Hi as (b & Hb & ->). eexists. split; [done|]. apply lookup_lt_Some in Hb.
  rewrite commit_len in Hb. pose proof (li_n _ _ Hinv). lia.
Qed.

Lemma commit_keys_nodup : NoDup ws1.*1.
Proof.
  apply NoDup_alt. intros i j k Hi Hj. rewrite list_lookup_fmap in Hi, Hj.
  apply fmap_Some in Hi as (wi & Hi & ->). apply fmap_Some in Hj as (wj & Hj & Hk).
  unfold ws1 in Hi, Hj. rewrite list_lookup_imap in Hi, Hj.
  apply fmap_Some in Hi as (? & _ & ->). apply fmap_Some in Hj as (? & _ & ->).
  simpl in Hk. injection Hk. lia.
Qed.

(** What the committed disk means: the contents in the cache. *)
Lemma committed_ok h :
  h = put_blocks (l_block s) 0 (Z.to_nat (l_n s)) (put32 (f0 (dev, start)) 0 (l_n s)) →
  log_wf dev start nlog dsize (committed h) ∧
  hd_n dev start (committed h) = l_n s ∧ hd_blocks dev start (committed h) = bs ∧
  ∀ b, home start nlog dsize b → logical dev start (committed h) b = a_view a (dev, b).
Proof.
  intros ->. pose proof (li_n _ _ Hinv) as Hn.
  destruct (header_written dev start nlog dsize Hdsize (overlay f0 ws1) (f0 (dev, start))
              (l_block s) (l_n s)) as (Hb & _ & En & Eb);
    [apply (li_hdr _ _ Hinv)|lia|apply (li_len _ _ Hinv)|apply (li_home _ _ Hinv)|].
  fold (committed (put_blocks (l_block s) 0 (Z.to_nat (l_n s)) (put32 (f0 (dev, start)) 0 (l_n s)))) in En, Eb.
  set (h := put_blocks _ _ _ _) in *. fold (lh_blocks s) in Eb. fold bs in Eb.
  split; [|split; [done|split; [done|]]].
  - split; rewrite ?En, ?Eb; [|lia|apply (li_nodup _ _ Hinv)|apply (li_home _ _ Hinv)].
    unfold committed. by rewrite fupd_eq.
  - intros b [Hb1 Hb2]. unfold logical. rewrite Eb. destruct (list_find _ _) as [[i b']|] eqn:Ef.
    + apply list_find_Some in Ef as (Hi & -> & _). unfold committed.
      rewrite fupd_ne by (intros [=]; lia). apply overlay_in; [apply commit_keys_nodup|].
      apply list_elem_of_lookup. exists i. unfold ws1. by rewrite list_lookup_imap, Hi.
    + unfold committed. rewrite fupd_ne by (intros [=]; lia). rewrite overlay_out.
      * destruct (Hclean (dev, b)) as [Hd|]; [|done]. exfalso.
        rewrite (li_dirty _ _ Hinv), elem_of_list_to_set in Hd.
        apply list_elem_of_fmap in Hd as (b' & [= <-] & Hb').
        rewrite list_find_None, Forall_forall in Ef. by apply (Ef _ Hb').
      * intros (w & Hw & Hin)%list_elem_of_fmap. destruct (commit_body_keys w Hin) as (c & Hc & ?).
        rewrite Hc in Hw. injection Hw as ->. lia.
Qed.

(** Every prefix of the writes of a commit. *)
Lemma commit_crash_atomic h h' :
  0 < nlog →
  h = put_blocks (l_block s) 0 (Z.to_nat (l_n s)) (put32 (f0 (dev, start)) 0 (l_n s)) →
  bytes_ok BSIZE h' → get32 h' 0 = 0 →
  crash_atomic (a_disk a)
    (ws1 ++ [((dev, start), h)] ++ install_writes dev start (committed h) bs ++ [((dev, start), h')])
    (λ b, f0 (dev, b)) (λ b, a_view a (dev, b)).
Proof.
  intros Hnl Hh Hh' Hz. destruct (committed_ok h Hh) as (Hwf & Hn & Hbs & Hnew).
  exists (length ws1). intros k. set (ws := ws1 ++ _).
  assert (Hk : ∃ f, (∀ x, dread (writes (a_disk a) (take k ws)) x = f x) ∧
    log_wf dev start nlog dsize f ∧ ∀ b, home start nlog dsize b →
      logical dev start f b = if decide (k ≤ length ws1)%nat then f0 (dev, b) else a_view a (dev, b)).
  2:{ destruct Hk as (f & E & Hf & Hl). split; [by apply (wf_same _ _ _ _ f)|].
      intros b Hb. rewrite (logical_ext _ _ f) by done. by apply Hl. }
  unfold ws. destruct (decide (k ≤ length ws1)%nat) as [Hk|Hk].
  - exists (overlay f0 (take k ws1)). rewrite take_app_le by done.
    split; [intros x; apply dread_writes|].
    apply log_body_prefix; [done|apply commit_wf|apply (li_empty _ _ Hinv)|apply commit_body_keys].
  - rewrite take_app_ge by lia. destruct (k - length ws1)%nat as [|j] eqn:Ej; [lia|].
    cbn [app take]. rewrite <- Hbs. eexists. split.
    { intros x. rewrite dread_writes, overlay_app. reflexivity. }
    destruct (install_all_prefix dev start nlog dsize (committed h) h' j Hnl Hwf Hh' Hz) as [? Hl].
    split; [done|]. intros b Hb. rewrite <- (Hnew b Hb). by apply Hl.
Qed.

Lemma commit_write_log_ok (Q : unit → lst C → Prop) :
  (∀ c1 a1, bc_abs c1 a1 → a_held a1 = ∅ → clean a1 → a_dirty a1 = a_dirty a →
     a_view a1 (dev, start) = f0 (dev, start) → a_disk a1 = writes (a_disk a) ws1 →
     Q tt (set_cache c1 s)) →
  runs write_log Q s.
Proof.
  intros HQ. pose proof (li_n _ _ Hinv) as Hn.
  unfold write_log. kstep. kstep. kstep. unfold in_block.
  kstep; [apply Z.leb_le; lia|]. rewrite <- commit_len.
  eapply (write_log_loop_ok (a_dirty a) bs _ a);
    [apply Hinv..|done|done|done|done|rewrite commit_len; lia| |apply commit_blocks_ok|].
  { intros i b Hb. unfold bs, lh_blocks in Hb. apply lookup_take_Some in Hb. by destruct Hb. }
  intros s1 Hs1 Ha1. unfold same_log in Hs1. set (c1 := l_cache s1) in *. clearbody c1. subst s1.
  assert (Hlen : Z.of_nat (length bs) < nlog) by (rewrite commit_len; lia).
  destruct (copies_disjoint (prod_swap <$> log_pairs dev start 0 bs) a) as (Hv & Hk & Hh1 & Hy).
  { intros p q (p' & -> & Hp)%list_elem_of_fmap (q' & -> & Hq)%list_elem_of_fmap.
    apply not_eq_sym. destruct p', q'. simpl.
    apply (log_pairs_disjoint bs (_, _) (_, _) Hlen (li_home _ _ Hinv) Hq Hp). }
  rewrite commit_log_writes in Hv, Hk. set (a1 := copies a _) in *.
  apply (HQ c1 a1 Ha1); [congruence|by apply clean_copies| | |done].
  - rewrite Hy. apply set_eq. intros k. rewrite elem_of_difference, elem_of_list_to_set.
    split; [tauto|]. intros Hd. split; [done|]. rewrite <- list_fmap_compose.
    intros (p & -> & Hp)%list_elem_of_fmap.
    destruct (log_pairs_elem bs p) as (c & b & -> & ? & _); [done|done|].
    simpl in Hd. apply (commit_log_clean c) in Hd; [done|lia].
  - rewrite Hv, overlay_out.
    + destruct (Hclean (dev, start)) as [Hd|]; [|done]. apply commit_log_clean in Hd; [done|lia].
    + intros (w & Hw & (c & Hc & ?)%commit_body_keys)%list_elem_of_fmap.
      rewrite Hc in Hw. injection Hw as ->. lia.
Qed.

(** Before the header is written nothing has happened; with no block logged
    nothing happens at all. *)
Lemma commit_nothing : l_n s = 0 →
  crash_atomic (a_disk a) [] (λ b, f0 (dev, b)) (λ b, a_view a (dev, b)).
Proof.
  intros Hz. exists 0%nat. intros k. rewrite take_nil. cbn [writes foldl].
  split; [apply commit_wf|].
  intros b Hb. rewrite logical_empty by apply (li_empty _ _ Hinv).
  destruct (Hclean (dev, b)) as [Hd|Hd]; [exfalso|unfold f0; rewrite Hd; by case_decide].
  rewrite (li_dirty _ _ Hinv) in Hd. unfold lh_blocks in Hd. by rewrite Hz in Hd.
Qed.

(** The state when all the writes of a commit are done. *)
Lemma commit_finish c3 a3 h h' (Q : unit → lst C → Prop) :
  0 < l_n s →
  h = put_blocks (l_block s) 0 (Z.to_nat (l_n s)) (put32 (f0 (dev, start)) 0 (l_n s)) →
  bytes_ok BSIZE h' → get32 h' 0 = 0 → bc_abs c3 a3 → a_held a3 = ∅ → clean a3 →
  a_dirty a3 = a_dirty a ∖ list_to_set (pair dev <$> bs) →
  a_disk a3 = writes (a_disk a)
    (ws1 ++ [((dev, start), h)] ++ install_writes dev start (committed h) bs ++ [((dev, start), h')]) →
  (∀ s' a' ws, log_inv s' a' → a_held a' = ∅ → clean a' → l_n s' = 0 →
     l_outstanding s' = l_outstanding s → l_committing s' = l_committing s →
     (∀ b, home start nlog dsize b → a_view a' (dev, b) = a_view a (dev, b)) →
     a_disk a' = writes (a_disk a) ws →
     crash_atomic (a_disk a) ws (λ b, f0 (dev, b)) (λ b, a_view a (dev, b)) → Q tt s') →
  Q tt (set_cache c3 (set_lh 0 (l_block s) s)).
Proof.
  intros Hpos Hh Hb' Hz' Ha3 Hh3 Hc3 Hd3 Hk3 HQ. pose proof (li_n _ _ Hinv) as Hn.
  pose proof (commit_crash_atomic h h' ltac:(lia) Hh Hb' Hz') as Hat.
  set (ws := ws1 ++ _) in *.
  assert (Hd0 : a_dirty a3 = ∅) by (rewrite Hd3, (li_dirty _ _ Hinv); fold bs; set_solver).
  assert (Hhd : dread (a_disk a3) (dev, start) = h').
  { rewrite Hk3. unfold ws. rewrite !app_assoc, writes_app. simpl. apply dread_dwrite_eq. }
  assert (Hn0 : hd_n dev start (dread (a_disk a3)) = 0) by (unfold hd_n; by rewrite Hhd, Hz').
  apply (HQ _ a3 ws); try done.
  - split; try done; try apply Hinv; unfold LOGSIZE, MAXOPBLOCKS; simpl; try lia;
      first [by apply NoDup_nil_2 | by apply Forall_nil_2 | by rewrite Hhd].
  - intros b Hb. destruct (Hc3 (dev, b)) as [Hd| ->]; [by rewrite Hd0 in Hd|].
    destruct Hat as [m Hat]. destruct (Hat (S m + length ws)%nat) as [_ Hl].
    rewrite take_ge in Hl by lia. rewrite <- Hk3 in Hl. specialize (Hl b Hb).
    rewrite logical_empty in Hl by done. rewrite Hl. by rewrite decide_False by lia.
Qed.

Lemma commit_ok (Q : unit → lst C → Prop) :
  (∀ s' a' ws, log_inv s' a' → a_held a' = ∅ → clean a' → l_n s' = 0 →
     l_outstanding s' = l_outstanding s → l_committing s' = l_committing s →
     (∀ b, home start nlog dsize b → a_view a' (dev, b) = a_view a (dev, b)) →
     a_disk a' = writes (a_disk a) ws →
     crash_atomic (a_disk a) ws (λ b, f0 (dev, b)) (λ b, a_view a (dev, b)) → Q tt s') →
  runs commit Q s.
Proof.
  intros HQ. pose proof (li_n _ _ Hinv) as Hn. unfold commit. kstep. kstep.
  destruct (Z.ltb_spec 0 (l_n s)) as [Hpos|Hzero].
  2:{ kstep. apply (HQ s a []); try done; [lia|apply commit_nothing; lia]. }
  kstep. apply commit_write_log_ok. intros c1 a1 Ha1 Hh1 Hc1 Hdirty1 Hhdr Hk1.
  kstep. eapply (write_head_ok _ a1);
    [apply Hinv|apply Hinv|lia|done|done|simpl; lia|rewrite Hdirty1; apply commit_room|].
  intros s2 Hs2 Ha2. unfold same_log in Hs2. set (c2 := l_cache s2) in *. clearbody c2. subst s2.
  cbn [set_cache l_block l_n] in Ha2. rewrite Hhdr in Ha2. set (h := put_blocks _ _ _ _) in Ha2.
  set (a2 := stored a1 (dev, start) h) in *.
  destruct (committed_ok h eq_refl) as (Hwf & Hcn & Hbs & Hnew).
  assert (E2 : ∀ k, dread (a_disk a2) k = committed h k).
  { intros k. simpl. rewrite Hk1. unfold committed. destruct (decide (k = (dev, start))) as [-> |].
    - by rewrite dread_dwrite_eq, fupd_eq.
    - rewrite dread_dwrite_ne, fupd_ne by done. apply dread_writes. }
  assert (Ha2d : a_dirty a2 = a_dirty a).
  { simpl. rewrite Hdirty1. pose proof (commit_log_clean start). set_solver by lia. }
  destruct (hd_same dev start (committed h) (dread (a_disk a2)) (E2 _)) as [E2n E2b].
  eapply (install_and_clear_ok (a_dirty a) _ a2);
    [apply Hinv|apply Hinv|lia|apply Hinv|done|done|by apply clean_stored|by rewrite Ha2d
    |apply commit_log_clean|by apply (wf_same _ _ _ _ (committed h))|by rewrite E2n|by rewrite E2b
    |apply commit_blocks_ok|apply commit_room|].
  cbn [set_cache l_block l_n]. fold (lh_blocks s). fold bs.
  intros c3 a3 h' Ha3 Hh3 Hc3 Hd3 Hk3 Hb' Hz'.
  replace (install_writes dev start (dread (a_disk a2)) bs)
    with (install_writes dev start (committed h) bs) in Hk3
    by (apply imap_ext; intros; by rewrite E2).
  apply (commit_finish c3 a3 h h' Q); try done.
  - by rewrite Hd3, Ha2d.
  - rewrite Hk3, (writes_app _ ws1), <- Hk1. done.
Qed.

End commit.

(** ** Operations *)

Lemma find_block_ok bs b k : ∀ i,
  let r := find_block bs b i k in
  i ≤ r ≤ i + Z.of_nat k ∧ (r < i + Z.of_nat k → bs !!! Z.to_nat r = b) ∧
  (r = i + Z.of_nat k → ∀ j, i ≤ j < i + Z.of_nat k → bs !!! Z.to_nat j ≠ b).
Proof.
  induction k as [|k IH]; intros i; cbn [find_block]; [split; [lia|]; split; intros; lia|].
  destruct (Z.eqb_spec (bs !!! Z.to_nat i) b) as [E|E].
  - split; [lia|]. split; [done|]. intros. lia.
  - destruct (IH (i + 1)) as (Hr & H1 & H2). split; [lia|]. split; [intros; apply H1; lia|].
    intros Hk j Hj. destruct (decide (j = i)) as [-> |]; [done|]. apply H2; lia.
Qed.

(** [lh.block] and [lh.n] after [log_write]. *)
Lemma log_append_ok bl n b :
  length bl = Z.to_nat LOGSIZE → 0 ≤ n < LOGSIZE →
  let r := find_block bl b 0 (Z.to_nat n) in
  let bl' := <[Z.to_nat r := b]> bl in
  let bs := take (Z.to_nat n) bl in
  if r =? n then b ∉ bs ∧ take (Z.to_nat (n + 1)) bl' = bs ++ [b]
  else b ∈ bs ∧ bl' = bl.
Proof.
  intros Hlen Hn r bl' bs.
  destruct (find_block_ok bl b (Z.to_nat n) 0) as (Hr & Hr1 & Hr2). fold r in Hr, Hr1, Hr2.
  destruct (Z.eqb_spec r n) as [Er|Er].
  - split.
    + intros (j & Hj)%list_elem_of_lookup. unfold bs in Hj. apply lookup_take_Some in Hj as [Hj Hjn].
      apply (Hr2 ltac:(lia) (Z.of_nat j) ltac:(lia)). rewrite Nat2Z.id.
      by apply list_lookup_total_correct.
    + replace (Z.to_nat (n + 1)) with (S (Z.to_nat n)) by lia. unfold bl'. rewrite Er.
      rewrite (take_S_r _ _ b) by (apply list_lookup_insert_eq; lia).
      by rewrite take_insert_ge by lia.
  - assert (E : bl !! Z.to_nat r = Some b).
    { rewrite <- (Hr1 ltac:(lia)). apply list_lookup_lookup_total_lt. lia. }
    split; [|by apply list_insert_id]. apply list_elem_of_lookup. exists (Z.to_nat r).
    unfold bs. by rewrite lookup_take_lt by lia.
Qed.

Lemma log_inv_set s a a' c n bl :
  log_inv s a → bc_abs c a' → a_disk a' = a_disk a →
  length bl = Z.to_nat LOGSIZE → 0 ≤ n ≤ LOGSIZE → n < nlog →
  NoDup (take (Z.to_nat n) bl) → Forall (home start nlog dsize) (take (Z.to_nat n) bl) →
  a_dirty a' = list_to_set (pair dev <$> take (Z.to_nat n) bl) →
  log_inv (set_cache c (set_lh n bl s)) a'.
Proof. intros Hinv Ha Hd ????? Hdirty. split; try done; rewrite ?Hd; try apply Hinv. Qed.

Lemma log_write_ok s a b i (Q : unit → lst C → Prop) :
  log_inv s a → a_held a !! (dev, b) = Some i → home start nlog dsize b →
  1 ≤ l_outstanding s → l_n s < LOGSIZE → l_n s < nlog - 1 →
  (∀ s', log_inv s' (upd_dirty a (union {[(dev, b)]})) →
     l_outstanding s' = l_outstanding s → l_committing s' = l_committing s →
     lh_blocks s' = (if decide (b ∈ lh_blocks s) then lh_blocks s else lh_blocks s ++ [b]) → Q tt s') →
  runs (log_write i) Q s.
Proof.
  intros Hinv Hi Hb Hout Hn1 Hn2 HQ. pose proof (li_n _ _ Hinv) as Hn.
  pose proof (li_len _ _ Hinv) as Hlen. unfold log_write. kstep. kstep. rewrite (li_size _ _ Hinv).
  kstep. kstep; [bdestruct_all; simpl; lia|]. kstep. kstep; [bdestruct_all; simpl; lia|].
  kstep. apply runs_lift.
  eapply runs_mono; [eapply bc_blockno_spec; [apply (li_abs _ _ Hinv)|exact Hi]|].
  intros b' c1 [-> ->]. simpl.
  pose proof (log_append_ok (l_block s) (l_n s) b Hlen ltac:(lia)) as Happ. cbv zeta in Happ.
  set (r := find_block _ _ _ _) in *. fold (lh_blocks s) in Happ. kstep. kstep. kstep.
  destruct (r =? l_n s); destruct Happ as [Hin Ebl]; kstep; apply runs_lift;
    (eapply runs_mono; [eapply (bc_pin_spec _ a (dev, b)); [apply (li_abs _ _ Hinv)|done]|]);
    intros [] c2 A2; cbn [set_lh set_cache l_n l_block].
  - apply HQ; [|done|done|by rewrite decide_False by done].
    apply (log_inv_set s a); try done; rewrite ?Ebl; try lia.
    + by rewrite length_insert.
    + apply NoDup_app. split; [apply (li_nodup _ _ Hinv)|]. split; [|apply NoDup_singleton].
      intros x Hx ->%list_elem_of_singleton. done.
    + apply Forall_app. split; [apply (li_home _ _ Hinv)|by apply Forall_singleton].
    + simpl. rewrite (li_dirty _ _ Hinv), fmap_app, list_to_set_app_L. simpl. set_solver.
  - rewrite Ebl. apply HQ; [|done|done|by rewrite decide_True by done].
    apply (log_inv_set s a); try done; try apply Hinv; try lia.
    simpl. rewrite (li_dirty _ _ Hinv). fold (lh_blocks s).
    apply set_eq. intros k. rewrite elem_of_union, elem_of_singleton, elem_of_list_to_set.
    split; [|tauto]. intros [-> |]; [|done]. by apply list_elem_of_fmap_2.
Qed.

Lemma begin_op_ok s a (Q : unit → lst C → Prop) :
  log_inv s a → l_committing s = false → l_n s + (l_outstanding s + 1) * MAXOPBLOCKS ≤ LOGSIZE →
  (log_inv (set_ops (l_outstanding s + 1) false s) a →
     Q tt (set_ops (l_outstanding s + 1) false s)) →
  runs begin_op Q s.
Proof.
  intros Hinv Hc Hn HQ. unfold begin_op. kstep. kstep. unfold begin_op_waits. rewrite Hc.
  replace (LOGSIZE <? _) with false by (symmetry; apply Z.ltb_ge; lia). simpl.
  eexists _, _. split; [done|]. apply HQ. split; apply Hinv.
Qed.

Lemma log_inv_ops s a o c : log_inv s a → log_inv (set_ops o c s) a.
Proof. intros Hinv. split; apply Hinv. Qed.

Lemma log_inv_cache s a a' c :
  log_inv s a → bc_abs c a' → a_disk a' = a_disk a → a_dirty a' = a_dirty a →
  log_inv (set_cache c s) a'.
Proof. intros Hinv Ha Hd Hy. split; rewrite ?Hd, ?Hy; try done; apply Hinv. Qed.

(** A whole update of a block inside a transaction: read, change, log, release. *)
Lemma update_block_ok s a b v (Q : unit → lst C → Prop) :
  log_inv s a → a_held a = ∅ → clean a → home start nlog dsize b →
  1 ≤ l_outstanding s → l_n s < LOGSIZE → l_n s < nlog - 1 →
  (size (a_dirty a ∪ {[(dev, b)]}) ≤ bc_size)%nat →
  (∀ s' a', log_inv s' a' → a_held a' = ∅ → clean a' → a_disk a' = a_disk a →
     a_view a' = fupd (a_view a) (dev, b) v →
     l_outstanding s' = l_outstanding s → l_committing s' = l_committing s → Q tt s') →
  runs (i ← lift (bc_bread dev b); lift (bc_store i v);; log_write i;; lift (bc_brelse i)) Q s.
Proof.
  intros Hinv Hh Hc Hb Ho Hn1 Hn2 Hroom HQ. kstep. apply runs_lift. eapply runs_mono.
  { eapply bc_bread_spec; [apply (li_abs _ _ Hinv)|apply Hserves, Hb|by rewrite Hh, lookup_empty|].
    eapply size_busy_le; [exact Hroom|]. rewrite Hh. set_solver. }
  intros i c1 A1. kstep. apply runs_lift. eapply runs_mono.
  { eapply (bc_store_spec _ _ (dev, b)); [exact A1|apply lookup_insert_eq]. }
  intros [] c2 A2. kstep.
  eapply (log_write_ok (set_cache c2 s) (upd_view (upd_held a (<[(dev, b) := i]>)) (dev, b) v) b i);
    [|apply lookup_insert_eq|done..|].
  { eapply (log_inv_cache s a); [done|exact A2|done|done]. }
  intros s3 Hinv3 Ho3 Hcm3 _. apply runs_lift. eapply runs_mono.
  { eapply (bc_brelse_spec _ _ (dev, b)); [apply (li_abs _ _ Hinv3)|apply lookup_insert_eq|].
    left. simpl. set_solver. }
  intros [] c4 A4. eapply HQ; [eapply log_inv_cache; [exact Hinv3|exact A4|done|done]|..]; try done.
  - simpl. rewrite delete_insert_id by (by rewrite Hh, lookup_empty). done.
  - intros k. simpl. destruct (decide (k = (dev, b))) as [-> |]; [left; set_solver|].
    rewrite fupd_ne by done. destruct (Hc k); [left; set_solver|by right].
Qed.

(** [end_op] of the last outstanding operation. *)
Lemma end_op_ok s a (Q : unit → lst C → Prop) :
  log_inv s a → a_held a = ∅ → clean a → (Z.to_nat nlog ≤ bc_size)%nat →
  l_outstanding s = 1 → l_committing s = false →
  (∀ s' a' ws, log_inv s' a' → a_held a' = ∅ → clean a' → l_n s' = 0 →
     l_outstanding s' = 0 → l_committing s' = false →
     (∀ b, home start nlog dsize b → a_view a' (dev, b) = a_view a (dev, b)) →
     a_disk a' = writes (a_disk a) ws →
     crash_atomic (a_disk a) ws (λ b, dread (a_disk a) (dev, b)) (λ b, a_view a (dev, b)) → Q tt s') →
  runs end_op Q s.
Proof.
  intros Hinv Hh Hc Hroom Ho Hcm HQ. unfold end_op, end_op_begin. kstep. kstep. kstep. kstep. kstep.
  kstep. kstep; [by rewrite Hcm|]. rewrite Ho. simpl. kstep. kstep. kstep. kstep.
  eapply commit_ok; [apply log_inv_ops, log_inv_ops; exact Hinv|done..|].
  intros s' a' ws Hinv' Hh' Hc' Hn' Ho' Hcm' Hv Hk Hat. kstep.
  apply (HQ _ a' ws); try done. by apply log_inv_ops.
Qed.

End log_proofs.

(** ** What the code alone says, whatever the cache does *)

Section frame.
Context {C : Type} `{BufCache C}.
Implicit Types s : lst C.

Lemma post_lift {A} (m : K C A) (Q : A → lst C → Prop) s :
  (∀ x c, m (l_cache s) = Ok (x, c) → Q x (set_cache c s)) → post (lift m) Q s.
Proof. intros HQ x s' E. unfold lift in E. destruct (m (l_cache s)) as [[y c]| |]; simplify_eq. auto. Qed.

Ltac lstep := first
  [ pstep | apply post_lift; intros ? ? ? | progress unfold in_block ].

Lemma install_loop_frame k : ∀ tail s, post (install_loop tail k) (λ _ s', same_log s s') s.
Proof.
  induction k as [|k IH]; intros tail s; cbn [install_loop].
  - pstep. apply same_log_refl.
  - repeat lstep. eapply post_mono; [apply IH|]. eauto using same_log_trans.
Qed.

Lemma write_log_loop_frame k : ∀ tail s, post (write_log_loop tail k) (λ _ s', same_log s s') s.
Proof.
  induction k as [|k IH]; intros tail s; cbn [write_log_loop].
  - pstep. apply same_log_refl.
  - repeat lstep. eapply post_mono; [apply IH|]. eauto using same_log_trans.
Qed.

Lemma write_head_frame s : post write_head (λ _ s', same_log s s') s.
Proof. unfold write_head. by repeat lstep. Qed.

(** A commit that returns empties the transaction and touches nothing else. *)
Lemma commit_frame s :
  0 ≤ l_n s → post commit (λ _ s', ∃ c, s' = set_cache c (set_lh 0 (l_block s) s)) s.
Proof.
  intros Hn. unfold commit. pstep. pstep. destruct (Z.ltb_spec 0 (l_n s)) as [Hp|Hz].
  - unfold write_log, install_trans. repeat lstep.
    eapply post_mono; [apply write_log_loop_frame|]. intros [] s1 Hs1. lstep.
    eapply post_mono; [apply write_head_frame|]. intros [] s2 Hs2. repeat lstep.
    eapply post_mono; [apply install_loop_frame|]. intros [] s3 Hs3. repeat lstep.
    eapply post_mono; [apply write_head_frame|]. intros [] s4 Hs4. exists (l_cache s4).
    assert (Hs : same_log s s3) by eauto using same_log_trans.
    unfold same_log in Hs, Hs4. rewrite Hs4 at 1. by rewrite Hs.
  - pstep. exists (l_cache s). assert (E : l_n s = 0) by lia. destruct s. simpl in *. by subst.
Qed.

(** The blocks of the transaction after [log_write]: the block is appended unless
    it is there already. *)
Lemma log_write_frame i s :
  length (l_block s) = Z.to_nat LOGSIZE → 0 ≤ l_n s →
  post (log_write i) (λ _ s', ∃ b c, bc_blockno i (l_cache s) = Ok (b, c) ∧
    l_outstanding s' = l_outstanding s ∧ l_committing s' = l_committing s ∧ l_size s' = l_size s ∧
    length (l_block s') = Z.to_nat LOGSIZE ∧
    (b ∈ lh_blocks s ∧ lh_blocks s' = lh_blocks s ∧ l_n s' = l_n s ∨
     b ∉ lh_blocks s ∧ lh_blocks s' = lh_blocks s ++ [b] ∧ l_n s' = l_n s + 1)) s.
Proof.
  intros Hlen Hn. unfold log_write. repeat lstep.
  rename select (bc_blockno _ _ = _) into Hb. rename x into b, c into c0.
  assert (Hlt : l_n s < LOGSIZE) by (bdestruct_all; simpl in *; try done; lia).
  pose proof (log_append_ok (l_block s) (l_n s) b Hlen ltac:(lia)) as Happ. cbv zeta in Happ.
  cbn [set_lh set_cache l_n]. set (r := find_block _ _ _ _) in *. fold (lh_blocks s) in Happ.
  destruct (r =? l_n s); destruct Happ as [Hin Ebl]; repeat lstep; exists b, c0;
    cbn [set_lh set_cache l_n l_block l_outstanding l_committing l_size];
    rewrite length_insert; do 5 (split; [done|]).
  - right. done.
  - left. unfold lh_blocks at 2. cbn [set_lh set_cache l_n l_block]. by rewrite Ebl.
Qed.

End frame.

(** When [log_write] returns. *)
Lemma log_write_returns {C} `{BufCache C} (s : lst C) i b c c' :
  l_n s < LOGSIZE ∧ l_n s < l_size s - 1 → 1 ≤ l_outstanding s →
  bc_blockno i (l_cache s) = Ok (b, c) → bc_pin i c = Ok (tt, c') →
  ∃ s', log_write i s = Ok (tt, s').
Proof.
  intros Hn Ho Hb Hp. cut (runs (log_write i) (λ _ _, True) s).
  { intros ([] & s' & E & _). by exists s'. }
  unfold log_write. kstep. kstep. kstep. kstep; [bdestruct_all; simpl; lia|].
  kstep. kstep; [bdestruct_all; simpl; lia|]. kstep. apply runs_lift.
  eapply runs_of_eq; [exact Hb|]. kstep. kstep. kstep.
  destruct (_ =? _); kstep; apply runs_lift; by eapply runs_of_eq.
Qed.

(** ** The space that [begin_op] reserves *)

Section reservation.
Context {C : Type} `{BufCache C}.

(** Blocks that the operations in progress may still log. *)
Definition slack (ops : list (gset Z)) : Z :=
  foldr (λ X n, MAXOPBLOCKS - Z.of_nat (size X) + n) 0 ops.

Record reserved (sz : Z) (p : lst C * list (gset Z)) : Prop := {
  rv_size : l_size p.1 = sz;
  rv_len : length (l_block p.1) = Z.to_nat LOGSIZE;
  rv_n : 0 ≤ l_n p.1;
  rv_outstanding : l_outstanding p.1 = Z.of_nat (length p.2);
  rv_small : ∀ X, X ∈ p.2 → Z.of_nat (size X) ≤ MAXOPBLOCKS;
  rv_logged : ∀ X b, X ∈ p.2 → b ∈ X → b ∈ lh_blocks p.1;
  rv_space : l_n p.1 + slack p.2 ≤ LOGSIZE
}.

Lemma slack_app l1 l2 : slack (l1 ++ l2) = slack l1 + slack l2.
Proof. induction l1; simpl; lia. Qed.

Lemma slack_nonneg ops : (∀ X, X ∈ ops → Z.of_nat (size X) ≤ MAXOPBLOCKS) → 0 ≤ slack ops.
Proof.
  induction ops as [|X ops IH]; intros Hs; simpl; [lia|].
  pose proof (Hs X ltac:(by left)). specialize (IH ltac:(intros; apply Hs; by right)). lia.
Qed.

Lemma slack_le ops : slack ops ≤ Z.of_nat (length ops) * MAXOPBLOCKS.
Proof. induction ops; simpl; unfold MAXOPBLOCKS in *; lia. Qed.

Lemma reserved_begin sz s ops s' :
  reserved sz (s, ops) → begin_op s = Ok (tt, s') → reserved sz (s', ∅ :: ops).
Proof.
  intros [Hsz Hlen Hn Ho Hsm Hlg Hsp] E. simpl in *. unfold begin_op in E.
  apply bind_inv in E as (s0 & s1 & [= <- <-] & E).
  destruct (begin_op_waits s) eqn:Ew; [done|]. injection E as <-. unfold begin_op_waits in Ew.
  apply orb_false_iff in Ew as [_ Hle%Z.ltb_ge]. pose proof (slack_le ops).
  split; simpl; try done; try lia.
  - intros X [-> |HX]%elem_of_cons; [by rewrite size_empty|auto].
  - intros X b [-> |HX]%elem_of_cons Hb; [set_solver|]. by eapply Hlg.
Qed.

Lemma size_add_elem (b : Z) (X : gset Z) :
  Z.of_nat (size ({[b]} ∪ X)) = Z.of_nat (size X) + (if decide (b ∈ X) then 0 else 1).
Proof.
  case_decide.
  - replace ({[b]} ∪ X) with X by set_solver. lia.
  - rewrite size_union by set_solver. rewrite size_singleton. lia.
Qed.

Lemma reserved_write sz s l1 X l2 i b c s' :
  reserved sz (s, l1 ++ X :: l2) → bc_blockno i (l_cache s) = Ok (b, c) →
  Z.of_nat (size X) < MAXOPBLOCKS → log_write i s = Ok (tt, s') →
  reserved sz (s', l1 ++ ({[b]} ∪ X) :: l2).
Proof.
  intros [Hsz Hlen Hn Ho Hsm Hlg Hsp] Eb Hlt E. simpl in *.
  apply (log_write_frame i s Hlen Hn) in E.
  destruct E as (b' & c' & Eb' & Ho' & _ & Hsz' & Hlen' & Hcase). rewrite Eb in Eb'. simplify_eq.
  assert (Hin : ∀ x, x ∈ lh_blocks s ∨ x = b' → x ∈ lh_blocks s').
  { destruct Hcase as [(? & -> & _)|(_ & -> & _)]; set_solver. }
  assert (HX : b' ∈ X → b' ∈ lh_blocks s) by (apply Hlg; set_solver).
  rewrite slack_app in Hsp. simpl in Hsp.
  split; simpl; try done.
  - destruct Hcase as [(_ & _ & ->)|(_ & _ & ->)]; lia.
  - rewrite Ho', Ho, !length_app. done.
  - intros Y [HY|[-> |HY]%elem_of_cons]%elem_of_app; [apply Hsm; set_solver| |apply Hsm; set_solver].
    rewrite size_add_elem. case_decide; lia.
  - intros Y x [HY|[-> |HY]%elem_of_cons]%elem_of_app Hx; apply Hin.
    + left. apply (Hlg Y); set_solver.
    + apply elem_of_union in Hx as [?%elem_of_singleton|Hx]; [by right|left].
      apply (Hlg X); set_solver.
    + left. apply (Hlg Y); set_solver.
  - rewrite slack_app. simpl. rewrite size_add_elem.
    destruct Hcase as [(_ & _ & ->)|(Hni & _ & ->)]; case_decide; try lia.
    exfalso. by apply Hni, HX.
Qed.

Lemma reserved_end sz s l1 X l2 dc s' :
  reserved sz (s, l1 ++ X :: l2) → end_op_begin s = Ok (dc, s') → reserved sz (s', l1 ++ l2).
Proof.
  intros [Hsz Hlen Hn Ho Hsm Hlg Hsp] E. simpl in *.
  assert (Hs' : ∃ cm, s' = set_ops (l_outstanding s - 1) cm s).
  { revert dc s' E. apply (post_mono _ (λ _ s', ∃ cm, s' = set_ops (l_outstanding s - 1) cm s)); [|done].
    unfold end_op_begin. repeat pstep. simpl. destruct (_ =? 0); repeat pstep; by eexists. }
  destruct Hs' as [cm ->]. rewrite slack_app in Hsp. simpl in Hsp.
  pose proof (Hsm X ltac:(set_solver)).
  split; simpl; try done.
  - rewrite Ho, !length_app. simpl. lia.
  - intros Y HY. apply Hsm. set_solver.
  - intros Y x HY Hx. apply (Hlg Y); [set_solver|done].
  - rewrite slack_app. lia.
Qed.

Lemma reserved_step sz p q : reserved sz p → lstep p q → reserved sz q.
Proof.
  intros Hr Hstep. destruct Hstep as [| | |s s' Hc E|].
  - by eapply reserved_begin.
  - by eapply reserved_write.
  - by eapply reserved_end.
  - destruct Hr as [Hsz Hlen Hn Ho Hsm Hlg Hsp]. simpl in *.
    apply (commit_frame s Hn) in E as [c ->].
    split; simpl; try done.
    intros X b HX. by apply not_elem_of_nil in HX.
  - destruct Hr. by split.
Qed.
(** C6. The space that [begin_op] reserves is enough when the log holds [LOGSIZE]
    blocks besides its header.  Along any interleaving of operations from an empty
    log, an operation that has logged fewer than [MAXOPBLOCKS] blocks can log
    another one: [log_write] does not panic. *)
Theorem begin_op_reserves_enough s0 s l1 X l2 i b c c' :
  LOGSIZE < l_size s0 → l_n s0 = 0 → l_outstanding s0 = 0 → length (l_block s0) = Z.to_nat LOGSIZE →
  rtc lstep (s0, []) (s, l1 ++ X :: l2) → Z.of_nat (size X) < MAXOPBLOCKS →
  bc_blockno i (l_cache s) = Ok (b, c) → bc_pin i c = Ok (tt, c') →
  ∃ s', log_write i s = Ok (tt, s').
Proof.
  intros Hsz Hn Ho Hlen Hsteps HX Hb Hp.
  assert (Hr : reserved (l_size s0) (s, l1 ++ X :: l2)).
  { eapply (rtc_invariant lstep); [intros; by eapply reserved_step| |exact Hsteps].
    split; simpl; try done; try lia; try set_solver. unfold LOGSIZE, MAXOPBLOCKS. lia. }
  destruct Hr as [Hsz' Hlen' Hn' Ho' Hsm _ Hsp]. simpl in *.
  rewrite slack_app in Hsp. simpl in Hsp. rewrite length_app in Ho'. simpl in Ho'.
  pose proof (slack_nonneg l1 ltac:(intros; apply Hsm; set_solver)).
  pose proof (slack_nonneg l2 ltac:(intros; apply Hsm; set_solver)).
  apply log_write_returns with b c c'; [lia|lia|done|done].
Qed.

End reservation.

(** ** Properties *)

(** The cache a process sees after a boot on disk [d], and the disk it leaves. *)
Section properties.
Context {C : Type} `{BufCache C}.
Context (dev start nlog dsize : Z).
Context (Hdsize : dsize ≤ 2 ^ 31) (Hstart : 0 ≤ start) (Hnlog : start + nlog ≤ dsize).
Context (Hserves : ∀ c, 0 ≤ c < dsize → bc_serves dev c).
Context (Hbufs : (2 ≤ bc_size)%nat) (Hroom : (Z.to_nat nlog ≤ bc_size)%nat).

(** C4. A transaction is atomic with respect to crashes.  [end_op] of the last
    operation in progress returns, having sent the disk a sequence of writes that
    has a commit point: if the machine stops after any number [k] of them,
    [recover_from_log] on the disk so far returns and leaves every block of the
    file system with its contents before the transaction when [k] does not pass
    the commit point, and with its contents in the cache otherwise. *)
Theorem end_op_is_crash_atomic s a :
  log_inv dev start nlog dsize s a → a_held a = ∅ → clean a →
  l_outstanding s = 1 → l_committing s = false →
  runs end_op (λ _ s', ∃ a' ws point,
    log_inv dev start nlog dsize s' a' ∧ l_n s' = 0 ∧ l_outstanding s' = 0 ∧
    (∀ b, home start nlog dsize b → a_view a' (dev, b) = a_view a (dev, b)) ∧
    a_disk a' = writes (a_disk a) ws ∧
    ∀ k s0, fresh dev start (writes (a_disk a) (take k ws)) s0 →
      runs recover_from_log (λ _ s1, recovered dev start nlog dsize s1
        (λ b, if decide (k ≤ point)%nat then dread (a_disk a) (dev, b) else a_view a (dev, b))) s0) s.
Proof.
  intros Hinv Hh Hc Ho Hcm. pose proof (li_n _ _ _ _ _ _ Hinv) as Hn.
  eapply end_op_ok; try done.
  intros s' a' ws Hinv' _ _ Hn' Ho' _ Hv Hk [point Hat]. exists a', ws, point.
  repeat (split; [done|]). intros k s0 Hf. destruct (Hat k) as [Hwf Hl].
  eapply runs_mono; [apply (recovery_is_logical dev start nlog dsize); try done; lia|].
  intros [] s1 (a1 & H1 & H2 & H3 & H4 & H5 & H6 & H7). exists a1.
  repeat (split; [done|]). intros b Hb. by rewrite (H7 b Hb), (Hl b Hb).
Qed.

(** C5. Recovery installs exactly what the log says and survives crashes of its
    own.  On any disk with a well-formed log, [recover_from_log] returns, every
    block gets its logical contents and the log becomes empty; and if the machine
    stops after any number [k] of the writes that recovery makes, running it again
    on the disk so far gives the same contents. *)
Theorem recovery_survives_crashes d s :
  0 < nlog → fresh dev start d s → log_wf dev start nlog dsize (dread d) →
  runs recover_from_log (λ _ s', ∃ a' ws,
    bc_abs (l_cache s') a' ∧ a_disk a' = writes d ws ∧
    recovered dev start nlog dsize s' (logical dev start (dread d)) ∧
    ∀ k s0, fresh dev start (writes d (take k ws)) s0 →
      runs recover_from_log
        (λ _ s1, recovered dev start nlog dsize s1 (logical dev start (dread d))) s0) s.
Proof.
  intros Hnl Hf Hwf.
  eapply (recover_ok dev start nlog dsize); try done.
  intros c' a' h lh Ha' Hh' Hc' Hd' Hk' Hb Hz _. eexists a', _.
  split; [exact Ha'|]. split; [exact Hk'|]. split; [by eapply recovered_intro|].
  intros k s0 Hf0.
  destruct (install_all_prefix dev start nlog dsize (dread d) h k Hnl Hwf Hb Hz) as [Hwf' Hl].
  set (ws := install_writes _ _ _ _ ++ _) in *.
  assert (E : ∀ x, dread (writes d (take k ws)) x = overlay (dread d) (take k ws) x)
    by (intros; apply dread_writes).
  eapply runs_mono; [apply (recovery_is_logical dev start nlog dsize); try done|].
  { by apply (wf_same _ _ _ _ (overlay (dread d) (take k ws))). }
  intros [] s1 (a1 & H1 & H2 & H3 & H4 & H5 & H6 & H7). exists a1.
  repeat (split; [done|]). intros b Hhb. rewrite (H7 b Hhb), <- (Hl b Hhb). by apply logical_ext.
Qed.

End properties.

(** A log of [n] blocks that starts at block 2, over [bio.c] on a disk in memory. *)
Definition sample_bufs : bst :=
  match binit (boot (Disk ∅ []) 1) with Ok (_, c) => c | _ => boot (Disk ∅ []) 1 end.

Definition sample_log (n : Z) : lst bst :=
  Lst 2 n 0 false 1 0 (replicate (Z.to_nat LOGSIZE) 0) sample_bufs.

#[local] Instance sample_driver : DiskDriver := memide_driver 1000.

(** Blocks [b ... b + k - 1] logged one after the other. *)
Fixpoint log_blocks (b : Z) (k : nat) : K (lst bst) unit :=
  match k with
  | O => mret tt
  | S k' =>
      i ← lift (bread 1 b); log_write i;; lift (brelse i);; log_blocks (b + 1) k'
  end.

(** With the log that [mkfs] makes, [LOGSIZE] blocks of which one is the
    header, the reservation is one block short: [begin_op] lets three operations
    start, and when they log ten blocks each, as [MAXOPBLOCKS] allows, the last
    [log_write] panics. *)
Theorem mkfs_log_is_one_block_short :
  (begin_op;; begin_op;; begin_op;; log_blocks 100 (3 * Z.to_nat MAXOPBLOCKS))
    (sample_log LOGSIZE) = Panic "too big a transaction".
Proof. vm_compute. reflexivity. Qed.

(** The same log with block 100 read. *)
Definition sample_held : lst bst :=
  match lift (bread 1 100) (sample_log (LOGSIZE + 1)) with Ok (_, s) => s | _ => sample_log 0 end.

Lemma begin_op_reserves_enough_witness :
  ∃ s', log_write 0 (set_ops 1 false sample_held) = Ok (tt, s').
Proof.
  apply (begin_op_reserves_enough sample_held (set_ops 1 false sample_held) [] ∅ [] 0 100
           (l_cache sample_held) (upd_bufs (alter (λ b, set_flags (Z.lor (b_flags b) B_DIRTY) b) 0%nat)
             (l_cache sample_held))).
  - by vm_compute.
  - by vm_compute.
  - by vm_compute.
  - by vm_compute.
  - apply rtc_once, step_begin. reflexivity.
  - by vm_compute.
  - vm_compute. reflexivity.
  - reflexivity.
Defined.

Lemma sample_serves c : 0 ≤ c < 1000 → bc_serves 1 c.
Proof. intros [_ ?]. by repeat split. Qed.

Lemma sample_abs : bc_abs sample_bufs (Cabs (dread (Disk ∅ [])) (Disk ∅ []) ∅ ∅).
Proof.
  destruct (binit_ok (Disk ∅ []) 1 (λ _ s, babs s (Cabs (dread (Disk ∅ [])) (Disk ∅ []) ∅ ∅)))
    as ([] & s & E & Hs); [done|]. unfold sample_bufs. by rewrite E.
Qed.

Lemma sample_inv o : log_inv 1 2 30 1000 (set_ops o false (sample_log 30))
                       (Cabs (dread (Disk ∅ [])) (Disk ∅ []) ∅ ∅).
Proof.
  split; try done; first [apply sample_abs | apply NoDup_nil_2 | apply Forall_nil_2
    | by apply bytes_ok_zeroes].
Qed.

Lemma end_op_is_crash_atomic_witness :
  runs (begin_op;; (i ← lift (bc_bread 1 100); lift (bc_store i [7]);; log_write i;; lift (bc_brelse i));;
        end_op)
    (λ _ s', l_n s' = 0 ∧ ∃ ws point, bs_disk (l_cache s') = writes (Disk ∅ []) ws ∧
       ∀ k s0, fresh 1 2 (writes (Disk ∅ []) (take k ws)) s0 →
         runs recover_from_log (λ _ s1, recovered 1 2 30 1000 s1
           (λ b, if decide (k ≤ point)%nat then zeroes BSIZE
                 else fupd (dread (Disk ∅ [])) (1, 100) [7] (1, b))) s0)
    (sample_log 30).
Proof.
  kstep. eapply begin_op_ok; [apply (sample_inv 0)|done|done|]. intros Hinv. kstep.
  eapply (update_block_ok 1 2 30 1000 ltac:(lia) ltac:(lia) ltac:(lia) sample_serves _ _ 100 [7] _ Hinv);
    [done|by intros k; right|unfold home; lia|done|done|done|vm_compute; lia|].
  intros s' a' Hinv' Hh Hc Hd Hv Ho Hcm.
  eapply runs_mono.
  { apply (end_op_is_crash_atomic 1 2 30 1000 ltac:(lia) ltac:(lia) ltac:(lia) sample_serves
             ltac:(vm_compute; lia) ltac:(vm_compute; lia) s' a' Hinv' Hh Hc Ho Hcm). }
  simpl. intros _ s2 (a2 & ws & point & Hi2 & Hn2 & _ & _ & Hk2 & Hrec). split; [done|].
  exists ws, point. split; [by rewrite (ba_disk _ _ (li_abs _ _ _ _ _ _ Hi2)), Hk2, Hd|].
  rewrite Hd, Hv in Hrec. exact Hrec.
Defined.

(** A disk that a crash left with a committed block. *)
Definition crashed_disk : disk :=
  Disk {[ (1, 2) := put32 (put32 (zeroes BSIZE) 0 1) 4 100; (1, 3) := [7] ]} [].

Definition crashed_bufs : bst :=
  match binit (boot crashed_disk 1) with Ok (_, c) => c | _ => boot crashed_disk 1 end.

Lemma recovery_survives_crashes_witness :
  runs recover_from_log
    (λ _ s', dread (bs_disk (l_cache s')) (1, 100) = [7])
    (Lst 2 30 0 false 1 0 (replicate (Z.to_nat LOGSIZE) 0) crashed_bufs).
Proof.
  eapply runs_mono.
  { apply (recovery_survives_crashes 1 2 30 1000 ltac:(lia) ltac:(lia) ltac:(lia) sample_serves
             ltac:(vm_compute; lia) crashed_disk).
    - lia.
    - do 3 (split; [done|]).
      destruct (binit_ok crashed_disk 1 (λ _ s, babs s (Cabs (dread crashed_disk) crashed_disk ∅ ∅)))
        as ([] & s & E & Hs); [done|]. simpl. unfold crashed_bufs. by rewrite E.
    - split.
      + apply bytes_ok_put32, bytes_ok_put32, bytes_ok_zeroes. done.
      + by vm_compute.
      + vm_compute. apply NoDup_singleton.
      + replace (hd_blocks _ _ _) with [100] by (vm_compute; reflexivity).
        apply Forall_singleton. unfold home. lia. }
  simpl. intros _ s' (a' & ws & Ha' & _ & (a2 & Ha2 & _ & _ & _ & _ & _ & Hrec) & _).
  rewrite (ba_disk _ _ Ha2), Hrec by (unfold home; lia). by vm_compute.
Defined.
