(* ===== verification/Trans.v ===== *)
(** * Blocks inside a transaction

    What [fs.c] relies on between [begin_op] and [end_op]: blocks are read into
    locked buffers, changed, logged and released.  [LogDisk] states it for one
    device; the log over any buffer cache provides it.  [mod] is the set of blocks
    that were changed and not logged yet; such a block must not be released. *)

From S2P Require Import Prelude Bytes Ide Bio Log.

Record labs := Labs {
  t_view : Z → list Z;          (* contents of the blocks of the device *)
  t_held : gmap Z nat;          (* buffers held *)
  t_mod : gset Z;               (* changed and not logged *)
  t_log : gset Z                (* blocks of the transaction *)
}.

Definition t_use (A : labs) : Z := Z.of_nat (size (t_held A)) + Z.of_nat (size (t_log A)).

Definition t_hold (A : labs) (f : gmap Z nat → gmap Z nat) : labs :=
  Labs (t_view A) (f (t_held A)) (t_mod A) (t_log A).
Definition t_store (A : labs) (b : Z) (d : list Z) : labs :=
  Labs (fupd (t_view A) b d) (t_held A) ({[b]} ∪ t_mod A) (t_log A).
Definition t_logged (A : labs) (b : Z) : labs :=
  Labs (t_view A) (t_held A) (t_mod A ∖ {[b]}) ({[b]} ∪ t_log A).

Class LogDisk (L : Type) := {
  ld_bread : Z → Z → K L nat;
  ld_data : nat → K L (list Z);
  ld_store : nat → list Z → K L unit;
  ld_log_write : nat → K L unit;
  ld_brelse : nat → K L unit;
  ld_dev : Z;
  ld_home : Z → Prop;
  ld_cap : Z;
  ld_abs : L → labs → Prop;
  ld_bread_spec l A b :
    ld_abs l A → ld_home b → t_held A !! b = None → t_use A < ld_cap →
    runs (ld_bread ld_dev b) (λ i l', ld_abs l' (t_hold A (<[b := i]>))) l;
  ld_data_spec l A b i :
    ld_abs l A → t_held A !! b = Some i →
    runs (ld_data i) (λ d l', l' = l ∧ d = t_view A b) l;
  ld_store_spec l A b i d :
    ld_abs l A → t_held A !! b = Some i →
    runs (ld_store i d) (λ _ l', ld_abs l' (t_store A b d)) l;
  ld_log_write_spec l A b i :
    ld_abs l A → ld_home b → t_held A !! b = Some i → t_use A ≤ ld_cap →
    runs (ld_log_write i) (λ _ l', ld_abs l' (t_logged A b)) l;
  ld_brelse_spec l A b i :
    ld_abs l A → t_held A !! b = Some i → b ∉ t_mod A →
    runs (ld_brelse i) (λ _ l', ld_abs l' (t_hold A (delete b))) l
}.

(** ** The log is such a disk *)

Section trans.
Context {C : Type} `{BufCache C}.
Context (dev start nlog dsize : Z).
Context (Hdsize : dsize ≤ 2 ^ 31) (Hstart : 0 ≤ start) (Hnlog : start + nlog ≤ dsize).
Context (Hserves : ∀ c, 0 ≤ c < dsize → bc_serves dev c).
Context (Hroom : (Z.to_nat nlog ≤ bc_size)%nat).

Definition trans_cap : Z := Z.min LOGSIZE (nlog - 1).

Record trans_ok (l : lst C) (A : labs) (a : cabs) : Prop := {
  tr_inv : log_inv dev start nlog dsize l a;
  tr_op : 1 ≤ l_outstanding l;
  tr_view b : a_view a (dev, b) = t_view A b;
  tr_held : a_held a = kmap (pair dev) (t_held A);
  tr_log : t_log A = list_to_set (lh_blocks l);
  tr_clean k : k ∈ a_dirty a ∨ (∃ b, k = (dev, b) ∧ b ∈ t_mod A) ∨
               a_view a k = dread (a_disk a) k
}.

Definition trans (l : lst C) (A : labs) : Prop := ∃ a, trans_ok l A a.

#[local] Instance pair_dev_inj : Inj (=) (=) (pair (B := Z) dev).
Proof. by intros ?? [= ->]. Qed.

Lemma size_list_log l a :
  log_inv dev start nlog dsize l a →
  Z.of_nat (size (list_to_set (lh_blocks l) : gset Z)) = l_n l.
Proof.
  intros Hi. rewrite size_list_to_set by apply (li_nodup _ _ _ _ _ _ Hi).
  unfold lh_blocks. rewrite length_take, (li_len _ _ _ _ _ _ Hi).
  pose proof (li_n _ _ _ _ _ _ Hi). lia.
Qed.

Lemma size_kmap (m : gmap Z nat) :
  size (dom (kmap (M2 := gmap (Z * Z)) (pair dev) m) : gset (Z * Z)) = size m.
Proof.
  rewrite (dom_kmap_L (D2 := gset (Z * Z)) (D := gset Z) (pair dev)). unfold set_map. rewrite size_list_to_set.
  - rewrite length_fmap. apply size_dom.
  - apply NoDup_fmap_2; [apply _|]. apply NoDup_elements.
Qed.

Lemma tr_lookup l A a b : trans_ok l A a → a_held a !! (dev, b) = t_held A !! b.
Proof. intros Ht. rewrite (tr_held _ _ _ Ht). apply (lookup_kmap (pair dev)). Qed.

Lemma trans_bread l A b :
  trans l A → home start nlog dsize b → t_held A !! b = None → t_use A < trans_cap →
  runs (lift (bc_bread dev b)) (λ i l', trans l' (t_hold A (<[b := i]>))) l.
Proof.
  intros [a Ht] Hb Hh Hu. pose proof (tr_inv _ _ _ Ht) as Hi. apply runs_lift. eapply runs_mono.
  { eapply bc_bread_spec; [apply (li_abs _ _ _ _ _ _ Hi)|apply Hserves, Hb|by rewrite (tr_lookup _ _ _ _ Ht)|].
    etrans; [apply size_add|]. unfold a_busy. rewrite size_union_alt.
    assert (size (a_dirty a ∖ dom (a_held a)) ≤ size (a_dirty a))%nat
      by (apply subseteq_size; set_solver).
    assert (Hsz : Z.of_nat (size (a_dirty a)) = Z.of_nat (size (t_log A))).
    { rewrite (tr_log _ _ _ Ht), (size_list_log _ _ Hi), (commit_size_dirty dev start nlog dsize l a) by done.
      pose proof (li_n _ _ _ _ _ _ Hi). lia. }
    rewrite (tr_held _ _ _ Ht), size_kmap in *. unfold t_use, trans_cap in Hu. lia. }
  intros i c Hc. exists (upd_held a (<[(dev, b) := i]>)). split; try apply Ht.
  - by eapply log_inv_cache.
  - simpl. by rewrite (tr_held _ _ _ Ht), (kmap_insert (pair dev)).
Qed.

Lemma trans_data l A b i :
  trans l A → t_held A !! b = Some i →
  runs (lift (bc_data i)) (λ d l', l' = l ∧ d = t_view A b) l.
Proof.
  intros [a Ht] Hh. apply runs_lift. eapply runs_mono.
  { eapply (bc_data_spec _ a (dev, b)); [apply (li_abs _ _ _ _ _ _ (tr_inv _ _ _ Ht))|].
    by rewrite (tr_lookup _ _ _ _ Ht). }
  intros d c [-> ->]. split; [by destruct l|]. apply (tr_view _ _ _ Ht).
Qed.

Lemma trans_store l A b i d :
  trans l A → t_held A !! b = Some i →
  runs (lift (bc_store i d)) (λ _ l', trans l' (t_store A b d)) l.
Proof.
  intros [a Ht] Hh. apply runs_lift. eapply runs_mono.
  { eapply (bc_store_spec _ a (dev, b)); [apply (li_abs _ _ _ _ _ _ (tr_inv _ _ _ Ht))|].
    by rewrite (tr_lookup _ _ _ _ Ht). }
  intros [] c Hc. exists (upd_view a (dev, b) d). split; try apply Ht.
  - eapply log_inv_cache; [apply (tr_inv _ _ _ Ht)|done..].
  - intros b'. simpl. unfold fupd. case_decide as Hd; case_decide; simplify_eq; try done.
    apply (tr_view _ _ _ Ht).
  - intros k. simpl. destruct (decide (k = (dev, b))) as [-> |Hk].
    + right. left. exists b. set_solver.
    + rewrite fupd_ne by done. destruct (tr_clean _ _ _ Ht k) as [?|[(b' & -> & ?)|?]]; [by left| |by right; right].
      right. left. exists b'. set_solver.
Qed.

Lemma trans_log_write l A b i :
  trans l A → home start nlog dsize b → t_held A !! b = Some i → t_use A ≤ trans_cap →
  runs (log_write i) (λ _ l', trans l' (t_logged A b)) l.
Proof.
  intros [a Ht] Hb Hh Hu. pose proof (tr_inv _ _ _ Ht) as Hi.
  assert (Hn : l_n l < trans_cap).
  { rewrite <- (size_list_log _ _ Hi), <- (tr_log _ _ _ Ht). unfold t_use in Hu.
    assert (size (t_held A) ≠ 0)%nat; [|lia]. intros E%map_size_empty_inv. by rewrite E in Hh. }
  unfold trans_cap in Hn.
  eapply log_write_ok; [done..|exact Hi|by rewrite (tr_lookup _ _ _ _ Ht)|done|
    apply (tr_op _ _ _ Ht)|lia|lia|].
  intros l' Hi' Ho _ Hlh. exists (upd_dirty a (union {[(dev, b)]})). split; try apply Ht; try done.
  - rewrite Ho. apply (tr_op _ _ _ Ht).
  - simpl. rewrite (tr_log _ _ _ Ht), Hlh. case_decide; [set_solver|].
    rewrite list_to_set_app_L. set_solver.
  - intros k. simpl. destruct (decide (k = (dev, b))) as [-> |Hk]; [left; set_solver|].
    destruct (tr_clean _ _ _ Ht k) as [?|[(b' & -> & ?)|?]]; [left; set_solver| |by right; right].
    right. left. exists b'. set_solver.
Qed.

Lemma trans_brelse l A b i :
  trans l A → t_held A !! b = Some i → b ∉ t_mod A →
  runs (lift (bc_brelse i)) (λ _ l', trans l' (t_hold A (delete b))) l.
Proof.
  intros [a Ht] Hh Hm. apply runs_lift. eapply runs_mono.
  { eapply (bc_brelse_spec _ a (dev, b)); [apply (li_abs _ _ _ _ _ _ (tr_inv _ _ _ Ht))| |].
    - by rewrite (tr_lookup _ _ _ _ Ht).
    - destruct (tr_clean _ _ _ Ht (dev, b)) as [?|[(b' & [= <-] & ?)|?]]; [by left|done|by right]. }
  intros [] c Hc. exists (upd_held a (delete (dev, b))). split; try apply Ht.
  - eapply log_inv_cache; [apply (tr_inv _ _ _ Ht)|done..].
  - simpl. by rewrite (tr_held _ _ _ Ht), (kmap_delete (pair dev)).
Qed.

(** The log over any buffer cache. *)
Definition log_disk : LogDisk (lst C) := {|
  ld_bread dev b := lift (bc_bread dev b);
  ld_data i := lift (bc_data i);
  ld_store i d := lift (bc_store i d);
  ld_log_write := log_write;
  ld_brelse i := lift (bc_brelse i);
  ld_dev := dev;
  ld_home := home start nlog dsize;
  ld_cap := trans_cap;
  ld_abs := trans;
  ld_bread_spec := trans_bread;
  ld_data_spec := trans_data;
  ld_store_spec := trans_store;
  ld_log_write_spec := trans_log_write;
  ld_brelse_spec := trans_brelse
|}.

End trans.
