(* ===== verification/Fs.v ===== *)
(** * File system: [xv6/fs.c], data structures and operations

    Block allocation, inodes, file contents, directories and path names, over any
    [LogDisk].  A buffer that C code reads from or writes to is a list of bytes:
    [readi] returns the bytes it copied out, [writei] takes the bytes to copy in.
    [devsw] is filled in at run time by the device drivers and is a parameter.

    The model follows one process.  [icache.lock] is held for the whole of each
    update of [ref], [dev] and [inum] and has no state here; the sleep lock of an
    inode does, and waiting for a locked inode does not return. *)

From S2P Require Import Prelude Bytes Log Trans.

Definition ROOTINO : Z := 1.
Definition ROOTDEV : Z := 1.
Definition NDIRECT : Z := 12.
Definition NINDIRECT : Z := BSIZE / 4.
Definition MAXFILE : Z := NDIRECT + NINDIRECT.
Definition BPB : Z := BSIZE * 8.
Definition DIRSIZ : Z := 14.
Definition NINODE : nat := 50.
Definition NDEV : Z := 10.
Definition T_DIR : Z := 1.
Definition T_FILE : Z := 2.
Definition T_DEV : Z := 3.

(** [sizeof(struct dinode)] and [sizeof(struct dirent)]. *)
Definition dinode_size : Z := 2 * 4 + 4 + 4 * (NDIRECT + 1).
Definition dirent_size : Z := 2 + DIRSIZ.
Definition IPB : Z := BSIZE / dinode_size.

Definition IBLOCK (i : Z) (sb : superblock) : Z := i / IPB + sb_inodestart sb.
Definition BBLOCK (b : Z) (sb : superblock) : Z := b / BPB + sb_bmapstart sb.

(** ** State *)

(** [struct inode]. *)
Record inode := Inode {
  i_dev : Z;
  i_inum : Z;
  i_ref : Z;
  i_locked : bool;          (* the sleep lock *)
  i_pid : Z;
  i_valid : bool;
  i_type : Z;
  i_major : Z;
  i_minor : Z;
  i_nlink : Z;
  i_size : Z;
  i_addrs : list Z
}.

#[global] Instance inode_inhabited : Inhabited inode :=
  populate (Inode 0 0 0 false 0 false 0 0 0 0 0 []).

Record fs (L : Type) := Fs {
  f_sb : superblock;
  f_inodes : list inode;    (* icache.inode *)
  f_pid : Z;                (* the running process *)
  f_cwd : nat;              (* its current directory, an entry of icache *)
  f_log : L
}.
Arguments Fs {L}. Arguments f_sb {L}. Arguments f_inodes {L}. Arguments f_pid {L}.
Arguments f_cwd {L}. Arguments f_log {L}.

(** Field updates. *)
Definition set_ref (r : Z) (i : inode) : inode :=
  Inode (i_dev i) (i_inum i) r (i_locked i) (i_pid i) (i_valid i) (i_type i) (i_major i)
        (i_minor i) (i_nlink i) (i_size i) (i_addrs i).
Definition set_ilock (l : bool) (p : Z) (i : inode) : inode :=
  Inode (i_dev i) (i_inum i) (i_ref i) l p (i_valid i) (i_type i) (i_major i)
        (i_minor i) (i_nlink i) (i_size i) (i_addrs i).
Definition set_valid (v : bool) (i : inode) : inode :=
  Inode (i_dev i) (i_inum i) (i_ref i) (i_locked i) (i_pid i) v (i_type i) (i_major i)
        (i_minor i) (i_nlink i) (i_size i) (i_addrs i).
Definition set_type (t : Z) (i : inode) : inode :=
  Inode (i_dev i) (i_inum i) (i_ref i) (i_locked i) (i_pid i) (i_valid i) t (i_major i)
        (i_minor i) (i_nlink i) (i_size i) (i_addrs i).
Definition set_nlink (n : Z) (i : inode) : inode :=
  Inode (i_dev i) (i_inum i) (i_ref i) (i_locked i) (i_pid i) (i_valid i) (i_type i) (i_major i)
        (i_minor i) n (i_size i) (i_addrs i).
Definition set_devno (major minor : Z) (i : inode) : inode :=
  Inode (i_dev i) (i_inum i) (i_ref i) (i_locked i) (i_pid i) (i_valid i) (i_type i) major
        minor (i_nlink i) (i_size i) (i_addrs i).
Definition set_size (n : Z) (i : inode) : inode :=
  Inode (i_dev i) (i_inum i) (i_ref i) (i_locked i) (i_pid i) (i_valid i) (i_type i) (i_major i)
        (i_minor i) (i_nlink i) n (i_addrs i).
Definition set_addr (k a : Z) (i : inode) : inode :=
  Inode (i_dev i) (i_inum i) (i_ref i) (i_locked i) (i_pid i) (i_valid i) (i_type i) (i_major i)
        (i_minor i) (i_nlink i) (i_size i) (<[Z.to_nat k := a]> (i_addrs i)).
Definition addr (k : Z) (i : inode) : Z := i_addrs i !!! Z.to_nat k.

(** ** The on-disk inode *)

(** Offset of inode [inum] in its block. *)
Definition dinode_off (inum : Z) : Z := (inum mod IPB) * dinode_size.

(** [memmove(dip->addrs, ip->addrs, sizeof(ip->addrs))]. *)
Fixpoint put_addrs (l : list Z) (off : Z) (d : list Z) : list Z :=
  match l with
  | [] => d
  | a :: l' => put_addrs l' (off + 4) (put32 d off a)
  end.

Definition get_addrs (d : list Z) (off : Z) : list Z :=
  (λ k, get32 d (off + 4 * Z.of_nat k)) <$> seq 0 (Z.to_nat (NDIRECT + 1)).

(** The stores of [iupdate] through [dip]. *)
Definition put_dinode (d : list Z) (off : Z) (ip : inode) : list Z :=
  let d := put16 d off (i_type ip) in
  let d := put16 d (off + 2) (i_major ip) in
  let d := put16 d (off + 4) (i_minor ip) in
  let d := put16 d (off + 6) (i_nlink ip) in
  let d := put32 d (off + 8) (i_size ip) in
  put_addrs (i_addrs ip) (off + 12) d.

(** The loads of [ilock] through [dip]. *)
Definition get_dinode (d : list Z) (off : Z) (ip : inode) : inode :=
  Inode (i_dev ip) (i_inum ip) (i_ref ip) (i_locked ip) (i_pid ip) (i_valid ip)
    (s16 (get16 d off)) (s16 (get16 d (off + 2))) (s16 (get16 d (off + 4)))
    (s16 (get16 d (off + 6))) (get32 d (off + 8)) (get_addrs d (off + 12)).

(** ** Operations *)

Section fs.
Context {L : Type} `{LogDisk L}.

(** [devsw[major].read] and [.write], absent while the pointer is null. *)
Context (devsw_read : Z → option (nat → Z → K (fs L) (Z * list Z))).
Context (devsw_write : Z → option (nat → list Z → Z → K (fs L) Z)).

Definition set_log (l : L) (s : fs L) : fs L := Fs (f_sb s) (f_inodes s) (f_pid s) (f_cwd s) l.
Definition set_inodes (ips : list inode) (s : fs L) : fs L :=
  Fs (f_sb s) ips (f_pid s) (f_cwd s) (f_log s).
Definition set_sb (sb : superblock) (s : fs L) : fs L :=
  Fs sb (f_inodes s) (f_pid s) (f_cwd s) (f_log s).

Definition flift {A} (m : K L A) : K (fs L) A := λ s,
  match m (f_log s) with
  | Ok (a, l) => Ok (a, set_log l s)
  | Panic msg => Panic msg
  | Hang => Hang
  end.

Definition bread (dev b : Z) : K (fs L) nat := flift (ld_bread dev b).
Definition bdata (i : nat) : K (fs L) (list Z) := flift (ld_data i).
Definition bstore (i : nat) (d : list Z) : K (fs L) unit := flift (ld_store i d).
Definition log_write (i : nat) : K (fs L) unit := flift (ld_log_write i).
Definition brelse (i : nat) : K (fs L) unit := flift (ld_brelse i).

(** [ip->...] read and changed. *)
Definition ip_get (ip : nat) : K (fs L) inode := kgets (λ s, f_inodes s !!! ip).
Definition ip_mod (ip : nat) (f : inode → inode) : K (fs L) unit :=
  kmod (λ s, set_inodes (alter f ip (f_inodes s)) s).

Definition fs_readsb (dev : Z) : K (fs L) superblock :=
  bp ← bread dev 1;
  d ← bdata bp;
  brelse bp;;
  mret (sb_of_bytes d).

Definition bzero (dev bno : Z) : K (fs L) unit :=
  bp ← bread dev bno;
  bstore bp (zeroes BSIZE);;
  log_write bp;;
  brelse bp.

(** [for(bi = 0; bi < BPB && b + bi < sb.size; bi++)] looking for a clear bit. *)
Fixpoint bit_scan (d : list Z) (b size bi : Z) (k : nat) : option Z :=
  match k with
  | O => None
  | S k' =>
      if b + bi <? size then
        let m := 1 ≪ (bi mod 8) in
        if Z.land (get8 d (bi / 8)) m =? 0 then Some bi else bit_scan d b size (bi + 1) k'
      else None
  end.

Fixpoint balloc_loop (dev b : Z) (k : nat) : K (fs L) Z :=
  match k with
  | O => khang
  | S k' =>
      s ← kget;
      if b <? sb_size (f_sb s) then
        bp ← bread dev (BBLOCK b (f_sb s));
        d ← bdata bp;
        match bit_scan d b (sb_size (f_sb s)) 0 (Z.to_nat BPB) with
        | Some bi =>
            let m := 1 ≪ (bi mod 8) in
            bstore bp (put8 d (bi / 8) (Z.lor (get8 d (bi / 8)) m));;
            log_write bp;;
            brelse bp;;
            bzero dev (b + bi);;
            mret (b + bi)
        | None => brelse bp;; balloc_loop dev (b + BPB) k'
        end
      else kpanic "balloc: out of blocks"
  end.

Definition balloc (dev : Z) : K (fs L) Z :=
  s ← kget;
  balloc_loop dev 0 (S (Z.to_nat (sb_size (f_sb s)))).

Definition bfree (dev b : Z) : K (fs L) unit :=
  s ← kget;
  bp ← bread dev (BBLOCK b (f_sb s));
  d ← bdata bp;
  let bi := b mod BPB in
  let m := 1 ≪ (bi mod 8) in
  kassert (negb (Z.land (get8 d (bi / 8)) m =? 0)) "freeing free block";;
  bstore bp (put8 d (bi / 8) (Z.land (get8 d (bi / 8)) (Z.lnot m)));;
  log_write bp;;
  brelse bp.

Definition iinit (dev : Z) : K (fs L) unit :=
  kmod (λ s, set_inodes (set_ilock false 0 <$> f_inodes s) s);;
  sb ← fs_readsb dev;
  kmod (set_sb sb).

(** The loop of [iget]: the entry that caches the inode, and the first free one
    seen before it. *)
Fixpoint iget_scan (ips : list inode) (dev inum : Z) (k : nat) (empty : option nat)
    : option nat * option nat :=
  match ips with
  | [] => (None, empty)
  | ip :: ips' =>
      if (0 <? i_ref ip) && (i_dev ip =? dev) && (i_inum ip =? inum) then (Some k, empty)
      else
        let empty := match empty with
                     | None => if i_ref ip =? 0 then Some k else None
                     | Some e => Some e
                     end in
        iget_scan ips' dev inum (S k) empty
  end.

Definition iget (dev inum : Z) : K (fs L) nat :=
  s ← kget;
  match iget_scan (f_inodes s) dev inum 0 None with
  | (Some k, _) => ip_mod k (λ i, set_ref (i_ref i + 1) i);; mret k
  | (None, Some k) =>
      ip_mod k (λ i, Inode dev inum 1 (i_locked i) (i_pid i) false (i_type i) (i_major i)
                       (i_minor i) (i_nlink i) (i_size i) (i_addrs i));;
      mret k
  | (None, None) => kpanic "iget: no inodes"
  end.

Definition idup (ip : nat) : K (fs L) nat :=
  ip_mod ip (λ i, set_ref (i_ref i + 1) i);;
  mret ip.

Fixpoint ialloc_loop (dev type inum : Z) (k : nat) : K (fs L) nat :=
  match k with
  | O => khang
  | S k' =>
      s ← kget;
      if inum <? sb_ninodes (f_sb s) then
        bp ← bread dev (IBLOCK inum (f_sb s));
        d ← bdata bp;
        let off := dinode_off inum in
        if s16 (get16 d off) =? 0 then
          bstore bp (put16 (splice d off (zeroes dinode_size)) off type);;
          log_write bp;;
          brelse bp;;
          iget dev inum
        else
          brelse bp;;
          ialloc_loop dev type (inum + 1) k'
      else kpanic "ialloc: no inodes"
  end.

Definition ialloc (dev type : Z) : K (fs L) nat :=
  s ← kget;
  ialloc_loop dev type 1 (S (Z.to_nat (sb_ninodes (f_sb s)))).

Definition iupdate (ip : nat) : K (fs L) unit :=
  s ← kget;
  i ← ip_get ip;
  bp ← bread (i_dev i) (IBLOCK (i_inum i) (f_sb s));
  d ← bdata bp;
  bstore bp (put_dinode d (dinode_off (i_inum i)) i);;
  log_write bp;;
  brelse bp.

Definition acquire_inode (ip : nat) : K (fs L) unit :=
  s ← kget;
  if i_locked (f_inodes s !!! ip) then khang else ip_mod ip (set_ilock true (f_pid s)).

Definition release_inode (ip : nat) : K (fs L) unit := ip_mod ip (set_ilock false 0).

Definition ilock (ip : nat) : K (fs L) unit :=
  i ← ip_get ip;
  kassert (negb (i_ref i <? 1)) "ilock";;
  acquire_inode ip;;
  i ← ip_get ip;
  if i_valid i then mret tt
  else
    s ← kget;
    bp ← bread (i_dev i) (IBLOCK (i_inum i) (f_sb s));
    d ← bdata bp;
    ip_mod ip (get_dinode d (dinode_off (i_inum i)));;
    brelse bp;;
    ip_mod ip (set_valid true);;
    i ← ip_get ip;
    kassert (negb (i_type i =? 0)) "ilock: no type".

Definition iunlock (ip : nat) : K (fs L) unit :=
  s ← kget;
  i ← ip_get ip;
  kassert (negb (negb (i_locked i && (i_pid i =? f_pid s)) || (i_ref i <? 1))) "iunlock";;
  release_inode ip.

(** The address of block [bn] of the file, allocated when it has none. *)
Definition bmap (ip : nat) (bn : Z) : K (fs L) Z :=
  i ← ip_get ip;
  if bn <? NDIRECT then
    if addr bn i =? 0 then
      a ← balloc (i_dev i);
      ip_mod ip (set_addr bn a);;
      mret a
    else mret (addr bn i)
  else
    let bn := bn - NDIRECT in
    if bn <? NINDIRECT then
      ind ← (if addr NDIRECT i =? 0 then
               a ← balloc (i_dev i);
               ip_mod ip (set_addr NDIRECT a);;
               mret a
             else mret (addr NDIRECT i));
      bp ← bread (i_dev i) ind;
      d ← bdata bp;
      a ← (if get32 d (4 * bn) =? 0 then
             a ← balloc (i_dev i);
             d ← bdata bp;
             bstore bp (put32 d (4 * bn) a);;
             log_write bp;;
             mret a
           else mret (get32 d (4 * bn)));
      brelse bp;;
      mret a
    else kpanic "bmap: out of range".

(** [for(i = 0; i < NDIRECT; i++)] of [itrunc]. *)
Fixpoint itrunc_direct (ip : nat) (j : Z) (k : nat) : K (fs L) unit :=
  match k with
  | O => mret tt
  | S k' =>
      i ← ip_get ip;
      (if negb (addr j i =? 0) then
         bfree (i_dev i) (addr j i);;
         ip_mod ip (set_addr j 0)
       else mret tt);;
      itrunc_direct ip (j + 1) k'
  end.

(** [for(j = 0; j < NINDIRECT; j++) if(a[j]) bfree(ip->dev, a[j]);] *)
Fixpoint itrunc_indirect (dev : Z) (bp : nat) (j : Z) (k : nat) : K (fs L) unit :=
  match k with
  | O => mret tt
  | S k' =>
      d ← bdata bp;
      (if negb (get32 d (4 * j) =? 0) then bfree dev (get32 d (4 * j)) else mret tt);;
      itrunc_indirect dev bp (j + 1) k'
  end.

Definition itrunc (ip : nat) : K (fs L) unit :=
  itrunc_direct ip 0 (Z.to_nat NDIRECT);;
  i ← ip_get ip;
  (if negb (addr NDIRECT i =? 0) then
     bp ← bread (i_dev i) (addr NDIRECT i);
     itrunc_indirect (i_dev i) bp 0 (Z.to_nat NINDIRECT);;
     brelse bp;;
     bfree (i_dev i) (addr NDIRECT i);;
     ip_mod ip (set_addr NDIRECT 0)
   else mret tt);;
  ip_mod ip (set_size 0);;
  iupdate ip.

Definition iput (ip : nat) : K (fs L) unit :=
  acquire_inode ip;;
  i ← ip_get ip;
  (if i_valid i && (i_nlink i =? 0) then
     if i_ref i =? 1 then
       itrunc ip;;
       ip_mod ip (set_type 0);;
       iupdate ip;;
       ip_mod ip (set_valid false)
     else mret tt
   else mret tt);;
  release_inode ip;;
  ip_mod ip (λ i, set_ref (i_ref i - 1) i).

Definition iunlockput (ip : nat) : K (fs L) unit := iunlock ip;; iput ip.

(** [struct stat]. *)
Record stat := Stat { st_type : Z; st_dev : Z; st_ino : Z; st_nlink : Z; st_size : Z }.

Definition stati (ip : nat) : K (fs L) stat :=
  i ← ip_get ip;
  mret (Stat (i_type i) (s32 (i_dev i)) (i_inum i) (i_nlink i) (i_size i)).

(** [for(tot=0; tot<n; tot+=m, off+=m, dst+=m)]; [fuel] bounds the rounds, each of
    which copies at least one byte. *)
Fixpoint readi_loop (fuel : nat) (ip : nat) (off n tot : Z) (dst : list Z) : K (fs L) (list Z) :=
  match fuel with
  | O => khang
  | S fuel' =>
      if tot <? n then
        i ← ip_get ip;
        a ← bmap ip (off / BSIZE);
        bp ← bread (i_dev i) a;
        let m := Z.min (n - tot) (BSIZE - off mod BSIZE) in
        d ← bdata bp;
        brelse bp;;
        readi_loop fuel' ip (off + m) n (tot + m) (dst ++ slice d (off mod BSIZE) m)
      else mret dst
  end.

Definition readi (ip : nat) (off n : Z) : K (fs L) (Z * list Z) :=
  i ← ip_get ip;
  if i_type i =? T_DEV then
    if (i_major i <? 0) || (NDEV <=? i_major i) then mret (-1, [])
    else match devsw_read (i_major i) with
         | None => mret (-1, [])
         | Some f => f ip n
         end
  else if (i_size i <? off) || (u32 (off + n) <? off) then mret (-1, [])
  else
    let n := if i_size i <? u32 (off + n) then i_size i - off else n in
    dst ← readi_loop (S (Z.to_nat n)) ip off n 0 [];
    mret (s32 n, dst).

Fixpoint writei_loop (fuel : nat) (ip : nat) (src : list Z) (off n tot : Z) : K (fs L) unit :=
  match fuel with
  | O => khang
  | S fuel' =>
      if tot <? n then
        i ← ip_get ip;
        a ← bmap ip (off / BSIZE);
        bp ← bread (i_dev i) a;
        let m := Z.min (n - tot) (BSIZE - off mod BSIZE) in
        d ← bdata bp;
        bstore bp (splice d (off mod BSIZE) (slice src tot m));;
        log_write bp;;
        brelse bp;;
        writei_loop fuel' ip src (off + m) n (tot + m)
      else mret tt
  end.

Definition writei (ip : nat) (src : list Z) (off n : Z) : K (fs L) Z :=
  i ← ip_get ip;
  if i_type i =? T_DEV then
    if (i_major i <? 0) || (NDEV <=? i_major i) then mret (-1)
    else match devsw_write (i_major i) with
         | None => mret (-1)
         | Some f => f ip src n
         end
  else if (i_size i <? off) || (u32 (off + n) <? off) then mret (-1)
  else if MAXFILE * BSIZE <? u32 (off + n) then mret (-1)
  else
    writei_loop (S (Z.to_nat n)) ip src off n 0;;
    i ← ip_get ip;
    (if (0 <? n) && (i_size i <? off + n) then
       ip_mod ip (set_size (off + n));;
       iupdate ip
     else mret tt);;
    mret (s32 n).

(** [strncmp] and [strncpy] of [string.c] on two byte buffers. *)
Fixpoint strncmp_bytes (n : nat) (p q : list Z) : Z :=
  match n with
  | O => 0
  | S n' =>
      if negb (hd 0 p =? 0) && (hd 0 p =? hd 0 q) then strncmp_bytes n' (tl p) (tl q)
      else hd 0 p - hd 0 q
  end.

Fixpoint strncpy_bytes (n : nat) (t : list Z) : list Z :=
  match n with
  | O => []
  | S n' => if hd 0 t =? 0 then replicate n 0 else hd 0 t :: strncpy_bytes n' (tl t)
  end.

Definition namecmp (s t : list Z) : Z := strncmp_bytes (Z.to_nat DIRSIZ) s t.

(** [struct dirent] in a buffer. *)
Definition de_inum (de : list Z) : Z := get16 de 0.
Definition de_name (de : list Z) : list Z := slice de 2 DIRSIZ.

(** [for(off = 0; off < dp->size; off += sizeof(de))] of [dirlookup]; returns the
    inode number and the offset of the entry. *)
Fixpoint dirlookup_loop (fuel : nat) (dp : nat) (name : list Z) (off : Z)
    : K (fs L) (option (Z * Z)) :=
  match fuel with
  | O => khang
  | S fuel' =>
      i ← ip_get dp;
      if off <? i_size i then
        '(r, de) ← readi dp off dirent_size;
        kassert (r =? dirent_size) "dirlookup read";;
        if de_inum de =? 0 then dirlookup_loop fuel' dp name (u32 (off + dirent_size))
        else if namecmp name (de_name de) =? 0 then mret (Some (de_inum de, off))
        else dirlookup_loop fuel' dp name (u32 (off + dirent_size))
      else mret None
  end.

(** The inode and [*poff]. *)
Definition dirlookup (dp : nat) (name : list Z) : K (fs L) (option (nat * Z)) :=
  i ← ip_get dp;
  kassert (i_type i =? T_DIR) "dirlookup not DIR";;
  r ← dirlookup_loop (S (Z.to_nat (i_size i))) dp name 0;
  match r with
  | Some (inum, off) => ip ← iget (i_dev i) inum; mret (Some (ip, off))
  | None => mret None
  end.

Fixpoint dirlink_loop (fuel : nat) (dp : nat) (off : Z) : K (fs L) Z :=
  match fuel with
  | O => khang
  | S fuel' =>
      i ← ip_get dp;
      if off <? i_size i then
        '(r, de) ← readi dp off dirent_size;
        kassert (r =? dirent_size) "dirlink read";;
        if de_inum de =? 0 then mret off else dirlink_loop fuel' dp (off + dirent_size)
      else mret off
  end.

Definition dirlink (dp : nat) (name : list Z) (inum : Z) : K (fs L) Z :=
  r ← dirlookup dp name;
  match r with
  | Some (ip, _) => iput ip;; mret (-1)
  | None =>
      i ← ip_get dp;
      off ← dirlink_loop (S (Z.to_nat (i_size i))) dp 0;
      let de := le16 inum ++ strncpy_bytes (Z.to_nat DIRSIZ) name in
      r ← writei dp de off dirent_size;
      kassert (r =? dirent_size) "dirlink";;
      mret 0
  end.

(** ** Path names: a C string is the list of its characters *)

Definition slash : Z := 47.

Fixpoint skip_slashes (path : list Z) : list Z :=
  match path with
  | c :: path' => if c =? slash then skip_slashes path' else path
  | [] => []
  end.

(** The loop that stops at a slash or at the end: the element and the rest. *)
Fixpoint path_elem (path : list Z) : list Z * list Z :=
  match path with
  | c :: path' =>
      if c =? slash then ([], path)
      else let '(e, rest) := path_elem path' in (c :: e, rest)
  | [] => ([], [])
  end.

(** The rest of the path and the contents of [name]. *)
Definition skipelem (path name : list Z) : option (list Z * list Z) :=
  match skip_slashes path with
  | [] => None
  | path =>
      let '(s, rest) := path_elem path in
      let len := Z.of_nat (length s) in
      let name := if DIRSIZ <=? len then splice name 0 (take (Z.to_nat DIRSIZ) s)
                  else splice (splice name 0 s) len [0] in
      Some (skip_slashes rest, name)
  end.

Fixpoint namex_loop (fuel : nat) (ip : nat) (path : list Z) (nameiparent : bool) (name : list Z)
    : K (fs L) (option nat * list Z) :=
  match fuel with
  | O => khang
  | S fuel' =>
      match skipelem path name with
      | None =>
          if nameiparent then iput ip;; mret (None, name) else mret (Some ip, name)
      | Some (path, name) =>
          ilock ip;;
          i ← ip_get ip;
          if negb (i_type i =? T_DIR) then iunlockput ip;; mret (None, name)
          else if nameiparent && (match path with [] => true | _ => false end) then
            iunlock ip;; mret (Some ip, name)
          else
            next ← dirlookup ip name;
            match next with
            | None => iunlockput ip;; mret (None, name)
            | Some (next, _) => iunlockput ip;; namex_loop fuel' next path nameiparent name
            end
      end
  end.

Definition namex (path : list Z) (nameiparent : bool) (name : list Z)
    : K (fs L) (option nat * list Z) :=
  s ← kget;
  ip ← (match path with
        | c :: _ => if c =? slash then iget ROOTDEV ROOTINO else idup (f_cwd s)
        | [] => idup (f_cwd s)
        end);
  namex_loop (S (length path)) ip path nameiparent name.

(** [char name[DIRSIZ]] on the stack, whose contents do not matter. *)
Definition namei (path : list Z) : K (fs L) (option nat) :=
  r ← namex path false (zeroes DIRSIZ);
  mret r.1.

Definition nameiparent (path name : list Z) : K (fs L) (option nat * list Z) :=
  namex path true name.

End fs.
