(* ===== verification/FsAlloc.v ===== *)
(** * File system: blocks and their allocation

    The rules by which the operations of [Fs] are verified against [LogDisk], the
    layout of the disk, and the free map: [balloc] and [bfree] of [xv6/fs.c]. *)

From S2P Require Import Prelude Bytes Log Trans Fs.

(** ** Layout *)

(** The areas that the superblock describes, in the order [mkfs] lays them out:
    inodes, free map, data. *)
Definition dstart (sb : superblock) : Z := sb_bmapstart sb + sb_size sb / BPB + 1.

Record layout `{LogDisk L} (sb : superblock) : Prop := {
  ly_inodes : 0 < sb_inodestart sb ∧ 0 ≤ sb_ninodes sb ∧
              sb_inodestart sb + sb_ninodes sb / IPB + 1 ≤ sb_bmapstart sb;
  ly_data : dstart sb ≤ sb_size sb;
  ly_size : 0 < sb_size sb ≤ 2 ^ 31;
  ly_home b : sb_inodestart sb ≤ b < sb_size sb → ld_home b
}.

(** A block of the data area. *)
Definition data (sb : superblock) (b : Z) : Prop := dstart sb ≤ b < sb_size sb.

(** The bit of block [b] in the free map. *)
Definition used (sb : superblock) (v : Z → list Z) (b : Z) : bool :=
  negb (Z.land (get8 (v (BBLOCK b sb)) ((b mod BPB) / 8)) (1 ≪ ((b mod BPB) mod 8)) =? 0).

(** The blocks are of the right size and the metadata is marked in use. *)
Record fs_ok (sb : superblock) (v : Z → list Z) : Prop := {
  fo_bytes b : sb_inodestart sb ≤ b < sb_size sb → bytes_ok BSIZE (v b);
  fo_meta b : 0 ≤ b < dstart sb → used sb v b = true
}.

(** The blocks of the free map. *)
Definition bitmap (sb : superblock) : gset Z :=
  list_to_set (seqZ (sb_bmapstart sb) (sb_size sb / BPB + 1)).

(** Blocks of the transaction, with the whole free map counted in. *)
Definition t_cost (sb : superblock) (A : labs) : Z :=
  Z.of_nat (size (t_held A)) + Z.of_nat (size (t_log A ∪ bitmap sb)).

(** Nothing changed is left unlogged, and what is held is in use. *)
Record quiet (sb : superblock) (A : labs) : Prop := {
  qt_mod : t_mod A = ∅;
  qt_held b i : t_held A !! b = Some i → data sb b ∧ used sb (t_view A) b = true
}.

(** ** Rules for the operations on blocks *)

Section rules.
Context {L : Type} `{LogDisk L}.
Implicit Types (s : fs L) (A : labs).

Lemma runs_flift {B} (m : K L B) (Q : B → fs L → Prop) s :
  runs m (λ x l, Q x (set_log l s)) (f_log s) → runs (flift m) Q s.
Proof. intros (x & l & E & HQ). exists x, (set_log l s). unfold flift. by rewrite E. Qed.

Lemma wp_bread s A b (Q : nat → fs L → Prop) :
  ld_abs (f_log s) A → ld_home b → t_held A !! b = None → t_use A < ld_cap →
  (∀ i l, ld_abs l (t_hold A (<[b := i]>)) → Q i (set_log l s)) → runs (bread ld_dev b) Q s.
Proof.
  intros HA Hb Hh Hu HQ. apply runs_flift. eapply runs_mono; [by eapply ld_bread_spec|]. auto.
Qed.

Lemma wp_bdata s A b i (Q : list Z → fs L → Prop) :
  ld_abs (f_log s) A → t_held A !! b = Some i → Q (t_view A b) s → runs (bdata i) Q s.
Proof.
  intros HA Hh HQ. apply runs_flift. eapply runs_mono; [by eapply ld_data_spec|].
  intros d l [-> ->]. by destruct s.
Qed.

Lemma wp_bstore s A b i d (Q : unit → fs L → Prop) :
  ld_abs (f_log s) A → t_held A !! b = Some i →
  (∀ l, ld_abs l (t_store A b d) → Q tt (set_log l s)) → runs (bstore i d) Q s.
Proof.
  intros HA Hh HQ. apply runs_flift. eapply runs_mono; [by eapply ld_store_spec|]. intros []. auto.
Qed.

Lemma wp_log_write s A b i (Q : unit → fs L → Prop) :
  ld_abs (f_log s) A → ld_home b → t_held A !! b = Some i → t_use A ≤ ld_cap →
  (∀ l, ld_abs l (t_logged A b) → Q tt (set_log l s)) → runs (log_write i) Q s.
Proof.
  intros HA Hb Hh Hu HQ. apply runs_flift. eapply runs_mono; [by eapply ld_log_write_spec|].
  intros []. auto.
Qed.

Lemma wp_brelse s A b i (Q : unit → fs L → Prop) :
  ld_abs (f_log s) A → t_held A !! b = Some i → b ∉ t_mod A →
  (∀ l, ld_abs l (t_hold A (delete b)) → Q tt (set_log l s)) → runs (brelse i) Q s.
Proof.
  intros HA Hh Hm HQ. apply runs_flift. eapply runs_mono; [by eapply ld_brelse_spec|].
  intros []. auto.
Qed.

Lemma t_hold_delete A b i : t_held A !! b = None →
  t_hold (t_hold A (<[b := i]>)) (delete b) = A.
Proof. intros Hb. unfold t_hold. simpl. rewrite delete_insert_id by done. by destruct A. Qed.

(** A block overwritten and logged. *)
Definition t_upd (A : labs) (b : Z) (d : list Z) : labs :=
  Labs (fupd (t_view A) b d) (t_held A) (t_mod A) ({[b]} ∪ t_log A).

Lemma size_insert_held A b i : t_held A !! b = None →
  t_use (t_hold A (<[b := i]>)) = t_use A + 1.
Proof. intros Hb. unfold t_use. simpl. rewrite map_size_insert_None by done. lia. Qed.

(** [bstore], [log_write] and [brelse] of a buffer just read. *)
Lemma wp_update {B} s A b i d (k : K (fs L) B) Q :
  ld_abs (f_log s) (t_hold A (<[b := i]>)) → ld_home b → t_held A !! b = None →
  t_mod A = ∅ → t_use A < ld_cap →
  (∀ l, ld_abs l (t_upd A b d) → runs k Q (set_log l s)) →
  runs (bstore i d;; log_write i;; brelse i;; k) Q s.
Proof.
  intros HA Hb Hh Hm Hu HQ. kstep. eapply wp_bstore; [exact HA|apply lookup_insert_eq|].
  intros l1 H1. kstep. eapply (wp_log_write _ _ b); [exact H1|done|apply lookup_insert_eq| |].
  { change (t_use (t_hold A (<[b := i]>)) ≤ ld_cap). rewrite size_insert_held by done. lia. }
  intros l2 H2. kstep. eapply (wp_brelse _ _ b); [exact H2|apply lookup_insert_eq|simpl; set_solver|].
  intros l3 H3. apply (HQ l3). unfold t_hold, t_logged, t_store in H3. simpl in H3.
  rewrite delete_insert_id in H3 by done. unfold t_upd.
  replace (({[b]} ∪ t_mod A) ∖ {[b]}) with (t_mod A) in H3; [done|]. rewrite Hm. set_solver.
Qed.

(** The same up to [bread], for code that ends there. *)
Lemma wp_update_last s A b i d (Q : unit → fs L → Prop) :
  ld_abs (f_log s) (t_hold A (<[b := i]>)) → ld_home b → t_held A !! b = None →
  t_mod A = ∅ → t_use A < ld_cap →
  (∀ l, ld_abs l (t_upd A b d) → Q tt (set_log l s)) →
  runs (bstore i d;; log_write i;; brelse i) Q s.
Proof.
  intros HA Hb Hh Hm Hu HQ.
  assert (Hr : runs (bstore i d;; log_write i;; brelse i;; mret tt) Q s)
    by (eapply wp_update; [done..|]; intros l Hl; kstep; by apply HQ).
  apply runs_bind_inv in Hr. kstep. eapply runs_mono; [exact Hr|].
  intros [] s1 Hr1%runs_bind_inv. kstep. eapply runs_mono; [exact Hr1|].
  intros [] s2 Hr2. by apply runs_ret_r.
Qed.

End rules.

(** ** Bits of the free map *)

Lemma land_bit x k : 0 ≤ k → negb (Z.land x (1 ≪ k) =? 0) = Z.testbit x k.
Proof.
  intros Hk. rewrite Z.shiftl_1_l, land_pow2 by done. destruct (Z.testbit x k); [|done]. apply negb_true_iff, Z.eqb_neq. lia.
Qed.

(** Setting or clearing one bit of a byte keeps it a byte. *)
Lemma lor_byte x k : 0 ≤ x < 2 ^ 8 → 0 ≤ k < 8 → 0 ≤ Z.lor x (1 ≪ k) < 2 ^ 8.
Proof.
  intros Hx Hk. rewrite Z.shiftl_1_l. split; [apply Z.lor_nonneg; lia|].
  destruct (decide (Z.lor x (2 ^ k) = 0)) as [-> |]; [lia|].
  apply Z.log2_lt_pow2; [assert (0 ≤ Z.lor x (2 ^ k)) by (apply Z.lor_nonneg; lia); lia|].
  rewrite Z.log2_lor by lia. rewrite Z.log2_pow2 by lia. apply Z.max_lub_lt; [|lia].
  destruct (decide (x = 0)) as [-> |]; [done|]. apply Z.log2_lt_pow2; lia.
Qed.

Lemma ldiff_byte x k : 0 ≤ x < 2 ^ 8 → 0 ≤ Z.land x (Z.lnot (1 ≪ k)) < 2 ^ 8.
Proof.
  intros Hx. set (y := Z.lnot _).
  assert (E : Z.land x y = Z.land x y mod 2 ^ 8).
  { rewrite <- Z.land_ones by lia.
    rewrite <- Z.land_assoc, (Z.land_comm y), Z.land_assoc, Z.land_ones, Z.mod_small by lia. done. }
  rewrite E. apply Z.mod_pos_bound. lia.
Qed.

Lemma used_testbit sb v b :
  used sb v b = Z.testbit (get8 (v (BBLOCK b sb)) ((b mod BPB) / 8)) ((b mod BPB) mod 8).
Proof. apply land_bit. apply Z.mod_pos_bound. lia. Qed.

(** The free map after a store to the byte of block [b] that changes its bit only. *)
Lemma used_put sb v b b' x :
  bytes_ok BSIZE (v (BBLOCK b sb)) → 0 ≤ x < 2 ^ 8 →
  (∀ k, 0 ≤ k < 8 → k ≠ (b mod BPB) mod 8 →
     Z.testbit x k = Z.testbit (get8 (v (BBLOCK b sb)) ((b mod BPB) / 8)) k) →
  used sb (fupd v (BBLOCK b sb) (put8 (v (BBLOCK b sb)) ((b mod BPB) / 8) x)) b' =
    if decide (b' = b) then Z.testbit x ((b mod BPB) mod 8) else used sb v b'.
Proof.
  intros [Hlen _] Hx Hbits. rewrite !used_testbit.
  assert (HB : BPB = 4096) by done. assert (HS : BSIZE = 512) by done.
  pose proof (Z.mod_pos_bound b BPB ltac:(lia)) as Hb.
  pose proof (Z.mod_pos_bound b' BPB ltac:(lia)) as Hb'.
  destruct (decide (BBLOCK b' sb = BBLOCK b sb)) as [E|E].
  2:{ rewrite fupd_ne by done. rewrite decide_False; [done|]. by intros ->. }
  rewrite E, fupd_eq. unfold put8. rewrite get8_splice; simpl; try lia.
  2-4: rewrite ?HB in *; try (apply Z.div_pos; lia).
  2:{ pose proof (Z.div_lt_upper_bound (b mod 4096) 8 512). lia. }
  destruct (decide (b' = b)) as [-> |Hne].
  - rewrite Z.leb_refl. replace (_ <? _) with true by (symmetry; apply Z.ltb_lt; lia). simpl.
    rewrite Z.sub_diag. unfold get8. simpl. by rewrite u8_small.
  - assert (Hm : b' mod BPB ≠ b mod BPB).
    { intros Em. apply Hne. unfold BBLOCK in E.
      rewrite (Z.div_mod b BPB), (Z.div_mod b' BPB) by lia. rewrite Em. lia. }
    bdestruct_all; simpl; try done.
    assert (Eq : (b' mod BPB) / 8 = (b mod BPB) / 8) by lia.
    rewrite Eq, Z.sub_diag. unfold get8 at 1. simpl. rewrite u8_small by done.
    rewrite Hbits; [done|apply Z.mod_pos_bound; lia|].
    intros Em. apply Hm. rewrite (Z.div_mod (b' mod BPB) 8), (Z.div_mod (b mod BPB) 8) by lia. lia.
Qed.

Lemma used_set sb v b b' :
  bytes_ok BSIZE (v (BBLOCK b sb)) →
  let d := v (BBLOCK b sb) in let j := (b mod BPB) / 8 in
  used sb (fupd v (BBLOCK b sb) (put8 d j (Z.lor (get8 d j) (1 ≪ ((b mod BPB) mod 8))))) b' =
    if decide (b' = b) then true else used sb v b'.
Proof.
  intros Hb d j. pose proof (Z.mod_pos_bound (b mod BPB) 8 ltac:(lia)) as Hk.
  unfold d, j. rewrite used_put; [|done|apply lor_byte; [by eapply get8_range|done]|].
  - case_decide; [|done]. rewrite Z.lor_spec, Z.shiftl_1_l, Z.pow2_bits_true by lia.
    apply orb_true_r.
  - intros k Hk' Hne. rewrite Z.lor_spec, Z.shiftl_1_l, Z.pow2_bits_false by done.
    apply orb_false_r.
Qed.

Lemma used_clear sb v b b' :
  bytes_ok BSIZE (v (BBLOCK b sb)) →
  let d := v (BBLOCK b sb) in let j := (b mod BPB) / 8 in
  used sb (fupd v (BBLOCK b sb) (put8 d j (Z.land (get8 d j) (Z.lnot (1 ≪ ((b mod BPB) mod 8)))))) b' =
    if decide (b' = b) then false else used sb v b'.
Proof.
  intros Hb d j. pose proof (Z.mod_pos_bound (b mod BPB) 8 ltac:(lia)) as Hk.
  unfold d, j. rewrite used_put; [|done|apply ldiff_byte; by eapply get8_range|].
  - case_decide; [|done].
    rewrite Z.land_spec, Z.lnot_spec, Z.shiftl_1_l, Z.pow2_bits_true by lia. apply andb_false_r.
  - intros k Hk' Hne. rewrite Z.land_spec, Z.lnot_spec, Z.shiftl_1_l, Z.pow2_bits_false by lia.
    apply andb_true_r.
Qed.

(** ** [balloc] and [bfree] *)

(** The state after block [c] was allocated. *)
Record alloced (sb : superblock) (A : labs) (c : Z) (A' : labs) : Prop := {
  al_data : data sb c;
  al_free : used sb (t_view A) c = false;
  al_used b : 0 ≤ b < sb_size sb →
    used sb (t_view A') b = if decide (b = c) then true else used sb (t_view A) b;
  al_zero : t_view A' c = zeroes BSIZE;
  al_frame x : x ≠ c → x ∉ bitmap sb → t_view A' x = t_view A x;
  al_ok : fs_ok sb (t_view A');
  al_held : t_held A' = t_held A;
  al_mod : t_mod A' = t_mod A;
  al_log : t_log A' ⊆ t_log A ∪ bitmap sb ∪ {[c]};
  al_logged : c ∈ t_log A'
}.

(** The state after block [c] was freed. *)
Record freed (sb : superblock) (A : labs) (c : Z) (A' : labs) : Prop := {
  fr_used b : 0 ≤ b < sb_size sb →
    used sb (t_view A') b = if decide (b = c) then false else used sb (t_view A) b;
  fr_frame x : x ∉ bitmap sb → t_view A' x = t_view A x;
  fr_ok : fs_ok sb (t_view A');
  fr_held : t_held A' = t_held A;
  fr_mod : t_mod A' = t_mod A;
  fr_log : t_log A' ⊆ t_log A ∪ bitmap sb
}.

Section alloc.
Context {L : Type} `{LogDisk L}.
Context (sb : superblock) (Hly : layout sb).
Implicit Types (s : fs L) (A : labs).

Lemma bblock_bitmap b : 0 ≤ b < sb_size sb → BBLOCK b sb ∈ bitmap sb.
Proof.
  intros Hb. unfold bitmap, BBLOCK. rewrite elem_of_list_to_set, elem_of_seqZ.
  assert (HB : BPB = 4096) by done. rewrite HB. pose proof (Z.div_pos b 4096).
  pose proof (Z.div_le_mono b (sb_size sb) 4096). lia.
Qed.

Lemma bitmap_range x : x ∈ bitmap sb → sb_bmapstart sb ≤ x < dstart sb.
Proof. unfold bitmap, dstart. rewrite elem_of_list_to_set, elem_of_seqZ. lia. Qed.

Lemma bitmap_home x : x ∈ bitmap sb →
  sb_inodestart sb ≤ x < sb_size sb ∧ ld_home x.
Proof.
  intros Hx%bitmap_range. pose proof (ly_inodes _ Hly). pose proof (ly_data _ Hly).
  assert (0 ≤ sb_ninodes sb / IPB) by (apply Z.div_pos; [lia|done]).
  split; [|apply (ly_home _ Hly)]; lia.
Qed.

Lemma data_not_bitmap b : data sb b → b ∉ bitmap sb.
Proof. intros [? ?] ?%bitmap_range. lia. Qed.

Lemma data_home b : data sb b → sb_inodestart sb ≤ b < sb_size sb ∧ ld_home b.
Proof.
  intros [Hb1 Hb2]. pose proof (ly_inodes _ Hly).
  assert (0 ≤ sb_ninodes sb / IPB) by (apply Z.div_pos; [lia|done]).
  assert (0 ≤ sb_size sb / BPB) by (pose proof (ly_size _ Hly); apply Z.div_pos; [lia|done]).
  unfold dstart in *. split; [|apply (ly_home _ Hly)]; lia.
Qed.

Lemma free_data v b : fs_ok sb v → 0 ≤ b < sb_size sb → used sb v b = false → data sb b.
Proof.
  intros Hok Hb Hu. split; [|lia]. destruct (decide (b < dstart sb)); [|lia].
  rewrite (fo_meta _ _ Hok) in Hu; [done|lia].
Qed.

Lemma quiet_not_held A b : quiet sb A → b ∈ bitmap sb ∨ used sb (t_view A) b = false →
  t_held A !! b = None.
Proof.
  intros Hq Hb. destruct (t_held A !! b) as [i|] eqn:E; [|done].
  destruct (qt_held _ _ Hq b i E) as [Hd Hu]. destruct Hb; [|congruence].
  by apply data_not_bitmap in Hd.
Qed.

Lemma block_of_bit b j : b mod BPB = 0 → 0 ≤ j < BPB →
  (b + j) mod BPB = j ∧ BBLOCK (b + j) sb = BBLOCK b sb.
Proof.
  assert (HB : BPB = 4096) by done. intros Hb Hj. unfold BBLOCK. split.
  - rewrite Z.add_mod, Hb, Z.add_0_l, Z.mod_mod by lia. apply Z.mod_small. lia.
  - apply Z.mod_divide in Hb as [c ->]; [|lia]. rewrite Z.div_mul, Z.div_add_l by lia.
    rewrite (Z.div_small j) by lia. lia.
Qed.

(** The map scanned from bit [bi] of block [BBLOCK b]. *)
Lemma bit_scan_ok v b size k : ∀ bi,
  b mod BPB = 0 → 0 ≤ bi → bi + Z.of_nat k ≤ BPB →
  match bit_scan (v (BBLOCK b sb)) b size bi k with
  | Some r => bi ≤ r < BPB ∧ b + r < size ∧ used sb v (b + r) = false ∧
              ∀ j, bi ≤ j < r → used sb v (b + j) = true
  | None => ∀ j, bi ≤ j < bi + Z.of_nat k → b + j < size → used sb v (b + j) = true
  end.
Proof.
  assert (HB : BPB = 4096) by done. assert (HS : BSIZE = 512) by done.
  intros bi Hb. revert bi. 
  assert (Hu : ∀ j, 0 ≤ j < BPB → used sb v (b + j) =
             negb (Z.land (get8 (v (BBLOCK b sb)) (j / 8)) (1 ≪ (j mod 8)) =? 0)).
  { intros j Hj. destruct (block_of_bit b j Hb Hj) as [Em Ed]. unfold used. by rewrite Em, Ed. }
  induction k as [|k IH]; intros bi Hbi Hk; cbn [bit_scan]; [intros; lia|].
  destruct (Z.ltb_spec (b + bi) size) as [Hlt|Hge]; [|intros; lia].
  specialize (Hu bi ltac:(lia)) as Hbit.
  destruct (Z.land _ _ =? 0) eqn:E; simpl in Hbit.
  - split; [lia|]. split; [lia|]. split; [by rewrite Hbit|]. intros; lia.
  - specialize (IH (bi + 1) ltac:(lia) ltac:(lia)). destruct (bit_scan _ _ _ _ _) as [r|].
    + destruct IH as (? & ? & ? & Hall). split; [lia|]. split; [lia|]. split; [done|].
      intros j Hj. destruct (decide (j = bi)) as [-> |]; [by rewrite Hbit|]. apply Hall. lia.
    + intros j Hj Hs. destruct (decide (j = bi)) as [-> |]; [by rewrite Hbit|]. apply IH; lia.
Qed.

Lemma t_use_cost A : t_use A ≤ t_cost sb A.
Proof.
  unfold t_use, t_cost. assert (size (t_log A) ≤ size (t_log A ∪ bitmap sb))%nat; [|lia].
  apply subseteq_size. set_solver.
Qed.

(** What a change of the log costs. *)
Lemma t_cost_le A A' X :
  t_held A' = t_held A → t_log A' ⊆ t_log A ∪ bitmap sb ∪ X →
  t_cost sb A' ≤ t_cost sb A + Z.of_nat (size X).
Proof.
  intros Hh Hl. unfold t_cost. rewrite Hh.
  assert (size (t_log A' ∪ bitmap sb) ≤ size (t_log A ∪ bitmap sb ∪ X))%nat
    by (apply subseteq_size; set_solver).
  assert (size (t_log A ∪ bitmap sb ∪ X) ≤ size (t_log A ∪ bitmap sb) + size X)%nat; [|lia].
  rewrite (size_union_alt (t_log A ∪ bitmap sb)).
  assert (size (X ∖ (t_log A ∪ bitmap sb)) ≤ size X)%nat; [|lia]. apply subseteq_size. set_solver.
Qed.

Lemma alloced_cost A c A' : alloced sb A c A' → t_cost sb A' ≤ t_cost sb A + 1.
Proof.
  intros Ha. pose proof (t_cost_le A A' {[c]} (al_held _ _ _ _ Ha) (al_log _ _ _ _ Ha)) as E.
  by rewrite size_singleton in E.
Qed.

Lemma alloced_quiet A c A' : alloced sb A c A' → quiet sb A → quiet sb A'.
Proof.
  intros Ha Hq. split; [rewrite (al_mod _ _ _ _ Ha); apply Hq|].
  intros b i. rewrite (al_held _ _ _ _ Ha). intros [Hd Hu]%(qt_held _ _ Hq). split; [done|].
  rewrite (al_used _ _ _ _ Ha); [by case_decide|].
  destruct (data_home _ Hd). pose proof (ly_inodes _ Hly). lia.
Qed.

Lemma used_frame v v' b :
  0 ≤ b < sb_size sb → (∀ x, x ∈ bitmap sb → v' x = v x) → used sb v' b = used sb v b.
Proof. intros Hb Hv. unfold used. by rewrite Hv by by apply bblock_bitmap. Qed.

Lemma fs_ok_frame v v' :
  fs_ok sb v → (∀ x, x ∈ bitmap sb → v' x = v x) →
  (∀ x, sb_inodestart sb ≤ x < sb_size sb → v' x = v x ∨ bytes_ok BSIZE (v' x)) → fs_ok sb v'.
Proof.
  intros Hok Hbm Hb. split.
  - intros x Hx. destruct (Hb x Hx) as [-> |]; [by apply (fo_bytes _ _ Hok)|done].
  - intros x Hx. rewrite (used_frame v); [by apply (fo_meta _ _ Hok)| |done].
    pose proof (ly_data _ Hly). lia.
Qed.

(** The map is a map still when its bits change. *)
Lemma fs_ok_bitmap v b x :
  fs_ok sb v → 0 ≤ b < sb_size sb → 0 ≤ x < 2 ^ 8 →
  let v' := fupd v (BBLOCK b sb) (put8 (v (BBLOCK b sb)) ((b mod BPB) / 8) x) in
  (∀ c, 0 ≤ c < dstart sb → used sb v c = true → used sb v' c = true) → fs_ok sb v'.
Proof.
  intros Hok Hb Hx v' Hm. split; [|intros c Hc; apply Hm, (fo_meta _ _ Hok); done].
  intros c Hc. unfold v'. destruct (decide (c = BBLOCK b sb)) as [-> |].
  - rewrite fupd_eq. by apply bytes_ok_put8, (fo_bytes _ _ Hok).
  - rewrite fupd_ne by done. by apply (fo_bytes _ _ Hok).
Qed.

Lemma alloced_intro A c :
  let d := t_view A (BBLOCK c sb) in let j := (c mod BPB) / 8 in
  let d' := put8 d j (Z.lor (get8 d j) (1 ≪ ((c mod BPB) mod 8))) in
  fs_ok sb (t_view A) → 0 ≤ c < sb_size sb → used sb (t_view A) c = false →
  alloced sb A c (t_upd (t_upd A (BBLOCK c sb) d') c (zeroes BSIZE)).
Proof.
  intros d j d' Hok Hc Hu. pose proof (free_data _ _ Hok Hc Hu) as Hd.
  pose proof (bblock_bitmap c Hc) as Hbm. pose proof (data_not_bitmap c Hd) as Hnb.
  assert (Hcb : c ≠ BBLOCK c sb) by (intros E; congruence).
  pose proof (bitmap_home _ Hbm) as [Hr _]. pose proof (fo_bytes _ _ Hok _ Hr) as Hb.
  set (v1 := fupd (t_view A) (BBLOCK c sb) d').
  assert (Hu1 : ∀ b, used sb v1 b = if decide (b = c) then true else used sb (t_view A) b)
    by (intros b; by apply used_set).
  assert (Hok1 : fs_ok sb v1).
  { unfold v1, d'. apply fs_ok_bitmap; [done|done| |].
    - apply lor_byte; [by eapply get8_range|apply Z.mod_pos_bound; lia].
    - intros b Hb'. fold d' v1. rewrite Hu1. by case_decide. }
  assert (Hbm2 : ∀ x, x ∈ bitmap sb → fupd v1 c (zeroes BSIZE) x = v1 x)
    by (intros x Hx; apply fupd_ne; by intros ->).
  split; simpl; fold v1; try done.
  - intros b Hb'. by rewrite (used_frame v1), Hu1.
  - by rewrite fupd_eq.
  - intros x Hx Hxb. rewrite fupd_ne by done. unfold v1. rewrite fupd_ne; [done|]. by intros ->.
  - apply (fs_ok_frame v1); [done|done|]. intros x _. destruct (decide (x = c)) as [-> |].
    + right. rewrite fupd_eq. by apply bytes_ok_zeroes.
    + left. by apply fupd_ne.
  - set_solver.
  - set_solver.
Qed.

Lemma bzero_ok s A b (Q : unit → fs L → Prop) :
  ld_abs (f_log s) A → ld_home b → t_held A !! b = None → t_mod A = ∅ → t_use A < ld_cap →
  (∀ l, ld_abs l (t_upd A b (zeroes BSIZE)) → Q tt (set_log l s)) → runs (bzero ld_dev b) Q s.
Proof.
  intros HA Hb Hh Hm Hu HQ. unfold bzero. kstep. eapply wp_bread; [done..|]. intros i l HA'.
  by eapply wp_update_last.
Qed.

Lemma balloc_loop_ok s A k : ∀ b (Q : Z → fs L → Prop),
  f_sb s = sb → ld_abs (f_log s) A → quiet sb A → fs_ok sb (t_view A) → t_cost sb A < ld_cap →
  b mod BPB = 0 → 0 ≤ b → sb_size sb - b < Z.of_nat k →
  (∀ c, 0 ≤ c < b → c < sb_size sb → used sb (t_view A) c = true) →
  (∃ c, 0 ≤ c < sb_size sb ∧ used sb (t_view A) c = false) →
  (∀ c l A', ld_abs l A' → alloced sb A c A' →
     (∀ c', 0 ≤ c' < c → used sb (t_view A) c' = true) → Q c (set_log l s)) →
  runs (balloc_loop ld_dev b k) Q s.
Proof.
  assert (HB : BPB = 4096) by done.
  induction k as [|k IH] in s |- *; intros b Q Hsb HA Hq Hok Hcost Hmod Hb0 Hfuel Hbelow Hex HQ.
  { destruct Hex as (c & Hc & Hu). rewrite Hbelow in Hu; [done|lia|lia]. }
  cbn [balloc_loop]. kstep. kstep. rewrite Hsb.
  destruct (Z.ltb_spec b (sb_size sb)) as [Hlt|Hge].
  2:{ exfalso. destruct Hex as (c & Hc & Hu). rewrite Hbelow in Hu; [done|lia|lia]. }
  pose proof (bblock_bitmap b ltac:(lia)) as Hbm. pose proof (bitmap_home _ Hbm) as [_ Hhome].
  pose proof (t_use_cost A) as Huse.
  assert (Hnh : t_held A !! BBLOCK b sb = None) by (eapply quiet_not_held; eauto).
  kstep. eapply wp_bread; [done..|lia|]. intros i l1 H1.
  kstep. eapply (wp_bdata _ _ (BBLOCK b sb)); [exact H1|apply lookup_insert_eq|]. cbn [t_hold t_view].
  pose proof (bit_scan_ok (t_view A) b (sb_size sb) (Z.to_nat BPB) 0 Hmod ltac:(lia) ltac:(lia)) as Hscan.
  destruct (bit_scan _ _ _ _ _) as [r|].
  - destruct Hscan as (Hr & Hrs & Hfree & Hall).
    destruct (block_of_bit b r Hmod ltac:(lia)) as [Em Ed].
    pose proof (alloced_intro A (b + r) Hok ltac:(lia) Hfree) as Hal. cbv zeta in Hal.
    rewrite Ed, Em in Hal. pose proof (data_home _ (al_data _ _ _ _ Hal)) as [_ Hhome2].
    eapply (wp_update _ A); [exact H1|done|done|apply (qt_mod _ _ Hq)|lia|]. intros l2 H2.
    kstep. eapply bzero_ok; [exact H2|done| |apply (qt_mod _ _ Hq)| |].
    + simpl. eapply quiet_not_held; eauto.
    + eapply Z.le_lt_trans; [|exact Hcost]. unfold t_use, t_cost. simpl.
      assert (size ({[BBLOCK b sb]} ∪ t_log A) ≤ size (t_log A ∪ bitmap sb))%nat; [|lia].
      apply subseteq_size. set_solver.
    + intros l3 H3. kstep. eapply HQ; [exact H3|exact Hal|].
      intros c' Hc'. destruct (decide (c' < b)); [apply Hbelow; lia|].
      replace c' with (b + (c' - b)) by lia. apply Hall. lia.
  - kstep. eapply (wp_brelse _ _ (BBLOCK b sb)); [exact H1|apply lookup_insert_eq| |].
    { simpl. rewrite (qt_mod _ _ Hq). set_solver. }
    intros l2 H2. rewrite t_hold_delete in H2 by done.
    apply (IH (set_log l2 (set_log l1 s)) (b + BPB)); try done; try lia.
    + rewrite Z.add_mod, Hmod, Z_mod_same_full by lia. done.
    + intros c Hc Hcs. destruct (decide (c < b)); [apply Hbelow; lia|].
      replace c with (b + (c - b)) by lia. apply Hscan; lia.
Qed.

Lemma balloc_ok s A (Q : Z → fs L → Prop) :
  f_sb s = sb → ld_abs (f_log s) A → quiet sb A → fs_ok sb (t_view A) → t_cost sb A < ld_cap →
  (∃ c, 0 ≤ c < sb_size sb ∧ used sb (t_view A) c = false) →
  (∀ c l A', ld_abs l A' → alloced sb A c A' →
     (∀ c', 0 ≤ c' < c → used sb (t_view A) c' = true) → Q c (set_log l s)) →
  runs (balloc ld_dev) Q s.
Proof.
  intros Hsb HA Hq Hok Hcost Hex HQ. unfold balloc. kstep. kstep. rewrite Hsb.
  pose proof (ly_size _ Hly). eapply balloc_loop_ok; try done; lia.
Qed.

Lemma bfree_ok s A c (Q : unit → fs L → Prop) :
  f_sb s = sb → ld_abs (f_log s) A → quiet sb A → fs_ok sb (t_view A) → t_cost sb A < ld_cap →
  data sb c → used sb (t_view A) c = true →
  (∀ l A', ld_abs l A' → freed sb A c A' → Q tt (set_log l s)) →
  runs (bfree ld_dev c) Q s.
Proof.
  intros Hsb HA Hq Hok Hcost Hd Hu HQ. pose proof (data_home _ Hd) as [Hcr _].
  pose proof (ly_inodes _ Hly) as Hin.
  pose proof (bblock_bitmap c ltac:(lia)) as Hbm. pose proof (bitmap_home _ Hbm) as [Hr Hhome].
  pose proof (t_use_cost A). unfold bfree. kstep. kstep. rewrite Hsb.
  assert (Hnh : t_held A !! BBLOCK c sb = None) by (eapply quiet_not_held; eauto).
  kstep. eapply wp_bread; [done..|lia|]. intros i l1 H1.
  kstep. eapply (wp_bdata _ _ (BBLOCK c sb)); [exact H1|apply lookup_insert_eq|]. cbn [t_hold t_view].
  kstep. kstep; [exact Hu|]. eapply (wp_update_last _ A); [exact H1|done|done|apply (qt_mod _ _ Hq)|lia|].
  intros l2 H2. eapply HQ; [exact H2|].
  pose proof (fo_bytes _ _ Hok _ Hr) as Hb.
  assert (Hu1 := λ b, used_clear sb (t_view A) c b Hb). cbv zeta in Hu1.
  split; simpl; try done.
  - intros x Hx. apply fupd_ne. by intros ->.
  - apply fs_ok_bitmap; [done|lia|apply ldiff_byte; by eapply get8_range|].
    intros b Hb' Hub. rewrite Hu1. case_decide; [|done]. subst. destruct Hd. lia.
  - set_solver.
Qed.

Lemma freed_quiet A c A' :
  freed sb A c A' → quiet sb A → t_held A !! c = None → quiet sb A'.
Proof.
  intros Hf Hq Hc. split; [rewrite (fr_mod _ _ _ _ Hf); apply Hq|].
  intros b i. rewrite (fr_held _ _ _ _ Hf). intros Hb. destruct (qt_held _ _ Hq b i Hb) as [Hd Hu].
  split; [done|]. rewrite (fr_used _ _ _ _ Hf).
  - rewrite decide_False; [done|]. intros ->. congruence.
  - destruct (data_home _ Hd). pose proof (ly_inodes _ Hly). lia.
Qed.

Lemma freed_cost A c A' : freed sb A c A' → t_cost sb A' ≤ t_cost sb A.
Proof.
  intros Hf. pose proof (t_cost_le A A' ∅ (fr_held _ _ _ _ Hf)) as E.
  rewrite size_empty in E. rewrite Z.add_0_r in E. apply E. pose proof (fr_log _ _ _ _ Hf). set_solver.
Qed.

End alloc.
