(* ===== verification/FsFile.v ===== *)
(** * File system: the contents of a file

    [bmap], [readi] and [writei] of [xv6/fs.c] against the bytes of a file.  A
    file's blocks are numbered by slots: 0 to 11 are the direct blocks, 12 is the
    indirect block, 13 to 140 the blocks listed in it. *)

From S2P Require Import Prelude Bytes Log Trans Fs FsAlloc.

Definition nslots : Z := NDIRECT + 1 + NINDIRECT.

Definition slot (v : Z → list Z) (i : inode) (k : Z) : Z :=
  if k <=? NDIRECT then addr k i
  else if addr NDIRECT i =? 0 then 0
  else get32 (v (addr NDIRECT i)) (4 * (k - NDIRECT - 1)).

(** The slot of block [bn] of the file. *)
Definition bslot (bn : Z) : Z := if bn <? NDIRECT then bn else bn + 1.

(** The byte of the file at offset [o]. *)
Definition fbyte (v : Z → list Z) (i : inode) (o : Z) : Z :=
  get8 (v (slot v i (bslot (o / BSIZE)))) (o mod BSIZE).

Definition fbytes (v : Z → list Z) (i : inode) (off n : Z) : list Z :=
  fbyte v i <$> seqZ off n.

(** An inode whose blocks are its own: allocated, and each in one slot. *)
Record iwf (sb : superblock) (v : Z → list Z) (i : inode) : Prop := {
  iw_len : length (i_addrs i) = Z.to_nat (NDIRECT + 1);
  iw_slot k : 0 ≤ k < nslots → slot v i k ≠ 0 →
              data sb (slot v i k) ∧ used sb v (slot v i k) = true;
  iw_inj k k' : 0 ≤ k < nslots → 0 ≤ k' < nslots → slot v i k ≠ 0 →
                slot v i k = slot v i k' → k = k'
}.

(** Every block below the size is there. *)
Record ifull (v : Z → list Z) (i : inode) : Prop := {
  if_size : 0 ≤ i_size i ≤ MAXFILE * BSIZE;
  if_slot bn : 0 ≤ bn → bn * BSIZE < i_size i → slot v i (bslot bn) ≠ 0
}.

(** At least [n] blocks are free. *)
Definition has_free (sb : superblock) (v : Z → list Z) (n : Z) : Prop :=
  ∃ X : gset Z, n ≤ Z.of_nat (size X) ∧
    ∀ c, c ∈ X → 0 ≤ c < sb_size sb ∧ used sb v c = false.

(** An inode with one more block: slot [k0] becomes block [c]. *)
Record grown (sb : superblock) (A : labs) (i : inode) (k0 c : Z) (A' : labs) (i' : inode) : Prop := {
  gr_old : slot (t_view A) i k0 = 0;
  gr_slot k : 0 ≤ k < nslots →
    slot (t_view A') i' k = if decide (k = k0) then c else slot (t_view A) i k;
  gr_data : data sb c;
  gr_free : used sb (t_view A) c = false;
  gr_used b : 0 ≤ b < sb_size sb →
    used sb (t_view A') b = if decide (b = c) then true else used sb (t_view A) b;
  gr_zero : t_view A' c = zeroes BSIZE;
  gr_frame x : x ∉ bitmap sb → x ≠ c → x ≠ slot (t_view A) i NDIRECT → t_view A' x = t_view A x;
  gr_ok : fs_ok sb (t_view A');
  gr_meta : ∃ l, length l = length (i_addrs i) ∧
    i' = Inode (i_dev i) (i_inum i) (i_ref i) (i_locked i) (i_pid i) (i_valid i) (i_type i)
               (i_major i) (i_minor i) (i_nlink i) (i_size i) l;
  gr_held : t_held A' = t_held A;
  gr_mod : t_mod A' = t_mod A;
  gr_log : t_log A' ⊆ t_log A ∪ bitmap sb ∪ {[c; slot (t_view A') i' NDIRECT]};
  gr_logged : c ∈ t_log A'
}.

Lemma data_pos `{LogDisk L} sb b : layout sb → data sb b → 0 < b < sb_size sb.
Proof. intros Hly Hd. destruct (data_home sb Hly b Hd). destruct Hd, Hly as [? ? ? ?]. unfold dstart in *.
  assert (0 ≤ sb_size sb / BPB) by (apply Z.div_pos; [lia|done]).
  assert (0 ≤ sb_ninodes sb / IPB) by (apply Z.div_pos; [lia|done]). lia. Qed.

(** ** Slots *)

Lemma addr_set_addr k a j i :
  0 ≤ k < Z.of_nat (length (i_addrs i)) → 0 ≤ j →
  addr j (set_addr k a i) = if decide (j = k) then a else addr j i.
Proof.
  intros Hk Hj. unfold addr, set_addr. simpl. case_decide.
  - subst. apply list_lookup_total_insert_eq. lia.
  - apply list_lookup_total_insert_ne. lia.
Qed.

Lemma bslot_range bn : 0 ≤ bn < MAXFILE → 0 ≤ bslot bn < nslots ∧ bslot bn ≠ NDIRECT.
Proof.
  intros Hbn. unfold bslot, nslots, MAXFILE in *. assert (NINDIRECT = 128) by done.
  assert (NDIRECT = 12) by done. bdestruct_all; lia.
Qed.

Lemma bslot_inj bn bn' : bslot bn = bslot bn' → bn = bn'.
Proof. unfold bslot. assert (NDIRECT = 12) by done. bdestruct_all; lia. Qed.

Section file.
Context {L : Type} `{LogDisk L}.
Context (sb : superblock) (Hly : layout sb).
Implicit Types (s : fs L) (A : labs) (i : inode).

Lemma iwf_ne_free A i k c :
  iwf sb (t_view A) i → 0 ≤ k < nslots → slot (t_view A) i k ≠ 0 →
  used sb (t_view A) c = false → slot (t_view A) i k ≠ c.
Proof. intros Hw Hk Hs Hu E. destruct (iw_slot _ _ _ Hw k Hk Hs) as [_ Hu']. congruence. Qed.

Lemma grown_iwf A i k0 c A' i' :
  0 ≤ k0 < nslots → iwf sb (t_view A) i → grown sb A i k0 c A' i' → iwf sb (t_view A') i'.
Proof.
  intros Hk0 Hw Hg. destruct (gr_meta _ _ _ _ _ _ _ Hg) as (l & Hl & Ei').
  split.
  - rewrite Ei'. simpl. rewrite Hl. apply (iw_len _ _ _ Hw).
  - intros k Hk. rewrite (gr_slot _ _ _ _ _ _ _ Hg) by done. case_decide as E.
    + intros _. pose proof (gr_data _ _ _ _ _ _ _ Hg) as Hd. split; [done|].
      rewrite (gr_used _ _ _ _ _ _ _ Hg); [by rewrite decide_True|].
      destruct (data_pos sb c Hly Hd). lia.
    + intros Hs. destruct (iw_slot _ _ _ Hw k Hk Hs) as [Hd Hu]. split; [done|].
      rewrite (gr_used _ _ _ _ _ _ _ Hg); [by case_decide|].
      destruct (data_pos sb _ Hly Hd). lia.
  - intros k k' Hk Hk'. rewrite !(gr_slot _ _ _ _ _ _ _ Hg) by done.
    pose proof (gr_free _ _ _ _ _ _ _ Hg) as Hf. pose proof (gr_data _ _ _ _ _ _ _ Hg) as Hd.
    destruct (data_pos sb c Hly Hd).
    repeat case_decide; subst; try done.
    + intros _ E. exfalso. apply (iwf_ne_free A i k' c); try done. rewrite <- E. lia.
    + intros ? E. exfalso. by apply (iwf_ne_free A i k c).
    + by apply (iw_inj _ _ _ Hw).
Qed.

(** The two ways a slot is filled: in the inode, and in the indirect block. *)
Lemma grown_addr A A' i k0 c :
  iwf sb (t_view A) i → 0 ≤ k0 ≤ NDIRECT → addr k0 i = 0 → alloced sb A c A' →
  grown sb A i k0 c A' (set_addr k0 c i).
Proof.
  intros Hw Hk0 Hz Hal. assert (HN : NDIRECT = 12) by done.
  assert (Hlen : Z.of_nat (length (i_addrs i)) = 13) by (by rewrite (iw_len _ _ _ Hw)).
  pose proof (al_data _ _ _ _ Hal) as Hd. destruct (data_pos sb c Hly Hd) as [Hc0 _].
  assert (Hind : addr NDIRECT i ≠ 0 → t_view A' (addr NDIRECT i) = t_view A (addr NDIRECT i)).
  { intros Hi. assert (E : slot (t_view A) i NDIRECT = addr NDIRECT i) by done.
    destruct (iw_slot _ _ _ Hw NDIRECT) as [Hdi Hui]; [done|by rewrite E|].
    apply (al_frame _ _ _ _ Hal); [|by apply data_not_bitmap].
    intros Ec. rewrite E, Ec, (al_free _ _ _ _ Hal) in Hui. done. }
  split; try apply Hal.
  - unfold slot. bdestruct_all; try done; lia.
  - intros k Hk. unfold slot. rewrite !addr_set_addr by lia.
    bdestruct_all; repeat case_decide; try done; try lia; try congruence.
    + unfold slot. subst. rewrite (al_zero _ _ _ _ Hal), get32_zeroes. done.
    + by rewrite Hind.
  - intros x Hx Hxc _. by apply (al_frame _ _ _ _ Hal).
  - exists (<[Z.to_nat k0 := c]> (i_addrs i)). split; [by rewrite length_insert|done].
  - etrans; [apply (al_log _ _ _ _ Hal)|]. set_solver.
Qed.

Lemma grown_entry A A1 i b j c :
  let ind := addr NDIRECT i in
  iwf sb (t_view A) i → fs_ok sb (t_view A) → 0 ≤ j < NINDIRECT → ind ≠ 0 →
  get32 (t_view A ind) (4 * j) = 0 → alloced sb (t_hold A (<[ind := b]>)) c A1 →
  grown sb A i (NDIRECT + 1 + j) c
    (Labs (fupd (t_view A1) ind (put32 (t_view A1 ind) (4 * j) c)) (t_held A) (t_mod A)
          ({[ind]} ∪ t_log A1)) i.
Proof.
  intros ind Hw Hok Hj Hind Hz Hal.
  assert (HN : NDIRECT = 12) by done. assert (HI : NINDIRECT = 128) by done.
  pose proof (al_data _ _ _ _ Hal) as Hd. destruct (data_pos sb c Hly Hd) as [Hc0 Hcs].
  pose proof (ly_size _ Hly). pose proof (al_free _ _ _ _ Hal) as Hf. simpl in Hf.
  destruct (iw_slot _ _ _ Hw NDIRECT) as [Hdi Hui]; [done|done|].
  change (slot (t_view A) i NDIRECT) with ind in Hdi, Hui.
  assert (Hci : ind ≠ c) by congruence.
  assert (Hnb : ind ∉ bitmap sb) by (by apply data_not_bitmap).
  assert (Hv1 : t_view A1 ind = t_view A ind) by (by apply (al_frame _ _ _ _ Hal)).
  assert (Hb : bytes_ok BSIZE (t_view A ind)) by (apply (fo_bytes _ _ Hok), (data_home sb Hly _ Hdi)).
  assert (Hlen : Z.of_nat (length (t_view A ind)) = 512) by (by destruct Hb).
  set (v2 := fupd _ _ _).
  assert (Hbm : ∀ x, x ∈ bitmap sb → v2 x = t_view A1 x)
    by (intros x Hx; apply fupd_ne; by intros ->).
  split; simpl; try done.
  - unfold slot. rewrite HN. bdestruct_all; try lia; try done.
    replace (4 * (12 + 1 + j - 12 - 1)) with (4 * j) by lia. done.
  - intros k Hk. unfold slot. fold ind. bdestruct_all; try lia; try done.
    + rewrite decide_False by lia. done.
    + unfold v2. rewrite fupd_eq, Hv1. case_decide.
      * subst k. replace (4 * (NDIRECT + 1 + j - NDIRECT - 1)) with (4 * j) by lia.
        rewrite get32_put32_eq by lia. apply u32_small. lia.
      * rewrite get32_put32_ne by lia. done.
  - intros x Hx. rewrite (used_frame sb (t_view A1)) by done. apply (al_used _ _ _ _ Hal). done.
  - unfold v2. rewrite fupd_ne by done. apply (al_zero _ _ _ _ Hal).
  - intros x Hx Hxc Hxi. unfold v2. rewrite fupd_ne by done. by apply (al_frame _ _ _ _ Hal).
  - apply (fs_ok_frame sb Hly (t_view A1)); [apply (al_ok _ _ _ _ Hal)|done|].
    intros x Hx. unfold v2. destruct (decide (x = ind)) as [-> |]; [right|left; by apply fupd_ne].
    rewrite fupd_eq, Hv1. by apply bytes_ok_put32.
  - exists (i_addrs i). split; [done|]. by destruct i.
  - pose proof (al_log _ _ _ _ Hal) as Hl. simpl in Hl.
    change (slot v2 i NDIRECT) with ind. set_solver.
  - pose proof (al_logged _ _ _ _ Hal). set_solver.
Qed.

(** A block added where there was none. *)
Record mapped A i bn A' i' (a : Z) : Prop := {
  mp_slot : slot (t_view A') i' (bslot bn) = a;
  mp_data : data sb a ∧ used sb (t_view A') a = true;
  mp_fresh : used sb (t_view A) a = false;
  mp_other k : 0 ≤ k < nslots → k ≠ bslot bn → slot (t_view A) i k ≠ 0 ∨ k ≠ NDIRECT →
    slot (t_view A') i' k = slot (t_view A) i k;
  mp_ind : slot (t_view A') i' NDIRECT ≠ slot (t_view A) i NDIRECT →
    used sb (t_view A) (slot (t_view A') i' NDIRECT) = false;
  mp_zero : t_view A' a = zeroes BSIZE;
  mp_frame x : x ∉ bitmap sb → (data sb x → used sb (t_view A) x = true) →
    x ≠ slot (t_view A) i NDIRECT → t_view A' x = t_view A x;
  mp_used b : 0 ≤ b < sb_size sb → used sb (t_view A) b = true → used sb (t_view A') b = true;
  mp_wf : iwf sb (t_view A') i';
  mp_ok : fs_ok sb (t_view A');
  mp_meta : ∃ l, i' = Inode (i_dev i) (i_inum i) (i_ref i) (i_locked i) (i_pid i) (i_valid i)
                        (i_type i) (i_major i) (i_minor i) (i_nlink i) (i_size i) l;
  mp_held : t_held A' = t_held A;
  mp_mod : t_mod A' = t_mod A;
  mp_cost : t_cost sb A' ≤ t_cost sb A + 2;
  mp_logged : a ∈ t_log A';
  mp_left n : has_free sb (t_view A) n → has_free sb (t_view A') (n - 2)
}.

Lemma has_free_grown A i k c A' i' n :
  grown sb A i k c A' i' → has_free sb (t_view A) n → has_free sb (t_view A') (n - 1).
Proof.
  intros Hg (X & Hn & HX). exists (X ∖ {[c]}). split.
  - assert (size X ≤ size (X ∖ {[c]}) + 1)%nat; [|lia].
    assert (size X ≤ size ((X ∖ {[c]}) ∪ {[c]}))%nat as E.
    { apply subseteq_size. intros x Hx. destruct (decide (x = c)); set_solver. }
    pose proof (size_add (X ∖ {[c]}) c). lia.
  - intros x [Hx Hxc%not_elem_of_singleton]%elem_of_difference. destruct (HX x Hx) as [Hr Hu].
    split; [done|]. rewrite (gr_used _ _ _ _ _ _ _ Hg) by done. by rewrite decide_False.
Qed.

Lemma grown_mapped A i bn c A' i' :
  0 ≤ bn < MAXFILE → iwf sb (t_view A) i → grown sb A i (bslot bn) c A' i' → mapped A i bn A' i' c.
Proof.
  intros Hbn Hw Hg. destruct (bslot_range bn Hbn) as [Hk Hkn]. assert (HN : NDIRECT = 12) by done.
  pose proof (gr_data _ _ _ _ _ _ _ Hg) as Hd. destruct (data_pos sb c Hly Hd) as [Hc0 Hcs].
  assert (Hi : slot (t_view A') i' NDIRECT = slot (t_view A) i NDIRECT).
  { rewrite (gr_slot _ _ _ _ _ _ _ Hg) by done. by rewrite decide_False. }
  split; try apply Hg.
  - rewrite (gr_slot _ _ _ _ _ _ _ Hg) by done. by rewrite decide_True.
  - split; [done|]. rewrite (gr_used _ _ _ _ _ _ _ Hg) by lia. by rewrite decide_True.
  - intros k Hk' Hne _. rewrite (gr_slot _ _ _ _ _ _ _ Hg) by done. by rewrite decide_False.
  - done.
  - intros x Hx Hu Hi'. apply (gr_frame _ _ _ _ _ _ _ Hg); [done| |done].
    intros ->. rewrite (gr_free _ _ _ _ _ _ _ Hg) in Hu. by specialize (Hu Hd).
  - intros b Hb Hu. rewrite (gr_used _ _ _ _ _ _ _ Hg) by done. by case_decide.
  - by eapply grown_iwf.
  - destruct (gr_meta _ _ _ _ _ _ _ Hg) as (l & _ & E). by exists l.
  - etrans; [apply (t_cost_le sb Hly A A' _ (gr_held _ _ _ _ _ _ _ Hg) (gr_log _ _ _ _ _ _ _ Hg))|].
    pose proof (size_pair c (slot (t_view A') i' NDIRECT)). lia.
  - intros n Hn. eapply has_free_grown in Hn; [|done]. destruct Hn as (X & ? & ?). exists X. split; [lia|done].
Qed.

Lemma grown_twice_mapped A i c1 A1 i1 bn c A' i' :
  NDIRECT ≤ bn < MAXFILE → iwf sb (t_view A) i → grown sb A i NDIRECT c1 A1 i1 →
  grown sb A1 i1 (bslot bn) c A' i' → mapped A i bn A' i' c.
Proof.
  intros Hbn Hw Hg1 Hg2. assert (HN : NDIRECT = 12) by done.
  assert (Hw1 : iwf sb (t_view A1) i1) by (by apply (grown_iwf A i NDIRECT c1)).
  destruct (bslot_range bn ltac:(lia)) as [Hk Hkn].
  destruct (grown_mapped A1 i1 bn c A' i' ltac:(lia) Hw1 Hg2) as [M1 M2 M3 M4 M5 M6 M7 M8 M9 M10 M11 M12 M13 _ M15 _].
  pose proof (gr_data _ _ _ _ _ _ _ Hg1) as Hd1. destruct (data_pos sb c1 Hly Hd1) as [Hc10 Hc1s].
  pose proof (gr_free _ _ _ _ _ _ _ Hg1) as Hf1. pose proof (gr_old _ _ _ _ _ _ _ Hg1) as Ho1.
  destruct M2 as [Hd Hu]. destruct (data_pos sb c Hly Hd) as [Hc0 Hcs].
  assert (Hi1 : slot (t_view A1) i1 NDIRECT = c1)
    by (rewrite (gr_slot _ _ _ _ _ _ _ Hg1) by done; by rewrite decide_True).
  assert (Hi' : slot (t_view A') i' NDIRECT = c1).
  { rewrite M4; [done|done|done|]. left. rewrite Hi1. lia. }
  assert (Hcc : used sb (t_view A) c = false ∧ c ≠ c1).
  { rewrite (gr_used _ _ _ _ _ _ _ Hg1) in M3 by lia. by case_decide. }
  split; try done.
  - tauto.
  - intros k Hk' Hne Hor. assert (Hk12 : k ≠ NDIRECT) by (destruct Hor; [by intros ->|done]).
    rewrite M4 by auto. rewrite (gr_slot _ _ _ _ _ _ _ Hg1) by done. by rewrite decide_False.
  - intros _. by rewrite Hi'.
  - intros x Hx Hux Hxi.
    assert (Hx1 : x ≠ c1) by (intros ->; rewrite Hf1 in Hux; by specialize (Hux Hd1)).
    rewrite M7; [by apply (gr_frame _ _ _ _ _ _ _ Hg1)|done| |by rewrite Hi1].
    intros Hdx. rewrite (gr_used _ _ _ _ _ _ _ Hg1); [rewrite decide_False by done; auto|].
    destruct (data_pos sb x Hly Hdx). lia.
  - intros b Hb Hub. apply M8; [done|]. rewrite (gr_used _ _ _ _ _ _ _ Hg1) by done. by case_decide.
  - destruct M11 as [l ->]. destruct (gr_meta _ _ _ _ _ _ _ Hg1) as (l1 & _ & ->). by exists l.
  - rewrite M12. apply (gr_held _ _ _ _ _ _ _ Hg1).
  - rewrite M13. apply (gr_mod _ _ _ _ _ _ _ Hg1).
  - etrans; [apply (t_cost_le sb Hly A A' {[c1; c]})|].
    + rewrite M12. apply (gr_held _ _ _ _ _ _ _ Hg1).
    + pose proof (gr_log _ _ _ _ _ _ _ Hg1) as L1. pose proof (gr_log _ _ _ _ _ _ _ Hg2) as L2.
      rewrite Hi1 in L1. rewrite Hi' in L2. clear -L1 L2. set_solver.
    + pose proof (size_pair c1 c). lia.
  - intros n Hn. eapply has_free_grown in Hn; [|exact Hg1]. eapply has_free_grown in Hn; [|exact Hg2].
    by replace (n - 2) with (n - 1 - 1) by lia.
Qed.

(** ** [bmap] *)

(** The state with the in-memory inode [ip] replaced. *)
Definition put_ip (ip : nat) (i : inode) (s : fs L) : fs L :=
  set_inodes (<[ip := i]> (f_inodes s)) s.

Lemma put_ip_id ip s : (ip < length (f_inodes s))%nat → put_ip ip (f_inodes s !!! ip) s = s.
Proof.
  intros Hip. unfold put_ip. rewrite list_insert_id; [by destruct s|].
  by apply list_lookup_lookup_total_lt.
Qed.

Lemma runs_ip_mod ip f s (Q : unit → fs L → Prop) :
  (ip < length (f_inodes s))%nat → Q tt (put_ip ip (f (f_inodes s !!! ip)) s) →
  runs (ip_mod ip f) Q s.
Proof.
  intros Hip HQ. unfold ip_mod. kstep. unfold put_ip in HQ.
  by rewrite (alter_insert_list f ip _ (f_inodes s !!! ip)) by (by apply list_lookup_lookup_total_lt).
Qed.

(** Reading a block that is there changes nothing. *)
Lemma bmap_read_ok s A ip i bn (Q : Z → fs L → Prop) :
  ld_abs (f_log s) A → f_inodes s !!! ip = i → i_dev i = ld_dev → 0 ≤ bn < MAXFILE →
  iwf sb (t_view A) i → t_held A = ∅ → t_mod A = ∅ → t_use A < ld_cap →
  slot (t_view A) i (bslot bn) ≠ 0 →
  (∀ l, ld_abs l A → Q (slot (t_view A) i (bslot bn)) (set_log l s)) →
  runs (bmap ip bn) Q s.
Proof.
  intros HA Hip Hdev Hbn Hw Hh Hm Hu Hs HQ. assert (HN : NDIRECT = 12) by done.
  assert (HI : NINDIRECT = 128) by done. unfold bmap. kstep. unfold ip_get. kstep. rewrite Hip.
  unfold bslot in Hs, HQ. destruct (Z.ltb_spec bn NDIRECT) as [Hlt|Hge].
  - unfold slot in Hs, HQ. replace (bn <=? NDIRECT) with true in Hs, HQ by (symmetry; apply Z.leb_le; lia).
    apply Z.eqb_neq in Hs as Hs'. rewrite Hs'. kstep. specialize (HQ _ HA).
    by destruct s.
  - replace (bn - NDIRECT <? NINDIRECT) with true
      by (symmetry; apply Z.ltb_lt; unfold MAXFILE in Hbn; lia).
    assert (E : slot (t_view A) i (bn + 1) = get32 (t_view A (addr NDIRECT i)) (4 * (bn - NDIRECT)) ∧
                addr NDIRECT i ≠ 0).
    { unfold slot in Hs |- *. bdestruct_all; try lia; try done. split; [|done]. f_equal. lia. }
    destruct E as [E Hi0]. apply Z.eqb_neq in Hi0 as Hi0'. rewrite Hi0'.
    destruct (iw_slot _ _ _ Hw NDIRECT) as [Hdi Hui]; [done|done|].
    change (slot (t_view A) i NDIRECT) with (addr NDIRECT i) in Hdi, Hui.
    kstep. kstep. kstep. rewrite Hdev.
    eapply wp_bread; [done|by apply (data_home sb Hly)|by rewrite Hh, lookup_empty|done|].
    intros b l1 H1. kstep. eapply (wp_bdata _ _ (addr NDIRECT i)); [exact H1|apply lookup_insert_eq|].
    cbn [t_hold t_view]. rewrite <- E. apply Z.eqb_neq in Hs as Hs'. rewrite Hs'.
    kstep. kstep. kstep.
    eapply (wp_brelse _ _ (addr NDIRECT i)); [exact H1|apply lookup_insert_eq|simpl; rewrite Hm; set_solver|].
    intros l2 H2. rewrite t_hold_delete in H2 by (by rewrite Hh, lookup_empty). kstep. by apply HQ.
Qed.

Lemma has_free_ex v n : 0 < n → has_free sb v n → ∃ c, 0 ≤ c < sb_size sb ∧ used sb v c = false.
Proof.
  intros Hn (X & Hs & HX). destruct (set_choose_or_empty X) as [[c Hc]|E]; [exists c; auto|].
  rewrite E, size_empty in Hs. lia.
Qed.

Lemma quiet_empty A : t_held A = ∅ → t_mod A = ∅ → quiet sb A.
Proof. intros Hh Hm. split; [done|]. intros b i. by rewrite Hh, lookup_empty. Qed.

Lemma t_cost_hold A b (n : nat) : t_held A !! b = None → t_cost sb (t_hold A (<[b := n]>)) = t_cost sb A + 1.
Proof. intros Hb. unfold t_cost. simpl. rewrite map_size_insert_None by done. lia. Qed.

(** The entry [j] of the indirect block filled, with that block read before. *)
Lemma bmap_entry_ok {B} s A i j b (k : Z → K (fs L) B) (Q : B → fs L → Prop) :
  let ind := addr NDIRECT i in
  f_sb s = sb → ld_abs (f_log s) (t_hold A (<[ind := b]>)) → iwf sb (t_view A) i →
  fs_ok sb (t_view A) → t_held A = ∅ → t_mod A = ∅ → t_cost sb A + 2 ≤ ld_cap →
  has_free sb (t_view A) 1 → 0 ≤ j < NINDIRECT → ind ≠ 0 → get32 (t_view A ind) (4 * j) = 0 →
  (∀ a l A', ld_abs l (t_hold A' (<[ind := b]>)) → t_held A' = ∅ → t_mod A' = ∅ →
     grown sb A i (NDIRECT + 1 + j) a A' i → runs (k a) Q (set_log l s)) →
  runs (a ← (a ← balloc ld_dev; d ← bdata b; bstore b (put32 d (4 * j) a);; log_write b;; mret a);
        k a) Q s.
Proof.
  intros ind Hsb HA Hw Hok Hh Hm Hcost Hfree Hj Hind Hz HQ.
  destruct (iw_slot _ _ _ Hw NDIRECT) as [Hdi Hui]; [done|done|].
  change (slot (t_view A) i NDIRECT) with ind in Hdi, Hui.
  assert (Hni : t_held A !! ind = None) by (by rewrite Hh, lookup_empty).
  kstep. kstep. eapply (balloc_ok sb Hly _ _ _ Hsb HA).
  - split; [done|]. intros x y. simpl. rewrite Hh.
    intros [[<- <-]|[_ E]]%lookup_insert_Some; [done|]. by rewrite lookup_empty in E.
  - done.
  - rewrite t_cost_hold by done. lia.
  - by apply has_free_ex in Hfree.
  - intros c l1 A1 H1 Hal _.
    pose proof (grown_entry A A1 i b j c Hw Hok Hj Hind Hz Hal) as Hg. fold ind in Hg.
    assert (Hh1 : t_held A1 = <[ind := b]> ∅) by (rewrite (al_held _ _ _ _ Hal); simpl; by rewrite Hh).
    assert (Hm1 : t_mod A1 = ∅) by (rewrite (al_mod _ _ _ _ Hal); done).
    kstep. eapply (wp_bdata _ A1 ind); [exact H1|by rewrite Hh1, lookup_insert_eq|].
    kstep. eapply (wp_bstore _ A1 ind); [exact H1|by rewrite Hh1, lookup_insert_eq|].
    intros l2 H2. kstep. eapply (wp_log_write _ _ ind); [exact H2|by apply (data_home sb Hly)| | |].
    { simpl. by rewrite Hh1, lookup_insert_eq. }
    { change (t_use A1 ≤ ld_cap). pose proof (t_use_cost sb Hly A1).
      pose proof (alloced_cost sb Hly _ _ _ Hal) as Hc. rewrite t_cost_hold in Hc by done. lia. }
    intros l3 H3. kstep. eapply HQ; [| | |exact Hg]; [|exact Hh|exact Hm].
    unfold t_hold, t_logged, t_store in H3 |- *. simpl in H3 |- *. rewrite Hh1, Hm1 in H3.
    rewrite Hh, Hm. replace (({[ind]} ∪ ∅) ∖ {[ind]} : gset Z) with (∅ : gset Z) in H3; [done|].
    set_solver.
Qed.

(** The part of [bmap] that reads the indirect block, when its entry is empty. *)
Lemma bmap_indirect_ok s A i j (Q : Z → fs L → Prop) :
  f_sb s = sb → ld_abs (f_log s) A → iwf sb (t_view A) i → fs_ok sb (t_view A) →
  t_held A = ∅ → t_mod A = ∅ → t_cost sb A + 2 ≤ ld_cap → has_free sb (t_view A) 1 →
  0 ≤ j < NINDIRECT → addr NDIRECT i ≠ 0 → get32 (t_view A (addr NDIRECT i)) (4 * j) = 0 →
  (∀ a l A', ld_abs l A' → grown sb A i (NDIRECT + 1 + j) a A' i → Q a (set_log l s)) →
  runs (bp ← bread ld_dev (addr NDIRECT i);
        d ← bdata bp;
        a ← (if get32 d (4 * j) =? 0 then
               a ← balloc ld_dev; d ← bdata bp;
               bstore bp (put32 d (4 * j) a);; log_write bp;; mret a
             else mret (get32 d (4 * j)));
        brelse bp;; mret a) Q s.
Proof.
  intros Hsb HA Hw Hok Hh Hm Hcost Hfree Hj Hind Hz HQ.
  destruct (iw_slot _ _ _ Hw NDIRECT) as [Hdi _]; [done|done|].
  change (slot (t_view A) i NDIRECT) with (addr NDIRECT i) in Hdi.
  pose proof (t_use_cost sb Hly A).
  kstep. eapply wp_bread; [done|by apply (data_home sb Hly)|by rewrite Hh, lookup_empty|lia|].
  intros b l1 H1. kstep.
  eapply (wp_bdata _ _ (addr NDIRECT i)); [exact H1|apply lookup_insert_eq|].
  cbn [t_hold t_view]. rewrite Hz. change (0 =? 0) with true. cbv iota.
  eapply (bmap_entry_ok _ A i); [exact Hsb|exact H1|done..|].
  intros a l2 A' H2 Hh' Hm' Hg. kstep.
  eapply (wp_brelse _ _ (addr NDIRECT i)); [exact H2|apply lookup_insert_eq|simpl; rewrite Hm'; set_solver|].
  intros l3 H3. rewrite t_hold_delete in H3 by (by rewrite Hh', lookup_empty). kstep. by eapply HQ.
Qed.

Lemma bmap_alloc_ok s A ip i bn (Q : Z → fs L → Prop) :
  f_sb s = sb → (ip < length (f_inodes s))%nat → ld_abs (f_log s) A → f_inodes s !!! ip = i →
  i_dev i = ld_dev → 0 ≤ bn < MAXFILE → iwf sb (t_view A) i → fs_ok sb (t_view A) →
  t_held A = ∅ → t_mod A = ∅ → t_cost sb A + 4 ≤ ld_cap → has_free sb (t_view A) 2 →
  slot (t_view A) i (bslot bn) = 0 →
  (∀ a l A' i', ld_abs l A' → mapped A i bn A' i' a → Q a (set_log l (put_ip ip i' s))) →
  runs (bmap ip bn) Q s.
Proof.
  intros Hsb Hlen HA Hip Hdev Hbn Hw Hok Hh Hm Hcost Hfree Hs HQ.
  assert (HN : NDIRECT = 12) by done. assert (HI : NINDIRECT = 128) by done.
  assert (Hq : quiet sb A) by (by apply quiet_empty).
  pose proof (has_free_ex _ 2 ltac:(lia) Hfree) as Hex.
  unfold bmap. kstep. unfold ip_get. kstep. rewrite Hip, Hdev. unfold bslot in Hs.
  destruct (Z.ltb_spec bn NDIRECT) as [Hlt|Hge].
  - assert (Ha0 : addr bn i = 0).
    { unfold slot in Hs. by replace (bn <=? NDIRECT) with true in Hs by (symmetry; apply Z.leb_le; lia). }
    rewrite Ha0. simpl. kstep. eapply (balloc_ok sb Hly _ _ _ Hsb HA Hq Hok); [lia|done|].
    intros c l A' HA' Hal _. kstep. apply runs_ip_mod; [done|]. kstep.
    cbn [set_log f_inodes]. rewrite Hip. apply (HQ c l A' (set_addr bn c i) HA').
    apply grown_mapped; [done|done|]. unfold bslot.
    replace (bn <? NDIRECT) with true by (symmetry; by apply Z.ltb_lt).
    apply grown_addr; [done|lia|done|done].
  - set (j := bn - NDIRECT). replace (j <? NINDIRECT) with true
      by (symmetry; apply Z.ltb_lt; unfold MAXFILE, j in *; lia).
    assert (Hj : 0 ≤ j < NINDIRECT) by (unfold MAXFILE, j in *; lia).
    assert (Ebn : bslot bn = NDIRECT + 1 + j) by (unfold bslot, j; bdestruct_all; lia).
    destruct (Z.eqb_spec (addr NDIRECT i) 0) as [Hi0|Hi0].
    + kstep. kstep. eapply (balloc_ok sb Hly _ _ _ Hsb HA Hq Hok); [lia|done|].
      intros c1 l1 A1 H1 Hal _. kstep. apply runs_ip_mod; [done|]. kstep.
      cbn [set_log f_inodes]. rewrite Hip.
      pose proof (grown_addr A A1 i NDIRECT c1 Hw ltac:(lia) Hi0 Hal) as Hg.
      assert (Hw1 := grown_iwf A i NDIRECT c1 _ _ ltac:(done) Hw Hg).
      assert (Ea : addr NDIRECT (set_addr NDIRECT c1 i) = c1).
      { rewrite addr_set_addr by (rewrite ?(iw_len _ _ _ Hw); lia). by rewrite decide_True. }
      rewrite <- Ea at 1. pose proof (alloced_cost sb Hly _ _ _ Hal).
      eapply (bmap_indirect_ok _ A1 (set_addr NDIRECT c1 i) j); try done.
      * apply (al_ok _ _ _ _ Hal).
      * by rewrite (al_held _ _ _ _ Hal).
      * by rewrite (al_mod _ _ _ _ Hal).
      * lia.
      * by eapply (has_free_grown _ _ _ _ _ _ 2) in Hfree.
      * rewrite Ea. destruct (data_pos sb c1 Hly (al_data _ _ _ _ Hal)). lia.
      * by rewrite Ea, (al_zero _ _ _ _ Hal), get32_zeroes.
      * intros a l A' H' Hg2. rewrite <- Ebn in Hg2.
        apply (HQ a l A' (set_addr NDIRECT c1 i) H'). eapply grown_twice_mapped; [lia|done|exact Hg|exact Hg2].
    + kstep. kstep. eapply (bmap_indirect_ok s A i j); try done; [lia| | |].
      * destruct Hfree as (X & ? & ?). exists X. split; [lia|done].
      * unfold slot in Hs. bdestruct_all; try lia; try done.
        rewrite <- Hs. f_equal. unfold j. lia.
      * intros a l A' H' Hg. rewrite <- Ebn in Hg. rewrite <- (put_ip_id ip s), Hip by done.
        apply (HQ a l A' i H'). by apply grown_mapped.
Qed.

(** ** [readi] *)

(** Bytes of one block of the file. *)
Lemma fbytes_block v i off m :
  0 ≤ off → 0 ≤ m → off mod BSIZE + m ≤ BSIZE →
  bytes_ok BSIZE (v (slot v i (bslot (off / BSIZE)))) →
  slice (v (slot v i (bslot (off / BSIZE)))) (off mod BSIZE) m = fbytes v i off m.
Proof.
  intros Ho Hm Hle [Hlen _]. assert (HS : BSIZE = 512) by done.
  pose proof (Z.mod_pos_bound off BSIZE ltac:(lia)).
  rewrite slice_seqZ by lia. unfold fbytes. apply list_eq. intros j. rewrite !list_lookup_fmap.
  destruct (decide (Z.of_nat j < m)).
  - rewrite !lookup_seqZ_lt by lia. simpl. unfold fbyte. f_equal.
    assert (E : (off + Z.of_nat j) / BSIZE = off / BSIZE ∧
                (off + Z.of_nat j) mod BSIZE = off mod BSIZE + Z.of_nat j).
    { rewrite (Z.div_mod off BSIZE) at 1 3 by lia. rewrite <- Z.add_assoc.
      split.
      - rewrite Z.add_comm, Z.mul_comm, Z.div_add by lia. rewrite (Z.div_small (off mod BSIZE + _)); lia.
      - rewrite Z.add_comm, Z.mul_comm, Z_mod_plus_full. apply Z.mod_small. lia. }
    by destruct E as [-> ->].
  - rewrite !lookup_seqZ_ge by lia. done.
Qed.

(** A range of the file given byte by byte. *)
Lemma fbytes_of v i off src :
  (∀ o, off ≤ o < off + Z.of_nat (length src) → fbyte v i o = get8 src (o - off)) →
  fbytes v i off (Z.of_nat (length src)) = src.
Proof.
  intros Hb. unfold fbytes. apply list_eq. intros m. rewrite list_lookup_fmap.
  destruct (src !! m) as [b|] eqn:Em.
  - pose proof (lookup_lt_Some _ _ _ Em). rewrite lookup_seqZ_lt by lia. simpl. rewrite Hb by lia.
    unfold get8. replace (Z.to_nat (off + Z.of_nat m - off)) with m by lia. by rewrite Em.
  - apply lookup_ge_None in Em. by rewrite lookup_seqZ_ge by lia.
Qed.

Lemma fbytes_app v i off m n :
  0 ≤ m → 0 ≤ n → fbytes v i off (m + n) = fbytes v i off m ++ fbytes v i (off + m) n.
Proof. intros. unfold fbytes. by rewrite seqZ_app, fmap_app by lia. Qed.

(** The chunk that one round of the loops copies. *)
Lemma chunk_bounds off n tot : 0 ≤ off → tot < n →
  let m := Z.min (n - tot) (BSIZE - off mod BSIZE) in
  0 < m ∧ tot + m ≤ n ∧ off mod BSIZE + m ≤ BSIZE ∧ 0 ≤ off mod BSIZE.
Proof.
  intros Ho Ht m. unfold m. assert (HS : BSIZE = 512) by done.
  pose proof (Z.mod_pos_bound off BSIZE ltac:(lia)). lia.
Qed.

Lemma block_range v i off : ifull v i → 0 ≤ off < i_size i →
  0 ≤ off / BSIZE < MAXFILE ∧ slot v i (bslot (off / BSIZE)) ≠ 0.
Proof.
  intros [Hsz Hs] Ho. assert (HS : BSIZE = 512) by done.
  assert (0 ≤ off / BSIZE) by (apply Z.div_pos; lia).
  assert (off / BSIZE < MAXFILE) by (apply Z.div_lt_upper_bound; lia).
  split; [lia|]. apply Hs; [done|]. pose proof (Z.mul_div_le off BSIZE). lia.
Qed.

Lemma readi_loop_ok fuel : ∀ s A ip i off n tot dst (Q : list Z → fs L → Prop),
  ld_abs (f_log s) A → f_inodes s !!! ip = i → i_dev i = ld_dev →
  iwf sb (t_view A) i → ifull (t_view A) i → fs_ok sb (t_view A) →
  t_held A = ∅ → t_mod A = ∅ → t_use A < ld_cap →
  0 ≤ off → tot ≤ n → off + (n - tot) ≤ i_size i → n - tot < Z.of_nat fuel →
  (∀ l, ld_abs l A → Q (dst ++ fbytes (t_view A) i off (n - tot)) (set_log l s)) →
  runs (readi_loop fuel ip off n tot dst) Q s.
Proof.
  induction fuel as [|fuel IH];
    intros s A ip i off n tot dst Q HA Hip Hdev Hw Hf Hok Hh Hm Hu Ho Ht Hsz Hfu HQ; [lia|].
  cbn [readi_loop]. destruct (Z.ltb_spec tot n) as [Hlt|Hge].
  - pose proof (chunk_bounds off n tot Ho Hlt) as Hc. cbv zeta in Hc. set (m := Z.min _ _) in *.
    destruct (block_range _ _ off Hf ltac:(lia)) as [Hbn Hs].
    destruct (iw_slot _ _ _ Hw _ (proj1 (bslot_range _ Hbn)) Hs) as [Hd Hus].
    destruct (data_home sb Hly _ Hd) as [Hr Hhome].
    kstep. unfold ip_get. kstep. rewrite Hip.
    kstep. eapply bmap_read_ok; [done..|]. intros l1 H1.
    kstep. rewrite Hdev. eapply wp_bread; [exact H1|done|by rewrite Hh, lookup_empty|done|].
    intros b l2 H2. kstep. eapply wp_bdata; [exact H2|apply lookup_insert_eq|]. cbn [t_hold t_view].
    kstep. eapply wp_brelse; [exact H2|apply lookup_insert_eq|simpl; rewrite Hm; set_solver|].
    intros l3 H3. rewrite t_hold_delete in H3 by (by rewrite Hh, lookup_empty).
    eapply (IH _ A); try done; [lia|lia|lia|lia|].
    intros l4 H4. specialize (HQ l4 H4). rewrite fbytes_block by
      (try lia; by apply (fo_bytes _ _ Hok)).
    rewrite <- app_assoc. replace (n - tot) with (m + (n - (tot + m))) in HQ by lia.
    rewrite fbytes_app in HQ by lia. done.
  - kstep. replace (n - tot) with 0 in HQ by lia. specialize (HQ _ HA). unfold fbytes in HQ.
    simpl in HQ. rewrite app_nil_r in HQ. by destruct s.
Qed.

Lemma readi_ok (dr : Z → option (nat → Z → K (fs L) (Z * list Z))) s A ip i off n (Q : Z * list Z → fs L → Prop) :
  ld_abs (f_log s) A → f_inodes s !!! ip = i → i_dev i = ld_dev → i_type i ≠ T_DEV →
  iwf sb (t_view A) i → ifull (t_view A) i → fs_ok sb (t_view A) →
  t_held A = ∅ → t_mod A = ∅ → t_use A < ld_cap →
  0 ≤ off ≤ i_size i → 0 ≤ n → off + n < 2 ^ 32 →
  (∀ l, ld_abs l A → let m := Z.min n (i_size i - off) in
     Q (m, fbytes (t_view A) i off m) (set_log l s)) →
  runs (readi dr ip off n) Q s.
Proof.
  intros HA Hip Hdev Hty Hw Hf Hok Hh Hm Hu Ho Hn Hov HQ. pose proof (if_size _ _ Hf) as Hsz.
  assert (HM : MAXFILE * BSIZE = 71680) by done.
  unfold readi. kstep. unfold ip_get. kstep. rewrite Hip.
  apply Z.eqb_neq in Hty. rewrite Hty. rewrite u32_small by lia.
  replace (i_size i <? off) with false by (symmetry; apply Z.ltb_ge; lia).
  replace (off + n <? off) with false by (symmetry; apply Z.ltb_ge; lia). cbn [orb].
  set (k := if i_size i <? off + n then i_size i - off else n).
  assert (Ek : k = Z.min n (i_size i - off)) by (unfold k; bdestruct_all; lia).
  clearbody k. subst k. kstep. eapply readi_loop_ok; try done; try lia.
  intros l Hl. rewrite Z.sub_0_r. simpl. kstep. rewrite s32_small by lia. by apply HQ.
Qed.

(** ** [writei] *)

(** Block [bn] of the file replaced by [d], allocated if it was not there. *)
Record wrote A i bn (d : list Z) A' i' : Prop := {
  wr_slot : slot (t_view A') i' (bslot bn) ≠ 0;
  wr_block : t_view A' (slot (t_view A') i' (bslot bn)) = d;
  wr_other bn' : 0 ≤ bn' < MAXFILE → bn' ≠ bn → slot (t_view A) i (bslot bn') ≠ 0 →
    slot (t_view A') i' (bslot bn') ≠ 0 ∧
    t_view A' (slot (t_view A') i' (bslot bn')) = t_view A (slot (t_view A) i (bslot bn'));
  wr_same : slot (t_view A) i (bslot bn) ≠ 0 → i' = i;
  wr_slots k : 0 ≤ k < nslots → slot (t_view A') i' k ≠ 0 →
    slot (t_view A') i' k = slot (t_view A) i k ∨ used sb (t_view A) (slot (t_view A') i' k) = false;
  wr_used b : 0 ≤ b < sb_size sb → used sb (t_view A) b = true → used sb (t_view A') b = true;
  wr_frame x : x ∉ bitmap sb → (data sb x → used sb (t_view A) x = true) →
    (∀ k, 0 ≤ k < nslots → slot (t_view A) i k ≠ x) → t_view A' x = t_view A x;
  wr_wf : iwf sb (t_view A') i';
  wr_ok : fs_ok sb (t_view A');
  wr_meta : ∃ l, i' = Inode (i_dev i) (i_inum i) (i_ref i) (i_locked i) (i_pid i) (i_valid i)
                        (i_type i) (i_major i) (i_minor i) (i_nlink i) (i_size i) l;
  wr_held : t_held A' = t_held A;
  wr_mod : t_mod A' = t_mod A;
  wr_cost : t_cost sb A' ≤ t_cost sb A + 2;
  wr_left n : has_free sb (t_view A) n → has_free sb (t_view A') (n - 2)
}.

(** Storing to a data block of the file moves no block. *)
Lemma slot_store v i bn d k :
  iwf sb v i → 0 ≤ bn < MAXFILE → slot v i (bslot bn) ≠ 0 → 0 ≤ k < nslots →
  slot (fupd v (slot v i (bslot bn)) d) i k = slot v i k.
Proof.
  intros Hw Hbn Hs Hk. destruct (bslot_range bn Hbn) as [Hb Hne]. unfold slot at 1 3.
  destruct (k <=? NDIRECT); [done|]. destruct (Z.eqb_spec (addr NDIRECT i) 0) as [|Hi]; [done|].
  rewrite fupd_ne; [done|]. change (addr NDIRECT i) with (slot v i NDIRECT).
  intros E. apply Hne. symmetry. by apply (iw_inj _ _ _ Hw).
Qed.

Lemma iwf_store v i bn d :
  iwf sb v i → 0 ≤ bn < MAXFILE → slot v i (bslot bn) ≠ 0 →
  iwf sb (fupd v (slot v i (bslot bn)) d) i.
Proof.
  intros Hw Hbn Hs. destruct (bslot_range bn Hbn) as [Hb Hne].
  destruct (iw_slot _ _ _ Hw _ Hb Hs) as [Hda _].
  assert (Hu : ∀ b, data sb b → used sb (fupd v (slot v i (bslot bn)) d) b = used sb v b).
  { intros b Hd. apply used_frame; [destruct (data_pos sb b Hly Hd); lia|].
    intros x Hx. apply fupd_ne. intros ->. by apply data_not_bitmap in Hda. }
  split; [apply (iw_len _ _ _ Hw)|..].
  - intros k Hk. rewrite slot_store by done. intros Hn.
    destruct (iw_slot _ _ _ Hw k Hk Hn) as [Hd Hu']. split; [done|]. by rewrite Hu.
  - intros k k' Hk Hk'. rewrite !slot_store by done. by apply (iw_inj _ _ _ Hw).
Qed.

(** The last step: the block is there, and is overwritten. *)
Lemma wrote_store A i bn d :
  iwf sb (t_view A) i → fs_ok sb (t_view A) → 0 ≤ bn < MAXFILE → bytes_ok BSIZE d →
  slot (t_view A) i (bslot bn) ≠ 0 →
  wrote A i bn d (t_upd A (slot (t_view A) i (bslot bn)) d) i.
Proof.
  intros Hw Hok Hbn Hd Hs. destruct (bslot_range bn Hbn) as [Hb Hne].
  set (a := slot (t_view A) i (bslot bn)) in *.
  destruct (iw_slot _ _ _ Hw _ Hb Hs) as [Hda Hua]. fold a in Hda, Hua.
  assert (Hslot : ∀ k, 0 ≤ k < nslots → slot (fupd (t_view A) a d) i k = slot (t_view A) i k)
    by (intros; by apply slot_store).
  assert (Hbm : ∀ x, x ∈ bitmap sb → fupd (t_view A) a d x = t_view A x).
  { intros x Hx. apply fupd_ne. intros ->. by apply data_not_bitmap in Hda. }
  split; simpl; try done.
  - by rewrite Hslot.
  - rewrite Hslot by done. by rewrite fupd_eq.
  - intros bn' Hbn' Hne' Hs'. destruct (bslot_range bn' Hbn') as [Hb' _].
    rewrite Hslot by done. split; [done|]. apply fupd_ne. intros E. apply Hne'.
    apply bslot_inj. by apply (iw_inj _ _ _ Hw).
  - intros k Hk _. left. by apply Hslot.
  - intros b Hbr. by rewrite (used_frame sb (t_view A) (fupd (t_view A) a d)).
  - intros x _ _ Hx. apply fupd_ne. intros ->. by apply (Hx (bslot bn)).
  - by apply iwf_store.
  - apply (fs_ok_frame sb Hly (t_view A)); [done|done|]. intros x _.
    destruct (decide (x = a)) as [-> |]; [right; by rewrite fupd_eq|left; by apply fupd_ne].
  - exists (i_addrs i). by destruct i.
  - etrans; [apply (t_cost_le sb Hly A _ {[a]}); [done|simpl; set_solver]|].
    rewrite size_singleton. lia.
  - intros n (X & Hn & HX). exists X. split; [lia|]. intros c Hc. destruct (HX c Hc) as [Hcr Hcu].
    split; [done|]. by rewrite (used_frame sb (t_view A)).
Qed.

Lemma wrote_mapped A i bn A1 i1 a d :
  iwf sb (t_view A) i → 0 ≤ bn < MAXFILE → bytes_ok BSIZE d → slot (t_view A) i (bslot bn) = 0 →
  mapped A i bn A1 i1 a →
  wrote A i bn d (t_upd A1 a d) i1.
Proof.
  intros Hw Hbn Hd Hz Hmp. destruct (bslot_range bn Hbn) as [Hb Hne].
  destruct (mp_data _ _ _ _ _ _ Hmp) as [Hda Hua]. destruct (data_pos sb a Hly Hda) as [Ha0 _].
  pose proof (mp_slot _ _ _ _ _ _ Hmp) as Hsa.
  destruct (wrote_store A1 i1 bn d (mp_wf _ _ _ _ _ _ Hmp) (mp_ok _ _ _ _ _ _ Hmp) Hbn Hd)
    as [W1 W2 W3 _ W4 W5 W6 W7 W8 _ _ _ _ _]; [rewrite Hsa; lia|]. rewrite Hsa in *.
  split; try done.
  - intros bn' Hbn' Hne' Hs'. destruct (bslot_range bn' Hbn') as [Hb' Hk12].
    assert (E : slot (t_view A1) i1 (bslot bn') = slot (t_view A) i (bslot bn')).
    { apply (mp_other _ _ _ _ _ _ Hmp); [done| |by left]. by intros E%bslot_inj. }
    destruct (W3 bn' Hbn' Hne') as [? ->]; [by rewrite E|]. split; [done|]. rewrite E.
    destruct (iw_slot _ _ _ Hw _ Hb' Hs') as [Hd' Hu'].
    apply (mp_frame _ _ _ _ _ _ Hmp); [by apply data_not_bitmap|done|].
    intros E'. apply Hk12. by apply (iw_inj _ _ _ Hw).
  - intros k Hk Hs. assert (E : slot (t_view (t_upd A1 a d)) i1 k = slot (t_view A1) i1 k).
    { simpl. rewrite <- Hsa. apply slot_store; [apply (mp_wf _ _ _ _ _ _ Hmp)|done|rewrite Hsa; lia|done]. }
    rewrite E in *. destruct (decide (k = bslot bn)) as [-> |Hkb].
    { right. rewrite Hsa. apply (mp_fresh _ _ _ _ _ _ Hmp). }
    destruct (decide (k = NDIRECT)) as [-> |Hk12].
    + destruct (decide (slot (t_view A1) i1 NDIRECT = slot (t_view A) i NDIRECT)); [by left|right].
      by apply (mp_ind _ _ _ _ _ _ Hmp).
    + left. by apply (mp_other _ _ _ _ _ _ Hmp); [..|right].
  - intros b Hbr Hu. apply W5; [done|]. by apply (mp_used _ _ _ _ _ _ Hmp).
  - intros x Hx Hu Hsl. simpl. rewrite fupd_ne.
    + apply (mp_frame _ _ _ _ _ _ Hmp); [done|done|]. apply not_eq_sym. by apply Hsl.
    + intros ->. rewrite (mp_fresh _ _ _ _ _ _ Hmp) in Hu. by specialize (Hu Hda).
  - apply (mp_meta _ _ _ _ _ _ Hmp).
  - apply (mp_held _ _ _ _ _ _ Hmp).
  - apply (mp_mod _ _ _ _ _ _ Hmp).
  - etrans; [|apply (mp_cost _ _ _ _ _ _ Hmp)].
    pose proof (t_cost_le sb Hly A1 (t_upd A1 a d) ∅ eq_refl) as Hc. rewrite size_empty in Hc.
    pose proof (mp_logged _ _ _ _ _ _ Hmp). rewrite Z.add_0_r in Hc. apply Hc. simpl. set_solver.
  - intros n Hn. destruct (mp_left _ _ _ _ _ _ Hmp n Hn) as (X & HXn & HX). exists X.
    split; [done|]. intros c Hc. destruct (HX c Hc) as [Hcr Hcu]. split; [done|].
    rewrite (used_frame sb (t_view A1)); [done|done|]. intros x Hx. apply fupd_ne. intros ->.
    by apply data_not_bitmap in Hda.
Qed.

(** A round of [writei]'s loop, in either case. *)
Lemma wrote_ok s A ip i bn g (k : K (fs L) unit) Q :
  f_sb s = sb → (ip < length (f_inodes s))%nat → ld_abs (f_log s) A → f_inodes s !!! ip = i →
  i_dev i = ld_dev → 0 ≤ bn < MAXFILE → iwf sb (t_view A) i → fs_ok sb (t_view A) →
  t_held A = ∅ → t_mod A = ∅ → t_cost sb A + 4 ≤ ld_cap → has_free sb (t_view A) 2 →
  (∀ d, bytes_ok BSIZE d → bytes_ok BSIZE (g d)) →
  (let d := if decide (slot (t_view A) i (bslot bn) = 0) then zeroes BSIZE
            else t_view A (slot (t_view A) i (bslot bn)) in
   ∀ l A' i', ld_abs l A' → wrote A i bn (g d) A' i' → runs k Q (set_log l (put_ip ip i' s))) →
  runs (a ← bmap ip bn; bp ← bread ld_dev a; d ← bdata bp;
        bstore bp (g d);; log_write bp;; brelse bp;; k) Q s.
Proof.
  intros Hsb Hlen HA Hip Hdev Hbn Hw Hok Hh Hm Hcost Hfree Hg HQ.
  destruct (bslot_range bn Hbn) as [Hb _]. pose proof (t_use_cost sb Hly A) as Hua.
  destruct (decide (slot (t_view A) i (bslot bn) = 0)) as [Hs|Hs]; kstep.
  - eapply bmap_alloc_ok; [done..|]. intros a l1 A1 i1 H1 Hmp.
    destruct (mp_data _ _ _ _ _ _ Hmp) as [Hda _]. pose proof (mp_cost _ _ _ _ _ _ Hmp) as Hmc.
    assert (Hh1 : t_held A1 = ∅) by (by rewrite (mp_held _ _ _ _ _ _ Hmp)).
    assert (Hm1 : t_mod A1 = ∅) by (by rewrite (mp_mod _ _ _ _ _ _ Hmp)).
    pose proof (t_use_cost sb Hly A1) as Hu1.
    kstep. eapply wp_bread; [exact H1|by apply (data_home sb Hly)|by rewrite Hh1, lookup_empty|lia|].
    intros b l2 H2. kstep. eapply wp_bdata; [exact H2|apply lookup_insert_eq|]. cbn [t_hold t_view].
    rewrite (mp_zero _ _ _ _ _ _ Hmp).
    eapply wp_update; [exact H2|by apply (data_home sb Hly)|by rewrite Hh1, lookup_empty|done|lia|].
    intros l3 H3. apply (HQ l3 _ i1 H3). apply wrote_mapped; [done|done| |done|done].
    by apply Hg, bytes_ok_zeroes.
  - destruct (iw_slot _ _ _ Hw _ Hb Hs) as [Hda _]. destruct (data_home sb Hly _ Hda) as [Hr Hhome].
    eapply bmap_read_ok; [done..|lia|done|]. intros l1 H1.
    kstep. eapply wp_bread; [exact H1|done|by rewrite Hh, lookup_empty|lia|].
    intros b l2 H2. kstep. eapply wp_bdata; [exact H2|apply lookup_insert_eq|]. cbn [t_hold t_view].
    eapply wp_update; [exact H2|done|by rewrite Hh, lookup_empty|done|lia|].
    intros l3 H3. rewrite <- (put_ip_id ip s), Hip by done. apply (HQ l3 _ i H3).
    apply wrote_store; [done..| |done]. by apply Hg, (fo_bytes _ _ Hok).
Qed.

(** The file after the bytes [src] have replaced those from [off0] on, [tot] of
    them so far. *)
Record fwritten A0 i0 off0 (src : list Z) tot A i : Prop := {
  fw_wf : iwf sb (t_view A) i;
  fw_ok : fs_ok sb (t_view A);
  fw_meta : ∃ l, i = Inode (i_dev i0) (i_inum i0) (i_ref i0) (i_locked i0) (i_pid i0) (i_valid i0)
                       (i_type i0) (i_major i0) (i_minor i0) (i_nlink i0) (i_size i0) l;
  fw_held : t_held A = ∅;
  fw_mod : t_mod A = ∅;
  fw_full bn : 0 ≤ bn → bn * BSIZE < Z.max (i_size i0) (off0 + tot) → slot (t_view A) i (bslot bn) ≠ 0;
  fw_bytes o : 0 ≤ o < Z.max (i_size i0) (off0 + tot) →
    fbyte (t_view A) i o =
      if (off0 <=? o) && (o <? off0 + tot) then get8 src (o - off0) else fbyte (t_view A0) i0 o;
  fw_same : off0 + tot ≤ i_size i0 → i = i0;
  fw_slots k : 0 ≤ k < nslots → slot (t_view A) i k ≠ 0 →
    slot (t_view A) i k = slot (t_view A0) i0 k ∨ used sb (t_view A0) (slot (t_view A) i k) = false;
  fw_used b : 0 ≤ b < sb_size sb → used sb (t_view A0) b = true → used sb (t_view A) b = true;
  fw_frame x : x ≠ 0 → x ∉ bitmap sb → (data sb x → used sb (t_view A0) x = true) →
    (∀ k, 0 ≤ k < nslots → slot (t_view A0) i0 k ≠ x) → t_view A x = t_view A0 x
}.

Lemma fwritten_refl A i off src :
  iwf sb (t_view A) i → ifull (t_view A) i → fs_ok sb (t_view A) → t_held A = ∅ → t_mod A = ∅ →
  off ≤ i_size i → fwritten A i off src 0 A i.
Proof.
  intros Hw Hf Hok Hh Hm Ho. split; try done.
  - exists (i_addrs i). by destruct i.
  - intros bn Hbn Hlt. apply (if_slot _ _ Hf); [done|lia].
  - intros o Ho'. bdestruct_all; simpl; try done; lia.
  - intros k _ _. by left.
Qed.

(** The block of offset [o] compared with the chunk written from [off] on. *)
Lemma chunk_block off m o :
  0 ≤ off → 0 < m → off mod BSIZE + m ≤ BSIZE →
  (off ≤ o < off + m → o / BSIZE = off / BSIZE) ∧
  (o / BSIZE = off / BSIZE → o mod BSIZE - off mod BSIZE = o - off).
Proof.
  intros Ho Hm Hle. assert (HS : BSIZE = 512) by done.
  pose proof (Z.div_mod off BSIZE ltac:(lia)) as E. pose proof (Z.mod_pos_bound off BSIZE ltac:(lia)).
  split; [|intros Eq; pose proof (Z.div_mod o BSIZE ltac:(lia)); rewrite <- Eq in E; lia].
  intros Hr. symmetry. apply (Z.div_unique o BSIZE _ (o - off + off mod BSIZE)); lia.
Qed.

Lemma step_bn o : 0 ≤ o < MAXFILE * BSIZE → 0 ≤ o / BSIZE < MAXFILE.
Proof. intros Ho. split; [apply Z.div_pos; [lia|done]|apply Z.div_lt_upper_bound; [done|lia]]. Qed.

Section step.
Context (A0 A A' : labs) (i0 i i' : inode) (off0 tot m : Z) (src : list Z).
Let off := off0 + tot.
Let bn := off / BSIZE.
Let a := slot (t_view A) i (bslot bn).
Let d := if decide (a = 0) then zeroes BSIZE else t_view A a.
Context (H0 : 0 ≤ off0) (Ht : 0 ≤ tot) (Hm : 0 < m) (Hle : off mod BSIZE + m ≤ BSIZE).
Context (Hsrc : tot + m ≤ Z.of_nat (length src)) (Hsz : 0 ≤ i_size i0).
Context (Hmax : Z.max (i_size i0) (off + m) ≤ MAXFILE * BSIZE).
Context (Hfw : fwritten A0 i0 off0 src tot A i).
Context (Hwr : wrote A i bn (splice d (off mod BSIZE) (slice src tot m)) A' i').

Lemma step_data : bytes_ok BSIZE d.
Proof using All.
  unfold d. case_decide as Ha; [apply bytes_ok_zeroes; done|].
  destruct (bslot_range bn) as [Hb _]; [apply step_bn; unfold off in *; lia|].
  destruct (iw_slot _ _ _ (fw_wf _ _ _ _ _ _ _ Hfw) _ Hb Ha) as [Hd _].
  apply (fo_bytes _ _ (fw_ok _ _ _ _ _ _ _ Hfw)), (data_home sb Hly _ Hd).
Qed.

(** The block written: new bytes in the chunk, the old ones around it. *)
Lemma step_here o :
  o / BSIZE = bn → 0 ≤ o < Z.max (i_size i0) (off + m) →
  fbyte (t_view A') i' o =
    if (off <=? o) && (o <? off + m) then get8 src (o - off0) else fbyte (t_view A) i o.
Proof using All.
  intros Eo Ho. destruct (chunk_block off m o) as [_ Hd]; [unfold off; lia|done|done|].
  specialize (Hd Eo). unfold fbyte at 1. rewrite Eo, (wr_block _ _ _ _ _ _ Hwr).
  assert (HS : BSIZE = 512) by done.
  pose proof (Z.mod_pos_bound o BSIZE ltac:(lia)). pose proof (Z.mod_pos_bound off BSIZE ltac:(lia)).
  assert (Hsl : Z.of_nat (length (slice src tot m)) = m).
  { unfold slice. rewrite length_take, length_drop. lia. }
  pose proof (proj1 step_data) as Hdl.
  rewrite get8_splice; rewrite ?Hsl; [|lia..].
  assert (Hold : o < off ∨ off + m ≤ o → get8 d (o mod BSIZE) = fbyte (t_view A) i o).
  { intros Hout. unfold fbyte. rewrite Eo. unfold d. rewrite decide_False; [done|].
    assert (bn * BSIZE ≤ o) by (rewrite <- Eo, Z.mul_comm; by apply Z.mul_div_le).
    apply (fw_full _ _ _ _ _ _ _ Hfw); unfold off in *; [apply Z.div_pos; lia|lia]. }
  bdestruct_all; simpl; try (exfalso; lia); try (apply Hold; lia).
  rewrite get8_slice by lia. f_equal. unfold off in *. lia.
Qed.

Lemma step_there o :
  o / BSIZE ≠ bn → 0 ≤ o < Z.max (i_size i0) (off + m) →
  o < Z.max (i_size i0) off ∧ slot (t_view A) i (bslot (o / BSIZE)) ≠ 0 ∧
  fbyte (t_view A') i' o = fbyte (t_view A) i o ∧ slot (t_view A') i' (bslot (o / BSIZE)) ≠ 0.
Proof using All.
  intros Eo Ho. destruct (chunk_block off m o) as [Hc _]; [unfold off; lia|done|done|].
  assert (Hlt : o < Z.max (i_size i0) off).
  { destruct (decide (off ≤ o < off + m)); [by rewrite Hc in Eo|lia]. }
  assert (Hs : slot (t_view A) i (bslot (o / BSIZE)) ≠ 0).
  { apply (fw_full _ _ _ _ _ _ _ Hfw); [apply Z.div_pos; [lia|done]|].
    pose proof (Z.mul_div_le o BSIZE ltac:(done)). unfold off in *. lia. }
  destruct (wr_other _ _ _ _ _ _ Hwr (o / BSIZE)) as [Hs' Hb]; [apply step_bn; lia|done|done|].
  split_and!; [done|done| |done]. unfold fbyte. by rewrite Hb.
Qed.

Lemma fwritten_step : fwritten A0 i0 off0 src (tot + m) A' i'.
Proof using All.
  split.
  - apply Hwr.
  - apply Hwr.
  - destruct (fw_meta _ _ _ _ _ _ _ Hfw) as [l El]. destruct (wr_meta _ _ _ _ _ _ Hwr) as [l' ->].
    exists l'. by rewrite El.
  - rewrite (wr_held _ _ _ _ _ _ Hwr). apply Hfw.
  - rewrite (wr_mod _ _ _ _ _ _ Hwr). apply Hfw.
  - intros bn' Hbn' Hlt. destruct (decide (bn' = bn)) as [->|Hne]; [apply Hwr|].
    assert (E : (bn' * BSIZE) / BSIZE = bn') by (by apply Z.div_mul).
    destruct (step_there (bn' * BSIZE)) as (_ & _ & _ & Hs); [by rewrite E| |by rewrite E in Hs].
    assert (HS : BSIZE = 512) by done. unfold off. lia.
  - intros o Ho. destruct (decide (o / BSIZE = bn)) as [Eo|Eo].
    + rewrite (step_here o Eo) by (unfold off; lia).
      destruct ((off <=? o) && (o <? off + m)) eqn:Ec.
      * unfold off in *. bdestruct_all; simpl in *; try done; lia.
      * destruct (decide (o < Z.max (i_size i0) off)).
        -- rewrite (fw_bytes _ _ _ _ _ _ _ Hfw) by (unfold off in *; lia).
           unfold off in *. bdestruct_all; simpl in *; try done; lia.
        -- unfold off in *. bdestruct_all; simpl in *; try done; lia.
    + destruct (step_there o Eo) as (Hlt & _ & -> & _); [unfold off; lia|].
      rewrite (fw_bytes _ _ _ _ _ _ _ Hfw) by (unfold off in *; lia).
      destruct (chunk_block off m o) as [Hc _]; [unfold off; lia|done|done|].
      destruct (decide (off ≤ o < off + m)); [by rewrite Hc in Eo|].
      unfold off in *. bdestruct_all; simpl in *; try done; lia.
  - intros Hin. rewrite <- (fw_same _ _ _ _ _ _ _ Hfw) by lia. apply (wr_same _ _ _ _ _ _ Hwr).
    apply (fw_full _ _ _ _ _ _ _ Hfw); unfold bn, off; [apply Z.div_pos; [lia|done]|].
    pose proof (Z.mul_div_le (off0 + tot) BSIZE ltac:(done)). lia.
  - intros k Hk Hs. destruct (wr_slots _ _ _ _ _ _ Hwr k Hk Hs) as [E|E].
    + rewrite E in Hs |- *. by apply (fw_slots _ _ _ _ _ _ _ Hfw).
    + right. destruct (used sb (t_view A0) _) eqn:Eu; [|done].
      rewrite (fw_used _ _ _ _ _ _ _ Hfw) in E; [done| |done].
      destruct (iw_slot _ _ _ (wr_wf _ _ _ _ _ _ Hwr) k Hk Hs) as [Hd _].
      destruct (data_pos sb _ Hly Hd). lia.
  - intros b Hb Hu. apply (wr_used _ _ _ _ _ _ Hwr); [done|]. by apply (fw_used _ _ _ _ _ _ _ Hfw).
  - intros x Hx0 Hx Hxu Hxs. rewrite <- (fw_frame _ _ _ _ _ _ _ Hfw x) by done.
    apply (wr_frame _ _ _ _ _ _ Hwr); [done| |].
    + intros Hd. apply (fw_used _ _ _ _ _ _ _ Hfw); [destruct (data_pos sb _ Hly Hd); lia|auto].
    + intros k Hk E. destruct (decide (slot (t_view A) i k = 0)) as [|Hs]; [congruence|].
      destruct (fw_slots _ _ _ _ _ _ _ Hfw k Hk Hs) as [E'|E'].
      * apply (Hxs k Hk). congruence.
      * destruct (iw_slot _ _ _ (fw_wf _ _ _ _ _ _ _ Hfw) k Hk Hs) as [Hd _].
        rewrite E in E', Hd. rewrite Hxu in E'; done.
Qed.
End step.

Lemma has_free_le v n n' : has_free sb v n → n' ≤ n → has_free sb v n'.
Proof. intros (X & HX & Hf) Hle. exists X. split; [lia|done]. Qed.

(** The number of blocks that [len] bytes at offset [off] touch. *)
Definition nblk (off len : Z) : Z := if len <=? 0 then 0 else (off + len - 1) / BSIZE - off / BSIZE + 1.

Lemma nblk_chunk off n tot :
  let m := Z.min (n - tot) (BSIZE - off mod BSIZE) in
  0 ≤ off → tot < n → nblk off (n - tot) = nblk (off + m) (n - (tot + m)) + 1 ∧ 0 ≤ nblk (off + m) (n - (tot + m)).
Proof.
  intros m Ho Hlt. assert (HS : BSIZE = 512) by done. unfold nblk.
  pose proof (Z.div_mod off BSIZE ltac:(lia)) as E. pose proof (Z.mod_pos_bound off BSIZE ltac:(lia)).
  destruct (decide (m = n - tot)) as [Em|Em].
  - replace ((off + (n - tot) - 1) / BSIZE) with (off / BSIZE).
    + bdestruct_all; lia.
    + apply (Z.div_unique _ _ _ (off mod BSIZE + m - 1)); subst m; lia.
  - assert (Em' : m = BSIZE - off mod BSIZE) by lia.
    replace ((off + m) / BSIZE) with (off / BSIZE + 1) by
      (apply (Z.div_unique _ _ _ 0); lia).
    replace (off + m + (n - (tot + m)) - 1) with (off + (n - tot) - 1) by lia.
    assert (off / BSIZE + 1 ≤ (off + (n - tot) - 1) / BSIZE) by (apply Z.div_le_lower_bound; lia).
    bdestruct_all; lia.
Qed.

Lemma writei_loop_ok fuel : ∀ s A0 A ip i0 i off0 src n tot (Q : unit → fs L → Prop),
  f_sb s = sb → (ip < length (f_inodes s))%nat → ld_abs (f_log s) A → f_inodes s !!! ip = i →
  i_dev i0 = ld_dev → 0 ≤ i_size i0 → 0 ≤ off0 → 0 ≤ tot ≤ n → n = Z.of_nat (length src) →
  Forall (λ b, 0 ≤ b < 2 ^ 8) src → Z.max (i_size i0) (off0 + n) ≤ MAXFILE * BSIZE →
  fwritten A0 i0 off0 src tot A i →
  t_cost sb A + 2 * nblk (off0 + tot) (n - tot) + 2 ≤ ld_cap →
  has_free sb (t_view A) (2 * nblk (off0 + tot) (n - tot)) →
  n - tot < Z.of_nat fuel →
  (∀ l A' i', ld_abs l A' → fwritten A0 i0 off0 src n A' i' → t_cost sb A' + 2 ≤ ld_cap →
     Q tt (set_log l (put_ip ip i' s))) →
  runs (writei_loop fuel ip src (off0 + tot) n tot) Q s.
Proof.
  induction fuel as [|fuel IH]; intros s A0 A ip i0 i off0 src n tot Q
    Hsb Hlen HA Hip Hdev Hsz Ho Ht Hn Hsrc Hmax Hfw Hcost Hfree Hfu HQ; [lia|].
  cbn [writei_loop]. destruct (Z.ltb_spec tot n) as [Hlt|Hge].
  - assert (Hoff : 0 ≤ off0 + tot) by lia. pose proof (chunk_bounds _ n tot Hoff Hlt) as Hc.
    pose proof (nblk_chunk _ n tot Hoff Hlt) as [Hnb Hnb0]. cbv zeta in Hc, Hnb, Hnb0.
    set (m := Z.min _ _) in *. destruct (fw_meta _ _ _ _ _ _ _ Hfw) as [l0 El0].
    kstep. unfold ip_get. kstep. rewrite Hip. replace (i_dev i) with ld_dev by (by rewrite El0).
    eapply (wrote_ok s A ip i _ (λ d, splice d ((off0 + tot) mod BSIZE) (slice src tot m)));
      [done..|by rewrite El0|apply step_bn; lia|apply Hfw|apply Hfw|apply Hfw|apply Hfw|lia| | |].
    + eapply has_free_le; [done|lia].
    + intros d Hd. eapply bytes_ok_splice; [done|]. apply (bytes_ok_slice n); [split; [lia|done]|lia..].
    + intros d l A' i' Hl Hwr. pose proof (wr_cost _ _ _ _ _ _ Hwr).
      replace (off0 + tot + m) with (off0 + (tot + m)) in * by lia.
      eapply (IH (set_log l (put_ip ip i' s)) A0 A' ip i0 i'); try done; try lia.
      * simpl. by rewrite length_insert.
      * simpl. by rewrite list_lookup_total_insert_eq.
      * eapply fwritten_step; try done; lia.
      * eapply has_free_le; [by apply (wr_left _ _ _ _ _ _ Hwr)|lia].
      * intros l' A1 i1 Hl1 Hfw1 Hc1. specialize (HQ l' A1 i1 Hl1 Hfw1 Hc1).
        revert HQ. unfold put_ip. simpl. by rewrite list_insert_insert_eq.
  - kstep. replace tot with n in Hfw by lia. rewrite <- (put_ip_id ip s), Hip by done.
    specialize (HQ (f_log s) A i HA Hfw). replace tot with n in * by lia. 
    unfold nblk in Hcost. rewrite Z.sub_diag in Hcost. simpl in Hcost.
    replace (put_ip ip i s) with (set_log (f_log s) (put_ip ip i s)) by (by destruct s).
    apply HQ. lia.
Qed.

End file.
