(* ===== verification/FsInode.v ===== *)
(** * File system: inodes on the disk, and [writei]

    The layout of [struct dinode] (stores of [iupdate], loads of [ilock]), and
    [writei] of [xv6/fs.c]: what the file contains after a write, that the blocks
    of other files are not touched, and that the inode on the disk follows. *)

From S2P Require Import Prelude Bytes Log Trans Fs FsAlloc FsFile.

(** The fields fit in their types. *)
Record ifields (i : inode) : Prop := {
  ir_type : -2 ^ 15 ≤ i_type i < 2 ^ 15;
  ir_major : -2 ^ 15 ≤ i_major i < 2 ^ 15;
  ir_minor : -2 ^ 15 ≤ i_minor i < 2 ^ 15;
  ir_nlink : -2 ^ 15 ≤ i_nlink i < 2 ^ 15;
  ir_size : 0 ≤ i_size i < 2 ^ 32;
  ir_len : length (i_addrs i) = Z.to_nat (NDIRECT + 1);
  ir_addrs : Forall (λ a, 0 ≤ a < 2 ^ 32) (i_addrs i)
}.

(** The inode in memory and the one on the disk agree. *)
Definition isync (sb : superblock) (v : Z → list Z) (i : inode) : Prop :=
  get_dinode (v (IBLOCK (i_inum i) sb)) (dinode_off (i_inum i)) i = i.

(** ** The layout of [struct dinode] *)

Lemma s16_u16 x : -2 ^ 15 ≤ x < 2 ^ 15 → s16 (u16 x) = x.
Proof.
  intros Hx. unfold s16, u16. rewrite Zplus_mod_idemp_l, Z.mod_small by lia. lia.
Qed.

Lemma length_put_addrs l : ∀ off d, length (put_addrs l off d) = length d.
Proof. induction l as [|a l IH]; intros off d; [done|]. simpl. by rewrite IH, length_put32. Qed.

Lemma bytes_ok_put_addrs l : ∀ off d, bytes_ok BSIZE d → bytes_ok BSIZE (put_addrs l off d).
Proof. induction l as [|a l IH]; intros off d Hd; [done|]. by apply IH, bytes_ok_put32. Qed.

Lemma get8_put_addrs l : ∀ off d o,
  0 ≤ off → off + 4 * Z.of_nat (length l) ≤ Z.of_nat (length d) → 0 ≤ o < Z.of_nat (length d) →
  o < off ∨ off + 4 * Z.of_nat (length l) ≤ o → get8 (put_addrs l off d) o = get8 d o.
Proof.
  induction l as [|a l IH]; intros off d o H0 Hl Ho Hout; [done|]. cbn [put_addrs length] in *.
  rewrite IH by (rewrite ?length_put32; lia). unfold put32. rewrite get8_splice_out; [done|..];
    unfold le32; simpl; lia.
Qed.

Lemma get32_put_addrs l : ∀ off d k a,
  0 ≤ off → off + 4 * Z.of_nat (length l) ≤ Z.of_nat (length d) → l !! k = Some a →
  get32 (put_addrs l off d) (off + 4 * Z.of_nat k) = u32 a.
Proof.
  induction l as [|b l IH]; intros off d k a H0 Hl Hk; [done|]. cbn [put_addrs length] in *.
  destruct k as [|k]; simplify_eq/=.
  - rewrite Z.add_0_r, <- (get32_put32_eq d off a) by lia.
    unfold get32 at 1 2. rewrite !get8_put_addrs by (rewrite ?length_put32; lia). done.
  - replace (off + 4 * Z.of_nat (S k)) with (off + 4 + 4 * Z.of_nat k) by lia.
    apply IH; rewrite ?length_put32; try lia. done.
Qed.

Lemma get_put_addrs l off d :
  0 ≤ off → length l = Z.to_nat (NDIRECT + 1) → off + 4 * (NDIRECT + 1) ≤ Z.of_nat (length d) →
  Forall (λ a, 0 ≤ a < 2 ^ 32) l → get_addrs (put_addrs l off d) off = l.
Proof.
  intros H0 Hl Hd Hf. assert (HN : NDIRECT = 12) by done. unfold get_addrs. apply list_eq. intros k.
  rewrite list_lookup_fmap. destruct (l !! k) as [a|] eqn:E.
  - pose proof (lookup_lt_Some _ _ _ E). rewrite lookup_seq_lt by lia. simpl. f_equal.
    rewrite (get32_put_addrs l off d k a) by (done || lia). apply u32_small.
    by apply (Forall_lookup_1 _ _ _ _ Hf E).
  - apply lookup_ge_None in E. rewrite lookup_seq_ge by lia. done.
Qed.

(** Loads of the fields before the addresses. *)
Lemma get16_put_addrs l off d o :
  0 ≤ off → off + 4 * Z.of_nat (length l) ≤ Z.of_nat (length d) → 0 ≤ o → o + 2 ≤ off →
  get16 (put_addrs l off d) o = get16 d o.
Proof. intros. unfold get16. by rewrite !get8_put_addrs by lia. Qed.

Lemma get16_put32_ne l off v o :
  0 ≤ off → off + 4 ≤ Z.of_nat (length l) → 0 ≤ o → o + 2 ≤ off ∨ off + 4 ≤ o →
  get16 (put32 l off v) o = get16 l o.
Proof. intros. unfold put32. apply get16_splice_out; unfold le32; simpl; lia. Qed.

Lemma get16_put16_ne l off v o :
  0 ≤ off → off + 2 ≤ Z.of_nat (length l) → 0 ≤ o → o + 2 ≤ off ∨ off + 2 ≤ o →
  get16 (put16 l off v) o = get16 l o.
Proof. intros. unfold put16. apply get16_splice_out; unfold le16; simpl; lia. Qed.

Lemma get_put_dinode d off i j :
  ifields i → 0 ≤ off → off + dinode_size ≤ Z.of_nat (length d) →
  get_dinode (put_dinode d off i) off j =
    Inode (i_dev j) (i_inum j) (i_ref j) (i_locked j) (i_pid j) (i_valid j)
      (i_type i) (i_major i) (i_minor i) (i_nlink i) (i_size i) (i_addrs i).
Proof.
  intros [H1 H2 H3 H4 H5 H6 H7] H0 Hd. assert (HN : dinode_size = 64) by done.
  assert (HD : NDIRECT = 12) by done.
  unfold get_dinode, put_dinode. f_equal; try
    (rewrite get16_put_addrs, get16_put32_ne by (rewrite ?length_put32, ?length_put16; lia)).
  - rewrite 3!get16_put16_ne, get16_put16_eq by (rewrite ?length_put16; lia). by apply s16_u16.
  - rewrite 2!get16_put16_ne, get16_put16_eq by (rewrite ?length_put16; lia). by apply s16_u16.
  - rewrite get16_put16_ne, get16_put16_eq by (rewrite ?length_put16; lia). by apply s16_u16.
  - rewrite get16_put16_eq by (rewrite ?length_put16; lia). by apply s16_u16.
  - rewrite <- (u32_small (i_size i)) at 2 by lia.
    rewrite <- (get32_put32_eq (put16 (put16 (put16 (put16 d off (i_type i)) (off + 2) (i_major i))
       (off + 4) (i_minor i)) (off + 6) (i_nlink i)) (off + 8)) by (rewrite ?length_put16; lia).
    unfold get32. by rewrite !get8_put_addrs by (rewrite ?length_put32, ?length_put16; lia).
  - apply get_put_addrs; rewrite ?length_put32, ?length_put16; try done; lia.
Qed.

Lemma bytes_ok_put_dinode d off i : bytes_ok BSIZE d → bytes_ok BSIZE (put_dinode d off i).
Proof. intros Hd. unfold put_dinode. apply bytes_ok_put_addrs, bytes_ok_put32. by do 4 apply bytes_ok_put16. Qed.

Lemma dinode_off_range inum : 0 ≤ dinode_off inum ∧ dinode_off inum + dinode_size ≤ BSIZE.
Proof.
  unfold dinode_off. assert (IPB = 8) by done. assert (dinode_size = 64) by done.
  assert (BSIZE = 512) by done. pose proof (Z.mod_pos_bound inum IPB ltac:(lia)). lia.
Qed.

(** Files with no block in common. *)
Definition idisjoint (v : Z → list Z) (i j : inode) : Prop :=
  ∀ k k', 0 ≤ k < nslots → 0 ≤ k' < nslots → slot v j k ≠ 0 → slot v j k ≠ slot v i k'.

Section inode.
Context {L : Type} `{LogDisk L}.
Context (sb : superblock) (Hly : layout sb).
Implicit Types (s : fs L) (A : labs) (i : inode).

(** ** Blocks of inodes *)

Lemma iblock_range inum :
  0 ≤ inum < sb_ninodes sb → sb_inodestart sb ≤ IBLOCK inum sb < sb_bmapstart sb.
Proof.
  intros Hi. unfold IBLOCK. pose proof (ly_inodes _ Hly) as (_ & _ & Hb).
  assert (0 ≤ inum / IPB) by (apply Z.div_pos; [lia|done]).
  assert (inum / IPB ≤ sb_ninodes sb / IPB) by (apply Z.div_le_mono; [done|lia]). lia.
Qed.

Lemma iblock_home inum :
  0 ≤ inum < sb_ninodes sb →
  let b := IBLOCK inum sb in
  0 < b ∧ ld_home b ∧ ¬ data sb b ∧ b ∉ bitmap sb ∧ sb_inodestart sb ≤ b < sb_size sb.
Proof.
  intros Hi b. pose proof (iblock_range inum Hi) as Hb. fold b in Hb.
  pose proof (ly_inodes _ Hly) as (H0 & _ & _). pose proof (ly_data _ Hly) as Hd.
  assert (0 ≤ sb_size sb / BPB) by (pose proof (ly_size _ Hly); apply Z.div_pos; [lia|done]).
  unfold dstart in Hd. split_and!; [lia|apply (ly_home _ Hly); lia| | |lia..].
  - unfold data, dstart. lia.
  - unfold bitmap. rewrite elem_of_list_to_set, elem_of_seqZ. lia.
Qed.

(** A store to a block that is neither data nor free map leaves the files alone. *)
Lemma slot_meta v b d i k :
  ¬ data sb b → iwf sb v i → 0 ≤ k < nslots → slot (fupd v b d) i k = slot v i k.
Proof.
  intros Hb Hw Hk. unfold slot. destruct (k <=? NDIRECT); [done|].
  destruct (Z.eqb_spec (addr NDIRECT i) 0) as [|Hi]; [done|]. rewrite fupd_ne; [done|].
  intros E. destruct (iw_slot _ _ _ Hw NDIRECT) as [Hd _]; [done|done|].
  change (slot v i NDIRECT) with (addr NDIRECT i) in Hd. by rewrite E in Hd.
Qed.

Lemma iwf_meta v b d i :
  ¬ data sb b → b ∉ bitmap sb → iwf sb v i → iwf sb (fupd v b d) i.
Proof.
  intros Hb Hbm Hw. split.
  - apply Hw.
  - intros k Hk. rewrite slot_meta by done. intros Hs. destruct (iw_slot _ _ _ Hw k Hk Hs) as [Hd Hu].
    split; [done|]. rewrite <- Hu. apply used_frame; [destruct (data_pos sb _ Hly Hd); lia|].
    intros x Hx. apply fupd_ne. by intros ->.
  - intros k k' Hk Hk'. rewrite !slot_meta by done. by apply (iw_inj _ _ _ Hw).
Qed.

Lemma fbyte_meta v b d i o :
  ¬ data sb b → iwf sb v i → 0 ≤ o < MAXFILE * BSIZE → slot v i (bslot (o / BSIZE)) ≠ 0 →
  fbyte (fupd v b d) i o = fbyte v i o.
Proof.
  intros Hb Hw Ho Hs. destruct (bslot_range _ (step_bn o Ho)) as [Hk _].
  unfold fbyte. rewrite slot_meta by done. f_equal. apply fupd_ne. intros E.
  destruct (iw_slot _ _ _ Hw _ Hk Hs) as [Hd _]. by rewrite E in Hd.
Qed.

Lemma fs_ok_meta v b d :
  b ∉ bitmap sb → bytes_ok BSIZE d → fs_ok sb v → fs_ok sb (fupd v b d).
Proof.
  intros Hbm Hd Hok. apply (fs_ok_frame sb Hly v); [done| |].
  - intros x Hx. apply fupd_ne. by intros ->.
  - intros x _. destruct (decide (x = b)) as [-> |]; [right; by rewrite fupd_eq|left; by apply fupd_ne].
Qed.

(** ** [iupdate] *)

Definition iupdated (A : labs) (i : inode) : labs :=
  let b := IBLOCK (i_inum i) sb in t_upd A b (put_dinode (t_view A b) (dinode_off (i_inum i)) i).

Lemma iupdate_ok s A ip i (Q : unit → fs L → Prop) :
  f_sb s = sb → ld_abs (f_log s) A → f_inodes s !!! ip = i → i_dev i = ld_dev →
  0 ≤ i_inum i < sb_ninodes sb → t_held A = ∅ → t_mod A = ∅ → t_use A < ld_cap →
  (∀ l, ld_abs l (iupdated A i) → Q tt (set_log l s)) → runs (iupdate ip) Q s.
Proof.
  intros Hsb HA Hip Hdev Hin Hh Hm Hu HQ. destruct (iblock_home _ Hin) as (_ & Hb & _).
  unfold iupdate, ip_get. repeat kstep. rewrite Hip, Hdev, Hsb.
  eapply wp_bread; [exact HA|done|by rewrite Hh, lookup_empty|done|]. intros b l1 H1.
  kstep. eapply wp_bdata; [exact H1|apply lookup_insert_eq|]. cbn [t_hold t_view].
  eapply wp_update_last; [exact H1|done|by rewrite Hh, lookup_empty|done|done|].
  intros l2 H2. by apply HQ.
Qed.

Lemma iupdated_use A i : t_held A = ∅ → t_cost sb A + 2 ≤ ld_cap → t_use (iupdated A i) < ld_cap.
Proof.
  intros Hh Hc. pose proof (t_use_cost sb Hly (iupdated A i)).
  pose proof (t_cost_le sb Hly A (iupdated A i) {[IBLOCK (i_inum i) sb]} eq_refl) as Hle.
  rewrite size_singleton in Hle. specialize (Hle ltac:(simpl; set_solver)). lia.
Qed.

Lemma iupdated_sync A i :
  0 ≤ i_inum i < sb_ninodes sb → fs_ok sb (t_view A) → ifields i → isync sb (t_view (iupdated A i)) i.
Proof.
  intros Hin Hok Hf. unfold isync, iupdated. simpl. rewrite fupd_eq.
  destruct (iblock_home _ Hin) as (_ & _ & _ & _ & Hr).
  rewrite get_put_dinode; [by destruct i|done|apply dinode_off_range|].
  rewrite (proj1 (fo_bytes _ _ Hok _ Hr)). apply dinode_off_range.
Qed.

(** ** [ilock] *)

Lemma put_ip_get ip i s : (ip < length (f_inodes s))%nat → f_inodes (put_ip ip i s) !!! ip = i.
Proof. intros. simpl. by apply list_lookup_total_insert_eq. Qed.

Lemma put_ip_put ip i j s : put_ip ip i (put_ip ip j s) = put_ip ip i s.
Proof. unfold put_ip. simpl. by rewrite list_insert_insert_eq. Qed.

Lemma put_ip_log ip i l s : put_ip ip i (set_log l s) = set_log l (put_ip ip i s).
Proof. done. Qed.

Lemma inodes_set_log l s : f_inodes (set_log l s) = f_inodes s.
Proof. done. Qed.

(** An entry that is not valid is loaded from the disk. *)
Lemma ilock_load_ok s A ip j (Q : unit → fs L → Prop) :
  let i := get_dinode (t_view A (IBLOCK (i_inum j) sb)) (dinode_off (i_inum j)) (set_ilock true (f_pid s) j) in
  f_sb s = sb → (ip < length (f_inodes s))%nat → ld_abs (f_log s) A → f_inodes s !!! ip = j →
  i_dev j = ld_dev → 0 ≤ i_inum j < sb_ninodes sb → 1 ≤ i_ref j → i_locked j = false → i_valid j = false →
  t_held A = ∅ → t_mod A = ∅ → t_use A < ld_cap → i_type i ≠ 0 →
  (∀ l, ld_abs l A → Q tt (set_log l (put_ip ip (set_valid true i) s))) → runs (ilock ip) Q s.
Proof.
  intros i Hsb Hlen HA Hip Hdev Hin Hr Hl Hv Hh Hm Hu Hty HQ. destruct (iblock_home _ Hin) as (_ & Hb & _).
  unfold ilock, acquire_inode, ip_get. kstep. kstep. rewrite Hip. kstep.
  kstep; [replace (i_ref j <? 1) with false by (symmetry; apply Z.ltb_ge; lia); done|].
  kstep. kstep. kstep. rewrite Hip, Hl. eapply runs_ip_mod; [done|]. rewrite Hip. kstep. kstep.
  rewrite put_ip_get by done. cbn [i_valid set_ilock]. rewrite Hv. kstep. kstep. kstep.
  change (f_sb _) with (f_sb s). change (i_dev _) with (i_dev j) at 1.
  change (i_inum (set_ilock true (f_pid s) j)) with (i_inum j). rewrite Hsb, Hdev.
  eapply wp_bread; [exact HA|done|by rewrite Hh, lookup_empty|done|]. intros b l1 H1.
  kstep. eapply wp_bdata; [exact H1|apply lookup_insert_eq|]. cbn [t_hold t_view]. kstep.
  eapply runs_ip_mod; [simpl; by rewrite length_insert|]. kstep.
  eapply wp_brelse; [exact H1|apply lookup_insert_eq|simpl; rewrite Hm; set_solver|].
  intros l2 H2. rewrite t_hold_delete in H2 by (by rewrite Hh, lookup_empty). kstep.
  eapply runs_ip_mod; [simpl; by rewrite !length_insert|]. kstep. kstep.
  rewrite !put_ip_log, !put_ip_put, !inodes_set_log, !put_ip_get by done. fold i.
  kstep; [|by apply HQ]. by apply negb_true_iff, Z.eqb_neq.
Qed.

(** ** [writei] *)

(** The file [i0] after the bytes [src] have been written at [off]. *)
Record fdone A0 i0 off (src : list Z) A i : Prop := {
  fd_wf : iwf sb (t_view A) i;
  fd_full : ifull (t_view A) i;
  fd_ok : fs_ok sb (t_view A);
  fd_meta : ∃ l, i = Inode (i_dev i0) (i_inum i0) (i_ref i0) (i_locked i0) (i_pid i0) (i_valid i0)
                       (i_type i0) (i_major i0) (i_minor i0) (i_nlink i0)
                       (Z.max (i_size i0) (off + Z.of_nat (length src))) l;
  fd_bytes o : 0 ≤ o < i_size i →
    fbyte (t_view A) i o =
      if (off <=? o) && (o <? off + Z.of_nat (length src)) then get8 src (o - off)
      else fbyte (t_view A0) i0 o;
  fd_sync : ifields i0 → isync sb (t_view A0) i0 → isync sb (t_view A) i;
  fd_others j : iwf sb (t_view A0) j → idisjoint (t_view A0) i0 j →
    iwf sb (t_view A) j ∧ idisjoint (t_view A) i j ∧
    ∀ o, 0 ≤ o < MAXFILE * BSIZE → slot (t_view A0) j (bslot (o / BSIZE)) ≠ 0 →
      fbyte (t_view A) j o = fbyte (t_view A0) j o;
  fd_held : t_held A = ∅;
  fd_mod : t_mod A = ∅
}.

(** The blocks of another file are out of reach of the write. *)
Lemma fwritten_other A0 i0 off src tot A i j x :
  fwritten sb A0 i0 off src tot A i → iwf sb (t_view A0) j → idisjoint (t_view A0) i0 j →
  ∀ k, 0 ≤ k < nslots → slot (t_view A0) j k ≠ 0 → x = slot (t_view A0) j k → t_view A x = t_view A0 x.
Proof.
  intros Hfw Hj Hdj k Hk Hs ->. destruct (iw_slot _ _ _ Hj k Hk Hs) as [Hd Hu].
  apply (fw_frame _ _ _ _ _ _ _ _ Hfw); [done|by apply data_not_bitmap|done|].
  intros k' Hk' E. by apply (Hdj k k').
Qed.

Lemma fwritten_slot A0 i0 off src tot A i j k :
  fwritten sb A0 i0 off src tot A i → iwf sb (t_view A0) j → idisjoint (t_view A0) i0 j →
  0 ≤ k < nslots → slot (t_view A) j k = slot (t_view A0) j k.
Proof.
  intros Hfw Hj Hdj Hk. unfold slot. destruct (k <=? NDIRECT); [done|].
  destruct (Z.eqb_spec (addr NDIRECT j) 0) as [|Hi]; [done|].
  rewrite (fwritten_other A0 i0 off src tot A i j _ Hfw Hj Hdj NDIRECT); done.
Qed.

Lemma fwritten_others A0 i0 off src tot A i j :
  fwritten sb A0 i0 off src tot A i → iwf sb (t_view A0) j → idisjoint (t_view A0) i0 j →
  iwf sb (t_view A) j ∧ idisjoint (t_view A) i j ∧
  ∀ o, 0 ≤ o < MAXFILE * BSIZE → slot (t_view A0) j (bslot (o / BSIZE)) ≠ 0 →
    fbyte (t_view A) j o = fbyte (t_view A0) j o.
Proof.
  intros Hfw Hj Hdj. pose proof (λ k, fwritten_slot _ _ _ _ _ _ _ _ k Hfw Hj Hdj) as Hsl. split_and!.
  - split.
    + apply Hj.
    + intros k Hk. rewrite Hsl by done. intros Hs. destruct (iw_slot _ _ _ Hj k Hk Hs) as [Hd Hu].
      split; [done|]. apply (fw_used _ _ _ _ _ _ _ _ Hfw); [destruct (data_pos sb _ Hly Hd); lia|done].
    + intros k k' Hk Hk'. rewrite !Hsl by done. by apply (iw_inj _ _ _ Hj).
  - intros k k' Hk Hk'. rewrite Hsl by done. intros Hs E.
    destruct (iw_slot _ _ _ Hj k Hk Hs) as [Hd Hu].
    destruct (fw_slots _ _ _ _ _ _ _ _ Hfw k' Hk') as [E'|E']; [congruence| |congruence].
    apply (Hdj k k'); congruence.
  - intros o Ho Hs. destruct (bslot_range _ (step_bn o Ho)) as [Hk _]. unfold fbyte.
    rewrite Hsl by done. f_equal. by eapply fwritten_other.
Qed.

(** The inode's own block is not among those the loop writes. *)
Lemma fwritten_iblock A0 i0 off src tot A i :
  0 ≤ i_inum i0 < sb_ninodes sb → iwf sb (t_view A0) i0 → fwritten sb A0 i0 off src tot A i →
  t_view A (IBLOCK (i_inum i0) sb) = t_view A0 (IBLOCK (i_inum i0) sb).
Proof.
  intros Hin Hw Hfw. destruct (iblock_home _ Hin) as (H0 & _ & Hd & Hb & _).
  apply (fw_frame _ _ _ _ _ _ _ _ Hfw); [lia|done|done|]. intros k Hk E.
  destruct (iw_slot _ _ _ Hw k Hk) as [Hd' _]; [lia|]. by rewrite E in Hd'.
Qed.

Lemma iwf_addrs v i : iwf sb v i → Forall (λ a, 0 ≤ a < 2 ^ 32) (i_addrs i).
Proof.
  intros Hw. apply Forall_lookup. intros k a Hk. pose proof (lookup_lt_Some _ _ _ Hk) as Hlt.
  rewrite (iw_len _ _ _ Hw) in Hlt. assert (HN : NDIRECT = 12) by done.
  assert (E : slot v i (Z.of_nat k) = a).
  { unfold slot, addr. replace (Z.of_nat k <=? NDIRECT) with true by (symmetry; apply Z.leb_le; lia).
    rewrite Nat2Z.id. by apply list_lookup_total_correct. }
  destruct (decide (a = 0)) as [-> |Ha]; [lia|]. rewrite <- E in Ha.
  destruct (iw_slot _ _ _ Hw (Z.of_nat k)) as [Hd _]; [unfold nslots; assert (NINDIRECT = 128) by done; lia|done|].
  rewrite E in Hd. destruct (data_pos sb _ Hly Hd). pose proof (ly_size _ Hly). lia.
Qed.

Lemma iwf_size v i z : iwf sb v i → iwf sb v (set_size z i).
Proof. intros [H1 H2 H3]. split; [exact H1|exact H2|exact H3]. Qed.

Lemma fdone_inside A0 i0 off src A i :
  0 ≤ i_inum i0 < sb_ninodes sb → iwf sb (t_view A0) i0 → ifull (t_view A0) i0 →
  off + Z.of_nat (length src) ≤ i_size i0 →
  fwritten sb A0 i0 off src (Z.of_nat (length src)) A i → fdone A0 i0 off src A i.
Proof.
  intros Hin Hw Hf Hle Hfw. pose proof (fw_same _ _ _ _ _ _ _ _ Hfw Hle) as ->.
  split; try apply Hfw.
  - split; [apply Hf|]. intros bn H0 Hbn. apply (fw_full _ _ _ _ _ _ _ _ Hfw); lia.
  - exists (i_addrs i0). rewrite Z.max_l by lia. by destruct i0.
  - intros o Ho. apply (fw_bytes _ _ _ _ _ _ _ _ Hfw). lia.
  - intros _ Hs. unfold isync. by rewrite (fwritten_iblock _ _ _ _ _ _ _ Hin Hw Hfw).
  - intros j. by eapply fwritten_others.
Qed.

Lemma fdone_longer A0 i0 off src A i :
  let z := off + Z.of_nat (length src) in
  0 ≤ i_inum i0 < sb_ninodes sb → iwf sb (t_view A0) i0 → i_size i0 < z ≤ MAXFILE * BSIZE → 0 ≤ off →
  fwritten sb A0 i0 off src (Z.of_nat (length src)) A i →
  fdone A0 i0 off src (iupdated A (set_size z i)) (set_size z i).
Proof.
  intros z Hin Hw Hz Hoff Hfw. destruct (fw_meta _ _ _ _ _ _ _ _ Hfw) as [l El].
  assert (Ei : i_inum (set_size z i) = i_inum i0) by (by rewrite El).
  destruct (iblock_home _ Hin) as (_ & _ & Hnd & Hbm & Hr).
  pose proof (fw_wf _ _ _ _ _ _ _ _ Hfw) as Hwi. pose proof (fw_ok _ _ _ _ _ _ _ _ Hfw) as Hok.
  assert (HS : BSIZE = 512) by done. assert (HM : MAXFILE = 140) by done.
  pose proof (iwf_size _ _ z Hwi) as Hwz.
  assert (Hfull : ∀ o, 0 ≤ o < z → slot (t_view A) (set_size z i) (bslot (o / BSIZE)) ≠ 0).
  { intros o Ho. apply (fw_full _ _ _ _ _ _ _ _ Hfw); [apply Z.div_pos; lia|].
    pose proof (Z.mul_div_le o BSIZE ltac:(lia)). fold z. lia. }
  unfold iupdated. rewrite Ei. set (b := IBLOCK (i_inum i0) sb) in *. set (d := put_dinode _ _ _).
  split; cbn [t_view t_upd].
  - by apply iwf_meta.
  - split; [simpl; lia|]. intros bn H0 Hbn. cbn [i_size set_size] in Hbn.
    destruct (bslot_range bn ltac:(lia)) as [Hk _]. rewrite slot_meta by done.
    specialize (Hfull (bn * BSIZE) ltac:(lia)). by rewrite Z.div_mul in Hfull by lia.
  - apply fs_ok_meta; [done| |done]. by apply bytes_ok_put_dinode, (fo_bytes _ _ Hok).
  - exists l. rewrite El. unfold set_size. simpl. fold z. by rewrite Z.max_r by lia.
  - intros o Ho. cbn [i_size set_size] in Ho. rewrite fbyte_meta by (done || lia || auto).
    apply (fw_bytes _ _ _ _ _ _ _ _ Hfw). fold z. lia.
  - intros Hir _. pose proof (iupdated_sync A (set_size z i)) as Hs. unfold iupdated in Hs.
    rewrite Ei in Hs. apply Hs; [done|done|]. destruct Hir as [R1 R2 R3 R4 R5 R6 R7].
    split; [by rewrite El..|simpl; lia|apply (iw_len _ _ _ Hwi)|by apply (iwf_addrs (t_view A))].
  - intros j Hj Hdj. destruct (fwritten_others _ _ _ _ _ _ _ j Hfw Hj Hdj) as (Hj' & Hdj' & Hb').
    split_and!; [by apply iwf_meta| |].
    + intros k k' Hk Hk'. rewrite !slot_meta by done. by apply Hdj'.
    + intros o Ho Hs. destruct (bslot_range _ (step_bn o Ho)) as [Hk _].
      rewrite fbyte_meta; [by apply Hb'|done|done|done|].
      by rewrite (fwritten_slot _ _ _ _ _ _ _ j _ Hfw Hj Hdj Hk).
  - apply Hfw.
  - apply Hfw.
Qed.

Lemma writei_ok (dw : Z → option (nat → list Z → Z → K (fs L) Z)) s A ip i off src
    (Q : Z → fs L → Prop) :
  let n := Z.of_nat (length src) in
  f_sb s = sb → (ip < length (f_inodes s))%nat → ld_abs (f_log s) A → f_inodes s !!! ip = i →
  i_dev i = ld_dev → i_type i ≠ T_DEV → 0 ≤ i_inum i < sb_ninodes sb →
  iwf sb (t_view A) i → ifull (t_view A) i → fs_ok sb (t_view A) → t_held A = ∅ → t_mod A = ∅ →
  Forall (λ b, 0 ≤ b < 2 ^ 8) src → 0 ≤ off ≤ i_size i → off + n ≤ MAXFILE * BSIZE →
  t_cost sb A + 2 * nblk off n + 2 ≤ ld_cap → has_free sb (t_view A) (2 * nblk off n) →
  (∀ l A' i', ld_abs l A' → fdone A i off src A' i' → t_use A' < ld_cap →
     Q n (set_log l (put_ip ip i' s))) →
  runs (writei dw ip src off n) Q s.
Proof.
  intros n Hsb Hlen HA Hip Hdev Hty Hin Hw Hf Hok Hh Hm Hsrc Hoff Hmax Hcost Hfree HQ.
  pose proof (if_size _ _ Hf) as Hsz. assert (HM : MAXFILE * BSIZE = 71680) by done.
  unfold writei, ip_get. kstep. kstep. rewrite Hip. apply Z.eqb_neq in Hty. rewrite Hty.
  rewrite u32_small by lia.
  replace (i_size i <? off) with false by (symmetry; apply Z.ltb_ge; lia).
  replace (off + n <? off) with false by (symmetry; apply Z.ltb_ge; lia). cbn [orb].
  replace (MAXFILE * BSIZE <? off + n) with false by (symmetry; apply Z.ltb_ge; lia).
  kstep. replace off with (off + 0) at 1 by lia.
  eapply (writei_loop_ok sb Hly _ s A A ip i i); try done; rewrite ?Z.add_0_r, ?Z.sub_0_r; try lia; try done.
  { apply fwritten_refl; try done; lia. }
  intros l A1 i1 Hl Hfw Hc1. kstep. kstep.
  assert (Ei : f_inodes (set_log l (put_ip ip i1 s)) !!! ip = i1)
    by (simpl; by rewrite list_lookup_total_insert_eq).
  rewrite Ei. destruct (fw_meta _ _ _ _ _ _ _ _ Hfw) as [l1 El1].
  assert (Es : i_size i1 = i_size i) by (by rewrite El1). rewrite Es.
  destruct ((0 <? n) && (i_size i <? off + n)) eqn:Ec.
  - kstep. kstep. apply runs_ip_mod; [simpl; by rewrite length_insert|]. rewrite Ei.
    eapply (iupdate_ok _ A1 ip (set_size (off + n) i1)); try done.
    + simpl. by rewrite list_lookup_total_insert_eq by (by rewrite length_insert).
    + by rewrite El1.
    + by rewrite El1.
    + apply Hfw.
    + apply Hfw.
    + pose proof (t_use_cost sb Hly A1). lia.
    + intros l2 H2. kstep. rewrite s32_small by lia.
      assert (Hd : fdone A i off src (iupdated A1 (set_size (off + n) i1)) (set_size (off + n) i1)).
      { apply fdone_longer; try done; [|lia]. bdestruct_all; simpl in Ec; try done. }
      specialize (HQ l2 _ _ H2 Hd (iupdated_use _ _ (fw_held _ _ _ _ _ _ _ _ Hfw) Hc1)). revert HQ. unfold put_ip. simpl. by rewrite list_insert_insert_eq.
  - kstep. kstep. rewrite s32_small by lia. kstep. apply (HQ l A1 i1 Hl).
    2:{ pose proof (t_use_cost sb Hly A1). lia. } apply fdone_inside; try done.
    fold n. bdestruct_all; simpl in Ec; try done; lia.
Qed.

End inode.
