(* ===== verification/FsDir.v ===== *)
(** * File system: directories, paths and the inode cache

    [iget], [dirlookup], [dirlink] and [skipelem] of [xv6/fs.c]: the cache holds an
    inode at most once, a directory is searched from its start, and a path is the
    sequence of its elements. *)

From S2P Require Import Prelude Bytes Log Trans Fs FsAlloc FsFile FsInode.

(** ** Reference definitions *)

(** The elements of a path: the maximal runs of characters between slashes. *)
Fixpoint words (path : list Z) : list (list Z) :=
  match path with
  | [] => []
  | c :: p =>
      if c =? slash then words p
      else match p with
           | [] => [[c]]
           | d :: _ => if d =? slash then [c] :: words p
                       else match words p with w :: ws => (c :: w) :: ws | [] => [[c]] end
           end
  end.

(** The string in a name buffer: up to the first null character, if there is one. *)
Fixpoint cname (name : list Z) : list Z :=
  match name with
  | [] => []
  | c :: name' => if c =? 0 then [] else c :: cname name'
  end.

(** The names that [skipelem] yields when it is called until the path is used up,
    each into the same buffer, as [namex] does. *)
Fixpoint walk (fuel : nat) (path name : list Z) : option (list (list Z)) :=
  match fuel with
  | O => None
  | S fuel' =>
      match skipelem path name with
      | None => Some []
      | Some (path', name') => cons (cname name') <$> walk fuel' path' name'
      end
  end.

(** Entry [k] of a directory, and the first entry from [k] on that has the name. *)
Definition dent (v : Z → list Z) (i : inode) (k : Z) : list Z := fbytes v i (dirent_size * k) dirent_size.

Definition dmatch (name de : list Z) : bool := negb (de_inum de =? 0) && (namecmp name (de_name de) =? 0).

Fixpoint dfind (v : Z → list Z) (i : inode) (name : list Z) (k : Z) (n : nat) : option (Z * Z) :=
  match n with
  | O => None
  | S n' => if dmatch name (dent v i k) then Some (de_inum (dent v i k), dirent_size * k)
            else dfind v i name (k + 1) n'
  end.

(** The first free entry from [k] on, or the end. *)
Fixpoint dfree (v : Z → list Z) (i : inode) (k : Z) (n : nat) : Z :=
  match n with
  | O => dirent_size * k
  | S n' => if de_inum (dent v i k) =? 0 then dirent_size * k else dfree v i (k + 1) n'
  end.

(** No inode is cached twice. *)
Definition cached (ip : inode) (dev inum : Z) : bool :=
  (0 <? i_ref ip) && (i_dev ip =? dev) && (i_inum ip =? inum).

Record icache_ok (ips : list inode) : Prop := {
  ic_ref k ip : ips !! k = Some ip → 0 ≤ i_ref ip;
  ic_once j k ip ip' dev inum : ips !! j = Some ip → ips !! k = Some ip' →
    cached ip dev inum = true → cached ip' dev inum = true → j = k
}.

(** ** Paths *)

Lemma words_skip path : words (skip_slashes path) = words path.
Proof. induction path as [|c p IH]; [done|]. simpl. destruct (c =? slash) eqn:E; [done|]. simpl. by rewrite E. Qed.

Lemma skip_head path c p : skip_slashes path = c :: p → c ≠ slash.
Proof.
  induction path as [|d q IH]; simpl; [done|]. destruct (Z.eqb_spec d slash); [done|]. by intros [= <- <-].
Qed.

Lemma skip_length path : (length (skip_slashes path) ≤ length path)%nat.
Proof. induction path as [|c p IH]; simpl; [lia|]. destruct (c =? slash); simpl; lia. Qed.

Lemma skip_Forall P path : Forall P path → Forall P (skip_slashes path).
Proof. induction 1; simpl; [done|]. case_match; [done|by constructor]. Qed.

Lemma path_elem_words path e rest :
  path_elem path = (e, rest) → hd slash path ≠ slash →
  words path = e :: words rest ∧ path = e ++ rest ∧ e ≠ [].
Proof.
  revert e rest. induction path as [|c p IH]; intros e rest; simpl; [done|].
  intros E Hc. destruct (Z.eqb_spec c slash); [done|].
  destruct (path_elem p) as [e' rest'] eqn:Ep. simplify_eq.
  destruct p as [|d q]; simpl in Ep; [by simplify_eq|].
  destruct (Z.eqb_spec d slash) as [-> |Hd]; [by simplify_eq|].
  destruct (IH e' rest eq_refl Hd) as (Hw & Hp & He). rewrite Hw. split; [done|].
  simpl. by rewrite Hp at 1.
Qed.

Lemma cname_all l : Forall (λ c, c ≠ 0) l → cname l = l.
Proof. induction 1 as [|c l Hc Hl IH]; simpl; [done|]. apply Z.eqb_neq in Hc. by rewrite Hc, IH. Qed.

Lemma cname_stop l r : Forall (λ c, c ≠ 0) l → cname (l ++ 0 :: r) = l.
Proof. induction 1 as [|c l Hc Hl IH]; simpl; [done|]. apply Z.eqb_neq in Hc. by rewrite Hc, IH. Qed.

(** The name buffer after an element was copied to it. *)
Lemma skipelem_name name e :
  length name = Z.to_nat DIRSIZ → Forall (λ c, c ≠ 0) e →
  let name' := if DIRSIZ <=? Z.of_nat (length e) then splice name 0 (take (Z.to_nat DIRSIZ) e)
               else splice (splice name 0 e) (Z.of_nat (length e)) [0] in
  length name' = Z.to_nat DIRSIZ ∧ cname name' = take (Z.to_nat DIRSIZ) e.
Proof.
  intros Hl He. assert (HD : Z.to_nat DIRSIZ = 14%nat) by done. assert (HZ : DIRSIZ = 14) by done.
  cbv zeta. destruct (Z.leb_spec DIRSIZ (Z.of_nat (length e))) as [Hle|Hlt].
  - split; [by rewrite length_splice|]. unfold splice. simpl.
    rewrite (take_ge (take _ e)) by (rewrite length_take; lia).
    rewrite drop_ge by (rewrite length_take; lia). rewrite app_nil_r. by apply cname_all, Forall_take.
  - split; [by rewrite !length_splice|]. rewrite (take_ge e) by lia.
    unfold splice at 1. rewrite Nat2Z.id, length_splice.
    assert (E : take (length e) (splice name 0 e) = e).
    { unfold splice. simpl. rewrite (take_ge e) by lia. by rewrite take_app_length. }
    rewrite E. destruct (length name - length e)%nat eqn:Ed; [lia|]. simpl. by apply cname_stop.
Qed.

Lemma walk_words fuel : ∀ path name,
  (length path < fuel)%nat → Forall (λ c, c ≠ 0) path → length name = Z.to_nat DIRSIZ →
  walk fuel path name = Some (take (Z.to_nat DIRSIZ) <$> words path).
Proof.
  induction fuel as [|fuel IH]; intros path name Hf Hp Hn; [lia|]. cbn [walk]. unfold skipelem.
  pose proof (skip_length path) as Hlen. rewrite <- words_skip.
  apply skip_Forall in Hp. destruct (skip_slashes path) as [|c p] eqn:Es; [done|].
  destruct (path_elem (c :: p)) as [e rest] eqn:Ee.
  destruct (path_elem_words _ _ _ Ee (skip_head _ _ _ Es)) as (Hw & Hpe & Hne).
  rewrite Hpe, Forall_app in Hp. destruct Hp as [He Hr].
  destruct (skipelem_name name e Hn He) as [Hl' Hc']. rewrite Hc'.
  assert (Hlr : (length rest < length (c :: p))%nat).
  { rewrite Hpe, length_app. destruct e; [done|simpl; lia]. }
  pose proof (skip_length rest). rewrite Hw, IH; [|lia|by apply skip_Forall|done].
  simpl. by rewrite words_skip.
Qed.

(** ** The inode cache *)

Lemma iget_scan_spec ips dev inum : ∀ k0 e0,
  match iget_scan ips dev inum k0 e0 with
  | (Some k, _) => (k0 ≤ k)%nat ∧ ∃ ip, ips !! (k - k0)%nat = Some ip ∧ cached ip dev inum = true
  | (None, e) =>
      (∀ k ip, ips !! k = Some ip → cached ip dev inum = false) ∧
      match e with
      | Some k => e0 = Some k ∨ e0 = None ∧ (k0 ≤ k)%nat ∧ ∃ ip, ips !! (k - k0)%nat = Some ip ∧ i_ref ip = 0
      | None => e0 = None ∧ ∀ k ip, ips !! k = Some ip → i_ref ip ≠ 0
      end
  end.
Proof.
  induction ips as [|ip ips IH]; intros k0 e0; simpl.
  { split; [done|]. destruct e0; [by left|done]. }
  fold (cached ip dev inum). destruct (cached ip dev inum) eqn:Ec.
  { split; [lia|]. exists ip. by rewrite Nat.sub_diag. }
  set (e1 := match e0 with None => if i_ref ip =? 0 then Some k0 else None | Some e => Some e end).
  specialize (IH (S k0) e1). destruct (iget_scan ips dev inum (S k0) e1) as [[k|] e].
  - destruct IH as [Hk (ip' & E & Hc)]. split; [lia|]. exists ip'.
    by replace (k - k0)%nat with (S (k - S k0)) by lia.
  - destruct IH as [Hno He]. split.
    { intros [|k] ip' E; simplify_eq/=; [done|by eapply Hno]. }
    subst e1. destruct e as [k|].
    + destruct He as [He|(He & Hk & ip' & E & Hr)].
      * destruct e0 as [e0|]; [by left|]. destruct (Z.eqb_spec (i_ref ip) 0); simplify_eq.
        right. split_and!; [done|lia|]. exists ip. by rewrite Nat.sub_diag.
      * destruct e0 as [e0|]; [done|]. right. split_and!; [done|lia|]. exists ip'.
        by replace (k - k0)%nat with (S (k - S k0)) by lia.
    + destruct He as [He Hall]. destruct e0 as [e0|]; [done|]. split; [done|].
      intros [|k] ip' E; simplify_eq/=; [|by eapply Hall]. by destruct (Z.eqb_spec (i_ref ip') 0).
Qed.

Lemma icache_update ips k ip ip' :
  icache_ok ips → ips !! k = Some ip → 0 ≤ i_ref ip' →
  (∀ dev inum, cached ip' dev inum = true →
     cached ip dev inum = true ∨ ∀ j jp, ips !! j = Some jp → cached jp dev inum = false) →
  icache_ok (<[k := ip']> ips).
Proof.
  intros Hok Hk Hr Hc. pose proof (lookup_lt_Some _ _ _ Hk) as Hlt. split.
  - intros j jp. destruct (decide (j = k)) as [-> |Hj].
    + rewrite list_lookup_insert_eq by done. by intros [= <-].
    + rewrite list_lookup_insert_ne by done. by apply (ic_ref _ Hok).
  - assert (Hnew : ∀ j jp dev inum, ips !! j = Some jp → j ≠ k →
        cached ip' dev inum = true → cached jp dev inum = true → False).
    { intros j jp dev inum Hj Hne H1 H2. destruct (Hc dev inum H1) as [H3|H3].
      - apply Hne. by apply (ic_once _ Hok j k jp ip dev inum).
      - by rewrite (H3 j jp Hj) in H2. }
    intros j j' jp jp' dev inum.
    destruct (decide (j = k)) as [-> |Hj], (decide (j' = k)) as [-> |Hj'];
      rewrite ?list_lookup_insert_eq, ?list_lookup_insert_ne by done; try done; intros; simplify_eq.
    + exfalso. by eapply (Hnew j').
    + exfalso. by eapply (Hnew j).
    + by eapply (ic_once _ Hok).
Qed.

Lemma cached_true ip dev inum :
  cached ip dev inum = true ↔ 0 < i_ref ip ∧ i_dev ip = dev ∧ i_inum ip = inum.
Proof. unfold cached. rewrite !andb_true_iff, Z.ltb_lt, !Z.eqb_eq. tauto. Qed.

Section dir.
Context {L : Type} `{LogDisk L}.
Context (dr : Z → option (nat → Z → K (fs L) (Z * list Z))).
Context (dw : Z → option (nat → list Z → Z → K (fs L) Z)).
Context (sb : superblock) (Hly : layout sb).
Implicit Types (s : fs L) (A : labs) (i : inode).

(** An entry that holds its place for an inode. *)
Definition entry_for (s : fs L) (dev inum : Z) (k : nat) (s' : fs L) : Prop :=
  ∃ ip ip', f_inodes s !! k = Some ip ∧ s' = put_ip k ip' s ∧
    cached ip' dev inum = true ∧
    (cached ip dev inum = true ∧ ip' = set_ref (i_ref ip + 1) ip ∨
     i_ref ip = 0 ∧ i_ref ip' = 1 ∧ (i_valid ip' = false ∧ i_locked ip' = i_locked ip) ∧
       ∀ j jp, f_inodes s !! j = Some jp → cached jp dev inum = false).

Lemma entry_for_ok s dev inum k s' :
  icache_ok (f_inodes s) → entry_for s dev inum k s' → icache_ok (f_inodes s').
Proof.
  intros Hok (ip & ip' & E & -> & Hc & Hcase). pose proof (ic_ref _ Hok _ _ E) as Hr.
  assert (Hci : ∀ d n, cached ip' d n = true → d = dev ∧ n = inum).
  { intros d n Hd. apply cached_true in Hc as (_ & <- & <-). by apply cached_true in Hd as (_ & <- & <-). }
  eapply icache_update; [done|done| |].
  - destruct Hcase as [[_ ->]|(_ & -> & _)]; [simpl|]; lia.
  - intros d n Hd. destruct (Hci d n Hd) as [-> ->].
    destruct Hcase as [[Hcc _]|(_ & _ & _ & Hno)]; [by left|by right].
Qed.

Lemma ip_mod_put f s k ip : f_inodes s !! k = Some ip → set_inodes (alter f k (f_inodes s)) s = put_ip k (f ip) s.
Proof. intros E. unfold put_ip. by rewrite (alter_insert_list _ _ _ _ E). Qed.

Lemma iget_spec s dev inum :
  icache_ok (f_inodes s) →
  match iget dev inum s with
  | Ok (k, s') => entry_for s dev inum k s'
  | Panic m => m = "iget: no inodes" ∧
      ∀ k ip, f_inodes s !! k = Some ip → cached ip dev inum = false ∧ 0 < i_ref ip
  | Hang => False
  end.
Proof.
  intros Hok. pose proof (iget_scan_spec (f_inodes s) dev inum 0 None) as Hs. unfold iget.
  rewrite (bind_ok kget _ s s s eq_refl).
  revert Hs. destruct (iget_scan _ dev inum 0 None) as [[k|] e]; intros Hs.
  - destruct Hs as [_ (ip & E & Hc)]. rewrite Nat.sub_0_r in E.
    rewrite (bind_ok _ _ s tt _ eq_refl). pose proof (ic_ref _ Hok _ _ E) as Hr.
    exists ip, (set_ref (i_ref ip + 1) ip). split_and!; [done|by apply (ip_mod_put (λ i, set_ref (i_ref i + 1) i))| |by left].
    apply cached_true in Hc as (? & <- & <-). apply cached_true. split; [simpl; lia|done].
  - destruct Hs as [Hno He]. destruct e as [k|].
    + destruct He as [He|(_ & _ & ip & E & Hr)]; [done|]. rewrite (bind_ok _ _ s tt _ eq_refl). rewrite Nat.sub_0_r in E.
      eexists ip, _. split_and!; [done|by eapply ip_mod_put| |].
      * by apply cached_true.
      * by right.
    + destruct He as [_ Hall]. split; [done|]. intros k ip E. split; [by eapply Hno|].
      pose proof (ic_ref _ Hok _ _ E). pose proof (Hall _ _ E). lia.
Qed.

(** ** Directories *)

(** A directory that this process has locked. *)
Record dir_at s A (dp : nat) i (n : nat) : Prop := {
  da_abs : ld_abs (f_log s) A;
  da_ip : f_inodes s !!! dp = i;
  da_dev : i_dev i = ld_dev;
  da_type : i_type i = T_DIR;
  da_wf : iwf sb (t_view A) i;
  da_full : ifull (t_view A) i;
  da_fs : fs_ok sb (t_view A);
  da_held : t_held A = ∅;
  da_mod : t_mod A = ∅;
  da_use : t_use A < ld_cap;
  da_size : i_size i = dirent_size * Z.of_nat n
}.

Lemma dir_at_log s A dp i n l : dir_at s A dp i n → ld_abs l A → dir_at (set_log l s) A dp i n.
Proof. intros [] Hl. by split. Qed.

Lemma dir_read_ok s A dp i n k (Q : Z * list Z → fs L → Prop) :
  dir_at s A dp i n → 0 ≤ k < Z.of_nat n →
  (∀ l, ld_abs l A → Q (dirent_size, dent (t_view A) i k) (set_log l s)) →
  runs (readi dr dp (dirent_size * k) dirent_size) Q s.
Proof.
  intros [] Hk HQ. assert (HD : dirent_size = 16) by done. pose proof (if_size _ _ da_full0) as Hsz.
  assert (HM : MAXFILE * BSIZE = 71680) by done.
  eapply (readi_ok sb Hly dr s A dp i); try done; try lia; [by rewrite da_type0|].
  intros l Hl. rewrite Z.min_l by lia. by apply HQ.
Qed.

Lemma dirlookup_loop_ok fuel : ∀ s A dp i n name k m (Q : option (Z * Z) → fs L → Prop),
  dir_at s A dp i n → (m < fuel)%nat → 0 ≤ k → k + Z.of_nat m = Z.of_nat n →
  (∀ l, ld_abs l A → Q (dfind (t_view A) i name k m) (set_log l s)) →
  runs (dirlookup_loop dr fuel dp name (dirent_size * k)) Q s.
Proof.
  induction fuel as [|fuel IH]; intros s A dp i n name k m Q Hd Hf Hk Hm HQ; [lia|].
  assert (HD : dirent_size = 16) by done. assert (HM : MAXFILE * BSIZE = 71680) by done.
  pose proof (if_size _ _ (da_full _ _ _ _ _ Hd)) as Hsz. pose proof (da_size _ _ _ _ _ Hd) as Es.
  cbn [dirlookup_loop]. unfold ip_get. kstep. kstep. rewrite (da_ip _ _ _ _ _ Hd), Es.
  destruct m as [|m].
  - replace (_ <? _) with false by (symmetry; apply Z.ltb_ge; lia). kstep.
    specialize (HQ _ (da_abs _ _ _ _ _ Hd)). by destruct s.
  - replace (_ <? _) with true by (symmetry; apply Z.ltb_lt; lia). kstep.
    eapply dir_read_ok; [done|lia|]. intros l Hl. cbn [dfind] in HQ.
    kstep. kstep; [apply Z.eqb_refl|]. unfold dmatch in HQ.
    assert (Hrec : (∀ l, ld_abs l A → Q (dfind (t_view A) i name (k + 1) m) (set_log l s)) →
              runs (dirlookup_loop dr fuel dp name (u32 (dirent_size * k + dirent_size))) Q (set_log l s)).
    { intros HQ'. rewrite u32_small by lia.
      replace (dirent_size * k + dirent_size) with (dirent_size * (k + 1)) by lia.
      eapply (IH _ A dp i n name (k + 1) m); [by apply dir_at_log|lia..|done]. }
    destruct (de_inum _ =? 0); [by apply Hrec|]. cbn [negb andb] in HQ.
    destruct (namecmp _ _ =? 0); [kstep; by apply HQ|by apply Hrec].
Qed.

Lemma dirlink_loop_ok fuel : ∀ s A dp i n k m (Q : Z → fs L → Prop),
  dir_at s A dp i n → (m < fuel)%nat → 0 ≤ k → k + Z.of_nat m = Z.of_nat n →
  (∀ l, ld_abs l A → Q (dfree (t_view A) i k m) (set_log l s)) →
  runs (dirlink_loop dr fuel dp (dirent_size * k)) Q s.
Proof.
  induction fuel as [|fuel IH]; intros s A dp i n k m Q Hd Hf Hk Hm HQ; [lia|].
  assert (HD : dirent_size = 16) by done. pose proof (da_size _ _ _ _ _ Hd) as Es.
  cbn [dirlink_loop]. unfold ip_get. kstep. kstep. rewrite (da_ip _ _ _ _ _ Hd), Es.
  destruct m as [|m].
  - replace (_ <? _) with false by (symmetry; apply Z.ltb_ge; lia). kstep.
    specialize (HQ _ (da_abs _ _ _ _ _ Hd)). by destruct s.
  - replace (_ <? _) with true by (symmetry; apply Z.ltb_lt; lia). kstep.
    eapply dir_read_ok; [done|lia|]. intros l Hl. cbn [dfree] in HQ.
    kstep. kstep; [apply Z.eqb_refl|]. destruct (de_inum _ =? 0); [kstep; by apply HQ|].
    replace (dirent_size * k + dirent_size) with (dirent_size * (k + 1)) by lia.
    eapply (IH _ A dp i n (k + 1) m); [by apply dir_at_log|lia..|done].
Qed.

(** The record that [dirlink] writes. *)
Definition mkdent (name : list Z) (inum : Z) : list Z := le16 inum ++ strncpy_bytes (Z.to_nat DIRSIZ) name.

Lemma length_strncpy n : ∀ t, length (strncpy_bytes n t) = n.
Proof. induction n as [|n IH]; intros t; [done|]. simpl. case_match; simpl; [by rewrite length_replicate|by rewrite IH]. Qed.

Lemma strncmp_strncpy n : ∀ t, strncmp_bytes n t (strncpy_bytes n t) = 0.
Proof.
  induction n as [|n IH]; intros t; [done|]. simpl.
  destruct (Z.eqb_spec (hd 0 t) 0) as [E|E]; simpl; [lia|]. by rewrite Z.eqb_refl.
Qed.

Lemma strncpy_bytes_ok n : ∀ t, Forall (λ b, 0 ≤ b < 2 ^ 8) t → Forall (λ b, 0 ≤ b < 2 ^ 8) (strncpy_bytes n t).
Proof.
  induction n as [|n IH]; intros t Ht; [constructor|]. simpl. case_match.
  - constructor; [lia|]. apply Forall_replicate. lia.
  - destruct Ht; [done|]. constructor; [done|by apply IH].
Qed.

Lemma mkdent_ok name inum :
  Forall (λ b, 0 ≤ b < 2 ^ 8) name → 0 < inum < 2 ^ 16 →
  let de := mkdent name inum in
  length de = 16%nat ∧ Forall (λ b, 0 ≤ b < 2 ^ 8) de ∧ de_inum de = inum ∧ dmatch name de = true.
Proof.
  intros Hn Hi de. assert (Hl : length de = 16%nat).
  { unfold de, mkdent. rewrite length_app, length_strncpy. done. }
  assert (Ei : de_inum de = inum).
  { change (de_inum de) with (get16 (le16 inum) 0). rewrite get16_le16. unfold u16. by rewrite Z.mod_small by lia. }
  split_and!; [done| |done|].
  - unfold de, mkdent. apply Forall_app. split; [repeat constructor; apply u8_range|by apply strncpy_bytes_ok].
  - unfold dmatch. rewrite Ei. replace (inum =? 0) with false by (symmetry; apply Z.eqb_neq; lia).
    change (de_name de) with (take (Z.to_nat DIRSIZ) (strncpy_bytes (Z.to_nat DIRSIZ) name)).
    unfold namecmp. rewrite take_ge by (by rewrite length_strncpy). by rewrite strncmp_strncpy.
Qed.

Lemma dfree_spec v i : ∀ n k, 0 ≤ k →
  ∃ j, dfree v i k n = dirent_size * j ∧ k ≤ j ≤ k + Z.of_nat n ∧
    (j < k + Z.of_nat n → de_inum (dent v i j) = 0) ∧ (∀ j', k ≤ j' < j → de_inum (dent v i j') ≠ 0).
Proof.
  induction n as [|n IH]; intros k Hk; cbn [dfree].
  - exists k. split_and!; [done|lia..|]. intros; lia.
  - destruct (Z.eqb_spec (de_inum (dent v i k)) 0) as [E|E].
    + exists k. split_and!; [done|lia|lia|done|]. intros; lia.
    + destruct (IH (k + 1) ltac:(lia)) as (j & -> & Hj & He & Hb). exists j. split_and!; [done|lia|lia| |].
      * intros. apply He. lia.
      * intros j' Hj'. destruct (decide (j' = k)) as [-> |]; [done|]. apply Hb. lia.
Qed.

Lemma dfind_none v i name : ∀ n k,
  dfind v i name k n = None ↔ ∀ j, k ≤ j < k + Z.of_nat n → dmatch name (dent v i j) = false.
Proof.
  induction n as [|n IH]; intros k; cbn [dfind]; [split; [intros; lia|done]|].
  destruct (dmatch name (dent v i k)) eqn:E.
  - split; [done|]. intros Hn. rewrite Hn in E by lia. done.
  - rewrite IH. split; intros Hn j Hj; [|apply Hn; lia].
    destruct (decide (j = k)) as [-> |]; [done|apply Hn; lia].
Qed.

Lemma dfind_first v i name j : ∀ n k,
  k ≤ j < k + Z.of_nat n → (∀ j', k ≤ j' < j → dmatch name (dent v i j') = false) →
  dmatch name (dent v i j) = true → dfind v i name k n = Some (de_inum (dent v i j), dirent_size * j).
Proof.
  induction n as [|n IH]; intros k Hj Hno Hm; cbn [dfind]; [lia|].
  destruct (decide (k = j)) as [-> |]; [by rewrite Hm|]. rewrite Hno by lia.
  apply IH; [lia|intros; apply Hno; lia|done].
Qed.

(** Entries after a write of one of them. *)
Lemma dent_done A i j de A' i' k :
  fdone sb A i (dirent_size * j) de A' i' → length de = 16%nat → 0 ≤ j → 0 ≤ k →
  dirent_size * k < i_size i' → i_size i' mod dirent_size = 0 →
  dent (t_view A') i' k = if decide (k = j) then de else dent (t_view A) i k.
Proof.
  intros Hd Hl Hj Hk Hlt Hmod. assert (HD : dirent_size = 16) by done. rewrite HD in *.
  apply Z.mod_divide in Hmod as [q Hq]; [|done]. unfold dent. rewrite HD.
  assert (Hb : ∀ o, 16 * k ≤ o < 16 * k + 16 → fbyte (t_view A') i' o =
      if decide (k = j) then get8 de (o - 16 * j) else fbyte (t_view A) i o).
  { intros o Ho. rewrite (fd_bytes _ _ _ _ _ _ _ Hd) by lia. rewrite Hl.
    case_decide; bdestruct_all; simpl; try done; lia. }
  case_decide as E.
  - subst k. replace 16 with (Z.of_nat (length de)) at 2 by (rewrite Hl; done).
    apply fbytes_of. rewrite Hl. intros o Ho. by rewrite Hb by lia.
  - unfold fbytes. apply list_fmap_ext. intros m o [-> Hm]%lookup_seqZ. rewrite Hb by lia. done.
Qed.

Lemma dirlookup_ok s A dp i n name inum off (Q : option (nat * Z) → fs L → Prop) :
  dir_at s A dp i n → icache_ok (f_inodes s) → (∃ k ip, f_inodes s !! k = Some ip ∧ i_ref ip = 0) →
  dfind (t_view A) i name 0 n = Some (inum, off) →
  (∀ l k s', ld_abs l A → entry_for (set_log l s) (i_dev i) inum k s' → Q (Some (k, off)) s') →
  runs (dirlookup dr dp name) Q s.
Proof.
  intros Hd Hic Hroom Hf HQ. assert (HD : dirent_size = 16) by done.
  unfold dirlookup, ip_get. kstep. kstep. rewrite (da_ip _ _ _ _ _ Hd). kstep.
  kstep; [rewrite (da_type _ _ _ _ _ Hd); done|]. kstep.
  eapply (dirlookup_loop_ok _ s A dp i n name 0 n); [done| |lia..|].
  { rewrite (da_size _ _ _ _ _ Hd). lia. }
  intros l Hl. rewrite Hf. kstep. pose proof (iget_spec (set_log l s) (i_dev i) inum Hic) as Hs.
  destruct (iget _ _ _) as [[k s']|m|] eqn:E; [| |done].
  - exists k, s'. split; [done|]. kstep. by eapply HQ.
  - destruct Hs as [_ Hall]. destruct Hroom as (k & ip & Hk & Hr).
    destruct (Hall k ip Hk) as [_ ?]. lia.
Qed.

Lemma dirlink_ok s A dp i n name inum (Q : Z → fs L → Prop) :
  dir_at s A dp i n → f_sb s = sb → (dp < length (f_inodes s))%nat → 0 ≤ i_inum i < sb_ninodes sb →
  dfind (t_view A) i name 0 n = None → Forall (λ b, 0 ≤ b < 2 ^ 8) name → 0 < inum < 2 ^ 16 →
  dirent_size * (Z.of_nat n + 1) ≤ MAXFILE * BSIZE → t_cost sb A + 4 ≤ ld_cap →
  has_free sb (t_view A) 2 →
  (∀ l A' i' j n', ld_abs l A' → 0 ≤ j ≤ Z.of_nat n →
     (j < Z.of_nat n → de_inum (dent (t_view A) i j) = 0) →
     (∀ j', 0 ≤ j' < j → de_inum (dent (t_view A) i j') ≠ 0) →
     fdone sb A i (dirent_size * j) (mkdent name inum) A' i' →
     dir_at (set_log l (put_ip dp i' s)) A' dp i' n' → n' = Nat.max n (S (Z.to_nat j)) →
     Q 0 (set_log l (put_ip dp i' s))) →
  runs (dirlink dr dw dp name inum) Q s.
Proof.
  intros Hd Hsb Hdp Hin Hf Hname Hi Hmax Hcost Hfree HQ. assert (HD : dirent_size = 16) by done.
  assert (HS : BSIZE = 512) by done. destruct (mkdent_ok name inum Hname Hi) as (Hl & Hb & _ & _).
  unfold dirlink, dirlookup, ip_get. kstep. kstep. kstep. rewrite (da_ip _ _ _ _ _ Hd). kstep.
  kstep; [rewrite (da_type _ _ _ _ _ Hd); done|]. kstep.
  assert (Hfu : (n < S (Z.to_nat (i_size i)))%nat) by (rewrite (da_size _ _ _ _ _ Hd); lia).
  eapply (dirlookup_loop_ok _ s A dp i n name 0 n); [done|done|lia..|].
  intros l Hl1. rewrite Hf. kstep. kstep. kstep. apply (dir_at_log _ _ _ _ _ _ Hd) in Hl1 as Hd1.
  rewrite (da_ip _ _ _ _ _ Hd1). kstep.
  eapply (dirlink_loop_ok _ (set_log l s) A dp i n 0 n); [done|done|lia..|].
  intros l2 Hl2. destruct (dfree_spec (t_view A) i n 0 ltac:(lia)) as (j & -> & Hj & Hej & Hbj).
  fold (mkdent name inum). apply (dir_at_log _ _ _ _ _ _ Hd1) in Hl2 as Hd2. destruct Hd2. kstep.
  assert (Hn1 : nblk (dirent_size * j) (Z.of_nat 16) = 1).
  { unfold nblk. rewrite HD, HS. change (Z.of_nat 16) with 16.
    pose proof (Z.div_mod (16 * j) 512 ltac:(lia)). pose proof (Z.mod_pos_bound (16 * j) 512 ltac:(lia)).
    assert (((16 * j) mod 512) mod 16 = 0) as Hm%Z.mod_divide; [|destruct Hm as [q ?]|done].
    { change 512 with (16 * 32). rewrite Z.mul_mod_distr_l by lia. by rewrite Z.mul_comm, Z.mod_mul. }
    rewrite <- (Z.div_unique (16 * j + 16 - 1) 512 (16 * j / 512) ((16 * j) mod 512 + 15)); try lia. simpl; lia. }
  replace dirent_size with (Z.of_nat (length (mkdent name inum))) at 2 by (rewrite Hl; done).
  eapply (writei_ok sb Hly dw (set_log l2 (set_log l s)) A dp i); rewrite ?Hl; try done; try lia.
  - by rewrite da_type0.
  - by rewrite Hn1.
  - intros l3 A' i' Hl3 Hdone Huse. kstep. kstep; [done|]. kstep.
    destruct (fd_meta _ _ _ _ _ _ _ Hdone) as [la Ela].
    eapply (HQ l3 A' i' j (Nat.max n (S (Z.to_nat j)))); [done|lia|intros; apply Hej; lia|done|done| |done].
    split; [done| |by rewrite Ela|by rewrite Ela|apply Hdone|apply Hdone|apply Hdone|apply Hdone|apply Hdone|done|].
    + simpl. by rewrite list_lookup_total_insert_eq.
    + rewrite Ela. cbn [i_size]. rewrite Hl, da_size0. lia.
Qed.

(** The name is found where it was written. *)
Lemma dfind_after A i n j name inum A' i' n' :
  fdone sb A i (dirent_size * j) (mkdent name inum) A' i' → Forall (λ b, 0 ≤ b < 2 ^ 8) name →
  0 < inum < 2 ^ 16 → 0 ≤ j ≤ Z.of_nat n → n' = Nat.max n (S (Z.to_nat j)) →
  i_size i' = dirent_size * Z.of_nat n' → dfind (t_view A) i name 0 n = None →
  dfind (t_view A') i' name 0 n' = Some (inum, dirent_size * j).
Proof.
  intros Hdone Hname Hi Hj Hn' Hsz Hf. assert (HD : dirent_size = 16) by done.
  destruct (mkdent_ok name inum Hname Hi) as (Hl & _ & Ei & Hm). rewrite dfind_none in Hf.
  assert (Hmod : i_size i' mod dirent_size = 0) by (by rewrite Hsz, Z.mul_comm, Z.mod_mul).
  assert (Hde : dent (t_view A') i' j = mkdent name inum).
  { rewrite (dent_done A i j _ A' i' j) by (done || lia). by rewrite decide_True. }
  rewrite (dfind_first _ _ _ j); [by rewrite Hde, Ei|lia| |by rewrite Hde].
  intros j' Hj'. rewrite (dent_done A i j _ A' i' j') by (done || lia). rewrite decide_False by lia.
  apply Hf. lia.
Qed.

End dir.
