(* ===== verification/FsProps.v ===== *)
(** * File system: what it promises

    The properties of [xv6/fs.c] over any transactional disk, and their instances
    on the log of [log.c] over the buffer cache of [bio.c] over the disk of
    [memide.c]. *)

From S2P Require Import Prelude Bytes Ide Bio Log Trans Fs FsAlloc FsFile FsInode FsDir.

(** An image of 1000 blocks as [mkfs] lays it out: blocks 0 to 58 in use. *)
Definition image_sb : superblock := Superblock 1000 941 200 30 2 32 58.

Definition image : disk :=
  Disk {[ (1, 58) := replicate 7 255 ++ [7] ++ replicate 504 0 ]} [].

Definition image_view (b : Z) : list Z := dread image (1, b).

Definition image_bufs : bst :=
  match binit (boot image 3) with Ok (_, c) => c | _ => boot image 3 end.

(** An operation has begun. *)
Definition image_log : lst bst := Lst 2 30 1 false 1 0 (replicate (Z.to_nat LOGSIZE) 0) image_bufs.

Definition image_fs (i : inode) : fs (lst bst) :=
  Fs image_sb (i :: replicate 49 (Inode 0 0 0 false 0 false 0 0 0 0 0 (replicate 13 0))) 3 0 image_log.

(** Inode [inum], an empty file of type [ty], locked by process 3. *)
Definition image_inode (ty : Z) : inode := Inode 1 2 1 true 3 true ty 0 0 1 0 (replicate 13 0).

#[local] Instance image_driver : DiskDriver := memide_driver 1000.

Lemma image_serves c : 0 ≤ c < 1000 → bc_serves 1 c.
Proof. intros [_ ?]. by repeat split. Qed.

#[local] Instance image_disk : LogDisk (lst bst) :=
  log_disk 1 2 30 1000 ltac:(lia) ltac:(lia) ltac:(lia) image_serves ltac:(vm_compute; lia).

Section properties.
Context {L : Type} `{LogDisk L}.
Context (dr : Z → option (nat → Z → K (fs L) (Z * list Z))).
Context (dw : Z → option (nat → list Z → Z → K (fs L) Z)).
Context (sb : superblock) (Hly : layout sb).
Implicit Types (s : fs L) (A : labs) (i : inode).

(** [balloc] returns, with the first free block of the disk: it is marked in
    use and zeroed, no other bit of the free map changes and no other block does,
    and the state of the file system stays consistent. *)
Theorem balloc_takes_first_free s A :
  f_sb s = sb → ld_abs (f_log s) A → quiet sb A → fs_ok sb (t_view A) → t_cost sb A < ld_cap →
  (∃ c, 0 ≤ c < sb_size sb ∧ used sb (t_view A) c = false) →
  runs (balloc ld_dev)
    (λ c s', ∃ l A', s' = set_log l s ∧ ld_abs l A' ∧ alloced sb A c A' ∧
       ∀ c', 0 ≤ c' < c → used sb (t_view A) c' = true) s.
Proof.
  intros. eapply (balloc_ok sb Hly); [done..|]. intros c l A' Hl Hal Hfirst. exists l, A'. done.
Qed.

(** C7. [writei] returns the number of bytes and replaces exactly those bytes of
    the file: the file is as long as it must be, its other bytes keep their values,
    the blocks it gained were free, the files that share no block with it keep
    every byte, and the inode on the disk agrees with the one in memory again. *)
Theorem writei_replaces_bytes s A ip i off src :
  let n := Z.of_nat (length src) in
  f_sb s = sb → (ip < length (f_inodes s))%nat → ld_abs (f_log s) A → f_inodes s !!! ip = i →
  i_dev i = ld_dev → i_type i ≠ T_DEV → 0 ≤ i_inum i < sb_ninodes sb →
  iwf sb (t_view A) i → ifull (t_view A) i → fs_ok sb (t_view A) → t_held A = ∅ → t_mod A = ∅ →
  Forall (λ b, 0 ≤ b < 2 ^ 8) src → 0 ≤ off ≤ i_size i → off + n ≤ MAXFILE * BSIZE →
  t_cost sb A + 2 * nblk off n + 2 ≤ ld_cap → has_free sb (t_view A) (2 * nblk off n) →
  runs (writei dw ip src off n)
    (λ r s', r = n ∧ ∃ l A' i', s' = set_log l (put_ip ip i' s) ∧ ld_abs l A' ∧ fdone sb A i off src A' i') s.
Proof.
  intros. eapply (writei_ok sb Hly); [done..|]. intros l A' i' Hl Hd _. split; [done|]. by exists l, A', i'.
Qed.

(** C8. Bytes written to a file are the bytes read from it: [writei] followed by
    [readi] at the same offset returns what was written. *)
Theorem writei_readi_roundtrip s A ip i off src :
  let n := Z.of_nat (length src) in
  f_sb s = sb → (ip < length (f_inodes s))%nat → ld_abs (f_log s) A → f_inodes s !!! ip = i →
  i_dev i = ld_dev → i_type i ≠ T_DEV → 0 ≤ i_inum i < sb_ninodes sb →
  iwf sb (t_view A) i → ifull (t_view A) i → fs_ok sb (t_view A) → t_held A = ∅ → t_mod A = ∅ →
  Forall (λ b, 0 ≤ b < 2 ^ 8) src → 0 ≤ off ≤ i_size i → off + n ≤ MAXFILE * BSIZE →
  t_cost sb A + 2 * nblk off n + 2 ≤ ld_cap → has_free sb (t_view A) (2 * nblk off n) →
  runs (r ← writei dw ip src off n; r' ← readi dr ip off n; mret (r, r')) (λ x _, x = (n, (n, src))) s.
Proof.
  intros n Hsb Hlen HA Hip Hdev Hty Hin Hw Hf Hok Hh Hm Hsrc Hoff Hmax Hcost Hfree.
  assert (HM : MAXFILE * BSIZE = 71680) by done. kstep.
  eapply (writei_ok sb Hly); [done..|]. intros l A' i' Hl Hd Hu.
  destruct (fd_meta _ _ _ _ _ _ _ Hd) as [la Ela]. kstep.
  assert (Es : i_size i' = Z.max (i_size i) (off + n)) by (by rewrite Ela).
  eapply (readi_ok sb Hly dr _ A' ip i'); [done| |by rewrite Ela|by rewrite Ela| |apply Hd..|done|lia|lia|lia|].
  { simpl. by rewrite list_lookup_total_insert_eq. }
  { apply Hd. }
  intros l' _. cbv zeta. kstep. rewrite Z.min_l by lia. do 2 f_equal. apply fbytes_of.
  intros o Ho. rewrite (fd_bytes _ _ _ _ _ _ _ Hd) by lia. bdestruct_all; simpl; try done; lia.
Qed.

(** An inode that [iupdate] wrote is the one [ilock] loads when its cache entry
    was given to another inode meanwhile: every field stored on the disk comes back. *)
Theorem ilock_loads_what_iupdate_stored s A ip i j :
  f_sb s = sb → (ip < length (f_inodes s))%nat → ld_abs (f_log s) A → f_inodes s !!! ip = i →
  i_dev i = ld_dev → 0 ≤ i_inum i < sb_ninodes sb → ifields i → i_type i ≠ 0 →
  fs_ok sb (t_view A) → t_held A = ∅ → t_mod A = ∅ → t_cost sb A + 2 ≤ ld_cap →
  i_dev j = i_dev i → i_inum j = i_inum i → 1 ≤ i_ref j → i_locked j = false → i_valid j = false →
  runs (iupdate ip;; kmod (put_ip ip j);; ilock ip)
    (λ _ s', f_inodes s' !!! ip =
       Inode (i_dev i) (i_inum i) (i_ref j) true (f_pid s) true (i_type i) (i_major i) (i_minor i)
         (i_nlink i) (i_size i) (i_addrs i)) s.
Proof.
  intros Hsb Hlen HA Hip Hdev Hin Hf Hty Hok Hh Hm Hc Jd Ji Jr Jl Jv. kstep.
  pose proof (t_use_cost sb Hly A). eapply (iupdate_ok sb Hly); [done..|lia|]. intros l Hl. kstep. kstep.
  pose proof (iupdated_use sb Hly A i Hh Hc) as Hu. destruct (iblock_home sb Hly _ Hin) as (_ & Hb & _ & _ & Hr).
  assert (E : f_inodes (put_ip ip j (set_log l s)) !!! ip = j)
    by (simpl; by rewrite list_lookup_total_insert_eq).
  set (b := IBLOCK (i_inum i) sb) in *.
  assert (Ed : ∀ k, get_dinode (t_view (iupdated sb A i) b) (dinode_off (i_inum i)) k =
    Inode (i_dev k) (i_inum k) (i_ref k) (i_locked k) (i_pid k) (i_valid k)
      (i_type i) (i_major i) (i_minor i) (i_nlink i) (i_size i) (i_addrs i)).
  { intros k. unfold iupdated. simpl. fold b. rewrite fupd_eq.
    apply get_put_dinode; [done|apply dinode_off_range|].
    rewrite (proj1 (fo_bytes _ _ Hok _ Hr)). apply dinode_off_range. }
  eapply (ilock_load_ok sb Hly _ (iupdated sb A i) ip j); rewrite ?Ji; try done.
  - simpl. by rewrite length_insert.
  - by rewrite Jd.
  - fold b. by rewrite Ed.
  - intros l2 _. fold b. rewrite Ed, put_ip_put, inodes_set_log, put_ip_get by done.
    unfold set_valid, set_ilock. simpl. by rewrite Jd, Ji.
Qed.

(** C9. In a cache whose reference counts are not negative and which has no inode in
    two entries, [iget] keeps it so.  It returns the entry that
    has the inode with one reference more, or a free entry that now has it with one
    reference and nothing loaded; the other entries do not change, and it panics
    only when no entry has the inode and none is free. *)
Theorem iget_keeps_one_entry_per_inode s dev inum :
  icache_ok (f_inodes s) →
  match iget dev inum s with
  | Ok (k, s') => entry_for s dev inum k s' ∧ icache_ok (f_inodes s')
  | Panic m => m = "iget: no inodes" ∧
      ∀ k ip, f_inodes s !! k = Some ip → cached ip dev inum = false ∧ 0 < i_ref ip
  | Hang => False
  end.
Proof.
  intros Hok. pose proof (iget_spec s dev inum Hok) as Hs. destruct (iget dev inum s) as [[k s']|m|]; [|done|done].
  split; [done|]. by eapply entry_for_ok.
Qed.


(** C11. Path names: the names that successive calls of [skipelem] copy out are the
    elements of the path between slashes, in order, each cut at [DIRSIZ]
    characters, and the calls come to the end of the path. *)
Theorem skipelem_yields_the_elements path name :
  Forall (λ c, c ≠ 0) path → length name = Z.to_nat DIRSIZ →
  walk (S (length path)) path name = Some (take (Z.to_nat DIRSIZ) <$> words path).
Proof. intros. by apply walk_words; [lia|..]. Qed.

End properties.

(** ** On the image *)

Lemma image_abs : ld_abs image_log (Labs image_view ∅ ∅ ∅).
Proof.
  exists (Cabs (dread image) image ∅ ∅).
  destruct (binit_ok image 3 (λ _ s, babs s (Cabs (dread image) image ∅ ∅))) as ([] & s & E & Hs); [done|].
  split; try done; [|by intros k; right; right].
  split; try done; first [apply NoDup_nil_2 | apply Forall_nil_2 | by apply bytes_ok_zeroes|idtac].
  simpl. unfold image_bufs. by rewrite E.
Qed.

Lemma image_layout : layout image_sb.
Proof. split; try by vm_compute. intros b Hb. simpl in *. unfold home. lia. Qed.

Lemma image_ok : fs_ok image_sb image_view.
Proof.
  split.
  - intros b _. unfold image_view, dread, image. cbn [d_blk].
    destruct (decide (b = 58)) as [-> |Hb].
    + rewrite lookup_singleton_eq. change (bytes_ok BSIZE (replicate 7 255 ++ [7] ++ replicate 504 0)). split; [done|]. rewrite !Forall_app, Forall_singleton.
      split_and!; try apply Forall_replicate; lia.
    + rewrite lookup_singleton_ne by congruence. by apply bytes_ok_zeroes.
  - assert (Hall : forallb (used image_sb image_view) (seqZ 0 59) = true) by (by vm_compute).
    rewrite forallb_forall in Hall. intros b Hb. change (dstart image_sb) with 59 in Hb.
    apply Hall, list_elem_of_In, elem_of_seqZ. lia.
Qed.

Definition image_A : labs := Labs image_view ∅ ∅ ∅.

Lemma balloc_takes_first_free_witness :
  runs (balloc 1) (λ c _, c = 59) (image_fs (image_inode T_FILE)).
Proof.
  eapply runs_mono.
  - apply (balloc_takes_first_free image_sb image_layout (image_fs (image_inode T_FILE)) image_A).
    + done.
    + exact image_abs.
    + done.
    + exact image_ok.
    + by vm_compute.
    + exists 500. by vm_compute.
  - simpl. intros c s' (l & A' & _ & _ & Hal & Hf). pose proof (al_data _ _ _ _ Hal) as [Hd _].
    change (dstart image_sb) with 59 in Hd. destruct (decide (c = 59)) as [|Hc]; [done|].
    specialize (Hf 59 ltac:(lia)). by vm_compute in Hf.
Defined.

(** Nothing is mapped in an empty file. *)
Lemma image_slot ty k : 0 ≤ k < nslots → slot image_view (image_inode ty) k = 0.
Proof.
  intros Hk. unfold slot. destruct (Z.leb_spec k NDIRECT); [|done]. unfold addr. change (i_addrs _) with (replicate 13 (0 : Z)).
  assert (NDIRECT = 12) by done. by rewrite lookup_total_replicate_2 by lia.
Qed.

Lemma image_iwf ty : iwf image_sb image_view (image_inode ty).
Proof.
  split; [done|intros k Hk Hs; by rewrite image_slot in Hs|intros k k' Hk _ Hs; by rewrite image_slot in Hs].
Qed.

Lemma image_ifull ty : ifull image_view (image_inode ty).
Proof. split; [by vm_compute|]. intros bn H0 Hb. simpl in Hb. assert (BSIZE = 512) by done. lia. Qed.

Lemma image_free : has_free image_sb image_view 2.
Proof.
  exists {[500; 501]}. split; [by vm_compute|].
  intros c [->%elem_of_singleton| ->%elem_of_singleton]%elem_of_union; by vm_compute.
Qed.

Definition no_read (_ : Z) : option (nat → Z → K (fs (lst bst)) (Z * list Z)) := None.
Definition no_write (_ : Z) : option (nat → list Z → Z → K (fs (lst bst)) Z) := None.

Lemma writei_replaces_bytes_witness :
  runs (writei no_write 0 [104; 105; 33] 0 3)
    (λ r s', r = 3 ∧ i_size (f_inodes s' !!! 0%nat) = 3) (image_fs (image_inode T_FILE)).
Proof.
  eapply runs_mono.
  - apply (writei_replaces_bytes no_write image_sb image_layout (image_fs (image_inode T_FILE)) image_A 0
             (image_inode T_FILE) 0 [104; 105; 33]); try done.
    + simpl. lia.
    + exact image_abs.
    + apply image_iwf.
    + apply image_ifull.
    + exact image_ok.
    + repeat constructor; lia.
    + exact image_free.
  - simpl. intros r s' (-> & l & A' & i' & -> & _ & Hd). split; [done|].
    destruct (fd_meta _ _ _ _ _ _ _ Hd) as [la ->]. done.
Defined.

Lemma writei_readi_roundtrip_witness :
  runs (r ← writei no_write 0 [104; 105; 33] 0 3; r' ← readi no_read 0 0 3; mret (r, r'))
    (λ x _, x = (3, (3, [104; 105; 33]))) (image_fs (image_inode T_FILE)).
Proof.
  apply (writei_readi_roundtrip no_read no_write image_sb image_layout (image_fs (image_inode T_FILE)) image_A 0
           (image_inode T_FILE) 0 [104; 105; 33]); try done.
  - simpl. lia.
  - exact image_abs.
  - apply image_iwf.
  - apply image_ifull.
  - exact image_ok.
  - repeat constructor; lia.
  - exact image_free.
Defined.

Lemma ilock_loads_what_iupdate_stored_witness :
  let j := Inode 1 2 1 false 0 false 0 0 0 0 0 [] in
  runs (iupdate 0;; kmod (put_ip 0 j);; ilock 0)
    (λ _ s', i_type (f_inodes s' !!! 0%nat) = T_FILE ∧ i_nlink (f_inodes s' !!! 0%nat) = 1)
    (image_fs (image_inode T_FILE)).
Proof.
  intros j. eapply runs_mono.
  - apply (ilock_loads_what_iupdate_stored image_sb image_layout (image_fs (image_inode T_FILE)) image_A 0
             (image_inode T_FILE) j); try done.
    + simpl. lia.
    + exact image_abs.
    + unfold image_inode, T_FILE. split; cbn [i_type i_major i_minor i_nlink i_size i_addrs]; try lia; [done|].
      apply Forall_replicate. lia.
    + exact image_ok.
  - intros [] s' Es'. rewrite Es'. done.
Defined.

Lemma image_icache ty : icache_ok (f_inodes (image_fs (image_inode ty))).
Proof.
  assert (Hl : ∀ k ip, f_inodes (image_fs (image_inode ty)) !! k = Some ip →
     k = 0%nat ∧ ip = image_inode ty ∨ i_ref ip = 0).
  { intros [|k] ip E; [left; change (Some (image_inode ty) = Some ip) in E; by simplify_eq|right].
    change (replicate 49 (Inode 0 0 0 false 0 false 0 0 0 0 0 (replicate 13 0)) !! k = Some ip) in E.
    apply lookup_replicate in E as [-> _]. done. }
  split.
  - intros k ip [[-> ->]|E]%Hl; [done|lia].
  - intros j k ip ip' dev inum [[-> _]|E]%Hl [[-> _]|E']%Hl; [done|..];
      intros (? & _)%cached_true (? & _)%cached_true; lia.
Qed.

Lemma iget_keeps_one_entry_per_inode_witness :
  match iget 1 7 (image_fs (image_inode T_FILE)) with
  | Ok (k, s') => k = 1%nat ∧ icache_ok (f_inodes s')
  | _ => False
  end.
Proof.
  pose proof (iget_keeps_one_entry_per_inode (image_fs (image_inode T_FILE)) 1 7 (image_icache T_FILE)) as Hs.
  destruct (iget 1 7 (image_fs (image_inode T_FILE))) as [[k s']|m|] eqn:E; [|by vm_compute in E..].
  split; [|apply Hs]. by vm_compute in E; simplify_eq.
Defined.


Lemma skipelem_yields_the_elements_witness :
  walk 6 [47; 97; 47; 47; 98] (zeroes DIRSIZ) = Some [[97]; [98]].
Proof. apply (skipelem_yields_the_elements [47; 97; 47; 47; 98] (zeroes DIRSIZ)); [by repeat constructor|done]. Defined.
