(* ===== verification/Mkfs.v ===== *)
(** * Making a file system: [xv6/mkfs.c]

    The program that builds the disk image on the host.  The image is a file of
    sectors; [lseek] and [write] on it succeed, a read past its end is the error on which
    the program exits.  The host is little-endian, so that [xshort] and [xint] keep the
    value and the structures in memory have the layout of the disk.  A [struct dinode]
    in memory is an [inode] whose in-memory fields are zero. *)

From S2P Require Import Prelude Bytes Ide Log Trans Fs FsDir.

Definition NINODES : Z := 200.

Definition xshort (x : Z) : Z := u16 x.
Definition xint (x : Z) : Z := u32 x.

Definition nbitmap : Z := FSSIZE / (BSIZE * 8) + 1.
Definition ninodeblocks : Z := NINODES / IPB + 1.
Definition mkfs_nlog : Z := LOGSIZE.
Definition nmeta : Z := 2 + mkfs_nlog + ninodeblocks + nbitmap.
Definition nblocks : Z := FSSIZE - nmeta.

(** [sb]. *)
Definition mkfs_sb : superblock :=
  Superblock (xint FSSIZE) (xint nblocks) (xint NINODES) (xint mkfs_nlog) (xint 2) (xint (2 + mkfs_nlog))
    (xint (2 + mkfs_nlog + ninodeblocks)).

(** The image, its number of sectors, [freeinode] and [freeblock]. *)
Record mk := Mk {
  m_img : Z → list Z;
  m_end : Z;
  m_freeinode : Z;
  m_freeblock : Z
}.

Definition wsect (sec : Z) (buf : list Z) : K mk unit :=
  kmod (λ s, Mk (fupd (m_img s) sec buf) (Z.max (m_end s) (sec + 1)) (m_freeinode s) (m_freeblock s)).

Definition rsect (sec : Z) : K mk (list Z) :=
  s ← kget;
  if sec <? m_end s then mret (m_img s sec) else kpanic "read".

(** [struct dinode] cleared by [bzero]. *)
Definition zero_dinode : inode := Inode 0 0 0 false 0 false 0 0 0 0 0 (replicate (Z.to_nat (NDIRECT + 1)) 0).

Definition winode (inum : Z) (ip : inode) : K mk unit :=
  let bn := IBLOCK inum mkfs_sb in
  buf ← rsect bn;
  wsect bn (put_dinode buf (dinode_off inum) ip).

Definition rinode (inum : Z) : K mk inode :=
  buf ← rsect (IBLOCK inum mkfs_sb);
  mret (get_dinode buf (dinode_off inum) zero_dinode).

(** [freeinode++] and [freeblock++]. *)
Definition next_inode : K mk Z := λ s,
  Ok (m_freeinode s, Mk (m_img s) (m_end s) (u32 (m_freeinode s + 1)) (m_freeblock s)).
Definition next_block : K mk Z := λ s,
  Ok (m_freeblock s, Mk (m_img s) (m_end s) (m_freeinode s) (u32 (m_freeblock s + 1))).

Definition mkfs_ialloc (type : Z) : K mk Z :=
  inum ← next_inode;
  let din := set_type (xshort type) zero_dinode in
  let din := set_nlink (xshort 1) din in
  let din := set_size (xint 0) din in
  winode inum din;;
  mret inum.

(** The loop of [balloc]: bits [i] to [i + k - 1]. *)
Fixpoint set_bits (buf : list Z) (i : Z) (k : nat) : list Z :=
  match k with
  | O => buf
  | S k' => set_bits (put8 buf (i / 8) (Z.lor (get8 buf (i / 8)) (1 ≪ (i mod 8)))) (i + 1) k'
  end.

Definition mkfs_balloc (used : Z) : K mk unit :=
  kassert (used <? BSIZE * 8) "assert";;
  wsect (sb_bmapstart mkfs_sb) (set_bits (zeroes BSIZE) 0 (Z.to_nat used)).

(** The block of the file that [iappend] is to fill, allocated if it is not there. *)
Definition iappend_block (din : inode) (fbn : Z) : K mk (inode * Z) :=
  if fbn <? NDIRECT then
    din ← (if xint (addr fbn din) =? 0 then b ← next_block; mret (set_addr fbn (xint b) din) else mret din);
    mret (din, xint (addr fbn din))
  else
    din ← (if xint (addr NDIRECT din) =? 0 then b ← next_block; mret (set_addr NDIRECT (xint b) din) else mret din);
    indirect ← rsect (xint (addr NDIRECT din));
    let off := 4 * (fbn - NDIRECT) in
    indirect ← (if get32 indirect off =? 0 then
                  b ← next_block;
                  let indirect := put32 indirect off (xint b) in
                  wsect (xint (addr NDIRECT din)) indirect;;
                  mret indirect
                else mret indirect);
    mret (din, xint (get32 indirect off)).

(** The loop of [iappend]: the bytes [p] are still to be appended at [off]. *)
Fixpoint iappend_loop (fuel : nat) (din : inode) (off : Z) (p : list Z) : K mk (inode * Z) :=
  match fuel with
  | O => khang
  | S fuel' =>
      let n := Z.of_nat (length p) in
      if 0 <? n then
        let fbn := off / BSIZE in
        kassert (fbn <? MAXFILE) "assert";;
        r ← iappend_block din fbn;
        let '(din, x) := r in
        let n1 := Z.min n ((fbn + 1) * BSIZE - off) in
        buf ← rsect x;
        wsect x (splice buf (off - fbn * BSIZE) (take (Z.to_nat n1) p));;
        iappend_loop fuel' din (u32 (off + n1)) (drop (Z.to_nat n1) p)
      else mret (din, off)
  end.

Definition iappend (inum : Z) (p : list Z) : K mk unit :=
  din ← rinode inum;
  r ← iappend_loop (S (length p)) din (xint (i_size din)) p;
  let '(din, off) := r in
  winode inum (set_size (xint off) din).

(** The sectors of zeroes that [main] writes first. *)
Fixpoint zero_sectors (i : Z) (k : nat) : K mk unit :=
  match k with
  | O => mret tt
  | S k' => wsect i (zeroes BSIZE);; zero_sectors (i + 1) k'
  end.

(** The buffer with [sb] at its start. *)
Definition sb_block (sb : superblock) : list Z :=
  splice (zeroes BSIZE) 0
    (le32 (sb_size sb) ++ le32 (sb_nblocks sb) ++ le32 (sb_ninodes sb) ++ le32 (sb_nlog sb) ++
     le32 (sb_logstart sb) ++ le32 (sb_inodestart sb) ++ le32 (sb_bmapstart sb)).

(** A file of the command line: its name, and what each [read] of it returns. *)
Record hostfile := Hostfile { h_name : list Z; h_chunks : list (list Z) }.

(** The name in the file system: a leading underscore is skipped. *)
Definition mkfs_name (name : list Z) : list Z :=
  match name with
  | c :: name' => if c =? 95 then name' else name
  | [] => []
  end.

Fixpoint append_chunks (inum : Z) (chunks : list (list Z)) : K mk unit :=
  match chunks with
  | [] => mret tt
  | c :: chunks' => if Z.of_nat (length c) <=? 0 then mret tt else iappend inum c;; append_chunks inum chunks'
  end.

(** The loop over the files. *)
Fixpoint add_files (rootino : Z) (files : list hostfile) : K mk unit :=
  match files with
  | [] => mret tt
  | f :: files' =>
      kassert (negb (existsb (Z.eqb 47) (h_name f))) "assert";;
      inum ← mkfs_ialloc T_FILE;
      iappend rootino (mkdent (mkfs_name (h_name f)) (xshort inum));;
      append_chunks inum (h_chunks f);;
      add_files rootino files'
  end.

Definition mkfs_main (files : list hostfile) : K mk unit :=
  kmod (λ s, Mk (m_img s) (m_end s) (m_freeinode s) nmeta);;
  zero_sectors 0 (Z.to_nat FSSIZE);;
  wsect 1 (sb_block mkfs_sb);;
  rootino ← mkfs_ialloc T_DIR;
  kassert (rootino =? ROOTINO) "assert";;
  iappend rootino (mkdent [46] (xshort rootino));;
  iappend rootino (mkdent [46; 46] (xshort rootino));;
  add_files rootino files;;
  din ← rinode rootino;
  let off := xint (i_size din) in
  let off := u32 ((off / BSIZE + 1) * BSIZE) in
  winode rootino (set_size (xint off) din);;
  s ← kget;
  mkfs_balloc (m_freeblock s).

(** The image file is created empty. *)
Definition mkfs_start : mk := Mk (λ _, zeroes BSIZE) 0 1 0.
