(* ===== verification/MkfsProps.v ===== *)
(** * What [mkfs] makes

    The image that [mkfs] leaves is a file system in the sense of the files on [xv6/fs.c]:
    the inodes agree with the disk, their blocks are their own and marked in use, and
    they hold the bytes of the files of the command line.  So the kernel's [readi] and
    [dirlookup] find what [mkfs] put there. *)

From S2P Require Import Prelude Bytes Ide Log Trans Fs FsAlloc FsFile FsInode FsDir Mkfs.

(** ** Blocks of files *)

(** Where each slot of each inode is: data blocks in [59, fb), none shared.  The blocks
    from [fb] on, the boot block and the log are zero. *)
Record alloc_ok (v : Z → list Z) (fb : Z) (ins : list inode) : Prop := {
  ao_len j i : ins !! j = Some i → length (i_addrs i) = 13%nat;
  ao_addrs j i : ins !! j = Some i → Forall (λ a, 0 ≤ a < 2 ^ 32) (i_addrs i);
  ao_slot j i k : ins !! j = Some i → 0 ≤ k < nslots → slot v i k ≠ 0 → nmeta ≤ slot v i k < fb;
  ao_inj j j' i i' k k' : ins !! j = Some i → ins !! j' = Some i' → 0 ≤ k < nslots → 0 ≤ k' < nslots →
    slot v i k ≠ 0 → slot v i k = slot v i' k' → j = j' ∧ k = k';
  ao_zero b : fb ≤ b ∨ b < 32 ∧ b ≠ 1 → v b = zeroes BSIZE;
  ao_bytes b : bytes_ok BSIZE (v b);
  ao_fb : nmeta ≤ fb ≤ FSSIZE
}.

(** The inode has [m] blocks of data, which hold [c] and zeroes after it. *)
Record holds (v : Z → list Z) (i : inode) (c : list Z) (m : Z) : Prop := {
  ho_bytes o : 0 ≤ o < m * BSIZE → fbyte v i o = get8 c o;
  ho_blocks bn : 0 ≤ bn < MAXFILE → slot v i (bslot bn) ≠ 0 ↔ bn < m;
  ho_ind : addr NDIRECT i ≠ 0 ↔ NDIRECT < m;
  ho_fits : Z.of_nat (length c) ≤ m * BSIZE;
  ho_max : 0 ≤ m ≤ MAXFILE
}.

Lemma consts : nmeta = 59 ∧ FSSIZE = 1000 ∧ NDIRECT = 12 ∧ NINDIRECT = 128 ∧ MAXFILE = 140 ∧ nslots = 141 ∧ BSIZE = 512.
Proof. by vm_compute. Qed.

(** The slots depend on the inode and on its indirect block. *)
Lemma slot_frame v v' i k : (addr NDIRECT i ≠ 0 → v' (addr NDIRECT i) = v (addr NDIRECT i)) → slot v' i k = slot v i k.
Proof.
  intros E. unfold slot. destruct (k <=? NDIRECT); [done|]. destruct (Z.eqb_spec (addr NDIRECT i) 0); [done|]. by rewrite E.
Qed.

Lemma slot_ndirect v i : slot v i NDIRECT = addr NDIRECT i.
Proof. done. Qed.

(** What does not touch the blocks of a file leaves the file. *)
Lemma holds_frame v v' i c m : holds v i c m →
  (∀ k, 0 ≤ k < nslots → slot v i k ≠ 0 → v' (slot v i k) = v (slot v i k)) → holds v' i c m.
Proof.
  intros [] E. destruct consts as (_ & _ & HN & _ & HM & HS & HB).
  assert (Es : ∀ k, slot v' i k = slot v i k).
  { intros k. apply slot_frame. rewrite <- (slot_ndirect v i). apply E. lia. }
  split; try done.
  - intros o Ho. rewrite <- ho_bytes0 by done. unfold fbyte. rewrite Es. f_equal.
    assert (Hbn : 0 ≤ o / BSIZE < m) by (split; [apply Z.div_pos; lia|apply Z.div_lt_upper_bound; lia]).
    apply E; [apply bslot_range; lia|]. apply ho_blocks0; lia.
  - intros bn Hbn. rewrite Es. by apply ho_blocks0.
Qed.

Section alloc.
Context (v : Z → list Z) (fb : Z) (ins : list inode) (j : nat) (i : inode).
Context (Hok : alloc_ok v fb ins) (Hj : ins !! j = Some i).

(** A block of no file changes nothing. *)
Lemma mk_alloc_other b d : bytes_ok BSIZE d → 32 ≤ b < fb →
  (∀ j' i' k, ins !! j' = Some i' → 0 ≤ k < nslots → slot v i' k = b → slot v i' k ≠ 0 → k ≠ NDIRECT) →
  alloc_ok (fupd v b d) fb ins ∧ (∀ j' i' k, ins !! j' = Some i' → slot (fupd v b d) i' k = slot v i' k).
Proof.
  intros Hd Hb Hno. destruct consts as (_ & _ & HN & _ & _ & HS & _).
  assert (Es : ∀ j' i' k, ins !! j' = Some i' → slot (fupd v b d) i' k = slot v i' k).
  { intros j' i' k Hj'. apply slot_frame. intros Hi. apply fupd_ne. intros E.
    apply (Hno j' i' NDIRECT Hj'); [lia|done|done|done]. }
  split; [|done]. destruct Hok. split; try done.
  - intros j' i' k Hj' Hk. rewrite (Es j' i' k Hj'). eauto.
  - intros j1 j2 i1 i2 k k' H1 H2 Hk Hk'. rewrite (Es j1 i1 k H1), (Es j2 i2 k' H2). eauto.
  - intros b' Hb'. rewrite fupd_ne by lia. auto.
  - intros b'. unfold fupd. case_decide; auto.
Qed.

(** A direct block, or the indirect block, is taken from the free ones. *)
Lemma alloc_addr k : addr k i = 0 → 0 ≤ k ≤ NDIRECT → fb < FSSIZE →
  let i' := set_addr k fb i in
  (∀ kk, 0 ≤ kk < nslots → slot v i' kk = if decide (kk = k) then fb else slot v i kk) ∧
  alloc_ok v (fb + 1) (<[j := i']> ins).
Proof.
  intros Ha Hk Hfb i'. destruct consts as (HM & HF & HN & _ & _ & HS & _). pose proof Hok as [].
  assert (Hlen : length (i_addrs i) = 13%nat) by eauto.
  assert (Eaddr : ∀ kk, 0 ≤ kk ≤ NDIRECT → addr kk i' = if decide (kk = k) then fb else addr kk i).
  { intros kk Hkk. unfold addr, i', set_addr. simpl. case_decide as E.
    - subst kk. apply list_lookup_total_insert_eq. lia.
    - apply list_lookup_total_insert_ne. lia. }
  assert (Es : ∀ kk, 0 ≤ kk < nslots → slot v i' kk = if decide (kk = k) then fb else slot v i kk).
  { intros kk Hkk. unfold slot. destruct (Z.leb_spec kk NDIRECT); [by apply Eaddr; lia|].
    rewrite (decide_False (P := kk = k)) by lia. rewrite Eaddr by lia. case_decide as E; [|done].
    rewrite <- E in Ha. rewrite Ha, Z.eqb_refl. rewrite (proj2 (Z.eqb_neq fb 0)) by lia.
    rewrite ao_zero0 by lia. apply get32_zeroes. }
  split; [done|]. assert (Hlt : (j < length ins)%nat) by (by eapply lookup_lt_Some).
  assert (Hcase : ∀ j1 i1, <[j := i']> ins !! j1 = Some i1 → (j1 = j ∧ i1 = i') ∨ (j1 ≠ j ∧ ins !! j1 = Some i1)).
  { intros j1 i1 H1. destruct (decide (j1 = j)) as [-> |]; [rewrite list_lookup_insert_eq in H1 by done; left; by simplify_eq|].
    right. by rewrite list_lookup_insert_ne in H1. }
  split.
  - intros j1 i1 [[-> ->]|[_ H1]]%Hcase; [by simpl; rewrite length_insert|eauto].
  - intros j1 i1 [[-> ->]|[_ H1]]%Hcase; [simpl; apply Forall_insert; [eauto|lia]|eauto].
  - intros j1 i1 kk [[-> ->]|[_ H1]]%Hcase Hkk Hne.
    + rewrite Es in * by done. case_decide; [lia|]. pose proof (ao_slot0 j i kk Hj Hkk Hne). lia.
    + pose proof (ao_slot0 _ _ _ H1 Hkk Hne). lia.
  - intros j1 j2 i1 i2 k1 k2 [[-> ->]|[N1 H1]]%Hcase [[-> ->]|[N2 H2]]%Hcase Hk1 Hk2 Hne E.
    + rewrite !Es in * by done. repeat case_decide; subst; [done| | |by eapply ao_inj0].
      * pose proof (ao_slot0 j i k2 Hj Hk2). lia.
      * pose proof (ao_slot0 j i k1 Hj Hk1). lia.
    + rewrite Es in * by done. case_decide; [|by edestruct (ao_inj0 j j2 i i2 k1 k2)]. pose proof (ao_slot0 j2 i2 k2 H2 Hk2). lia.
    + rewrite Es in * by done. case_decide; [|by edestruct (ao_inj0 j1 j i1 i k1 k2)]. pose proof (ao_slot0 j1 i1 k1 H1 Hk1). lia.
    + eauto.
  - intros b Hb. apply ao_zero0. lia.
  - done.
  - lia.
Qed.

(** An entry of the indirect block is taken from the free ones. *)
Lemma alloc_entry e : addr NDIRECT i ≠ 0 → 0 ≤ e < NINDIRECT → get32 (v (addr NDIRECT i)) (4 * e) = 0 → fb < FSSIZE →
  let v' := fupd v (addr NDIRECT i) (put32 (v (addr NDIRECT i)) (4 * e) fb) in
  (∀ kk, 0 ≤ kk < nslots → slot v' i kk = if decide (kk = NDIRECT + 1 + e) then fb else slot v i kk) ∧
  (∀ j' i' kk, j' ≠ j → ins !! j' = Some i' → slot v' i' kk = slot v i' kk) ∧
  alloc_ok v' (fb + 1) ins.
Proof.
  intros Ha He Hz Hfb v'. destruct consts as (HM & HF & HN & HI & _ & HS & HB). pose proof Hok as [].
  pose proof (ao_bytes0 (addr NDIRECT i)) as Hb. assert (Hl : Z.of_nat (length (v (addr NDIRECT i))) = 512) by (rewrite <- HB; apply Hb).
  assert (Hdr : nmeta ≤ addr NDIRECT i < fb) by (apply (ao_slot0 j i NDIRECT Hj); [lia|done]).
  assert (Es : ∀ kk, 0 ≤ kk < nslots → slot v' i kk = if decide (kk = NDIRECT + 1 + e) then fb else slot v i kk).
  { intros kk Hkk. unfold slot, v'. destruct (Z.leb_spec kk NDIRECT); [by rewrite decide_False by lia|].
    rewrite (proj2 (Z.eqb_neq _ _) Ha), fupd_eq. case_decide as E.
    - replace (kk - NDIRECT - 1) with e by lia. rewrite get32_put32_eq by lia. apply u32_small. lia.
    - rewrite get32_put32_ne by lia. done. }
  assert (Eo : ∀ j' i' kk, j' ≠ j → ins !! j' = Some i' → slot v' i' kk = slot v i' kk).
  { intros j' i' kk Hne Hj'. apply slot_frame. intros Hi. apply fupd_ne. intros E.
    destruct (ao_inj0 j' j i' i NDIRECT NDIRECT Hj' Hj); [lia|lia|done|done|done]. }
  assert (Hcase : ∀ j1 i1 kk, ins !! j1 = Some i1 → 0 ≤ kk < nslots →
    (j1 = j ∧ kk = NDIRECT + 1 + e ∧ slot v' i1 kk = fb ∧ slot v i1 kk = 0) ∨ slot v' i1 kk = slot v i1 kk).
  { intros j1 i1 kk H1 Hkk. destruct (decide (j1 = j)) as [-> |Hne]; [|right; by eapply Eo]. simplify_eq.
    rewrite Es by done. case_decide as E; [left|by right]. split_and!; try done. rewrite E. unfold slot.
    rewrite (proj2 (Z.leb_gt _ _)) by lia. rewrite (proj2 (Z.eqb_neq _ _) Ha). by replace (NDIRECT + 1 + e - NDIRECT - 1) with e by lia. }
  split_and!; [done|done|]. split; try done.
  - intros j1 i1 kk H1 Hkk Hne. destruct (Hcase j1 i1 kk H1 Hkk) as [(_ & _ & -> & _)|E]; [lia|].
    rewrite E in *. pose proof (ao_slot0 _ _ _ H1 Hkk Hne). lia.
  - intros j1 j2 i1 i2 k1 k2 H1 H2 Hk1 Hk2 Hne E.
    destruct (Hcase j1 i1 k1 H1 Hk1) as [(-> & -> & E1 & Z1)|E1], (Hcase j2 i2 k2 H2 Hk2) as [(-> & -> & E2 & Z2)|E2]; rewrite E1, ?E2 in *.
    + done.
    + pose proof (ao_slot0 j2 i2 k2 H2 Hk2). lia.
    + pose proof (ao_slot0 j1 i1 k1 H1 Hk1). lia.
    + eauto.
  - intros b Hb'. unfold v'. rewrite fupd_ne by lia. apply ao_zero0. lia.
  - intros b. unfold v', fupd. case_decide; [by apply bytes_ok_put32|done].
  - lia.
Qed.
End alloc.

(** ** One more block *)

(** Blocks of a file of [m] blocks of data. *)
Definition cost (m : Z) : Z := m + if NDIRECT <? m then 1 else 0.

Lemma get8_past c o : Z.of_nat (length c) ≤ o → get8 c o = 0.
Proof. intros. unfold get8. by rewrite lookup_ge_None_2 by lia. Qed.

(** The next block of data is there and is zero. *)
Lemma holds_grow v i c m v' i' fb : holds v i c m → m < MAXFILE → fb ≠ 0 → v' fb = zeroes BSIZE →
  (∀ bn, 0 ≤ bn < MAXFILE → slot v' i' (bslot bn) = if decide (bn = m) then fb else slot v i (bslot bn)) →
  (∀ bn, 0 ≤ bn < m → v' (slot v i (bslot bn)) = v (slot v i (bslot bn))) →
  (addr NDIRECT i' ≠ 0 ↔ NDIRECT < m + 1) → holds v' i' c (m + 1).
Proof.
  intros [] Hm Hfb Hz Es Ev Hind. destruct consts as (_ & _ & HN & _ & HM & HS & HB). split.
  - intros o Ho. unfold fbyte. set (bn := o / BSIZE).
    assert (Hbn : 0 ≤ bn < m + 1) by (split; [apply Z.div_pos; lia|apply Z.div_lt_upper_bound; lia]).
    rewrite Es by lia. case_decide as E.
    + rewrite Hz, get8_zeroes, get8_past; [done|]. unfold bn in E. pose proof (Z.mul_div_le o BSIZE). lia.
    + rewrite Ev by lia. apply ho_bytes0. split; [lia|]. unfold bn in *.
      pose proof (Z.div_mod o BSIZE). pose proof (Z.mod_pos_bound o BSIZE). nia.
  - intros bn Hbn. rewrite Es by done. case_decide; [lia|]. rewrite ho_blocks0 by done. lia.
  - done.
  - lia.
  - lia.
Qed.

(** The inode with other addresses. *)
Definition with_addrs (l : list Z) (i : inode) : inode :=
  Inode (i_dev i) (i_inum i) (i_ref i) (i_locked i) (i_pid i) (i_valid i) (i_type i) (i_major i) (i_minor i)
    (i_nlink i) (i_size i) l.

(** What [iappend_block] did to inode [j]: it is now [i'], the images differ in blocks of
    its own or in new ones only. *)
Record advanced (s : mk) (ins : list inode) (j : nat) (i i' : inode) (s' : mk) : Prop := {
  ad_end : m_end s' = m_end s;
  ad_inode : m_freeinode s' = m_freeinode s;
  ad_alloc : alloc_ok (m_img s') (m_freeblock s') (<[j := i']> ins);
  ad_addrs : ∃ l, i' = with_addrs l i;
  ad_meta b : b < nmeta → m_img s' b = m_img s b;
  ad_others j' i2 k : j' ≠ j → ins !! j' = Some i2 → 0 ≤ k < nslots → slot (m_img s) i2 k ≠ 0 →
    m_img s' (slot (m_img s) i2 k) = m_img s (slot (m_img s) i2 k)
}.

Lemma advanced_refl s ins j i : alloc_ok (m_img s) (m_freeblock s) ins → ins !! j = Some i → advanced s ins j i i s.
Proof. intros Ha Hj. split; try done; [by rewrite list_insert_id|]. exists (i_addrs i). by destruct i. Qed.

Section append.
Context (s : mk) (ins : list inode) (j : nat) (i : inode) (c : list Z) (m : Z).
Context (Hend : m_end s = FSSIZE) (Hok : alloc_ok (m_img s) (m_freeblock s) ins) (Hj : ins !! j = Some i).
Context (Hh : holds (m_img s) i c m).

Lemma addr_range k : 0 ≤ k ≤ NDIRECT → 0 ≤ addr k i < 2 ^ 32.
Proof.
  intros Hk. destruct consts as (_ & _ & HN & _). destruct Hok. pose proof (ao_len0 _ _ Hj) as Hl. unfold addr.
  destruct (lookup_lt_is_Some_2 (i_addrs i) (Z.to_nat k)) as [a Ha]; [lia|].
  rewrite (list_lookup_total_correct _ _ _ Ha). exact (proj1 (Forall_lookup _ _) (ao_addrs0 _ _ Hj) _ _ Ha).
Qed.

Lemma xint_addr k : 0 ≤ k ≤ NDIRECT → xint (addr k i) = addr k i.
Proof. intros Hk. unfold xint. apply u32_small. by apply addr_range. Qed.

(** A direct block that is not there. *)
Lemma append_direct : m < NDIRECT → m_freeblock s < FSSIZE →
  let i' := set_addr m (m_freeblock s) i in
  let s' := Mk (m_img s) (m_end s) (m_freeinode s) (m_freeblock s + 1) in
  advanced s ins j i i' s' ∧ holds (m_img s) i' c (m + 1) ∧ addr m i' = m_freeblock s.
Proof.
  intros Hm Hfb i' s'. destruct consts as (HME & HF & HN & HI & HM & HS & HB). pose proof Hh as []. pose proof Hok as [].
  assert (Hz : addr m i = 0).
  { destruct (decide (addr m i = 0)) as [|Hne]; [done|]. exfalso. assert (m < m); [|lia].
    apply (ho_blocks0 m); [lia|]. unfold bslot. rewrite (proj2 (Z.ltb_lt _ _)) by lia. unfold slot. by rewrite (proj2 (Z.leb_le _ _)) by lia. }
  destruct (alloc_addr _ _ _ _ _ Hok Hj m Hz) as [Es Ha]; [lia|done|]. fold i' in Es, Ha.
  assert (Ea : addr m i' = m_freeblock s).
  { pose proof (Es m ltac:(lia)) as E. rewrite decide_True in E by done. unfold slot in E. by rewrite (proj2 (Z.leb_le _ _)) in E by lia. }
  split_and!; [|apply (holds_grow (m_img s) i c m _ _ (m_freeblock s)); [done|lia| | | |done|]|done].
  - split; try done. by eexists.
  - lia.
  - apply ao_zero0. lia.
  - intros bn Hbn. destruct (bslot_range bn) as [Hb _]; [lia|]. rewrite Es by done. unfold bslot.
    destruct (Z.ltb_spec bn NDIRECT); [done|]. rewrite !decide_False by lia. done.
  - pose proof (Es NDIRECT ltac:(lia)) as E. rewrite decide_False, !slot_ndirect in E by lia. rewrite E, ho_ind0. lia.
Qed.

(** The indirect block is not there. *)
Lemma append_indirect : m = NDIRECT → m_freeblock s < FSSIZE →
  let i' := set_addr NDIRECT (m_freeblock s) i in
  let s' := Mk (m_img s) (m_end s) (m_freeinode s) (m_freeblock s + 1) in
  advanced s ins j i i' s' ∧ addr NDIRECT i' = m_freeblock s ∧
  (∀ bn, 0 ≤ bn < MAXFILE → slot (m_img s) i' (bslot bn) = slot (m_img s) i (bslot bn)).
Proof.
  intros Hm Hfb i' s'. destruct consts as (HME & HF & HN & HI & HM & HS & HB). pose proof Hh as []. pose proof Hok as [].
  assert (Hz : addr NDIRECT i = 0) by (destruct (decide (addr NDIRECT i = 0)) as [|Hne]; [done|]; apply ho_ind0 in Hne; lia).
  destruct (alloc_addr _ _ _ _ _ Hok Hj NDIRECT Hz) as [Es Ha]; [lia|done|]. fold i' in Es, Ha. split_and!.
  - split; try done. by eexists.
  - pose proof (Es NDIRECT ltac:(lia)) as E. by rewrite decide_True, slot_ndirect in E.
  - intros bn Hbn. destruct (bslot_range bn Hbn) as [Hb Hne]. by rewrite Es, decide_False.
Qed.
End append.

(** An entry of the indirect block that is not there; [i] has its indirect block but
    the file has [m] blocks. *)
Lemma append_entry s ins j i0 i c m : alloc_ok (m_img s) (m_freeblock s) ins → ins !! j = Some i →
  holds (m_img s) i0 c m → (∀ bn, 0 ≤ bn < MAXFILE → slot (m_img s) i (bslot bn) = slot (m_img s) i0 (bslot bn)) →
  NDIRECT ≤ m < MAXFILE → addr NDIRECT i ≠ 0 → m_freeblock s < FSSIZE →
  let b := addr NDIRECT i in
  let d := put32 (m_img s b) (4 * (m - NDIRECT)) (m_freeblock s) in
  let s' := Mk (fupd (m_img s) b d) (m_end s) (m_freeinode s) (m_freeblock s + 1) in
  get32 (m_img s b) (4 * (m - NDIRECT)) = 0 ∧ advanced s ins j i i s' ∧ holds (m_img s') i c (m + 1) ∧
  get32 d (4 * (m - NDIRECT)) = m_freeblock s ∧ slot (m_img s') i (bslot m) = m_freeblock s.
Proof.
  intros Hok Hj Hh E0 Hm Ha Hfb b d s'. destruct consts as (HME & HF & HN & HI & HM & HS & HB). pose proof Hh as []. pose proof Hok as [].
  assert (Hsl : ∀ bn, NDIRECT ≤ bn < MAXFILE → slot (m_img s) i (bslot bn) = get32 (m_img s b) (4 * (bn - NDIRECT))).
  { intros bn Hbn. unfold bslot, slot. rewrite (proj2 (Z.ltb_ge _ _)) by lia. rewrite (proj2 (Z.leb_gt _ _)) by lia.
    rewrite (proj2 (Z.eqb_neq _ _) Ha). fold b. do 2 f_equal. lia. }
  assert (Hz : get32 (m_img s b) (4 * (m - NDIRECT)) = 0).
  { rewrite <- Hsl, E0 by lia. destruct (decide (slot (m_img s) i0 (bslot m) = 0)) as [|Hne]; [done|].
    apply ho_blocks0 in Hne; lia. }
  assert (Hl : Z.of_nat (length (m_img s b)) = 512) by (rewrite <- HB; apply ao_bytes0).
  destruct (alloc_entry _ _ _ _ _ Hok Hj (m - NDIRECT)) as (Es & Eo & Hal); [done|lia|done|done|]. fold b in Es, Eo, Hal. fold d in Es, Eo, Hal.
  assert (Hm1 : ∀ bn, 0 ≤ bn < MAXFILE → slot (fupd (m_img s) b d) i (bslot bn) =
    if decide (bn = m) then m_freeblock s else slot (m_img s) i0 (bslot bn)).
  { intros bn Hbn. destruct (bslot_range bn Hbn) as [Hb _]. rewrite Es, <- E0 by done. unfold bslot.
    destruct (Z.ltb_spec bn NDIRECT); [rewrite !decide_False by lia; done|].
    destruct (decide (bn = m)) as [-> |]; [by rewrite decide_True by lia|by rewrite decide_False by lia]. }
  split_and!; [done| | | |].
  - split; try done; [by rewrite list_insert_id|exists (i_addrs i); by destruct i| |].
    + intros x Hx. simpl. apply fupd_ne. intros ->. pose proof (ao_slot0 j i NDIRECT Hj ltac:(lia) Ha) as Hr.
      rewrite slot_ndirect in Hr. fold b in Hr. lia.
    + intros j' i2 k Hne Hj' Hk Hs. simpl. apply fupd_ne. intros E.
      destruct (ao_inj0 j' j i2 i k NDIRECT Hj' Hj) as [-> _]; [done|lia|done|by rewrite slot_ndirect|done].
  - apply (holds_grow (m_img s) i0 c m _ _ (m_freeblock s)); [done|lia|lia| |done| |].
    + simpl. rewrite fupd_ne; [apply ao_zero0; lia|]. pose proof (ao_slot0 j i NDIRECT Hj ltac:(lia) Ha) as Hr.
      rewrite slot_ndirect in Hr. fold b in Hr. lia.
    + intros bn Hbn. simpl. apply fupd_ne. intros E. destruct (bslot_range bn) as [Hb Hne]; [lia|].
      rewrite <- E0 in E by lia. apply Hne. apply (ao_inj0 j j i i (bslot bn) NDIRECT Hj Hj); [done|lia| |by rewrite slot_ndirect].
      rewrite E. done.
    + split; [lia|done].
  - unfold d. rewrite get32_put32_eq by lia. apply u32_small. lia.
  - rewrite Hm1 by lia. by rewrite decide_True.
Qed.

Lemma advanced_trans s ins j i i1 s1 i2 s2 : ins !! j = Some i → advanced s ins j i i1 s1 →
  advanced s1 (<[j := i1]> ins) j i1 i2 s2 → advanced s ins j i i2 s2.
Proof.
  intros Hj [] []. destruct consts as (_ & _ & HN & _ & _ & HS & _). split.
  - congruence.
  - congruence.
  - by rewrite list_insert_insert_eq in ad_alloc1.
  - destruct ad_addrs0 as [l ->], ad_addrs1 as [l' ->]. by exists l'.
  - intros b Hb. by rewrite ad_meta1, ad_meta0.
  - intros j' i3 k Hne Hj' Hk Hs.
    assert (E : slot (m_img s1) i3 k = slot (m_img s) i3 k).
    { apply slot_frame. intros Hi. rewrite <- (slot_ndirect (m_img s) i3). apply (ad_others0 j'); [done|done|lia|done]. }
    rewrite <- E. rewrite (ad_others1 j' i3 k); [|done|by rewrite list_lookup_insert_ne|done|by rewrite E].
    rewrite E. by apply (ad_others0 j').
Qed.

Lemma runs_rsect sec s (Q : list Z → mk → Prop) : sec < m_end s → Q (m_img s sec) s → runs (rsect sec) Q s.
Proof. intros Hlt HQ. unfold rsect. kstep. kstep. rewrite (proj2 (Z.ltb_lt _ _) Hlt). by kstep. Qed.

Lemma runs_next_block s (Q : Z → mk → Prop) : 0 ≤ m_freeblock s < FSSIZE →
  Q (m_freeblock s) (Mk (m_img s) (m_end s) (m_freeinode s) (m_freeblock s + 1)) → runs next_block Q s.
Proof.
  intros Hf HQ. destruct consts as (_ & HF & _). eexists _, _. split; [done|]. by rewrite u32_small by lia.
Qed.

Lemma cost_next m : 0 ≤ m → cost (m + 1) = cost m + 1 + if decide (m = NDIRECT) then 1 else 0.
Proof. intros Hm. unfold cost. destruct consts as (_ & _ & HN & _). case_decide; bdestruct_all; lia. Qed.

Lemma runs_wsect sec buf s (Q : unit → mk → Prop) : sec < m_end s →
  Q tt (Mk (fupd (m_img s) sec buf) (m_end s) (m_freeinode s) (m_freeblock s)) → runs (wsect sec buf) Q s.
Proof. intros Hlt HQ. unfold wsect. kstep. by rewrite Z.max_l by lia. Qed.

Lemma bslot_direct v i bn : bn < NDIRECT → slot v i (bslot bn) = addr bn i.
Proof. intros Hb. unfold bslot, slot. rewrite (proj2 (Z.ltb_lt _ _)) by lia. by rewrite (proj2 (Z.leb_le _ _)) by lia. Qed.

Lemma bslot_indirect v i bn : NDIRECT ≤ bn → addr NDIRECT i ≠ 0 →
  slot v i (bslot bn) = get32 (v (addr NDIRECT i)) (4 * (bn - NDIRECT)).
Proof.
  intros Hb Hi. unfold bslot, slot. rewrite (proj2 (Z.ltb_ge _ _)) by lia. rewrite (proj2 (Z.leb_gt _ _)) by lia.
  rewrite (proj2 (Z.eqb_neq _ _) Hi). do 2 f_equal. lia.
Qed.

(** The part of [iappend_block] after the indirect block. *)
Definition indirect_entry (din : inode) (fbn : Z) : K mk (inode * Z) :=
  indirect ← rsect (xint (addr NDIRECT din));
  let off := 4 * (fbn - NDIRECT) in
  indirect ← (if get32 indirect off =? 0 then
                b ← next_block;
                let indirect := put32 indirect off (xint b) in
                wsect (xint (addr NDIRECT din)) indirect;;
                mret indirect
              else mret indirect);
  mret (din, xint (get32 indirect off)).

Lemma indirect_entry_ok s ins j i0 i c fbn : m_end s = FSSIZE → alloc_ok (m_img s) (m_freeblock s) ins → ins !! j = Some i →
  holds (m_img s) i0 c fbn → (∀ bn, 0 ≤ bn < MAXFILE → slot (m_img s) i (bslot bn) = slot (m_img s) i0 (bslot bn)) →
  NDIRECT ≤ fbn < MAXFILE → addr NDIRECT i ≠ 0 → m_freeblock s < FSSIZE →
  runs (indirect_entry i fbn) (λ r s', r.1 = i ∧ advanced s ins j i i s' ∧ holds (m_img s') i c (fbn + 1) ∧
    r.2 = slot (m_img s') i (bslot fbn) ∧ m_freeblock s' = m_freeblock s + 1) s.
Proof.
  intros Hend Hok Hj Hh Es Hf Hnz Hfb. destruct consts as (HME & HF & HN & HI & HM & HS & HB). pose proof Hok as [].
  destruct (append_entry s ins j i0 i c fbn Hok Hj Hh Es Hf Hnz Hfb) as (Hz & Had & Hg & Eg & Esl).
  assert (Hpos : nmeta ≤ addr NDIRECT i < m_freeblock s) by (apply (ao_slot0 j i NDIRECT Hj); [lia|done]).
  unfold indirect_entry. rewrite (xint_addr s ins j i Hok Hj) by lia. kstep. apply runs_rsect; [lia|].
  rewrite Hz, Z.eqb_refl. kstep. kstep. apply runs_next_block; [lia|]. kstep. apply runs_wsect; [simpl; lia|]. kstep. kstep.
  replace (xint (m_freeblock s)) with (m_freeblock s) by (symmetry; apply u32_small; lia). cbn [fst snd].
  split_and!; [done|done|done| |done]. etrans; [|symmetry; exact Esl]. rewrite Eg. apply u32_small. lia.
Qed.

Lemma iappend_block_ok s ins j i c m fbn : m_end s = FSSIZE → alloc_ok (m_img s) (m_freeblock s) ins → ins !! j = Some i →
  holds (m_img s) i c m → 0 ≤ fbn < MAXFILE → fbn ≤ m ≤ fbn + 1 → m_freeblock s + cost (fbn + 1) - cost m ≤ FSSIZE →
  runs (iappend_block i fbn) (λ r s', advanced s ins j i r.1 s' ∧ holds (m_img s') r.1 c (fbn + 1) ∧
    r.2 = slot (m_img s') r.1 (bslot fbn) ∧ m_freeblock s' = m_freeblock s + cost (fbn + 1) - cost m) s.
Proof.
  intros Hend Hok Hj Hh Hf Hm Hroom. destruct consts as (HME & HF & HN & HI & HM & HS & HB). pose proof Hok as [].
  assert (Hcost : m = fbn → cost (fbn + 1) = cost m + 1 + if decide (m = NDIRECT) then 1 else 0) by (intros <-; apply cost_next; lia).
  pose proof (xint_addr s ins j i Hok Hj) as Hx.
  assert (Hthere : m = fbn + 1 ↔ slot (m_img s) i (bslot fbn) ≠ 0) by (rewrite (ho_blocks _ _ _ _ Hh fbn Hf); lia).
  destruct (bslot_range fbn Hf) as [Hb _]. pose proof (ao_slot0 j i _ Hj Hb) as Hrange.
  unfold iappend_block. destruct (Z.ltb_spec fbn NDIRECT) as [Hd|Hd].
  - rewrite bslot_direct in * by done. rewrite Hx by lia. destruct (Z.eqb_spec (addr fbn i) 0) as [Hz|Hnz].
    + assert (m = fbn) as -> by lia. rewrite Hcost in * by done. rewrite decide_False in * by lia.
      kstep. kstep. apply runs_next_block; [lia|]. kstep. kstep.
      destruct (append_direct s ins j i c fbn Hok Hj Hh) as (Had & Hg & Eb); [lia|lia|].
      replace (xint (m_freeblock s)) with (m_freeblock s) by (symmetry; apply u32_small; lia). cbn [fst snd].
      split_and!; [done|done| |simpl; lia]. rewrite bslot_direct, Eb by done. apply u32_small. lia.
    + assert (m = fbn + 1) as -> by (by apply Hthere). kstep. kstep. kstep. cbn [fst snd].
      rewrite bslot_direct by done. split_and!; [by apply advanced_refl|done|by rewrite Hx by lia|lia].
  - rewrite Hx by lia. destruct (Z.eqb_spec (addr NDIRECT i) 0) as [Hz|Hnz].
    + assert (Hm12 : m = NDIRECT ∧ fbn = NDIRECT).
      { assert (¬ NDIRECT < m) by (intros Hlt; by apply (ho_ind _ _ _ _ Hh) in Hlt). lia. }
      destruct Hm12 as [-> ->]. rewrite Hcost in * by done. rewrite decide_True in * by done.
      kstep. kstep. apply runs_next_block; [lia|]. kstep.
      replace (xint (m_freeblock s)) with (m_freeblock s) by (symmetry; apply u32_small; lia).
      destruct (append_indirect s ins j i c NDIRECT Hok Hj Hh) as (Had & Eb & Es); [done|lia|].
      set (i1 := set_addr NDIRECT (m_freeblock s) i) in *. set (s1 := Mk _ _ _ _) in *.
      assert (Hj1 : <[j := i1]> ins !! j = Some i1) by (apply list_lookup_insert_eq; by eapply lookup_lt_Some).
      eapply runs_mono; [apply (indirect_entry_ok s1 (<[j := i1]> ins) j i i1 c NDIRECT); try done;
        first [lia|rewrite Eb; lia|simpl; lia|apply Had]|].
      intros [d x] s2 (E1 & Had2 & Hg & Ex & Ef). cbn [fst snd] in *. subst d.
      split_and!; [by eapply advanced_trans|done|done|rewrite Ef; simpl; lia].
    + kstep. kstep. destruct (decide (m = fbn)) as [-> |Hne].
      * assert (NDIRECT < fbn) by (by apply (ho_ind _ _ _ _ Hh)). rewrite Hcost in * by done. rewrite decide_False in * by lia.
        eapply runs_mono; [by apply (indirect_entry_ok s ins j i i c fbn); try done; lia|].
        intros [d x] s2 (E1 & Had2 & Hg & Ex & Ef). cbn [fst snd] in *. subst d. split_and!; [done|done|done|lia].
      * assert (m = fbn + 1) as -> by lia. rewrite bslot_indirect in * by done. rewrite Hx by lia.
        pose proof (ao_slot0 j i NDIRECT Hj ltac:(lia) Hnz) as Hpos. rewrite slot_ndirect in Hpos.
        kstep. apply runs_rsect; [lia|]. rewrite (proj2 (Z.eqb_neq _ _)) by (by apply Hthere). kstep. kstep. kstep. cbn [fst snd].
        rewrite bslot_indirect by done. split_and!; [by apply advanced_refl|done| |lia]. apply u32_small.
        pose proof (Hrange (proj1 Hthere eq_refl)). lia.
Qed.

(** ** Bytes appended *)

Lemma get8_app c d o : 0 ≤ o → get8 (c ++ d) o = if o <? Z.of_nat (length c) then get8 c o else get8 d (o - Z.of_nat (length c)).
Proof.
  intros Ho. unfold get8. bdestruct_all.
  - by rewrite lookup_app_l by lia.
  - rewrite lookup_app_r by lia. do 2 f_equal. lia.
Qed.

(** A chunk is written to the last block of the file, after its contents. *)
Lemma write_chunk s ins j i c chunk bn : alloc_ok (m_img s) (m_freeblock s) ins → ins !! j = Some i →
  holds (m_img s) i c (bn + 1) → 0 ≤ bn < MAXFILE → bn * BSIZE ≤ Z.of_nat (length c) →
  Z.of_nat (length c + length chunk) ≤ (bn + 1) * BSIZE → Forall (λ b, 0 ≤ b < 2 ^ 8) chunk →
  let x := slot (m_img s) i (bslot bn) in
  let d := splice (m_img s x) (Z.of_nat (length c) - bn * BSIZE) chunk in
  let s' := Mk (fupd (m_img s) x d) (m_end s) (m_freeinode s) (m_freeblock s) in
  advanced s ins j i i s' ∧ holds (m_img s') i (c ++ chunk) (bn + 1) ∧ nmeta ≤ x < m_freeblock s.
Proof.
  intros Hok Hj Hh Hbn Hlo Hhi Hch x d s'. destruct consts as (HME & HF & HN & HI & HM & HS & HB). pose proof Hok as [].
  destruct (bslot_range bn Hbn) as [Hb Hnd]. assert (Hx0 : x ≠ 0) by (apply (ho_blocks _ _ _ _ Hh bn Hbn); lia).
  pose proof (ao_slot0 j i _ Hj Hb Hx0) as Hxr. fold x in Hxr.
  assert (Hl : Z.of_nat (length (m_img s x)) = BSIZE) by apply ao_bytes0.
  assert (Hd : bytes_ok BSIZE d) by (eapply bytes_ok_splice; [apply ao_bytes0|by split]).
  destruct (mk_alloc_other _ _ _ Hok x d Hd) as [Hal Es]; [lia| |].
  { intros j' i' k Hj' Hk E Hne ->. destruct (ao_inj0 j' j i' i NDIRECT (bslot bn) Hj' Hj) as [_ E']; [lia|done|done|done|]. congruence. }
  split_and!; [| |lia..].
  - split; try done; [by rewrite list_insert_id|exists (i_addrs i); by destruct i| |].
    + intros b Hb'. simpl. apply fupd_ne. lia.
    + intros j' i2 k Hne Hj' Hk Hs. simpl. apply fupd_ne. intros E. by destruct (ao_inj0 j' j i2 i k (bslot bn) Hj' Hj).
  - pose proof Hh as []. split; [| |done|rewrite length_app; lia|done].
    + intros o Ho. unfold fbyte. cbn [m_img s']. rewrite (Es j i _ Hj). set (bo := o / BSIZE).
      assert (Hbo : 0 ≤ bo < bn + 1) by (split; [apply Z.div_pos; lia|apply Z.div_lt_upper_bound; lia]).
      pose proof (Z.div_mod o BSIZE ltac:(lia)) as Hdm. pose proof (Z.mod_pos_bound o BSIZE ltac:(lia)) as Hmb. fold bo in Hdm.
      pose proof (ho_bytes0 o Ho) as E. unfold fbyte in E. fold bo in E. rewrite get8_app by lia.
      destruct (decide (bo = bn)) as [Eb|Eb].
      * rewrite Eb in *. fold x in E |- *. rewrite fupd_eq. unfold d. rewrite get8_splice by lia.
        bdestruct_all; simpl; try lia; try done.
        -- f_equal. lia.
        -- rewrite E, !get8_past by lia. done.
      * rewrite fupd_ne.
        -- rewrite E. destruct (Z.ltb_spec o (Z.of_nat (length c))); [done|]. nia.
        -- intros Ex. apply Eb. destruct (bslot_range bo) as [Hbo' _]; [lia|].
           destruct (ao_inj0 j j i i (bslot bo) (bslot bn) Hj Hj) as [_ E2]; [done|done|by rewrite Ex|done|]. by apply bslot_inj.
    + intros b Hb'. cbn [m_img s']. rewrite (Es j i _ Hj). by apply ho_blocks0.
Qed.

(** Blocks of [n] bytes. *)
Definition nb (n : Z) : Z := (n + BSIZE - 1) / BSIZE.

Lemma nb_spec n : 0 ≤ n → n ≤ nb n * BSIZE ∧ nb n * BSIZE < n + BSIZE ∧ 0 ≤ nb n.
Proof.
  intros Hn. unfold nb. destruct consts as (_ & _ & _ & _ & _ & _ & HB). rewrite HB.
  pose proof (Z.div_mod (n + 512 - 1) 512 ltac:(lia)). pose proof (Z.mod_pos_bound (n + 512 - 1) 512 ltac:(lia)). lia.
Qed.

Lemma nb_unique n k : 0 ≤ n → n ≤ k * BSIZE → k * BSIZE < n + BSIZE → nb n = k.
Proof. intros Hn H1 H2. destruct (nb_spec n Hn) as (H3 & H4 & _). destruct consts as (_ & _ & _ & _ & _ & _ & HB). nia. Qed.

Lemma cost_mono m m' : m ≤ m' → cost m ≤ cost m'.
Proof. intros. unfold cost. bdestruct_all; lia. Qed.

Lemma nb_mono n n' : 0 ≤ n ≤ n' → nb n ≤ nb n'.
Proof. intros. unfold nb. destruct consts as (_ & _ & _ & _ & _ & _ & HB). apply Z.div_le_mono; lia. Qed.

(** The facts about the next round of the loop. *)
Lemma round_facts n k : 0 ≤ n → 0 < k →
  let bn := n / BSIZE in
  let n1 := Z.min k ((bn + 1) * BSIZE - n) in
  0 ≤ bn ∧ 0 < n1 ≤ k ∧ bn ≤ nb n ≤ bn + 1 ∧ nb (n + n1) = bn + 1 ∧ bn * BSIZE ≤ n ∧ n + n1 ≤ (bn + 1) * BSIZE ∧
  bn + 1 ≤ nb (n + k) ∧ n - bn * BSIZE < BSIZE.
Proof.
  intros Hn Hk bn n1. destruct consts as (_ & _ & _ & _ & _ & _ & HB).
  pose proof (Z.div_mod n BSIZE ltac:(lia)) as Hdm. pose proof (Z.mod_pos_bound n BSIZE ltac:(lia)) as Hmb. fold bn in Hdm.
  destruct (nb_spec n Hn) as (H1 & H2 & H3). assert (0 ≤ bn) by (apply Z.div_pos; lia).
  assert (Hn1 : 0 < n1 ≤ k) by (unfold n1; lia). assert (Hle : n + n1 ≤ (bn + 1) * BSIZE) by (unfold n1; lia).
  assert (E : nb (n + n1) = bn + 1) by (apply nb_unique; nia).
  split_and!; try nia; try done. rewrite <- E. apply nb_mono. lia.
Qed.

Lemma iappend_loop_ok fuel : ∀ s ins j i c p, (length p < fuel)%nat → m_end s = FSSIZE →
  alloc_ok (m_img s) (m_freeblock s) ins → ins !! j = Some i → holds (m_img s) i c (nb (Z.of_nat (length c))) →
  Forall (λ b, 0 ≤ b < 2 ^ 8) p → Z.of_nat (length (c ++ p)) ≤ MAXFILE * BSIZE →
  m_freeblock s + cost (nb (Z.of_nat (length (c ++ p)))) - cost (nb (Z.of_nat (length c))) ≤ FSSIZE →
  runs (iappend_loop fuel i (Z.of_nat (length c)) p) (λ r s',
    advanced s ins j i r.1 s' ∧ holds (m_img s') r.1 (c ++ p) (nb (Z.of_nat (length (c ++ p)))) ∧
    r.2 = Z.of_nat (length (c ++ p)) ∧
    m_freeblock s' = m_freeblock s + cost (nb (Z.of_nat (length (c ++ p)))) - cost (nb (Z.of_nat (length c)))) s.
Proof.
  induction fuel as [|fuel IH]; intros s ins j i c p Hfuel Hend Hok Hj Hh Hp Hmax Hroom; [lia|].
  destruct consts as (HME & HF & HN & HI & HM & HS & HB). cbn [iappend_loop]. cbv zeta.
  destruct (Z.ltb_spec 0 (Z.of_nat (length p))) as [Hlt|Hge].
  2:{ destruct p; [|simpl in Hge; lia]. kstep. cbn [fst snd]. rewrite app_nil_r. split_and!; [by apply advanced_refl|done|done|lia]. }
  destruct (round_facts (Z.of_nat (length c)) (Z.of_nat (length p))) as (H0 & Hn1 & Hnb & Enb & Hlo & Hhi & Hle & Hin); [lia|done|].
  rewrite length_app in *. set (bn := Z.of_nat (length c) / BSIZE) in *. set (n1 := Z.min _ _) in *.
  assert (Hbm : bn < MAXFILE) by (destruct (nb_spec (Z.of_nat (length c + length p)) ltac:(lia)); nia).
  pose proof (cost_mono _ _ Hle) as Hc1. rewrite Nat2Z.inj_add in *.
  rewrite (proj2 (Z.ltb_lt bn MAXFILE)) by done. kstep. kstep; [done|]. kstep.
  eapply runs_mono; [apply (iappend_block_ok s ins j i c (nb (Z.of_nat (length c))) bn); try done; lia|].
  intros [i1 x] s1 (Had & Hh1 & Ex & Ef). cbn [fst snd] in *. subst x. set (chunk := take (Z.to_nat n1) p).
  assert (Hlc : Z.of_nat (length chunk) = n1) by (unfold chunk; rewrite length_take; lia).
  assert (Hj1 : <[j := i1]> ins !! j = Some i1) by (apply list_lookup_insert_eq; by eapply lookup_lt_Some).
  destruct (write_chunk s1 (<[j := i1]> ins) j i1 c chunk bn (ad_alloc _ _ _ _ _ _ Had) Hj1 Hh1) as (Had2 & Hh2 & Hx);
    [lia|lia|lia|by apply Forall_take|].
  pose proof (ad_end _ _ _ _ _ _ Had) as E1. pose proof (ao_fb _ _ _ (ad_alloc _ _ _ _ _ _ Had)) as Hfb1.
  kstep. apply runs_rsect; [lia|]. kstep. apply runs_wsect; [lia|]. set (s2 := Mk _ _ _ _) in *.
  pose proof (advanced_trans _ _ _ _ _ _ _ _ Hj Had Had2) as Had3.
  rewrite u32_small by lia. replace (Z.of_nat (length c) + n1) with (Z.of_nat (length (c ++ chunk))) by (rewrite length_app; lia).
  rewrite <- Enb in Hh2. replace (Z.of_nat (length c) + n1) with (Z.of_nat (length (c ++ chunk))) in Hh2, Enb by (rewrite length_app; lia).
  assert (Ecp : (c ++ chunk) ++ drop (Z.to_nat n1) p = c ++ p) by (unfold chunk; by rewrite <- app_assoc, take_drop).
  eapply runs_mono.
  { apply (IH s2 (<[j := i1]> ins) j i1 (c ++ chunk) (drop (Z.to_nat n1) p)); try done.
    - rewrite length_drop. lia.
    - etrans; [apply (ad_end _ _ _ _ _ _ Had3)|done].
    - pose proof (ad_alloc _ _ _ _ _ _ Had3). done.
    - by apply Forall_drop.
    - rewrite Ecp, length_app, Nat2Z.inj_add. lia.
    - rewrite Ecp, length_app, Nat2Z.inj_add, Enb. cbn [m_freeblock s2]. lia. }
  intros [i2 o] s3 (Had4 & Hh4 & Eo & Ef4). rewrite Ecp, Enb in Ef4. rewrite Ecp in *. cbn [fst snd] in *.
  rewrite length_app, Nat2Z.inj_add in Hh4, Eo, Ef4. split_and!; [by eapply advanced_trans|done|done|].
  rewrite Ef4. cbn [m_freeblock s2]. lia.
Qed.

(** ** Inodes on the image *)

Lemma get8_put16_out l off x o : 0 ≤ off → off + 2 ≤ Z.of_nat (length l) → 0 ≤ o → o < off ∨ off + 2 ≤ o →
  get8 (put16 l off x) o = get8 l o.
Proof. intros. unfold put16. apply get8_splice_out; unfold le16; simpl; lia. Qed.

Lemma get8_put32_out l off x o : 0 ≤ off → off + 4 ≤ Z.of_nat (length l) → 0 ≤ o → o < off ∨ off + 4 ≤ o →
  get8 (put32 l off x) o = get8 l o.
Proof. intros. unfold put32. apply get8_splice_out; unfold le32; simpl; lia. Qed.

Lemma get8_put_dinode_out d off i o : length (i_addrs i) = 13%nat → 0 ≤ off → off + 64 ≤ Z.of_nat (length d) →
  0 ≤ o < Z.of_nat (length d) → o < off ∨ off + 64 ≤ o → get8 (put_dinode d off i) o = get8 d o.
Proof.
  intros Hl H0 Hd Ho Hout. unfold put_dinode.
  rewrite get8_put_addrs by (rewrite ?length_put32, ?length_put16, ?Hl; lia).
  rewrite get8_put32_out by (rewrite ?length_put16; lia).
  by rewrite !get8_put16_out by (rewrite ?length_put16; lia).
Qed.

Lemma length_put_dinode d off i : length (put_dinode d off i) = length d.
Proof. unfold put_dinode. by rewrite length_put_addrs, length_put32, !length_put16. Qed.

(** Another inode of the same block. *)
Lemma get_put_dinode_other d off off' i z : length (i_addrs i) = 13%nat → Z.of_nat (length d) = BSIZE →
  0 ≤ off → off + dinode_size ≤ BSIZE → 0 ≤ off' → off' + dinode_size ≤ BSIZE →
  off + dinode_size ≤ off' ∨ off' + dinode_size ≤ off →
  get_dinode (put_dinode d off i) off' z = get_dinode d off' z.
Proof.
  intros Hl Hd H0 H1 H2 H3 Hdis. assert (HZ : dinode_size = 64) by done. assert (HN : NDIRECT = 12) by done.
  assert (E : ∀ o, off' ≤ o < off' + 64 → get8 (put_dinode d off i) o = get8 d o)
    by (intros o Ho; apply get8_put_dinode_out; lia).
  unfold get_dinode, get16, get32. f_equal; try (rewrite !E by lia; done).
  unfold get_addrs, get32. apply list_fmap_ext. intros k x Hk. apply lookup_seq in Hk as [-> Hk]. rewrite !E by lia. done.
Qed.

(** Inodes [inum] and [inum'] of one block are apart. *)
Lemma dinode_apart inum inum' : 0 ≤ inum → 0 ≤ inum' → inum ≠ inum' → IBLOCK inum mkfs_sb = IBLOCK inum' mkfs_sb →
  dinode_off inum + dinode_size ≤ dinode_off inum' ∨ dinode_off inum' + dinode_size ≤ dinode_off inum.
Proof.
  unfold IBLOCK, dinode_off. assert (HZ : dinode_size = 64) by done. assert (HI : IPB = 8) by done. rewrite HZ, HI.
  intros H0 H1 Hne E. pose proof (Z.div_mod inum 8 ltac:(lia)). pose proof (Z.div_mod inum' 8 ltac:(lia)).
  pose proof (Z.mod_pos_bound inum 8 ltac:(lia)). pose proof (Z.mod_pos_bound inum' 8 ltac:(lia)). lia.
Qed.

Lemma iblock_small inum : 0 ≤ inum < NINODES → 32 ≤ IBLOCK inum mkfs_sb < sb_bmapstart mkfs_sb ∧ sb_bmapstart mkfs_sb < nmeta.
Proof.
  intros Hi. assert (HN : NINODES = 200) by done. assert (HI : IPB = 8) by done. assert (E1 : sb_bmapstart mkfs_sb = 58) by done.
  assert (E2 : nmeta = 59) by done. assert (E4 : sb_inodestart mkfs_sb = 32) by done.
  unfold IBLOCK. rewrite HI, E1, E2, E4. pose proof (Z.div_pos inum 8 ltac:(lia) ltac:(lia)).
  assert (inum / 8 < 25) by (apply Z.div_lt_upper_bound; lia). lia.
Qed.

(** The inode of a file of type [ty] with contents [c]. *)
Definition file_inode (ty : Z) (c : list Z) (l : list Z) : inode :=
  Inode 0 0 0 false 0 false ty 0 0 1 (Z.of_nat (length c)) l.

(** The inode as it is on the image. *)
Definition disk_inode (v : Z → list Z) (inum : Z) : inode :=
  get_dinode (v (IBLOCK inum mkfs_sb)) (dinode_off inum) zero_dinode.

(** The files so far, with their types and contents, and their inodes. *)
Record mk_inv (s : mk) (fl : list (Z * list Z)) (ins : list inode) : Prop := {
  mi_end : m_end s = FSSIZE;
  mi_freeinode : m_freeinode s = 1 + Z.of_nat (length fl);
  mi_alloc : alloc_ok (m_img s) (m_freeblock s) ins;
  mi_len : length ins = length fl;
  mi_holds j i ty c : ins !! j = Some i → fl !! j = Some (ty, c) → holds (m_img s) i c (nb (Z.of_nat (length c)));
  mi_inode j i ty c : ins !! j = Some i → fl !! j = Some (ty, c) → ∃ l, i = file_inode ty c l;
  mi_types j ty c : fl !! j = Some (ty, c) → 0 < ty < 2 ^ 15;
  mi_disk j i : ins !! j = Some i → disk_inode (m_img s) (Z.of_nat j + 1) = i;
  mi_fb : m_freeblock s = nmeta + sumf (λ f, cost (nb (Z.of_nat (length f.2)))) fl;
  mi_sb : m_img s 1 = sb_block mkfs_sb;
  mi_count : Z.of_nat (length fl) < NINODES
}.

Lemma file_fields ty c l : 0 < ty < 2 ^ 15 → Z.of_nat (length c) ≤ MAXFILE * BSIZE → length l = 13%nat →
  Forall (λ a, 0 ≤ a < 2 ^ 32) l → ifields (file_inode ty c l).
Proof. intros Ht Hc Hl Ha. destruct consts as (_ & _ & HN & _ & HM & _ & HB). split; simpl; try done; lia. Qed.

(** [winode] puts the inode where [rinode] finds it and leaves the other inodes. *)
Lemma winode_img v fb ins inum i : alloc_ok v fb ins → ifields i → 0 ≤ inum < NINODES →
  i = with_addrs (i_addrs i) (Inode 0 0 0 false 0 false (i_type i) (i_major i) (i_minor i) (i_nlink i) (i_size i) []) →
  let b := IBLOCK inum mkfs_sb in
  let v' := fupd v b (put_dinode (v b) (dinode_off inum) i) in
  disk_inode v' inum = i ∧ (∀ inum', 0 ≤ inum' → inum' ≠ inum → disk_inode v' inum' = disk_inode v inum') ∧
  bytes_ok BSIZE (put_dinode (v b) (dinode_off inum) i).
Proof.
  intros Hok Hf Hin Hi b v'. pose proof Hok as []. pose proof (dinode_off_range inum) as [Ho1 Ho2].
  assert (Hl : Z.of_nat (length (v b)) = BSIZE) by apply ao_bytes0.
  split_and!.
  - unfold disk_inode, v'. fold b. rewrite fupd_eq, get_put_dinode by (done || lia). symmetry. exact Hi.
  - intros inum' H0 Hne. unfold disk_inode, v'. destruct (decide (IBLOCK inum' mkfs_sb = b)) as [E|E].
    + rewrite E, fupd_eq. pose proof (dinode_off_range inum'). apply get_put_dinode_other; try lia; [apply Hf|].
      apply dinode_apart; [lia|lia|done|done].
    + by rewrite fupd_ne.
  - by apply bytes_ok_put_dinode.
Qed.

(** ** The operations *)

(** A block below the data belongs to no file. *)
Lemma meta_write v fb ins b d : alloc_ok v fb ins → bytes_ok BSIZE d → 32 ≤ b < nmeta →
  alloc_ok (fupd v b d) fb ins ∧ (∀ j i c m, ins !! j = Some i → holds v i c m → holds (fupd v b d) i c m).
Proof.
  intros Hok Hd Hb. pose proof Hok as []. split.
  - apply (mk_alloc_other _ _ _ Hok); [done|lia|]. intros j i k Hj Hk E Hne. pose proof (ao_slot0 j i k Hj Hk Hne). lia.
  - intros j i c m Hj Hh. apply (holds_frame v); [done|]. intros k Hk Hne. apply fupd_ne.
    pose proof (ao_slot0 j i k Hj Hk Hne). lia.
Qed.

Lemma slot_addrs v i i' k : i_addrs i = i_addrs i' → slot v i k = slot v i' k.
Proof. intros E. unfold slot, addr. by rewrite E. Qed.

Lemma holds_addrs v i i' c m : i_addrs i = i_addrs i' → holds v i c m → holds v i' c m.
Proof.
  intros E []. assert (Es : ∀ k, slot v i k = slot v i' k) by (intros k; by apply slot_addrs). split; try done.
  - intros o Ho. rewrite <- ho_bytes0 by done. unfold fbyte. by rewrite Es.
  - intros bn Hbn. rewrite <- Es. by apply ho_blocks0.
  - unfold addr in *. by rewrite <- E.
Qed.

Lemma alloc_addrs v fb ins ins' : alloc_ok v fb ins →
  (∀ j i', ins' !! j = Some i' → ∃ i, ins !! j = Some i ∧ i_addrs i = i_addrs i') → alloc_ok v fb ins'.
Proof.
  intros [] H. split; try done.
  - intros j i' (i & Hi & <-)%H. eauto.
  - intros j i' (i & Hi & <-)%H. eauto.
  - intros j i' k (i & Hi & E)%H. rewrite <- (slot_addrs v i i' k E). eauto.
  - intros j1 j2 i1' i2' k k' (i1 & H1 & E1)%H (i2 & H2 & E2)%H. rewrite <- (slot_addrs v i1 i1' k E1), <- (slot_addrs v i2 i2' k' E2). eauto.
Qed.

Lemma disk_frame v v' inum : 0 ≤ inum < NINODES → (∀ b, b < nmeta → v' b = v b) → disk_inode v' inum = disk_inode v inum.
Proof. intros Hi E. unfold disk_inode. destruct (iblock_small inum Hi). by rewrite E by lia. Qed.

Lemma runs_winode inum i s (Q : unit → mk → Prop) : m_end s = FSSIZE → 0 ≤ inum < NINODES →
  (let b := IBLOCK inum mkfs_sb in
   Q tt (Mk (fupd (m_img s) b (put_dinode (m_img s b) (dinode_off inum) i)) (m_end s) (m_freeinode s) (m_freeblock s))) →
  runs (winode inum i) Q s.
Proof.
  intros He Hi HQ. destruct (iblock_small inum Hi). destruct consts as (HME & HF & _). unfold winode. cbv zeta in *.
  kstep. apply runs_rsect; [lia|]. by apply runs_wsect; [lia|].
Qed.

Lemma runs_rinode inum s (Q : inode → mk → Prop) : m_end s = FSSIZE → 0 ≤ inum < NINODES →
  Q (disk_inode (m_img s) inum) s → runs (rinode inum) Q s.
Proof.
  intros He Hi HQ. destruct (iblock_small inum Hi). destruct consts as (HME & HF & _). unfold rinode.
  kstep. apply runs_rsect; [lia|]. by kstep.
Qed.

(** What the files need. *)
Definition demand (fl : list (Z * list Z)) : Z := sumf (λ f, cost (nb (Z.of_nat (length f.2)))) fl.

Lemma demand_insert fl j ty c c' : fl !! j = Some (ty, c) →
  demand (<[j := (ty, c')]> fl) = demand fl - cost (nb (Z.of_nat (length c))) + cost (nb (Z.of_nat (length c'))).
Proof. intros Hj. unfold demand. by rewrite (sumf_insert _ _ _ _ (ty, c') Hj). Qed.

Lemma iappend_ok s fl ins j ty c p : mk_inv s fl ins → fl !! j = Some (ty, c) → Forall (λ b, 0 ≤ b < 2 ^ 8) p →
  Z.of_nat (length (c ++ p)) ≤ MAXFILE * BSIZE → nmeta + demand (<[j := (ty, c ++ p)]> fl) ≤ FSSIZE →
  runs (iappend (Z.of_nat j + 1) p) (λ _ s', ∃ ins', mk_inv s' (<[j := (ty, c ++ p)]> fl) ins') s.
Proof.
  intros Hi Hj Hp Hmax Hroom. pose proof Hi as []. destruct consts as (HME & HF & HN & HI & HM & HS & HB).
  assert (Hlt : (j < length fl)%nat) by (by eapply lookup_lt_Some).
  destruct (lookup_lt_is_Some_2 ins j) as [i Hins]; [lia|]. destruct (mi_inode0 j i ty c Hins Hj) as [l El].
  rewrite (demand_insert _ _ _ _ _ Hj) in Hroom. unfold iappend. kstep. apply runs_rinode; [done|lia|].
  rewrite (mi_disk0 j i Hins). kstep. assert (Hsz : xint (i_size i) = Z.of_nat (length c)).
  { rewrite El. simpl. apply u32_small. rewrite length_app in Hmax. lia. }
  rewrite Hsz. eapply runs_mono; [apply (iappend_loop_ok _ s ins j i c p); try done; [lia|by eapply mi_holds0|unfold demand in *; lia]|].
  intros [i1 off] s1 (Had & Hh1 & Eo & Ef). cbn [fst snd] in *. subst off.
  replace (xint (Z.of_nat (length (c ++ p)))) with (Z.of_nat (length (c ++ p))) by (symmetry; apply u32_small; lia).
  destruct (ad_addrs _ _ _ _ _ _ Had) as [l1 El1]. set (i2 := set_size _ i1).
  assert (Ei2 : i2 = file_inode ty (c ++ p) l1) by (unfold i2; by rewrite El1, El).
  pose proof (ad_end _ _ _ _ _ _ Had) as Hend1. pose proof (ad_alloc _ _ _ _ _ _ Had) as Hal1.
  assert (Hj1 : <[j := i1]> ins !! j = Some i1) by (apply list_lookup_insert_eq; lia).
  assert (Hf2 : ifields i2).
  { rewrite Ei2. apply file_fields; [by eapply mi_types0|done| |].
    - pose proof (ao_len _ _ _ Hal1 j i1 Hj1) as H. by rewrite El1 in H.
    - pose proof (ao_addrs _ _ _ Hal1 j i1 Hj1) as H. by rewrite El1 in H. }
  destruct (winode_img (m_img s1) _ _ (Z.of_nat j + 1) i2 Hal1 Hf2) as (Hd1 & Hd2 & Hd3); [lia|by rewrite Ei2|].
  apply runs_winode; [congruence|lia|]. cbv zeta. set (b := IBLOCK _ _) in *. set (d := put_dinode _ _ _) in *.
  destruct (iblock_small (Z.of_nat j + 1)) as [Hb1 Hb2]; [lia|]. fold b in Hb1.
  destruct (meta_write _ _ _ b d Hal1 Hd3) as [Hal2 Hh2]; [lia|].
  exists (<[j := i2]> ins). assert (Hcase : ∀ j' x, <[j := i2]> ins !! j' = Some x → (j' = j ∧ x = i2) ∨ (j' ≠ j ∧ ins !! j' = Some x)).
  { intros j' x H. destruct (decide (j' = j)) as [-> |]; [left; rewrite list_lookup_insert_eq in H by lia; by simplify_eq|].
    right. by rewrite list_lookup_insert_ne in H. }
  assert (Hfl : ∀ j' ty' c', <[j := (ty, c ++ p)]> fl !! j' = Some (ty', c') → (j' = j ∧ ty' = ty ∧ c' = c ++ p) ∨ (j' ≠ j ∧ fl !! j' = Some (ty', c'))).
  { intros j' ty' c' H. destruct (decide (j' = j)) as [-> |]; [left; rewrite list_lookup_insert_eq in H by lia; by simplify_eq|].
    right. by rewrite list_lookup_insert_ne in H. }
  split; cbn [m_img m_end m_freeinode m_freeblock].
  - congruence.
  - rewrite length_insert. rewrite (ad_inode _ _ _ _ _ _ Had). done.
  - eapply alloc_addrs; [exact Hal2|]. intros j' x [[-> ->]|[Hne Hx]]%Hcase; [by exists i1|].
    exists x. by rewrite list_lookup_insert_ne.
  - by rewrite !length_insert.
  - intros j' x ty' c' [[-> ->]|[Hne Hx]]%Hcase [(E & -> & ->)|[Hne' Hc]]%Hfl; try done.
    + apply (holds_addrs _ i1); [done|]. by eapply Hh2.
    + apply (Hh2 j'); [by rewrite list_lookup_insert_ne|]. eapply holds_frame; [by eapply mi_holds0|].
      intros k Hk Hs. by eapply (ad_others _ _ _ _ _ _ Had).
  - intros j' x ty' c' [[-> ->]|[Hne Hx]]%Hcase [(E & -> & ->)|[Hne' Hc]]%Hfl; try done; [by exists l1|by eapply mi_inode0].
  - intros j' ty' c' [(-> & -> & ->)|[Hne' Hc]]%Hfl; by eapply mi_types0.
  - intros j' x [[-> ->]|[Hne Hx]]%Hcase; [done|]. rewrite Hd2 by lia.
    pose proof (lookup_lt_Some _ _ _ Hx). rewrite (disk_frame (m_img s)); [by apply mi_disk0|lia|apply (ad_meta _ _ _ _ _ _ Had)].
  - fold (demand (<[j := (ty, c ++ p)]> fl)). rewrite (demand_insert _ _ _ _ _ Hj), Ef, mi_fb0. unfold demand. lia.
  - rewrite fupd_ne by lia. rewrite (ad_meta _ _ _ _ _ _ Had) by lia. done.
  - by rewrite length_insert.
Qed.

Lemma slot_empty v ty k : 0 ≤ k < nslots → slot v (file_inode ty [] (replicate 13 0)) k = 0.
Proof.
  intros Hk. destruct consts as (_ & _ & HN & _). unfold slot, addr, file_inode. cbn [i_addrs].
  assert (E : ∀ n, (n < 13)%nat → (replicate 13 0 : list Z) !!! n = 0) by (intros n Hn; by apply lookup_total_replicate_2).
  destruct (Z.leb_spec k NDIRECT); [apply E; lia|]. by rewrite E by lia.
Qed.

Lemma holds_empty v ty : holds v (file_inode ty [] (replicate 13 0)) [] 0.
Proof.
  destruct consts as (_ & _ & HN & _ & HM & HS & HB). split; [lia| | |simpl; lia|lia].
  - intros bn Hbn. rewrite slot_empty by (apply bslot_range; done). lia.
  - rewrite <- (slot_ndirect v), slot_empty by lia. lia.
Qed.

Lemma alloc_snoc v fb ins ty : alloc_ok v fb ins → alloc_ok v fb (ins ++ [file_inode ty [] (replicate 13 0)]).
Proof.
  intros []. destruct consts as (HME & HF & HN & _ & _ & HS & _).
  assert (Hcase : ∀ j i, (ins ++ [file_inode ty [] (replicate 13 0)]) !! j = Some i → ins !! j = Some i ∨ i = file_inode ty [] (replicate 13 0)).
  { intros j i [H|[_ H]]%lookup_app_Some; [by left|right]. apply list_lookup_singleton_Some in H as [_ <-]. done. }
  split; try done.
  - intros j i [Hj| ->]%Hcase; eauto.
  - intros j i [Hj| ->]%Hcase; [eauto|]. simpl. repeat constructor; lia.
  - intros j i k [Hj| ->]%Hcase Hk; [eauto|]. by rewrite slot_empty.
  - intros j1 j2 i1 i2 k k' [H1| ->]%Hcase [H2| ->]%Hcase Hk Hk' Hne E; [eauto| | |]; rewrite ?slot_empty in * by done; congruence.
Qed.

Lemma mkfs_ialloc_ok s fl ins ty : mk_inv s fl ins → 0 < ty < 2 ^ 15 → Z.of_nat (length fl) + 1 < NINODES →
  runs (mkfs_ialloc ty) (λ inum s', inum = Z.of_nat (length fl) + 1 ∧ ∃ ins', mk_inv s' (fl ++ [(ty, [])]) ins') s.
Proof.
  intros Hi Hty Hn. pose proof Hi as []. assert (HNI : NINODES = 200) by done.
  unfold mkfs_ialloc. kstep. eexists _, _. split; [done|]. rewrite mi_freeinode0.
  rewrite (u32_small (1 + Z.of_nat (length fl) + 1)) by lia.
  set (i0 := set_size _ _). assert (Ei0 : i0 = file_inode ty [] (replicate 13 0)).
  { unfold i0, xshort, xint, u16, u32. rewrite (Z.mod_small ty) by lia. done. }
  clearbody i0. subst i0. set (s1 := Mk _ _ _ _). kstep.
  pose proof (alloc_snoc _ _ _ ty mi_alloc0) as Hal. set (i0 := file_inode ty [] (replicate 13 0)) in *.
  assert (Hf : ifields i0) by (apply file_fields; [done|by vm_compute|done|repeat constructor; lia]).
  destruct (winode_img (m_img s1) _ _ (1 + Z.of_nat (length fl)) i0 Hal Hf) as (Hd1 & Hd2 & Hd3); [lia|done|].
  apply runs_winode; [done|lia|]. cbv zeta. set (b := IBLOCK _ _) in *. set (d := put_dinode _ _ _) in *.
  destruct (iblock_small (1 + Z.of_nat (length fl))) as [Hb1 Hb2]; [lia|]. fold b in Hb1.
  destruct (meta_write _ _ _ b d Hal Hd3) as [Hal2 Hh2]; [lia|].
  kstep. split; [lia|]. exists (ins ++ [i0]).
  assert (Hcase : ∀ j i, (ins ++ [i0]) !! j = Some i → ins !! j = Some i ∨ (j = length ins ∧ i = i0)).
  { intros j i [H|[Hge H]]%lookup_app_Some; [by left|right]. apply list_lookup_singleton_Some in H as [H <-]. split; [lia|done]. }
  assert (Hfl : ∀ j t c, (fl ++ [(ty, [])]) !! j = Some (t, c) → fl !! j = Some (t, c) ∨ (j = length fl ∧ t = ty ∧ c = [])).
  { intros j t c [H|[Hge H]]%lookup_app_Some; [by left|right]. apply list_lookup_singleton_Some in H as [H [= <- <-]]. split; [lia|done]. }
  assert (Hsame : ∀ j i t c, ins !! j = Some i → fl !! j = Some (t, c) → (j < length fl)%nat) by (intros; by eapply lookup_lt_Some).
  split; cbn [m_img m_end m_freeinode m_freeblock s1].
  - done.
  - rewrite length_app. simpl. lia.
  - done.
  - rewrite !length_app. simpl. lia.
  - intros j i t c [Hj|[-> ->]]%Hcase [Hc|(E & -> & ->)]%Hfl.
    + apply (Hh2 j); [by apply lookup_app_l_Some|]. by eapply mi_holds0.
    + apply lookup_lt_Some in Hj. lia.
    + apply lookup_lt_Some in Hc. lia.
    + apply (Hh2 (length ins)); [rewrite lookup_app_r, Nat.sub_diag by lia; done|]. apply holds_empty.
  - intros j i t c [Hj|[-> ->]]%Hcase [Hc|(E & -> & ->)]%Hfl; [by eapply mi_inode0| | |by eexists].
    + apply lookup_lt_Some in Hj. lia.
    + apply lookup_lt_Some in Hc. lia.
  - intros j t c [Hc|(-> & -> & ->)]%Hfl; [by eapply mi_types0|done].
  - intros j i [Hj|[-> ->]]%Hcase.
    + pose proof (lookup_lt_Some _ _ _ Hj). rewrite Hd2 by lia. by apply mi_disk0.
    + rewrite mi_len0, Z.add_comm. done.
  - rewrite mi_fb0, sumf_app. assert (E : sumf (λ f : Z * list Z, cost (nb (Z.of_nat (length f.2)))) [(ty, [])] = 0) by (by vm_compute). lia.
  - rewrite fupd_ne by lia. done.
  - rewrite length_app. simpl. lia.
Qed.
