(* ===== verification/MkfsImage.v ===== *)
(** * The image of [mkfs] is the kernel's file system

    The rest of [main] of [xv6/mkfs.c]: the files of the command line one after the other,
    the size of the root directory, the free map.  The last theorem is about the whole
    program and about the kernel's [readi] and [dirlookup] on its image. *)

From S2P Require Import Prelude Bytes Ide Bio Log Trans Fs FsAlloc FsFile FsInode FsDir FsProps Mkfs MkfsProps.

(** What the reads of a file return up to the first that returns nothing. *)
Fixpoint contents (chunks : list (list Z)) : list Z :=
  match chunks with
  | [] => []
  | [] :: _ => []
  | c :: chunks' => c ++ contents chunks'
  end.

Definition file_entry (f : hostfile) : Z * list Z := (T_FILE, contents (h_chunks f)).

(** The records of the files in the root directory, from inode [inum] on. *)
Fixpoint entries (inum : Z) (files : list hostfile) : list Z :=
  match files with
  | [] => []
  | f :: files' => mkdent (mkfs_name (h_name f)) inum ++ entries (inum + 1) files'
  end.

Definition is_bytes (l : list Z) : Prop := Forall (λ b, 0 ≤ b < 2 ^ 8) l.

(** A file that fits: its name has no slash, its size is below the largest. *)
Record fits (f : hostfile) : Prop := {
  fi_slash : existsb (Z.eqb 47) (h_name f) = false;
  fi_name : is_bytes (h_name f);
  fi_bytes : Forall is_bytes (h_chunks f);
  fi_size : Z.of_nat (length (contents (h_chunks f))) ≤ MAXFILE * BSIZE
}.

(** ** The files *)

Lemma cost_nb_mono n n' : 0 ≤ n ≤ n' → cost (nb n) ≤ cost (nb n').
Proof. intros. apply cost_mono, nb_mono. lia. Qed.

Lemma cost_nonneg n : 0 ≤ n → 0 ≤ cost (nb n).
Proof. intros Hn. destruct (nb_spec n Hn) as (_ & _ & H). unfold cost. bdestruct_all; lia. Qed.

Lemma demand_nonneg fl : 0 ≤ demand fl.
Proof.
  unfold demand. induction fl as [|f fl IH]; simpl; [done|]. pose proof (cost_nonneg (Z.of_nat (length f.2)) ltac:(lia)). lia.
Qed.

Lemma demand_cons f fl : demand (f :: fl) = cost (nb (Z.of_nat (length f.2))) + demand fl.
Proof. done. Qed.

Lemma demand_app fl fl' : demand (fl ++ fl') = demand fl + demand fl'.
Proof. apply sumf_app. Qed.

Lemma append_chunks_ok chunks : ∀ s fl ins j ty c, mk_inv s fl ins → fl !! j = Some (ty, c) → Forall is_bytes chunks →
  Z.of_nat (length (c ++ contents chunks)) ≤ MAXFILE * BSIZE →
  nmeta + demand (<[j := (ty, c ++ contents chunks)]> fl) ≤ FSSIZE →
  runs (append_chunks (Z.of_nat j + 1) chunks) (λ _ s', ∃ ins', mk_inv s' (<[j := (ty, c ++ contents chunks)]> fl) ins') s.
Proof.
  induction chunks as [|p chunks IH]; intros s fl ins j ty c Hi Hj Hb Hsz Hroom; cbn [append_chunks contents] in *.
  { kstep. exists ins. rewrite app_nil_r. by rewrite list_insert_id. }
  destruct p as [|x p]; [change (Z.of_nat (length ([] : list Z)) <=? 0) with true; cbv iota; kstep; exists ins; rewrite app_nil_r; by rewrite list_insert_id|].
  set (q := x :: p) in *. apply Forall_cons in Hb as [Hq Hb'].
  destruct (Z.leb_spec (Z.of_nat (length q)) 0) as [H|H]; [unfold q in H; simpl in H; lia|].
  rewrite app_assoc in *. kstep. eapply runs_mono.
  { apply (iappend_ok s fl ins j ty c q); try done; [rewrite length_app in Hsz; lia|].
    rewrite (demand_insert _ _ _ _ _ Hj). rewrite (demand_insert _ _ _ _ _ Hj) in Hroom. rewrite (length_app (c ++ q)) in Hroom.
    pose proof (cost_nb_mono (Z.of_nat (length (c ++ q))) (Z.of_nat (length (c ++ q) + length (contents chunks))) ltac:(lia)). lia. }
  intros [] s1 (ins1 & Hi1). eapply runs_mono.
  { apply (IH s1 _ ins1 j ty (c ++ q) Hi1); [|done|done|by rewrite list_insert_insert_eq].
    apply list_lookup_insert_eq. by eapply lookup_lt_Some. }
  intros [] s2 (ins2 & Hi2). exists ins2. by rewrite list_insert_insert_eq in Hi2.
Qed.

Lemma is_bytes_name f : is_bytes (h_name f) → is_bytes (mkfs_name (h_name f)).
Proof. unfold mkfs_name. destruct (h_name f) as [|c l]; [done|]. intros H. case_match; [by inversion H|done]. Qed.

Lemma length_entries files : ∀ inum, length (entries inum files) = (16 * length files)%nat.
Proof.
  induction files as [|f files IH]; intros inum; [done|]. cbn [entries length]. rewrite length_app, IH.
  unfold mkdent. rewrite length_app, length_strncpy. assert (E : Z.to_nat DIRSIZ = 14%nat) by done. rewrite E. simpl. lia.
Qed.

Lemma add_files_ok files : ∀ s fs ins c, mk_inv s ((T_DIR, c) :: fs) ins → Forall fits files →
  Z.of_nat (length fs + length files) + 1 < NINODES →
  let c' := c ++ entries (Z.of_nat (length fs) + 2) files in
  Z.of_nat (length c') ≤ MAXFILE * BSIZE →
  nmeta + demand ((T_DIR, c') :: fs ++ map file_entry files) ≤ FSSIZE →
  runs (add_files 1 files) (λ _ s', ∃ ins', mk_inv s' ((T_DIR, c') :: fs ++ map file_entry files) ins') s.
Proof.
  induction files as [|f files IH]; intros s fs ins c Hi Hfit Hn c' Hsz Hroom; cbn [add_files map entries] in *.
  { kstep. unfold c'. rewrite !app_nil_r. eauto. }
  apply Forall_cons in Hfit as [[] Hfit']. rewrite fi_slash0. kstep. kstep; [done|].
  set (n := Z.of_nat (length fs) + 2) in *. set (de := mkdent (mkfs_name (h_name f)) n) in *.
  assert (HNI : NINODES = 200) by done. simpl length in Hn.
  destruct (mkdent_ok (mkfs_name (h_name f)) n) as (Hl & Hde & _ & _); [by apply is_bytes_name|lia|]. fold de in Hl, Hde.
  unfold c' in *. rewrite app_assoc in *. rewrite length_app in Hsz. rewrite demand_cons, demand_app, demand_cons in Hroom. cbn [snd file_entry] in Hroom.
  pose proof (demand_nonneg (map file_entry files)) as D0. pose proof (cost_nonneg (Z.of_nat (length (contents (h_chunks f)))) ltac:(lia)) as D1.
  pose proof (cost_nb_mono (Z.of_nat (length (c ++ de))) (Z.of_nat (length ((c ++ de) ++ entries (n + 1) files))) ltac:(rewrite (length_app (c ++ de)); lia)) as D2.
  kstep. eapply runs_mono; [apply (mkfs_ialloc_ok s _ ins T_FILE Hi); [done|simpl; lia]|].
  intros inum s1 [-> (ins1 & Hi1)]. replace (Z.of_nat (length ((T_DIR, c) :: fs)) + 1) with n by (simpl; lia).
  replace (xshort n) with n by (symmetry; apply Z.mod_small; lia). fold de. cbn [app] in Hi1.
  kstep. eapply runs_mono.
  { apply (iappend_ok s1 _ ins1 0 T_DIR c de Hi1); [done|done|lia|]. cbn [insert list_insert].
    rewrite demand_cons, demand_app. assert (E : demand [(T_FILE, [])] = 0) by (by vm_compute). cbn [snd]. lia. }
  intros [] s2 (ins2 & Hi2). cbn [insert list_insert] in Hi2.
  assert (Hset : ∀ d, <[S (length fs) := (T_FILE, d)]> ((T_DIR, c ++ de) :: fs ++ [(T_FILE, [])]) = (T_DIR, c ++ de) :: fs ++ [(T_FILE, d)]).
  { intros d. change ((T_DIR, c ++ de) :: <[length fs := (T_FILE, d)]> (fs ++ [(T_FILE, [])]) = (T_DIR, c ++ de) :: fs ++ [(T_FILE, d)]).
    f_equal. rewrite <- (Nat.add_0_r (length fs)) at 1. by rewrite insert_app_r. }
  kstep. replace n with (Z.of_nat (S (length fs)) + 1) at 1 by lia. eapply runs_mono.
  { apply (append_chunks_ok _ s2 _ ins2 (S (length fs)) T_FILE [] Hi2); [|done|done|].
    - change ((fs ++ [(T_FILE, [])]) !! length fs = Some (T_FILE, [])). by rewrite lookup_app_r, Nat.sub_diag.
    - rewrite Hset, demand_cons, demand_app, demand_cons. cbn [snd app]. assert (E : demand [] = 0) by done. lia. }
  intros [] s3 (ins3 & Hi3). rewrite Hset in Hi3. cbn [app] in Hi3.
  assert (En : Z.of_nat (length (fs ++ [(T_FILE, contents (h_chunks f))])) + 2 = n + 1) by (rewrite length_app; cbn [length]; lia).
  pose proof (IH s3 _ ins3 (c ++ de) Hi3 Hfit') as IH3. cbv zeta in IH3. rewrite En, <- (app_assoc fs) in IH3. apply IH3.
  - rewrite length_app. cbn [length]. lia.
  - rewrite length_app. lia.
  - cbn [app]. rewrite demand_cons, demand_app, demand_cons. cbn [snd file_entry]. lia.
Qed.

(** ** The start and the end of [main] *)

Lemma zero_sectors_ok k : ∀ i s, (∀ b, m_img s b = zeroes BSIZE) → m_end s = i →
  runs (zero_sectors i k) (λ _ s', (∀ b, m_img s' b = zeroes BSIZE) ∧ m_end s' = i + Z.of_nat k ∧
    m_freeinode s' = m_freeinode s ∧ m_freeblock s' = m_freeblock s) s.
Proof.
  induction k as [|k IH]; intros i s Hz He; cbn [zero_sectors].
  { kstep. split_and!; [done|lia|done|done]. }
  kstep. unfold wsect. kstep. eapply runs_mono; [apply IH|].
  - intros b. simpl. unfold fupd. by case_decide.
  - simpl. lia.
  - intros [] s' (H1 & H2 & H3 & H4). simpl in *. split_and!; [done|lia|done|done].
Qed.

Lemma sb_block_ok : bytes_ok BSIZE (sb_block mkfs_sb) ∧ sb_of_bytes (sb_block mkfs_sb) = mkfs_sb.
Proof.
  split; [|by vm_compute]. eapply bytes_ok_splice; [by apply bytes_ok_zeroes|]. split; [by vm_compute|].
  repeat constructor; by vm_compute.
Qed.

(** The image before the first inode. *)
Lemma first_inv s : (∀ b, m_img s b = zeroes BSIZE) → m_end s = FSSIZE → m_freeinode s = 1 → m_freeblock s = nmeta →
  mk_inv (Mk (fupd (m_img s) 1 (sb_block mkfs_sb)) (m_end s) (m_freeinode s) (m_freeblock s)) [] [].
Proof.
  intros Hz He Hf Hb. destruct consts as (HME & HF & _). destruct sb_block_ok as [Hsb _].
  split; cbn [m_img m_end m_freeinode m_freeblock]; try done.
  - split; try done.
    + intros b Hlt. rewrite fupd_ne by lia. apply Hz.
    + intros b. unfold fupd. case_decide; [done|]. rewrite Hz. by apply bytes_ok_zeroes.
    + lia.
Qed.

(** The free map: bits below [n] are set. *)
Lemma set_bits_used k : ∀ v i b, bytes_ok BSIZE (v 58) → 0 ≤ i → i + Z.of_nat k ≤ 4096 → 0 ≤ b < 4096 →
  used mkfs_sb (fupd v 58 (set_bits (v 58) i k)) b = (((i <=? b) && (b <? i + Z.of_nat k)) || used mkfs_sb v b).
Proof.
  assert (HB : BPB = 4096) by done. assert (HBB : ∀ b, 0 ≤ b < 4096 → BBLOCK b mkfs_sb = 58).
  { intros b Hb. unfold BBLOCK. rewrite HB, Z.div_small by lia. done. }
  induction k as [|k IH]; intros v i b Hv Hi Hk Hb; cbn [set_bits].
  - unfold used. rewrite (HBB b Hb), fupd_eq. bdestruct_all; simpl; lia || done.
  - set (d := put8 _ _ _). assert (Hi' : 0 ≤ i < 4096) by lia. pose proof (used_set mkfs_sb v i b) as Hu.
    rewrite (HBB i Hi') in Hu. specialize (Hu Hv). cbv zeta in Hu. rewrite HB, (Z.mod_small i 4096) in Hu by lia. fold d in Hu.
    assert (Hd : bytes_ok BSIZE d) by (by apply bytes_ok_put8).
    pose proof (IH (fupd v 58 d) (i + 1) b) as IH'. rewrite fupd_eq in IH'. specialize (IH' Hd ltac:(lia) ltac:(lia) Hb).
    rewrite Hu in IH'. etrans; [|etrans; [exact IH'|]].
    + unfold used. by rewrite (HBB b Hb), !fupd_eq.
    + case_decide; bdestruct_all; simpl; lia || done.
Qed.

Lemma bytes_ok_set_bits k : ∀ d i, bytes_ok BSIZE d → bytes_ok BSIZE (set_bits d i k).
Proof. induction k as [|k IH]; intros d i Hd; [done|]. cbn [set_bits]. by apply IH, bytes_ok_put8. Qed.

(** The size that the root directory gets at the end. *)
Definition root_size (c : list Z) : Z := (Z.of_nat (length c) / BSIZE + 1) * BSIZE.

(** A finished image: [mk_inv] but for the size of the root, and the free map. *)
Record built (v : Z → list Z) (fb : Z) (fl : list (Z * list Z)) (ins : list inode) : Prop := {
  bu_alloc : alloc_ok v fb ins;
  bu_len : length ins = length fl;
  bu_holds j i ty c : ins !! j = Some i → fl !! j = Some (ty, c) → holds v i c (nb (Z.of_nat (length c)));
  bu_disk j i ty c : ins !! j = Some i → fl !! j = Some (ty, c) →
    disk_inode v (Z.of_nat j + 1) = set_size (if decide (j = 0%nat) then root_size c else Z.of_nat (length c)) (file_inode ty [] (i_addrs i));
  bu_used b : 0 ≤ b < FSSIZE → used mkfs_sb v b = (b <? fb);
  bu_sb : v 1 = sb_block mkfs_sb
}.

Lemma mi_disk_eq s fl ins j i ty c : mk_inv s fl ins → ins !! j = Some i → fl !! j = Some (ty, c) →
  disk_inode (m_img s) (Z.of_nat j + 1) = set_size (Z.of_nat (length c)) (file_inode ty [] (i_addrs i)).
Proof. intros Hi Hj Hf. rewrite (mi_disk _ _ _ Hi _ _ Hj). destruct (mi_inode _ _ _ Hi _ _ _ _ Hj Hf) as [l ->]. done. Qed.

(** The end of [main], with inode 1 for the root. *)
Definition finish : K mk unit :=
  din ← rinode 1;
  let off := xint (i_size din) in
  let off := u32 ((off / BSIZE + 1) * BSIZE) in
  winode 1 (set_size (xint off) din);;
  s ← kget;
  mkfs_balloc (m_freeblock s).

Lemma finish_ok s fs ins c : mk_inv s ((T_DIR, c) :: fs) ins → Z.of_nat (length c) < MAXFILE * BSIZE →
  runs finish
    (λ _ s', m_end s' = FSSIZE ∧ m_freeblock s' = m_freeblock s ∧ built (m_img s') (m_freeblock s) ((T_DIR, c) :: fs) ins) s.
Proof.
  intros Hi Hc. pose proof (mi_end _ _ _ Hi). pose proof (mi_len _ _ _ Hi). pose proof (mi_count _ _ _ Hi). pose proof (mi_sb _ _ _ Hi). destruct consts as (HME & HF & HN & HI & HM & HS & HB). assert (HNI : NINODES = 200) by done.
  destruct ins as [|i0 ins]; [done|]. pose proof (mi_disk_eq _ _ _ 0 i0 T_DIR c Hi eq_refl eq_refl) as E0.
  change (Z.of_nat 0 + 1) with 1 in E0.
  pose proof (Z.div_mod (Z.of_nat (length c)) BSIZE ltac:(lia)) as Hdm. pose proof (Z.mod_pos_bound (Z.of_nat (length c)) BSIZE ltac:(lia)) as Hmb.
  assert (Hrs : 0 ≤ root_size c < 2 ^ 32) by (unfold root_size; lia).
  unfold finish. kstep. apply runs_rinode; [done|lia|]. rewrite E0. cbn [i_size set_size].
  replace (xint (Z.of_nat (length c))) with (Z.of_nat (length c)) by (symmetry; apply u32_small; lia). fold (root_size c).
  rewrite (u32_small (root_size c)) by lia. replace (xint (root_size c)) with (root_size c) by (symmetry; by apply u32_small).
  set (i1 := set_size _ _). assert (Hl0 : length (i_addrs i0) = 13%nat) by (by eapply (ao_len _ _ _ (mi_alloc _ _ _ Hi) 0)).
  assert (Hf1 : ifields i1).
  { pose proof (ao_addrs _ _ _ (mi_alloc _ _ _ Hi) 0 i0 eq_refl). split; simpl; try done; lia. }
  destruct (winode_img (m_img s) _ _ 1 i1 (mi_alloc _ _ _ Hi) Hf1) as (Hd1 & Hd2 & Hd3); [lia|done|].
  kstep. apply runs_winode; [done|lia|]. cbv zeta. set (b := IBLOCK 1 mkfs_sb) in *. set (d := put_dinode _ _ _) in *.
  destruct (iblock_small 1) as [Hb1 Hb2]; [lia|]. fold b in Hb1. destruct (meta_write _ _ _ b d (mi_alloc _ _ _ Hi) Hd3) as [Hal2 Hh2]; [lia|].
  set (v1 := fupd (m_img s) b d) in *. kstep. kstep. cbn [m_freeblock].
  pose proof (ao_fb _ _ _ (mi_alloc _ _ _ Hi)) as Hfb. change (sb_bmapstart mkfs_sb) with 58 in *. unfold mkfs_balloc. kstep.
  kstep; [apply Z.ltb_lt; lia|]. change (sb_bmapstart mkfs_sb) with 58. set (bm := set_bits _ _ _).
  assert (Hbm : bytes_ok BSIZE bm) by (by apply bytes_ok_set_bits, bytes_ok_zeroes).
  apply runs_wsect; [cbn [m_end]; lia|]. cbn [m_end m_freeblock m_img].
  destruct (meta_write _ _ _ 58 bm Hal2 Hbm) as [Hal3 Hh3]; [lia|].
  split_and!; [done|done|]. split; try done.
  - intros j i ty cc Hj Hf. apply (Hh3 j); [done|]. apply (Hh2 j); [done|]. by eapply (mi_holds _ _ _ Hi).
  - intros j i ty cc Hj Hf. pose proof (lookup_lt_Some _ _ _ Hf). unfold disk_inode.
    destruct (iblock_small (Z.of_nat j + 1)) as [Hb3 _]; [lia|]. change (sb_bmapstart mkfs_sb) with 58 in Hb3.
    rewrite fupd_ne by lia. fold (disk_inode v1 (Z.of_nat j + 1)). case_decide as Ej.
    + subst j. simpl in Hj, Hf. simplify_eq. exact Hd1.
    + rewrite Hd2 by lia. by apply (mi_disk_eq _ _ _ _ _ _ _ Hi).
  - intros b' Hb'. pose proof (set_bits_used (Z.to_nat (m_freeblock s)) (fupd v1 58 (zeroes BSIZE)) 0 b') as Hu.
    rewrite fupd_eq in Hu. fold bm in Hu. etrans; [|etrans; [apply Hu|]]; try lia; [| |].
    + unfold used, BBLOCK. change BPB with 4096. rewrite Z.div_small by lia. change (0 + sb_bmapstart mkfs_sb) with 58. by rewrite !fupd_eq.
    + by apply bytes_ok_zeroes.
    + assert (E : used mkfs_sb (fupd v1 58 (zeroes BSIZE)) b' = false).
      { unfold used, BBLOCK. change BPB with 4096. rewrite Z.div_small by lia. change (0 + sb_bmapstart mkfs_sb) with 58.
        rewrite fupd_eq, get8_zeroes. done. }
      rewrite E. bdestruct_all; simpl; lia || done.
Qed.

(** What [mkfs] packs: the root directory and the files. *)
Definition packed (files : list hostfile) : list (Z * list Z) :=
  (T_DIR, mkdent [46] 1 ++ mkdent [46; 46] 1 ++ entries 2 files) :: map file_entry files.

(** The command line fits the disk. *)
Record fit (files : list hostfile) : Prop := {
  ft_each : Forall fits files;
  ft_count : Z.of_nat (length files) + 1 < NINODES;
  ft_room : nmeta + demand (packed files) ≤ FSSIZE
}.

Lemma runs_append_root s ins c p : mk_inv s [(T_DIR, c)] ins → is_bytes p → Z.of_nat (length (c ++ p)) ≤ BSIZE →
  runs (iappend 1 p) (λ _ s', ∃ ins', mk_inv s' [(T_DIR, c ++ p)] ins') s.
Proof.
  intros Hi Hp Hl. destruct consts as (HME & HF & HN & HI & HM & HS & HB).
  apply (iappend_ok s _ ins 0 T_DIR c p Hi); [done|done|lia|]. cbn [insert list_insert].
  rewrite demand_cons. cbn [snd]. assert (E : demand [] = 0) by done. rewrite E.
  pose proof (cost_nb_mono (Z.of_nat (length (c ++ p))) BSIZE ltac:(lia)) as Hc. assert (E1 : cost (nb BSIZE) = 1) by done. lia.
Qed.

Lemma mkfs_main_ok files : fit files →
  runs (mkfs_main files) (λ _ s', m_end s' = FSSIZE ∧ ∃ ins, built (m_img s') (m_freeblock s') (packed files) ins) mkfs_start.
Proof.
  intros [Heach Hcount Hroom]. destruct consts as (HME & HF & HN & HI & HM & HS & HB). assert (HNI : NINODES = 200) by done.
  unfold mkfs_main. kstep. kstep. kstep. eapply runs_mono; [by apply zero_sectors_ok|].
  intros [] s0 (Hz & He & Hfi & Hfb). cbn [m_freeinode m_freeblock mkfs_start] in *.
  assert (He' : m_end s0 = FSSIZE) by (rewrite He; lia). kstep. apply runs_wsect; [lia|].
  pose proof (first_inv s0 Hz He' Hfi Hfb) as H0. set (s1 := Mk _ _ _ _) in *. kstep.
  eapply runs_mono; [apply (mkfs_ialloc_ok s1 [] [] T_DIR H0); [done|simpl; lia]|]. intros r s2 [-> (ins2 & H2)].
  change (Z.of_nat (length ([] : list (Z * list Z))) + 1) with 1. kstep. kstep; [done|]. change (xshort 1) with 1. cbn [app] in H2.
  destruct (mkdent_ok [46] 1) as (Hl1 & Hb1 & _ & _); [repeat constructor; lia|lia|].
  destruct (mkdent_ok [46; 46] 1) as (Hl2 & Hb2 & _ & _); [repeat constructor; lia|lia|].
  kstep. eapply runs_mono; [apply (runs_append_root s2 ins2 [] _ H2 Hb1); simpl app; lia|]. intros [] s3 (ins3 & H3). cbn [app] in H3.
  kstep. eapply runs_mono; [apply (runs_append_root s3 ins3 _ _ H3 Hb2); rewrite length_app; lia|]. intros [] s4 (ins4 & H4).
  pose proof (length_entries files 2) as Hle. pose proof (add_files_ok files s4 [] ins4 _ H4 Heach) as Hadd. cbv zeta in Hadd.
  change (Z.of_nat (length ([] : list (Z * list Z))) + 2) with 2 in Hadd. rewrite <- app_assoc in Hadd. cbn [app] in Hadd.
  kstep. eapply runs_mono; [apply Hadd; [simpl; lia| |exact Hroom]|].
  { rewrite !length_app. lia. }
  intros [] s5 (ins5 & H5). eapply runs_mono; [apply (finish_ok s5 _ ins5 _ H5); rewrite !length_app; lia|].
  intros [] s6 (E1 & E2 & Hb). split; [done|]. exists ins5. by rewrite E2.
Qed.

(** ** The inodes that the kernel loads *)

(** The entry [x] of the inode cache after [ilock] has read the inode. *)
Definition loaded (v : Z → list Z) (x : inode) : inode :=
  get_dinode (v (IBLOCK (i_inum x) mkfs_sb)) (dinode_off (i_inum x)) x.

Section loaded.
Context (v : Z → list Z) (fb : Z) (fl : list (Z * list Z)) (ins : list inode).
Context (Hb : built v fb fl ins).

(** A loaded inode has the slots of the one that [mkfs] wrote. *)
Lemma loaded_slots j ty c x : fl !! j = Some (ty, c) → i_inum x = Z.of_nat j + 1 →
  ∃ i, ins !! j = Some i ∧ (∀ k, slot v (loaded v x) k = slot v i k) ∧ i_addrs (loaded v x) = i_addrs i ∧
    i_type (loaded v x) = ty ∧ i_nlink (loaded v x) = 1 ∧
    i_size (loaded v x) = if decide (j = 0%nat) then root_size c else Z.of_nat (length c).
Proof.
  intros Hj Hx. destruct (lookup_lt_is_Some_2 ins j) as [i Hi].
  { rewrite (bu_len _ _ _ _ Hb). by eapply lookup_lt_Some. }
  pose proof (bu_disk _ _ _ _ Hb _ _ _ _ Hi Hj) as Hd. exists i. split; [done|].
  assert (E : i_addrs (loaded v x) = i_addrs i).
  { change (i_addrs (loaded v x)) with (i_addrs (disk_inode v (i_inum x))). by rewrite Hx, Hd. }
  split_and!; [intros k; by apply slot_addrs|done| | |].
  - change (i_type (loaded v x)) with (i_type (disk_inode v (i_inum x))). by rewrite Hx, Hd.
  - change (i_nlink (loaded v x)) with (i_nlink (disk_inode v (i_inum x))). by rewrite Hx, Hd.
  - change (i_size (loaded v x)) with (i_size (disk_inode v (i_inum x))). by rewrite Hx, Hd.
Qed.

Lemma loaded_iwf j ty c x : fl !! j = Some (ty, c) → i_inum x = Z.of_nat j + 1 → iwf mkfs_sb v (loaded v x).
Proof.
  intros Hj Hx. destruct (loaded_slots j ty c x Hj Hx) as (i & Hi & Es & Ea & _).
  destruct consts as (HME & HF & HN & HI & HM & HS & HB). pose proof (bu_alloc _ _ _ _ Hb) as Hal. pose proof (ao_fb _ _ _ Hal) as Hfb.
  split.
  - rewrite Ea, (ao_len _ _ _ Hal j i Hi). done.
  - intros k Hk. rewrite Es. intros Hne. pose proof (ao_slot _ _ _ Hal j i k Hi Hk Hne) as Hr. split.
    + unfold data. assert (E1 : dstart mkfs_sb = 59) by done. assert (E2 : sb_size mkfs_sb = 1000) by done. lia.
    + rewrite (bu_used _ _ _ _ Hb) by lia. apply Z.ltb_lt. lia.
  - intros k k' Hk Hk'. rewrite !Es. intros Hne E. by destruct (ao_inj _ _ _ Hal j j i i k k' Hi Hi Hk Hk' Hne E).
Qed.

Lemma loaded_bytes j ty c x o : fl !! j = Some (ty, c) → i_inum x = Z.of_nat j + 1 →
  0 ≤ o < nb (Z.of_nat (length c)) * BSIZE → fbyte v (loaded v x) o = get8 c o.
Proof.
  intros Hj Hx Ho. destruct (loaded_slots j ty c x Hj Hx) as (i & Hi & Es & _).
  rewrite <- (ho_bytes _ _ _ _ (bu_holds _ _ _ _ Hb _ _ _ _ Hi Hj) o Ho). unfold fbyte. by rewrite Es.
Qed.

Lemma loaded_blocks j ty c x bn : fl !! j = Some (ty, c) → i_inum x = Z.of_nat j + 1 → 0 ≤ bn < MAXFILE →
  slot v (loaded v x) (bslot bn) ≠ 0 ↔ bn < nb (Z.of_nat (length c)).
Proof.
  intros Hj Hx Ho. destruct (loaded_slots j ty c x Hj Hx) as (i & Hi & Es & _). rewrite Es.
  by apply (ho_blocks _ _ _ _ (bu_holds _ _ _ _ Hb _ _ _ _ Hi Hj)).
Qed.

Lemma loaded_disjoint j j' ty ty' c c' x x' : fl !! j = Some (ty, c) → fl !! j' = Some (ty', c') → j ≠ j' →
  i_inum x = Z.of_nat j + 1 → i_inum x' = Z.of_nat j' + 1 → idisjoint v (loaded v x) (loaded v x').
Proof.
  intros Hj Hj' Hne Hx Hx'. destruct (loaded_slots _ _ _ _ Hj Hx) as (i & Hi & Es & _).
  destruct (loaded_slots _ _ _ _ Hj' Hx') as (i' & Hi' & Es' & _).
  intros k k' Hk Hk'. rewrite Es, Es'. intros H0 E. apply Hne. symmetry.
  by apply (ao_inj _ _ _ (bu_alloc _ _ _ _ Hb) j' j i' i k k').
Qed.

(** The blocks of a file end with the file. *)
Lemma loaded_full j ty c x : fl !! j = Some (ty, c) → i_inum x = Z.of_nat j + 1 → Z.of_nat (length c) ≤ MAXFILE * BSIZE → j ≠ 0%nat →
  ifull v (loaded v x) ∧ fbytes v (loaded v x) 0 (Z.of_nat (length c)) = c.
Proof.
  intros Hj Hx Hl Hne. destruct (loaded_slots j ty c x Hj Hx) as (i & Hi & Es & _ & _ & _ & Ez). rewrite decide_False in Ez by done.
  destruct consts as (HME & HF & HN & HI & HM & HS & HB). destruct (nb_spec (Z.of_nat (length c))) as (H1 & H2 & H3); [lia|]. split.
  - split; [lia|]. intros bn Hbn Hlt. apply (loaded_blocks j ty c x); [done|done|lia|]. nia.
  - apply fbytes_of. intros o Ho. rewrite (loaded_bytes j ty c x) by (done || lia). f_equal. lia.
Qed.

Lemma built_fs_ok : fs_ok mkfs_sb v.
Proof.
  destruct consts as (HME & HF & _). pose proof (ao_fb _ _ _ (bu_alloc _ _ _ _ Hb)). split.
  - intros b _. apply (ao_bytes _ _ _ (bu_alloc _ _ _ _ Hb)).
  - intros b Hlt. assert (E1 : dstart mkfs_sb = 59) by done. rewrite (bu_used _ _ _ _ Hb) by lia. apply Z.ltb_lt. lia.
Qed.

End loaded.

(** ** The root directory *)

(** The name and the inode of each record of the root directory. *)
Definition records (files : list hostfile) : list (list Z * Z) :=
  ([46], 1) :: ([46; 46], 1) :: imap (λ k f, (mkfs_name (h_name f), Z.of_nat k + 2)) files.

Definition root_bytes (rs : list (list Z * Z)) : list Z := concat ((λ r, mkdent r.1 r.2) <$> rs).

Lemma root_entries files : ∀ n, entries (Z.of_nat n) files = root_bytes (imap (λ k f, (mkfs_name (h_name f), Z.of_nat k + Z.of_nat n)) files).
Proof.
  induction files as [|f files IH]; intros n; [done|]. cbn [entries imap]. unfold root_bytes. rewrite fmap_cons. cbn [concat fst snd].
  f_equal. replace (Z.of_nat n + 1) with (Z.of_nat (S n)) by lia. rewrite IH. unfold root_bytes. do 2 f_equal.
  apply imap_ext. intros k f' _. cbn. f_equal. lia.
Qed.

Lemma packed_root files : packed files = (T_DIR, root_bytes (records files)) :: map file_entry files.
Proof. unfold packed. change 2 with (Z.of_nat 2). rewrite root_entries. done. Qed.

Lemma length_mkdent name inum : length (mkdent name inum) = 16%nat.
Proof. unfold mkdent. rewrite length_app, length_strncpy. done. Qed.

Lemma length_root_bytes rs : length (root_bytes rs) = (16 * length rs)%nat.
Proof.
  unfold root_bytes. induction rs as [|r rs IH]; [done|]. rewrite fmap_cons. cbn [concat length]. rewrite length_app, IH, length_mkdent. lia.
Qed.

Lemma root_bytes_at rs : ∀ k r o, rs !! k = Some r → 0 ≤ o < 16 →
  get8 (root_bytes rs) (16 * Z.of_nat k + o) = get8 (mkdent r.1 r.2) o.
Proof.
  induction rs as [|r0 rs IH]; intros k r o Hk Ho; [done|]. unfold root_bytes. rewrite fmap_cons. cbn [concat].
  rewrite get8_app, length_mkdent by lia. destruct k as [|k].
  - simpl in Hk. simplify_eq. rewrite (proj2 (Z.ltb_lt _ _)) by lia. done.
  - rewrite (proj2 (Z.ltb_ge _ _)) by lia. rewrite <- (IH k r o Hk Ho). f_equal. lia.
Qed.

(** [strncmp] tells apart what [strncpy] copies differently. *)
Lemma strncmp_same n : ∀ t t', strncmp_bytes n t (strncpy_bytes n t') = 0 → strncpy_bytes n t = strncpy_bytes n t'.
Proof.
  induction n as [|n IH]; intros t t'; [done|]. cbn [strncmp_bytes strncpy_bytes].
  destruct (Z.eqb_spec (hd 0 t) 0) as [E|E]; cbn [negb andb].
  - destruct (Z.eqb_spec (hd 0 t') 0) as [E'|E']; [done|]. cbn [hd]. lia.
  - destruct (Z.eqb_spec (hd 0 t') 0) as [E'|E']; cbn [replicate hd tl].
    + rewrite (proj2 (Z.eqb_neq _ _) E). lia.
    + destruct (Z.eqb_spec (hd 0 t) (hd 0 t')) as [Eh|]; [|lia]. intros H. rewrite Eh. f_equal. by apply IH.
Qed.

Lemma dmatch_other name name' inum : dmatch name (mkdent name' inum) = true →
  strncpy_bytes (Z.to_nat DIRSIZ) name = strncpy_bytes (Z.to_nat DIRSIZ) name'.
Proof.
  unfold dmatch. rewrite andb_true_iff. intros [_ H%Z.eqb_eq].
  change (de_name (mkdent name' inum)) with (take (Z.to_nat DIRSIZ) (strncpy_bytes (Z.to_nat DIRSIZ) name')) in H.
  rewrite take_ge in H by (by rewrite length_strncpy). by apply strncmp_same.
Qed.

(** No two records have the same name within [DIRSIZ] characters. *)
Definition names_differ (files : list hostfile) : Prop :=
  NoDup ((λ r, strncpy_bytes (Z.to_nat DIRSIZ) r.1) <$> records files).

Section root.
Context (v : Z → list Z) (fb : Z) (files : list hostfile) (ins : list inode).
Context (Hb : built v fb (packed files) ins) (Hfit : fit files).
Context (x : inode) (Hx : i_inum x = ROOTINO).

Definition nrec : Z := Z.of_nat (length (records files)).

Lemma nrec_count : nrec = Z.of_nat (length files) + 2 ∧ nrec ≤ NINODES.
Proof. pose proof (ft_count _ Hfit). unfold nrec, records. cbn [length]. rewrite length_imap. lia. Qed.

Lemma root_size_eq : i_size (loaded v x) = (nrec / 32 + 1) * BSIZE ∧ i_type (loaded v x) = T_DIR ∧ i_nlink (loaded v x) = 1.
Proof.
  rewrite packed_root in Hb. destruct (loaded_slots _ _ _ _ Hb 0 _ _ x eq_refl) as (i & _ & _ & _ & -> & -> & ->); [done|].
  split; [|done]. rewrite decide_True by done. unfold root_size. rewrite length_root_bytes. fold nrec. do 2 f_equal.
  assert (E : Z.of_nat (16 * length (records files)) = nrec * 16) by (unfold nrec; lia). rewrite E. change BSIZE with (32 * 16).
  apply Z.div_mul_cancel_r; lia.
Qed.

Lemma root_dent k : 0 ≤ k < nb (16 * nrec) * 32 →
  dent v (loaded v x) k = match records files !! Z.to_nat k with Some r => mkdent r.1 r.2 | None => zeroes 16 end.
Proof.
  intros Hk. destruct consts as (_ & _ & _ & _ & _ & _ & HB). pose proof Hb as Hb'. rewrite packed_root in Hb'.
  assert (Hby : ∀ o, 0 ≤ o < nb (16 * nrec) * 512 → fbyte v (loaded v x) o = get8 (root_bytes (records files)) o).
  { intros o Ho. apply (loaded_bytes _ _ _ _ Hb' 0 T_DIR); [done|done|]. rewrite length_root_bytes, HB.
    replace (Z.of_nat (16 * length (records files))) with (16 * nrec) by (unfold nrec; lia). done. }
  unfold dent. change dirent_size with 16. destruct (records files !! Z.to_nat k) as [r|] eqn:E.
  - rewrite <- (fbytes_of v (loaded v x) (16 * k) (mkdent r.1 r.2)); [by rewrite length_mkdent|]. rewrite length_mkdent. intros o Ho.
    rewrite Hby by lia. rewrite <- (root_bytes_at (records files) (Z.to_nat k) r) by (done || lia). f_equal. lia.
  - apply (fbytes_of v (loaded v x) (16 * k) (zeroes 16)). intros o Ho. change (Z.of_nat (length (zeroes 16))) with 16 in Ho.
    rewrite Hby, get8_zeroes by lia. apply get8_past. rewrite length_root_bytes. apply lookup_ge_None in E. lia.
Qed.

(** The root directory ends on a block boundary when its last record does, and then its size is one block too large. *)
Lemma root_full : ifull v (loaded v x) ↔ nrec mod 32 ≠ 0.
Proof.
  destruct consts as (_ & _ & _ & _ & HM & _ & HB). pose proof Hb as Hb'. rewrite packed_root in Hb'. destruct nrec_count as [Hn Hmax].
  assert (HNI : NINODES = 200) by done. destruct root_size_eq as (Ez & _ & _).
  assert (Hl : Z.of_nat (length (root_bytes (records files))) = 16 * nrec) by (rewrite length_root_bytes; unfold nrec; lia).
  pose proof (λ bn, loaded_blocks _ _ _ _ Hb' 0 T_DIR _ x bn eq_refl Hx) as Hbl. rewrite Hl in Hbl.
  pose proof (Z.div_mod nrec 32 ltac:(lia)) as Hdm. pose proof (Z.mod_pos_bound nrec 32 ltac:(lia)) as Hmb.
  destruct (nb_spec (16 * nrec)) as (H1 & H2 & H3); [lia|]. rewrite HB in *. split.
  - intros [_ Hs] E. pose proof (Hs (nrec / 32) ltac:(lia) ltac:(lia)) as Hs'. rewrite Hbl in Hs' by lia. lia.
  - intros Hne. split; [lia|]. intros bn Hbn Hlt. rewrite Hbl; lia.
Qed.

Lemma root_find k r : nrec mod 32 ≠ 0 → names_differ files → records files !! k = Some r → is_bytes r.1 → 0 < r.2 < 2 ^ 16 →
  dfind v (loaded v x) r.1 0 (Z.to_nat ((nrec / 32 + 1) * 32)) = Some (r.2, dirent_size * Z.of_nat k).
Proof.
  intros Hne Hdiff Hk Hr1 Hr2. destruct consts as (_ & _ & _ & _ & _ & _ & HB). destruct nrec_count as [Hn Hmax].
  pose proof (Z.div_mod nrec 32 ltac:(lia)) as Hdm. pose proof (Z.mod_pos_bound nrec 32 ltac:(lia)) as Hmb.
  destruct (nb_spec (16 * nrec)) as (H1 & H2 & H3); [lia|]. rewrite HB in *.
  assert (Hlt : Z.of_nat k < nrec) by (apply lookup_lt_Some in Hk; unfold nrec; lia).
  assert (Hd : ∀ k' r', records files !! k' = Some r' → dent v (loaded v x) (Z.of_nat k') = mkdent r'.1 r'.2).
  { intros k' r' Hk'. pose proof (lookup_lt_Some _ _ _ Hk'). rewrite root_dent by (unfold nrec in *; lia). by rewrite Nat2Z.id, Hk'. }
  destruct (mkdent_ok r.1 r.2 Hr1 Hr2) as (_ & _ & Ei & Em).
  rewrite (dfind_first v (loaded v x) r.1 (Z.of_nat k)); [by rewrite (Hd k r Hk), Ei|lia| |by rewrite (Hd k r Hk)].
  intros j Hj. destruct (lookup_lt_is_Some_2 (records files) (Z.to_nat j)) as [r' Hr']; [unfold nrec in *; lia|].
  replace j with (Z.of_nat (Z.to_nat j)) by lia. rewrite (Hd _ _ Hr'). apply not_true_iff_false. intros E%dmatch_other.
  assert (Z.to_nat j = k); [|lia]. eapply (NoDup_lookup _ _ _ (strncpy_bytes (Z.to_nat DIRSIZ) r.1) Hdiff);
    rewrite list_lookup_fmap; [rewrite Hr'; exact (f_equal Some (eq_sym E))|by rewrite Hk].
Qed.

End root.

(** C34. When the files of the command line fit the disk, [mkfs] returns with an image of 1000 blocks
    that is a consistent file system: the superblock is the one that [readsb] reads back, the log is
    empty, exactly the blocks below the first free one are marked in use; each
    file has its inode, with all its blocks and the bytes of the host's file; no
    two inodes share a block; the root directory has the record of each file, and
    all the blocks of its size unless its records fill their last block. *)
Theorem mkfs_makes_a_file_system files : fit files →
  runs (mkfs_main files) (λ _ m, let v := m_img m in
    m_end m = FSSIZE ∧ sb_of_bytes (v 1) = mkfs_sb ∧ (∀ b, 2 ≤ b < 2 + mkfs_nlog → v b = zeroes BSIZE) ∧
    fs_ok mkfs_sb v ∧ (∀ b, 0 ≤ b < FSSIZE → used mkfs_sb v b = (b <? m_freeblock m)) ∧
    (∀ k f x, files !! k = Some f → i_inum x = Z.of_nat k + 2 →
       let i := loaded v x in let c := contents (h_chunks f) in
       i_type i = T_FILE ∧ i_nlink i = 1 ∧ i_size i = Z.of_nat (length c) ∧ iwf mkfs_sb v i ∧ ifull v i ∧ fbytes v i 0 (i_size i) = c) ∧
    (∀ x y, 1 ≤ i_inum x < Z.of_nat (length files) + 2 → 1 ≤ i_inum y < Z.of_nat (length files) + 2 → i_inum x ≠ i_inum y →
       idisjoint v (loaded v x) (loaded v y)) ∧
    (∀ x, i_inum x = ROOTINO →
       let i := loaded v x in
       i_type i = T_DIR ∧ i_nlink i = 1 ∧ iwf mkfs_sb v i ∧ (ifull v i ↔ (Z.of_nat (length files) + 2) mod 32 ≠ 0) ∧
       ∀ k r, records files !! k = Some r → dent v i (Z.of_nat k) = mkdent r.1 r.2)) mkfs_start.
Proof.
  intros Hfit. eapply runs_mono; [by apply mkfs_main_ok|]. intros [] m [He (ins & Hb)]. set (v := m_img m) in *. cbv zeta.
  destruct (nrec_count files Hfit) as [Hrec _]. rewrite <- Hrec. destruct consts as (HME & HF & HN & HI & HM & HS & HB).
  assert (Hfile : ∀ k f, files !! k = Some f → packed files !! S k = Some (T_FILE, contents (h_chunks f))).
  { intros k f Hk. unfold packed. simpl. by rewrite list_lookup_fmap, Hk. }
  split_and!; [done| | |by eapply built_fs_ok|by apply (bu_used _ _ _ _ Hb)| | |].
  - rewrite (bu_sb _ _ _ _ Hb). apply sb_block_ok.
  - intros b Hlt. change mkfs_nlog with 30 in Hlt. apply (ao_zero _ _ _ (bu_alloc _ _ _ _ Hb)). lia.
  - intros k f x Hk Hx. apply Hfile in Hk as Hp. assert (Hx' : i_inum x = Z.of_nat (S k) + 1) by lia.
    destruct (loaded_slots _ _ _ _ Hb _ _ _ x Hp Hx') as (_ & _ & _ & _ & Et & El & Es). rewrite decide_False in Es by done.
    pose proof (proj1 (Forall_lookup _ _) (ft_each _ Hfit) k f Hk) as Hf.
    destruct (loaded_full _ _ _ _ Hb _ _ _ x Hp Hx' (fi_size _ Hf)) as [H1 H2]; [done|]. rewrite Es.
    split_and!; try done. by eapply loaded_iwf.
  - intros x y Hx Hy Hne.
    destruct (lookup_lt_is_Some_2 (packed files) (Z.to_nat (i_inum x - 1))) as [[t c] Hc]; [unfold packed; cbn [length]; rewrite length_map; lia|].
    destruct (lookup_lt_is_Some_2 (packed files) (Z.to_nat (i_inum y - 1))) as [[t' c'] Hc']; [unfold packed; cbn [length]; rewrite length_map; lia|].
    apply (loaded_disjoint _ _ _ _ Hb _ _ _ _ _ _ x y Hc Hc'); lia.
  - intros x Hx. destruct (root_size_eq v _ files ins Hb x Hx) as (_ & Et & El).
    split_and!; [done|done|by eapply (loaded_iwf v _ _ _ Hb 0)|by eapply root_full|]. intros k r Hk.
    pose proof (lookup_lt_Some _ _ _ Hk). destruct (nb_spec (16 * nrec files)) as (N1 & N2 & N3); [lia|].
    rewrite (root_dent v _ files ins Hb x Hx), Nat2Z.id, Hk; [done|]. unfold nrec in *. lia.
Qed.

(** ** The kernel on the image *)

Section kernel.
Context {L : Type} `{LogDisk L}.
Context (dr : Z → option (nat → Z → K (fs L) (Z * list Z))).
Context (Hly : layout mkfs_sb).
Implicit Types (s : fs L) (A : labs).

(** The disk of the running kernel is the image, and no inode is in use yet. *)
Record mounted (v : Z → list Z) s A : Prop := {
  mo_abs : ld_abs (f_log s) A;
  mo_view : t_view A = v;
  mo_sb : f_sb s = mkfs_sb;
  mo_held : t_held A = ∅;
  mo_mod : t_mod A = ∅;
  mo_use : t_use A < ld_cap;
  mo_free k ip : f_inodes s !! k = Some ip → i_ref ip = 0 ∧ i_locked ip = false;
  mo_two : (2 ≤ length (f_inodes s))%nat
}.

(** A state in which only entry [dp] of the cache is in use. *)
Record one_used s (dp : nat) (i : inode) : Prop := {
  ou_entry : f_inodes s !! dp = Some i;
  ou_ref : i_ref i = 1;
  ou_free k ip : f_inodes s !! k = Some ip → k ≠ dp → i_ref ip = 0 ∧ i_locked ip = false;
  ou_two : (2 ≤ length (f_inodes s))%nat
}.

Lemma one_used_ok s dp i : one_used s dp i → icache_ok (f_inodes s).
Proof.
  intros []. assert (Hc : ∀ k ip dev inum, f_inodes s !! k = Some ip → cached ip dev inum = true → k = dp).
  { intros k ip dev inum Hk (Hr & _)%cached_true. destruct (decide (k = dp)); [done|]. destruct (ou_free0 k ip); [done..|]. lia. }
  split.
  - intros k ip Hk. destruct (decide (k = dp)) as [-> |Hne]; [|destruct (ou_free0 k ip Hk Hne); lia]. simplify_eq. lia.
  - intros j k ip ip' dev inum Hj Hk Hcj Hck. rewrite (Hc _ _ _ _ Hj Hcj), (Hc _ _ _ _ Hk Hck). done.
Qed.

(** [iget] and [ilock] of the root bring its inode into the cache. *)
Lemma root_loaded {B} v s A (f : nat → K (fs L) B) (Q : B → fs L → Prop) : mounted v s A → i_type (loaded v (Inode 0 ROOTINO 0 false 0 false 0 0 0 0 0 [])) = T_DIR →
  (∀ dp x l, i_inum x = ROOTINO → i_dev x = ld_dev → ld_abs l A →
     let s' := set_log l (put_ip dp (loaded v x) s) in one_used s' dp (loaded v x) → runs (f dp) Q s') →
  runs (dp ← iget ld_dev ROOTINO; ilock dp;; f dp) Q s.
Proof.
  intros [] Hty HQ. assert (Hic : icache_ok (f_inodes s)).
  { split; [intros k ip Hk; destruct (mo_free0 k ip Hk); lia|].
    intros j k ip ip' dev inum Hj _ (Hr & _)%cached_true. destruct (mo_free0 j ip Hj). lia. }
  pose proof (iget_spec s ld_dev ROOTINO Hic) as Hg. kstep.
  destruct (iget ld_dev ROOTINO s) as [[dp s1]|m|] eqn:E; [| |done].
  2:{ destruct Hg as [_ Hall]. destruct (lookup_lt_is_Some_2 (f_inodes s) 0) as [ip Hip]; [lia|].
      destruct (Hall 0%nat ip Hip), (mo_free0 0%nat ip Hip). lia. }
  destruct Hg as (ip & ip' & Hip & -> & Hc & Hcase). destruct (mo_free0 dp ip Hip) as [Hr0 Hl0].
  destruct Hcase as [[(Hr & _)%cached_true _]|(_ & Hr & [Hv Hl] & _)]; [lia|]. apply cached_true in Hc as (_ & Hd & Hi).
  assert (Hlt : (dp < length (f_inodes s))%nat) by (by eapply lookup_lt_Some).
  exists dp, (put_ip dp ip' s). split; [done|]. kstep.
  eapply (ilock_load_ok mkfs_sb Hly _ A dp ip'); try done; try lia.
  - simpl. by rewrite length_insert.
  - simpl. by rewrite list_lookup_total_insert_eq.
  - rewrite Hi. by vm_compute.
  - congruence.
  - rewrite mo_view0, Hi. change (i_type (loaded v (Inode 0 ROOTINO 0 false 0 false 0 0 0 0 0 [])) ≠ 0). by rewrite Hty.
  - intros l Hl'. rewrite put_ip_put. set (x := set_valid true (set_ilock true (f_pid s) ip')).
    rewrite mo_view0. change (set_valid true (get_dinode _ _ _)) with (loaded v x).
    apply HQ; [done|done|done|]. split; simpl; try done.
    + by apply list_lookup_insert_eq.
    + intros k ip0 Hk Hne. rewrite list_lookup_insert_ne in Hk by done. eauto.
    + by rewrite length_insert.
Qed.

(** A file that is found in the cache for the first time is loaded and read. *)
Lemma file_read v s A dp i x l k s' n c fb fl ins j ty : built v fb fl ins → fl !! j = Some (ty, c) → j ≠ 0%nat → ty ≠ T_DEV → ty ≠ 0 →
  Z.of_nat (length c) ≤ MAXFILE * BSIZE → 0 ≤ Z.of_nat j + 1 < NINODES → 0 ≤ n < 2 ^ 31 →
  mounted v s A → let s1 := set_log l (put_ip dp (loaded v x) s) in i = loaded v x → one_used s1 dp i → i_inum i ≠ Z.of_nat j + 1 →
  ld_abs l A → entry_for s1 ld_dev (Z.of_nat j + 1) k s' →
  runs (ilock k;; readi dr k 0 n)
    (λ r _, r = (Z.min n (Z.of_nat (length c)), take (Z.to_nat n) c)) s'.
Proof.
  intros Hb Hj Hj0 Hty Hty0 Hsz Hin Hn Hmo s1 -> Hou Hne HA (ip & ip' & Hip & -> & Hc & Hcase). destruct Hmo, Hou.
  assert (Hk : k ≠ dp ∧ i_ref ip' = 1 ∧ i_valid ip' = false ∧ i_locked ip' = false).
  { destruct Hcase as [[(Hr & _ & Hi)%cached_true _]|(Hr & Hr' & [Hv Hl] & _)].
    - destruct (decide (k = dp)) as [-> |Hkd]; [rewrite ou_entry0 in Hip; simplify_eq; done|]. destruct (ou_free0 k ip Hip Hkd). lia.
    - destruct (decide (k = dp)) as [-> |Hkd]; [rewrite ou_entry0 in Hip; simplify_eq; lia|].
      destruct (ou_free0 k ip Hip Hkd) as [_ Hl0]. split_and!; congruence. }
  destruct Hk as (Hkd & Hr & Hv & Hl). apply cached_true in Hc as (_ & Hd & Hi).
  assert (Hlt : (k < length (f_inodes s1))%nat) by (by eapply lookup_lt_Some).
  destruct (loaded_slots _ _ _ _ Hb j ty c (set_ilock true (f_pid s1) ip') Hj Hi) as (i0 & _ & _ & _ & Et & _).
  kstep. eapply (ilock_load_ok mkfs_sb Hly _ A k ip'); try done; try lia.
  - unfold put_ip. cbn [set_inodes f_inodes]. by rewrite length_insert.
  - unfold put_ip. cbn [set_inodes f_inodes]. by apply list_lookup_total_insert_eq.
  - rewrite Hi. done.
  - rewrite mo_view0. change (i_type (loaded v (set_ilock true (f_pid s1) ip')) ≠ 0). congruence.
  - intros l' HA'. rewrite put_ip_put. set (y := set_valid true (set_ilock true (f_pid s1) ip')).
    rewrite mo_view0. change (set_valid true (get_dinode _ _ _)) with (loaded v y).
    destruct (loaded_slots _ _ _ _ Hb j ty c y Hj Hi) as (_ & _ & _ & _ & Ety & _ & Esz). rewrite decide_False in Esz by done.
    destruct (loaded_full _ _ _ _ Hb j ty c y Hj Hi Hsz Hj0) as [Hful Hall]. destruct consts as (_ & _ & _ & _ & HM & _ & HB).
    eapply (readi_ok mkfs_sb Hly dr _ A k (loaded v y)); try done; try lia.
    + unfold put_ip. cbn [set_inodes f_inodes set_log]. by apply list_lookup_total_insert_eq.
    + rewrite mo_view0. by eapply loaded_iwf.
    + by rewrite mo_view0.
    + rewrite mo_view0. by eapply built_fs_ok.
    + intros l2 _. rewrite mo_view0, Esz, Z.sub_0_r. f_equal.
      replace (Z.min n (Z.of_nat (length c))) with (Z.of_nat (length (take (Z.to_nat n) c))) by (rewrite length_take; lia).
      apply fbytes_of. rewrite length_take. intros o Ho. destruct (nb_spec (Z.of_nat (length c))) as (N1 & N2 & N3); [lia|].
      rewrite (loaded_bytes _ _ _ _ Hb j ty c y) by (done || lia). unfold get8. rewrite lookup_take_lt by lia. do 2 f_equal. lia.
Qed.

(** C33. From the files of the command line to the kernel's reads.  When the files fit
    (names without slashes, sizes up to the largest file, inodes and blocks for all),
    their names, without a leading underscore and cut at [DIRSIZ], differ from each
    other and from the two directory entries, and the root directory does not end at
    the end of a block, [mkfs] returns; on a kernel whose disk is the image, with an
    empty inode cache, looking up the name of any of the files in the root directory
    and reading the inode that is found returns the bytes that the file had on the
    host.  (When the number of files plus two is a multiple of 32, [mkfs] rounds the
    size of the root directory up by a whole block that is not allocated.) *)
Theorem kernel_reads_what_mkfs_packed files : fit files → names_differ files → (Z.of_nat (length files) + 2) mod 32 ≠ 0 →
  runs (mkfs_main files) (λ _ m, ∀ s A k f n, mounted (m_img m) s A → files !! k = Some f → 0 ≤ n < 2 ^ 31 →
    runs (dp ← iget ld_dev ROOTINO;
          ilock dp;;
          r ← dirlookup dr dp (mkfs_name (h_name f));
          match r with
          | Some (ip, _) => ilock ip;; readi dr ip 0 n
          | None => mret (-1, [])
          end)
      (λ r _, let c := contents (h_chunks f) in r = (Z.min n (Z.of_nat (length c)), take (Z.to_nat n) c)) s) mkfs_start.
Proof.
  intros Hfit Hdiff Hmod. eapply runs_mono; [by apply mkfs_main_ok|]. intros [] m [_ (ins & Hb)] s A k f n Hmo Hk Hn.
  set (v := m_img m) in *. assert (HNI : NINODES = 200) by done. destruct consts as (HME & HF & HN & HI & HM & HS & HB).
  destruct (nrec_count files Hfit) as [Hrec Hcount]. rewrite <- Hrec in Hmod. pose proof (lookup_lt_Some _ _ _ Hk) as Hlt.
  pose proof (proj1 (Forall_lookup _ _) (ft_each _ Hfit) k f Hk) as Hf.
  assert (Hroot : packed files !! 0%nat = Some (T_DIR, (root_bytes (records files)))) by (by rewrite packed_root).
  eapply (root_loaded v); [done|by apply (root_size_eq v _ files ins Hb)|]. intros dp x l Hx Hxd Hl s1 Hou.
  destruct (root_size_eq v _ files ins Hb x Hx) as (Ez & Et & _). set (nr := Z.to_nat ((nrec files / 32 + 1) * 32)).
  assert (Hnr : 0 ≤ nrec files / 32) by (apply Z.div_pos; lia).
  assert (Hrk : records files !! S (S k) = Some (mkfs_name (h_name f), Z.of_nat k + 2)) by (simpl; by rewrite list_lookup_imap, Hk).
  kstep. eapply (dirlookup_ok dr mkfs_sb Hly s1 A dp (loaded v x) nr _ (Z.of_nat k + 2)).
  - destruct Hmo. split; try done.
    + by apply list_lookup_total_correct, Hou.
    + rewrite mo_view0. by eapply (loaded_iwf v _ _ _ Hb 0).
    + rewrite mo_view0. by eapply root_full.
    + rewrite mo_view0. by eapply built_fs_ok.
    + rewrite Ez, HB. change dirent_size with 16. unfold nr. lia.
  - by eapply one_used_ok.
  - destruct Hou. destruct (lookup_lt_is_Some_2 (f_inodes s1) (if decide (dp = 0%nat) then 1%nat else 0%nat)) as [ip Hip]; [case_decide; lia|].
    eexists _, ip. split; [exact Hip|]. apply (ou_free0 _ _ Hip). case_decide; lia.
  - rewrite (mo_view _ _ _ Hmo). eapply (root_find v _ files ins Hb Hfit x Hx (S (S k)) (mkfs_name (h_name f), Z.of_nat k + 2)); try done.
    + apply is_bytes_name, Hf.
    + simpl. lia.
  - intros l2 ip s2 Hl2 He. replace (Z.of_nat k + 2) with (Z.of_nat (S k) + 1) in He by lia.
    change (i_dev (loaded v x)) with (i_dev x) in He. rewrite Hxd in He.
    eapply (file_read v s A dp (loaded v x) x l2 ip s2 n (contents (h_chunks f)) _ _ _ (S k) T_FILE Hb); try done; try lia.
    + unfold packed. simpl. by rewrite list_lookup_fmap, Hk.
    + apply Hf.
    + destruct Hou. by split.
    + change (i_inum (loaded v x)) with (i_inum x). rewrite Hx. assert (ROOTINO = 1) by done. lia.
Qed.

End kernel.

(** ** A command line with two files *)

Definition two_files : list hostfile :=
  [Hostfile [95; 99; 97; 116] [[127; 69; 76; 70]; [1; 1]]; Hostfile [82; 69; 65; 68; 77; 69] [repeat 120 600; [10]]].

Lemma two_files_fit : fit two_files.
Proof.
  split; [|by vm_compute|by vm_compute]. repeat constructor; try lia; try (by vm_compute).
Qed.

Lemma mkfs_makes_a_file_system_witness :
  runs (mkfs_main two_files) (λ _ m, m_end m = FSSIZE ∧
    ∀ x, i_inum x = 2 → fbytes (m_img m) (loaded (m_img m) x) 0 6 = [127; 69; 76; 70; 1; 1]) mkfs_start.
Proof.
  eapply runs_mono; [exact (mkfs_makes_a_file_system two_files two_files_fit)|].
  intros [] m (He & _ & _ & _ & _ & Hf & _). split; [exact He|]. intros x Hx.
  destruct (Hf 0%nat _ x eq_refl Hx) as (_ & _ & Es & _ & _ & Hc). rewrite Es in Hc. exact Hc.
Defined.

(** The kernel of [FsProps] with the image on its disk. *)
#[local] Existing Instances image_driver image_disk.

Definition disk_of (v : Z → list Z) : disk :=
  Disk (list_to_map ((λ b, ((1, b), v b)) <$> seqZ 0 FSSIZE)) [].

Definition mkfs_fs (v : Z → list Z) : fs (lst bst) :=
  Fs mkfs_sb (replicate 50 (Inode 0 0 0 false 0 false 0 0 0 0 0 (replicate 13 0))) 3 0
    (Lst 2 30 1 false 1 0 (replicate (Z.to_nat LOGSIZE) 0)
       (match binit (boot (disk_of v) 3) with Ok (_, c) => c | _ => boot (disk_of v) 3 end)).

Lemma dread_disk_of v b : (FSSIZE ≤ b ∨ b < 0 → v b = zeroes BSIZE) → dread (disk_of v) (1, b) = v b.
Proof.
  intros Hz. unfold dread, disk_of. cbn [d_blk]. destruct (decide (0 ≤ b < FSSIZE)) as [Hb|Hb].
  - rewrite (elem_of_list_to_map_1 _ (1, b) (v b)); [done| |].
    + rewrite <- list_fmap_compose. apply NoDup_fmap_2; [|apply NoDup_seqZ]. by intros ? ? [= ->].
    + apply list_elem_of_fmap. exists b. split; [done|]. by apply elem_of_seqZ.
  - rewrite not_elem_of_list_to_map_1; [symmetry; apply Hz; lia|]. rewrite <- list_fmap_compose.
    intros (b' & [= ->] & Hb'%elem_of_seqZ)%list_elem_of_fmap. lia.
Qed.

(** A log that is empty on the disk and in memory. *)
Lemma clean_log_abs v (d : disk) (c : bst) : babs c (Cabs (dread d) d ∅ ∅) → (∀ b, dread d (1, b) = v b) → v 2 = zeroes BSIZE →
  ld_abs (Lst 2 30 1 false 1 0 (replicate (Z.to_nat LOGSIZE) 0) c) (Labs v ∅ ∅ ∅).
Proof.
  intros Hc Hd Hv. exists (Cabs (dread d) d ∅ ∅). split; try done; [|by intros k; right; right].
  split; cbn [a_disk]; unfold hd_n; rewrite ?(Hd 2), ?Hv; try done; first [apply NoDup_nil_2 | apply Forall_nil_2 | by apply bytes_ok_zeroes | exact Hc].
Qed.

Lemma mkfs_mounted v : (∀ b, FSSIZE ≤ b ∨ b < 0 → v b = zeroes BSIZE) → v 2 = zeroes BSIZE →
  mounted v (mkfs_fs v) (Labs v ∅ ∅ ∅).
Proof.
  intros Hz Hv. split; try done.
  - destruct (binit_ok (disk_of v) 3 (λ _ s, babs s (Cabs (dread (disk_of v)) (disk_of v) ∅ ∅))) as ([] & s & E & Hs); [done|].
    unfold mkfs_fs. cbn [f_log]. rewrite E. apply (clean_log_abs _ (disk_of v)); [done| |done]. intros b. apply dread_disk_of, Hz.
  - intros k ip Hk. unfold mkfs_fs in Hk. cbn [f_inodes] in Hk. by apply lookup_replicate in Hk as [-> _].
  - unfold mkfs_fs. cbn [f_inodes]. rewrite length_replicate. lia.
Qed.

Lemma packed_mounted files : fit files →
  runs (mkfs_main files) (λ _ m, mounted (m_img m) (mkfs_fs (m_img m)) (Labs (m_img m) ∅ ∅ ∅)) mkfs_start.
Proof.
  intros Hfit. eapply runs_mono; [by apply mkfs_main_ok|]. intros [] m [_ (ins & Hb)]. pose proof (bu_alloc _ _ _ _ Hb) as Hal.
  pose proof (ao_fb _ _ _ Hal). apply mkfs_mounted; [intros b Hlt|]; apply (ao_zero _ _ _ Hal); lia.
Qed.

Lemma kernel_reads_what_mkfs_packed_witness :
  ∃ m, mkfs_main two_files mkfs_start = Ok (tt, m) ∧
    runs (dp ← iget 1 ROOTINO;
          ilock dp;;
          r ← dirlookup no_read dp [99; 97; 116];
          match r with
          | Some (ip, _) => ilock ip;; readi no_read ip 0 512
          | None => mret (-1, [])
          end)
      (λ r _, r = (6, [127; 69; 76; 70; 1; 1])) (mkfs_fs (m_img m)).
Proof.
  destruct (packed_mounted two_files two_files_fit) as ([] & m & E & Hmo). exists m. split; [exact E|].
  destruct (kernel_reads_what_mkfs_packed no_read image_layout two_files two_files_fit) as ([] & m' & E' & Hm).
  - unfold names_differ. apply (bool_decide_unpack _). by vm_compute.
  - by vm_compute.
  - assert (m' = m) by (rewrite E in E'; by injection E'). subst m'. apply (Hm _ _ 0%nat _ 512 Hmo eq_refl). lia.
Defined.
