(* ===== verification/Vm.v ===== *)
(** * Virtual memory: [xv6/vm.c]

    Page directories and page tables live in pages of [kalloc]; an address of the
    model is a kernel virtual address.  [kend] and [kdata] are the linker symbols
    [end] and [data].  [cprintf] only prints and has no effect here. *)

From S2P Require Import Prelude Str Mmu Kalloc.

Section vm.
Context (kend kdata : Z).

Notation kfree := (kfree kend).

Definition mem_mod (f : gmap Z Z → gmap Z Z) : K kst unit := kmod (λ s, set_kmem (f (k_mem s)) s).
Definition mem_ld (a : Z) : K kst Z := kgets (λ s, ld32 (k_mem s) a).

(** Rounds enough for a loop that visits each page below [sz] once: the pages, one
    that straddles each end, and the failing test. *)
Definition page_fuel (sz : Z) : nat := S (S (S (Z.to_nat (sz / PGSIZE)))).

(** The address of the entry for [va], 0 for the null pointer. *)
Definition walkpgdir (pgdir va : Z) (alloc : bool) : K kst Z :=
  let pde := pgdir + 4 * PDX va in
  e ← mem_ld pde;
  if negb (Z.land e PTE_P =? 0) then mret (P2V (PTE_ADDR e) + 4 * PTX va)
  else if negb alloc then mret 0
  else
    pgtab ← kalloc;
    if pgtab =? 0 then mret 0
    else
      mem_mod (λ m, memset m pgtab 0 PGSIZE);;
      mem_mod (λ m, st32 m pde (Z.lor (Z.lor (Z.lor (V2P pgtab) PTE_P) PTE_W) PTE_U));;
      mret (pgtab + 4 * PTX va).

(** The [for(;;)] of [mappages], a round per page from [a] to [last]. *)
Fixpoint mappages_loop (fuel : nat) (pgdir a last pa perm : Z) : K kst Z :=
  match fuel with
  | O => khang
  | S fuel' =>
      pte ← walkpgdir pgdir a true;
      if pte =? 0 then mret (-1)
      else
        e ← mem_ld pte;
        kassert (Z.land e PTE_P =? 0) "remap";;
        mem_mod (λ m, st32 m pte (Z.lor (Z.lor pa perm) PTE_P));;
        if a =? last then mret 0
        else mappages_loop fuel' pgdir (u32 (a + PGSIZE)) last (u32 (pa + PGSIZE)) perm
  end.

Definition mappages (pgdir va size pa perm : Z) : K kst Z :=
  let a := PGROUNDDOWN va in
  let last := PGROUNDDOWN (u32 (va + size - 1)) in
  mappages_loop (S (Z.to_nat (u32 (last - a) / PGSIZE))) pgdir a last pa perm.

(** [struct kmap] and the table [kmap]. *)
Record kmap_entry := Kmap {
  km_virt : Z;
  km_phys_start : Z;
  km_phys_end : Z;
  km_perm : Z
}.

Definition kmap : list kmap_entry := [
  Kmap KERNBASE 0 EXTMEM PTE_W;
  Kmap KERNLINK (V2P KERNLINK) (V2P kdata) 0;
  Kmap kdata (V2P kdata) PHYSTOP PTE_W;
  Kmap DEVSPACE DEVSPACE 0 PTE_W
].

(** The loop of [deallocuvm]; [a] grows by a page at least in each round. *)
Fixpoint deallocuvm_loop (fuel : nat) (pgdir a oldsz : Z) : K kst unit :=
  match fuel with
  | O => khang
  | S fuel' =>
      if a <? oldsz then
        pte ← walkpgdir pgdir a false;
        if pte =? 0 then
          deallocuvm_loop fuel' pgdir (u32 (u32 (PGADDR (PDX a + 1) 0 0 - PGSIZE) + PGSIZE)) oldsz
        else
          e ← mem_ld pte;
          (if negb (Z.land e PTE_P =? 0) then
             let pa := PTE_ADDR e in
             kassert (negb (pa =? 0)) "kfree";;
             kfree (P2V pa);;
             mem_mod (λ m, st32 m pte 0)
           else mret tt);;
          deallocuvm_loop fuel' pgdir (u32 (a + PGSIZE)) oldsz
      else mret tt
  end.

Definition deallocuvm (pgdir oldsz newsz : Z) : K kst Z :=
  if oldsz <=? newsz then mret oldsz
  else
    let a := PGROUNDUP newsz in
    deallocuvm_loop (page_fuel oldsz) pgdir a oldsz;;
    mret newsz.

(** [for(i = 0; i < NPDENTRIES; i++)] of [freevm]. *)
Fixpoint freevm_loop (pgdir i : Z) (k : nat) : K kst unit :=
  match k with
  | O => mret tt
  | S k' =>
      e ← mem_ld (pgdir + 4 * i);
      (if negb (Z.land e PTE_P =? 0) then kfree (P2V (PTE_ADDR e)) else mret tt);;
      freevm_loop pgdir (i + 1) k'
  end.

Definition freevm (pgdir : Z) : K kst unit :=
  kassert (negb (pgdir =? 0)) "freevm: no pgdir";;
  deallocuvm pgdir KERNBASE 0;;
  freevm_loop pgdir 0 (Z.to_nat NPDENTRIES);;
  kfree pgdir.

Fixpoint setupkvm_loop (pgdir : Z) (ks : list kmap_entry) : K kst Z :=
  match ks with
  | [] => mret pgdir
  | k :: ks' =>
      r ← mappages pgdir (km_virt k) (u32 (km_phys_end k - km_phys_start k)) (km_phys_start k) (km_perm k);
      if r <? 0 then freevm pgdir;; mret 0
      else setupkvm_loop pgdir ks'
  end.

Definition setupkvm : K kst Z :=
  pgdir ← kalloc;
  if pgdir =? 0 then mret 0
  else
    mem_mod (λ m, memset m pgdir 0 PGSIZE);;
    kassert (negb (DEVSPACE <? P2V PHYSTOP)) "PHYSTOP too high";;
    setupkvm_loop pgdir kmap.

Definition inituvm (pgdir init sz : Z) : K kst unit :=
  kassert (negb (PGSIZE <=? sz)) "inituvm: more than a page";;
  mem ← kalloc;
  mem_mod (λ m, memset m mem 0 PGSIZE);;
  mappages pgdir 0 PGSIZE (V2P mem) (Z.lor PTE_W PTE_U);;
  mem_mod (λ m, memmove m mem init sz).

(** The loop of [allocuvm], with the clean-up of its two failures. *)
Fixpoint allocuvm_loop (fuel : nat) (pgdir a oldsz newsz : Z) : K kst Z :=
  match fuel with
  | O => khang
  | S fuel' =>
      if a <? newsz then
        mem ← kalloc;
        if mem =? 0 then deallocuvm pgdir newsz oldsz;; mret 0
        else
          mem_mod (λ m, memset m mem 0 PGSIZE);;
          r ← mappages pgdir a PGSIZE (V2P mem) (Z.lor PTE_W PTE_U);
          if r <? 0 then
            deallocuvm pgdir newsz oldsz;;
            kfree mem;;
            mret 0
          else allocuvm_loop fuel' pgdir (u32 (a + PGSIZE)) oldsz newsz
      else mret newsz
  end.

Definition allocuvm (pgdir oldsz newsz : Z) : K kst Z :=
  if KERNBASE <=? newsz then mret 0
  else if newsz <? oldsz then mret oldsz
  else
    let a := PGROUNDUP oldsz in
    allocuvm_loop (page_fuel newsz) pgdir a oldsz newsz.

Definition clearpteu (pgdir uva : Z) : K kst unit :=
  pte ← walkpgdir pgdir uva false;
  kassert (negb (pte =? 0)) "clearpteu";;
  e ← mem_ld pte;
  mem_mod (λ m, st32 m pte (Z.land e (Z.lnot PTE_U))).

Fixpoint copyuvm_loop (fuel : nat) (pgdir d i sz : Z) : K kst Z :=
  match fuel with
  | O => khang
  | S fuel' =>
      if i <? sz then
        pte ← walkpgdir pgdir i false;
        kassert (negb (pte =? 0)) "copyuvm: pte should exist";;
        e ← mem_ld pte;
        kassert (negb (Z.land e PTE_P =? 0)) "copyuvm: page not present";;
        let pa := PTE_ADDR e in
        let flags := PTE_FLAGS e in
        mem ← kalloc;
        if mem =? 0 then freevm d;; mret 0
        else
          mem_mod (λ m, memmove m mem (P2V pa) PGSIZE);;
          r ← mappages d i PGSIZE (V2P mem) flags;
          if r <? 0 then
            kfree mem;;
            freevm d;;
            mret 0
          else copyuvm_loop fuel' pgdir d (u32 (i + PGSIZE)) sz
      else mret d
  end.

Definition copyuvm (pgdir sz : Z) : K kst Z :=
  d ← setupkvm;
  if d =? 0 then mret 0
  else copyuvm_loop (page_fuel sz) pgdir d 0 sz.

(** The source loads [*pte] without a test of [pte]; a null [pte] reads address 0. *)
Definition uva2ka (pgdir uva : Z) : K kst Z :=
  pte ← walkpgdir pgdir uva false;
  e ← mem_ld pte;
  if Z.land e PTE_P =? 0 then mret 0
  else if Z.land e PTE_U =? 0 then mret 0
  else mret (P2V (PTE_ADDR e)).

Fixpoint copyout_loop (fuel : nat) (pgdir va buf len : Z) : K kst Z :=
  match fuel with
  | O => khang
  | S fuel' =>
      if 0 <? len then
        let va0 := PGROUNDDOWN va in
        pa0 ← uva2ka pgdir va0;
        if pa0 =? 0 then mret (-1)
        else
          let n := PGSIZE - (va - va0) in
          let n := if len <? n then len else n in
          mem_mod (λ m, memmove m (pa0 + (va - va0)) buf n);;
          copyout_loop fuel' pgdir (u32 (va0 + PGSIZE)) (buf + n) (len - n)
      else mret 0
  end.

Definition copyout (pgdir va p len : Z) : K kst Z :=
  copyout_loop (page_fuel len) pgdir va p len.

(** [loaduvm] reads from an inode: [readi off n] returns a count and the bytes. *)
Section load.
Context {F : Type} (readi : Z → Z → K F (Z * list Z)).

Definition on_mem {A} (m : K kst A) : K (kst * F) A := λ s,
  match m s.1 with
  | Ok (a, k) => Ok (a, (k, s.2))
  | Panic msg => Panic msg
  | Hang => Hang
  end.
Definition on_fs {A} (m : K F A) : K (kst * F) A := λ s,
  match m s.2 with
  | Ok (a, f) => Ok (a, (s.1, f))
  | Panic msg => Panic msg
  | Hang => Hang
  end.

Fixpoint loaduvm_loop (fuel : nat) (pgdir addr offset sz i : Z) : K (kst * F) Z :=
  match fuel with
  | O => khang
  | S fuel' =>
      if i <? sz then
        pte ← on_mem (walkpgdir pgdir (u32 (addr + i)) false);
        kassert (negb (pte =? 0)) "loaduvm: address should exist";;
        e ← on_mem (mem_ld pte);
        let pa := PTE_ADDR e in
        let n := if sz - i <? PGSIZE then sz - i else PGSIZE in
        '(r, bytes) ← on_fs (readi (u32 (offset + i)) n);
        on_mem (mem_mod (λ m, st_bytes m (P2V pa) bytes));;
        if negb (r =? n) then mret (-1)
        else loaduvm_loop fuel' pgdir addr offset sz (u32 (i + PGSIZE))
      else mret 0
  end.

Definition loaduvm (pgdir addr offset sz : Z) : K (kst * F) Z :=
  kassert (addr mod PGSIZE =? 0) "loaduvm: addr must be page aligned";;
  loaduvm_loop (page_fuel sz) pgdir addr offset sz 0.

End load.
End vm.
