(* ===== verification/VmSpec.v ===== *)
(** * Virtual memory: page tables as maps

    A page directory with its page tables is described by the map [T] from
    directory indices to page-table pages, and its contents by the entry of each
    page number.  The lemmas of this file state the operations of [xv6/vm.c] on
    this description. *)

From S2P Require Import Prelude Str Mmu Kalloc Vm.

(** Memory changed inside the pages [P] only. *)
Definition same_out (P : gset Z) (m m' : gmap Z Z) : Prop :=
  ∀ b, (∀ p, p ∈ P → b < p ∨ p + PGSIZE ≤ b) → rd m' b = rd m b.

(** The entry of page number [p], 0 where there is no page table. *)
Definition entry (m : gmap Z Z) (T : gmap Z Z) (p : Z) : Z :=
  match T !! (p / NPTENTRIES) with
  | Some t => ld32 m (t + 4 * (p mod NPTENTRIES))
  | None => 0
  end.

Definition npages : Z := NPDENTRIES * NPTENTRIES.

Definition present (e : Z) : Prop := Z.land e PTE_P ≠ 0.
#[global] Instance present_dec e : Decision (present e).
Proof. unfold present. apply _. Defined.

(** The page that an entry refers to, as the kernel addresses it. *)
Definition frame (e : Z) : Z := P2V (PTE_ADDR e).

(** The pages of a page table: its directory and its tables. *)
Definition own (pgdir : Z) (T : gmap Z Z) : gset Z := {[pgdir]} ∪ map_img T.

Section spec.
Context (kend : Z).

Record pt (m : gmap Z Z) (pgdir : Z) (T : gmap Z Z) : Prop := {
  pt_dir : page_ok kend pgdir;
  pt_tab i t : T !! i = Some t → 0 ≤ i < NPDENTRIES ∧ page_ok kend t ∧ t ≠ pgdir ∧
    present (ld32 m (pgdir + 4 * i)) ∧ frame (ld32 m (pgdir + 4 * i)) = t;
  pt_none i : 0 ≤ i < NPDENTRIES → T !! i = None → ¬ present (ld32 m (pgdir + 4 * i));
  pt_inj i j t : T !! i = Some t → T !! j = Some t → i = j
}.

(** The allocator's free pages [l] and a page table, with no page in common. *)
Record vinv (s : kst) (l : list Z) (pgdir : Z) (T : gmap Z Z) : Prop := {
  vi_k : kinv kend s l;
  vi_pt : pt (k_mem s) pgdir T;
  vi_dis v : v ∈ l → v ∉ own pgdir T
}.

(** ** Pages and entries *)

Lemma page_ok_mult v : page_ok kend v → ∃ q, v = q * 2 ^ 12 ∧ 0 ≤ q - 2 ^ 19 < 2 ^ 20.
Proof.
  intros (Hm & _ & Hr). unfold KERNBASE, PHYSTOP, PGSIZE in *.
  apply Z.mod_divide in Hm as [q ->]; [|done]. exists q. lia.
Qed.

Lemma page_entry v f :
  page_ok kend v → 0 ≤ f < PGSIZE →
  let e := Z.lor (V2P v) f in
  u32 e = e ∧ PTE_FLAGS e = f ∧ PTE_ADDR e = V2P v ∧ frame e = v ∧ Z.land e 1 = Z.land f 1.
Proof.
  intros Hv Hf. destruct (page_ok_mult v Hv) as (q & Eq & Hq). unfold PGSIZE in Hf. cbv zeta.
  pose proof (page_ok_pos kend v Hv) as (_ & Hle & _).
  assert (EV : V2P v = (q - 2 ^ 19) * 2 ^ 12).
  { rewrite V2P_eq; [unfold KERNBASE; lia|]. destruct Hv as (_ & _ & Hr). unfold KERNBASE, PHYSTOP in *. lia. }
  assert (EL : Z.lor (V2P v) f = (q - 2 ^ 19) * 2 ^ 12 + f) by (rewrite EV; apply lor_add; lia).
  unfold KERNBASE, PHYSTOP, PGSIZE in Hle.
  assert (EU : u32 (Z.lor (V2P v) f) = Z.lor (V2P v) f) by (apply u32_small; rewrite EL; lia).
  assert (EM : ((q - 2 ^ 19) * 2 ^ 12 + f) mod 4096 = f).
  { rewrite Z.add_comm. change (2 ^ 12) with 4096. rewrite Z.mod_add, Z.mod_small by lia. done. }
  assert (EA : PTE_ADDR (Z.lor (V2P v) f) = V2P v).
  { rewrite PTE_ADDR_eq, EU, EL, EV. unfold PGSIZE. rewrite EM. lia. }
  split_and!; [done| |done| |].
  - rewrite PTE_FLAGS_eq, EU, EL. unfold PGSIZE. exact EM.
  - unfold frame. rewrite EA. apply P2V_V2P. destruct Hv as (_ & _ & Hr). unfold KERNBASE, PHYSTOP in *. lia.
  - rewrite EL. change 1 with (Z.ones 1). rewrite !Z.land_ones by lia.
    replace ((q - 2 ^ 19) * 2 ^ 12 + f) with (f + ((q - 2 ^ 19) * 2 ^ 11) * 2 ^ 1) by lia.
    by rewrite Z.mod_add by lia.
Qed.

Lemma elem_own v pgdir T : v ∈ own pgdir T ↔ v = pgdir ∨ ∃ i, T !! i = Some v.
Proof. unfold own. rewrite elem_of_union, elem_of_singleton, elem_of_map_img. done. Qed.

Lemma own_page m pgdir T v : pt m pgdir T → v ∈ own pgdir T → page_ok kend v.
Proof. intros Hp [-> |[i E]]%elem_own; [apply Hp|by apply (pt_tab _ _ _ Hp i)]. Qed.

(** A byte of a page is outside every other page. *)
Lemma out_of (P : gset Z) q b :
  page_ok kend q → (∀ p, p ∈ P → page_ok kend p) → q ∉ P → q ≤ b < q + PGSIZE →
  ∀ p, p ∈ P → b < p ∨ p + PGSIZE ≤ b.
Proof.
  intros Hq HP Hn Hb p Hp. assert (q ≠ p) as Hne by (by intros ->).
  pose proof (pages_disjoint kend q p Hq (HP p Hp) Hne). lia.
Qed.

Lemma same_out_ld P m m' q j :
  same_out P m m' → page_ok kend q → (∀ p, p ∈ P → page_ok kend p) → q ∉ P → 0 ≤ j < 1024 →
  ld32 m' (q + 4 * j) = ld32 m (q + 4 * j).
Proof.
  intros Hs Hq HP Hn Hj. apply ld32_ext. intros b Hb. apply Hs. eapply out_of; eauto.
  unfold PGSIZE. lia.
Qed.

Lemma same_out_mono P P' m m' : P ⊆ P' → same_out P m m' → same_out P' m m'.
Proof. intros Hsub Hs b Hb. apply Hs. intros p Hp. apply Hb. set_solver. Qed.

Lemma same_out_trans P m1 m2 m3 : same_out P m1 m2 → same_out P m2 m3 → same_out P m1 m3.
Proof. intros H1 H2 b Hb. by rewrite H2, H1. Qed.

Lemma same_out_refl P m : same_out P m m.
Proof. done. Qed.

Lemma same_out_st32 m p j v : 0 ≤ j < 1024 → same_out {[p]} m (st32 m (p + 4 * j) v).
Proof.
  intros Hj b Hb. specialize (Hb p ltac:(set_solver)). unfold PGSIZE in Hb. rewrite rd_st32.
  bdestruct_all; simpl; try done; lia.
Qed.

Lemma same_out_memset m p c : same_out {[p]} m (memset m p c PGSIZE).
Proof.
  intros b Hb. specialize (Hb p ltac:(set_solver)). unfold PGSIZE in *. rewrite rd_memset by lia.
  bdestruct_all; simpl; try done; lia.
Qed.

(** The free list does not see a change in other pages. *)
Lemma kinv_out P s l m' :
  kinv kend s l → mem_ok m' → same_out P (k_mem s) m' → (∀ p, p ∈ P → page_ok kend p ∧ p ∉ l) →
  kinv kend (set_kmem m' s) l.
Proof.
  intros Hk Hm Hs HP. split; simpl; [done| |apply Hk|apply Hk].
  eapply chain_ext; [|apply Hk]. intros v Hv. symmetry.
  replace v with (v + 4 * 0) by lia. eapply (same_out_ld P); [done| |by intros p []%HP| |lia].
  - eapply Forall_forall; [eapply chain_pages, Hk|done].
  - intros Hp. by apply HP in Hp as [_ ?].
Qed.

(** Nor does a page table whose pages are not among them. *)
Lemma pt_out P m m' pgdir T :
  pt m pgdir T → same_out P m m' → (∀ p, p ∈ P → page_ok kend p ∧ p ∉ own pgdir T) → pt m' pgdir T.
Proof.
  intros Hp Hs HP. assert (E : ∀ i, 0 ≤ i < NPDENTRIES → ld32 m' (pgdir + 4 * i) = ld32 m (pgdir + 4 * i)).
  { intros i Hi. eapply (same_out_ld P); [done|apply Hp|by intros p []%HP| |done].
    intros Hd. apply HP in Hd as [_ Hd]. apply Hd, elem_own. by left. }
  split; [apply Hp| | |apply Hp].
  - intros i t Ht. destruct (pt_tab _ _ _ Hp i t Ht) as (Hi & ?). by rewrite E.
  - intros i Hi Ht. rewrite E by done. by apply (pt_none _ _ _ Hp).
Qed.

Lemma entry_out P m m' pgdir T p :
  pt m pgdir T → same_out P m m' → (∀ q, q ∈ P → page_ok kend q ∧ q ∉ own pgdir T) →
  entry m' T p = entry m T p.
Proof.
  intros Hp Hs HP. unfold entry. destruct (T !! (p / NPTENTRIES)) as [t|] eqn:E; [|done].
  eapply (same_out_ld P); [done|by apply (pt_tab _ _ _ Hp _ _ E)|by intros q []%HP| |apply (Z.mod_pos_bound _ 1024); lia].
  intros Hd. apply HP in Hd as [_ Hd]. apply Hd, elem_own. right. by eexists.
Qed.

(** ** [walkpgdir] *)

(** The page number of an address. *)
Definition pgn (va : Z) : Z := u32 va / PGSIZE.

Lemma PDX_pgn va : PDX va = pgn va / NPTENTRIES.
Proof.
  rewrite PDX_eq. unfold pgn, PGSIZE, NPTENTRIES. pose proof (u32_range va). by rewrite Z.div_div by lia.
Qed.

Lemma PTX_pgn va : PTX va = pgn va mod NPTENTRIES.
Proof. by rewrite PTX_eq. Qed.

Lemma pgn_range va : 0 ≤ pgn va < npages.
Proof.
  pose proof (u32_range va). unfold pgn, npages, NPDENTRIES, NPTENTRIES, PGSIZE.
  split; [apply Z.div_pos; lia|apply Z.div_lt_upper_bound; lia].
Qed.

Lemma pgn_mul p : 0 ≤ p < npages → pgn (PGSIZE * p) = p.
Proof.
  intros Hp. unfold npages, NPDENTRIES, NPTENTRIES in Hp. unfold pgn, PGSIZE.
  rewrite u32_small by lia. rewrite Z.mul_comm, Z.div_mul by lia. done.
Qed.

Lemma pdi_range p : 0 ≤ p < npages → 0 ≤ p / NPTENTRIES < NPDENTRIES ∧ 0 ≤ p mod NPTENTRIES < 1024.
Proof.
  unfold npages, NPDENTRIES, NPTENTRIES. intros Hp. split; [|apply Z.mod_pos_bound; lia].
  split; [apply Z.div_pos; lia|apply Z.div_lt_upper_bound; lia].
Qed.

(** The address of the entry of page [p], 0 without a page table. *)
Definition entry_at (T : gmap Z Z) (p : Z) : Z :=
  match T !! (p / NPTENTRIES) with Some t => t + 4 * (p mod NPTENTRIES) | None => 0 end.

Lemma walk_ok s pgdir T va (Q : Z → kst → Prop) :
  pt (k_mem s) pgdir T → Q (entry_at T (pgn va)) s → runs (walkpgdir pgdir va false) Q s.
Proof.
  intros Hp HQ. unfold walkpgdir, mem_ld. kstep. kstep. rewrite PDX_pgn, PTX_pgn.
  destruct (pdi_range _ (pgn_range va)) as [Hi _]. unfold entry_at in HQ.
  destruct (T !! (pgn va / NPTENTRIES)) as [t|] eqn:E.
  - destruct (pt_tab _ _ _ Hp _ _ E) as (_ & _ & _ & Hpr & Hf). apply Z.eqb_neq in Hpr. rewrite Hpr.
    unfold frame in Hf. rewrite Hf. simpl. by kstep.
  - pose proof (pt_none _ _ _ Hp _ Hi E) as Hn. unfold present in Hn.
    replace (Z.land _ PTE_P =? 0) with true by (symmetry; apply Z.eqb_eq; lia). simpl. by kstep.
Qed.

(** Page tables were added, taken from the free list. *)
Record vext (s : kst) (l : list Z) (pgdir : Z) (T : gmap Z Z) (s' : kst) (l' : list Z) (T' : gmap Z Z) : Prop := {
  ve_sub : T ⊆ T';
  ve_mem : same_out (own pgdir T') (k_mem s) (k_mem s');
  ve_new : ∃ new, l = new ++ l' ∧ own pgdir T' = own pgdir T ∪ list_to_set new
}.

Lemma own_mono pgdir T T' : T ⊆ T' → own pgdir T ⊆ own pgdir T'.
Proof.
  intros Hs v [-> |[i E]]%elem_own; apply elem_own; [by left|right]. exists i. by eapply lookup_weaken.
Qed.

Lemma vext_refl s l pgdir T : vext s l pgdir T s l T.
Proof. split; [done|done|]. exists []. simpl. split; [done|]. set_solver. Qed.

Lemma vext_trans s l pgdir T s1 l1 T1 s2 l2 T2 :
  vext s l pgdir T s1 l1 T1 → vext s1 l1 pgdir T1 s2 l2 T2 → vext s l pgdir T s2 l2 T2.
Proof.
  intros [A1 A2 (n1 & -> & A3)] [B1 B2 (n2 & -> & B3)]. split.
  - by etrans.
  - eapply same_out_trans; [|done]. eapply same_out_mono; [|done]. by apply own_mono.
  - exists (n1 ++ n2). rewrite <- app_assoc. split; [done|]. rewrite B3, A3, list_to_set_app_L. set_solver.
Qed.

(** The first free page is used for nothing else. *)
Lemma fresh_page s l' pgdir v T : vinv s (v :: l') pgdir T →
  page_ok kend v ∧ v ∉ own pgdir T ∧ v ∉ l' ∧ pgdir ∉ l' ∧ page_ok kend pgdir ∧ v ≠ pgdir.
Proof.
  intros Hv.
  assert (v ∉ own pgdir T) as Hvo by (apply (vi_dis _ _ _ _ Hv); set_solver).
  assert (v ≠ pgdir) by (intros ->; apply Hvo, elem_own; by left).
  split_and!; [|done| | |apply (vi_pt _ _ _ _ Hv)|done].
  - pose proof (kinv_chain _ _ _ (vi_k _ _ _ _ Hv)) as (_ & ? & _). done.
  - pose proof (kinv_nodup _ _ _ (vi_k _ _ _ _ Hv)) as Hnd. by apply NoDup_cons in Hnd as [? _].
  - intros Hin. apply (vi_dis _ _ _ _ Hv pgdir); [set_solver|]. apply elem_own. by left.
Qed.

Section grow.
Context (s s1 : kst) (l' : list Z) (pgdir i v : Z) (T : gmap Z Z).
Context (Hv : vinv s (v :: l') pgdir T) (Hk1 : kinv kend s1 l') (Hm1 : k_mem s1 = k_mem s).
Context (Hi : 0 ≤ i < NPDENTRIES) (HT : T !! i = None).

(** A new page table [v] is entered in the directory. *)
Let e := Z.lor (Z.lor (Z.lor (V2P v) PTE_P) PTE_W) PTE_U.
Let m2 := st32 (memset (k_mem s) v 0 PGSIZE) (pgdir + 4 * i) e.
Let T' := <[i := v]> T.

Lemma grow_out : same_out {[v; pgdir]} (k_mem s) m2.
Proof using All.
  eapply same_out_trans; [apply (same_out_mono {[v]}); [set_solver|apply same_out_memset]|].
  apply (same_out_mono {[pgdir]}); [set_solver|apply same_out_st32, Hi].
Qed.

Lemma grow_ld q j : page_ok kend q → q ≠ v → q ≠ pgdir → 0 ≤ j < 1024 →
  ld32 m2 (q + 4 * j) = ld32 (k_mem s) (q + 4 * j).
Proof using All.
  intros Hq H1 H2 Hj. destruct (fresh_page _ _ _ _ _ Hv) as (Hp1 & _ & _ & _ & Hp2 & _).
  eapply same_out_ld; [apply grow_out|done| |set_solver|done]. set_solver.
Qed.

Lemma grow_dir j : 0 ≤ j < NPDENTRIES →
  ld32 m2 (pgdir + 4 * j) = if decide (j = i) then e else ld32 (k_mem s) (pgdir + 4 * j).
Proof using All.
  intros Hj. destruct (fresh_page _ _ _ _ _ Hv) as (Hp1 & _ & _ & _ & Hp2 & Hne). unfold m2. case_decide as E.
  - subst j. rewrite ld32_st32_eq. assert (e = Z.lor (V2P v) 7) as ->
      by (unfold e, PTE_P, PTE_W, PTE_U; by rewrite <- !Z.lor_assoc).
    by apply (page_entry v 7).
  - rewrite ld32_st32_ne by lia. eapply same_out_ld; [apply same_out_memset|done|set_solver|set_solver|done].
Qed.

Lemma grow_pt : pt m2 pgdir T'.
Proof using All.
  destruct (fresh_page _ _ _ _ _ Hv) as (Hp1 & Hvo & _ & _ & Hp2 & Hne). pose proof (vi_pt _ _ _ _ Hv) as Hp.
  assert (Ee : e = Z.lor (V2P v) 7) by (unfold e, PTE_P, PTE_W, PTE_U; by rewrite <- !Z.lor_assoc).
  destruct (page_entry v 7 Hp1 ltac:(done)) as (_ & _ & _ & Hfr & Hla). rewrite <- Ee in Hfr, Hla.
  split; [done| | |].
  - intros j t. unfold T'. destruct (decide (j = i)) as [-> |Hj].
    + rewrite lookup_insert_eq. intros [= <-]. rewrite grow_dir, decide_True by done.
      split_and!; [lia|lia|done|done| |done]. unfold present, PTE_P. by rewrite Hla.
    + rewrite lookup_insert_ne by done. intros Ht. destruct (pt_tab _ _ _ Hp j t Ht) as (Hj' & ?).
      by rewrite grow_dir, decide_False.
  - intros j Hj. unfold T'. destruct (decide (j = i)) as [-> |Hji]; [by rewrite lookup_insert_eq|].
    rewrite lookup_insert_ne by done. intros Ht. rewrite grow_dir, decide_False by done.
    by apply (pt_none _ _ _ Hp).
  - intros j j' t. unfold T'. destruct (decide (j = i)) as [-> |Hj], (decide (j' = i)) as [-> |Hj'];
      rewrite ?lookup_insert_eq, ?lookup_insert_ne by done; try done.
    + intros [= <-] E. destruct Hvo. apply elem_own. eauto.
    + intros E [= <-]. destruct Hvo. apply elem_own. eauto.
    + by apply (pt_inj _ _ _ Hp).
Qed.

Lemma grow_own : own pgdir T' = own pgdir T ∪ {[v]}.
Proof using All. unfold own, T'. rewrite map_img_insert_notin_L by done. set_solver. Qed.

Lemma grow_ok : vinv (set_kmem m2 s1) l' pgdir T' ∧ vext s (v :: l') pgdir T (set_kmem m2 s1) l' T'.
Proof using All.
  destruct (fresh_page _ _ _ _ _ Hv) as (Hp1 & Hvo & Hvl & Hdl & Hp2 & Hne). split.
  - split; simpl; [|apply grow_pt|].
    + eapply (kinv_out {[v; pgdir]}); [done| |rewrite Hm1; apply grow_out|set_solver].
      apply mem_ok_st32, mem_ok_memset. apply (kinv_mem _ _ _ (vi_k _ _ _ _ Hv)).
    + intros w Hw. rewrite grow_own. pose proof (vi_dis _ _ _ _ Hv w). set_solver.
  - split; simpl.
    + by apply insert_subseteq.
    + eapply same_out_mono; [|apply grow_out]. rewrite grow_own. intros w. rewrite !elem_of_union, !elem_of_singleton.
      intros [-> | ->]; [by right|left]. apply elem_own. by left.
    + exists [v]. split; [done|]. rewrite grow_own. set_solver.
Qed.

Lemma grow_entry p : 0 ≤ p < npages → entry m2 T' p = entry (k_mem s) T p.
Proof using All.
  intros Hp. destruct (pdi_range p Hp) as [_ Hj]. destruct (fresh_page _ _ _ _ _ Hv) as (Hp1 & Hvo & _ & _ & Hp2 & Hne).
  unfold entry, T'. destruct (decide (p / NPTENTRIES = i)) as [-> |Hpi].
  - rewrite lookup_insert_eq, HT. unfold m2.
    rewrite (same_out_ld {[pgdir]} (memset (k_mem s) v 0 PGSIZE)); [|by apply same_out_st32|done|set_solver|set_solver|done].
    unfold ld32. rewrite !rd_memset by done. unfold PGSIZE. by bdestruct_all; simpl; try lia.
  - rewrite lookup_insert_ne by done. destruct (T !! (p / NPTENTRIES)) as [t|] eqn:E; [|done].
    apply grow_ld; [by apply (pt_tab _ _ _ (vi_pt _ _ _ _ Hv) _ _ E)| | |done].
    + intros ->. apply Hvo, elem_own. eauto.
    + by apply (pt_tab _ _ _ (vi_pt _ _ _ _ Hv) _ _ E).
Qed.
End grow.

Lemma walk_alloc_ok s l pgdir T va (Q : Z → kst → Prop) :
  vinv s l pgdir T →
  (T !! (pgn va / NPTENTRIES) = None → l = [] → Q 0 s) →
  (∀ s' l' T', vinv s' l' pgdir T' → vext s l pgdir T s' l' T' →
     is_Some (T' !! (pgn va / NPTENTRIES)) →
     (∀ p, 0 ≤ p < npages → entry (k_mem s') T' p = entry (k_mem s) T p) →
     Q (entry_at T' (pgn va)) s') →
  runs (walkpgdir pgdir va true) Q s.
Proof.
  intros Hv Hno HQ. pose proof (vi_pt _ _ _ _ Hv) as Hp.
  destruct (pdi_range _ (pgn_range va)) as [Hi _].
  destruct (T !! (pgn va / NPTENTRIES)) as [t|] eqn:E.
  { specialize (HQ s l T Hv (vext_refl _ _ _ _) ltac:(by rewrite E) ltac:(done)).
    unfold walkpgdir, mem_ld. kstep. kstep. rewrite PDX_pgn, PTX_pgn.
    destruct (pt_tab _ _ _ Hp _ _ E) as (_ & _ & _ & Hpr & Hf). apply Z.eqb_neq in Hpr. rewrite Hpr.
    unfold frame in Hf. rewrite Hf. unfold entry_at in HQ. rewrite E in HQ. simpl. by kstep. }
  pose proof (pt_none _ _ _ Hp _ Hi E) as Hn. unfold present in Hn.
  unfold walkpgdir, mem_ld, mem_mod. kstep. kstep. rewrite PDX_pgn, PTX_pgn.
  replace (Z.land _ PTE_P =? 0) with true by (symmetry; apply Z.eqb_eq; lia). simpl. kstep.
  eapply kalloc_ok; [apply Hv|intros ->; simpl; kstep; by apply Hno|].
  intros v l' s1 -> Hv0 Hk1 _ Hm1. apply Z.eqb_neq in Hv0. rewrite Hv0. kstep. kstep. kstep. kstep. kstep.
  destruct (grow_ok s s1 l' pgdir _ v T Hv Hk1 Hm1 Hi E) as [Hvi Hve].
  specialize (HQ _ _ _ Hvi Hve). unfold entry_at in HQ. rewrite lookup_insert_eq in HQ.
  simpl. rewrite Hm1. apply HQ; [done|]. intros p Hpr. by apply (grow_entry s s1 l').
Qed.

(** Storing an entry. *)
Section store.
Context (s : kst) (l : list Z) (pgdir p e t : Z) (T : gmap Z Z).
Context (Hv : vinv s l pgdir T) (Hp : 0 ≤ p < npages) (HT : T !! (p / NPTENTRIES) = Some t).
Let m' := st32 (k_mem s) (t + 4 * (p mod NPTENTRIES)) e.

Lemma store_out : same_out {[t]} (k_mem s) m'.
Proof using All. apply same_out_st32, (pdi_range p Hp). Qed.

Lemma store_ok : vinv (set_kmem m' s) l pgdir T ∧ vext s l pgdir T (set_kmem m' s) l T.
Proof using All.
  pose proof (vi_pt _ _ _ _ Hv) as Hpt. destruct (pt_tab _ _ _ Hpt _ _ HT) as (_ & Ht & Htd & _).
  assert (Hto : t ∈ own pgdir T) by (apply elem_own; eauto). split.
  - split; simpl; [| |apply Hv].
    + eapply kinv_out; [apply Hv|apply mem_ok_st32, (vi_k _ _ _ _ Hv)|apply store_out|].
      intros q ->%elem_of_singleton. split; [done|]. intros Hl. by apply (vi_dis _ _ _ _ Hv _ Hl).
    + assert (E : ∀ i, 0 ≤ i < NPDENTRIES → ld32 m' (pgdir + 4 * i) = ld32 (k_mem s) (pgdir + 4 * i)).
      { intros i Hi. eapply same_out_ld; [apply store_out|apply Hpt|set_solver|set_solver|done]. }
      split; [apply Hpt| | |apply Hpt].
      * intros i u Hu. destruct (pt_tab _ _ _ Hpt i u Hu) as (Hi & ?). by rewrite E.
      * intros i Hi Hu. rewrite E by done. by apply (pt_none _ _ _ Hpt).
  - split; simpl; [done| |exists []; split; [done|set_solver]].
    eapply same_out_mono; [|apply store_out]. set_solver.
Qed.

Lemma store_entry q : 0 ≤ q < npages → entry m' T q = if decide (q = p) then u32 e else entry (k_mem s) T q.
Proof using All.
  intros Hq. pose proof (vi_pt _ _ _ _ Hv) as Hpt. destruct (pdi_range q Hq) as [_ Hqr].
  destruct (pdi_range p Hp) as [_ Hpr]. destruct (pt_tab _ _ _ Hpt _ _ HT) as (_ & Ht & _).
  unfold entry. case_decide as E.
  - subst q. rewrite HT. apply ld32_st32_eq.
  - destruct (decide (q / NPTENTRIES = p / NPTENTRIES)) as [Ed|Ed].
    + rewrite Ed, HT. apply ld32_st32_ne.
      assert (q mod NPTENTRIES ≠ p mod NPTENTRIES); [|lia]. intros Em. apply E.
      rewrite (Z.div_mod q NPTENTRIES), (Z.div_mod p NPTENTRIES) by done. by rewrite Ed, Em.
    + destruct (T !! (q / NPTENTRIES)) as [u|] eqn:Eu; [|done].
      eapply same_out_ld; [apply store_out|by apply (pt_tab _ _ _ Hpt _ _ Eu)|set_solver| |done].
      intros ->%elem_of_singleton. apply Ed. by apply (pt_inj _ _ _ Hpt _ _ t).
Qed.
End store.

(** ** [mappages] *)

(** The entries after [k] pages from [p0] on were mapped to the pages from [pa] on. *)
Definition mapped_to (m T : gmap Z Z) (p0 k pa perm : Z) (m' T' : gmap Z Z) : Prop :=
  ∀ p, 0 ≤ p < npages → entry m' T' p =
    if decide (p0 ≤ p < p0 + k) then Z.lor (Z.lor (pa + PGSIZE * (p - p0)) perm) PTE_P else entry m T p.

Lemma lor_below perm : 0 ≤ perm < 2 ^ 12 → 0 ≤ Z.lor perm PTE_P < 2 ^ 12.
Proof.
  intros Hperm. split; [apply Z.lor_nonneg; unfold PTE_P; lia|]. destruct (decide (perm = 0)) as [-> |]; [done|].
  apply Z.log2_lt_pow2; [apply Z.le_neq; split; [apply Z.lor_nonneg; unfold PTE_P; lia|]|].
  - intros E. symmetry in E. apply Z.lor_eq_0_iff in E as [? _]. lia.
  - rewrite Z.log2_lor by (unfold PTE_P; lia). assert (Z.log2 perm < 12) by (apply Z.log2_lt_pow2; lia).
    change (Z.log2 PTE_P) with 0. lia.
Qed.

Lemma perm_entry pa perm :
  pa mod PGSIZE = 0 → 0 ≤ pa < 2 ^ 32 → 0 ≤ perm < PGSIZE →
  let e := Z.lor (Z.lor pa perm) PTE_P in 0 ≤ e < 2 ^ 32 ∧ u32 e = e.
Proof.
  intros Hm Hpa Hperm. apply Z.mod_divide in Hm as [q ->]; [|done]. unfold PGSIZE in *. cbv zeta.
  rewrite <- Z.lor_assoc. change 4096 with (2 ^ 12).
  pose proof (lor_below perm ltac:(lia)).
  rewrite lor_add by lia. assert (0 ≤ q * 2 ^ 12 + Z.lor perm PTE_P < 2 ^ 32) by lia.
  split; [done|by apply u32_small].
Qed.

Lemma mapped_to_cons m T p0 k pa perm m1 T1 m2 T2 :
  0 ≤ k → mapped_to m T p0 1 pa perm m1 T1 → mapped_to m1 T1 (p0 + 1) k (pa + PGSIZE) perm m2 T2 →
  mapped_to m T p0 (k + 1) pa perm m2 T2.
Proof.
  intros Hk H1 H2 p Hp. rewrite (H2 p Hp), (H1 p Hp). repeat case_decide; try done; try lia.
  by replace (pa + PGSIZE + PGSIZE * (p - (p0 + 1))) with (pa + PGSIZE * (p - p0)) by lia.
Qed.

Lemma entry_at_pos m pgdir T p t :
  pt m pgdir T → T !! (p / NPTENTRIES) = Some t → 0 ≤ p < npages → entry_at T p = t + 4 * (p mod NPTENTRIES) ∧ entry_at T p ≠ 0.
Proof.
  intros Hp HT Hr. unfold entry_at. rewrite HT. split; [done|].
  destruct (pt_tab _ _ _ Hp _ _ HT) as (_ & Ht & _). destruct (page_ok_pos _ _ Ht) as (_ & _ & ?).
  destruct Ht as (_ & _ & Hk). unfold KERNBASE in Hk. pose proof (pdi_range p Hr). lia.
Qed.

(** A round of the loop. *)
Lemma map_round s l pgdir T p pa perm (k : K kst Z) (Q : Z → kst → Prop) :
  vinv s l pgdir T → 0 ≤ p < npages → pa mod PGSIZE = 0 → 0 ≤ pa < 2 ^ 32 → 0 ≤ perm < PGSIZE →
  ¬ present (entry (k_mem s) T p) →
  (l = [] → Q (-1) s) →
  (∀ s' l' T', vinv s' l' pgdir T' → vext s l pgdir T s' l' T' →
     mapped_to (k_mem s) T p 1 pa perm (k_mem s') T' → runs k Q s') →
  runs (pte ← walkpgdir pgdir (PGSIZE * p) true;
        if pte =? 0 then mret (-1)
        else e ← mem_ld pte;
             kassert (Z.land e PTE_P =? 0) "remap";;
             mem_mod (λ m, st32 m pte (Z.lor (Z.lor pa perm) PTE_P));; k) Q s.
Proof.
  intros Hv Hp Hm Hpa Hperm Hnp Hno HQ. kstep. eapply walk_alloc_ok; [done|intros _ Hl; simpl; kstep; auto|].
  rewrite pgn_mul by done. intros s1 l1 T1 Hv1 He1 [t Ht] Hent.
  destruct (entry_at_pos _ _ _ p t (vi_pt _ _ _ _ Hv1) Ht Hp) as [Ea Hne].
  apply Z.eqb_neq in Hne. rewrite Hne. unfold mem_ld, mem_mod. kstep. kstep. kstep.
  assert (El : ld32 (k_mem s1) (entry_at T1 p) = entry (k_mem s) T p).
  { rewrite Ea, <- Hent by done. unfold entry. by rewrite Ht. }
  kstep. { unfold present in Hnp. rewrite El. apply Z.eqb_eq. lia. }
  kstep. kstep. rewrite Ea. destruct (store_ok s1 l1 pgdir p (Z.lor (Z.lor pa perm) PTE_P) t T1 Hv1 Hp Ht) as [Hv2 He2].
  apply (HQ _ l1 T1 Hv2); [by eapply vext_trans|]. intros q Hq. simpl.
  rewrite (store_entry s1 l1 pgdir p _ t T1 Hv1 Hp Ht q Hq), Hent by done.
  destruct (perm_entry pa perm Hm Hpa Hperm) as [_ Hu].
  repeat case_decide; try lia. subst q. rewrite Hu, Z.sub_diag, Z.mul_0_r, Z.add_0_r. done.
Qed.

Lemma mappages_loop_ok n : ∀ fuel s l pgdir T p0 pa perm (Q : Z → kst → Prop),
  vinv s l pgdir T → (n < fuel)%nat → 0 ≤ p0 → p0 + Z.of_nat n < npages →
  pa mod PGSIZE = 0 → 0 ≤ pa → pa + PGSIZE * Z.of_nat n < 2 ^ 32 → 0 ≤ perm < PGSIZE →
  (∀ p, p0 ≤ p ≤ p0 + Z.of_nat n → ¬ present (entry (k_mem s) T p)) →
  (∀ r k s' l' T', vinv s' l' pgdir T' → vext s l pgdir T s' l' T' →
     mapped_to (k_mem s) T p0 k pa perm (k_mem s') T' →
     r = 0 ∧ k = Z.of_nat n + 1 ∨ r = -1 ∧ 0 ≤ k ≤ Z.of_nat n ∧ l' = [] → Q r s') →
  runs (mappages_loop fuel pgdir (PGSIZE * p0) (PGSIZE * (p0 + Z.of_nat n)) pa perm) Q s.
Proof.
  induction n as [|n IH]; intros [|fuel] s l pgdir T p0 pa perm Q Hv Hfu H0 Hp Hm Hpa Hpa2 Hperm Hfree HQ;
    try lia; cbn [mappages_loop]; unfold PGSIZE in Hpa2; assert (HG : PGSIZE = 4096) by done.
  - eapply map_round; try done; try lia; [apply Hfree; lia| |].
    + intros ->. eapply (HQ (-1) 0); [done|apply vext_refl| |right; split_and!; [done|lia|lia|done]].
      intros p _. by rewrite decide_False by lia.
    + intros s1 l1 T1 Hv1 He1 Hm1. replace (PGSIZE * p0 =? _) with true by (symmetry; apply Z.eqb_eq; lia).
      kstep. eapply (HQ 0 1); [done..|left; split; [done|lia]].
  - eapply map_round; try done; try lia; [apply Hfree; lia| |].
    + intros ->. eapply (HQ (-1) 0); [done|apply vext_refl| |right; split_and!; [done|lia|lia|done]].
      intros p _. by rewrite decide_False by lia.
    + intros s1 l1 T1 Hv1 He1 Hm1.
      replace (PGSIZE * p0 =? _) with false by (symmetry; apply Z.eqb_neq; lia).
      assert (HN : npages = 1048576) by done. rewrite !u32_small by lia.
      replace (PGSIZE * p0 + PGSIZE) with (PGSIZE * (p0 + 1)) by lia.
      replace (p0 + Z.of_nat (S n)) with (p0 + 1 + Z.of_nat n) by lia.
      eapply (IH fuel s1 l1 pgdir T1); try done; try lia.
      * rewrite HG in Hm |- *. rewrite <- Zplus_mod_idemp_l, Hm. done.
      * intros p Hpr. rewrite (Hm1 p) by lia. rewrite decide_False by lia. apply Hfree. lia.
      * intros r k s2 l2 T2 Hv2 He2 Hm2 Hr. eapply (HQ r (k + 1)); [done|by eapply vext_trans| |].
        -- eapply mapped_to_cons; [lia|done|done].
        -- destruct Hr as [[-> ->]|(-> & ? & ->)]; [left|right]; split_and!; try done; lia.
Qed.

(** [va] and [size] multiples of the page size, as every caller has them. *)
Lemma mappages_ok s l pgdir T p0 n pa perm (Q : Z → kst → Prop) :
  vinv s l pgdir T → 0 ≤ p0 → 0 < n → p0 + n ≤ npages →
  pa mod PGSIZE = 0 → 0 ≤ pa → pa + PGSIZE * n ≤ 2 ^ 32 → 0 ≤ perm < PGSIZE →
  (∀ p, p0 ≤ p < p0 + n → ¬ present (entry (k_mem s) T p)) →
  (∀ r k s' l' T', vinv s' l' pgdir T' → vext s l pgdir T s' l' T' →
     mapped_to (k_mem s) T p0 k pa perm (k_mem s') T' →
     r = 0 ∧ k = n ∨ r = -1 ∧ 0 ≤ k < n ∧ l' = [] → Q r s') →
  runs (mappages pgdir (PGSIZE * p0) (u32 (PGSIZE * n)) pa perm) Q s.
Proof.
  intros Hv H0 Hn Hp Hm Hpa Hpa2 Hperm Hfree HQ. assert (HG : PGSIZE = 4096) by done.
  assert (HN : npages = 1048576) by done. unfold mappages.
  assert (Ea : PGROUNDDOWN (PGSIZE * p0) = PGSIZE * p0).
  { rewrite PGROUNDDOWN_eq, Z.mul_comm, Z.mod_mul by done. lia. }
  assert (El : PGROUNDDOWN (u32 (PGSIZE * p0 + u32 (PGSIZE * n) - 1)) = PGSIZE * (p0 + (n - 1))).
  { rewrite PGROUNDDOWN_eq. replace (u32 (PGSIZE * p0 + u32 (PGSIZE * n) - 1)) with (PGSIZE * (p0 + n) - 1).
    - rewrite HG. replace (4096 * (p0 + n) - 1) with (4095 + (p0 + n - 1) * 4096) at 2 by lia.
      rewrite Z.mod_add by lia. change (4095 mod 4096) with 4095. lia.
    - unfold u32. rewrite <- (Zminus_mod_idemp_l (PGSIZE * p0 + (PGSIZE * n) mod 2 ^ 32)), Zplus_mod_idemp_r,
        Zminus_mod_idemp_l. rewrite Z.mod_small by lia. lia. }
  assert (En : n - 1 = Z.of_nat (Z.to_nat (n - 1))) by lia. rewrite Ea, El, En.
  eapply (mappages_loop_ok (Z.to_nat (n - 1)) _ s l pgdir T); try done; try lia.
  - rewrite u32_small by lia. replace (PGSIZE * _ - PGSIZE * p0) with ((n - 1) * PGSIZE) by lia.
    rewrite Z.div_mul by done. lia.
  - intros p Hpr. apply Hfree. lia.
  - intros r k s' l' T' Hv' He' Hm' Hr. eapply (HQ r k); [done..|].
    destruct Hr as [[-> ->]|(-> & ? & ->)]; [left|right]; split_and!; try done; lia.
Qed.

(** ** [deallocuvm] *)

Context (Hkend : KERNBASE < kend).

(** The pages mapped from [lo] to [hi] are in use for nothing else. *)
Record user_ok (m : gmap Z Z) (l : list Z) (pgdir : Z) (T : gmap Z Z) (lo hi : Z) : Prop := {
  us_page p : lo ≤ p < hi → present (entry m T p) →
    page_ok kend (frame (entry m T p)) ∧ frame (entry m T p) ∉ own pgdir T ∧ frame (entry m T p) ∉ l;
  us_inj p q : lo ≤ p < hi → lo ≤ q < hi → present (entry m T p) → present (entry m T q) →
    frame (entry m T p) = frame (entry m T q) → p = q
}.

(** The pages mapped from [lo] to [hi] were given back. *)
Record unmapped (s : kst) (l : list Z) (pgdir : Z) (T : gmap Z Z) (lo hi : Z) (s' : kst) (fr : list Z) : Prop := {
  un_inv : vinv s' (fr ++ l) pgdir T;
  un_freed v : v ∈ fr ↔ ∃ p, lo ≤ p < hi ∧ present (entry (k_mem s) T p) ∧ v = frame (entry (k_mem s) T p);
  un_entry p : 0 ≤ p < npages → entry (k_mem s') T p =
    if decide (lo ≤ p < hi ∧ present (entry (k_mem s) T p)) then 0 else entry (k_mem s) T p;
  un_mem : same_out (own pgdir T ∪ list_to_set fr) (k_mem s) (k_mem s')
}.

Lemma not_present_0 : ¬ present 0.
Proof. by intros H. Qed.

Lemma unmapped_none s l pgdir T lo hi :
  vinv s l pgdir T → (∀ p, lo ≤ p < hi → ¬ present (entry (k_mem s) T p)) →
  unmapped s l pgdir T lo hi s [].
Proof.
  intros Hv Hno. split; [done| | |done].
  - intros v. split; [intros ?; set_solver|]. intros (p & Hp & Hpr & _). by destruct (Hno p Hp).
  - intros p _. rewrite decide_False; [done|]. intros [Hp Hpr]. by destruct (Hno p Hp).
Qed.

Lemma unmapped_user s l pgdir T lo mid hi s1 fr :
  0 ≤ lo ≤ mid → mid ≤ hi ≤ npages →
  user_ok (k_mem s) l pgdir T lo hi → unmapped s l pgdir T lo mid s1 fr →
  user_ok (k_mem s1) (fr ++ l) pgdir T mid hi ∧
  ∀ p, mid ≤ p < hi → entry (k_mem s1) T p = entry (k_mem s) T p.
Proof.
  intros Hlo Hhi Hu Hun.
  assert (E : ∀ p, mid ≤ p < hi → entry (k_mem s1) T p = entry (k_mem s) T p).
  { intros p Hp. rewrite (un_entry _ _ _ _ _ _ _ _ Hun) by lia. apply decide_False. intros [? _]. lia. }
  split; [|done]. split.
  - intros p Hp. rewrite E by done. intros Hpr. destruct (us_page _ _ _ _ _ _ Hu p ltac:(lia) Hpr) as (H1 & H2 & H3).
    split_and!; [done|done|]. rewrite elem_of_app. intros [Hf|?]; [|done].
    apply (un_freed _ _ _ _ _ _ _ _ Hun) in Hf as (q & Hq & Hqr & Eq).
    apply (us_inj _ _ _ _ _ _ Hu) in Eq; [lia|lia|lia|done|done].
  - intros p q Hp Hq. rewrite !E by done. apply (us_inj _ _ _ _ _ _ Hu); lia.
Qed.

Lemma unmapped_app s l pgdir T lo mid hi s1 fr s2 fr2 :
  0 ≤ lo ≤ mid → mid ≤ hi ≤ npages →
  unmapped s l pgdir T lo mid s1 fr → unmapped s1 (fr ++ l) pgdir T mid hi s2 fr2 →
  unmapped s l pgdir T lo hi s2 (fr2 ++ fr).
Proof.
  intros Hlo Hhi H1 H2. assert (E : ∀ p, mid ≤ p < hi → entry (k_mem s1) T p = entry (k_mem s) T p).
  { intros p Hp. rewrite (un_entry _ _ _ _ _ _ _ _ H1) by lia. apply decide_False. intros [? _]. lia. }
  split.
  - rewrite <- app_assoc. apply H2.
  - intros v. rewrite elem_of_app, (un_freed _ _ _ _ _ _ _ _ H1), (un_freed _ _ _ _ _ _ _ _ H2). split.
    + intros [(p & Hp & Hpr & ->)|(p & Hp & Hpr & ->)]; exists p.
      * rewrite E in * by done. split; [lia|done].
      * split; [lia|done].
    + intros (p & Hp & Hpr & ->). destruct (decide (p < mid)); [right|left]; exists p.
      * split; [lia|done].
      * rewrite E by lia. split; [lia|done].
  - intros p Hp. rewrite (un_entry _ _ _ _ _ _ _ _ H2 p Hp).
    destruct (decide (mid ≤ p < hi)) as [Hm|Hm].
    + rewrite E by done. repeat case_decide; try done; exfalso; naive_solver lia.
    + rewrite decide_False by (intros [? _]; lia). rewrite (un_entry _ _ _ _ _ _ _ _ H1 p Hp).
      repeat case_decide; try done; exfalso; naive_solver lia.
  - eapply same_out_trans; (eapply same_out_mono; [|first [apply H1|apply H2]]); rewrite list_to_set_app_L; set_solver.
Qed.

(** One page. *)
Lemma unmap_page s l pgdir T p hi (k : K kst unit) (Q : unit → kst → Prop) :
  vinv s l pgdir T → 0 ≤ p < npages → p < hi → is_Some (T !! (p / NPTENTRIES)) → user_ok (k_mem s) l pgdir T p hi →
  (∀ s' fr, unmapped s l pgdir T p (p + 1) s' fr → runs k Q s') →
  runs (e ← mem_ld (entry_at T p);
        (if negb (Z.land e PTE_P =? 0) then
           let pa := PTE_ADDR e in
           kassert (negb (pa =? 0)) "kfree";;
           kfree kend (P2V pa);;
           mem_mod (λ m, st32 m (entry_at T p) 0)
         else mret tt);; k) Q s.
Proof.
  intros Hv Hp Hhi [t Ht] Hu HQ. unfold mem_ld, mem_mod. kstep. kstep.
  destruct (entry_at_pos _ _ _ p t (vi_pt _ _ _ _ Hv) Ht Hp) as [Ea _].
  assert (El : ld32 (k_mem s) (entry_at T p) = entry (k_mem s) T p) by (unfold entry; by rewrite Ht, Ea).
  rewrite El. destruct (Z.eqb_spec (Z.land (entry (k_mem s) T p) PTE_P) 0) as [Hz|Hz]; simpl; kstep.
  { kstep. eapply (HQ s []). apply unmapped_none; [done|]. intros q Hq. replace q with p by lia. unfold present. rewrite Hz. by intros []. }
  destruct (us_page _ _ _ _ _ _ Hu p ltac:(lia) Hz) as (Hpg & Hno & Hnl).
  set (v := frame (entry (k_mem s) T p)) in *. kstep.
  kstep. { apply negb_true_iff, Z.eqb_neq. intros E. unfold v, frame in Hpg. rewrite E in Hpg.
    destruct Hpg as (_ & Hk & _). change (P2V 0) with KERNBASE in Hk. lia. }
  kstep. fold (frame (entry (k_mem s) T p)). fold v.
  eapply kfree_ok; [apply Hv|done|done|]. intros s1 Hk1 _ Em1. kstep.
  assert (Ho1 : same_out {[v]} (k_mem s) (k_mem s1)).
  { rewrite Em1. intros b Hb. apply rd_freed_mem_out. apply Hb. set_solver. }
  assert (Hv1 : vinv s1 (v :: l) pgdir T).
  { split; [done|eapply pt_out; [apply Hv|done|set_solver]|].
    intros w Hw. apply elem_of_cons in Hw as [-> |Hw]; [done|by apply (vi_dis _ _ _ _ Hv)]. }
  assert (He1 : ∀ q, entry (k_mem s1) T q = entry (k_mem s) T q).
  { intros q. eapply entry_out; [apply Hv|done|set_solver]. }
  rewrite Ea. destruct (store_ok s1 (v :: l) pgdir p 0 t T Hv1 Hp Ht) as [Hv2 He2].
  apply (HQ _ [v]). split; [done| | |].
  - intros w. rewrite list_elem_of_singleton. split.
    + intros ->. exists p. split; [lia|done].
    + intros (q & Hq & _ & ->). by replace q with p by lia.
  - intros q Hq. simpl. rewrite (store_entry s1 (v :: l) pgdir p 0 t T Hv1 Hp Ht q Hq), He1.
    change (u32 0) with 0. repeat case_decide; try done; exfalso; naive_solver lia.
  - eapply same_out_trans; [eapply same_out_mono; [|exact Ho1]; set_solver|].
    eapply same_out_mono; [|apply (ve_mem _ _ _ _ _ _ _ He2)]. set_solver.
Qed.

(** Pages below a size, and their number. *)
Definition npg (sz : Z) : Z := (sz + PGSIZE - 1) / PGSIZE.

Lemma npg_lt p sz : PGSIZE * p < sz ↔ p < npg sz.
Proof.
  unfold npg, PGSIZE. split; intros H.
  - apply Z.lt_le_trans with (p + 1); [lia|]. apply Z.div_le_lower_bound; lia.
  - pose proof (Z.mul_div_le (sz + 4096 - 1) 4096 ltac:(lia)). lia.
Qed.

Lemma npg_range sz : 0 ≤ sz ≤ KERNBASE → 0 ≤ npg sz ≤ 2 ^ 19.
Proof.
  unfold npg, PGSIZE, KERNBASE. intros H. split; [apply Z.div_pos; lia|].
  apply Z.lt_succ_r, Z.div_lt_upper_bound; lia.
Qed.

Lemma PGROUNDUP_npg sz : 0 ≤ sz ≤ KERNBASE → PGROUNDUP sz = PGSIZE * npg sz.
Proof.
  intros H. unfold KERNBASE in H. rewrite PGROUNDUP_eq by (unfold PGSIZE; lia). unfold npg.
  pose proof (Z.div_mod (sz + PGSIZE - 1) PGSIZE ltac:(done)). lia.
Qed.

Lemma npg_fuel sz : 0 ≤ sz → (Z.to_nat (npg sz) < page_fuel sz)%nat.
Proof.
  intros H. unfold page_fuel, npg, PGSIZE.
  assert ((sz + 4096 - 1) / 4096 ≤ sz / 4096 + 1); [|assert (0 ≤ sz / 4096) by (apply Z.div_pos; lia); lia].
  rewrite <- Z.div_add by lia. apply Z.div_le_mono; lia.
Qed.

Lemma skip_table a p :
  a = PGSIZE * p → 0 ≤ p < 2 ^ 19 →
  u32 (u32 (PGADDR (PDX a + 1) 0 0 - PGSIZE) + PGSIZE) = PGSIZE * ((p / NPTENTRIES + 1) * NPTENTRIES) ∧
  p < (p / NPTENTRIES + 1) * NPTENTRIES ≤ 2 ^ 19.
Proof.
  intros -> Hp. rewrite PDX_pgn, pgn_mul by (unfold npages, NPDENTRIES, NPTENTRIES; lia).
  unfold NPTENTRIES, PGSIZE. pose proof (Z.div_mod p 1024 ltac:(lia)). pose proof (Z.mod_pos_bound p 1024 ltac:(lia)).
  rewrite PGADDR_eq by lia. split; [|lia].
  set (x := _ + 0 * 2 ^ 12 + 0). assert (Hx : x = (p / 1024 + 1) * 2 ^ 22) by (unfold x; lia).
  rewrite (u32_small x), (u32_small (x - 4096)), (u32_small (x - 4096 + 4096)) by lia. lia.
Qed.

Lemma dealloc_loop_ok fuel : ∀ s l pgdir T p oldsz (Q : unit → kst → Prop),
  vinv s l pgdir T → 0 ≤ oldsz ≤ KERNBASE → 0 ≤ p ≤ 2 ^ 19 → (Z.to_nat (npg oldsz - p) < fuel)%nat →
  user_ok (k_mem s) l pgdir T p (npg oldsz) →
  (∀ s' fr, unmapped s l pgdir T p (npg oldsz) s' fr → Q tt s') →
  runs (deallocuvm_loop kend fuel pgdir (PGSIZE * p) oldsz) Q s.
Proof.
  induction fuel as [|fuel IH]; intros s l pgdir T p oldsz Q Hv Ho Hp Hf Hu HQ; [lia|].
  cbn [deallocuvm_loop]. pose proof (npg_range oldsz Ho) as Hn. pose proof (npg_lt p oldsz) as Hlt.
  assert (HN : npages = 2 ^ 20) by done.
  destruct (Z.ltb_spec (PGSIZE * p) oldsz) as [Hc|Hc].
  2:{ kstep. eapply HQ. apply unmapped_none; [done|]. intros q Hq. lia. }
  kstep. eapply walk_ok; [apply Hv|]. rewrite pgn_mul by lia.
  destruct (T !! (p / NPTENTRIES)) as [t|] eqn:Et.
  - destruct (entry_at_pos _ _ _ p t (vi_pt _ _ _ _ Hv) Et ltac:(lia)) as [_ Hne].
    apply Z.eqb_neq in Hne. rewrite Hne.
    eapply unmap_page; [done|lia|by apply Hlt|by rewrite Et|done|]. intros s1 fr1 H1.
    rewrite u32_small by (unfold PGSIZE; lia). replace (PGSIZE * p + PGSIZE) with (PGSIZE * (p + 1)) by lia.
    destruct (unmapped_user s l pgdir T p (p + 1) (npg oldsz) s1 fr1) as [Hu1 _]; [lia|lia|done|done|].
    eapply (IH s1 (fr1 ++ l) pgdir T); [apply H1|done|lia|lia|done|].
    intros s2 fr2 H2. eapply HQ. eapply unmapped_app; [..|done|done]; lia.
  - assert (Ez : entry_at T p = 0) by (unfold entry_at; by rewrite Et). rewrite Ez. simpl (0 =? 0). cbv iota.
    destruct (skip_table (PGSIZE * p) p eq_refl ltac:(lia)) as [-> Hp'].
    set (p' := (p / NPTENTRIES + 1) * NPTENTRIES) in *.
    assert (Hno : ∀ q, p ≤ q < p' → entry (k_mem s) T q = 0).
    { intros q Hq. unfold entry. replace (q / NPTENTRIES) with (p / NPTENTRIES); [by rewrite Et|].
      unfold p', NPTENTRIES in *. apply (Z.div_unique q 1024 _ (q - 1024 * (p / 1024))).
      - left. pose proof (Z.mul_div_le p 1024 ltac:(lia)). lia.
      - lia. }
    destruct (decide (p' ≤ npg oldsz)) as [Hle|Hgt].
    + assert (H1 : unmapped s l pgdir T p p' s []).
      { apply unmapped_none; [done|]. intros q Hq. rewrite Hno by done. apply not_present_0. }
      destruct (unmapped_user s l pgdir T p p' (npg oldsz) s []) as [Hu1 _]; [lia|lia|done|done|].
      eapply (IH s l pgdir T p'); [done|done|lia|lia|done|].
      intros s2 fr2 H2. eapply HQ. eapply (unmapped_app _ _ _ _ _ _ _ _ []); [..|done|done]; lia.
    + eapply (IH s l pgdir T p'); [done|done|lia|lia| |].
      { split; intros; lia. }
      intros s2 fr2 H2. apply (HQ s2 fr2). destruct H2 as [A1 A2 A3 A4]. split; [done| | |done].
      * intros v. rewrite A2. split; intros (q & Hq & Hpr & _); [lia|]. by rewrite Hno in Hpr by lia.
      * intros q Hq. rewrite A3 by done. rewrite decide_False by (intros [? _]; lia).
        rewrite decide_False; [done|]. intros [Hqr Hpr]. by rewrite Hno in Hpr by lia.
Qed.

Lemma deallocuvm_ok s l pgdir T oldsz newsz (Q : Z → kst → Prop) :
  vinv s l pgdir T → 0 ≤ newsz < oldsz → oldsz ≤ KERNBASE →
  user_ok (k_mem s) l pgdir T (npg newsz) (npg oldsz) →
  (∀ s' fr, unmapped s l pgdir T (npg newsz) (npg oldsz) s' fr → Q newsz s') →
  runs (deallocuvm kend pgdir oldsz newsz) Q s.
Proof.
  intros Hv Hs Ho Hu HQ. unfold deallocuvm. replace (oldsz <=? newsz) with false by (symmetry; apply Z.leb_gt; lia).
  rewrite PGROUNDUP_npg by lia. kstep. pose proof (npg_range newsz ltac:(lia)). pose proof (npg_fuel oldsz ltac:(lia)).
  eapply dealloc_loop_ok; [done|lia|lia|lia|done|]. intros s' fr Hun. kstep. by eapply HQ.
Qed.

(** ** Running out of pages *)

(** Pages that all went to a directory, its tables, [p - lo] mappings and one more
    are few: the failures below happen only when memory really ran out. *)
Lemma few_pages m pgdir T v (f : Z → Z) lo p (l : list Z) :
  pt m pgdir T → NoDup l → lo ≤ p →
  (∀ w, w ∈ l → w = v ∨ w ∈ own pgdir T ∨ ∃ q, lo ≤ q < p ∧ w = f q) →
  Z.of_nat (length l) ≤ 1026 + (p - lo).
Proof.
  intros Hp Hnd Hle Hall.
  set (l' := v :: pgdir :: ((λ i, default 0 (T !! i)) <$> seqZ 0 1024) ++ (f <$> seqZ lo (p - lo))).
  assert (Hs : l ⊆+ l').
  { apply NoDup_submseteq; [done|]. intros w Hw. unfold l'. rewrite !elem_of_cons, elem_of_app, !list_elem_of_fmap.
    destruct (Hall w Hw) as [?|[[?|[i E]]%elem_own|(q & Hq & ->)]]; [tauto|tauto| |].
    - right. right. left. exists i. rewrite E. split; [done|]. apply elem_of_seqZ.
      destruct (pt_tab _ _ _ Hp i w E) as [Hi _]. unfold NPDENTRIES in Hi. lia.
    - right. right. right. exists q. split; [done|]. apply elem_of_seqZ. lia. }
  apply submseteq_length in Hs. unfold l' in Hs. cbn [length] in Hs.
  rewrite length_app, !length_fmap, !length_seqZ in Hs. lia.
Qed.

(** ** A new page, filled and mapped *)

(** Page [v] was taken and filled, and page tables with it; [ok] when it was mapped
    at page [p] with the entry [e]. *)
Record paged (s : kst) (l : list Z) (pgdir : Z) (T : gmap Z Z) (v : Z) (m1 : gmap Z Z) (p e : Z) (ok : bool)
    (s' : kst) (l' : list Z) (T' : gmap Z Z) : Prop := {
  pg_inv : vinv s' l' pgdir T';
  pg_sub : T ⊆ T';
  pg_page : page_ok kend v;
  pg_fresh : v ∈ l ∧ v ∉ l' ∧ v ∉ own pgdir T ∧ v ∉ own pgdir T';
  pg_count w : w ∈ l ∨ w ∈ own pgdir T ↔ w = v ∨ w ∈ l' ∨ w ∈ own pgdir T';
  pg_left w : w ∈ l' → w ∈ l;
  pg_mem : same_out (own pgdir T' ∪ {[v]}) (k_mem s) (k_mem s');
  pg_data b : v ≤ b < v + PGSIZE → rd (k_mem s') b = rd m1 b;
  pg_entry q : 0 ≤ q < npages →
    entry (k_mem s') T' q = if decide (q = p ∧ ok = true) then e else entry (k_mem s) T q
}.

Lemma add_page s l pgdir T p perm (fill : Z → gmap Z Z → gmap Z Z) (kf1 : K kst Z) (kf2 : Z → K kst Z) (k : K kst Z)
    (Q : Z → kst → Prop) :
  vinv s l pgdir T → 0 ≤ p < npages → 0 ≤ perm < PGSIZE → ¬ present (entry (k_mem s) T p) →
  (∀ v m, mem_ok m → same_out {[v]} m (fill v m) ∧ mem_ok (fill v m)) →
  (l = [] → runs kf1 Q s) →
  (∀ v s' T', paged s l pgdir T v (fill v (k_mem s)) p 0 false s' [] T' → runs (kf2 v) Q s') →
  (∀ v s' l' T', paged s l pgdir T v (fill v (k_mem s)) p (Z.lor (Z.lor (V2P v) perm) PTE_P) true s' l' T' →
     runs k Q s') →
  runs (mem ← kalloc;
        if mem =? 0 then kf1
        else mem_mod (fill mem);;
             r ← mappages pgdir (PGSIZE * p) PGSIZE (V2P mem) perm;
             if r <? 0 then kf2 mem else k) Q s.
Proof.
  intros Hv Hp Hperm Hnp Hfill H1 H2 H3. kstep. eapply kalloc_ok; [apply Hv|intros Hl; simpl; auto|].
  intros v l1 s1 -> Hv0 Hk1 _ Em1. apply Z.eqb_neq in Hv0. rewrite Hv0. unfold mem_mod. kstep. kstep.
  destruct (fresh_page s l1 pgdir v T Hv) as (Hpg & Hvo & Hvl & _ & _ & _).
  destruct (Hfill v (k_mem s) (kinv_mem _ _ _ (vi_k _ _ _ _ Hv))) as [Ho Hm]. set (m1 := fill v (k_mem s)) in *. rewrite Em1. fold m1.
  assert (Hv1 : vinv (set_kmem m1 s1) l1 pgdir T).
  { split; simpl.
    - eapply (kinv_out {[v]}); [done|exact Hm|by rewrite Em1|set_solver].
    - eapply pt_out; [apply Hv|done|set_solver].
    - intros w Hw. apply (vi_dis _ _ _ _ Hv). set_solver. }
  assert (He1 : ∀ q, entry m1 T q = entry (k_mem s) T q).
  { intros q. eapply entry_out; [apply Hv|done|set_solver]. }
  destruct (page_ok_mult v Hpg) as (q & Eq & Hq).
  assert (EV : V2P v = (q - 2 ^ 19) * PGSIZE).
  { destruct Hpg as (_ & _ & Hr). unfold KERNBASE, PHYSTOP in Hr. rewrite V2P_eq by (unfold KERNBASE; lia).
    unfold KERNBASE, PGSIZE. lia. }
  replace PGSIZE with (u32 (PGSIZE * 1)) at 2 by done. kstep.
  pose proof (page_ok_pos _ _ Hpg) as (_ & Hle & _). unfold KERNBASE, PHYSTOP, PGSIZE in Hle.
  eapply (mappages_ok _ l1 pgdir T p 1); [done|lia|lia|lia|rewrite EV; by apply Z.mod_mul|rewrite EV; unfold PGSIZE; lia|
    rewrite EV; unfold PGSIZE; lia|done| |].
  { intros q' Hq'. replace q' with p by lia. simpl. by rewrite He1. }
  intros r k' s2 l2 T2 Hv2 [He2 Hm2 (new & -> & Hown)] Hmap Hr.
  assert (Hnd : NoDup (v :: new ++ l2)) by apply Hv. apply NoDup_cons in Hnd as [Hvn Hnd].
  assert (Hv2o : v ∉ own pgdir T2) by (rewrite Hown; set_solver).
  assert (Hpaged : paged s (v :: new ++ l2) pgdir T v m1 p (Z.lor (Z.lor (V2P v) perm) PTE_P) (0 <? k') s2 l2 T2).
  { split; [done|done|done| | | | | |].
    - split_and!; set_solver.
    - intros w. rewrite Hown, elem_of_cons, elem_of_app, elem_of_union, elem_of_list_to_set. tauto.
    - set_solver.
    - eapply same_out_trans; [eapply (same_out_mono {[v]}); [set_solver|exact Ho]|].
      eapply same_out_mono; [|exact Hm2]. set_solver.
    - intros b Hb. apply Hm2. intros w Hw.
      eapply (out_of (own pgdir T2)); [exact Hpg| |done|done|done]. intros w'. by eapply own_page, Hv2.
    - intros q' Hq'. rewrite (Hmap q' Hq'). simpl. rewrite He1.
      assert (Hk : 0 ≤ k' ≤ 1) by (clear -Hr; destruct Hr as [[_ ->]|(_ & ? & _)]; lia).
      destruct (decide (q' = p ∧ 0 < k')) as [[-> Hk0]|Hn].
      + rewrite !decide_True by (lia || (split; [done|by apply Z.ltb_lt])).
        by rewrite Z.sub_diag, Z.mul_0_r, Z.add_0_r.
      + rewrite !decide_False; [done|intros [-> Hlt%Z.ltb_lt]; by apply Hn|lia]. }
  destruct Hr as [[-> ->]|(-> & Hk & ->)]; simpl.
  - by eapply H3.
  - replace k' with 0 in Hpaged by lia. eapply H2. destruct Hpaged; split; try done.
    intros q' Hq'. rewrite pg_entry0 by done. by rewrite !decide_False by (by intros [_ ?]).
Qed.

(** ** [allocuvm] *)

(** Pages [lo] to [p] were mapped to fresh pages: page [q] with the flags [fl q] and
    the byte [dat q o] at offset [o]. *)
Record allocated (fl : Z → Z) (dat : Z → Z → Z) (s0 : kst) (l0 : list Z) (pgdir : Z) (T0 : gmap Z Z) (lo p : Z)
    (s : kst) (l : list Z) (T : gmap Z Z) : Prop := {
  ad_inv : vinv s l pgdir T;
  ad_sub : T0 ⊆ T;
  ad_user : user_ok (k_mem s) l pgdir T lo p;
  ad_new q : lo ≤ q < p → let e := entry (k_mem s) T q in
    present e ∧ PTE_FLAGS e = fl q ∧ frame e ∈ l0 ∧ ∀ o, 0 ≤ o < PGSIZE → rd (k_mem s) (frame e + o) = dat q o;
  ad_old q : 0 ≤ q < npages → ¬ (lo ≤ q < p) → entry (k_mem s) T q = entry (k_mem s0) T0 q;
  ad_count w : w ∈ l0 ∨ w ∈ own pgdir T0 ↔
    w ∈ l ∨ w ∈ own pgdir T ∨ ∃ q, lo ≤ q < p ∧ w = frame (entry (k_mem s) T q);
  ad_mem : same_out (list_to_set l0 ∪ own pgdir T0) (k_mem s0) (k_mem s)
}.

(** Nothing is mapped from [lo] to [hi], and no page was lost. *)
Record restored (s0 : kst) (l0 : list Z) (pgdir : Z) (T0 : gmap Z Z) (lo hi : Z) (s : kst) (l : list Z) (T : gmap Z Z)
    : Prop := {
  rs_inv : vinv s l pgdir T;
  rs_sub : T0 ⊆ T;
  rs_none q : lo ≤ q < hi → ¬ present (entry (k_mem s) T q);
  rs_old q : 0 ≤ q < npages → ¬ (lo ≤ q < hi) → entry (k_mem s) T q = entry (k_mem s0) T0 q;
  rs_count w : w ∈ l0 ∨ w ∈ own pgdir T0 ↔ w ∈ l ∨ w ∈ own pgdir T;
  rs_mem : same_out (list_to_set l0 ∪ own pgdir T0) (k_mem s0) (k_mem s)
}.

Lemma allocated_refl fl dat s l pgdir T lo : vinv s l pgdir T → allocated fl dat s l pgdir T lo lo s l T.
Proof.
  intros Hv. split; try done; try (intros; lia).
  - split; intros; lia.
  - intros w. split; [tauto|]. intros [?|[?|(q & ? & _)]]; [tauto|tauto|lia].
Qed.

(** The frames of an address space survive another page. *)
Lemma user_ok_paged s l pgdir T lo p v m1 e ok s' l' T' :
  0 ≤ lo → p < npages → user_ok (k_mem s) l pgdir T lo p → paged s l pgdir T v m1 p e ok s' l' T' →
  user_ok (k_mem s') l' pgdir T' lo p ∧ (∀ q, lo ≤ q < p → entry (k_mem s') T' q = entry (k_mem s) T q) ∧
  (∀ q b, lo ≤ q < p → present (entry (k_mem s) T q) →
     frame (entry (k_mem s) T q) ≤ b < frame (entry (k_mem s) T q) + PGSIZE → rd (k_mem s') b = rd (k_mem s) b) ∧
  (∀ q, lo ≤ q < p → present (entry (k_mem s) T q) → frame (entry (k_mem s) T q) ≠ v).
Proof.
  intros Hlo Hp Hu Hpg. destruct (pg_fresh _ _ _ _ _ _ _ _ _ _ _ _ Hpg) as (Hvl & Hvl' & Hvo & Hvo').
  assert (E : ∀ q, lo ≤ q < p → entry (k_mem s') T' q = entry (k_mem s) T q).
  { intros q Hq. rewrite (pg_entry _ _ _ _ _ _ _ _ _ _ _ _ Hpg) by lia. apply decide_False. intros [? _]. lia. }
  assert (Hout : ∀ q, lo ≤ q < p → present (entry (k_mem s) T q) →
     page_ok kend (frame (entry (k_mem s) T q)) ∧ frame (entry (k_mem s) T q) ∉ own pgdir T' ∧
     frame (entry (k_mem s) T q) ∉ l' ∧ frame (entry (k_mem s) T q) ≠ v).
  { intros q Hq Hpr. destruct (us_page _ _ _ _ _ _ Hu q Hq Hpr) as (H1 & H2 & H3). split_and!; [done| | |].
    - intros Hin. destruct (proj2 (pg_count _ _ _ _ _ _ _ _ _ _ _ _ Hpg _) (or_intror (or_intror Hin))); done.
    - intros Hin. by apply (pg_left _ _ _ _ _ _ _ _ _ _ _ _ Hpg) in Hin.
    - congruence. }
  split_and!; [|done| |by intros q Hq Hpr; apply Hout].
  - split.
    + intros q Hq. rewrite E by done. intros Hpr. by destruct (Hout q Hq Hpr) as (? & ? & ? & ?).
    + intros q q' Hq Hq'. rewrite !E by done. apply (us_inj _ _ _ _ _ _ Hu); done.
  - intros q b Hq Hpr Hb. destruct (Hout q Hq Hpr) as (H1 & H2 & H3 & H4).
    apply (pg_mem _ _ _ _ _ _ _ _ _ _ _ _ Hpg). eapply out_of; [exact H1| |set_solver|done].
    intros w [Hw| ->%elem_of_singleton]%elem_of_union.
    + eapply own_page; [apply (pg_inv _ _ _ _ _ _ _ _ _ _ _ _ Hpg)|done].
    + apply (pg_page _ _ _ _ _ _ _ _ _ _ _ _ Hpg).
Qed.

Lemma flags_range perm : 0 ≤ perm < PGSIZE → 0 ≤ Z.lor perm PTE_P < PGSIZE ∧ Z.land (Z.lor perm PTE_P) 1 = 1.
Proof.
  intros Hperm. split.
  - by apply lor_below.
  - rewrite Z.land_lor_distr_l. change (Z.land PTE_P 1) with (Z.ones 1). change 1 with (Z.ones 1) at 1.
    rewrite Z.land_ones by lia. destruct (Z.mod_pos_bound perm (2 ^ 1) ltac:(lia)).
    assert (perm mod 2 ^ 1 = 0 ∨ perm mod 2 ^ 1 = 1) as [-> | ->] by lia; done.
Qed.

Lemma allocated_step fl dat s0 l0 pgdir T0 lo p s l T v m1 perm s' l' T' :
  0 ≤ lo ≤ p → p < npages → 0 ≤ perm < PGSIZE → fl p = Z.lor perm PTE_P →
  (∀ o, 0 ≤ o < PGSIZE → rd m1 (v + o) = dat p o) →
  allocated fl dat s0 l0 pgdir T0 lo p s l T →
  paged s l pgdir T v m1 p (Z.lor (Z.lor (V2P v) perm) PTE_P) true s' l' T' →
  allocated fl dat s0 l0 pgdir T0 lo (p + 1) s' l' T'.
Proof.
  intros Hlo Hp Hperm Hfp Hdat Ha Hpg. pose proof (pg_page _ _ _ _ _ _ _ _ _ _ _ _ Hpg) as Hv.
  destruct (pg_fresh _ _ _ _ _ _ _ _ _ _ _ _ Hpg) as (Hvl & Hvl' & Hvo & Hvo').
  destruct (user_ok_paged s l pgdir T lo p v _ _ _ s' l' T' ltac:(lia) Hp (ad_user _ _ _ _ _ _ _ _ _ _ _ Ha) Hpg)
    as (Hu & E & Hd & Hne).
  rewrite <- Z.lor_assoc in Hpg. rewrite <- Hfp in Hpg. destruct (flags_range perm Hperm) as [Hfr7 Hfl7]. rewrite <- Hfp in Hfr7, Hfl7.
  destruct (page_entry v (fl p) Hv Hfr7) as (_ & Hfl & _ & Hfr & Hpr). cbv zeta in Hfl, Hfr, Hpr.
  assert (Ep : entry (k_mem s') T' p = Z.lor (V2P v) (fl p)).
  { rewrite (pg_entry _ _ _ _ _ _ _ _ _ _ _ _ Hpg) by lia. by rewrite decide_True. }
  set (e := Z.lor (V2P v) (fl p)) in *.
  assert (Hpre : present e) by (unfold present, PTE_P; by rewrite Hpr, Hfl7).
  pose proof (ad_count _ _ _ _ _ _ _ _ _ _ _ Ha) as Hcnt. pose proof (pg_count _ _ _ _ _ _ _ _ _ _ _ _ Hpg) as Hcnt'.
  assert (Hpold : ∀ q, lo ≤ q < p → present (entry (k_mem s) T q)) by (intros q Hq; apply (ad_new _ _ _ _ _ _ _ _ _ _ _ Ha q Hq)).
  split.
  - apply Hpg.
  - etrans; [apply Ha|apply Hpg].
  - split.
    + intros q Hq. destruct (decide (q = p)) as [-> |]; [rewrite Ep, Hfr; by intros _|].
      apply (us_page _ _ _ _ _ _ Hu). lia.
    + intros q q' Hq Hq'. destruct (decide (q = p)) as [-> |], (decide (q' = p)) as [-> |]; [done| | |].
      * rewrite Ep, Hfr, (E q') by lia. intros _ Hpr' Ev. by destruct (Hne q' ltac:(lia) Hpr').
      * rewrite Ep, Hfr, (E q) by lia. intros Hpr' _ Ev. by destruct (Hne q ltac:(lia) Hpr').
      * apply (us_inj _ _ _ _ _ _ Hu); lia.
  - intros q Hq. destruct (decide (q = p)) as [-> |].
    + rewrite Ep. cbv zeta. rewrite Hfr. split_and!; [done|done| |].
      * destruct (proj2 (Hcnt v) (or_introl Hvl)) as [?|Ho]; [done|]. destruct Hvo.
        by eapply own_mono; [apply (ad_sub _ _ _ _ _ _ _ _ _ _ _ Ha)|].
      * intros o Ho. rewrite (pg_data _ _ _ _ _ _ _ _ _ _ _ _ Hpg) by lia. by apply Hdat.
    + rewrite E by lia. destruct (ad_new _ _ _ _ _ _ _ _ _ _ _ Ha q ltac:(lia)) as (H1 & H2 & H3 & H4).
      split_and!; [done|done|done|]. intros o Ho. rewrite (Hd q (_ + o)) by (done || lia). by apply H4.
  - intros q Hq Hn. rewrite (pg_entry _ _ _ _ _ _ _ _ _ _ _ _ Hpg) by done.
    rewrite decide_False by (intros [? _]; lia). apply (ad_old _ _ _ _ _ _ _ _ _ _ _ Ha); [done|lia].
  - intros w. rewrite Hcnt. split.
    + intros [Hw|[Hw|(q & Hq & ->)]].
      * destruct (proj1 (Hcnt' w) (or_introl Hw)) as [-> |[?|?]]; [|tauto|tauto].
        right. right. exists p. rewrite Ep, Hfr. split; [lia|done].
      * destruct (proj1 (Hcnt' w) (or_intror Hw)) as [-> |[?|?]]; [|tauto|tauto].
        right. right. exists p. rewrite Ep, Hfr. split; [lia|done].
      * right. right. exists q. rewrite E by lia. split; [lia|done].
    + intros Hw. assert (Hback : w = v ∨ w ∈ l' ∨ w ∈ own pgdir T' → w ∈ l ∨ w ∈ own pgdir T) by apply Hcnt'.
      destruct Hw as [Hw|[Hw|(q & Hq & ->)]]; [tauto|tauto|].
      destruct (decide (q = p)) as [-> |]; [rewrite Ep, Hfr in *; tauto|].
      right. right. exists q. rewrite E by lia. split; [lia|done].
  - eapply same_out_trans; [apply Ha|]. eapply same_out_mono; [|apply Hpg].
    intros w [Hw| ->%elem_of_singleton]%elem_of_union; rewrite elem_of_union, elem_of_list_to_set, Hcnt;
      assert (Hback : ∀ u, u = v ∨ u ∈ l' ∨ u ∈ own pgdir T' → u ∈ l ∨ u ∈ own pgdir T) by (intros u; apply Hcnt').
    + destruct (Hback w ltac:(tauto)); tauto.
    + destruct (Hback v ltac:(tauto)); tauto.
Qed.

End spec.
