(* ===== verification/VmUser.v ===== *)
(** * Virtual memory: address spaces of processes

    [allocuvm], [deallocuvm], [copyout], [freevm] and [copyuvm] of [xv6/vm.c]: what
    a process sees after each of them, and that no page is lost on any path. *)

From S2P Require Import Prelude Str Mmu Kalloc Vm VmSpec.

Section user.
Context (kend kdata : Z) (Hkend : KERNBASE < kend).
Implicit Types (fl : Z → Z) (dat : Z → Z → Z).

Notation vinv := (vinv kend).
Notation pt := (pt kend).
Notation user_ok := (user_ok kend).
Notation paged := (paged kend).
Notation allocated := (allocated kend).
Notation restored := (restored kend).
Notation unmapped := (unmapped kend).

(** A page given back that no table refers to. *)
Lemma free_page s l pgdir T v (Q : unit → kst → Prop) :
  vinv s l pgdir T → page_ok kend v → v ∉ l → v ∉ own pgdir T →
  (∀ s', vinv s' (v :: l) pgdir T → same_out {[v]} (k_mem s) (k_mem s') →
     (∀ q, entry (k_mem s') T q = entry (k_mem s) T q) → Q tt s') →
  runs (kfree kend v) Q s.
Proof.
  intros Hv Hpg Hl Ho HQ. eapply kfree_ok; [apply Hv|done|done|]. intros s1 Hk1 _ Em1.
  assert (Ho1 : same_out {[v]} (k_mem s) (k_mem s1)).
  { rewrite Em1. intros b Hb. apply rd_freed_mem_out. apply Hb. set_solver. }
  apply HQ; [|done|].
  - split; [done|eapply pt_out; [apply Hv|done|set_solver]|].
    intros w Hw. apply elem_of_cons in Hw as [-> |Hw]; [done|by apply (vi_dis _ _ _ _ _ Hv)].
  - intros q. eapply entry_out; [apply Hv|done|set_solver].
Qed.

(** ** [allocuvm] *)

(** Pages that are not present do not matter to [user_ok]. *)
Lemma user_ok_extend m l pgdir T lo p hi :
  user_ok m l pgdir T lo p → (∀ q, p ≤ q < hi → ¬ present (entry m T q)) → user_ok m l pgdir T lo hi.
Proof.
  intros Hu Hn. split.
  - intros q Hq Hpr. apply (us_page _ _ _ _ _ _ _ Hu); [|done]. destruct (decide (p ≤ q)); [|lia].
    by destruct (Hn q ltac:(lia)).
  - intros q q' Hq Hq' Hpr Hpr'. apply (us_inj _ _ _ _ _ _ _ Hu); try done.
    + destruct (decide (p ≤ q)); [|lia]. by destruct (Hn q ltac:(lia)).
    + destruct (decide (p ≤ q')); [|lia]. by destruct (Hn q' ltac:(lia)).
Qed.

(** Undoing what was mapped so far. *)
Lemma undo_ok fl dat s0 l0 pgdir T0 s l T lo p hi s' fr :
  0 ≤ lo ≤ p → p ≤ hi ≤ npages → allocated fl dat s0 l0 pgdir T0 lo p s l T →
  (∀ q, lo ≤ q < hi → ¬ present (entry (k_mem s0) T0 q)) →
  unmapped s l pgdir T lo hi s' fr → restored s0 l0 pgdir T0 lo hi s' (fr ++ l) T.
Proof.
  intros Hlo Hhi Ha Hn Hun.
  assert (Hno : ∀ q, p ≤ q < hi → ¬ present (entry (k_mem s) T q)).
  { intros q Hq. rewrite (ad_old _ _ _ _ _ _ _ _ _ _ _ _ Ha) by lia. apply Hn. lia. }
  assert (Hcnt : ∀ w, w ∈ l0 ∨ w ∈ own pgdir T0 ↔ w ∈ fr ++ l ∨ w ∈ own pgdir T).
  { intros w. rewrite (ad_count _ _ _ _ _ _ _ _ _ _ _ _ Ha), elem_of_app, (un_freed _ _ _ _ _ _ _ _ _ Hun). split.
    - intros [?|[?|(q & Hq & ->)]]; [tauto|tauto|]. left. left. exists q. split_and!; [lia|lia| |done].
      apply (ad_new _ _ _ _ _ _ _ _ _ _ _ _ Ha q Hq).
    - intros [[(q & Hq & Hpr & ->)|?]|?]; [|tauto|tauto]. right. right. exists q. split; [|done].
      destruct (decide (p ≤ q)); [|lia]. by destruct (Hno q ltac:(lia)). }
  split.
  - apply Hun.
  - apply Ha.
  - intros q Hq. rewrite (un_entry _ _ _ _ _ _ _ _ _ Hun) by lia. case_decide as Hd; [apply not_present_0|].
    intros Hpr. by apply Hd.
  - intros q Hq Hnq. rewrite (un_entry _ _ _ _ _ _ _ _ _ Hun) by done. rewrite decide_False by (intros [? _]; lia).
    apply (ad_old _ _ _ _ _ _ _ _ _ _ _ _ Ha); [done|lia].
  - done.
  - eapply same_out_trans; [apply Ha|]. eapply same_out_mono; [|apply Hun].
    intros w. rewrite !elem_of_union, !elem_of_list_to_set, Hcnt, elem_of_app. tauto.
Qed.

(** The first failure of [allocuvm]: no page left. *)
Lemma alloc_undo fl dat s0 l0 pgdir T0 s l T lo p oldsz newsz (Q : Z → kst → Prop) :
  0 ≤ oldsz < newsz → newsz < KERNBASE → lo = npg oldsz → lo ≤ p ≤ npg newsz →
  allocated fl dat s0 l0 pgdir T0 lo p s l T →
  (∀ q, lo ≤ q < npg newsz → ¬ present (entry (k_mem s0) T0 q)) →
  (∀ s' l', restored s0 l0 pgdir T0 lo (npg newsz) s' l' T → Q oldsz s') →
  runs (deallocuvm kend pgdir newsz oldsz) Q s.
Proof.
  intros Ho Hn -> Hp Ha Hno HQ. pose proof (npg_range oldsz ltac:(lia)). pose proof (npg_range newsz ltac:(lia)).
  assert (HN : npages = 2 ^ 20) by done.
  eapply deallocuvm_ok; [done|apply Ha|lia|lia| |].
  - eapply user_ok_extend; [apply Ha|]. intros q Hq. rewrite (ad_old _ _ _ _ _ _ _ _ _ _ _ _ Ha) by lia. apply Hno. lia.
  - intros s' fr Hun. eapply HQ. eapply undo_ok; [..|done|done|done]; lia.
Qed.

(** The same state with a page [v] that is filled but not mapped. *)
Lemma allocated_unmapped fl dat s0 l0 pgdir T0 lo p s l T v m1 s' T' :
  0 ≤ lo → p < npages → allocated fl dat s0 l0 pgdir T0 lo p s l T → paged s l pgdir T v m1 p 0 false s' [] T' →
  user_ok (k_mem s') [] pgdir T' lo p ∧ (∀ q, 0 ≤ q < npages → entry (k_mem s') T' q = entry (k_mem s) T q) ∧
  page_ok kend v ∧ v ∉ own pgdir T' ∧
  (∀ q, lo ≤ q < p → frame (entry (k_mem s) T q) ≠ v) ∧
  (∀ w, w ∈ l0 ∨ w ∈ own pgdir T0 ↔ w = v ∨ w ∈ own pgdir T' ∨ ∃ q, lo ≤ q < p ∧ w = frame (entry (k_mem s) T q)) ∧
  same_out (list_to_set l0 ∪ own pgdir T0) (k_mem s0) (k_mem s').
Proof.
  intros Hlo Hp Ha Hpg. destruct (pg_fresh _ _ _ _ _ _ _ _ _ _ _ _ _ Hpg) as (Hvl & Hvl' & Hvo & Hvo').
  destruct (user_ok_paged kend Hkend s l pgdir T lo p v m1 _ _ s' [] T' Hlo Hp (ad_user _ _ _ _ _ _ _ _ _ _ _ _ Ha) Hpg)
    as (Hu & E & Hd & Hne).
  assert (Hcnt : ∀ w, w ∈ l0 ∨ w ∈ own pgdir T0 ↔
    w = v ∨ w ∈ own pgdir T' ∨ ∃ q, lo ≤ q < p ∧ w = frame (entry (k_mem s) T q)).
  { intros w. rewrite (ad_count _ _ _ _ _ _ _ _ _ _ _ _ Ha). pose proof (pg_count _ _ _ _ _ _ _ _ _ _ _ _ _ Hpg w) as Hc.
    assert (w ∉ @nil Z) by apply not_elem_of_nil. tauto. }
  split_and!; [done| |apply Hpg|done| |done|].
  - intros q Hq. rewrite (pg_entry _ _ _ _ _ _ _ _ _ _ _ _ _ Hpg) by done. apply decide_False. by intros [_ ?].
  - intros q Hq. apply Hne; [done|]. apply (ad_new _ _ _ _ _ _ _ _ _ _ _ _ Ha q Hq).
  - eapply same_out_trans; [apply Ha|]. eapply same_out_mono; [|apply Hpg].
    intros w. rewrite !elem_of_union, elem_of_list_to_set, elem_of_singleton, Hcnt. tauto.
Qed.

(** Giving that page back at once. *)
Lemma allocated_back fl dat s0 l0 pgdir T0 lo p s l T v m1 s1 T1 (Q : unit → kst → Prop) :
  0 ≤ lo → p < npages → allocated fl dat s0 l0 pgdir T0 lo p s l T → paged s l pgdir T v m1 p 0 false s1 [] T1 →
  (∀ s', allocated fl dat s0 l0 pgdir T0 lo p s' [v] T1 → Q tt s') →
  runs (kfree kend v) Q s1.
Proof.
  intros Hlo Hp Ha Hpg HQ.
  destruct (allocated_unmapped _ _ _ _ _ _ lo p _ _ _ v m1 s1 T1 Hlo Hp Ha Hpg) as (Hu & E & Hpv & Hvo & Hne & Hcnt & Hmem).
  destruct (user_ok_paged kend Hkend s l pgdir T lo p v m1 _ _ s1 [] T1 Hlo Hp (ad_user _ _ _ _ _ _ _ _ _ _ _ _ Ha) Hpg)
    as (_ & _ & Hd & _).
  assert (Hpre : ∀ q, lo ≤ q < p → present (entry (k_mem s) T q)) by apply Ha.
  eapply (free_page s1 [] pgdir T1 v); [apply Hpg|done|by apply not_elem_of_nil|done|].
  intros s2 Hv2 Ho2 E2. apply HQ. split.
  - done.
  - etrans; [apply Ha|apply Hpg].
  - split.
    + intros q Hq. rewrite E2. intros Hpr. destruct (us_page _ _ _ _ _ _ _ Hu q Hq Hpr) as (H1 & H2 & H3).
      split_and!; [done|done|]. rewrite list_elem_of_singleton. rewrite E by lia. by apply Hne.
    + intros q q' Hq Hq'. rewrite !E2. by apply (us_inj _ _ _ _ _ _ _ Hu).
  - intros q Hq. rewrite E2, E by lia. destruct (ad_new _ _ _ _ _ _ _ _ _ _ _ _ Ha q Hq) as (H1 & H2 & H3 & H4).
    split_and!; [done|done|done|]. intros o Ho. rewrite <- H4 by done. rewrite <- (Hd q (_ + o)) by (done || lia).
    apply Ho2. eapply out_of; [..|instantiate (1 := frame (entry (k_mem s) T q)); lia].
    + rewrite <- E by lia. apply (us_page _ _ _ _ _ _ _ Hu); [done|]. by rewrite E by lia.
    + set_solver.
    + apply not_elem_of_singleton. by apply Hne.
  - intros q Hq Hnq. rewrite E2, E by done. by apply (ad_old _ _ _ _ _ _ _ _ _ _ _ _ Ha).
  - intros w. rewrite Hcnt, list_elem_of_singleton.
    assert ((∃ q, lo ≤ q < p ∧ w = frame (entry (k_mem s2) T1 q)) ↔ ∃ q, lo ≤ q < p ∧ w = frame (entry (k_mem s) T q)) as ->; [|done].
    split; intros (q & Hq & ->); exists q; (split; [done|]); rewrite E2, E by lia; done.
  - eapply same_out_trans; [exact Hmem|]. eapply same_out_mono; [|exact Ho2]. intros w ->%elem_of_singleton.
    rewrite elem_of_union, elem_of_list_to_set, Hcnt. tauto.
Qed.

(** The second failure: a page was taken but there was no room for its table. *)
Lemma alloc_undo2 fl dat s0 l0 pgdir T0 s l T lo p oldsz newsz v m1 s1 T1 (Q : Z → kst → Prop) :
  0 ≤ oldsz < newsz → newsz < KERNBASE → lo = npg oldsz → lo ≤ p < npg newsz →
  allocated fl dat s0 l0 pgdir T0 lo p s l T → paged s l pgdir T v m1 p 0 false s1 [] T1 →
  (∀ q, lo ≤ q < npg newsz → ¬ present (entry (k_mem s0) T0 q)) →
  (∀ s' l', restored s0 l0 pgdir T0 lo (npg newsz) s' l' T1 → Q 0 s') →
  runs (deallocuvm kend pgdir newsz oldsz;; kfree kend v;; mret 0) Q s1.
Proof.
  intros Ho Hn -> Hp Ha Hpg Hno HQ. pose proof (npg_range oldsz ltac:(lia)). pose proof (npg_range newsz ltac:(lia)).
  assert (HN : npages = 2 ^ 20) by done. pose proof (pg_inv _ _ _ _ _ _ _ _ _ _ _ _ _ Hpg) as Hv1.
  destruct (allocated_unmapped _ _ _ _ _ _ (npg oldsz) p _ _ _ v m1 s1 T1 ltac:(lia) ltac:(lia) Ha Hpg)
    as (Hu & E & Hpv & Hvo & Hne & Hcnt & Hmem).
  assert (Hno1 : ∀ q, p ≤ q < npg newsz → ¬ present (entry (k_mem s1) T1 q)).
  { intros q Hq. rewrite E by lia. rewrite (ad_old _ _ _ _ _ _ _ _ _ _ _ _ Ha) by lia. apply Hno. lia. }
  assert (Hpre : ∀ q, npg oldsz ≤ q < p → present (entry (k_mem s) T q)) by apply Ha.
  kstep. eapply deallocuvm_ok; [done|done|lia|lia|by eapply user_ok_extend|]. intros s2 fr Hun.
  assert (Hfr : ∀ w, w ∈ fr ↔ ∃ q, npg oldsz ≤ q < p ∧ w = frame (entry (k_mem s) T q)).
  { intros w. rewrite (un_freed _ _ _ _ _ _ _ _ _ Hun). split.
    - intros (q & Hq & Hpr & ->). destruct (decide (p ≤ q)); [by destruct (Hno1 q ltac:(lia))|].
      exists q. rewrite E by lia. split; [lia|done].
    - intros (q & Hq & ->). exists q. rewrite E by lia. split_and!; [lia|lia|by apply Hpre|done]. }
  kstep. eapply (free_page s2 (fr ++ []) pgdir T1 v); [apply Hun|done| |done|].
  { rewrite app_nil_r, Hfr. intros (q & Hq & Ev). by destruct (Hne q Hq). }
  intros s3 Hv3 Ho3 E3. kstep. apply (HQ s3 (v :: fr ++ [])). split.
  - done.
  - etrans; [apply Ha|apply Hpg].
  - intros q Hq. rewrite E3, (un_entry _ _ _ _ _ _ _ _ _ Hun) by lia. case_decide as Hd; [apply not_present_0|].
    intros Hpr. by apply Hd.
  - intros q Hq Hnq. rewrite E3, (un_entry _ _ _ _ _ _ _ _ _ Hun) by done. rewrite decide_False by (intros [? _]; lia).
    rewrite E by done. apply (ad_old _ _ _ _ _ _ _ _ _ _ _ _ Ha); [done|lia].
  - intros w. rewrite app_nil_r, elem_of_cons, Hfr, Hcnt. tauto.
  - eapply same_out_trans; [exact Hmem|]. eapply same_out_trans.
    + eapply same_out_mono; [|apply Hun]. intros w.
      rewrite !elem_of_union, !elem_of_list_to_set, Hcnt, Hfr. tauto.
    + eapply same_out_mono; [|exact Ho3]. intros w ->%elem_of_singleton.
      rewrite elem_of_union, elem_of_list_to_set, Hcnt. tauto.
Qed.

(** What [allocuvm] gives: present, writable, user, and all zero. *)
Definition user_flags (_ : Z) : Z := 7.
Definition zero_page (_ _ : Z) : Z := 0.

Lemma zero_fill m v p o : 0 ≤ o < PGSIZE → rd (memset m v 0 PGSIZE) (v + o) = zero_page p o.
Proof. intros Ho. rewrite rd_memset by done. bdestruct_all; simpl; try done; lia. Qed.

Lemma allocuvm_loop_ok fuel : ∀ s0 l0 pgdir T0 s l T p oldsz newsz (Q : Z → kst → Prop),
  0 ≤ oldsz ≤ newsz → newsz < KERNBASE → npg oldsz ≤ p → (Z.to_nat (npg newsz - p) < fuel)%nat →
  p ≤ npg newsz →
  allocated user_flags zero_page s0 l0 pgdir T0 (npg oldsz) p s l T → NoDup l0 →
  (∀ q, npg oldsz ≤ q < npg newsz → ¬ present (entry (k_mem s0) T0 q)) →
  (∀ s' l' T', restored s0 l0 pgdir T0 (npg oldsz) (npg newsz) s' l' T' →
     Z.of_nat (length l0) ≤ 1026 + (npg newsz - npg oldsz) → Q 0 s') →
  (∀ s' l' T', allocated user_flags zero_page s0 l0 pgdir T0 (npg oldsz) (npg newsz) s' l' T' → Q newsz s') →
  runs (allocuvm_loop kend fuel pgdir (PGSIZE * p) oldsz newsz) Q s.
Proof.
  induction fuel as [|fuel IH]; intros s0 l0 pgdir T0 s l T p oldsz newsz Q Ho Hn Hp Hf Hle Ha Hnd Hno Hbad Hgood; [lia|].
  pose proof (npg_range oldsz ltac:(lia)). pose proof (npg_range newsz ltac:(lia)). pose proof (npg_lt p newsz) as Hlt.
  assert (HN : npages = 2 ^ 20) by done. cbn [allocuvm_loop].
  destruct (Z.ltb_spec (PGSIZE * p) newsz) as [Hc|Hc].
  - assert (oldsz ≠ newsz) by (intros <-; lia).
    eapply (add_page kend Hkend); [apply Ha|lia|done| | | | |].
    + rewrite (ad_old _ _ _ _ _ _ _ _ _ _ _ _ Ha) by lia. apply Hno. lia.
    + intros v m Hm. split; [apply same_out_memset|by apply mem_ok_memset].
    + intros ->. kstep. eapply alloc_undo; [..|exact Ha|done|]; try lia.
      intros s' l' Hr. kstep. eapply Hbad; [done|].
      pose proof (few_pages kend _ pgdir T 0 (λ q, frame (entry (k_mem s) T q)) (npg oldsz) p l0
        (vi_pt _ _ _ _ _ (ad_inv _ _ _ _ _ _ _ _ _ _ _ _ Ha)) Hnd Hp) as Hfew. 
      assert (Z.of_nat (length l0) ≤ 1026 + (p - npg oldsz)); [apply Hfew|lia].
      intros w Hw. destruct (proj1 (ad_count _ _ _ _ _ _ _ _ _ _ _ _ Ha w) (or_introl Hw)) as [[]%elem_of_nil|?]; by right.
    + intros v s' T' Hpg.
      destruct (allocated_unmapped _ _ _ _ _ _ (npg oldsz) p _ _ _ v _ s' T' ltac:(lia) ltac:(lia) Ha Hpg)
        as (_ & _ & _ & _ & _ & Hcnt & _).
      eapply alloc_undo2; [..|exact Ha|exact Hpg|done|]; try lia. intros s2 l2 Hr. eapply Hbad; [done|].
      pose proof (few_pages kend _ pgdir T' v (λ q, frame (entry (k_mem s) T q)) (npg oldsz) p l0
        (vi_pt _ _ _ _ _ (pg_inv _ _ _ _ _ _ _ _ _ _ _ _ _ Hpg)) Hnd Hp) as Hfew.
      assert (Z.of_nat (length l0) ≤ 1026 + (p - npg oldsz)); [apply Hfew|lia].
      intros w Hw. by apply (Hcnt w); left.
    + intros v s' l' T' Hpg. rewrite u32_small by (unfold PGSIZE; lia).
      replace (PGSIZE * p + PGSIZE) with (PGSIZE * (p + 1)) by lia.
      eapply IH; [done|done|lia|lia|lia|eapply allocated_step; [..|exact Ha|exact Hpg]; [done|lia|lia|done|done|by apply zero_fill]|done|done|done|done].
  - kstep. replace p with (npg newsz) in Ha by (destruct (decide (p < npg newsz)) as [Hd%Hlt|]; lia). by eapply Hgood.
Qed.

Lemma npg_mono a b : a ≤ b → npg a ≤ npg b.
Proof. intros H. unfold npg. apply Z.div_le_mono; [done|lia]. Qed.

Lemma allocuvm_ok s l pgdir T oldsz newsz (Q : Z → kst → Prop) :
  vinv s l pgdir T → 0 ≤ oldsz ≤ newsz → newsz < KERNBASE →
  (∀ q, npg oldsz ≤ q < npg newsz → ¬ present (entry (k_mem s) T q)) →
  (∀ s' l' T', restored s l pgdir T (npg oldsz) (npg newsz) s' l' T' →
     Z.of_nat (length l) ≤ 1026 + (npg newsz - npg oldsz) → Q 0 s') →
  (∀ s' l' T', allocated user_flags zero_page s l pgdir T (npg oldsz) (npg newsz) s' l' T' → Q newsz s') →
  runs (allocuvm kend pgdir oldsz newsz) Q s.
Proof.
  intros Hv Ho Hn Hno Hbad Hgood. unfold allocuvm.
  replace (KERNBASE <=? newsz) with false by (symmetry; apply Z.leb_gt; lia).
  replace (newsz <? oldsz) with false by (symmetry; apply Z.ltb_ge; lia).
  rewrite PGROUNDUP_npg by lia. pose proof (npg_fuel newsz ltac:(lia)). pose proof (npg_range oldsz ltac:(lia)).
  pose proof (npg_mono oldsz newsz ltac:(lia)).
  eapply allocuvm_loop_ok; [done|done|lia|lia|lia|by apply allocated_refl|apply Hv|done|done|done].
Qed.

(** ** [freevm] *)

(** The directory from index [i] on, while its tables are given back. *)
Record dir_from (m : gmap Z Z) (l : list Z) (pgdir : Z) (T : gmap Z Z) (i : Z) : Prop := {
  df_dir : page_ok kend pgdir ∧ pgdir ∉ l;
  df_tab j t : i ≤ j → T !! j = Some t → j < NPDENTRIES ∧ page_ok kend t ∧ t ≠ pgdir ∧ t ∉ l ∧
    present (ld32 m (pgdir + 4 * j)) ∧ frame (ld32 m (pgdir + 4 * j)) = t;
  df_none j : i ≤ j < NPDENTRIES → T !! j = None → ¬ present (ld32 m (pgdir + 4 * j));
  df_inj j j' t : T !! j = Some t → T !! j' = Some t → j = j'
}.

Lemma freevm_loop_ok k : ∀ s l pgdir T i (Q : unit → kst → Prop),
  kinv kend s l → 0 ≤ i → i + Z.of_nat k = NPDENTRIES → dir_from (k_mem s) l pgdir T i →
  (∀ s' fr, kinv kend s' (fr ++ l) → (∀ w, w ∈ fr ↔ ∃ j, i ≤ j ∧ T !! j = Some w) →
     same_out (list_to_set fr) (k_mem s) (k_mem s') → Q tt s') →
  runs (freevm_loop kend pgdir i k) Q s.
Proof.
  induction k as [|k IH]; intros s l pgdir T i Q Hk Hi He Hd HQ; cbn [freevm_loop].
  { kstep. eapply (HQ s []); [done| |done]. intros w. split; [intros ?%elem_of_nil; done|].
    intros (j & Hj & E). destruct (df_tab _ _ _ _ _ Hd j w Hj E) as [? _]. lia. }
  unfold mem_ld. kstep. kstep. destruct (df_dir _ _ _ _ _ Hd) as [Hdp Hdl].
  destruct (T !! i) as [t|] eqn:Et.
  - destruct (df_tab _ _ _ _ _ Hd i t ltac:(lia) Et) as (_ & Htp & Htd & Htl & Hpr & Hf).
    apply Z.eqb_neq in Hpr. rewrite Hpr. simpl. unfold frame in Hf. rewrite Hf. kstep.
    eapply kfree_ok; [done|done|done|]. intros s1 Hk1 _ Em1.
    assert (Ho1 : same_out {[t]} (k_mem s) (k_mem s1)).
    { rewrite Em1. intros b Hb. apply rd_freed_mem_out. apply Hb. set_solver. }
    assert (El : ∀ j, 0 ≤ j < NPDENTRIES → ld32 (k_mem s1) (pgdir + 4 * j) = ld32 (k_mem s) (pgdir + 4 * j)).
    { intros j Hj. eapply same_out_ld; [done|done|set_solver|set_solver|done]. }
    eapply (IH s1 (t :: l) pgdir T (i + 1)); [done|lia|lia| |].
    + split; [split; [done|set_solver]| | |apply Hd].
      * intros j u Hj Eu. destruct (df_tab _ _ _ _ _ Hd j u ltac:(lia) Eu) as (Hj' & Hu & Hud & Hul & H1 & H2).
        rewrite El by lia. split_and!; try done. apply not_elem_of_cons. split; [|done]. intros ->.
        apply (df_inj _ _ _ _ _ Hd i) in Eu; [lia|done].
      * intros j Hj. rewrite El by lia. apply (df_none _ _ _ _ _ Hd). lia.
    + intros s2 fr Hk2 Hfr Ho2. apply (HQ s2 (fr ++ [t])).
      * by rewrite <- app_assoc.
      * intros w. rewrite elem_of_app, list_elem_of_singleton, Hfr. split.
        -- intros [(j & Hj & E)| ->]; [exists j; split; [lia|done]|exists i; split; [lia|done]].
        -- intros (j & Hj & E). destruct (decide (j = i)) as [-> |]; [right; congruence|left; exists j; split; [lia|done]].
      * eapply same_out_trans; [eapply same_out_mono; [|exact Ho1]|eapply same_out_mono; [|exact Ho2]];
          rewrite list_to_set_app_L; set_solver.
  - pose proof (df_none _ _ _ _ _ Hd i ltac:(lia) Et) as Hn. unfold present in Hn.
    replace (Z.land _ PTE_P =? 0) with true by (symmetry; apply Z.eqb_eq; lia). simpl. kstep. kstep.
    eapply (IH s l pgdir T (i + 1)); [done|lia|lia| |].
    + split; [done| | |apply Hd]; intros; [apply (df_tab _ _ _ _ _ Hd); [lia|done]|apply (df_none _ _ _ _ _ Hd); [lia|done]].
    + intros s2 fr Hk2 Hfr Ho2. apply (HQ s2 fr); [done| |done]. intros w. rewrite Hfr.
      split; intros (j & Hj & E); exists j; (split; [|done]); [lia|].
      destruct (decide (j = i)) as [-> |]; [congruence|lia].
Qed.

(** Every page of an address space is given back. *)
Lemma freevm_ok s l pgdir T (Q : unit → kst → Prop) :
  vinv s l pgdir T → user_ok (k_mem s) l pgdir T 0 (2 ^ 19) →
  (∀ s' l', kinv kend s' l' →
     (∀ w, w ∈ l' ↔ w ∈ l ∨ w ∈ own pgdir T ∨
        ∃ q, 0 ≤ q < 2 ^ 19 ∧ present (entry (k_mem s) T q) ∧ w = frame (entry (k_mem s) T q)) →
     same_out (list_to_set l') (k_mem s) (k_mem s') → Q tt s') →
  runs (freevm kend pgdir) Q s.
Proof.
  intros Hv Hu HQ. unfold freevm. destruct (page_ok_pos kend pgdir (pt_dir _ _ _ _ (vi_pt _ _ _ _ _ Hv))) as [Hne _].
  kstep. kstep; [by apply negb_true_iff, Z.eqb_neq|]. kstep.
  eapply (deallocuvm_ok kend Hkend s l pgdir T); [done|done|done|done|]. change (npg 0) with 0. change (npg KERNBASE) with (2 ^ 19).
  intros s1 fr Hun. pose proof (un_inv _ _ _ _ _ _ _ _ _ Hun) as Hv1. kstep.
  assert (Hown : ∀ w, w ∈ fr ++ l → w ∉ own pgdir T) by apply Hv1.
  eapply (freevm_loop_ok _ s1 (fr ++ l) pgdir T 0); [apply Hv1|done|done| |].
  { pose proof (vi_pt _ _ _ _ _ Hv1) as Hp. split; [split; [apply Hp|]| | |apply Hp].
    - intros Hin. apply (Hown _ Hin), elem_own. by left.
    - intros j t _ E. destruct (pt_tab _ _ _ _ Hp j t E) as (Hj & H1 & H2 & H3 & H4). split_and!; try done; [lia|].
      intros Hin. apply (Hown _ Hin), elem_own. eauto.
    - intros j Hj. by apply (pt_none _ _ _ _ Hp). }
  intros s2 ts Hk2 Hts Ho2.
  assert (Hd2 : pgdir ∉ ts ++ fr ++ l).
  { rewrite elem_of_app, Hts. intros [(j & _ & E)|Hin]; [|apply (Hown _ Hin), elem_own; by left].
    by apply (pt_tab _ _ _ _ (vi_pt _ _ _ _ _ Hv1)) in E as (_ & _ & ? & _). }
  eapply kfree_ok; [done|apply Hv|done|]. intros s3 Hk3 _ Em3. apply (HQ s3 (pgdir :: ts ++ fr ++ l)); [done| |].
  - intros w. rewrite elem_of_cons, !elem_of_app, Hts, (un_freed _ _ _ _ _ _ _ _ _ Hun), elem_own.
    assert ((∃ j, 0 ≤ j ∧ T !! j = Some w) ↔ ∃ i, T !! i = Some w) as ->; [|tauto].
    split; [intros (j & _ & ?); eauto|]. intros (j & E). exists j. split; [|done].
    apply (pt_tab _ _ _ _ (vi_pt _ _ _ _ _ Hv1) j w E).
  - assert (Ho3 : same_out {[pgdir]} (k_mem s2) (k_mem s3)).
    { rewrite Em3. intros b Hb. apply rd_freed_mem_out. apply Hb. set_solver. }
    eapply same_out_trans; [eapply same_out_mono; [|apply Hun]|
      eapply same_out_trans; [eapply same_out_mono; [|exact Ho2]|eapply same_out_mono; [|exact Ho3]]].
    + intros w. rewrite elem_of_union, elem_own, !elem_of_list_to_set, elem_of_cons, !elem_of_app, Hts.
      intros [[-> |[j E]]|?]; [tauto| |tauto]. right. left. exists j. split; [|done].
      apply (pt_tab _ _ _ _ (vi_pt _ _ _ _ _ Hv1) j w E).
    + rewrite list_to_set_cons, list_to_set_app_L. set_solver.
    + rewrite list_to_set_cons. set_solver.
Qed.

End user.
