(* ===== verification/VmFork.v ===== *)
(** * Virtual memory: new address spaces

    [setupkvm] and [copyuvm] of [xv6/vm.c]: the kernel part of every address space,
    and the copy of a process's memory that [fork] makes. *)

From S2P Require Import Prelude Str Mmu Kalloc Vm VmSpec VmUser.

(** First page and number of pages of a row of [kmap]. *)
Definition kpage (k : kmap_entry) : Z := km_virt k / PGSIZE.
Definition ksize (k : kmap_entry) : Z := u32 (km_phys_end k - km_phys_start k) / PGSIZE.

(** The entry that the rows give to page [p]. *)
Fixpoint kentry (ks : list kmap_entry) (p : Z) : option Z :=
  match ks with
  | [] => None
  | k :: ks' =>
      if (kpage k <=? p) && (p <? kpage k + ksize k)
      then Some (Z.lor (Z.lor (km_phys_start k + PGSIZE * (p - kpage k)) (km_perm k)) PTE_P)
      else kentry ks' p
  end.

(** Rows of whole pages, one after the other from page [b] on. *)
Fixpoint rows_from (b : Z) (ks : list kmap_entry) : Prop :=
  match ks with
  | [] => True
  | k :: ks' =>
      b ≤ kpage k ∧ 0 < ksize k ∧ kpage k + ksize k ≤ npages ∧
      km_virt k = PGSIZE * kpage k ∧ u32 (km_phys_end k - km_phys_start k) = u32 (PGSIZE * ksize k) ∧
      km_phys_start k mod PGSIZE = 0 ∧ 0 ≤ km_phys_start k ∧
      km_phys_start k + PGSIZE * ksize k ≤ 2 ^ 32 ∧ 0 ≤ km_perm k < PGSIZE ∧
      rows_from (kpage k + ksize k) ks'
  end.

Lemma kentry_below ks : ∀ b p, rows_from b ks → p < b → kentry ks p = None.
Proof.
  induction ks as [|k ks IH]; intros b p; simpl; [done|]. intros (Hb & Hk & _ & _ & _ & _ & _ & _ & _ & Hr) Hp.
  replace (kpage k <=? p) with false by (symmetry; apply Z.leb_gt; lia). simpl. eapply IH; [done|lia].
Qed.

Section fork.
Context (kend kdata : Z) (Hkend : KERNBASE < kend).
Context (Hdata : KERNLINK < kdata < KERNBASE + PHYSTOP) (Halign : kdata mod PGSIZE = 0).

Notation vinv := (vinv kend).
Notation user_ok := (user_ok kend).

Lemma kmap_rows : rows_from (2 ^ 19) (kmap kdata).
Proof.
  unfold KERNLINK, KERNBASE, EXTMEM, PHYSTOP in Hdata. apply Z.mod_divide in Halign as [q Hq]; [|done].
  unfold PGSIZE in Hq. assert (EV : V2P kdata = (q - 2 ^ 19) * 4096) by (rewrite V2P_eq; unfold KERNBASE; lia).
  cbn [kmap rows_from]. unfold kpage, ksize. cbn [km_virt km_phys_start km_phys_end km_perm].
  change (V2P KERNLINK) with (256 * 4096). rewrite EV.
  unfold KERNLINK, KERNBASE, EXTMEM, PHYSTOP, DEVSPACE, PGSIZE, npages, NPDENTRIES, NPTENTRIES, PTE_W.
  rewrite (u32_small ((q - 2 ^ 19) * 4096 - 256 * 4096)), (u32_small (0xE000000 - (q - 2 ^ 19) * 4096)) by lia.
  replace ((q - 2 ^ 19) * 4096 - 256 * 4096) with ((q - 2 ^ 19 - 256) * 4096) by lia.
  replace (0xE000000 - (q - 2 ^ 19) * 4096) with ((57344 - (q - 2 ^ 19)) * 4096) by lia.
  rewrite !Z.div_mul, Hq, Z.div_mul by lia.
  assert (Em : (q - 2 ^ 19) * 4096 mod 4096 = 0) by (by apply Z.mod_mul).
  change ((0x80000000 + 0x100000) / 4096) with 524544. change (0xFE000000 / 4096) with 1040384.
  split_and!; try done; try lia; rewrite ?u32_small by lia; lia.
Qed.

(** Every page of [l] went to the directory and its tables. *)
Definition used_up (l : list Z) (pgdir : Z) (T : gmap Z Z) : Prop :=
  ∃ m1 T1, pt kend m1 pgdir T1 ∧ ∀ w, w ∈ l ∨ w ∈ own pgdir T → w ∈ own pgdir T1.

Lemma setup_loop_ok ks : ∀ b s l pgdir T (Q : Z → kst → Prop),
  vinv s l pgdir T → 2 ^ 19 ≤ b → rows_from b ks →
  (∀ p, b ≤ p < npages → ¬ present (entry (k_mem s) T p)) →
  (∀ p, 0 ≤ p < 2 ^ 19 → ¬ present (entry (k_mem s) T p)) →
  (∀ s' l', kinv kend s' l' → (∀ w, w ∈ l' ↔ w ∈ l ∨ w ∈ own pgdir T) →
     same_out (list_to_set l ∪ own pgdir T) (k_mem s) (k_mem s') → used_up l pgdir T → Q 0 s') →
  (∀ s' l' T', vinv s' l' pgdir T' → (∀ w, w ∈ l ∨ w ∈ own pgdir T ↔ w ∈ l' ∨ w ∈ own pgdir T') →
     (∀ p, 0 ≤ p < npages → entry (k_mem s') T' p = default (entry (k_mem s) T p) (kentry ks p)) →
     same_out (list_to_set l ∪ own pgdir T) (k_mem s) (k_mem s') → Q pgdir s') →
  runs (setupkvm_loop kend pgdir ks) Q s.
Proof.
  induction ks as [|k ks IH]; intros b s l pgdir T Q Hv Hb Hr Hno Hus Hbad Hgood; cbn [setupkvm_loop].
  { kstep. by eapply Hgood. }
  destruct Hr as (H1 & H2 & H3 & H4 & H5 & H6 & H7 & H8 & H9 & Hr). rewrite H4, H5. kstep.
  eapply mappages_ok; [done|lia|done|done|done|done|done|done| |].
  { intros p Hp. apply Hno. lia. }
  intros r n s1 l1 T1 Hv1 [Hsub Hmem (new & -> & Hown)] Hmap Hres.
  assert (Hcnt : ∀ w, w ∈ new ++ l1 ∨ w ∈ own pgdir T ↔ w ∈ l1 ∨ w ∈ own pgdir T1).
  { intros w. rewrite Hown, elem_of_app, elem_of_union, elem_of_list_to_set. tauto. }
  assert (Hmem' : same_out (list_to_set (new ++ l1) ∪ own pgdir T) (k_mem s) (k_mem s1)).
  { eapply same_out_mono; [|exact Hmem]. rewrite Hown, list_to_set_app_L. set_solver. }
  assert (Hn : 0 ≤ n ≤ ksize k) by (clear -Hres H2; destruct Hres as [[_ ->]|(_ & ? & _)]; lia).
  assert (Hus1 : ∀ p, 0 ≤ p < 2 ^ 19 → ¬ present (entry (k_mem s1) T1 p)).
  { intros p Hp. assert (npages = 2 ^ 20) by done. rewrite (Hmap p), decide_False by lia. by apply Hus. }
  destruct Hres as [[-> ->]|(-> & Hk & ->)]; simpl.
  - eapply (IH (kpage k + ksize k) s1 l1 pgdir T1); [done|lia|done| |done| |].
    + intros p Hp. rewrite (Hmap p), decide_False by lia. apply Hno. lia.
    + intros s' l' Hk' Hl' Ho' (m2 & T2 & Hp2 & Hu2). apply (Hbad s' l'); [done| | |].
      3:{ exists m2, T2. split; [done|]. intros w Hw%Hcnt. by apply Hu2. }
      * intros w. rewrite Hl'. symmetry. apply Hcnt.
      * eapply same_out_trans; [exact Hmem'|]. eapply same_out_mono; [|exact Ho'].
        intros w. rewrite !elem_of_union, !elem_of_list_to_set. apply Hcnt.
    + intros s' l' T' Hv' Hc' He' Ho'. apply (Hgood s' l' T'); [done| | |].
      * intros w. rewrite Hcnt. apply Hc'.
      * intros p Hp. rewrite (He' p Hp), (Hmap p Hp). simpl.
        destruct ((kpage k <=? p) && (p <? kpage k + ksize k)) eqn:Ec.
        -- apply andb_true_iff in Ec as [?%Z.leb_le ?%Z.ltb_lt]. rewrite decide_True by lia.
           by rewrite (kentry_below _ _ p Hr) by lia.
        -- rewrite decide_False; [done|]. apply andb_false_iff in Ec as [?%Z.leb_gt|?%Z.ltb_ge]; lia.
      * eapply same_out_trans; [exact Hmem'|]. eapply same_out_mono; [|exact Ho'].
        intros w. rewrite !elem_of_union, !elem_of_list_to_set. apply Hcnt.
  - kstep. eapply (freevm_ok kend Hkend s1 [] pgdir T1); [done| |].
    + split; [intros p Hp Hpr|intros p q Hp _ Hpr]; by destruct (Hus1 p Hp).
    + intros s' l' Hk' Hl' Ho'. kstep.
      assert (El : ∀ w, w ∈ l' ↔ w ∈ new ++ [] ∨ w ∈ own pgdir T).
      { intros w. rewrite Hl', Hcnt. split; [|tauto].
        intros [?|[?|(q & Hq & Hpr & _)]]; [tauto|tauto|]. by destruct (Hus1 q Hq). }
      apply (Hbad s' l'); [done|done| |].
      2:{ exists (k_mem s1), T1. split; [apply Hv1|]. intros w Hw%Hcnt. destruct Hw as [[]%elem_of_nil|?]. done. }
      eapply same_out_trans; [exact Hmem'|]. eapply same_out_mono; [|exact Ho'].
      intros w. rewrite elem_of_union, !elem_of_list_to_set. apply El.
Qed.

(** The address space that [setupkvm] makes: the rows of [kmap] and nothing else. *)
Definition kernel_only (m : gmap Z Z) (T : gmap Z Z) : Prop :=
  ∀ p, 0 ≤ p < npages → entry m T p = default 0 (kentry (kmap kdata) p).

Lemma setupkvm_ok s l (Q : Z → kst → Prop) :
  kinv kend s l →
  (∀ s' l', kinv kend s' l' → (∀ w, w ∈ l' ↔ w ∈ l) → same_out (list_to_set l) (k_mem s) (k_mem s') →
     Z.of_nat (length l) ≤ 1026 → Q 0 s') →
  (∀ d s' l' T', d ≠ 0 → vinv s' l' d T' → (∀ w, w ∈ l ↔ w ∈ l' ∨ w ∈ own d T') → kernel_only (k_mem s') T' →
     same_out (list_to_set l) (k_mem s) (k_mem s') → Q d s') →
  runs (setupkvm kend kdata) Q s.
Proof.
  intros Hk Hbad Hgood. unfold setupkvm, mem_mod. kstep.
  eapply kalloc_ok; [done|intros ->; simpl; kstep; by eapply Hbad|].
  intros v l1 s1 -> Hv0 Hk1 _ Em1. pose proof Hv0 as Hv0'. apply Z.eqb_neq in Hv0'. rewrite Hv0'. kstep. kstep. kstep.
  kstep; [done|]. rewrite Em1. set (m1 := memset (k_mem s) v 0 PGSIZE).
  destruct (kinv_chain _ _ _ Hk) as (_ & Hpg & _). pose proof (kinv_nodup _ _ _ Hk) as [Hvl _]%NoDup_cons.
  assert (Ho1 : same_out {[v]} (k_mem s) m1) by apply same_out_memset.
  assert (Hz : ∀ i, 0 ≤ i < NPDENTRIES → ld32 m1 (v + 4 * i) = 0).
  { intros i Hi. unfold NPDENTRIES in Hi. unfold ld32, m1. rewrite !rd_memset by done. unfold PGSIZE.
    bdestruct_all; simpl; try done; lia. }
  assert (Hown : own v ∅ = {[v]}) by (unfold own; rewrite map_img_empty_L; set_solver).
  assert (Hv1 : vinv (set_kmem m1 s1) l1 v ∅).
  { split; simpl.
    - eapply (kinv_out kend {[v]}); [done|apply mem_ok_memset, Hk|by rewrite Em1|set_solver].
    - split; [done|done| |done]. intros i Hi _. rewrite Hz by done. apply not_present_0.
    - intros w Hw. rewrite Hown. set_solver. }
  eapply (setup_loop_ok _ (2 ^ 19) _ l1 v ∅); [done|done|apply kmap_rows| | | |].
  - intros p _. apply not_present_0.
  - intros p _. apply not_present_0.
  - rewrite Hown. intros s' l' Hk' Hl' Ho' (m2 & T2 & Hp2 & Hu2). apply (Hbad s' l'); [done| | |].
    3:{ apply (few_pages kend m2 v T2 v (λ q, q) 0 0); [done|apply Hk|done|]. rewrite Hown in Hu2.
        intros w [-> |Hw]%elem_of_cons; [by left|right; left]. apply Hu2. by left. }
    + intros w. rewrite Hl', elem_of_singleton, elem_of_cons. tauto.
    + eapply same_out_trans; [eapply same_out_mono; [|exact Ho1]|eapply same_out_mono; [|exact Ho']];
        rewrite list_to_set_cons; set_solver.
  - rewrite Hown. intros s' l' T' Hv' Hc' He' Ho'. eapply (Hgood v s' l' T'); [done|done| |done|].
    + intros w. rewrite <- Hc', elem_of_singleton, elem_of_cons. tauto.
    + eapply same_out_trans; [eapply same_out_mono; [|exact Ho1]|eapply same_out_mono; [|exact Ho']];
        rewrite list_to_set_cons; set_solver.
Qed.

(** ** [copyuvm] *)

Section copy.
(** The parent, its memory [m0] and the free pages [l0] when [fork] starts. *)
Context (pg sz : Z) (Tp m0 : gmap Z Z) (l0 : list Z).
Context (Hsz : 0 ≤ sz ≤ KERNBASE) (Hpt : pt kend m0 pg Tp).
Context (Hfree : ∀ v, v ∈ l0 → page_ok kend v ∧ v ∉ own pg Tp).
Context (Hpages : ∀ q, 0 ≤ q < npg sz → present (entry m0 Tp q) ∧
  page_ok kend (frame (entry m0 Tp q)) ∧ frame (entry m0 Tp q) ∉ l0).

Definition par_flags (q : Z) : Z := PTE_FLAGS (entry m0 Tp q).
Definition par_byte (q o : Z) : Z := rd m0 (frame (entry m0 Tp q) + o).

(** The copy: the flags and the bytes of the parent, in pages that were free. *)
Record forked (d : Z) (s : kst) (l : list Z) (T : gmap Z Z) : Prop := {
  fk_inv : vinv s l d T;
  fk_user : user_ok (k_mem s) l d T 0 (2 ^ 19);
  fk_page q : 0 ≤ q < npg sz → let e := entry (k_mem s) T q in
    present e ∧ PTE_FLAGS e = par_flags q ∧ frame e ∈ l0 ∧
    ∀ o, 0 ≤ o < PGSIZE → rd (k_mem s) (frame e + o) = par_byte q o;
  fk_rest p : 0 ≤ p < npages → npg sz ≤ p → entry (k_mem s) T p = default 0 (kentry (kmap kdata) p);
  fk_count w : w ∈ l0 ↔ w ∈ l ∨ w ∈ own d T ∨ ∃ q, 0 ≤ q < npg sz ∧ w = frame (entry (k_mem s) T q);
  fk_mem : same_out (list_to_set l0) m0 (k_mem s)
}.

(** The child while it is copied, from the address space [T1] of [setupkvm]. *)
Context (d : Z) (s1 : kst) (l1 : list Z) (T1 : gmap Z Z).
Context (H1c : ∀ w, w ∈ l0 ↔ w ∈ l1 ∨ w ∈ own d T1) (H1k : kernel_only (k_mem s1) T1).
Context (H1m : same_out (list_to_set l0) m0 (k_mem s1)).

Notation copied := (allocated kend par_flags par_byte s1 l1 d T1 0).

Lemma copied_mem p s l T : copied p s l T → same_out (list_to_set l0) m0 (k_mem s).
Proof using All.
  intros Ha. eapply same_out_trans; [exact H1m|]. eapply same_out_mono; [|apply Ha].
  intros w. rewrite elem_of_union, !elem_of_list_to_set. apply H1c.
Qed.

Lemma copied_user p s l T :
  0 ≤ p ≤ 2 ^ 19 → copied p s l T →
  user_ok (k_mem s) l d T 0 (2 ^ 19) ∧ ∀ q, p ≤ q < 2 ^ 19 → entry (k_mem s) T q = 0.
Proof using All.
  intros Hp Ha. assert (HN : npages = 2 ^ 20) by done.
  assert (E : ∀ q, p ≤ q < 2 ^ 19 → entry (k_mem s) T q = 0).
  { intros q Hq. rewrite (ad_old _ _ _ _ _ _ _ _ _ _ _ _ Ha), H1k by lia.
    by rewrite (kentry_below _ _ q kmap_rows) by lia. }
  split; [|done]. eapply user_ok_extend; [apply Ha|]. intros q Hq. rewrite E by lia. apply not_present_0.
Qed.

(** Both failures: the whole copy is given back. *)
Lemma copy_undo p s l T (Q : Z → kst → Prop) :
  0 ≤ p ≤ 2 ^ 19 → p ≤ npg sz → copied p s l T → NoDup l0 → (∃ v, ∀ w, w ∈ l → w = v) →
  (∀ s' l', kinv kend s' l' → (∀ w, w ∈ l' ↔ w ∈ l0) → same_out (list_to_set l0) m0 (k_mem s') →
     Z.of_nat (length l0) ≤ 1026 + npg sz → Q 0 s') →
  runs (freevm kend d;; mret 0) Q s.
Proof using All.
  intros Hp Hpn Ha Hnd Hl1 HQ. destruct (copied_user p s l T Hp Ha) as [Hu E]. kstep.
  eapply (freevm_ok kend Hkend s l d T); [apply Ha|done|]. intros s' l' Hk Hl Ho. kstep.
  assert (El : ∀ w, w ∈ l' ↔ w ∈ l0).
  { intros w. rewrite Hl, H1c, (ad_count _ _ _ _ _ _ _ _ _ _ _ _ Ha). split.
    - intros [?|[?|(q & Hq & Hpr & ->)]]; [tauto|tauto|]. right. right. exists q. split; [|done].
      destruct (decide (p ≤ q)); [|lia]. rewrite E in Hpr by lia. by destruct not_present_0.
    - intros [?|[?|(q & Hq & ->)]]; [tauto|tauto|]. right. right. exists q. split_and!; [lia|lia| |done].
      apply (ad_new _ _ _ _ _ _ _ _ _ _ _ _ Ha q Hq). }
  apply (HQ s' l'); [done|done| |].
  2:{ destruct Hl1 as [v Hv].
      assert (Z.of_nat (length l0) ≤ 1026 + (p - 0)); [|lia].
      apply (few_pages kend (k_mem s) d T v (λ q, frame (entry (k_mem s) T q)) 0 p); [apply Ha|done|lia|].
      intros w Hw%H1c. rewrite (ad_count _ _ _ _ _ _ _ _ _ _ _ _ Ha) in Hw.
      destruct Hw as [Hw|Hw]; [left; auto|by right]. }
  eapply same_out_trans; [by eapply copied_mem|].
  eapply same_out_mono; [|exact Ho]. intros w. rewrite !elem_of_list_to_set. apply El.
Qed.

Lemma copy_fill v m src : mem_ok m → same_out {[v]} m (memmove m v src PGSIZE) ∧ mem_ok (memmove m v src PGSIZE).
Proof using All.
  intros Hm. split; [|by apply mem_ok_memmove]. intros b Hb. specialize (Hb v ltac:(set_solver)).
  rewrite rd_memmove by done. bdestruct_all; simpl; try done; lia.
Qed.

(** What the parent shows while the child is made. *)
Lemma parent_same s q :
  same_out (list_to_set l0) m0 (k_mem s) → 0 ≤ q < npg sz →
  pt kend (k_mem s) pg Tp ∧ entry (k_mem s) Tp q = entry m0 Tp q ∧ is_Some (Tp !! (q / NPTENTRIES)) ∧
  ∀ o, 0 ≤ o < PGSIZE → rd (k_mem s) (frame (entry m0 Tp q) + o) = par_byte q o.
Proof using All.
  intros Hm Hq. destruct (Hpages q Hq) as (Hpr & Hpg & Hfl).
  assert (Hl : ∀ v, v ∈ (list_to_set l0 : gset Z) → page_ok kend v ∧ v ∉ own pg Tp)
    by (intros v Hv%elem_of_list_to_set; by apply Hfree).
  split_and!.
  - by eapply pt_out.
  - by eapply entry_out.
  - destruct (Tp !! (q / NPTENTRIES)) eqn:E; [done|]. unfold entry in Hpr. rewrite E in Hpr. by destruct not_present_0.
  - intros o Ho. unfold par_byte. apply Hm. eapply out_of; [exact Hpg| |by rewrite elem_of_list_to_set|lia].
    intros w Hw. by apply Hl.
Qed.

Lemma par_flags_present q : 0 ≤ q < npg sz → par_flags q = Z.lor (par_flags q) PTE_P ∧ 0 ≤ par_flags q < PGSIZE.
Proof using All.
  intros Hq. destruct (Hpages q Hq) as (Hpr & _). unfold par_flags. rewrite PTE_FLAGS_eq.
  set (e := entry m0 Tp q) in *. split; [|by apply Z.mod_pos_bound].
  assert (Hb : Z.testbit (u32 e mod PGSIZE) 0 = true).
  { change PGSIZE with (2 ^ 12). unfold u32. rewrite !Z.mod_pow2_bits_low by lia. unfold present, PTE_P in Hpr.
    change 1 with (Z.ones 1) in Hpr. rewrite Z.land_ones in Hpr by lia. change (2 ^ 1) with 2 in Hpr.
    rewrite Z.bit0_eqb. pose proof (Z.mod_pos_bound e 2 ltac:(lia)). replace (e mod 2) with 1 by lia. done. }
  apply Z.bits_inj'. intros k Hk. rewrite Z.lor_spec. destruct (decide (k = 0)) as [-> |Hk0]; [by rewrite Hb|].
  replace (Z.testbit PTE_P k) with false; [by rewrite orb_false_r|]. symmetry. apply (Z.bits_above_log2 1 k); simpl; lia.
Qed.

Lemma copyuvm_loop_ok fuel : ∀ p s l T (Q : Z → kst → Prop),
  0 ≤ p ≤ npg sz → (Z.to_nat (npg sz - p) < fuel)%nat → copied p s l T → NoDup l0 →
  (∀ s' l', kinv kend s' l' → (∀ w, w ∈ l' ↔ w ∈ l0) → same_out (list_to_set l0) m0 (k_mem s') →
     Z.of_nat (length l0) ≤ 1026 + npg sz → Q 0 s') →
  (∀ s' l' T', forked d s' l' T' → Q d s') →
  runs (copyuvm_loop kend fuel pg d (PGSIZE * p) sz) Q s.
Proof using All.
  induction fuel as [|fuel IH]; intros p s l T Q Hp Hf Ha Hnd Hbad Hgood; [lia|].
  pose proof (npg_range sz Hsz) as Hn. pose proof (npg_lt p sz) as Hlt. assert (HN : npages = 2 ^ 20) by done.
  pose proof (copied_mem p s l T Ha) as Hm. cbn [copyuvm_loop].
  destruct (Z.ltb_spec (PGSIZE * p) sz) as [Hc|Hc].
  - destruct (parent_same s p Hm ltac:(lia)) as (Hpt' & Ee & [t Ht] & Hb). destruct (Hpages p ltac:(lia)) as (Hpr & _).
    destruct (par_flags_present p ltac:(lia)) as [Hfl Hflr].
    kstep. eapply walk_ok; [exact Hpt'|]. rewrite pgn_mul by lia.
    destruct (entry_at_pos _ _ _ _ p t Hpt' Ht ltac:(lia)) as [Ea Hne].
    kstep. kstep; [by apply negb_true_iff, Z.eqb_neq|]. unfold mem_ld at 1. kstep. kstep.
    assert (El : ld32 (k_mem s) (entry_at Tp p) = entry m0 Tp p) by (rewrite <- Ee; unfold entry; by rewrite Ht, Ea).
    rewrite El. kstep. kstep; [by apply negb_true_iff, Z.eqb_neq|].
    fold (frame (entry m0 Tp p)). fold (par_flags p).
    destruct (copied_user p s l T ltac:(lia) Ha) as [_ Ez].
    eapply (add_page kend Hkend s l d T p (par_flags p) (λ v m, memmove m v (frame (entry m0 Tp p)) PGSIZE));
      [apply Ha|lia|done| |intros v m Hm'; by apply copy_fill| | |].
    + rewrite Ez by lia. apply not_present_0.
    + intros ->. eapply copy_undo; [| |exact Ha|done| |done]; [lia|lia|]. exists 0. by intros w ?%elem_of_nil.
    + intros v s' T' Hpg. kstep. eapply allocated_back; [..|exact Ha|exact Hpg|]; try done; try lia.
      intros s3 Ha3. eapply copy_undo; [| |exact Ha3|done| |done]; [lia|lia|]. exists v. by intros w ?%list_elem_of_singleton.
    + intros v s' l' T' Hpg. rewrite u32_small by (unfold PGSIZE; lia).
      replace (PGSIZE * p + PGSIZE) with (PGSIZE * (p + 1)) by lia.
      apply (IH (p + 1) s' l' T'); [lia|lia| |done|done|done].
      eapply allocated_step; [done|lia|lia|done|exact Hfl| |exact Ha|exact Hpg].
      intros o Ho. rewrite rd_memmove; [|apply (kinv_mem _ _ _ (vi_k _ _ _ _ _ (ad_inv _ _ _ _ _ _ _ _ _ _ _ _ Ha)))|done].
      rewrite <- Hb by done. bdestruct_all; simpl; try lia. f_equal. lia.
  - kstep. replace p with (npg sz) in Ha by (destruct (decide (p < npg sz)) as [Hd%Hlt|]; lia).
    destruct (copied_user (npg sz) s l T ltac:(lia) Ha) as [Hu Ez].
    apply (Hgood s l T). split; [apply Ha|done| | | |done].
    + intros q Hq. destruct (ad_new _ _ _ _ _ _ _ _ _ _ _ _ Ha q Hq) as (? & ? & ? & ?).
      split_and!; try done. apply H1c. by left.
    + intros q Hq Hge. rewrite (ad_old _ _ _ _ _ _ _ _ _ _ _ _ Ha), H1k by lia. done.
    + intros w. rewrite H1c. apply (ad_count _ _ _ _ _ _ _ _ _ _ _ _ Ha).
Qed.

End copy.

Lemma copyuvm_ok s l pg sz Tp (Q : Z → kst → Prop) :
  kinv kend s l → pt kend (k_mem s) pg Tp → 0 ≤ sz ≤ KERNBASE → (∀ v, v ∈ l → v ∉ own pg Tp) →
  (∀ q, 0 ≤ q < npg sz → present (entry (k_mem s) Tp q) ∧
     page_ok kend (frame (entry (k_mem s) Tp q)) ∧ frame (entry (k_mem s) Tp q) ∉ l) →
  (∀ s' l', kinv kend s' l' → (∀ w, w ∈ l' ↔ w ∈ l) → same_out (list_to_set l) (k_mem s) (k_mem s') →
     Z.of_nat (length l) ≤ 1026 + npg sz → Q 0 s') →
  (∀ d s' l' T', d ≠ 0 → forked sz Tp (k_mem s) l d s' l' T' → Q d s') →
  runs (copyuvm kend kdata pg sz) Q s.
Proof.
  intros Hk Hpt Hsz Hdis Hpages Hbad Hgood. unfold copyuvm. kstep. pose proof (npg_range sz Hsz).
  assert (Hfree : ∀ v, v ∈ l → page_ok kend v ∧ v ∉ own pg Tp).
  { intros v Hv. split; [|by apply Hdis]. eapply Forall_forall; [eapply chain_pages, Hk|done]. }
  eapply setupkvm_ok; [done| |].
  - intros s' l' H1 H2 H3 H4. simpl. kstep. apply (Hbad s' l'); [done|done|done|lia].
  - intros d s1 l1 T1 Hd Hv1 Hc1 Hk1 Hm1. pose proof Hd as Hd'. apply Z.eqb_neq in Hd. rewrite Hd.
    pose proof (npg_fuel sz ltac:(lia)). change 0 with (PGSIZE * 0) at 1.
    eapply (copyuvm_loop_ok pg sz Tp (k_mem s) l Hsz Hpt Hfree Hpages d s1 l1 T1 Hc1 Hk1 Hm1);
      [lia|lia|by apply allocated_refl|apply Hk|done|].
    intros s' l' T' Hf. by eapply Hgood.
Qed.

End fork.
