(* ===== verification/VmCopy.v ===== *)
(** * Virtual memory: copying to user space

    [uva2ka] and [copyout] of [xv6/vm.c]: bytes go to the pages that the page table
    maps for user mode, and to nothing else. *)

From S2P Require Import Prelude Str Mmu Kalloc Vm VmSpec.

(** The page may be used in user mode. *)
Definition accessible (e : Z) : bool := negb (Z.land e PTE_P =? 0) && negb (Z.land e PTE_U =? 0).

(** The kernel address of user address [va]. *)
Definition ka (m T : gmap Z Z) (va : Z) : Z := frame (entry m T (va / PGSIZE)) + va mod PGSIZE.

Section copyout.
Context (kend : Z).

(** A user range [va, va + len): its accessible pages are pages of this process only.
    For a page without a page table [uva2ka] follows a null pointer and takes the word
    at address 0 for the entry, so where there is such a page that word must not look
    like the entry of a user page. *)
Record urange (m : gmap Z Z) (pgdir : Z) (T : gmap Z Z) (va len : Z) : Prop := {
  ur_bound : 0 ≤ va ∧ va + len ≤ KERNBASE;
  ur_tab q : va / PGSIZE ≤ q < npg (va + len) → is_Some (T !! (q / NPTENTRIES)) ∨ accessible (ld32 m 0) = false;
  ur_page q : va / PGSIZE ≤ q < npg (va + len) → accessible (entry m T q) = true →
    page_ok kend (frame (entry m T q)) ∧ frame (entry m T q) ∉ own pgdir T;
  ur_inj q q' : va / PGSIZE ≤ q < npg (va + len) → va / PGSIZE ≤ q' < npg (va + len) →
    accessible (entry m T q) = true → accessible (entry m T q') = true →
    frame (entry m T q) = frame (entry m T q') → q = q'
}.

(** The source buffer is not in the pages written to. *)
Definition apart (m T : gmap Z Z) (va len buf : Z) : Prop :=
  ∀ q b, va / PGSIZE ≤ q < npg (va + len) → accessible (entry m T q) = true → buf ≤ b < buf + len →
    b < frame (entry m T q) ∨ frame (entry m T q) + PGSIZE ≤ b.

(** [k] bytes were copied. *)
Record copied (m T : gmap Z Z) (va buf k : Z) (m' : gmap Z Z) : Prop := {
  cp_user i : 0 ≤ i < k → accessible (entry m T ((va + i) / PGSIZE)) = true;
  cp_data i : 0 ≤ i < k → rd m' (ka m T (va + i)) = rd m (buf + i);
  cp_frame b : (∀ i, 0 ≤ i < k → b ≠ ka m T (va + i)) → rd m' b = rd m b
}.

Lemma uva2ka_ok s pgdir T va (Q : Z → kst → Prop) :
  pt kend (k_mem s) pgdir T → is_Some (T !! (pgn va / NPTENTRIES)) ∨ accessible (ld32 (k_mem s) 0) = false →
  (let e := entry (k_mem s) T (pgn va) in Q (if accessible e then frame e else 0) s) →
  runs (uva2ka pgdir va) Q s.
Proof.
  intros Hp Hor HQ. unfold uva2ka. kstep. eapply walk_ok; [exact Hp|]. unfold mem_ld. kstep. kstep. cbv zeta in HQ.
  destruct (T !! (pgn va / NPTENTRIES)) as [t|] eqn:Ht.
  2:{ destruct Hor as [[? ?]|Ha]; [done|]. unfold entry in HQ. rewrite Ht in HQ. change (accessible 0) with false in HQ.
      unfold entry_at. rewrite Ht. unfold accessible in Ha.
      destruct (Z.land _ PTE_P =? 0); [by kstep|]. destruct (Z.land _ PTE_U =? 0); [by kstep|done]. }
  destruct (entry_at_pos _ _ _ _ _ t Hp Ht (pgn_range va)) as [Ea _].
  replace (ld32 (k_mem s) (entry_at T (pgn va))) with (entry (k_mem s) T (pgn va)) by (unfold entry; by rewrite Ht, Ea).
  unfold accessible, frame in HQ.
  destruct (Z.land _ PTE_P =? 0); [by kstep|]. destruct (Z.land _ PTE_U =? 0); by kstep.
Qed.

(** The part of the page of [va] that a round copies. *)
Section round.
Context (s : kst) (pgdir : Z) (T : gmap Z Z) (va buf len : Z).
Context (Hm : mem_ok (k_mem s)) (Hpt : pt kend (k_mem s) pgdir T).
Context (Hur : urange (k_mem s) pgdir T va len) (Hap : apart (k_mem s) T va len buf) (Hlen : 0 < len).

Let q := va / PGSIZE.
Let e := entry (k_mem s) T q.
Let n := Z.min len (PGSIZE - va mod PGSIZE).
Let m' := memmove (k_mem s) (frame e + va mod PGSIZE) buf n.
Context (Hacc : accessible e = true).

Lemma round_q : q < npg (va + len) ∧ 0 ≤ va mod PGSIZE < PGSIZE ∧ va = PGSIZE * q + va mod PGSIZE ∧ 0 < n ≤ PGSIZE.
Proof using All.
  assert (HG : PGSIZE = 4096) by done. pose proof (Z.mod_pos_bound va PGSIZE ltac:(lia)).
  pose proof (Z.div_mod va PGSIZE ltac:(lia)) as E. fold q in E. split_and!; [|lia|lia|lia|unfold n; lia|unfold n; lia].
  apply npg_lt. lia.
Qed.

Lemma round_div i : 0 ≤ i < n → (va + i) / PGSIZE = q ∧ (va + i) mod PGSIZE = va mod PGSIZE + i.
Proof using All.
  intros Hi. destruct round_q as (_ & Hr & E & Hn). assert (HG : PGSIZE = 4096) by done.
  assert (Hri : 0 ≤ va mod PGSIZE + i < PGSIZE) by (unfold n in *; lia).
  split; symmetry; [apply (Z.div_unique _ _ _ (va mod PGSIZE + i))|apply (Z.mod_unique _ _ q)]; lia.
Qed.

Lemma round_page : page_ok kend (frame e) ∧ frame e ∉ own pgdir T.
Proof using All. destruct round_q as (Hq & _). apply (ur_page _ _ _ _ _ Hur q); [fold q; lia|done]. Qed.

Lemma round_out : same_out {[frame e]} (k_mem s) m'.
Proof using All.
  intros b Hb. specialize (Hb (frame e) ltac:(set_solver)). destruct round_q as (_ & Hr & _ & Hn).
  unfold m'. rewrite rd_memmove by (done || lia). unfold n in *. bdestruct_all; simpl; try done; lia.
Qed.

Lemma round_entry p : entry m' T p = entry (k_mem s) T p.
Proof using All. destruct round_page. eapply entry_out; [exact Hpt|apply round_out|set_solver]. Qed.

Lemma round_copied : copied (k_mem s) T va buf n m'.
Proof using All.
  destruct round_q as (_ & Hr & _ & Hn). split.
  - intros i Hi. by destruct (round_div i Hi) as [-> _].
  - intros i Hi. unfold ka. destruct (round_div i Hi) as [-> ->]. fold e. unfold m'.
    rewrite rd_memmove by (done || lia). bdestruct_all; simpl; try lia. f_equal. lia.
  - intros b Hb. unfold m'. rewrite rd_memmove by (done || lia).
    destruct ((frame e + va mod PGSIZE <=? b) && (b <? frame e + va mod PGSIZE + n)) eqn:Ec; [|done].
    apply andb_true_iff in Ec as [?%Z.leb_le ?%Z.ltb_lt]. exfalso.
    apply (Hb (b - (frame e + va mod PGSIZE))); [lia|]. unfold ka.
    destruct (round_div (b - (frame e + va mod PGSIZE)) ltac:(lia)) as [-> ->]. fold e. lia.
Qed.

(** The low addresses are not written. *)
Lemma round_low : ld32 m' 0 = ld32 (k_mem s) 0.
Proof using All.
  apply ld32_ext. intros b Hb. apply round_out. intros p ->%elem_of_singleton.
  destruct round_page as [(_ & _ & Hk) _]. unfold KERNBASE in Hk. lia.
Qed.

(** The rest of the range is as before. *)
Lemma round_rest : n < len → va + n = PGSIZE * (q + 1) ∧ (va + n) / PGSIZE = q + 1 ∧
  urange m' pgdir T (va + n) (len - n) ∧ apart m' T (va + n) (len - n) (buf + n).
Proof using All.
  intros Hlt. destruct round_q as (Hq & Hr & E & Hn). assert (HG : PGSIZE = 4096) by done.
  assert (Eva : va + n = PGSIZE * (q + 1)) by (unfold n in *; lia).
  assert (Eq : (va + n) / PGSIZE = q + 1) by (rewrite Eva, Z.mul_comm; by apply Z.div_mul).
  assert (El : va + n + (len - n) = va + len) by lia.
  split_and!; [done|done| |].
  - destruct Hur as [H1 H2 H3 H4]. split; rewrite ?Eq, ?El.
    + lia.
    + intros p Hp. rewrite round_low. apply H2. fold q. lia.
    + intros p Hp. rewrite !round_entry. apply H3. fold q. lia.
    + intros p p' Hp Hp'. rewrite !round_entry. apply H4; fold q; lia.
  - intros p b. rewrite Eq, El, !round_entry. intros Hp Ha Hb. apply (Hap p b); [fold q; lia|done|lia].
Qed.

(** A byte of another page of the range, and of the buffer, is not written. *)
Lemma round_other k m2 :
  n < len → 0 ≤ k ≤ len - n → copied m' T (va + n) (buf + n) k m2 → copied (k_mem s) T va buf (n + k) m2.
Proof using All.
  intros Hlt Hk Hc. destruct (round_rest Hlt) as (Eva & Eq & Hur2 & _). destruct round_q as (Hq & Hr & E & Hn).
  pose proof round_copied as Hc1. assert (HG : PGSIZE = 4096) by done.
  assert (Eka : ∀ a, ka m' T a = ka (k_mem s) T a) by (intros a; unfold ka; by rewrite round_entry).
  assert (Hpage : ∀ i, 0 ≤ i < k → q + 1 ≤ (va + n + i) / PGSIZE < npg (va + len) ∧
            accessible (entry (k_mem s) T ((va + n + i) / PGSIZE)) = true ∧
            frame (entry (k_mem s) T ((va + n + i) / PGSIZE)) ≤ ka (k_mem s) T (va + n + i)
              < frame (entry (k_mem s) T ((va + n + i) / PGSIZE)) + PGSIZE).
  { intros i Hi. split_and!.
    - rewrite <- Eq. apply Z.div_le_mono; lia.
    - apply npg_lt. pose proof (Z.mul_div_le (va + n + i) PGSIZE ltac:(lia)). lia.
    - rewrite <- round_entry. by apply (cp_user _ _ _ _ _ _ Hc).
    - unfold ka. pose proof (Z.mod_pos_bound (va + n + i) PGSIZE ltac:(lia)). lia.
    - unfold ka. pose proof (Z.mod_pos_bound (va + n + i) PGSIZE ltac:(lia)). lia. }
  assert (Hsep : ∀ i b, 0 ≤ i < k → frame e ≤ b < frame e + PGSIZE → b ≠ ka (k_mem s) T (va + n + i)).
  { intros i b Hi Hb ->. destruct (Hpage i Hi) as (Hp & Ha & Hka).
    destruct (ur_page _ _ _ _ _ Hur ((va + n + i) / PGSIZE) ltac:(fold q; lia) Ha) as [Hpg' _].
    assert (frame e ≠ frame (entry (k_mem s) T ((va + n + i) / PGSIZE))) as Hne.
    { intros Ef. apply (ur_inj _ _ _ _ _ Hur) in Ef; [lia|fold q; lia|fold q; lia|done|done]. }
    destruct (pages_disjoint kend _ _ (proj1 round_page) Hpg' Hne); lia. }
  split.
  - intros i Hi. destruct (decide (i < n)); [apply (cp_user _ _ _ _ _ _ Hc1); lia|].
    replace (va + i) with (va + n + (i - n)) by lia. apply Hpage. lia.
  - intros i Hi. destruct (decide (i < n)).
    + rewrite <- (cp_data _ _ _ _ _ _ Hc1 i) by lia. apply (cp_frame _ _ _ _ _ _ Hc). intros j Hj. rewrite Eka.
      apply Hsep; [done|]. unfold ka. destruct (round_div i ltac:(lia)) as [-> ->]. fold e. unfold n in *. lia.
    + replace (va + i) with (va + n + (i - n)) by lia. rewrite <- Eka, (cp_data _ _ _ _ _ _ Hc) by lia.
      replace (buf + n + (i - n)) with (buf + i) by lia. apply round_out.
      intros w ->%elem_of_singleton. apply (Hap q); [fold q; lia|done|lia].
  - intros b Hb. rewrite (cp_frame _ _ _ _ _ _ Hc), (cp_frame _ _ _ _ _ _ Hc1); [done| |].
    + intros i Hi. apply Hb. lia.
    + intros i Hi. rewrite Eka. replace (va + n + i) with (va + (n + i)) by lia. apply Hb. lia.
Qed.
End round.

Lemma copied_none m T va buf : copied m T va buf 0 m.
Proof. split; intros; [lia|lia|done]. Qed.

Lemma copyout_loop_ok fuel : ∀ s pgdir T va buf len (Q : Z → kst → Prop),
  mem_ok (k_mem s) → pt kend (k_mem s) pgdir T → urange (k_mem s) pgdir T va len → apart (k_mem s) T va len buf →
  0 ≤ len → (Z.to_nat (npg (va + len) - va / PGSIZE) < fuel)%nat →
  (∀ r k m', copied (k_mem s) T va buf k m' →
     r = 0 ∧ k = len ∨ r = -1 ∧ 0 ≤ k < len ∧ accessible (entry (k_mem s) T ((va + k) / PGSIZE)) = false →
     Q r (set_kmem m' s)) →
  runs (copyout_loop fuel pgdir va buf len) Q s.
Proof.
  induction fuel as [|fuel IH]; intros s pgdir T va buf len Q Hm Hpt Hur Hap Hlen Hf HQ; [lia|].
  cbn [copyout_loop]. assert (HG : PGSIZE = 4096) by done.
  assert (Es : set_kmem (k_mem s) s = s) by (by destruct s).
  destruct (Z.ltb_spec 0 len) as [Hpos|Hz].
  2:{ kstep. rewrite <- Es. apply (HQ 0 0); [apply copied_none|left; lia]. }
  destruct (ur_bound _ _ _ _ _ Hur) as [Hva Hb]. unfold KERNBASE in Hb.
  pose proof (Z.mod_pos_bound va PGSIZE ltac:(lia)) as Hmod. pose proof (Z.div_mod va PGSIZE ltac:(lia)) as Hdm.
  rewrite PGROUNDDOWN_eq. replace (va - (va - va mod PGSIZE)) with (va mod PGSIZE) by lia.
  assert (Epg : pgn (va - va mod PGSIZE) = va / PGSIZE).
  { unfold pgn. rewrite u32_small by lia. replace (va - va mod PGSIZE) with (va / PGSIZE * PGSIZE) by lia. by apply Z.div_mul. }
  assert (Hq : va / PGSIZE < npg (va + len)) by (apply npg_lt; lia).
  kstep. eapply uva2ka_ok; [exact Hpt|rewrite Epg; apply (ur_tab _ _ _ _ _ Hur); lia|]. rewrite Epg. cbv zeta.
  destruct (accessible (entry (k_mem s) T (va / PGSIZE))) eqn:Hacc.
  2:{ simpl. kstep. rewrite <- Es. apply (HQ (-1) 0); [apply copied_none|].
      right. split_and!; [done|lia|lia|]. by rewrite Z.add_0_r. }
  destruct (ur_page _ _ _ _ _ Hur (va / PGSIZE) ltac:(lia) Hacc) as [Hpg Hno].
  destruct (page_ok_pos _ _ Hpg) as [Hne _]. apply Z.eqb_neq in Hne. rewrite Hne. unfold mem_mod. kstep. kstep.
  replace (if len <? PGSIZE - va mod PGSIZE then len else PGSIZE - va mod PGSIZE)
    with (Z.min len (PGSIZE - va mod PGSIZE)) by (bdestruct_all; lia).
  set (n := Z.min len (PGSIZE - va mod PGSIZE)). set (m' := memmove _ _ _ _).
  assert (Hm' : mem_ok m') by (by apply mem_ok_memmove).
  assert (Hpt' : pt kend m' pgdir T).
  { eapply pt_out; [exact Hpt|by apply (round_out s pgdir T va buf len)|]. set_solver. }
  assert (Hc1 : copied (k_mem s) T va buf n m') by (by apply (round_copied s pgdir T va buf len)).
  destruct (decide (n < len)) as [Hlt|Hge].
  - destruct (round_rest s pgdir T va buf len Hm Hpt Hur Hap Hpos Hacc Hlt) as (Eva & Eq & Hur' & Hap').
    fold n in Eva, Eq, Hur', Hap'. fold m' in Hur', Hap'.
    replace (u32 (va - va mod PGSIZE + PGSIZE)) with (va + n) by (rewrite u32_small by lia; lia).
    eapply (IH (set_kmem m' s) pgdir T); [done|done|done|done|lia| |].
    { replace (va + n + (len - n)) with (va + len) by lia. rewrite Eq. lia. }
    intros r k m2 Hc2 Hr. change (set_kmem m2 (set_kmem m' s)) with (set_kmem m2 s). apply (HQ r (n + k)).
    + apply (round_other s pgdir T va buf len); try done. destruct Hr as [[_ ->]|(_ & ? & _)]; fold n; lia.
    + destruct Hr as [[-> ->]|(-> & Hk & Ha)]; [left; lia|right]. split_and!; [done|lia|lia|].
      rewrite <- Ha. simpl. unfold m', n. rewrite (round_entry s pgdir T va buf len) by done. by rewrite Z.add_assoc.
  - replace (len - n) with 0 by (unfold n in *; lia). destruct fuel as [|fuel]; [lia|]. cbn [copyout_loop]. change (0 <? 0) with false. cbv iota. kstep.
    apply (HQ 0 n); [done|left; unfold n in *; lia].
Qed.

Lemma copyout_ok s pgdir T va buf len (Q : Z → kst → Prop) :
  mem_ok (k_mem s) → pt kend (k_mem s) pgdir T → urange (k_mem s) pgdir T va len → apart (k_mem s) T va len buf → 0 ≤ len →
  (∀ r k m', copied (k_mem s) T va buf k m' →
     r = 0 ∧ k = len ∨ r = -1 ∧ 0 ≤ k < len ∧ accessible (entry (k_mem s) T ((va + k) / PGSIZE)) = false →
     Q r (set_kmem m' s)) →
  runs (copyout pgdir va buf len) Q s.
Proof.
  intros Hm Hpt Hur Hap Hlen HQ. unfold copyout. pose proof (proj1 (ur_bound _ _ _ _ _ Hur)) as Hva.
  eapply copyout_loop_ok; [done..| |done]. unfold page_fuel, npg, PGSIZE.
  assert ((va + len + 4096 - 1) / 4096 ≤ va / 4096 + len / 4096 + 2); [|assert (0 ≤ len / 4096) by (apply Z.div_pos; lia); lia].
  pose proof (Z.div_mod va 4096 ltac:(lia)). pose proof (Z.mod_pos_bound va 4096 ltac:(lia)).
  pose proof (Z.div_mod len 4096 ltac:(lia)). pose proof (Z.mod_pos_bound len 4096 ltac:(lia)).
  apply Z.lt_succ_r, Z.div_lt_upper_bound; lia.
Qed.

End copyout.
