(* ===== verification/VmProps.v ===== *)
(** * Virtual memory: what it promises

    The properties of [xv6/vm.c] on any state of the page allocator, and their
    instances on small machines. *)

From S2P Require Import Prelude Str Mmu Kalloc Vm VmSpec VmUser VmFork VmCopy.

(** ** The kernel's own mappings *)

Lemma entry_form x perm :
  0 ≤ x < 2 ^ 20 → perm = 0 ∨ perm = PTE_W →
  let e := Z.lor (Z.lor (x * PGSIZE) perm) PTE_P in
  present e ∧ PTE_ADDR e = PGSIZE * x ∧ Z.land e PTE_U = 0 ∧ Z.land e PTE_W = perm.
Proof.
  intros Hx Hperm. cbv zeta. rewrite <- Z.lor_assoc. change PGSIZE with (2 ^ 12).
  assert (Hl : ∀ f c, 0 ≤ c < 2 ^ 12 → Z.land (Z.lor (x * 2 ^ 12) f) c = Z.land f c).
  { intros f c Hc. by rewrite Z.land_lor_distr_l, land_low, Z.lor_0_l by lia. }
  assert (Ha : ∀ f, 0 ≤ f < 2 ^ 12 → PTE_ADDR (Z.lor (x * 2 ^ 12) f) = 2 ^ 12 * x).
  { intros f Hf. rewrite lor_add, PTE_ADDR_eq, u32_small by lia. change PGSIZE with (2 ^ 12).
    rewrite Z.add_comm, Z.mod_add, Z.mod_small by lia. lia. }
  unfold present. destruct Hperm as [-> | ->]; rewrite !Hl, Ha by done; done.
Qed.

(** What [setupkvm] puts in the page table: physical memory at [KERNBASE], not for
    user mode, with the kernel's text not writable, and nothing below [KERNBASE]. *)
Definition kernel_half (kdata : Z) (m T : gmap Z Z) : Prop :=
  (∀ p, 0 ≤ p < 2 ^ 19 → ¬ present (entry m T p)) ∧
  ∀ p, 2 ^ 19 ≤ p < 2 ^ 19 + PHYSTOP / PGSIZE → let e := entry m T p in
    present e ∧ PTE_ADDR e = PGSIZE * (p - 2 ^ 19) ∧ Z.land e PTE_U = 0 ∧
    (Z.land e PTE_W = 0 ↔ KERNLINK ≤ PGSIZE * p < kdata).

Lemma kernel_only_half kdata m T :
  KERNLINK < kdata < KERNBASE + PHYSTOP → kdata mod PGSIZE = 0 → kernel_only kdata m T → kernel_half kdata m T.
Proof.
  intros Hd Hal Hk. assert (HN : npages = 2 ^ 20) by done.
  pose proof (kmap_rows kdata Hd Hal) as Hrows. split.
  { intros p Hp. rewrite Hk by lia. rewrite (kentry_below _ _ p Hrows) by lia. apply not_present_0. }
  change (PHYSTOP / PGSIZE) with 57344. intros p Hp. rewrite Hk by lia.
  apply Z.mod_divide in Hal as [q Hq]; [|done].
  unfold KERNLINK, KERNBASE, EXTMEM, PHYSTOP, PGSIZE in Hd, Hq.
  assert (EV : V2P kdata = (q - 2 ^ 19) * 4096) by (rewrite V2P_eq; unfold KERNBASE; lia).
  cbn [kmap kentry]. unfold kpage, ksize. cbn [km_virt km_phys_start km_phys_end km_perm].
  change (V2P KERNLINK) with (256 * PGSIZE). rewrite EV, Hq.
  change (u32 (EXTMEM - 0) / PGSIZE) with 256. change (KERNBASE / PGSIZE) with (2 ^ 19).
  change (KERNLINK / PGSIZE) with (2 ^ 19 + 256). unfold KERNLINK, KERNBASE, EXTMEM, PHYSTOP, PGSIZE.
  rewrite (u32_small ((q - 2 ^ 19) * 4096 - 256 * 4096)), (u32_small (0xE000000 - (q - 2 ^ 19) * 4096)) by lia.
  replace ((q - 2 ^ 19) * 4096 - 256 * 4096) with ((q - 2 ^ 19 - 256) * 4096) by lia.
  replace (0xE000000 - (q - 2 ^ 19) * 4096) with ((57344 - (q - 2 ^ 19)) * 4096) by lia.
  rewrite !Z.div_mul by lia.
  destruct (decide (p < 2 ^ 19 + 256)) as [H1|H1]; [|destruct (decide (p < q)) as [H2|H2]].
  - replace ((2 ^ 19 <=? p) && (p <? 2 ^ 19 + 256)) with true by (bdestruct_all; simpl; try done; lia).
    replace (0 + 4096 * (p - 2 ^ 19)) with ((p - 2 ^ 19) * PGSIZE) by (unfold PGSIZE; lia).
    destruct (entry_form (p - 2 ^ 19) PTE_W) as (A & B & C & D); [lia|by right|].
    simpl default. rewrite D. split_and!; [done|done|done|]. split; [done|lia].
  - replace ((2 ^ 19 <=? p) && (p <? 2 ^ 19 + 256)) with false by (bdestruct_all; simpl; try done; lia).
    replace ((2 ^ 19 + 256 <=? p) && _) with true by (bdestruct_all; simpl; try done; lia).
    replace (256 * 4096 + 4096 * (p - (2 ^ 19 + 256))) with ((p - 2 ^ 19) * PGSIZE) by (unfold PGSIZE; lia).
    destruct (entry_form (p - 2 ^ 19) 0) as (A & B & C & D); [lia|by left|].
    simpl default. rewrite D. split_and!; [done|done|done|]. split; [lia|done].
  - replace ((2 ^ 19 <=? p) && (p <? 2 ^ 19 + 256)) with false by (bdestruct_all; simpl; try done; lia).
    replace ((2 ^ 19 + 256 <=? p) && (p <? 2 ^ 19 + 256 + (q - 2 ^ 19 - 256))) with false by (bdestruct_all; simpl; try done; lia).
    replace ((q <=? p) && _) with true by (bdestruct_all; simpl; try done; lia).
    replace ((q - 2 ^ 19) * 4096 + 4096 * (p - q)) with ((p - 2 ^ 19) * PGSIZE) by (unfold PGSIZE; lia).
    destruct (entry_form (p - 2 ^ 19) PTE_W) as (A & B & C & D); [lia|by right|].
    simpl default. rewrite D. split_and!; [done|done|done|]. split; [done|lia].
Qed.

Section properties.
Context (kend kdata : Z) (Hkend : KERNBASE < kend).
Context (Hdata : KERNLINK < kdata < KERNBASE + PHYSTOP) (Halign : kdata mod PGSIZE = 0).

(** C12. [copyuvm] gives the child its own copy of the parent's memory: every page of
    the parent is at the same address of the child with the same flags and the same
    bytes, in a page that was free; nothing but free pages was written, so the parent
    is as before.  It returns 0 only when memory ran out, and then every page it took
    is free again. *)
Theorem copyuvm_copies_or_gives_back s l pg sz Tp :
  kinv kend s l → pt kend (k_mem s) pg Tp → 0 ≤ sz ≤ KERNBASE → (∀ v, v ∈ l → v ∉ own pg Tp) →
  (∀ q, 0 ≤ q < npg sz → present (entry (k_mem s) Tp q) ∧
     page_ok kend (frame (entry (k_mem s) Tp q)) ∧ frame (entry (k_mem s) Tp q) ∉ l) →
  runs (copyuvm kend kdata pg sz)
    (λ d s', d = 0 ∧ Z.of_nat (length l) ≤ 1026 + npg sz ∧
       (∃ l', kinv kend s' l' ∧ (∀ w, w ∈ l' ↔ w ∈ l) ∧ same_out (list_to_set l) (k_mem s) (k_mem s')) ∨
       d ≠ 0 ∧ ∃ l' T', forked kend kdata sz Tp (k_mem s) l d s' l' T') s.
Proof.
  intros ? ? ? ? ?. eapply copyuvm_ok; try done.
  - intros s' l' A1 A2 A3 A4. left. split_and!; [done|done|]. by exists l'.
  - intros d s' l' T' A1 A2. right. split; [done|]. by exists l', T'.
Qed.

(** C13. [allocuvm] grows a process or leaves it as it was: either every page between
    the sizes is mapped to a page of its own, writable for user mode and zeroed, and
    no other mapping changed; or it returns 0, which happens only when memory ran
    out, and the pages it took are free again or page tables. *)
Theorem allocuvm_all_or_nothing s l pgdir T oldsz newsz :
  vinv kend s l pgdir T → 0 ≤ oldsz ≤ newsz → newsz < KERNBASE →
  (∀ q, npg oldsz ≤ q < npg newsz → ¬ present (entry (k_mem s) T q)) →
  runs (allocuvm kend pgdir oldsz newsz)
    (λ r s', r = 0 ∧ Z.of_nat (length l) ≤ 1026 + (npg newsz - npg oldsz) ∧
       (∃ l' T', restored kend s l pgdir T (npg oldsz) (npg newsz) s' l' T') ∨
       r = newsz ∧ ∃ l' T', allocated kend user_flags zero_page s l pgdir T (npg oldsz) (npg newsz) s' l' T') s.
Proof.
  intros ? ? ? ?. eapply allocuvm_ok; try done.
  - intros s' l' T' A1 A2. left. split_and!; [done|done|]. by exists l', T'.
  - intros s' l' T' A1. right. split; [done|]. by exists l', T'.
Qed.

(** C14. A page directory from [setupkvm] maps the kernel and nothing else: physical
    memory appears at [KERNBASE], never for user mode, the kernel's text is not
    writable, and no address below [KERNBASE] is mapped.  It returns 0 only when
    memory ran out, with every page free again. *)
Theorem setupkvm_protects_the_kernel s l :
  kinv kend s l →
  runs (setupkvm kend kdata)
    (λ d s', d = 0 ∧ Z.of_nat (length l) ≤ 1026 ∧ (∃ l', kinv kend s' l' ∧ ∀ w, w ∈ l' ↔ w ∈ l) ∨
       d ≠ 0 ∧ ∃ l' T', vinv kend s' l' d T' ∧ kernel_half kdata (k_mem s') T') s.
Proof.
  intros ?. eapply setupkvm_ok; try done.
  - intros s' l' A1 A2 _ A4. left. split_and!; [done|done|]. by exists l'.
  - intros d s' l' T' A1 A2 _ A4 _. right. split; [done|]. exists l', T'. split; [done|]. by apply kernel_only_half.
Qed.

(** C15. [copyout] writes user memory only: it returns, with the bytes of the buffer
    at the user addresses when all their pages are mapped for user mode, and with -1
    at the first page that is not; no other byte of memory changes.  The range is below
    [KERNBASE], its user pages are distinct pages that are not page tables, and the
    buffer is not in them.  A page without a page table counts as one that is not
    mapped for user mode provided that the word at address 0 is not an entry with both
    bits set: [uva2ka] loads its entry through the null pointer of [walkpgdir]. *)
Theorem copyout_writes_user_pages_only s pgdir T va p len :
  mem_ok (k_mem s) → pt kend (k_mem s) pgdir T → urange kend (k_mem s) pgdir T va len →
  apart (k_mem s) T va len p → 0 ≤ len →
  runs (copyout pgdir va p len)
    (λ r s', ∃ k m', s' = set_kmem m' s ∧ copied (k_mem s) T va p k m' ∧
       (r = 0 ∧ k = len ∨
        r = -1 ∧ 0 ≤ k < len ∧ accessible (entry (k_mem s) T ((va + k) / PGSIZE)) = false)) s.
Proof.
  intros Hm Hpt Hur Hap Hlen. eapply copyout_ok; [done..|]. intros r k m' Hc Hr. by exists k, m'.
Qed.

End properties.

(** ** A small machine *)

(** The kernel ends at 2 MB; a process has one page, number 0, and 1200 pages from
    5 MB on are free. *)
Definition m_kend : Z := 0x80200000.
Definition m_kdata : Z := 0x80180000.
Definition m_dir : Z := 0x80400000.
Definition m_tab : Z := 0x80401000.
Definition m_page : Z := 0x80402000.
Definition m_free : Z := 0x80500000.
Definition m_T : gmap Z Z := {[ 0 := m_tab ]}.

Definition m_mem : gmap Z Z :=
  st32 (st32 (wr ∅ m_page 42) m_dir (Z.lor (V2P m_tab) 7)) m_tab (Z.lor (V2P m_page) 7).

Definition m_start : kst := Kst false false 0 m_mem.

(** The memory of the process and of its tables is as [m_mem] has it. *)
Definition m_same (m : gmap Z Z) : Prop := ∀ b, b < m_free → rd m b = rd m_mem b.

Lemma m_entry m : m_same m → entry m m_T 0 = Z.lor (V2P m_page) 7.
Proof.
  intros Hs. unfold entry. change (0 / NPTENTRIES) with 0. unfold m_T. rewrite lookup_singleton_eq.
  change (0 mod NPTENTRIES) with 0. rewrite (ld32_ext m m_mem); [by vm_compute|].
  intros b Hb. apply Hs. unfold m_tab, m_free in *. lia.
Qed.

Lemma m_dir_entry m i : m_same m → 0 ≤ i < NPDENTRIES →
  ld32 m (m_dir + 4 * i) = if decide (i = 0) then Z.lor (V2P m_tab) 7 else 0.
Proof.
  intros Hs Hi. unfold NPDENTRIES in Hi. rewrite (ld32_ext m m_mem); [|intros b Hb; apply Hs; unfold m_dir, m_free in *; lia].
  unfold m_mem. case_decide as E; [subst i; by vm_compute|].
  rewrite !ld32_st32_ne by (unfold m_dir, m_tab; lia).
  unfold ld32. rewrite !rd_wr_ne by (unfold m_dir, m_page; lia). done.
Qed.

Lemma m_own : own m_dir m_T = {[m_dir; m_tab]}.
Proof. unfold own, m_T. by rewrite map_img_singleton_L. Qed.

Lemma m_page_ok v : m_kend ≤ v < KERNBASE + PHYSTOP → v mod PGSIZE = 0 → page_ok m_kend v.
Proof. intros Hv Hm. split; [done|]. unfold m_kend, KERNBASE in *. lia. Qed.

Lemma m_pt m : m_same m → pt m_kend m m_dir m_T.
Proof.
  intros Hs. assert (Hl : ∀ i t, m_T !! i = Some t → i = 0 ∧ t = m_tab).
  { intros i t E. unfold m_T in E. by apply lookup_singleton_Some in E as [<- <-]. }
  split.
  - by apply m_page_ok.
  - intros i t [-> ->]%Hl. rewrite m_dir_entry, decide_True by done.
    split_and!; [done|done|by apply m_page_ok|done|by vm_compute|by vm_compute].
  - intros i Hi Hn. rewrite m_dir_entry by done. rewrite decide_False; [apply not_present_0|].
    intros ->. by vm_compute in Hn.
  - intros i j t [-> _]%Hl [-> _]%Hl. done.
Qed.

(** [kinit1] makes such a machine, with any number of pages. *)
Lemma m_machine_of (n : nat) : Z.of_nat n ≤ 10000 → ∃ s l, kinv m_kend s l ∧ m_same (k_mem s) ∧ length l = n ∧ ∀ v, v ∈ l → m_free ≤ v.
Proof.
  intros Hn. assert (HG : PGSIZE = 4096) by done. destruct (freerange_loop_ok m_kend n (S n) m_start [] m_free (m_free + Z.of_nat n * PGSIZE)
    (λ _ s, kinv m_kend s (rev (pages_from m_free n) ++ []) ∧ m_same (k_mem s))) as ([] & s & _ & Hk & Hm); try done; try lia; try (unfold m_free, KERNBASE, PHYSTOP, PGSIZE; lia).
  - split; try done; [|apply NoDup_nil_2]. unfold m_start, m_mem. simpl.
    apply mem_ok_st32, mem_ok_st32, mem_ok_wr, mem_ok_empty.
  - intros v _. apply not_elem_of_nil.
  - intros s Hk _ Hm. split; [done|]. intros b Hb. apply Hm. by left.
  - exists s, (rev (pages_from m_free n) ++ []). split_and!; [done|done| |].
    + rewrite app_nil_r, length_rev. unfold pages_from. by rewrite length_fmap, length_seq.
    + intros v. rewrite app_nil_r, list_elem_of_In, <- in_rev, <- list_elem_of_In. intros (i & _ & ->)%pages_from_spec. lia.
Qed.

Lemma m_machine : ∃ s l, kinv m_kend s l ∧ m_same (k_mem s) ∧ length l = 1200%nat ∧ ∀ v, v ∈ l → m_free ≤ v.
Proof. apply m_machine_of. lia. Qed.

Lemma m_dis v : m_free ≤ v → v ∉ own m_dir m_T.
Proof. rewrite m_own. unfold m_free, m_dir, m_tab. intros Hv. rewrite elem_of_union, !elem_of_singleton. lia. Qed.

Lemma copyuvm_copies_or_gives_back_witness :
  ∃ s, runs (copyuvm m_kend m_kdata m_dir 4096) (λ d s', d ≠ 0 ∧ ∃ f, rd (k_mem s') f = 42 ∧ f ≠ m_page) s.
Proof.
  destruct m_machine as (s & l & Hk & Hm & Hl & Hv). exists s.
  assert (Hpg : page_ok m_kend m_page) by (by apply m_page_ok).
  destruct (page_entry m_kend m_page 7 Hpg ltac:(done)) as (_ & _ & _ & Hfr & _). cbv zeta in Hfr.
  assert (Hpl : m_page ∉ l) by (intros Hin%Hv; unfold m_free, m_page in *; lia).
  eapply runs_mono.
  { apply (copyuvm_copies_or_gives_back m_kend m_kdata ltac:(done) ltac:(done) ltac:(done) s l m_dir 4096 m_T); try done.
    - by apply m_pt.
    - intros v Hin. apply m_dis, Hv, Hin.
    - change (npg 4096) with 1. intros q Hq. replace q with 0 by lia. rewrite (m_entry _ Hm), Hfr. split; [by vm_compute|done]. }
  change (npg 4096) with 1. intros d s' [(_ & Hc & _)|(Hd & l' & T' & Hf)]; [rewrite Hl in Hc; lia|].
  split; [done|]. destruct (fk_page _ _ _ _ _ _ _ _ _ _ Hf 0) as (_ & _ & Hin & Hb); [by vm_compute|].
  exists (frame (entry (k_mem s') T' 0) + 0). rewrite Hb by done. unfold par_byte.
  rewrite (m_entry _ Hm), Hfr, Hm by done. split; [by vm_compute|]. apply Hv in Hin. unfold m_free, m_page in *. lia.
Defined.

Lemma allocuvm_all_or_nothing_witness :
  ∃ s, runs (allocuvm m_kend m_dir 4096 10000) (λ r s', r = 10000) s.
Proof.
  destruct m_machine as (s & l & Hk & Hm & Hl & Hv). exists s. eapply runs_mono.
  { apply (allocuvm_all_or_nothing m_kend ltac:(done) s l m_dir m_T 4096 10000).
    - split; [done|by apply m_pt|]. intros v Hin. apply m_dis, Hv, Hin.
    - done.
    - done.
    - change (npg 4096) with 1. change (npg 10000) with 3. intros q Hq. unfold entry. 
      replace (q / NPTENTRIES) with 0 by (unfold NPTENTRIES; symmetry; apply Z.div_small; lia).
      unfold m_T. rewrite lookup_singleton_eq. rewrite Z.mod_small by (unfold NPTENTRIES; lia).
      rewrite (ld32_ext _ m_mem) by (intros b Hb; apply Hm; unfold m_tab, m_free in *; lia).
      unfold m_mem. rewrite !ld32_st32_ne by (unfold m_dir, m_tab; lia). unfold ld32.
      rewrite !rd_wr_ne by (unfold m_tab, m_page; lia). apply not_present_0. }
  change (npg 4096) with 1. change (npg 10000) with 3.
  intros r s' [(_ & Hc & _)|[? _]]; [rewrite Hl in Hc; lia|done].
Defined.

Lemma setupkvm_protects_the_kernel_witness : ∃ s, runs (setupkvm m_kend m_kdata) (λ d s', d ≠ 0) s.
Proof.
  destruct m_machine as (s & l & Hk & Hm & Hl & Hv). exists s. eapply runs_mono.
  { apply (setupkvm_protects_the_kernel m_kend m_kdata ltac:(done) ltac:(done) ltac:(done) s l Hk). }
  intros d s' [(_ & Hc & _)|[? _]]; [rewrite Hl in Hc; lia|done].
Defined.

Lemma copyout_writes_user_pages_only_witness :
  runs (copyout m_dir 8 m_free 3) (λ r s', r = 0) m_start.
Proof.
  assert (Hs : m_same (k_mem m_start)) by done. pose proof (m_entry _ Hs) as He.
  assert (Hpg : page_ok m_kend m_page) by (by apply m_page_ok).
  destruct (page_entry m_kend m_page 7 Hpg ltac:(done)) as (_ & _ & _ & Hfr & _). cbv zeta in Hfr.
  eapply runs_mono.
  { apply (copyout_writes_user_pages_only m_kend m_start m_dir m_T 8 m_free 3).
    - apply mem_ok_st32, mem_ok_st32, mem_ok_wr, mem_ok_empty.
    - by apply m_pt.
    - split; [done|..]; change (npg (8 + 3)) with 1; change (8 / PGSIZE) with 0.
      + intros q Hq. replace q with 0 by lia. left. by eexists.
      + intros q Hq _. replace q with 0 by lia. rewrite He, Hfr. split; [done|]. rewrite m_own. by vm_compute.
      + intros. lia.
    - unfold apart. change (npg (8 + 3)) with 1. change (8 / PGSIZE) with 0. intros q b Hq _ Hb. replace q with 0 by lia.
      rewrite He, Hfr. unfold m_page, m_free, PGSIZE in *. lia.
    - done. }
  intros r s' (k & m' & _ & _ & [[? _]|(_ & Hk & Ha)]); [done|].
  replace ((8 + k) / PGSIZE) with 0 in Ha by (unfold PGSIZE; symmetry; apply Z.div_small; lia).
  rewrite He in Ha. by vm_compute in Ha.
Defined.
