(* ===== verification/Proc.v ===== *)
(** * Processes: [xv6/proc.c] and [xv6/proc.h]

    The process table, with the pieces of each operation between two points where
    the processor may turn to something else: [ptable.lock] makes a critical section
    one step, [sched] ends an activation and what follows it in the source is the
    definition that resumes.  An operation takes the number [c] of the processor
    that runs it and the slot of the process that called it ([myproc()]).  The file
    layer is reached through [FileOps]; [ProcSpec] gives the step relation. *)

From S2P Require Import Prelude Str Mmu Spinlock Kalloc Vm.

Definition NPROC : nat := 64.
Definition NOFILE : nat := 16.
Definition KSTACKSIZE : Z := 4096.

Inductive procstate := UNUSED | EMBRYO | SLEEPING | RUNNABLE | RUNNING | ZOMBIE.

#[global] Instance procstate_eq_dec : EqDecision procstate.
Proof. solve_decision. Defined.

(** [struct proc]; pointers to processes are slots of the table. *)
Record proc := Proc {
  p_sz : Z;    (* size of process memory *)
  p_pgdir : Z;    (* page table *)
  p_kstack : Z;    (* bottom of its kernel stack *)
  p_state : procstate;
  p_pid : Z;
  p_parent : option nat;    (* its slot *)
  p_tf : Z;    (* trap frame *)
  p_context : Z;
  p_chan : Z;    (* if non-zero, sleeping on chan *)
  p_killed : bool;
  p_ofile : list Z;    (* open files, 0 for none *)
  p_cwd : Z;
  p_name : list Z    (* up to the NUL *)
}.

Definition set_psz (x : Z) (p : proc) : proc :=
  Proc x (p_pgdir p) (p_kstack p) (p_state p) (p_pid p) (p_parent p) (p_tf p) (p_context p) (p_chan p) (p_killed p) (p_ofile p) (p_cwd p) (p_name p).
Definition set_ppgdir (x : Z) (p : proc) : proc :=
  Proc (p_sz p) x (p_kstack p) (p_state p) (p_pid p) (p_parent p) (p_tf p) (p_context p) (p_chan p) (p_killed p) (p_ofile p) (p_cwd p) (p_name p).
Definition set_pkstack (x : Z) (p : proc) : proc :=
  Proc (p_sz p) (p_pgdir p) x (p_state p) (p_pid p) (p_parent p) (p_tf p) (p_context p) (p_chan p) (p_killed p) (p_ofile p) (p_cwd p) (p_name p).
Definition set_pstate (x : procstate) (p : proc) : proc :=
  Proc (p_sz p) (p_pgdir p) (p_kstack p) x (p_pid p) (p_parent p) (p_tf p) (p_context p) (p_chan p) (p_killed p) (p_ofile p) (p_cwd p) (p_name p).
Definition set_ppid (x : Z) (p : proc) : proc :=
  Proc (p_sz p) (p_pgdir p) (p_kstack p) (p_state p) x (p_parent p) (p_tf p) (p_context p) (p_chan p) (p_killed p) (p_ofile p) (p_cwd p) (p_name p).
Definition set_pparent (x : option nat) (p : proc) : proc :=
  Proc (p_sz p) (p_pgdir p) (p_kstack p) (p_state p) (p_pid p) x (p_tf p) (p_context p) (p_chan p) (p_killed p) (p_ofile p) (p_cwd p) (p_name p).
Definition set_ptf (x : Z) (p : proc) : proc :=
  Proc (p_sz p) (p_pgdir p) (p_kstack p) (p_state p) (p_pid p) (p_parent p) x (p_context p) (p_chan p) (p_killed p) (p_ofile p) (p_cwd p) (p_name p).
Definition set_pcontext (x : Z) (p : proc) : proc :=
  Proc (p_sz p) (p_pgdir p) (p_kstack p) (p_state p) (p_pid p) (p_parent p) (p_tf p) x (p_chan p) (p_killed p) (p_ofile p) (p_cwd p) (p_name p).
Definition set_pchan (x : Z) (p : proc) : proc :=
  Proc (p_sz p) (p_pgdir p) (p_kstack p) (p_state p) (p_pid p) (p_parent p) (p_tf p) (p_context p) x (p_killed p) (p_ofile p) (p_cwd p) (p_name p).
Definition set_pkilled (x : bool) (p : proc) : proc :=
  Proc (p_sz p) (p_pgdir p) (p_kstack p) (p_state p) (p_pid p) (p_parent p) (p_tf p) (p_context p) (p_chan p) x (p_ofile p) (p_cwd p) (p_name p).
Definition set_pofile (x : list Z) (p : proc) : proc :=
  Proc (p_sz p) (p_pgdir p) (p_kstack p) (p_state p) (p_pid p) (p_parent p) (p_tf p) (p_context p) (p_chan p) (p_killed p) x (p_cwd p) (p_name p).
Definition set_pcwd (x : Z) (p : proc) : proc :=
  Proc (p_sz p) (p_pgdir p) (p_kstack p) (p_state p) (p_pid p) (p_parent p) (p_tf p) (p_context p) (p_chan p) (p_killed p) (p_ofile p) x (p_name p).
Definition set_pname (x : list Z) (p : proc) : proc :=
  Proc (p_sz p) (p_pgdir p) (p_kstack p) (p_state p) (p_pid p) (p_parent p) (p_tf p) (p_context p) (p_chan p) (p_killed p) (p_ofile p) (p_cwd p) x.

(** A slot of the zeroed table. *)
Definition proc0 : proc := Proc 0 0 0 UNUSED 0 None 0 0 0 false (replicate NOFILE 0) 0 [].

#[global] Instance proc_inhabited : Inhabited proc := populate proc0.

(** What the process code asks of the file system and of the file table, over a
    state [F] of theirs. *)
Class FileOps (F : Type) := {
  op_filedup : Z → K F Z;
  op_fileclose : Z → K F unit;
  op_idup : Z → K F Z;
  op_iput : Z → K F unit;
  op_begin_op : K F unit;
  op_end_op : K F unit;
  op_namei : string → K F Z;
  op_iinit : Z → K F unit;
  op_initlog : Z → K F unit
}.

(** The table, [initproc], [nextpid], [first] of [forkret], the processors and
    locks, memory, and the state of the file layer. *)
Record pst (F : Type) := Pst {
  s_proc : list proc;
  s_initproc : option nat;
  s_nextpid : Z;
  s_first : bool;
  s_lk : lkst;
  s_k : kst;
  s_f : F
}.
Arguments Pst {F}.
Arguments s_proc {F}.
Arguments s_initproc {F}.
Arguments s_nextpid {F}.
Arguments s_first {F}.
Arguments s_lk {F}.
Arguments s_k {F}.
Arguments s_f {F}.

Section proc.
Context {F : Type} `{!FileOps F}.
(** [end], [data]; the addresses of [ptable], [trapret] and [forkret]; the code of
    the first process. *)
Context (kend kdata ptable trapret forkret_addr init_start init_size : Z).

Definition set_table (f : list proc → list proc) (s : pst F) : pst F :=
  Pst (f (s_proc s)) (s_initproc s) (s_nextpid s) (s_first s) (s_lk s) (s_k s) (s_f s).
Definition set_nextpid (x : Z) (s : pst F) : pst F :=
  Pst (s_proc s) (s_initproc s) x (s_first s) (s_lk s) (s_k s) (s_f s).
Definition set_initproc (x : option nat) (s : pst F) : pst F :=
  Pst (s_proc s) x (s_nextpid s) (s_first s) (s_lk s) (s_k s) (s_f s).
Definition set_first (x : bool) (s : pst F) : pst F :=
  Pst (s_proc s) (s_initproc s) (s_nextpid s) x (s_lk s) (s_k s) (s_f s).

(** Code of the other layers, on its part of the state. *)
Definition on_lk {A} (m : K lkst A) : K (pst F) A := λ s,
  match m (s_lk s) with
  | Ok (a, x) => Ok (a, Pst (s_proc s) (s_initproc s) (s_nextpid s) (s_first s) x (s_k s) (s_f s))
  | Panic msg => Panic msg
  | Hang => Hang
  end.
Definition on_k {A} (m : K kst A) : K (pst F) A := λ s,
  match m (s_k s) with
  | Ok (a, x) => Ok (a, Pst (s_proc s) (s_initproc s) (s_nextpid s) (s_first s) (s_lk s) x (s_f s))
  | Panic msg => Panic msg
  | Hang => Hang
  end.
Definition on_f {A} (m : K F A) : K (pst F) A := λ s,
  match m (s_f s) with
  | Ok (a, x) => Ok (a, Pst (s_proc s) (s_initproc s) (s_nextpid s) (s_first s) (s_lk s) (s_k s) x)
  | Panic msg => Panic msg
  | Hang => Hang
  end.

(** [*p] and an assignment to a field of it. *)
Definition getp (p : nat) : K (pst F) proc := kgets (λ s, s_proc s !!! p).
Definition upd (p : nat) (f : proc → proc) : K (pst F) unit := kmod (set_table (alter f p)).

(** The address of a slot, for [sleep] and [wakeup]: [ptable] starts with its lock. *)
Definition proc_addr (p : nat) : Z := ptable + 52 + 124 * Z.of_nat p.
Definition chan_of (o : option nat) : Z := match o with Some p => proc_addr p | None => 0 end.

Definition acquire_ptable (c : nat) : K (pst F) unit := on_lk (acquire c ptable).
Definition release_ptable (c : nat) : K (pst F) unit := on_lk (release c ptable).

Definition pinit : K (pst F) unit := on_lk (initlock ptable).

(** ** Creation *)

(** The critical section of [allocproc]: take the first [UNUSED] slot. *)
Definition allocproc_take (c : nat) : K (pst F) (option nat) :=
  acquire_ptable c;;
  s ← kget;
  match list_find (λ p, p_state p = UNUSED) (s_proc s) with
  | None => release_ptable c;; mret None
  | Some (p, _) =>
      upd p (set_pstate EMBRYO);;
      upd p (set_ppid (s_nextpid s));;
      kmod (set_nextpid (s32 (s_nextpid s + 1)));;
      release_ptable c;;
      mret (Some p)
  end.

Definition SIZEOF_TRAPFRAME : Z := 76.
Definition SIZEOF_CONTEXT : Z := 20.

(** Its rest: a kernel stack with room for the trap frame and a context that
    starts in [forkret]. *)
Definition allocproc_stack (p : nat) : K (pst F) (option nat) :=
  v ← on_k kalloc;
  upd p (set_pkstack v);;
  if v =? 0 then upd p (set_pstate UNUSED);; mret None
  else
    let sp := v + KSTACKSIZE in
    let sp := sp - SIZEOF_TRAPFRAME in
    upd p (set_ptf sp);;
    let sp := sp - 4 in
    on_k (mem_mod (λ m, st32 m sp trapret));;
    let sp := sp - SIZEOF_CONTEXT in
    upd p (set_pcontext sp);;
    on_k (mem_mod (λ m, memset m sp 0 SIZEOF_CONTEXT));;
    on_k (mem_mod (λ m, st32 m (sp + 16) forkret_addr));;
    mret (Some p).

Definition allocproc (c : nat) : K (pst F) (option nat) :=
  o ← allocproc_take c;
  match o with
  | None => mret None
  | Some p => allocproc_stack p
  end.

(** A 16-bit store, and the fields of [struct trapframe] by their offsets. *)
Definition st16 (m : gmap Z Z) (a v : Z) : gmap Z Z := wr (wr m a v) (a + 1) (v ≫ 8).

Definition tf_eax : Z := 28.
Definition tf_es : Z := 40.
Definition tf_ds : Z := 44.
Definition tf_eip : Z := 56.
Definition tf_cs : Z := 60.
Definition tf_eflags : Z := 64.
Definition tf_esp : Z := 68.
Definition tf_ss : Z := 72.

Definition SEG_UCODE : Z := 3.
Definition SEG_UDATA : Z := 4.
Definition DPL_USER : Z := 3.
Definition FL_IF : Z := 512.

(** The trap frame [userinit] builds: user segments, interrupts on, the stack at
    the end of the page and the start of [initcode.S]. *)
Definition init_frame (m : gmap Z Z) (tf : Z) : gmap Z Z :=
  let m := memset m tf 0 SIZEOF_TRAPFRAME in
  let m := st16 m (tf + tf_cs) (Z.lor (SEG_UCODE ≪ 3) DPL_USER) in
  let ds := Z.lor (SEG_UDATA ≪ 3) DPL_USER in
  let m := st16 m (tf + tf_ds) ds in
  let m := st16 m (tf + tf_es) ds in
  let m := st16 m (tf + tf_ss) ds in
  let m := st32 m (tf + tf_eflags) FL_IF in
  let m := st32 m (tf + tf_esp) PGSIZE in
  st32 m (tf + tf_eip) 0.

(** [safestrcpy(p->name, name, sizeof(p->name))]. *)
Definition name_copy (name : list Z) : list Z := take 15 name.

(** The source uses the result of [allocproc] without a test: a null pointer
    there is a fault of the kernel. *)
Definition userinit (c : nat) : K (pst F) unit :=
  o ← allocproc c;
  kmod (set_initproc o);;
  match o with
  | None => kpanic "trap"
  | Some p =>
      d ← on_k (setupkvm kend kdata);
      upd p (set_ppgdir d);;
      kassert (negb (d =? 0)) "userinit: out of memory?";;
      on_k (inituvm d init_start init_size);;
      upd p (set_psz PGSIZE);;
      x ← getp p;
      on_k (mem_mod (λ m, init_frame m (p_tf x)));;
      upd p (set_pname (name_copy (chars_of "initcode")));;
      w ← on_f (op_namei "/");
      upd p (set_pcwd w);;
      acquire_ptable c;;
      upd p (set_pstate RUNNABLE);;
      release_ptable c
  end.

(** The guards of [switchuvm]; its loads of the task register and of [%cr3] are
    state of the processor only. *)
Definition switchuvm (p : nat) : K (pst F) unit :=
  x ← getp p;
  kassert (negb (p_kstack x =? 0)) "switchuvm: no kstack";;
  kassert (negb (p_pgdir x =? 0)) "switchuvm: no pgdir".

Definition growproc (cur : nat) (n : Z) : K (pst F) Z :=
  x ← getp cur;
  let sz := p_sz x in
  r ← (if 0 <? n then on_k (allocuvm kend (p_pgdir x) sz (u32 (sz + n)))
       else if n <? 0 then on_k (deallocuvm kend (p_pgdir x) sz (u32 (sz + n)))
       else mret sz);
  if negb (n =? 0) && (r =? 0) then mret (-1)
  else
    upd cur (set_psz r);;
    switchuvm cur;;
    mret 0.

(** [for(i = 0; i < NOFILE; i++)] of [fork], with [k] descriptors to go. *)
Fixpoint fork_files (cur np i k : nat) : K (pst F) unit :=
  match k with
  | O => mret tt
  | S k' =>
      x ← getp cur;
      (if negb (p_ofile x !!! i =? 0) then
         f ← on_f (op_filedup (p_ofile x !!! i));
         upd np (λ q, set_pofile (<[i := f]> (p_ofile q)) q)
       else mret tt);;
      fork_files cur np (S i) k'
  end.

(** [fork] between the two critical sections: the child's memory, trap frame and
    files.  [false] when memory runs out. *)
Definition fork_copy (cur np : nat) : K (pst F) bool :=
  x ← getp cur;
  d ← on_k (copyuvm kend kdata (p_pgdir x) (p_sz x));
  upd np (set_ppgdir d);;
  if d =? 0 then
    y ← getp np;
    on_k (kfree kend (p_kstack y));;
    upd np (set_pkstack 0);;
    upd np (set_pstate UNUSED);;
    mret false
  else
    upd np (set_psz (p_sz x));;
    upd np (set_pparent (Some cur));;
    y ← getp np;
    on_k (mem_mod (λ m, memmove m (p_tf y) (p_tf x) SIZEOF_TRAPFRAME));;
    on_k (mem_mod (λ m, st32 m (p_tf y + tf_eax) 0));;
    fork_files cur np 0 NOFILE;;
    w ← on_f (op_idup (p_cwd x));
    upd np (set_pcwd w);;
    upd np (set_pname (name_copy (p_name x)));;
    mret true.

(** Its end: the child may run. *)
Definition fork_go (c np : nat) : K (pst F) Z :=
  y ← getp np;
  acquire_ptable c;;
  upd np (set_pstate RUNNABLE);;
  release_ptable c;;
  mret (p_pid y).

Definition fork (c cur : nat) : K (pst F) Z :=
  o ← allocproc c;
  match o with
  | None => mret (-1)
  | Some np =>
      b ← fork_copy cur np;
      if negb b then mret (-1) else fork_go c np
  end.

(** What [fork] does outside the critical sections. *)
Definition fork_build (cur np : nat) : K (pst F) bool :=
  o ← allocproc_stack np;
  match o with
  | None => mret false
  | Some np => fork_copy cur np
  end.

(** ** Sleeping and waking *)

(** The tests of [sched]; the switch to the scheduler ends the activation. *)
Definition sched (c p : nat) : K (pst F) unit :=
  h ← on_lk (holding c ptable);
  kassert h "sched ptable.lock";;
  x ← on_lk (mycpu c);
  kassert (c_ncli x =? 1) "sched locks";;
  q ← getp p;
  kassert (negb (bool_decide (p_state q = RUNNING))) "sched running";;
  x ← on_lk (kgets (λ s, l_cpu s c));
  kassert (negb (c_if x)) "sched interruptible".

(** [yield] up to [sched], and its return. *)
Definition yield_begin (c p : nat) : K (pst F) unit :=
  acquire_ptable c;;
  upd p (set_pstate RUNNABLE);;
  sched c p.

Definition yield_end (c : nat) : K (pst F) unit := release_ptable c.

(** [sleep] up to [sched]: with a lock other than [ptable.lock], the process lets go
    of it only once it holds [ptable.lock]. *)
Definition sleep_begin (c : nat) (p : option nat) (chan lk : Z) : K (pst F) unit :=
  match p with
  | None => kpanic "sleep"
  | Some p =>
      kassert (negb (lk =? 0)) "sleep without lk";;
      (if negb (lk =? ptable) then acquire_ptable c;; on_lk (release c lk) else mret tt);;
      upd p (set_pchan chan);;
      upd p (set_pstate SLEEPING);;
      sched c p
  end.

(** [sleep] after [sched]. *)
Definition sleep_end (c p : nat) (lk : Z) : K (pst F) unit :=
  upd p (set_pchan 0);;
  if negb (lk =? ptable) then release_ptable c;; on_lk (acquire c lk) else mret tt.

Definition wake_one (chan : Z) (p : proc) : proc :=
  if bool_decide (p_state p = SLEEPING) && (p_chan p =? chan) then set_pstate RUNNABLE p else p.

Definition wakeup1 (chan : Z) : K (pst F) unit := kmod (set_table (fmap (wake_one chan))).

Definition wakeup (c : nat) (chan : Z) : K (pst F) unit :=
  acquire_ptable c;;
  wakeup1 chan;;
  release_ptable c.

Definition kill (c : nat) (pid : Z) : K (pst F) Z :=
  acquire_ptable c;;
  s ← kget;
  match list_find (λ p, p_pid p = pid) (s_proc s) with
  | Some (p, x) =>
      upd p (set_pkilled true);;
      (if bool_decide (p_state x = SLEEPING) then upd p (set_pstate RUNNABLE) else mret tt);;
      release_ptable c;;
      mret 0
  | None => release_ptable c;; mret (-1)
  end.

(** A fork child's first activation. *)
Definition forkret (c : nat) : K (pst F) unit :=
  release_ptable c;;
  s ← kget;
  if s_first s then
    kmod (set_first false);;
    on_f (op_iinit 1);;
    on_f (op_initlog 1)
  else mret tt.

(** ** Exit and wait *)

Fixpoint exit_files (cur fd k : nat) : K (pst F) unit :=
  match k with
  | O => mret tt
  | S k' =>
      x ← getp cur;
      (if negb (p_ofile x !!! fd =? 0) then
         on_f (op_fileclose (p_ofile x !!! fd));;
         upd cur (λ q, set_pofile (<[fd := 0]> (p_ofile q)) q)
       else mret tt);;
      exit_files cur (S fd) k'
  end.

(** Pass abandoned children to init, from slot [i]. *)
Fixpoint exit_children (cur i k : nat) : K (pst F) unit :=
  match k with
  | O => mret tt
  | S k' =>
      s ← kget;
      (if bool_decide (p_parent (s_proc s !!! i) = Some cur) then
         upd i (set_pparent (s_initproc s));;
         (if bool_decide (p_state (s_proc s !!! i) = ZOMBIE) then wakeup1 (chan_of (s_initproc s)) else mret tt)
       else mret tt);;
      exit_children cur (S i) k'
  end.

(** [exit] before its critical section, and the section. *)
Definition exit_close (cur : nat) : K (pst F) unit :=
  s ← kget;
  kassert (negb (bool_decide (s_initproc s = Some cur))) "init exiting";;
  exit_files cur 0 NOFILE;;
  on_f op_begin_op;;
  x ← getp cur;
  on_f (op_iput (p_cwd x));;
  on_f op_end_op;;
  upd cur (set_pcwd 0).

Definition exit_finish (c cur : nat) : K (pst F) unit :=
  acquire_ptable c;;
  x ← getp cur;
  wakeup1 (chan_of (p_parent x));;
  exit_children cur 0 NPROC;;
  upd cur (set_pstate ZOMBIE);;
  sched c cur.

Definition exit (c cur : nat) : K (pst F) unit :=
  exit_close cur;;
  exit_finish c cur.

(** Free the slot of an exited child. *)
Definition wait_free (i : nat) : K (pst F) Z :=
  x ← getp i;
  on_k (kfree kend (p_kstack x));;
  upd i (set_pkstack 0);;
  on_k (freevm kend (p_pgdir x));;
  upd i (set_ppid 0);;
  upd i (set_pparent None);;
  upd i (set_pname []);;
  upd i (set_pkilled false);;
  upd i (set_pstate UNUSED);;
  mret (p_pid x).

(** The scan for exited children from slot [i]: the pid of one, or whether there
    are children at all. *)
Fixpoint wait_scan (cur i k : nat) (havekids : bool) : K (pst F) (Z + bool) :=
  match k with
  | O => mret (inr havekids)
  | S k' =>
      x ← getp i;
      if negb (bool_decide (p_parent x = Some cur)) then wait_scan cur (S i) k' havekids
      else if bool_decide (p_state x = ZOMBIE) then
        pid ← wait_free i;
        mret (inl pid)
      else wait_scan cur (S i) k' true
  end.

(** A round of the [for(;;)] of [wait]: a result, or [None] when the process went
    to sleep. *)
Definition wait_round (c cur : nat) : K (pst F) (option Z) :=
  r ← wait_scan cur 0 NPROC false;
  match r with
  | inl pid => release_ptable c;; mret (Some pid)
  | inr havekids =>
      x ← getp cur;
      if negb havekids || p_killed x then release_ptable c;; mret (Some (-1))
      else sleep_begin c (Some cur) (proc_addr cur) ptable;; mret None
  end.

Definition wait_begin (c cur : nat) : K (pst F) (option Z) :=
  acquire_ptable c;;
  wait_round c cur.

Definition wait_resume (c cur : nat) : K (pst F) (option Z) :=
  sleep_end c cur ptable;;
  wait_round c cur.

(** ** The scheduler

    [run p] is the activation of [p]: from the switch to its context until it
    switches back.  The result lists the processes run. *)

(** Switch to the chosen process. *)
Definition scheduler_pick (p : nat) : K (pst F) unit :=
  switchuvm p;;
  upd p (set_pstate RUNNING).

Section scheduler.
Context (run : nat → K (pst F) unit).

Fixpoint scheduler_scan (i k : nat) : K (pst F) (list nat) :=
  match k with
  | O => mret []
  | S k' =>
      x ← getp i;
      if negb (bool_decide (p_state x = RUNNABLE)) then scheduler_scan (S i) k'
      else
        scheduler_pick i;;
        run i;;
        l ← scheduler_scan (S i) k';
        mret (i :: l)
  end.

(** A round of the [for(;;)] of [scheduler]. *)
Definition scheduler_round (c : nat) : K (pst F) (list nat) :=
  on_lk (sti c);;
  acquire_ptable c;;
  l ← scheduler_scan 0 NPROC;
  release_ptable c;;
  mret l.

End scheduler.

(** ** Listings *)

Definition state_name (st : procstate) : string :=
  match st with
  | UNUSED => "unused" | EMBRYO => "embryo" | SLEEPING => "sleep "
  | RUNNABLE => "runble" | RUNNING => "run   " | ZOMBIE => "zombie"
  end.

(** A line of [procdump]: pid, state, name and, of a sleeping process, its call
    stack up to the first zero. *)
Definition procdump_line (m : gmap Z Z) (p : proc) : Z * string * list Z * list Z :=
  (p_pid p, state_name (p_state p), p_name p,
   if bool_decide (p_state p = SLEEPING) then
     let pc := getcallerpcs m (u32 (ld32 m (p_context p + 12) + 8)) in
     default pc ((λ ix : nat * Z, take ix.1 pc) <$> list_find (λ x, x = 0) pc)
   else []).

Definition procdump (s : pst F) : list (Z * string * list Z * list Z) :=
  procdump_line (k_mem (s_k s)) <$> filter (λ p, p_state p ≠ UNUSED) (s_proc s).

Definition sys_pscnt (s : pst F) : Z :=
  foldl (λ count p, if bool_decide (p_state p = UNUSED) then count else count + 1) 0 (s_proc s).

End proc.
