(* ===== verification/ProcSpec.v ===== *)
(** * The process table as a state machine

    [pstep] interleaves the pieces of the operations of [Proc], run by any number
    of processors, with whatever other code does outside the table.  [pinv] is its
    invariant, over the part of the table the life of a process depends on. *)

From S2P Require Import Prelude Str Mmu Spinlock Kalloc Vm Proc.

(** The fields that matter for the life of a process. *)
Record view := View {
  v_state : procstate;
  v_pid : Z;
  v_parent : option nat;
  v_chan : Z
}.

Definition view_of (p : proc) : view := View (p_state p) (p_pid p) (p_parent p) (p_chan p).

Definition set_vstate (x : procstate) (v : view) : view := View x (v_pid v) (v_parent v) (v_chan v).
Definition set_vpid (x : Z) (v : view) : view := View (v_state v) x (v_parent v) (v_chan v).
Definition set_vparent (x : option nat) (v : view) : view := View (v_state v) (v_pid v) x (v_chan v).
Definition set_vchan (x : Z) (v : view) : view := View (v_state v) (v_pid v) (v_parent v) x.

(** A process that has a life of its own. *)
Definition alive (v : view) : Prop :=
  v_state v = SLEEPING ∨ v_state v = RUNNABLE ∨ v_state v = RUNNING.

(** Where a process is: outside the operations, in [fork] with the child [np]
    (built or not), asleep in [wait] or asleep elsewhere.  The last two last until
    the process runs again and returns from [sched]. *)
Inductive phase :=
| Idle
| Forking (np : nat) (built : bool)
| InWait
| Asleep.

Lemma fmap_alter_list {A B} (h : A → B) (f : A → A) (g : B → B) (p : nat) (l : list A) :
  (∀ x, h (f x) = g (h x)) → h <$> alter f p l = alter g p (h <$> l).
Proof.
  intros H. apply list_eq. intros i. rewrite list_lookup_fmap. destruct (decide (i = p)) as [-> |].
  - rewrite !list_lookup_alter_eq, list_lookup_fmap. destruct (l !! p); simpl; by rewrite ?H.
  - by rewrite !list_lookup_alter_ne, list_lookup_fmap.
Qed.

Lemma alter_alter_list {A} (f g : A → A) (p : nat) (l : list A) : alter f p (alter g p l) = alter (f ∘ g) p l.
Proof.
  apply list_eq. intros i. destruct (decide (i = p)) as [-> |].
  - rewrite !list_lookup_alter_eq. by destruct (l !! p).
  - by rewrite !list_lookup_alter_ne.
Qed.

Section spec.
Context {F : Type} `{!FileOps F}.
Context (kend kdata ptable trapret forkret_addr : Z).

Notation pst := (pst F).
Notation proc_addr := (proc_addr ptable).

Definition views (s : pst) : list view := view_of <$> s_proc s.

Record cfg := Cfg { g_st : pst; g_ph : nat → phase }.

Definition running (s : pst) (p : nat) : Prop := ∃ x, s_proc s !! p = Some x ∧ p_state x = RUNNING.

Definition wait_phase (r : option Z) : phase := match r with Some _ => Idle | None => InWait end.

Inductive pstep : cfg → cfg → Prop :=
| ps_take c cur np s s' ph :
    running s cur → ph cur = Idle → s_nextpid s < 2 ^ 31 - 1 →
    allocproc_take ptable c s = Ok (Some np, s') →
    pstep (Cfg s ph) (Cfg s' (fupd ph cur (Forking np false)))
| ps_full c cur s s' ph :
    running s cur → ph cur = Idle →
    allocproc_take ptable c s = Ok (None, s') →
    pstep (Cfg s ph) (Cfg s' ph)
| ps_build cur np b s s' ph :
    running s cur → ph cur = Forking np false →
    fork_build kend kdata trapret forkret_addr cur np s = Ok (b, s') →
    pstep (Cfg s ph) (Cfg s' (fupd ph cur (if b : bool then Forking np true else Idle)))
| ps_go c cur np pid s s' ph :
    running s cur → ph cur = Forking np true →
    fork_go ptable c np s = Ok (pid, s') →
    pstep (Cfg s ph) (Cfg s' (fupd ph cur Idle))
| ps_exit c cur s s' ph :
    running s cur → ph cur = Idle →
    exit ptable c cur s = Ok (tt, s') →
    pstep (Cfg s ph) (Cfg s' ph)
| ps_wait c cur r s s' ph :
    running s cur → ph cur = Idle →
    wait_begin kend ptable c cur s = Ok (r, s') →
    pstep (Cfg s ph) (Cfg s' (fupd ph cur (wait_phase r)))
| ps_wait_resume c cur r s s' ph :
    running s cur → ph cur = InWait →
    wait_resume kend ptable c cur s = Ok (r, s') →
    pstep (Cfg s ph) (Cfg s' (fupd ph cur (wait_phase r)))
| ps_sleep c cur chan lk s s' ph :
    running s cur → ph cur = Idle → chan ≠ 0 → (∀ p, (p < NPROC)%nat → chan ≠ proc_addr p) →
    sleep_begin ptable c (Some cur) chan lk s = Ok (tt, s') →
    pstep (Cfg s ph) (Cfg s' (fupd ph cur Asleep))
| ps_sleep_resume c cur lk s s' ph :
    running s cur → ph cur = Asleep →
    sleep_end ptable c cur lk s = Ok (tt, s') →
    pstep (Cfg s ph) (Cfg s' (fupd ph cur Idle))
| ps_wakeup c chan s s' ph :
    wakeup ptable c chan s = Ok (tt, s') →
    pstep (Cfg s ph) (Cfg s' ph)
| ps_kill c pid r s s' ph :
    kill ptable c pid s = Ok (r, s') →
    pstep (Cfg s ph) (Cfg s' ph)
| ps_yield c cur s s' ph :
    running s cur →
    yield_begin ptable c cur s = Ok (tt, s') →
    pstep (Cfg s ph) (Cfg s' ph)
| ps_pick p s s' ph :
    p_state (s_proc s !!! p) = RUNNABLE → (p < length (s_proc s))%nat →
    scheduler_pick p s = Ok (tt, s') →
    pstep (Cfg s ph) (Cfg s' ph)
| ps_grow cur n r s s' ph :
    running s cur → ph cur = Idle →
    growproc kend cur n s = Ok (r, s') →
    pstep (Cfg s ph) (Cfg s' ph)
| ps_other s s' ph :
    views s' = views s → s_initproc s' = s_initproc s → s_nextpid s' = s_nextpid s →
    pstep (Cfg s ph) (Cfg s' ph).

(** ** Invariant *)

(** A channel that is neither null nor the address of a process. *)
Definition other_chan (a : Z) : Prop := a ≠ 0 ∧ ∀ p, (p < NPROC)%nat → a ≠ proc_addr p.

Record pinv (t : list view) (i0 : nat) (next : Z) (ph : nat → phase) : Prop := {
  pi_len : length t = NPROC;
  pi_next : 0 < next;
  pi_init : ∃ v, t !! i0 = Some v ∧ alive v ∧ v_parent v = None;
  pi_pid i v : t !! i = Some v → 0 ≤ v_pid v < next ∧ (v_state v ≠ UNUSED → v_pid v ≠ 0);
  pi_uniq i j v w : t !! i = Some v → t !! j = Some w → v_pid v = v_pid w → v_pid v ≠ 0 → i = j;
  pi_parent i v q : t !! i = Some v → v_parent v = Some q → q ≠ i ∧ ∃ w, t !! q = Some w ∧ alive w;
  pi_free i v : t !! i = Some v → v_state v = UNUSED → v_parent v = None;
  pi_kin i v : t !! i = Some v → alive v ∨ v_state v = ZOMBIE → i ≠ i0 → v_parent v ≠ None;
  pi_embryo i v : t !! i = Some v → v_state v = EMBRYO → ∃ cur b, ph cur = Forking i b;
  pi_fork cur i b : ph cur = Forking i b →
    ∃ v, t !! i = Some v ∧ v_state v = EMBRYO ∧ v_parent v = if b then Some cur else None;
  pi_forks c1 c2 i b1 b2 : ph c1 = Forking i b1 → ph c2 = Forking i b2 → c1 = c2;
  pi_phase i : ph i ≠ Idle → ∃ v, t !! i = Some v ∧ alive v;
  pi_wait i v : t !! i = Some v → ph i = InWait → v_chan v = proc_addr i;
  pi_sleep i v : t !! i = Some v → v_state v = SLEEPING → ph i = InWait ∨ ph i = Asleep;
  pi_asleep i v : t !! i = Some v → ph i = Asleep → other_chan (v_chan v);
  pi_awake i v j w : t !! i = Some v → v_state v = SLEEPING → ph i = InWait →
    t !! j = Some w → v_parent w = Some i → v_state w ≠ ZOMBIE
}.

Definition cfg_inv (g : cfg) : Prop :=
  ∃ i0, s_initproc (g_st g) = Some i0 ∧ pinv (views (g_st g)) i0 (s_nextpid (g_st g)) (g_ph g).

(** ** What each operation does to the table

    [tpost a m Q]: when [m] returns from a state whose table is [a], the table it
    leaves satisfies [Q]. *)
Record table := Tab { t_v : list view; t_init : option nat; t_next : Z }.

Definition table_of (s : pst) : table := Tab (views s) (s_initproc s) (s_nextpid s).

Definition tpost {A} (a : table) (m : K pst A) (Q : A → table → Prop) : Prop :=
  ∀ s, table_of s = a → post m (λ r s', Q r (table_of s')) s.

(** The table with one slot, or all, changed. *)
Definition at_slot (p : nat) (g : view → view) (a : table) : table := Tab (alter g p (t_v a)) (t_init a) (t_next a).
Definition at_all (g : view → view) (a : table) : table := Tab (g <$> t_v a) (t_init a) (t_next a).

Definition wake_view (chan : Z) (v : view) : view :=
  if bool_decide (v_state v = SLEEPING) && (v_chan v =? chan) then set_vstate RUNNABLE v else v.

(** A slot given back by [wait]. *)
Definition free_view (v : view) : view := View UNUSED 0 None (v_chan v).

Lemma tpost_ret {A} a (x : A) (Q : A → table → Prop) : Q x a → tpost a (mret x) Q.
Proof. intros HQ s <-. by apply post_ret. Qed.

Lemma tpost_bind {A B} a (m : K pst A) (f : A → K pst B) Q :
  tpost a m (λ x a', tpost a' (f x) Q) → tpost a (m ≫= f) Q.
Proof.
  intros Hm s Hs. apply post_bind. eapply post_mono; [by apply Hm|]. intros x s' H. by apply H.
Qed.

Lemma tpost_mono {A} a (m : K pst A) (P Q : A → table → Prop) :
  tpost a m P → (∀ x a', P x a' → Q x a') → tpost a m Q.
Proof. intros Hm HPQ s Hs. eapply post_mono; [by apply Hm|]. intros x s' HP. by apply HPQ. Qed.

Lemma tpost_get a (Q : pst → table → Prop) : (∀ s, table_of s = a → Q s a) → tpost a kget Q.
Proof. intros HQ s Hs. apply post_get. rewrite Hs. by apply HQ. Qed.

Lemma tpost_getp a p (Q : proc → table → Prop) :
  (∀ x, view_of x = default (view_of proc0) (t_v a !! p) → Q x a) → tpost a (getp p) Q.
Proof.
  intros HQ s <-. unfold getp. apply post_gets. apply HQ. simpl. unfold views.
  rewrite list_lookup_fmap, list_lookup_total_alt. by destruct (s_proc s !! p).
Qed.

Lemma tpost_assert a b msg (Q : unit → table → Prop) : (b = true → Q tt a) → tpost a (kassert b msg) Q.
Proof. intros HQ s <-. apply post_assert. auto. Qed.

Lemma tpost_panic {A} a msg (Q : A → table → Prop) : tpost a (kpanic msg) Q.
Proof. intros s _. apply post_panic. Qed.

Lemma tpost_lk {A} a (m : K lkst A) (Q : A → table → Prop) : (∀ x, Q x a) → tpost a (on_lk m) Q.
Proof. intros HQ s <- x s' E. unfold on_lk in E. destruct (m (s_lk s)) as [[]| |]; [|done|done]. injection E as <- <-. apply HQ. Qed.

Lemma tpost_k {A} a (m : K kst A) (Q : A → table → Prop) : (∀ x, Q x a) → tpost a (on_k m) Q.
Proof. intros HQ s <- x s' E. unfold on_k in E. destruct (m (s_k s)) as [[]| |]; [|done|done]. injection E as <- <-. apply HQ. Qed.

Lemma tpost_f {A} a (m : K F A) (Q : A → table → Prop) : (∀ x, Q x a) → tpost a (on_f m) Q.
Proof. intros HQ s <- x s' E. unfold on_f in E. destruct (m (s_f s)) as [[]| |]; [|done|done]. injection E as <- <-. apply HQ. Qed.

Lemma tpost_upd a p f g (Q : unit → table → Prop) :
  (∀ x, view_of (f x) = g (view_of x)) → Q tt (at_slot p g a) → tpost a (upd p f) Q.
Proof.
  intros Hfg HQ s <-. apply post_mod. unfold table_of, views, at_slot in *. simpl in *.
  by rewrite (fmap_alter_list view_of f g).
Qed.

Lemma tpost_all a f g (Q : unit → table → Prop) :
  (∀ x, view_of (f x) = g (view_of x)) → Q tt (at_all g a) → tpost a (kmod (set_table (fmap f))) Q.
Proof.
  intros Hfg HQ s <-. apply post_mod. unfold table_of, views, at_all in *. simpl in *.
  rewrite <- list_fmap_compose. rewrite <- list_fmap_compose in HQ.
  erewrite list_fmap_ext; [exact HQ|]. intros. apply Hfg.
Qed.

(** An assignment to a field outside the view. *)
Lemma tpost_upd_same a p f (Q : unit → table → Prop) :
  (∀ x, view_of (f x) = view_of x) → Q tt a → tpost a (upd p f) Q.
Proof.
  intros Hf HQ. apply (tpost_upd a p f id); [done|]. destruct a. unfold at_slot. simpl.
  by rewrite list_alter_id.
Qed.

Lemma wake_one_view chan p : view_of (wake_one chan p) = wake_view chan (view_of p).
Proof. unfold wake_one, wake_view. simpl. by destruct (bool_decide _ && _). Qed.

Lemma tpost_nextpid a x (Q : unit → table → Prop) :
  Q tt (Tab (t_v a) (t_init a) x) → tpost a (kmod (set_nextpid x)) Q.
Proof. intros HQ s <-. by apply post_mod. Qed.

Lemma tpost_initproc a x (Q : unit → table → Prop) :
  Q tt (Tab (t_v a) x (t_next a)) → tpost a (kmod (set_initproc x)) Q.
Proof. intros HQ s <-. by apply post_mod. Qed.

Ltac tstep :=
  match goal with
  | |- tpost _ (mbind _ _) _ => apply tpost_bind
  | |- tpost _ (mret _) _ => apply tpost_ret
  | |- tpost _ (kpanic _) _ => apply tpost_panic
  | |- tpost _ (getp _) _ => apply tpost_getp; intros ? ?
  | |- tpost _ (kassert _ _) _ => apply tpost_assert; intros ?
  | |- tpost _ (on_lk _) _ => apply tpost_lk; intros ?
  | |- tpost _ (on_k _) _ => apply tpost_k; intros ?
  | |- tpost _ (on_f _) _ => apply tpost_f; intros ?
  | |- tpost _ (acquire_ptable _ _) _ => apply tpost_lk; intros ?
  | |- tpost _ (release_ptable _ _) _ => apply tpost_lk; intros ?
  | |- tpost _ (upd _ (set_pstate ?x)) _ => apply (tpost_upd _ _ _ (set_vstate x)); [done|]
  | |- tpost _ (upd _ (set_ppid ?x)) _ => apply (tpost_upd _ _ _ (set_vpid x)); [done|]
  | |- tpost _ (upd _ (set_pparent ?x)) _ => apply (tpost_upd _ _ _ (set_vparent x)); [done|]
  | |- tpost _ (upd _ (set_pchan ?x)) _ => apply (tpost_upd _ _ _ (set_vchan x)); [done|]
  | |- tpost _ (upd _ _) _ => apply tpost_upd_same; [done|]
  | |- tpost _ (kmod (set_nextpid _)) _ => apply tpost_nextpid
  | |- tpost _ (kmod (set_initproc _)) _ => apply tpost_initproc
  | |- tpost _ (wakeup1 ?ch) _ => apply (tpost_all _ _ (wake_view ch)); [intros ?; apply wake_one_view|]
  end.

Lemma at_slot_slot p f g a : at_slot p f (at_slot p g a) = at_slot p (f ∘ g) a.
Proof. unfold at_slot. simpl. by rewrite alter_alter_list. Qed.

Lemma take_table a c : tpost a (allocproc_take ptable c) (λ r a',
  match r with
  | None => a' = a
  | Some p => ∃ v, t_v a !! p = Some v ∧ v_state v = UNUSED ∧
      a' = Tab (alter (set_vpid (t_next a) ∘ set_vstate EMBRYO) p (t_v a)) (t_init a) (s32 (t_next a + 1))
  end).
Proof.
  unfold allocproc_take. tstep. tstep. tstep. apply tpost_get. intros s Hs.
  destruct (list_find _ (s_proc s)) as [[p y]|] eqn:Ef.
  - apply list_find_Some in Ef as (Hx & Hu & _). repeat tstep. exists (view_of y). subst a.
    split; [|split; [done|]].
    + simpl. unfold views. by rewrite list_lookup_fmap, Hx.
    + unfold at_slot. simpl. by rewrite alter_alter_list.
  - by repeat tstep.
Qed.

Lemma stack_table a p : tpost a (allocproc_stack trapret forkret_addr p) (λ r a',
  match r with
  | None => a' = at_slot p (set_vstate UNUSED) a
  | Some p' => p' = p ∧ a' = a
  end).
Proof. unfold allocproc_stack. do 3 tstep. tstep. destruct (_ =? 0); by repeat tstep. Qed.

(** [userinit] makes slot [p] the first process. *)
Lemma userinit_table a c init_start init_size :
  tpost a (userinit kend kdata ptable trapret forkret_addr init_start init_size c) (λ _ a',
    ∃ p v, t_v a !! p = Some v ∧ v_state v = UNUSED ∧
      a' = Tab (alter (set_vstate RUNNABLE ∘ set_vpid (t_next a)) p (t_v a)) (Some p) (s32 (t_next a + 1))).
Proof.
  unfold userinit, allocproc. tstep. tstep. eapply tpost_mono; [apply take_table|]. intros [p|] a1.
  2:{ intros _. by repeat tstep. }
  intros (v & Hv & Hs & ->). eapply tpost_mono; [apply stack_table|]. intros [p'|] a1.
  2:{ intros _. by repeat tstep. }
  intros [-> ->]. repeat tstep. exists p, v. split; [done|]. split; [done|]. unfold at_slot. simpl.
  by rewrite alter_alter_list.
Qed.

Lemma fork_files_table a cur np k : ∀ i, tpost a (fork_files cur np i k) (λ _ a', a' = a).
Proof.
  induction k as [|k IH]; intros i; simpl; [by tstep|]. tstep. tstep. tstep.
  destruct (negb _); repeat tstep; apply IH.
Qed.

Lemma build_table a cur np : tpost a (fork_build kend kdata trapret forkret_addr cur np) (λ b a',
  a' = at_slot np (if b then set_vparent (Some cur) else set_vstate UNUSED) a).
Proof.
  unfold fork_build. tstep. eapply tpost_mono; [apply stack_table|]. intros [p'|] a1.
  2:{ intros ->. by tstep. }
  intros [-> ->]. unfold fork_copy. do 6 tstep. destruct (_ =? 0); [by repeat tstep|].
  repeat tstep. eapply tpost_mono; [apply fork_files_table|]. intros _ a' ->. by repeat tstep.
Qed.

Lemma go_table a c np : tpost a (fork_go ptable c np) (λ _ a', a' = at_slot np (set_vstate RUNNABLE) a).
Proof. unfold fork_go. by repeat tstep. Qed.

Lemma sched_table a c p : tpost a (sched ptable c p) (λ _ a', a' = a).
Proof. unfold sched. by repeat tstep. Qed.

Lemma yield_table a c p : tpost a (yield_begin ptable c p) (λ _ a', a' = at_slot p (set_vstate RUNNABLE) a).
Proof. unfold yield_begin. repeat tstep. apply sched_table. Qed.

Lemma sleep_table a c p chan lk : tpost a (sleep_begin ptable c (Some p) chan lk)
  (λ _ a', a' = at_slot p (set_vstate SLEEPING ∘ set_vchan chan) a).
Proof.
  unfold sleep_begin. rewrite <- at_slot_slot.
  destruct (negb (lk =? ptable)); repeat tstep; apply sched_table.
Qed.

Lemma sleep_end_table a c p lk : tpost a (sleep_end ptable c p lk) (λ _ a', a' = at_slot p (set_vchan 0) a).
Proof. unfold sleep_end. destruct (negb (lk =? ptable)); by repeat tstep. Qed.

Lemma wakeup_table a c chan : tpost a (wakeup ptable c chan) (λ _ a', a' = at_all (wake_view chan) a).
Proof. unfold wakeup. by repeat tstep. Qed.

Lemma kill_table a c pid : tpost a (kill ptable c pid) (λ _ a',
  a' = a ∨ ∃ p v, t_v a !! p = Some v ∧ v_state v = SLEEPING ∧ a' = at_slot p (set_vstate RUNNABLE) a).
Proof.
  unfold kill. do 3 tstep. apply tpost_get. intros s Hs.
  destruct (list_find _ (s_proc s)) as [[p y]|] eqn:Ef; [|repeat tstep; by left].
  apply list_find_Some in Ef as (Hx & _ & _). do 3 tstep.
  case_bool_decide as Hz; repeat tstep; [right|by left].
  exists p, (view_of y). subst a. simpl. unfold views. rewrite list_lookup_fmap, Hx. done.
Qed.

Lemma pick_table a p : tpost a (scheduler_pick p) (λ _ a', a' = at_slot p (set_vstate RUNNING) a).
Proof. unfold scheduler_pick, switchuvm. by repeat tstep. Qed.

Lemma grow_table a cur n : tpost a (growproc kend cur n) (λ _ a', a' = a).
Proof.
  unfold growproc, switchuvm. do 3 tstep.
  destruct (0 <? n); [|destruct (n <? 0)]; tstep; destruct (_ && _); by repeat tstep.
Qed.

Lemma wait_free_table a i : tpost a (wait_free kend i) (λ pid a',
  (∀ v, t_v a !! i = Some v → pid = v_pid v) ∧ a' = at_slot i free_view a).
Proof.
  unfold wait_free. repeat tstep. rewrite !at_slot_slot. split; [|done].
  intros v Hv. rewrite Hv in H. simpl in H. by rewrite <- H.
Qed.

Lemma wait_scan_table a cur k : ∀ i h, tpost a (wait_scan kend cur i k h) (λ r a',
  match r with
  | inl pid => ∃ j v, t_v a !! j = Some v ∧ v_parent v = Some cur ∧ v_state v = ZOMBIE ∧ pid = v_pid v ∧
      a' = at_slot j free_view a
  | inr _ => a' = a ∧ ∀ j v, (i ≤ j < i + k)%nat → t_v a !! j = Some v → v_parent v = Some cur → v_state v ≠ ZOMBIE
  end).
Proof.
  induction k as [|k IH]; intros i h; simpl; [tstep; split; [done|lia]|].
  tstep. apply tpost_getp. intros x Hx.
  assert (Hnext : ∀ h', (∀ v, t_v a !! i = Some v → v_parent v = Some cur → v_state v ≠ ZOMBIE) →
    tpost a (wait_scan kend cur (S i) k h') (λ r a', match r with
      | inl pid => ∃ j v, t_v a !! j = Some v ∧ v_parent v = Some cur ∧ v_state v = ZOMBIE ∧ pid = v_pid v ∧
          a' = at_slot j free_view a
      | inr _ => a' = a ∧ ∀ j v, (i ≤ j < i + S k)%nat → t_v a !! j = Some v → v_parent v = Some cur → v_state v ≠ ZOMBIE
      end)).
  { intros h' Hi. eapply tpost_mono; [apply IH|]. intros [pid|h1] a'; [done|]. intros [-> Hr]. split; [done|].
    intros j v Hj Hv Hp. destruct (decide (j = i)) as [-> |]; [by apply Hi|]. apply (Hr j v); [lia|done|done]. }
  assert (Hv : ∀ v, t_v a !! i = Some v → view_of x = v) by (intros v E; by rewrite E in Hx).
  case_bool_decide as Hp; simpl; [|apply Hnext; intros v E; by rewrite <- (Hv v E)].
  case_bool_decide as Hz; [|apply Hnext; intros v E; by rewrite <- (Hv v E)].
  tstep. eapply tpost_mono; [apply wait_free_table|]. intros pid a' [Hpid ->]. tstep.
  destruct (t_v a !! i) as [v|] eqn:Ev.
  - exists i, v. pose proof (Hv v eq_refl). subst v. naive_solver.
  - apply (f_equal v_state) in Hx. simpl in Hx. congruence.
Qed.

(** No exited child left. *)
Definition no_zombie (cur : nat) (a : table) : Prop :=
  ∀ j v, (j < NPROC)%nat → t_v a !! j = Some v → v_parent v = Some cur → v_state v ≠ ZOMBIE.

(** A round of [wait]: an exited child collected, nothing to wait for, or asleep
    with no exited child. *)
Definition waited (cur : nat) (a : table) (r : option Z) (a' : table) : Prop :=
  match r with
  | Some pid =>
      (a' = a ∧ no_zombie cur a) ∨
      ∃ j v, t_v a !! j = Some v ∧ v_parent v = Some cur ∧ v_state v = ZOMBIE ∧ pid = v_pid v ∧
        a' = at_slot j free_view a
  | None => a' = at_slot cur (set_vstate SLEEPING ∘ set_vchan (proc_addr cur)) a ∧ no_zombie cur a
  end.

Lemma wait_round_table a c cur : tpost a (wait_round kend ptable c cur) (waited cur a).
Proof.
  unfold wait_round. tstep. eapply tpost_mono; [apply wait_scan_table|]. intros [pid|h] a1.
  - intros (j & v & H1 & H2 & H3 & H4 & ->). repeat tstep. right. by exists j, v.
  - intros [-> Hz].
    assert (Hz' : no_zombie cur a) by (intros j v Hj; apply Hz; lia).
    tstep. tstep. destruct (_ || _); [repeat tstep; by left|].
    tstep. eapply tpost_mono; [apply sleep_table|]. intros _ a1 ->. tstep. done.
Qed.

(** What [exit] did when it has passed on the children of the slots below [i]. *)
Record passed (cur : nat) (a : table) (i : nat) (a' : table) : Prop := {
  ex_init : t_init a' = t_init a;
  ex_next : t_next a' = t_next a;
  ex_len : length (t_v a') = length (t_v a);
  ex_view j v' : t_v a' !! j = Some v' → ∃ v, t_v a !! j = Some v ∧ v_pid v' = v_pid v ∧ v_chan v' = v_chan v ∧
    (v_state v' = v_state v ∨ v_state v = SLEEPING ∧ v_state v' = RUNNABLE) ∧
    v_parent v' = if bool_decide ((j < i)%nat ∧ v_parent v = Some cur) then t_init a else v_parent v;
  ex_wake j v k w' : t_v a !! j = Some v → (j < i)%nat → v_parent v = Some cur → v_state v = ZOMBIE →
    t_v a' !! k = Some w' → v_state w' = SLEEPING → v_chan w' ≠ chan_of ptable (t_init a)
}.

Lemma passed_refl cur a : passed cur a 0 a.
Proof.
  split; try done.
  - intros j v Hv. exists v. rewrite bool_decide_eq_false_2 by (intros [? _]; lia). naive_solver.
  - lia.
Qed.

Lemma lookup_at_slot p g a j : t_v (at_slot p g a) !! j = if decide (j = p) then g <$> t_v a !! j else t_v a !! j.
Proof. unfold at_slot. simpl. case_decide; subst; [by rewrite list_lookup_alter_eq|by rewrite list_lookup_alter_ne]. Qed.

Lemma lookup_at_all g a j : t_v (at_all g a) !! j = g <$> t_v a !! j.
Proof. apply list_lookup_fmap. Qed.

Lemma wake_view_spec chan v : v_pid (wake_view chan v) = v_pid v ∧ v_parent (wake_view chan v) = v_parent v ∧
  v_chan (wake_view chan v) = v_chan v ∧
  ((v_state (wake_view chan v) = v_state v ∧ (v_state v = SLEEPING → v_chan v ≠ chan)) ∨
   (v_state v = SLEEPING ∧ v_state (wake_view chan v) = RUNNABLE)).
Proof.
  unfold wake_view. case_bool_decide; simpl; [|naive_solver]. destruct (Z.eqb_spec (v_chan v) chan); naive_solver.
Qed.

Lemma passed_skip cur a i a1 :
  passed cur a i a1 → (∀ v, t_v a1 !! i = Some v → v_parent v ≠ Some cur) → passed cur a (S i) a1.
Proof.
  intros [H1 H2 H3 H4 H5] Hi. split; [done..| |].
  - intros j v' Hv'. destruct (H4 j v' Hv') as (v & Hv & Ep & Ec & Es & Eq). exists v.
    do 4 (split; [done|]). rewrite Eq. destruct (decide (j = i)) as [-> |].
    + rewrite (bool_decide_eq_false_2 (i < i ∧ _)%nat) by (intros [? _]; lia).
      rewrite bool_decide_eq_false_2; [done|]. intros [_ E]. apply (Hi v' Hv'). rewrite Eq.
      rewrite bool_decide_eq_false_2; [done|intros [? _]; lia].
    + erewrite (bool_decide_ext (j < i ∧ _)%nat); [done|]. split; intros []; split; (done || lia).
  - intros j v k w' Hv Hj Hp Hz Hw Hs. destruct (decide (j = i)) as [-> |].
    + exfalso. assert (is_Some (t_v a1 !! i)) as [v1 Hv1].
      { apply lookup_lt_is_Some. rewrite H3. by eapply lookup_lt_Some. }
      apply (Hi v1 Hv1). destruct (H4 i v1 Hv1) as (v0 & Hv0 & _ & _ & _ & ->).
      rewrite bool_decide_eq_false_2 by (intros [? _]; lia). congruence.
    + by apply (H5 j v k w'); [|lia|..].
Qed.

(** The child of slot [i] handed over. *)
Lemma passed_child cur a i a1 v1 :
  passed cur a i a1 → t_v a1 !! i = Some v1 → v_parent v1 = Some cur → v_state v1 ≠ ZOMBIE →
  passed cur a (S i) (at_slot i (set_vparent (t_init a)) a1).
Proof.
  intros [H1 H2 H3 H4 H5] Hv1 Hp1 Hz1.
  destruct (H4 i v1 Hv1) as (v0 & Hv0 & Ep0 & Ec0 & Es0 & Eq0). rewrite bool_decide_eq_false_2 in Eq0 by (intros [? _]; lia).
  split; [done|done|by simpl; rewrite length_alter| |].
  - intros j v'. rewrite lookup_at_slot. case_decide as Hj; [subst j|].
    + rewrite Hv1. intros [= <-]. exists v0. simpl. do 4 (split; [done|]).
      rewrite bool_decide_eq_true_2; [done|]. split; [lia|congruence].
    + intros Hv'. destruct (H4 j v' Hv') as (v & Hv & Ep & Ec & Es & Eq). exists v. do 4 (split; [done|]).
      rewrite Eq. erewrite (bool_decide_ext (j < i ∧ _)%nat); [done|]. split; intros []; split; (done || lia).
  - intros j v k w' Hv Hj Hp Hz Hw Hs.
    assert (Hji : j ≠ i) by (intros ->; rewrite Hv0 in Hv; injection Hv as <-; destruct Es0 as [E|[E _]]; congruence).
    rewrite lookup_at_slot in Hw. case_decide as Hk; [subst k|by eapply (H5 j v k w'); [|lia|..]].
    rewrite Hv1 in Hw. injection Hw as <-. simpl in *. by apply (H5 j v i v1); [|lia|..].
Qed.

Lemma passed_zombie cur a i a1 v1 :
  passed cur a i a1 → t_v a1 !! i = Some v1 → v_parent v1 = Some cur → v_state v1 = ZOMBIE →
  passed cur a (S i) (at_all (wake_view (chan_of ptable (t_init a))) (at_slot i (set_vparent (t_init a)) a1)).
Proof.
  intros [H1 H2 H3 H4 H5] Hv1 Hp1 Hz1. set (ch := chan_of ptable (t_init a)).
  destruct (H4 i v1 Hv1) as (v0 & Hv0 & Ep0 & Ec0 & Es0 & Eq0). rewrite bool_decide_eq_false_2 in Eq0 by (intros [? _]; lia).
  split; [done|done|by simpl; rewrite length_fmap, length_alter| |].
  - intros j v'. rewrite lookup_at_all. intros (v2 & Hv2 & ->)%fmap_Some. rewrite lookup_at_slot in Hv2.
    destruct (wake_view_spec ch v2) as (W1 & W2 & W3 & W4). rewrite W1, W2, W3. case_decide as Hj; [subst j|].
    + rewrite Hv1 in Hv2. injection Hv2 as <-. simpl in *. exists v0. do 3 (split; [done|]). split; [left|].
      * destruct W4 as [[-> _]|[? _]]; [|congruence]. destruct Es0 as [|[_ ?]]; congruence.
      * rewrite bool_decide_eq_true_2; [done|]. split; [lia|congruence].
    + destruct (H4 j v2 Hv2) as (v & Hv & Ep & Ec & Es & Eq). exists v. do 3 (split; [done|]). split.
      * destruct W4 as [[-> _]|[E ->]]; [done|]. right. destruct Es as [|[]]; split; congruence.
      * rewrite Eq. erewrite (bool_decide_ext (j < i ∧ _)%nat); [done|]. split; intros []; split; (done || lia).
  - intros j v k w' _ _ _ _ Hw Hs. rewrite lookup_at_all in Hw.
    apply fmap_Some in Hw as (w & _ & ->). destruct (wake_view_spec ch w) as (_ & _ & -> & [[E Hne]|[_ E]]); [|congruence].
    apply Hne. congruence.
Qed.

Lemma exit_children_table cur a k : ∀ i a1, passed cur a i a1 →
  tpost a1 (exit_children ptable cur i k) (λ _ a', passed cur a (i + k) a').
Proof.
  induction k as [|k IH]; intros i a1 Ha; simpl; [tstep; by rewrite Nat.add_0_r|].
  tstep. apply tpost_get. intros s Hs. tstep.
  assert (Hinit : s_initproc s = t_init a) by (rewrite <- (ex_init _ _ _ _ Ha), <- Hs; done).
  assert (Hlook : ∀ v, t_v a1 !! i = Some v → view_of (s_proc s !!! i) = v).
  { intros v. rewrite <- Hs. simpl. unfold views. rewrite list_lookup_fmap, list_lookup_total_alt.
    intros (x & -> & ->)%fmap_Some. done. }
  replace (i + S k)%nat with (S i + k)%nat by lia.
  case_bool_decide as Hp.
  2:{ tstep. apply IH. apply passed_skip; [done|]. intros v Hv. by rewrite <- (Hlook v Hv). }
  assert (t_v a1 !! i = Some (view_of (s_proc s !!! i))) as Hv.
  { rewrite <- Hs. simpl. unfold views. rewrite list_lookup_fmap, list_lookup_total_alt in *.
    by destruct (s_proc s !! i). }
  rewrite Hinit. case_bool_decide as Hz; repeat tstep; apply IH.
  - by eapply passed_zombie.
  - by eapply passed_child.
Qed.

Lemma exit_files_table a cur k : ∀ i, tpost a (exit_files cur i k) (λ _ a', a' = a).
Proof.
  induction k as [|k IH]; intros i; simpl; [by tstep|]. do 3 tstep.
  destruct (negb _); repeat tstep; apply IH.
Qed.

(** [exit]: the parent woken, the children passed on, the caller a zombie. *)
Lemma exit_table a c cur : tpost a (exit ptable c cur) (λ _ a',
  t_init a ≠ Some cur ∧ ∃ a1,
    passed cur (at_all (wake_view (chan_of ptable (v_parent (default (view_of proc0) (t_v a !! cur))))) a) NPROC a1 ∧
    a' = at_slot cur (set_vstate ZOMBIE) a1).
Proof.
  unfold exit, exit_close, exit_finish. tstep. tstep. apply tpost_get. intros s Hs. tstep. tstep.
  apply negb_true_iff, bool_decide_eq_false in H. tstep. eapply tpost_mono; [apply exit_files_table|].
  intros _ a1 ->. repeat tstep. rewrite <- H1.
  eapply tpost_mono; [apply exit_children_table, passed_refl|]. intros [] a1 Ha1. repeat tstep.
  eapply tpost_mono; [apply sched_table|]. intros _ a2 ->. split; [by subst a|]. by exists a1.
Qed.

End spec.
