(* ===== verification/ProcInv.v ===== *)
(** * The invariant of the process table is kept by every step *)

From S2P Require Import Prelude Str Mmu Spinlock Kalloc Vm Proc ProcSpec.

Section inv.
Context (ptable : Z).

Notation pinv := (pinv ptable).
Notation other_chan := (other_chan ptable).

Implicit Types (t : list view) (ph : nat → phase).

(** ** Tables changed at one slot *)

Lemma alter_case t g p v i w : t !! p = Some v → alter g p t !! i = Some w →
  (i = p ∧ w = g v) ∨ (i ≠ p ∧ t !! i = Some w).
Proof.
  intros Hv. destruct (decide (i = p)) as [-> |].
  - rewrite list_lookup_alter_eq, Hv. intros [= <-]. by left.
  - rewrite list_lookup_alter_ne by done. by right.
Qed.

Lemma alter_at t g p v : t !! p = Some v → alter g p t !! p = Some (g v).
Proof. intros Hv. by rewrite list_lookup_alter_eq, Hv. Qed.

Lemma alter_other t g p i : i ≠ p → alter g p t !! i = t !! i.
Proof. intros. by rewrite list_lookup_alter_ne. Qed.

(** A live slot stays live when the change keeps life. *)
Lemma alter_alive t g p v q : t !! p = Some v → (alive v → alive (g v)) →
  (∃ w, t !! q = Some w ∧ alive w) → ∃ w, alter g p t !! q = Some w ∧ alive w.
Proof.
  intros Hv Hg (w & Hw & Ha). destruct (decide (q = p)) as [-> |].
  - exists (g v). rewrite (alter_at t g p v Hv). assert (w = v) by congruence. subst. auto.
  - exists w. by rewrite alter_other.
Qed.

Lemma alter_alive_ne t g p q : q ≠ p →
  (∃ w, t !! q = Some w ∧ alive w) → ∃ w, alter g p t !! q = Some w ∧ alive w.
Proof. intros Hne (w & Hw & Ha). exists w. by rewrite alter_other. Qed.

(** Split every lookup in a changed table. *)
Ltac slots Hv :=
  repeat match goal with
  | H : alter _ _ _ !! _ = Some _ |- _ =>
      apply (alter_case _ _ _ _ _ _ Hv) in H; first [destruct H as [[-> ->]|[? H]] | destruct H as [[_ ->]|[? H]]]
  end.

Lemma fupd_phase ph p x i y : fupd ph p x i = y → (i = p ∧ x = y) ∨ (i ≠ p ∧ ph i = y).
Proof. unfold fupd. case_decide; auto. Qed.

Lemma pinv_ext t i0 n ph ph' : (∀ i, ph' i = ph i) → pinv t i0 n ph → pinv t i0 n ph'.
Proof.
  intros E []. split; try done; intros *; rewrite ?E; eauto.
  intros H1 H2. destruct (pi_embryo i v H1 H2) as (cur & b & ?). exists cur, b. by rewrite E.
Qed.

(** Only who sleeps and who runs has changed, and nobody fell asleep. *)
Lemma pinv_states t t' i0 n ph : length t' = length t →
  (∀ i v', t' !! i = Some v' → ∃ v, t !! i = Some v ∧
     v_pid v' = v_pid v ∧ v_parent v' = v_parent v ∧ v_chan v' = v_chan v ∧
     (v_state v' = v_state v ∨ alive v ∧ alive v' ∧ v_state v' ≠ SLEEPING)) →
  pinv t i0 n ph → pinv t' i0 n ph.
Proof.
  intros Hlen Hch Hi.
  assert (Hfor : ∀ i v, t !! i = Some v → ∃ v', t' !! i = Some v' ∧
     v_pid v' = v_pid v ∧ v_parent v' = v_parent v ∧ v_chan v' = v_chan v ∧
     (v_state v' = v_state v ∨ alive v ∧ alive v' ∧ v_state v' ≠ SLEEPING)).
  { intros i v Hv. assert (is_Some (t' !! i)) as [v' Hv'].
    { apply lookup_lt_is_Some. rewrite Hlen. by eapply lookup_lt_Some. }
    destruct (Hch i v' Hv') as (v0 & Hv0 & ?). assert (v0 = v) by congruence. subst. by exists v'. }
  assert (Hal : ∀ q, (∃ w, t !! q = Some w ∧ alive w) → ∃ w, t' !! q = Some w ∧ alive w).
  { intros q (w & Hw & Ha). destruct (Hfor q w Hw) as (w' & Hw' & _ & _ & _ & [E|(_ & ? & _)]); exists w'; [|done].
    split; [done|]. unfold alive in *. by rewrite E. }
  assert (Hdead : ∀ v v', v_state v' = v_state v ∨ alive v ∧ alive v' ∧ v_state v' ≠ SLEEPING →
    ∀ st, ¬ alive (View st 0 None 0) → v_state v' = st → v_state v = st).
  { intros v v' [E|(_ & Ha & _)] st Hn Hst; [congruence|]. destruct Hn. unfold alive in *. simpl. by rewrite <- Hst. }
  assert (Hslp : ∀ v v', v_state v' = v_state v ∨ alive v ∧ alive v' ∧ v_state v' ≠ SLEEPING →
    v_state v' = SLEEPING → v_state v = SLEEPING) by (intros v v' [E|(_ & _ & ?)] ?; congruence).
  split.
  - rewrite Hlen. apply Hi.
  - apply Hi.
  - destruct (pi_init _ _ _ _ _ Hi) as (v & Hv & Ha & Hp).
    destruct (Hal i0) as (w & Hw & Haw); [by exists v|]. exists w. split; [done|]. split; [done|].
    destruct (Hch i0 w Hw) as (v0 & Hv0 & _ & E & _). congruence.
  - intros i v' Hv'. destruct (Hch i v' Hv') as (v & Hv & -> & _ & _ & Es).
    destruct (pi_pid _ _ _ _ _ Hi i v Hv) as [H1 H2]. split; [done|]. intros Hs. apply H2. intros E. apply Hs.
    destruct Es as [->|(Ha & _)]; [done|]. unfold alive in Ha. rewrite E in Ha. naive_solver.
  - intros i j v' w' (v & Hv & -> & _)%Hch (w & Hw & -> & _)%Hch. by eapply (pi_uniq _ _ _ _ _ Hi).
  - intros i v' q (v & Hv & _ & -> & _)%Hch Hq. destruct (pi_parent _ _ _ _ _ Hi i v q Hv Hq) as [? ?]. auto.
  - intros i v' (v & Hv & _ & -> & _ & Es)%Hch Hs. apply (pi_free _ _ _ _ _ Hi i v Hv).
    apply (Hdead v v' Es UNUSED); [|done]. intros [|[|]]; done.
  - intros i v' (v & Hv & _ & -> & _ & Es)%Hch Hs. apply (pi_kin _ _ _ _ _ Hi i v Hv).
    destruct Es as [E|(Ha & _)]; [|by left]. unfold alive in *. by rewrite <- E.
  - intros i v' (v & Hv & _ & _ & _ & Es)%Hch Hs. apply (pi_embryo _ _ _ _ _ Hi i v Hv).
    apply (Hdead v v' Es EMBRYO); [|done]. intros [|[|]]; done.
  - intros cur i b Hf. destruct (pi_fork _ _ _ _ _ Hi cur i b Hf) as (v & Hv & Hs & Hp).
    destruct (Hfor i v Hv) as (v' & Hv' & _ & E & _ & Es). exists v'. split; [done|]. rewrite E. split; [|done].
    destruct Es as [->|(Ha & _)]; [done|]. unfold alive in Ha. rewrite Hs in Ha. naive_solver.
  - apply Hi.
  - intros i Hne. by apply Hal, (pi_phase _ _ _ _ _ Hi).
  - intros i v' (v & Hv & _ & _ & -> & _)%Hch. by apply (pi_wait _ _ _ _ _ Hi).
  - intros i v' (v & Hv & _ & _ & _ & Es)%Hch Hs. apply (pi_sleep _ _ _ _ _ Hi i v Hv). by eapply Hslp.
  - intros i v' (v & Hv & _ & _ & -> & _)%Hch. by apply (pi_asleep _ _ _ _ _ Hi).
  - intros i v' j w' (v & Hv & _ & _ & _ & Es)%Hch Hs Hph (w & Hw & _ & -> & _ & Ew)%Hch Hp Hz.
    eapply (pi_awake _ _ _ _ _ Hi i v j w); [done|by eapply Hslp|done|done|done|].
    apply (Hdead w w' Ew ZOMBIE); [|done]. intros [|[|]]; done.
Qed.

(** ** Transitions of a process that is in no operation *)

Section transition.
Context (t : list view) (i0 : nat) (n : Z) (ph : nat → phase) (Hi : pinv t i0 n ph).

Lemma no_fork_of p v : t !! p = Some v → v_state v ≠ EMBRYO → ∀ c b, ph c ≠ Forking p b.
Proof.
  intros Hv Hs c b Hf. destruct (pi_fork _ _ _ _ _ Hi c p b Hf) as (w & Hw & E & _). congruence.
Qed.

Lemma not_init p v : t !! p = Some v → ¬ alive v → p ≠ i0.
Proof. intros Hv Ha ->. destruct (pi_init _ _ _ _ _ Hi) as (w & Hw & ? & _). congruence. Qed.

Lemma dead_idle p v : t !! p = Some v → ¬ alive v → ph p = Idle.
Proof.
  intros Hv Ha. destruct (ph p) eqn:E; [done|..];
    (destruct (pi_phase _ _ _ _ _ Hi p) as (w & Hw & ?); [by rewrite E|congruence]).
Qed.

Lemma pinv_take cur p v u : t !! p = Some v → v_state v = UNUSED → t !! cur = Some u → v_state u = RUNNING →
  ph cur = Idle →
  pinv (alter (set_vpid n ∘ set_vstate EMBRYO) p t) i0 (n + 1) (fupd ph cur (Forking p false)).
Proof using Hi.
  intros Hv Hs Hu Hr Hid. pose proof (pi_next _ _ _ _ _ Hi) as Hn.
  assert (Hna : ¬ alive v) by (unfold alive; rewrite Hs; naive_solver).
  assert (Hcp : cur ≠ p) by congruence. pose proof (not_init p v Hv Hna) as Hp0.
  pose proof (dead_idle p v Hv Hna) as Hpi. pose proof (no_fork_of p v Hv) as Hnf. rewrite Hs in Hnf.
  pose proof (pi_free _ _ _ _ _ Hi p v Hv Hs) as Hpar.
  assert (Hal : ∀ q, (∃ w, t !! q = Some w ∧ alive w) →
    ∃ w, alter (set_vpid n ∘ set_vstate EMBRYO) p t !! q = Some w ∧ alive w).
  { intros q Hq. by apply (alter_alive t _ p v q Hv). }
  split.
  - rewrite length_alter. apply Hi.
  - lia.
  - destruct (pi_init _ _ _ _ _ Hi) as (w & Hw & Ha & Hwp). exists w. by rewrite alter_other.
  - intros i w Hw. slots Hv; simpl; [split; [lia|lia]|].
    destruct (pi_pid _ _ _ _ _ Hi i w Hw) as [? ?]. split; [lia|done].
  - intros i j w1 w2 H1 H2. slots Hv; simpl; [done|intros E _..|by eapply (pi_uniq _ _ _ _ _ Hi)].
    + destruct (pi_pid _ _ _ _ _ Hi i w1 H1). lia.
    + destruct (pi_pid _ _ _ _ _ Hi j w2 H2). lia.
  - intros i w q Hw Hq. slots Hv; simpl in Hq; [congruence|].
    destruct (pi_parent _ _ _ _ _ Hi i w q Hw Hq) as [? ?]. auto.
  - intros i w Hw. slots Hv; [done|]. by eapply (pi_free _ _ _ _ _ Hi).
  - intros i w Hw. slots Hv; [intros [[|[|]]|]; done|]. by eapply (pi_kin _ _ _ _ _ Hi).
  - intros i w Hw He. slots Hv; [exists cur, false; by rewrite fupd_eq|].
    destruct (pi_embryo _ _ _ _ _ Hi i w Hw He) as (c & b & Hc). exists c, b.
    rewrite fupd_ne; [done|]. congruence.
  - intros c i b [[-> [= <- <-]]|[Hne Hc]]%fupd_phase.
    + exists ((set_vpid n ∘ set_vstate EMBRYO) v). by rewrite (alter_at _ _ _ v Hv).
    + destruct (pi_fork _ _ _ _ _ Hi c i b Hc) as (w & Hw & He & Hq). exists w.
      rewrite alter_other; [done|]. congruence.
  - intros c1 c2 i b1 b2 [[-> [= -> ->]]|[N1 H1]]%fupd_phase [[-> E2]|[N2 H2]]%fupd_phase;
      [done|by apply Hnf in H2|injection E2 as -> _; by apply Hnf in H1|by eapply (pi_forks _ _ _ _ _ Hi)].
  - intros i Hne. apply Hal. destruct (decide (i = cur)) as [-> |]; [exists u; unfold alive; by rewrite Hr; eauto|].
    rewrite fupd_ne in Hne by done. by eapply (pi_phase _ _ _ _ _ Hi).
  - intros i w Hw [[-> [=]]|[? Hph]]%fupd_phase. slots Hv; [congruence|]. by eapply (pi_wait _ _ _ _ _ Hi).
  - intros i w Hw Hsl. slots Hv; [done|]. destruct (decide (i = cur)) as [-> |]; [congruence|].
    rewrite fupd_ne by done. by eapply (pi_sleep _ _ _ _ _ Hi i w).
  - intros i w Hw [[-> [=]]|[? Hph]]%fupd_phase. slots Hv; [congruence|]. by eapply (pi_asleep _ _ _ _ _ Hi i w).
  - intros i w j x Hw Hsl [[-> [=]]|[? Hph]]%fupd_phase Hx. slots Hv; try done.
    by eapply (pi_awake _ _ _ _ _ Hi i w j x).
Qed.

(** The phase of [cur] changes, and it is not asleep. *)
Lemma phase_of cur x i u : t !! cur = Some u → v_state u = RUNNING →
  (∀ w, t !! i = Some w → v_state w = SLEEPING → fupd ph cur x i = ph i).
Proof. intros Hu Hr w Hw Hs. rewrite fupd_ne; [done|]. congruence. Qed.

(** The child has its memory, files and parent. *)
Lemma pinv_built cur p u : t !! cur = Some u → v_state u = RUNNING → ph cur = Forking p false →
  pinv (alter (set_vparent (Some cur)) p t) i0 n (fupd ph cur (Forking p true)).
Proof using Hi.
  intros Hu Hr Hf. destruct (pi_fork _ _ _ _ _ Hi cur p false Hf) as (v & Hv & Hs & Hpar).
  assert (Hna : ¬ alive v) by (unfold alive; rewrite Hs; naive_solver).
  assert (Hcp : cur ≠ p) by congruence. pose proof (not_init p v Hv Hna) as Hp0.
  pose proof (dead_idle p v Hv Hna) as Hpi.
  assert (Hal : ∀ q, (∃ w, t !! q = Some w ∧ alive w) → ∃ w, alter (set_vparent (Some cur)) p t !! q = Some w ∧ alive w).
  { intros q Hq. by apply (alter_alive t _ p v q Hv). }
  assert (Hcur : ∃ w, t !! cur = Some w ∧ alive w) by (exists u; unfold alive; rewrite Hr; eauto).
  split.
  - rewrite length_alter. apply Hi.
  - apply Hi.
  - destruct (pi_init _ _ _ _ _ Hi) as (w & Hw & Ha & Hwp). exists w. by rewrite alter_other.
  - intros i w Hw. slots Hv; [by apply (pi_pid _ _ _ _ _ Hi p v)|by eapply (pi_pid _ _ _ _ _ Hi)].
  - intros i j w1 w2 H1 H2. slots Hv; simpl.
    + done.
    + by apply (pi_uniq _ _ _ _ _ Hi i p w1 v).
    + by apply (pi_uniq _ _ _ _ _ Hi p j v w2).
    + by apply (pi_uniq _ _ _ _ _ Hi i j w1 w2).
  - intros i w q Hw Hq. slots Hv; simpl in Hq; [injection Hq as <-; auto|].
    destruct (pi_parent _ _ _ _ _ Hi i w q Hw Hq) as [? ?]. auto.
  - intros i w Hw. slots Hv; [simpl; congruence|]. by eapply (pi_free _ _ _ _ _ Hi).
  - intros i w Hw. slots Hv; [done|]. by eapply (pi_kin _ _ _ _ _ Hi).
  - intros i w Hw He. slots Hv; [exists cur, true; by rewrite fupd_eq|].
    destruct (pi_embryo _ _ _ _ _ Hi i w Hw He) as (c & b & Hc). exists c, b. rewrite fupd_ne; [done|]. congruence.
  - intros c i b [[-> [= <- <-]]|[Hne Hc]]%fupd_phase.
    + exists (set_vparent (Some cur) v). by rewrite (alter_at _ _ _ v Hv).
    + destruct (pi_fork _ _ _ _ _ Hi c i b Hc) as (w & Hw & He & Hq). exists w. rewrite alter_other; [done|].
      intros ->. apply Hne. by eapply (pi_forks _ _ _ _ _ Hi).
  - intros c1 c2 i b1 b2 [[-> [= -> ->]]|[N1 H1]]%fupd_phase [[-> E2]|[N2 H2]]%fupd_phase; [done| | |].
    + by eapply (pi_forks _ _ _ _ _ Hi).
    + injection E2 as -> _. by eapply (pi_forks _ _ _ _ _ Hi).
    + by eapply (pi_forks _ _ _ _ _ Hi).
  - intros i Hne. apply Hal. destruct (decide (i = cur)) as [-> |]; [done|].
    rewrite fupd_ne in Hne by done. by eapply (pi_phase _ _ _ _ _ Hi).
  - intros i w Hw [[-> [=]]|[? Hph]]%fupd_phase. slots Hv; [congruence|]. by eapply (pi_wait _ _ _ _ _ Hi).
  - intros i w Hw Hsl. slots Hv; [simpl in Hsl; congruence|]. rewrite (phase_of cur _ i u Hu Hr w Hw Hsl).
    by eapply (pi_sleep _ _ _ _ _ Hi i w).
  - intros i w Hw [[-> [=]]|[? Hph]]%fupd_phase. slots Hv; [congruence|]. by eapply (pi_asleep _ _ _ _ _ Hi i w).
  - intros i w j x Hw Hsl [[-> [=]]|[? Hph]]%fupd_phase Hx.
    slots Hv; simpl in *; try congruence. by eapply (pi_awake _ _ _ _ _ Hi i w j x).
Qed.

(** [fork] ends: the child becomes runnable ([st = RUNNABLE], built) or its slot is
    given back ([st = UNUSED], not built). *)
Lemma pinv_fork_end cur p b st u : t !! cur = Some u → v_state u = RUNNING → ph cur = Forking p b →
  st = (if b then RUNNABLE else UNUSED) →
  pinv (alter (set_vstate st) p t) i0 n (fupd ph cur Idle).
Proof using Hi.
  intros Hu Hr Hf ->. destruct (pi_fork _ _ _ _ _ Hi cur p b Hf) as (v & Hv & Hs & Hpar).
  assert (Hna : ¬ alive v) by (unfold alive; rewrite Hs; naive_solver).
  assert (Hcp : cur ≠ p) by congruence. pose proof (not_init p v Hv Hna) as Hp0.
  pose proof (dead_idle p v Hv Hna) as Hpi. set (g := set_vstate (if b then RUNNABLE else UNUSED)).
  assert (Hal : ∀ q, (∃ w, t !! q = Some w ∧ alive w) → ∃ w, alter g p t !! q = Some w ∧ alive w).
  { intros q Hq. by apply (alter_alive t _ p v q Hv). }
  assert (Hst : v_state (g v) ≠ SLEEPING ∧ v_state (g v) ≠ EMBRYO ∧ v_state (g v) ≠ ZOMBIE) by (by destruct b).
  destruct Hst as (Hg1 & Hg2 & Hg3).
  split.
  - rewrite length_alter. apply Hi.
  - apply Hi.
  - destruct (pi_init _ _ _ _ _ Hi) as (w & Hw & Ha & Hwp). exists w. by rewrite alter_other.
  - intros i w Hw. slots Hv; [|by eapply (pi_pid _ _ _ _ _ Hi)].
    destruct (pi_pid _ _ _ _ _ Hi p v Hv) as [? H]. split; [done|]. intros _. apply H. congruence.
  - intros i j w1 w2 H1 H2. slots Hv; simpl.
    + done.
    + by apply (pi_uniq _ _ _ _ _ Hi i p w1 v).
    + by apply (pi_uniq _ _ _ _ _ Hi p j v w2).
    + by apply (pi_uniq _ _ _ _ _ Hi i j w1 w2).
  - intros i w q Hw Hq. slots Hv; simpl in Hq.
    + destruct (pi_parent _ _ _ _ _ Hi p v q Hv Hq) as [? ?]. auto.
    + destruct (pi_parent _ _ _ _ _ Hi i w q Hw Hq) as [? ?]. auto.
  - intros i w Hw. slots Hv; [|by eapply (pi_free _ _ _ _ _ Hi)]. simpl. by destruct b.
  - intros i w Hw. slots Hv; [|by eapply (pi_kin _ _ _ _ _ Hi)]. simpl. rewrite Hpar. destruct b; [done|].
    intros [[|[|]]|]; done.
  - intros i w Hw He. slots Hv; [done|].
    destruct (pi_embryo _ _ _ _ _ Hi i w Hw He) as (c & b' & Hc). exists c, b'. rewrite fupd_ne; [done|]. congruence.
  - intros c i b' [[-> [=]]|[Hne Hc]]%fupd_phase.
    destruct (pi_fork _ _ _ _ _ Hi c i b' Hc) as (w & Hw & He & Hq). exists w. rewrite alter_other; [done|].
    intros ->. apply Hne. by eapply (pi_forks _ _ _ _ _ Hi).
  - intros c1 c2 i b1 b2 [[-> [=]]|[N1 H1]]%fupd_phase [[-> [=]]|[N2 H2]]%fupd_phase.
    by eapply (pi_forks _ _ _ _ _ Hi).
  - intros i Hne. apply Hal. destruct (decide (i = cur)) as [-> |]; [by rewrite fupd_eq in Hne|].
    rewrite fupd_ne in Hne by done. by eapply (pi_phase _ _ _ _ _ Hi).
  - intros i w Hw [[-> [=]]|[? Hph]]%fupd_phase. slots Hv; [congruence|]. by eapply (pi_wait _ _ _ _ _ Hi).
  - intros i w Hw Hsl. slots Hv; [done|]. rewrite (phase_of cur _ i u Hu Hr w Hw Hsl).
    by eapply (pi_sleep _ _ _ _ _ Hi i w).
  - intros i w Hw [[-> [=]]|[? Hph]]%fupd_phase. slots Hv; [congruence|]. by eapply (pi_asleep _ _ _ _ _ Hi i w).
  - intros i w j x Hw Hsl [[-> [=]]|[? Hph]]%fupd_phase Hx. slots Hv; try done.
    by eapply (pi_awake _ _ _ _ _ Hi i w j x).
Qed.

(** [wait] gives back the slot of an exited child. *)
Lemma pinv_free p v : t !! p = Some v → v_state v = ZOMBIE → pinv (alter free_view p t) i0 n ph.
Proof using Hi.
  intros Hv Hs. assert (Hna : ¬ alive v) by (unfold alive; rewrite Hs; naive_solver).
  pose proof (not_init p v Hv Hna) as Hp0. pose proof (dead_idle p v Hv Hna) as Hpi.
  assert (Hal : ∀ q, (∃ w, t !! q = Some w ∧ alive w) → ∃ w, alter free_view p t !! q = Some w ∧ alive w).
  { intros q Hq. by apply (alter_alive t _ p v q Hv). }
  split; try apply Hi.
  - rewrite length_alter. apply Hi.
  - destruct (pi_init _ _ _ _ _ Hi) as (w & Hw & Ha & Hwp). exists w. by rewrite alter_other.
  - intros i w Hw. slots Hv; [|by eapply (pi_pid _ _ _ _ _ Hi)]. pose proof (pi_next _ _ _ _ _ Hi). simpl. split; [lia|done].
  - intros i j w1 w2 H1 H2. slots Hv; simpl; try done; try lia. by eapply (pi_uniq _ _ _ _ _ Hi).
  - intros i w q Hw Hq. slots Hv; [done|]. destruct (pi_parent _ _ _ _ _ Hi i w q Hw Hq) as [? ?]. auto.
  - intros i w Hw. slots Hv; [done|]. by eapply (pi_free _ _ _ _ _ Hi).
  - intros i w Hw. slots Hv; [intros [[|[|]]|]; done|]. by eapply (pi_kin _ _ _ _ _ Hi).
  - intros i w Hw He. slots Hv; [done|]. by eapply (pi_embryo _ _ _ _ _ Hi i w).
  - intros c i b Hc. destruct (pi_fork _ _ _ _ _ Hi c i b Hc) as (w & Hw & He & Hq). exists w.
    rewrite alter_other; [done|]. congruence.
  - intros i Hne. apply Hal. by eapply (pi_phase _ _ _ _ _ Hi).
  - intros i w Hw Hph. slots Hv; [congruence|]. by eapply (pi_wait _ _ _ _ _ Hi).
  - intros i w Hw Hsl. slots Hv; [done|]. by eapply (pi_sleep _ _ _ _ _ Hi i w).
  - intros i w Hw Hph. slots Hv; [congruence|]. by eapply (pi_asleep _ _ _ _ _ Hi i w).
  - intros i w j x Hw Hsl Hph Hx. slots Hv; try done. by eapply (pi_awake _ _ _ _ _ Hi i w j x).
Qed.

(** A running process falls asleep, in [wait] or elsewhere. *)
Lemma pinv_sleep cur chan x u : t !! cur = Some u → v_state u = RUNNING → ph cur = Idle →
  (x = InWait ∧ chan = proc_addr ptable cur ∧
     (∀ j w, t !! j = Some w → v_parent w = Some cur → v_state w ≠ ZOMBIE)) ∨
  (x = Asleep ∧ other_chan chan) →
  pinv (alter (set_vstate SLEEPING ∘ set_vchan chan) cur t) i0 n (fupd ph cur x).
Proof using Hi.
  intros Hu Hr Hid Hx. set (g := set_vstate SLEEPING ∘ set_vchan chan).
  assert (Hau : alive u) by (unfold alive; rewrite Hr; eauto).
  assert (Hag : alive (g u)) by (by left).
  assert (Hal : ∀ q, (∃ w, t !! q = Some w ∧ alive w) → ∃ w, alter g cur t !! q = Some w ∧ alive w).
  { intros q Hq. by apply (alter_alive t _ cur u q Hu). }
  assert (Hnf : ∀ i b, x ≠ Forking i b) by (intros i b ->; destruct Hx as [[[=] _]|[[=] _]]).
  split.
  - rewrite length_alter. apply Hi.
  - apply Hi.
  - destruct (pi_init _ _ _ _ _ Hi) as (w & Hw & Ha & Hp). destruct (decide (i0 = cur)) as [-> |].
    + exists (g u). rewrite (alter_at _ _ _ u Hu). assert (w = u) by congruence. by subst.
    + exists w. by rewrite alter_other.
  - intros i w Hw. slots Hu; [|by eapply (pi_pid _ _ _ _ _ Hi)].
    destruct (pi_pid _ _ _ _ _ Hi cur u Hu) as [? H]. split; [done|]. intros _. apply H. congruence.
  - intros i j w1 w2 H1 H2. slots Hu; simpl.
    + done.
    + by apply (pi_uniq _ _ _ _ _ Hi i cur w1 u).
    + by apply (pi_uniq _ _ _ _ _ Hi cur j u w2).
    + by apply (pi_uniq _ _ _ _ _ Hi i j w1 w2).
  - intros i w q Hw Hq. slots Hu; simpl in Hq.
    + destruct (pi_parent _ _ _ _ _ Hi cur u q Hu Hq) as [? ?]. auto.
    + destruct (pi_parent _ _ _ _ _ Hi i w q Hw Hq) as [? ?]. auto.
  - intros i w Hw. slots Hu; [done|]. by eapply (pi_free _ _ _ _ _ Hi).
  - intros i w Hw. slots Hu; [|by eapply (pi_kin _ _ _ _ _ Hi)]. intros _. simpl.
    apply (pi_kin _ _ _ _ _ Hi cur u Hu). by left.
  - intros i w Hw He. slots Hu; [done|].
    destruct (pi_embryo _ _ _ _ _ Hi i w Hw He) as (c & b' & Hc). exists c, b'. rewrite fupd_ne; [done|]. congruence.
  - intros c i b' [[-> Hf]|[Hne Hc]]%fupd_phase; [by apply Hnf in Hf|].
    destruct (pi_fork _ _ _ _ _ Hi c i b' Hc) as (w & Hw & He & Hq). exists w. rewrite alter_other; [done|]. congruence.
  - intros c1 c2 i b1 b2 [[-> Hf]|[N1 H1]]%fupd_phase; [by apply Hnf in Hf|].
    intros [[-> Hf]|[N2 H2]]%fupd_phase; [by apply Hnf in Hf|]. by eapply (pi_forks _ _ _ _ _ Hi).
  - intros i Hne. apply Hal. destruct (decide (i = cur)) as [-> |]; [by exists u|].
    rewrite fupd_ne in Hne by done. by eapply (pi_phase _ _ _ _ _ Hi).
  - intros i w Hw [[-> ->]|[? Hph]]%fupd_phase; slots Hu; try done.
    + by destruct Hx as [(_ & Hx & _)|[[=] _]].
    + by eapply (pi_wait _ _ _ _ _ Hi).
  - intros i w Hw Hsl. slots Hu; [rewrite fupd_eq; destruct Hx as [(-> & _)|(-> & _)]; auto|].
    rewrite fupd_ne by done. by eapply (pi_sleep _ _ _ _ _ Hi i w).
  - intros i w Hw [[-> ->]|[? Hph]]%fupd_phase; slots Hu; try done.
    + by destruct Hx as [[[=] _]|[_ Hx]].
    + by eapply (pi_asleep _ _ _ _ _ Hi i w).
  - intros i w j y Hw Hsl [[-> ->]|[Hne Hph]]%fupd_phase Hy Hpy.
    + destruct Hx as [(_ & _ & Hz)|[[=] _]]. slots Hu; try done. by eapply Hz.
    + slots Hu; try done. by eapply (pi_awake _ _ _ _ _ Hi i w j y).
Qed.

(** A process that slept runs again and leaves [sleep]. *)
Lemma pinv_resume cur u : t !! cur = Some u → v_state u = RUNNING → (∀ i b, ph cur ≠ Forking i b) →
  pinv (alter (set_vchan 0) cur t) i0 n (fupd ph cur Idle).
Proof using Hi.
  intros Hu Hr Hnf. set (g := set_vchan 0).
  assert (Hal : ∀ q, (∃ w, t !! q = Some w ∧ alive w) → ∃ w, alter g cur t !! q = Some w ∧ alive w).
  { intros q Hq. by apply (alter_alive t _ cur u q Hu). }
  split.
  - rewrite length_alter. apply Hi.
  - apply Hi.
  - destruct (pi_init _ _ _ _ _ Hi) as (w & Hw & Ha & Hp). destruct (decide (i0 = cur)) as [-> |].
    + exists (g u). rewrite (alter_at _ _ _ u Hu). assert (w = u) by congruence. by subst.
    + exists w. by rewrite alter_other.
  - intros i w Hw. slots Hu; [by apply (pi_pid _ _ _ _ _ Hi cur u)|by eapply (pi_pid _ _ _ _ _ Hi)].
  - intros i j w1 w2 H1 H2. slots Hu; simpl.
    + done.
    + by apply (pi_uniq _ _ _ _ _ Hi i cur w1 u).
    + by apply (pi_uniq _ _ _ _ _ Hi cur j u w2).
    + by apply (pi_uniq _ _ _ _ _ Hi i j w1 w2).
  - intros i w q Hw Hq. slots Hu; simpl in Hq.
    + destruct (pi_parent _ _ _ _ _ Hi cur u q Hu Hq) as [? ?]. auto.
    + destruct (pi_parent _ _ _ _ _ Hi i w q Hw Hq) as [? ?]. auto.
  - intros i w Hw. slots Hu; [by apply (pi_free _ _ _ _ _ Hi cur u)|]. by eapply (pi_free _ _ _ _ _ Hi).
  - intros i w Hw. slots Hu; [by apply (pi_kin _ _ _ _ _ Hi cur u)|by eapply (pi_kin _ _ _ _ _ Hi)].
  - intros i w Hw He. slots Hu; [simpl in He; congruence|].
    destruct (pi_embryo _ _ _ _ _ Hi i w Hw He) as (c & b' & Hc). exists c, b'. rewrite fupd_ne; [done|].
    intros ->. by apply Hnf in Hc.
  - intros c i b' [[-> [=]]|[Hne Hc]]%fupd_phase.
    destruct (pi_fork _ _ _ _ _ Hi c i b' Hc) as (w & Hw & He & Hq). exists w. rewrite alter_other; [done|]. congruence.
  - intros c1 c2 i b1 b2 [[-> [=]]|[N1 H1]]%fupd_phase [[-> [=]]|[N2 H2]]%fupd_phase.
    by eapply (pi_forks _ _ _ _ _ Hi).
  - intros i Hne. apply Hal. destruct (decide (i = cur)) as [-> |]; [by rewrite fupd_eq in Hne|].
    rewrite fupd_ne in Hne by done. by eapply (pi_phase _ _ _ _ _ Hi).
  - intros i w Hw [[-> [=]]|[? Hph]]%fupd_phase. slots Hu; [done|]. by eapply (pi_wait _ _ _ _ _ Hi).
  - intros i w Hw Hsl. slots Hu; [simpl in Hsl; congruence|]. rewrite fupd_ne by done.
    by eapply (pi_sleep _ _ _ _ _ Hi i w).
  - intros i w Hw [[-> [=]]|[? Hph]]%fupd_phase. slots Hu; [done|]. by eapply (pi_asleep _ _ _ _ _ Hi i w).
  - intros i w j y Hw Hsl [[-> [=]]|[Hne Hph]]%fupd_phase Hy Hpy. slots Hu; simpl in *; try congruence.
    by eapply (pi_awake _ _ _ _ _ Hi i w j y).
Qed.

(** What [exit] leaves of a slot. *)
Record exited (cur : nat) (u : view) (t' : list view) : Prop := {
  xd_len : length t' = length t;
  xd_view j v' : t' !! j = Some v' → ∃ v, t !! j = Some v ∧ v_pid v' = v_pid v ∧ v_chan v' = v_chan v ∧
    v_parent v' = (if bool_decide (v_parent v = Some cur) then Some i0 else v_parent v) ∧
    (j = cur ∧ v_state v' = ZOMBIE ∨
     j ≠ cur ∧ (v_state v' = v_state v ∨ v_state v = SLEEPING ∧ v_state v' = RUNNABLE));
  xd_parent q w' : v_parent u = Some q → t' !! q = Some w' → v_state w' = SLEEPING → v_chan w' ≠ proc_addr ptable q;
  xd_init j v w' : t !! j = Some v → v_parent v = Some cur → v_state v = ZOMBIE →
    t' !! i0 = Some w' → v_state w' = SLEEPING → v_chan w' ≠ proc_addr ptable i0
}.

Lemma exited_alive cur u t' q : exited cur u t' → q ≠ cur →
  (∃ w, t !! q = Some w ∧ alive w) → ∃ w, t' !! q = Some w ∧ alive w.
Proof.
  intros Hx Hq (w & Hw & Ha). assert (is_Some (t' !! q)) as [w' Hw'].
  { apply lookup_lt_is_Some. rewrite (xd_len _ _ _ Hx). by eapply lookup_lt_Some. }
  exists w'. split; [done|]. destruct (xd_view _ _ _ Hx q w' Hw') as (w0 & Hw0 & _ & _ & _ & [[? _]|[_ Hs]]); [done|].
  assert (w0 = w) by congruence. subst w0. unfold alive in *.
  destruct Hs as [->|[_ ->]]; [done|]. naive_solver.
Qed.

Lemma pinv_exit cur u t' : t !! cur = Some u → v_state u = RUNNING → ph cur = Idle → cur ≠ i0 →
  exited cur u t' → pinv t' i0 n ph.
Proof using Hi.
  intros Hu Hr Hid H0 Hx. pose proof (xd_view _ _ _ Hx) as Hch.
  assert (Hau : alive u) by (unfold alive; rewrite Hr; eauto).
  destruct (pi_init _ _ _ _ _ Hi) as (v0 & Hv0 & Ha0 & Hp0).
  assert (Hinit : ∃ w, t' !! i0 = Some w ∧ alive w) by (eapply exited_alive; [done|done|by exists v0]).
  assert (Hst : ∀ v v' j st, (j = cur ∧ v_state v' = ZOMBIE ∨
     j ≠ cur ∧ (v_state v' = v_state v ∨ v_state v = SLEEPING ∧ v_state v' = RUNNABLE)) →
     v_state v' = st → st ≠ ZOMBIE → st ≠ RUNNABLE → v_state v = st ∧ j ≠ cur).
  { intros v v' j st [[-> E]|[? [E|[E1 E2]]]] ? ? ?; split; congruence. }
  split.
  - rewrite (xd_len _ _ _ Hx). apply Hi.
  - apply Hi.
  - destruct Hinit as (w & Hw & Ha). exists w. split; [done|]. split; [done|].
    destruct (Hch i0 w Hw) as (v & Hv & _ & _ & -> & _). assert (v = v0) by congruence. subst.
    rewrite Hp0. by rewrite bool_decide_eq_false_2.
  - intros i v' (v & Hv & -> & _ & _ & Hs)%Hch. destruct (pi_pid _ _ _ _ _ Hi i v Hv) as [? H]. split; [done|].
    intros Hne. apply H. intros E. destruct Hs as [[-> _]|[_ [E'|[E' _]]]]; congruence.
  - intros i j v' w' (v & Hv & -> & _)%Hch (w & Hw & -> & _)%Hch. by eapply (pi_uniq _ _ _ _ _ Hi).
  - intros i v' q (v & Hv & _ & _ & -> & _)%Hch. case_bool_decide as Hp.
    + intros [= <-]. split; [|done]. intros <-. congruence.
    + intros Hq. destruct (pi_parent _ _ _ _ _ Hi i v q Hv Hq) as [? ?]. split; [done|].
      eapply exited_alive; [done| |done]. congruence.
  - intros i v' (v & Hv & _ & _ & -> & Hs)%Hch Hun.
    destruct (Hst v v' i UNUSED Hs Hun) as [E _]; [done|done|].
    rewrite (pi_free _ _ _ _ _ Hi i v Hv E). by rewrite bool_decide_eq_false_2.
  - intros i v' (v & Hv & _ & _ & -> & Hs)%Hch Hl Hi0. case_bool_decide as Hp; [done|].
    apply (pi_kin _ _ _ _ _ Hi i v Hv); [|done]. unfold alive in *.
    destruct Hs as [[-> _]|[_ [E|[E _]]]]; [left; by replace v with u by congruence|by rewrite <- E|naive_solver].
  - intros i v' (v & Hv & _ & _ & _ & Hs)%Hch He.
    destruct (Hst v v' i EMBRYO Hs He) as [E _]; [done|done|]. by eapply (pi_embryo _ _ _ _ _ Hi i v).
  - intros c i b Hf. destruct (pi_fork _ _ _ _ _ Hi c i b Hf) as (v & Hv & He & Hp).
    assert (is_Some (t' !! i)) as [v' Hv'].
    { apply lookup_lt_is_Some. rewrite (xd_len _ _ _ Hx). by eapply lookup_lt_Some. }
    exists v'. split; [done|]. destruct (Hch i v' Hv') as (w & Hw & _ & _ & -> & Hs).
    assert (w = v) by congruence. subst w. rewrite Hp. split.
    + destruct Hs as [[-> _]|[_ [->|[E _]]]]; congruence.
    + rewrite bool_decide_eq_false_2; [done|]. destruct b; congruence.
  - apply Hi.
  - intros i Hne. eapply exited_alive; [done|congruence|by eapply (pi_phase _ _ _ _ _ Hi)].
  - intros i v' (v & Hv & _ & -> & _)%Hch. by eapply (pi_wait _ _ _ _ _ Hi).
  - intros i v' (v & Hv & _ & _ & _ & Hs)%Hch Hsl.
    destruct (Hst v v' i SLEEPING Hs Hsl) as [E _]; [done|done|]. by eapply (pi_sleep _ _ _ _ _ Hi i v).
  - intros i v' (v & Hv & _ & -> & _)%Hch. by eapply (pi_asleep _ _ _ _ _ Hi).
  - intros i v' j w' Hv' Hsl Hph Hw' Hp Hz.
    destruct (Hch i v' Hv') as (v & Hv & _ & Ec & _ & Hs). destruct (Hst v v' i SLEEPING Hs Hsl) as [E Hic]; [done|done|].
    pose proof (pi_wait _ _ _ _ _ Hi i v Hv Hph) as Hwc. rewrite <- Ec in Hwc.
    destruct (Hch j w' Hw') as (w & Hw & _ & _ & Ep & Hsw). rewrite Hp in Ep.
    destruct Hsw as [[-> _]|[Hj Hsw]].
    + assert (w = u) by congruence. subst w. revert Ep. case_bool_decide as Hpc.
      * destruct (pi_parent _ _ _ _ _ Hi cur u cur Hu Hpc). done.
      * intros Ep. by apply (xd_parent _ _ _ Hx i v').
    + assert (Ew : v_state w = ZOMBIE) by (destruct Hsw as [<-|[_ ?]]; congruence).
      revert Ep. case_bool_decide as Hpc.
      * intros [= ->]. by apply (xd_init _ _ _ Hx j w v').
      * intros Ep. by apply (pi_awake _ _ _ _ _ Hi i v j w).
Qed.

End transition.

End inv.

(** ** Every step keeps the invariant *)

Section steps.
Context {F : Type} `{!FileOps F}.
Context (kend kdata ptable trapret forkret_addr : Z).

Notation pst := (pst F).
Notation pstep := (pstep kend kdata ptable trapret forkret_addr).
Notation pinv := (pinv ptable).

Lemma table_eq {A} (m : K pst A) s r s' Q : tpost (table_of s) m Q → m s = Ok (r, s') → Q r (table_of s').
Proof. intros Hm E. by apply (Hm s eq_refl r s' E). Qed.

Lemma running_view (s : pst) p : running s p → ∃ u, views s !! p = Some u ∧ v_state u = RUNNING.
Proof.
  intros (x & Hx & Hs). exists (view_of x). unfold views. by rewrite list_lookup_fmap, Hx.
Qed.

(** What [exit] leaves, from the pieces of [exit_table]. *)
Lemma exited_of t i0 n cur u a1 : t !! cur = Some u → length t = NPROC →
  passed ptable cur (at_all (wake_view (chan_of ptable (v_parent u))) (Tab t (Some i0) n)) NPROC a1 →
  v_state u = RUNNING →
  exited ptable t i0 cur u (t_v (at_slot cur (set_vstate ZOMBIE) a1)).
Proof.
  intros Hu Hlen [H1 H2 H3 H4 H5] Hr. set (ch := chan_of ptable (v_parent u)) in *.
  simpl in H3. rewrite length_fmap in H3.
  assert (Hback : ∀ j v', t_v a1 !! j = Some v' → ∃ v, t !! j = Some v ∧ v_pid v' = v_pid v ∧ v_chan v' = v_chan v ∧
    v_parent v' = (if bool_decide (v_parent v = Some cur) then Some i0 else v_parent v) ∧
    (v_state v' = v_state v ∧ (v_state v = SLEEPING → v_chan v ≠ ch) ∨ v_state v = SLEEPING ∧ v_state v' = RUNNABLE)).
  { intros j v' Hv'. destruct (H4 j v' Hv') as (v1 & Hv1 & E1 & E2 & E3 & E4).
    rewrite lookup_at_all in Hv1. apply fmap_Some in Hv1 as (v & Hv & ->). simpl in Hv.
    destruct (wake_view_spec ch v) as (W1 & W2 & W3 & W4). exists v. rewrite E1, E2, E4, W1, W2, W3.
    split; [done|]. split; [done|]. split; [done|]. split.
    - simpl. assert (j < NPROC)%nat by (rewrite <- Hlen; by eapply lookup_lt_Some).
      erewrite (bool_decide_ext (_ ∧ _)); [done|]. tauto.
    - destruct E3 as [->|[E3 ->]]; destruct W4 as [[E W]|[E W]]; try congruence; [by left; rewrite E|by right|by right; rewrite <- E]. }
  split.
  - simpl. by rewrite length_alter, H3.
  - intros j v'. rewrite lookup_at_slot. case_decide as Hj.
    + intros (w & Hw & ->)%fmap_Some. destruct (Hback j w Hw) as (v & Hv & E1 & E2 & E3 & _). exists v. simpl. naive_solver.
    + intros Hw. destruct (Hback j v' Hw) as (v & Hv & E1 & E2 & E3 & E4). exists v.
      do 4 (split; [done|]). right. split; [done|]. destruct E4 as [[-> _]|?]; auto.
  - intros q w' Hq. rewrite lookup_at_slot. case_decide as Hj.
    { intros (w & Hw & ->)%fmap_Some. done. }
    intros Hw Hs. destruct (Hback q w' Hw) as (v & Hv & _ & -> & _ & [[E Hne]|[_ E]]); [|congruence].
    rewrite E in Hs. specialize (Hne Hs). unfold ch in Hne. by rewrite Hq in Hne.
  - intros j v w' Hv Hp Hz. rewrite lookup_at_slot. case_decide as Hj.
    { intros (w & Hw & ->)%fmap_Some. done. }
    intros Hw Hs. destruct (wake_view_spec ch v) as (_ & W2 & _ & W4).
    apply (H5 j (wake_view ch v) i0 w'); [by rewrite lookup_at_all; simpl; rewrite Hv| |congruence| |done|done].
    + rewrite <- Hlen. by eapply lookup_lt_Some.
    + destruct W4 as [[-> _]|[? _]]; congruence.
Qed.

Lemma fupd_same (ph : nat → phase) p x i : ph p = x → fupd ph p x i = ph i.
Proof. unfold fupd. case_decide; [by subst|done]. Qed.

Lemma fupd_twice (ph : nat → phase) p x y i : fupd ph p y i = fupd (fupd ph p x) p y i.
Proof. unfold fupd. by case_decide. Qed.

(** The round of [wait] by a process that is in no operation. *)
Lemma round_step i0 n ph cur t a' r u :
  pinv t i0 n ph → t !! cur = Some u → v_state u = RUNNING → ph cur = Idle →
  waited ptable cur (Tab t (Some i0) n) r a' →
  t_init a' = Some i0 ∧ pinv (t_v a') i0 (t_next a') (fupd ph cur (wait_phase r)).
Proof.
  intros Hi Hu Hr Hid. destruct r as [pid|]; simpl.
  - intros H. assert (Hext : ∀ t', pinv t' i0 n ph → pinv t' i0 n (fupd ph cur Idle))
      by (intros t'; apply pinv_ext; intros i; by apply fupd_same).
    destruct H as [[-> _]|(j & v & Hv & _ & Hz & _ & ->)]; simpl; split; [done| |done|]; apply Hext; [done|].
    by eapply pinv_free.
  - intros [-> Hz]. simpl. split; [done|]. apply (pinv_sleep ptable t i0 n ph Hi cur _ _ u); [done|done|done|]. left.
    split; [done|]. split; [done|]. intros j w Hw. apply (Hz j w); [|done].
    rewrite <- (pi_len _ _ _ _ _ Hi). by eapply lookup_lt_Some.
Qed.

Lemma awake_ok (t : list view) (p : nat) (v : view) st (i : nat) : t !! p = Some v → alive v → alive (set_vstate st v) → st ≠ SLEEPING → ∀ v',
  alter (set_vstate st) p t !! i = Some v' → ∃ v, t !! i = Some v ∧
     v_pid v' = v_pid v ∧ v_parent v' = v_parent v ∧ v_chan v' = v_chan v ∧
     (v_state v' = v_state v ∨ alive v ∧ alive v' ∧ v_state v' ≠ SLEEPING).
Proof.
  intros Hv Ha Hg Hs v' [[-> ->]|[? H]]%(alter_case t _ p v i v' Hv); [|exists v'; naive_solver].
  exists v. do 4 (split; [done|]). by right.
Qed.

(** Steps that only wake processes, pick or preempt one. *)
Lemma cfg_states (s s' : pst) ph g : cfg_inv ptable (Cfg s ph) →
  table_of s' = at_all g (table_of s) →
  (∀ v, v_pid (g v) = v_pid v ∧ v_parent (g v) = v_parent v ∧ v_chan (g v) = v_chan v ∧
     (v_state (g v) = v_state v ∨ alive v ∧ alive (g v) ∧ v_state (g v) ≠ SLEEPING)) →
  cfg_inv ptable (Cfg s' ph).
Proof.
  intros (i0 & Hi0 & Hi) E Hg. injection E as E1 E2 E3. exists i0. simpl in *. rewrite E1, E2, E3. split; [done|].
  eapply pinv_states; [by rewrite length_fmap| |exact Hi]. intros i v' Hv'.
  rewrite list_lookup_fmap in Hv'. apply fmap_Some in Hv' as (v & Hv & ->). exists v. split; [done|apply Hg].
Qed.

Lemma cfg_slot (s s' : pst) ph p v st : cfg_inv ptable (Cfg s ph) → views s !! p = Some v →
  alive v → alive (set_vstate st v) → st ≠ SLEEPING →
  table_of s' = at_slot p (set_vstate st) (table_of s) → cfg_inv ptable (Cfg s' ph).
Proof.
  intros (i0 & Hi0 & Hi) Hv Ha Hg Hs E. injection E as E1 E2 E3. exists i0. simpl in *. rewrite E1, E2, E3.
  split; [done|]. eapply pinv_states; [by rewrite length_alter| |exact Hi]. intros i v'. by eapply awake_ok.
Qed.

Lemma wake_states chan v : v_pid (wake_view chan v) = v_pid v ∧ v_parent (wake_view chan v) = v_parent v ∧
  v_chan (wake_view chan v) = v_chan v ∧
  (v_state (wake_view chan v) = v_state v ∨ alive v ∧ alive (wake_view chan v) ∧ v_state (wake_view chan v) ≠ SLEEPING).
Proof.
  destruct (wake_view_spec chan v) as (W1 & W2 & W3 & [[W4 _]|[W4 W5]]); do 3 (split; [done|]); [by left|].
  right. unfold alive. rewrite W4, W5. naive_solver.
Qed.

(** A process goes to sleep outside [wait], and comes back. *)
Lemma cfg_sleep (s s' : pst) ph cur chan : cfg_inv ptable (Cfg s ph) → running s cur → ph cur = Idle → other_chan ptable chan →
  table_of s' = at_slot cur (set_vstate SLEEPING ∘ set_vchan chan) (table_of s) →
  cfg_inv ptable (Cfg s' (fupd ph cur Asleep)).
Proof.
  intros (i0 & Hi0 & Hi) (u & Hu & Hr)%running_view Hid Hch E. injection E as E1 E2 E3. exists i0. simpl in *.
  rewrite E1, E2, E3. split; [done|]. eapply (pinv_sleep _ _ _ _ _ Hi); [done|done|done|]. by right.
Qed.

Lemma cfg_sleep_end (s s' : pst) ph cur : cfg_inv ptable (Cfg s ph) → running s cur → ph cur = Asleep →
  table_of s' = at_slot cur (set_vchan 0) (table_of s) → cfg_inv ptable (Cfg s' (fupd ph cur Idle)).
Proof.
  intros (i0 & Hi0 & Hi) (u & Hu & Hr)%running_view Hid E. injection E as E1 E2 E3. exists i0. simpl in *.
  rewrite E1, E2, E3. split; [done|]. eapply (pinv_resume _ _ _ _ _ Hi); [done|done|]. intros. by rewrite Hid.
Qed.

Lemma cfg_same (s s' : pst) ph ph' : cfg_inv ptable (Cfg s ph) → table_of s' = table_of s → (∀ i, ph' i = ph i) →
  cfg_inv ptable (Cfg s' ph').
Proof.
  intros (i0 & Hi0 & Hi) E Hph. injection E as E1 E2 E3. exists i0. simpl in *. rewrite E1, E2, E3.
  split; [done|]. by eapply pinv_ext.
Qed.

Lemma cfg_kill (s s' : pst) ph c pid r : cfg_inv ptable (Cfg s ph) → kill ptable c pid s = Ok (r, s') → cfg_inv ptable (Cfg s' ph).
Proof.
  intros Hc E. apply (table_eq _ _ _ _ _ (kill_table _ _ _ _)) in E as [E|(p & v & Hv & Hs & E)].
  - destruct Hc as (i0 & Hi0 & Hi). injection E as E1 E2 E3. exists i0. simpl in *. by rewrite E1, E2, E3.
  - eapply (cfg_slot s s' ph p v RUNNABLE); [done|done| | |done|done]; unfold alive; simpl; eauto.
Qed.

Lemma cfg_fork_steps (s s' : pst) ph cur : cfg_inv ptable (Cfg s ph) → running s cur →
  (∀ c np, ph cur = Idle → s_nextpid s < 2 ^ 31 - 1 → allocproc_take ptable c s = Ok (Some np, s') →
     cfg_inv ptable (Cfg s' (fupd ph cur (Forking np false)))) ∧
  (∀ np b, ph cur = Forking np false → fork_build kend kdata trapret forkret_addr cur np s = Ok (b, s') →
     cfg_inv ptable (Cfg s' (fupd ph cur (if b : bool then Forking np true else Idle)))) ∧
  (∀ c np pid, ph cur = Forking np true → fork_go ptable c np s = Ok (pid, s') →
     cfg_inv ptable (Cfg s' (fupd ph cur Idle))).
Proof.
  intros (i0 & Hi0 & Hi) (u & Hu & Hr)%running_view. simpl in *. split; [|split].
  - intros c np Hid Hn E. apply (table_eq _ _ _ _ _ (take_table _ _ _)) in E as (v & Hv & Hs & E).
    injection E as E1 E2 E3. exists i0. simpl in *. pose proof (pi_next _ _ _ _ _ Hi).
    rewrite E1, E2, E3, s32_small by lia. split; [done|]. by eapply pinv_take.
  - intros np b Hf E. apply (table_eq _ _ _ _ _ (build_table _ _ _ _ _ _ _)) in E.
    injection E as E1 E2 E3. exists i0. simpl in *. rewrite E1, E2, E3. split; [done|]. destruct b.
    + by eapply pinv_built.
    + by eapply (pinv_fork_end _ _ _ _ _ Hi cur np false).
  - intros c np pid Hf E. apply (table_eq _ _ _ _ _ (go_table _ _ _ _)) in E.
    injection E as E1 E2 E3. exists i0. simpl in *. rewrite E1, E2, E3. split; [done|].
    by eapply (pinv_fork_end _ _ _ _ _ Hi cur np true).
Qed.

Lemma cfg_exit (s s' : pst) ph c cur : cfg_inv ptable (Cfg s ph) → running s cur → ph cur = Idle →
  exit ptable c cur s = Ok (tt, s') → cfg_inv ptable (Cfg s' ph).
Proof.
  intros (i0 & Hi0 & Hi) (u & Hu & Hr)%running_view Hid E. simpl in *.
  apply (table_eq _ _ _ _ _ (exit_table _ _ _ _)) in E as (Hne & a1 & Ha1 & E). exists i0. simpl in *.
  rewrite Hu in Ha1. simpl in Ha1. unfold table_of in Ha1. rewrite Hi0 in *.
  assert (E2 : t_init a1 = Some i0) by apply Ha1. assert (E3 : t_next a1 = s_nextpid s) by apply Ha1.
  injection E as E1 E4 E5. simpl. rewrite E4, E5, E2, E3. split; [done|]. rewrite E1.
  apply (pinv_exit ptable _ i0 _ ph Hi cur u); [done|done|done|congruence|].
  apply (exited_of (views s) i0 (s_nextpid s) cur u a1); [done|apply Hi|done|done].
Qed.

Lemma cfg_wait (s s' : pst) ph c cur r : cfg_inv ptable (Cfg s ph) → running s cur → ph cur = Idle →
  wait_begin kend ptable c cur s = Ok (r, s') → cfg_inv ptable (Cfg s' (fupd ph cur (wait_phase r))).
Proof.
  intros (i0 & Hi0 & Hi) (u & Hu & Hr)%running_view Hid E. simpl in *.
  unfold wait_begin in E. apply bind_inv in E as ([] & s1 & E1 & E).
  apply (table_eq _ _ _ _ (λ _ a', a' = table_of s) (tpost_lk _ _ _ (λ _, eq_refl))) in E1.
  apply (table_eq _ _ _ _ _ (wait_round_table _ _ _ _ _)) in E. rewrite E1 in E. exists i0. simpl in *.
  unfold table_of in E. rewrite Hi0 in E.
  by apply (round_step i0 (s_nextpid s) ph cur (views s) (table_of s') r u).
Qed.

Lemma cfg_wait_resume (s s' : pst) ph c cur r : cfg_inv ptable (Cfg s ph) → running s cur → ph cur = InWait →
  wait_resume kend ptable c cur s = Ok (r, s') → cfg_inv ptable (Cfg s' (fupd ph cur (wait_phase r))).
Proof.
  intros (i0 & Hi0 & Hi) (u & Hu & Hr)%running_view Hid E. simpl in *.
  unfold wait_resume in E. apply bind_inv in E as ([] & s1 & E1 & E).
  apply (table_eq _ _ _ _ _ (sleep_end_table _ _ _ _ _)) in E1. injection E1 as T1 T2 T3.
  apply (table_eq _ _ _ _ _ (wait_round_table _ _ _ _ _)) in E. exists i0. simpl in *.
  assert (Hi1 : pinv (views s1) i0 (s_nextpid s) (fupd ph cur Idle)).
  { rewrite T1. eapply (pinv_resume _ _ _ _ _ Hi); [done|done|]. intros. by rewrite Hid. }
  assert (Et : table_of s1 = Tab (views s1) (Some i0) (s_nextpid s)) by (unfold table_of; by rewrite T2, T3, Hi0).
  rewrite Et in E. destruct (round_step i0 (s_nextpid s) _ cur (views s1) (table_of s') r (set_vchan 0 u) Hi1) as [A B].
  - rewrite T1. by apply alter_at.
  - done.
  - by rewrite fupd_eq.
  - done.
  - split; [done|]. eapply pinv_ext; [|exact B]. intros i. apply fupd_twice.
Qed.

Lemma cfg_step g g' : cfg_inv ptable g → pstep g g' → cfg_inv ptable g'.
Proof.
  intros Hc Hs. destruct Hs as
    [c cur np s s' ph Hr Hid Hn E|c cur s s' ph Hr Hid E|cur np b s s' ph Hr Hf E|c cur np pid s s' ph Hr Hf E
    |c cur s s' ph Hr Hid E|c cur r s s' ph Hr Hid E|c cur r s s' ph Hr Hid E|c cur chan lk s s' ph Hr Hid Hch Hpa E
    |c cur lk s s' ph Hr Hid E|c chan s s' ph E|c pid r s s' ph E|c cur s s' ph Hr E|p s s' ph Hp Hl E
    |cur n r s s' ph Hr Hid E|s s' ph E1 E2 E3].
  - by eapply (cfg_fork_steps s s' ph cur).
  - apply (table_eq _ _ _ _ _ (take_table _ _ _)) in E. destruct Hc as (i0 & Hi0 & Hi). injection E as E1 E2 E3.
    exists i0. simpl in *. by rewrite E1, E2, E3.
  - by eapply (cfg_fork_steps s s' ph cur).
  - by eapply (cfg_fork_steps s s' ph cur).
  - by eapply cfg_exit.
  - by eapply cfg_wait.
  - by eapply cfg_wait_resume.
  - apply (table_eq _ _ _ _ _ (sleep_table _ _ _ _ _ _)) in E. by eapply cfg_sleep.
  - apply (table_eq _ _ _ _ _ (sleep_end_table _ _ _ _ _)) in E. by eapply cfg_sleep_end.
  - apply (table_eq _ _ _ _ _ (wakeup_table _ _ _ _)) in E. eapply (cfg_states s s'); [done|done|]. apply wake_states.
  - by eapply cfg_kill.
  - apply (table_eq _ _ _ _ _ (yield_table _ _ _ _)) in E. apply running_view in Hr as (u & Hu & Hr).
    eapply (cfg_slot s s' ph cur u RUNNABLE); [done|done| | |done|done]; unfold alive; simpl; rewrite ?Hr; eauto.
  - apply (table_eq _ _ _ _ _ (pick_table _ _)) in E. apply lookup_lt_is_Some in Hl as [x Hx].
    rewrite (list_lookup_total_correct _ _ _ Hx) in Hp.
    assert (Hv : views s !! p = Some (view_of x)) by (unfold views; by rewrite list_lookup_fmap, Hx).
    eapply (cfg_slot s s' ph p _ RUNNING); [done|done| | |done|done]; unfold alive; simpl; rewrite ?Hp; eauto.
  - apply (table_eq _ _ _ _ _ (grow_table _ _ _ _)) in E. destruct Hc as (i0 & Hi0 & Hi). injection E as E1 E2 E3.
    exists i0. simpl in *. by rewrite E1, E2, E3.
  - destruct Hc as (i0 & Hi0 & Hi). exists i0. simpl in *. by rewrite E1, E2, E3.
Qed.

(** ** A runnable process stays runnable until the scheduler picks it *)

Section stays.
Context (j : nat).

Definition ready (t : list view) : Prop :=
  ∃ v, t !! j = Some v ∧ (v_state v = RUNNABLE ∨ v_state v = RUNNING).

Lemma ready_slot a p f v : t_v a !! j = Some v → v_state v = RUNNABLE →
  (j = p → v_state (f v) = RUNNABLE ∨ v_state (f v) = RUNNING) → ready (t_v (at_slot p f a)).
Proof.
  intros Ha Hr Hf. unfold ready. rewrite lookup_at_slot, Ha. case_decide; simpl; [exists (f v)|exists v]; auto.
Qed.

Lemma ready_round cur a a' r v : t_v a !! j = Some v → v_state v = RUNNABLE → j ≠ cur →
  waited ptable cur a r a' → ready (t_v a').
Proof.
  intros Hv Hr Hne. destruct r as [pid|].
  - intros [[-> _]|(i & w & Hw & _ & Hz & _ & ->)]; [exists v; auto|].
    eapply ready_slot; [done|done|]. congruence.
  - intros [-> _]. by eapply ready_slot.
Qed.

Lemma runnable_stays g g' v : cfg_inv ptable g → pstep g g' → views (g_st g) !! j = Some v → v_state v = RUNNABLE →
  ready (views (g_st g')).
Proof.
  intros Hc Hs. destruct Hs as
    [c cur np s s' ph Ru Hid Hn E|c cur s s' ph Ru Hid E|cur np b s s' ph Ru Hf E|c cur np pid s s' ph Ru Hf E
    |c cur s s' ph Ru Hid E|c cur r s s' ph Ru Hid E|c cur r s s' ph Ru Hid E|c cur chan lk s s' ph Ru Hid Hch Hpa E
    |c cur lk s s' ph Ru Hid E|c chan s s' ph E|c pid r s s' ph E|c cur s s' ph Ru E|p s s' ph Hp Hl E
    |cur n r s s' ph Ru Hid E|s s' ph E1 E2 E3]; simpl in *; intros Hv Hr; destruct Hc as (i0 & Hi0 & Hi);
    cbn [g_st g_ph] in *; change (views s') with (t_v (table_of s')).
  all: try (apply running_view in Ru as (u & Hu & Ru); assert (Hne : j ≠ cur) by congruence).
  - apply (table_eq _ _ _ _ _ (take_table _ _ _)) in E as (w & Hw & Hz & ->).
    apply (ready_slot (Tab (views s) None 0) np _ v Hv Hr). intros ->. simpl in Hw. congruence.
  - apply (table_eq _ _ _ _ _ (take_table _ _ _)) in E as ->. exists v. auto.
  - apply (table_eq _ _ _ _ _ (build_table _ _ _ _ _ _ _)) in E as ->.
    destruct (pi_fork _ _ _ _ _ Hi cur np false Hf) as (w & Hw & He & _).
    eapply ready_slot; [done|done|]. congruence.
  - apply (table_eq _ _ _ _ _ (go_table _ _ _ _)) in E as ->. eapply ready_slot; [done|done|]. auto.
  - apply (table_eq _ _ _ _ _ (exit_table _ _ _ _)) in E as (Hne0 & a1 & Ha1 & ->). simpl in Ha1.
    rewrite Hu in Ha1. simpl in Ha1. unfold table_of in Ha1. rewrite Hi0 in Ha1.
    pose proof (exited_of (views s) i0 (s_nextpid s) cur u a1 Hu (pi_len _ _ _ _ _ Hi) Ha1 Ru) as Hx.
    destruct (lookup_lt_is_Some_2 (t_v (at_slot cur (set_vstate ZOMBIE) a1)) j) as [v' Hv'].
    { rewrite (xd_len _ _ _ _ _ _ Hx). by eapply lookup_lt_Some. }
    exists v'. split; [done|]. left.
    destruct (xd_view _ _ _ _ _ _ Hx j v' Hv') as (w & Hw & _ & _ & _ & [[? _]|[_ [->|[E _]]]]); congruence.
  - unfold wait_begin in E. apply bind_inv in E as ([] & s1 & E1 & E).
    apply (table_eq _ _ _ _ (λ _ a', a' = table_of s) (tpost_lk _ _ _ (λ _, eq_refl))) in E1.
    apply (table_eq _ _ _ _ _ (wait_round_table _ _ _ _ _)) in E. rewrite E1 in E.
    by eapply (ready_round cur (table_of s)).
  - unfold wait_resume in E. apply bind_inv in E as ([] & s1 & E1 & E).
    apply (table_eq _ _ _ _ _ (sleep_end_table _ _ _ _ _)) in E1.
    apply (table_eq _ _ _ _ _ (wait_round_table _ _ _ _ _)) in E. rewrite E1 in E.
    eapply (ready_round cur _ _ _ v); [|done|done|exact E]. by rewrite lookup_at_slot, decide_False.
  - apply (table_eq _ _ _ _ _ (sleep_table _ _ _ _ _ _)) in E as ->. by eapply ready_slot.
  - apply (table_eq _ _ _ _ _ (sleep_end_table _ _ _ _ _)) in E as ->. by eapply ready_slot.
  - apply (table_eq _ _ _ _ _ (wakeup_table _ _ _ _)) in E as ->. exists (wake_view chan v).
    rewrite lookup_at_all. simpl. rewrite Hv. split; [done|]. left.
    destruct (wake_view_spec chan v) as (_ & _ & _ & [[-> _]|[? _]]); congruence.
  - apply (table_eq _ _ _ _ _ (kill_table _ _ _ _)) in E as [->|(p & w & Hw & Hz & ->)]; [exists v; auto|].
    eapply ready_slot; [done|done|]. auto.
  - apply (table_eq _ _ _ _ _ (yield_table _ _ _ _)) in E as ->. by eapply ready_slot.
  - apply (table_eq _ _ _ _ _ (pick_table _ _)) in E as ->. eapply ready_slot; [done|done|]. auto.
  - apply (table_eq _ _ _ _ _ (grow_table _ _ _ _)) in E as ->. exists v. auto.
  - exists v. simpl. rewrite E1. auto.
Qed.

End stays.

(** ** A process asleep outside [wait] went to sleep by itself *)

Section dozes.
Context (j : nat).

Definition dozing (t t' : list view) : Prop :=
  ∀ v', t' !! j = Some v' → v_state v' = SLEEPING → ∃ v, t !! j = Some v ∧ v_state v = SLEEPING ∧ v_chan v = v_chan v'.

Lemma doze_same t : dozing t t.
Proof. intros v' Hv Hs. by exists v'. Qed.

Lemma doze_slot a p f : (j = p → ∀ v, v_state (f v) = SLEEPING → v_state v = SLEEPING ∧ v_chan (f v) = v_chan v) →
  dozing (t_v a) (t_v (at_slot p f a)).
Proof.
  intros Hf v'. rewrite lookup_at_slot. case_decide as E; [|by apply doze_same].
  intros (v & Hv & ->)%fmap_Some Hs. destruct (Hf E v Hs) as [A B]. by exists v.
Qed.

Lemma doze_round cur a a' r : j ≠ cur → waited ptable cur a r a' → dozing (t_v a) (t_v a').
Proof.
  intros Hne. destruct r as [pid|]; [intros [[-> _]|(i & w & _ & _ & _ & _ & ->)]|intros [-> _]];
    [apply doze_same|by apply doze_slot|by apply doze_slot].
Qed.

Lemma asleep_stays g g' : cfg_inv ptable g → pstep g g' → g_ph g j = Asleep → g_ph g' j = Asleep →
  dozing (views (g_st g)) (views (g_st g')).
Proof.
  intros Hc Hs. destruct Hs as
    [c cur np s s' ph Ru Hid Hn E|c cur s s' ph Ru Hid E|cur np b s s' ph Ru Hf E|c cur np pid s s' ph Ru Hf E
    |c cur s s' ph Ru Hid E|c cur r s s' ph Ru Hid E|c cur r s s' ph Ru Hid E|c cur chan lk s s' ph Ru Hid Hch Hpa E
    |c cur lk s s' ph Ru Hid E|c chan s s' ph E|c pid r s s' ph E|c cur s s' ph Ru E|p s s' ph Hp Hl E
    |cur n r s s' ph Ru Hid E|s s' ph E1 E2 E3]; simpl in *; intros Hj Hj'; destruct Hc as (i0 & Hi0 & Hi);
    cbn [g_st g_ph] in *; change (views s') with (t_v (table_of s')); change (views s) with (t_v (table_of s)) at 1.
  - apply (table_eq _ _ _ _ _ (take_table _ _ _)) in E as (w & Hw & Hz & ->).
    apply (doze_slot (Tab (views s) None 0) np). by intros _ v.
  - apply (table_eq _ _ _ _ _ (take_table _ _ _)) in E as ->. apply doze_same.
  - apply (table_eq _ _ _ _ _ (build_table _ _ _ _ _ _ _)) in E as ->. apply doze_slot. intros _ v. by destruct b.
  - apply (table_eq _ _ _ _ _ (go_table _ _ _ _)) in E as ->. by apply doze_slot.
  - apply running_view in Ru as (u & Hu & Ru).
    apply (table_eq _ _ _ _ _ (exit_table _ _ _ _)) in E as (Hne0 & a1 & Ha1 & ->). simpl in Ha1.
    rewrite Hu in Ha1. simpl in Ha1. unfold table_of in Ha1. rewrite Hi0 in Ha1.
    pose proof (exited_of (views s) i0 (s_nextpid s) cur u a1 Hu (pi_len _ _ _ _ _ Hi) Ha1 Ru) as Hx.
    intros v' Hv' Hz. destruct (xd_view _ _ _ _ _ _ Hx j v' Hv') as (w & Hw & _ & Hch & _ & [[_ ?]|[_ [?|[_ ?]]]]); [congruence| |congruence].
    exists w. split_and!; [done|congruence|done].
  - unfold wait_begin in E. apply bind_inv in E as ([] & s1 & E1 & E).
    apply (table_eq _ _ _ _ (λ _ a', a' = table_of s) (tpost_lk _ _ _ (λ _, eq_refl))) in E1.
    apply (table_eq _ _ _ _ _ (wait_round_table _ _ _ _ _)) in E. rewrite E1 in E.
    eapply doze_round; [|exact E]. congruence.
  - unfold wait_resume in E. apply bind_inv in E as ([] & s1 & E1 & E).
    apply (table_eq _ _ _ _ _ (sleep_end_table _ _ _ _ _)) in E1.
    apply (table_eq _ _ _ _ _ (wait_round_table _ _ _ _ _)) in E. rewrite E1 in E. assert (Hne : j ≠ cur) by congruence.
    intros v' Hv' Hz. destruct (doze_round cur _ _ r Hne E v' Hv' Hz) as (v & Hv & A). exists v.
    rewrite lookup_at_slot, decide_False in Hv by done. done.
  - apply (table_eq _ _ _ _ _ (sleep_table _ _ _ _ _ _)) in E as ->. apply doze_slot. congruence.
  - apply (table_eq _ _ _ _ _ (sleep_end_table _ _ _ _ _)) in E as ->. apply doze_slot. intros <-. by rewrite fupd_eq in Hj'.
  - apply (table_eq _ _ _ _ _ (wakeup_table _ _ _ _)) in E as ->. intros v'. rewrite lookup_at_all.
    intros (v & Hv & ->)%fmap_Some Hz. exists v.
    destruct (wake_view_spec chan v) as (_ & _ & Hch & [[W _]|[_ W]]); [|congruence]. split_and!; [done|congruence|done].
  - apply (table_eq _ _ _ _ _ (kill_table _ _ _ _)) in E as [->|(p & w & Hw & Hz & ->)]; [apply doze_same|by apply doze_slot].
  - apply (table_eq _ _ _ _ _ (yield_table _ _ _ _)) in E as ->. by apply doze_slot.
  - apply (table_eq _ _ _ _ _ (pick_table _ _)) in E as ->. by apply doze_slot.
  - apply (table_eq _ _ _ _ _ (grow_table _ _ _ _)) in E as ->. apply doze_same.
  - simpl. rewrite E1. apply doze_same.
Qed.

End dozes.

End steps.
