(* ===== verification/ProcFork.v ===== *)
(** * Processes: [fork] as a whole

    [fork] of [xv6/proc.c] from its call to its return, with the page tables of
    [VmFork] underneath: the child is a copy of its parent. *)

From S2P Require Import Prelude Str Mmu Spinlock Kalloc Vm VmSpec VmUser VmFork Proc.

(** What [fork] relies on in the file layer: a duplicated reference is the
    reference itself, and it takes none of the others away.  [f_file s f]: [f] is an
    open file; [f_inode s w]: [w] is an inode in use. *)
Class FileSpec (F : Type) `{!FileOps F} := {
  f_file : F → Z → Prop;
  f_inode : F → Z → Prop;
  op_filedup_ok f s : f_file s f → runs (op_filedup f) (λ r s', r = f ∧
    (∀ g, f_file s g → f_file s' g) ∧ (∀ w, f_inode s w → f_inode s' w)) s;
  op_idup_ok w s : f_inode s w → runs (op_idup w) (λ r _, r = w) s
}.

(** ** Rules for code of one layer *)

Section rules.
Context {F : Type} `{!FileOps F}.

Lemma runs_lk {A} (m : K lkst A) (Q : A → pst F → Prop) t i n fi lk k f :
  runs m (λ a x, Q a (Pst t i n fi x k f)) lk → runs (on_lk m) Q (Pst t i n fi lk k f).
Proof. intros (a & x & E & HQ). eexists _, _. split; [|exact HQ]. unfold on_lk. simpl. by rewrite E. Qed.

Lemma runs_k {A} (m : K kst A) (Q : A → pst F → Prop) t i n fi lk k f :
  runs m (λ a x, Q a (Pst t i n fi lk x f)) k → runs (on_k m) Q (Pst t i n fi lk k f).
Proof. intros (a & x & E & HQ). eexists _, _. split; [|exact HQ]. unfold on_k. simpl. by rewrite E. Qed.

Lemma runs_f {A} (m : K F A) (Q : A → pst F → Prop) t i n fi lk k f :
  runs m (λ a x, Q a (Pst t i n fi lk k x)) f → runs (on_f m) Q (Pst t i n fi lk k f).
Proof. intros (a & x & E & HQ). eexists _, _. split; [|exact HQ]. unfold on_f. simpl. by rewrite E. Qed.

(** The slot being filled holds [y], the others are as in [t]. *)
Section slot.
Context (np : nat) (t : list proc) (Hnp : (np < length t)%nat).

Lemma runs_upd_slot g y i n fi lk k f (Q : unit → pst F → Prop) :
  Q tt (Pst (<[np := g y]> t) i n fi lk k f) → runs (upd np g) Q (Pst (<[np := y]> t) i n fi lk k f).
Proof using Hnp.
  intros HQ. unfold upd. kstep. unfold set_table. simpl.
  rewrite (alter_insert_list g np _ y), list_insert_insert_eq; [done|]. by apply list_lookup_insert_eq.
Qed.

Lemma runs_getp_slot y i n fi lk k f (Q : proc → pst F → Prop) :
  Q y (Pst (<[np := y]> t) i n fi lk k f) → runs (getp np) Q (Pst (<[np := y]> t) i n fi lk k f).
Proof using Hnp. intros HQ. unfold getp. kstep. simpl. by rewrite list_lookup_total_insert_eq. Qed.

Lemma runs_getp_other cur x y i n fi lk k f (Q : proc → pst F → Prop) :
  t !! cur = Some x → cur ≠ np →
  Q x (Pst (<[np := y]> t) i n fi lk k f) → runs (getp cur) Q (Pst (<[np := y]> t) i n fi lk k f).
Proof using Hnp.
  intros Hx Hne HQ. unfold getp. kstep. simpl. rewrite list_lookup_total_insert_ne by done.
  by rewrite (list_lookup_total_correct _ _ _ Hx).
Qed.
End slot.
End rules.

(** ** Memory of the new kernel stack *)

Section stack.
Context (trapret forkret_addr : Z).

(** What [allocproc] writes to the stack page [v]. *)
Definition stack_mem (v : Z) (m : gmap Z Z) : gmap Z Z :=
  st32 (memset (st32 m (v + 4016) trapret) (v + 3996) 0 20) (v + 4012) forkret_addr.

(** What [fork] writes there: the trap frame at [tf], with [%eax] cleared. *)
Definition frame_mem (v tf : Z) (m : gmap Z Z) : gmap Z Z :=
  st32 (memmove m (v + 4020) tf SIZEOF_TRAPFRAME) (v + 4048) 0.

Lemma stack_mem_out v m : same_out {[v]} m (stack_mem v m).
Proof.
  intros b Hb. specialize (Hb v ltac:(set_solver)). unfold PGSIZE in Hb. unfold stack_mem.
  rewrite rd_st32, rd_memset, rd_st32 by lia. bdestruct_all; simpl; try done; lia.
Qed.

Lemma frame_mem_out v tf m : mem_ok m → same_out {[v]} m (frame_mem v tf m).
Proof.
  intros Hm b Hb. specialize (Hb v ltac:(set_solver)). unfold PGSIZE in Hb. unfold frame_mem, SIZEOF_TRAPFRAME.
  rewrite rd_st32, rd_memmove by (done || lia). bdestruct_all; simpl; try done; lia.
Qed.

Lemma stack_mem_ok v m : mem_ok m → mem_ok (stack_mem v m).
Proof. intros. unfold stack_mem. eauto with kernel. Qed.

Lemma frame_mem_ok v tf m : mem_ok m → mem_ok (frame_mem v tf m).
Proof. intros. unfold frame_mem. eauto with kernel. Qed.

Lemma frame_mem_frame v tf m o : mem_ok m → 0 ≤ o < SIZEOF_TRAPFRAME → ¬ (28 ≤ o < 32) →
  rd (frame_mem v tf m) (v + 4020 + o) = rd m (tf + o).
Proof.
  unfold SIZEOF_TRAPFRAME. intros Hm Ho Hn. unfold frame_mem, SIZEOF_TRAPFRAME.
  rewrite rd_st32, rd_memmove by (done || lia). bdestruct_all; simpl; try lia; f_equal; lia.
Qed.

Lemma frame_mem_eax v tf m : ld32 (frame_mem v tf m) (v + 4020 + 28) = 0.
Proof. unfold frame_mem. replace (v + 4020 + 28) with (v + 4048) by lia. by rewrite ld32_st32_eq. Qed.

(** The context is untouched by the trap frame. *)
Lemma frame_mem_context v tf m m0 : mem_ok m → (∀ b, v ≤ b < v + PGSIZE → rd m b = rd (stack_mem v m0) b) →
  0 ≤ forkret_addr < 2 ^ 32 →
  ld32 (frame_mem v tf m) (v + 4012) = forkret_addr.
Proof.
  intros Hm Hs Hf. rewrite <- (u32_small forkret_addr Hf), <- (ld32_st32_eq (memset (st32 m0 (v + 4016) trapret) (v + 3996) 0 20) (v + 4012) forkret_addr).
  apply ld32_ext. intros b Hb. change (st32 _ (v + 4012) forkret_addr) with (stack_mem v m0). rewrite <- Hs by (unfold PGSIZE; lia).
  unfold frame_mem, SIZEOF_TRAPFRAME. rewrite rd_st32, rd_memmove by (done || lia).
  bdestruct_all; simpl; try done; lia.
Qed.
End stack.

(** ** [fork] *)

Section fork.
Context {F : Type} `{!FileOps F} `{!FileSpec F}.
Context (kend kdata ptable trapret forkret_addr : Z) (Hkend : KERNBASE < kend).
Context (Hdata : KERNLINK < kdata < KERNBASE + PHYSTOP) (Halign : kdata mod PGSIZE = 0).
Context (Hfr : 0 ≤ forkret_addr < 2 ^ 32).

Notation pst := (pst F).

(** The caller: process [x] of slot [cur], running on processor [c]; the free pages
    [l] and its page table [Tp]. *)
Record fork_pre (c : nat) (b : bool) (cur : nat) (x : proc) (l : list Z) (Tp : gmap Z Z) (s : pst) : Prop := {
  fp_lock : quiet c ptable b (s_lk s);
  fp_next : 0 < s_nextpid s < 2 ^ 31 - 1;
  fp_cur : s_proc s !! cur = Some x;
  fp_run : p_state x = RUNNING;
  fp_k : kinv kend (s_k s) l;
  fp_pt : pt kend (k_mem (s_k s)) (p_pgdir x) Tp;
  fp_dis v : v ∈ l → v ∉ own (p_pgdir x) Tp;
  fp_sz : 0 ≤ p_sz x ≤ KERNBASE;
  fp_pages q : 0 ≤ q < npg (p_sz x) → present (entry (k_mem (s_k s)) Tp q) ∧
    page_ok kend (frame (entry (k_mem (s_k s)) Tp q)) ∧ frame (entry (k_mem (s_k s)) Tp q) ∉ l;
  fp_stack : page_ok kend (p_kstack x) ∧ p_kstack x ∉ l ∧ p_tf x = p_kstack x + KSTACKSIZE - SIZEOF_TRAPFRAME;
  fp_ofile : length (p_ofile x) = NOFILE;
  fp_files f : f ∈ p_ofile x → f ≠ 0 → f_file (s_f s) f;
  fp_cwd : f_inode (s_f s) (p_cwd x);
  fp_name : (length (p_name x) ≤ 15)%nat;
  fp_clean i y : s_proc s !! i = Some y → p_state y = UNUSED → p_ofile y = replicate NOFILE 0
}.

(** A failed call gives back what it took; it fails only when the table is full or
    memory is short: a stack, a directory with its tables, and the pages. *)
Definition fork_failed (x : proc) (l : list Z) (s s' : pst) : Prop :=
  ((∀ i y, s_proc s !! i = Some y → p_state y ≠ UNUSED) ∨ Z.of_nat (length l) ≤ 1027 + npg (p_sz x)) ∧
  (∀ i, p_state <$> s_proc s' !! i = p_state <$> s_proc s !! i) ∧
  (∃ l', kinv kend (s_k s') l' ∧ ∀ w, w ∈ l' ↔ w ∈ l).

(** The child [y] of slot [np], with page table [T']. *)
Record fork_child (cur : nat) (x : proc) (l : list Z) (Tp : gmap Z Z) (s s' : pst) (np : nat) (y : proc)
    (l' : list Z) (T' : gmap Z Z) : Prop := {
  fc_slot : ∃ z, s_proc s !! np = Some z ∧ p_state z = UNUSED;
  fc_table : s_proc s' = <[np := y]> (s_proc s);
  fc_state : p_state y = RUNNABLE;
  fc_pid : p_pid y = s_nextpid s;
  fc_next : s_nextpid s' = s_nextpid s + 1;
  fc_parent : p_parent y = Some cur;
  fc_same : p_sz y = p_sz x ∧ p_ofile y = p_ofile x ∧ p_cwd y = p_cwd x ∧ p_name y = p_name x;
  fc_inv : vinv kend (s_k s') l' (p_pgdir y) T';
  fc_page q : 0 ≤ q < npg (p_sz x) →
    let e := entry (k_mem (s_k s')) T' q in let e0 := entry (k_mem (s_k s)) Tp q in
    present e ∧ PTE_FLAGS e = PTE_FLAGS e0 ∧ frame e ≠ frame e0 ∧
    ∀ o, 0 ≤ o < PGSIZE → rd (k_mem (s_k s')) (frame e + o) = rd (k_mem (s_k s)) (frame e0 + o);
  fc_mem : same_out (list_to_set l) (k_mem (s_k s)) (k_mem (s_k s'));
  fc_frame o : 0 ≤ o < SIZEOF_TRAPFRAME → ¬ (tf_eax ≤ o < tf_eax + 4) →
    rd (k_mem (s_k s')) (p_tf y + o) = rd (k_mem (s_k s)) (p_tf x + o);
  fc_eax : ld32 (k_mem (s_k s')) (p_tf y + tf_eax) = 0;
  fc_eip : ld32 (k_mem (s_k s')) (p_context y + 16) = forkret_addr
}.

(** *** The pieces *)

Lemma take_runs c b t i n fi lk k f (Q : option nat → pst → Prop) :
  quiet c ptable b lk →
  (∀ lk', quiet c ptable b lk' → (∀ i y, t !! i = Some y → p_state y ≠ UNUSED) → Q None (Pst t i n fi lk' k f)) →
  (∀ lk' np z, quiet c ptable b lk' → t !! np = Some z → p_state z = UNUSED →
     Q (Some np) (Pst (<[np := set_ppid n (set_pstate EMBRYO z)]> t) i (s32 (n + 1)) fi lk' k f)) →
  runs (allocproc_take ptable c) Q (Pst t i n fi lk k f).
Proof.
  intros Hq Hnone Hsome. unfold allocproc_take, acquire_ptable, release_ptable. kstep. apply runs_lk.
  eapply acquire_ok; [done|]. intros lk1 H1. do 2 kstep. simpl.
  destruct (list_find _ t) as [[np z]|] eqn:Ef.
  - apply list_find_Some in Ef as (Hz & Hu & _). pose proof (lookup_lt_Some _ _ _ Hz) as Hlt.
    rewrite <- (list_insert_id t np z Hz) at 1. kstep. apply runs_upd_slot; [done|]. kstep. apply runs_upd_slot; [done|].
    do 3 kstep. apply runs_lk. eapply release_runs; [done|]. intros lk2 H2. kstep. by apply Hsome.
  - kstep. apply runs_lk. eapply release_runs; [done|]. intros lk2 H2. kstep. apply Hnone; [done|].
    intros j y Hy Hu. apply list_find_None in Ef. eapply Forall_lookup_1 in Ef; [|done]. done.
Qed.

Lemma go_runs c b np y t i n fi lk k f (Q : Z → pst → Prop) : (np < length t)%nat → quiet c ptable b lk →
  (∀ lk', Q (p_pid y) (Pst (<[np := set_pstate RUNNABLE y]> t) i n fi lk' k f)) →
  runs (fork_go ptable c np) Q (Pst (<[np := y]> t) i n fi lk k f).
Proof.
  intros Hlt Hq HQ. unfold fork_go, acquire_ptable, release_ptable. kstep. apply runs_getp_slot; [done|].
  kstep. apply runs_lk. eapply acquire_ok; [done|]. intros lk1 H1. kstep. apply runs_upd_slot; [done|].
  kstep. apply runs_lk. eapply release_runs; [done|]. intros lk2 H2. kstep. apply HQ.
Qed.

(** The files of the first [j] descriptors copied. *)
Lemma files_runs cur x np t i n fi lk k : t !! cur = Some x → cur ≠ np → (np < length t)%nat →
  length (p_ofile x) = NOFILE →
  ∀ m j y f (Q : unit → pst → Prop), (j + m = NOFILE)%nat →
  (∀ g, g ∈ p_ofile x → g ≠ 0 → f_file f g) → f_inode f (p_cwd x) →
  p_ofile y = take j (p_ofile x) ++ replicate m 0 →
  (∀ f', f_inode f' (p_cwd x) → Q tt (Pst (<[np := set_pofile (p_ofile x) y]> t) i n fi lk k f')) →
  runs (fork_files cur np j m) Q (Pst (<[np := y]> t) i n fi lk k f).
Proof.
  intros Hx Hne Hlt Hlen. induction m as [|m IH]; intros j y f Q Hj Hf Hw Hy HQ; simpl.
  - kstep. replace y with (set_pofile (p_ofile x) y); [by apply HQ|].
    rewrite take_ge, app_nil_r in Hy by lia. destruct y; simpl in *. by subst.
  - assert (is_Some (p_ofile x !! j)) as [g Hg] by (apply lookup_lt_is_Some; lia).
    assert (Hnext : take (S j) (p_ofile x) ++ replicate m 0 = <[j := g]> (p_ofile y)).
    { rewrite Hy, (take_S_r _ _ _ Hg). simpl. rewrite insert_app_r_alt; rewrite length_take; [|lia].
      replace (j - j `min` length (p_ofile x))%nat with 0%nat by lia. simpl. by rewrite <- app_assoc. }
    kstep. eapply runs_getp_other; [done|done|done|]. rewrite (list_lookup_total_correct _ _ _ Hg). kstep.
    destruct (Z.eqb_spec g 0) as [-> |Hg0]; simpl.
    + kstep. eapply IH; [lia|done|done| |done]. rewrite Hnext, Hy. symmetry.
      apply list_insert_id. rewrite lookup_app_r; rewrite length_take; [|lia].
      replace (j - j `min` length (p_ofile x))%nat with 0%nat by lia. done.
    + kstep. apply runs_f. eapply runs_mono; [apply op_filedup_ok, Hf; [by eapply list_elem_of_lookup_2|done]|].
      intros r f' (-> & Hf1 & Hf2). apply runs_upd_slot; [done|].
      eapply IH; [lia|by auto|by auto| |].
      * simpl. by rewrite Hnext.
      * intros f2 H2. specialize (HQ f2 H2). by destruct y.
Qed.
(** *** Memory along the call

    [v] is the stack page, [k1] the allocator after it was taken, [s3] the memory
    after [copyuvm]. *)
Section memory.
Context (c : nat) (b : bool) (cur : nat) (x : proc) (s : pst) (v : Z) (l1 : list Z) (Tp : gmap Z Z).
Context (Hpre : fork_pre c b cur x (v :: l1) Tp s) (k1 : kst) (Hk1 : kinv kend k1 l1) (Em1 : k_mem k1 = k_mem (s_k s)).

Notation m := (k_mem (s_k s)).
Notation m1 := (stack_mem trapret forkret_addr v m).
Notation k2 := (set_kmem m1 k1).

Lemma new_page : page_ok kend v ∧ v ∉ l1 ∧ mem_ok m ∧ v ∉ own (p_pgdir x) Tp.
Proof using All.
  destruct Hpre as [_ _ _ _ Hk _ Hd _ _ _ _ _ _ _ _]. pose proof (kinv_nodup _ _ _ Hk) as Hnd. apply NoDup_cons in Hnd as [? _].
  split; [|split; [done|]].
  - eapply Forall_forall; [eapply chain_pages, Hk|]. set_solver.
  - split; [apply Hk|]. apply Hd. set_solver.
Qed.

Lemma k2_inv : kinv kend k2 l1.
Proof using All.
  destruct new_page as (Hv & Hn & Hm & _).
  apply (kinv_out kend {[v]}); [done|by apply stack_mem_ok|rewrite Em1; apply stack_mem_out|set_solver].
Qed.

Lemma k2_entry q : entry m1 Tp q = entry m Tp q.
Proof using All.
  destruct new_page as (Hv & Hn & Hm & Ho).
  eapply (entry_out kend); [apply Hpre|apply stack_mem_out|set_solver].
Qed.

Lemma k2_pt : pt kend m1 (p_pgdir x) Tp.
Proof using All.
  destruct new_page as (Hv & Hn & Hm & Ho). eapply (pt_out kend); [apply Hpre|apply stack_mem_out|set_solver].
Qed.

(** A page that is not [v] keeps its bytes when the stack is written. *)
Lemma stack_other p o : page_ok kend p → p ≠ v → 0 ≤ o < PGSIZE → rd m1 (p + o) = rd m (p + o).
Proof using All.
  intros Hp Hne Ho. destruct new_page as (Hv & _). apply (stack_mem_out trapret forkret_addr).
  eapply (out_of kend {[v]} p); [done|set_solver|set_solver|lia].
Qed.

Lemma copy_runs (Q : Z → kst → Prop) :
  (∀ s' l', kinv kend s' l' → (∀ w, w ∈ l' ↔ w ∈ l1) → Z.of_nat (length l1) ≤ 1026 + npg (p_sz x) → Q 0 s') →
  (∀ d s' l' T', d ≠ 0 → forked kend kdata (p_sz x) Tp m1 l1 d s' l' T' → Q d s') →
  runs (copyuvm kend kdata (p_pgdir x) (p_sz x)) Q k2.
Proof using All.
  intros H0 H1. apply (copyuvm_ok kend kdata Hkend Hdata Halign k2 l1 (p_pgdir x) (p_sz x) Tp Q).
  - apply k2_inv.
  - apply k2_pt.
  - apply Hpre.
  - intros w Hw. apply (fp_dis _ _ _ _ _ _ _ Hpre). set_solver.
  - intros q Hq. simpl. rewrite k2_entry. destruct (fp_pages _ _ _ _ _ _ _ Hpre q Hq) as (A & B & C).
    split; [done|]. split; [done|]. set_solver.
  - intros s' l' A B _ C. by eapply H0.
  - done.
Qed.

(** After [copyuvm]: the child's page table [T'] at [d]. *)
Context (d : Z) (s3 : kst) (l' : list Z) (T' : gmap Z Z).
Context (Hf : forked kend kdata (p_sz x) Tp m1 l1 d s3 l' T').

Notation m4 := (frame_mem v (p_tf x) (k_mem s3)).

Lemma child_apart : v ∉ own d T' ∧ v ∉ l' ∧ mem_ok (k_mem s3) ∧ (∀ w, w ∈ l1 → page_ok kend w).
Proof using All.
  destruct new_page as (Hv & Hn & _). pose proof (fk_count _ _ _ _ _ _ _ _ _ _ Hf) as Hc.
  split; [|split; [|split]].
  - intros H. apply Hn, Hc. auto.
  - intros H. apply Hn, Hc. auto.
  - apply (vi_k _ _ _ _ _ (fk_inv _ _ _ _ _ _ _ _ _ _ Hf)).
  - intros w Hw. eapply Forall_forall; [eapply chain_pages, Hpre|]. set_solver.
Qed.

Lemma m4_out : same_out {[v]} (k_mem s3) m4.
Proof using All. apply frame_mem_out, child_apart. Qed.

Lemma child_inv : vinv kend (set_kmem m4 s3) l' d T'.
Proof using All.
  destruct new_page as (Hv & _). destruct child_apart as (H1 & H2 & H3 & _).
  pose proof (fk_inv _ _ _ _ _ _ _ _ _ _ Hf) as [Ik Ip Id]. split; simpl; [| |done].
  - apply (kinv_out kend {[v]}); [done|by apply frame_mem_ok|apply m4_out|set_solver].
  - eapply (pt_out kend); [done|apply m4_out|set_solver].
Qed.

Lemma child_page q : 0 ≤ q < npg (p_sz x) →
  let e := entry m4 T' q in let e0 := entry m Tp q in
  present e ∧ PTE_FLAGS e = PTE_FLAGS e0 ∧ frame e ≠ frame e0 ∧
  ∀ o, 0 ≤ o < PGSIZE → rd m4 (frame e + o) = rd m (frame e0 + o).
Proof using All.
  intros Hq e e0. destruct new_page as (Hv & Hn & _). destruct child_apart as (H1 & H2 & H3 & H4).
  destruct (fk_page _ _ _ _ _ _ _ _ _ _ Hf q Hq) as (A & B & C & D).
  destruct (fp_pages _ _ _ _ _ _ _ Hpre q Hq) as (_ & A0 & B0).
  assert (Ee : e = entry (k_mem s3) T' q).
  { eapply (entry_out kend); [apply (fk_inv _ _ _ _ _ _ _ _ _ _ Hf)|apply m4_out|set_solver]. }
  rewrite Ee. unfold par_flags in B. rewrite k2_entry in B. fold e0 in A0, B0, B.
  split; [done|]. split; [done|]. split; [intros E; rewrite E in C; set_solver|].
  intros o Ho. rewrite m4_out.
  - rewrite D by done. unfold par_byte. rewrite k2_entry. apply stack_other; [done|set_solver|done].
  - eapply (out_of kend {[v]}); [by apply H4|set_solver|set_solver|lia].
Qed.

Lemma whole_out : same_out (list_to_set (v :: l1)) m m4.
Proof using All.
  eapply same_out_trans; [|eapply same_out_mono; [|apply m4_out]; set_solver].
  eapply same_out_trans; [eapply (same_out_mono {[v]}); [set_solver|apply stack_mem_out]|].
  eapply same_out_mono; [|apply (fk_mem _ _ _ _ _ _ _ _ _ _ Hf)]. set_solver.
Qed.

(** The page [v] is not touched by [copyuvm]; nor is the parent's stack. *)
Lemma copied_other p o : page_ok kend p → p ∉ l1 → 0 ≤ o < PGSIZE → rd (k_mem s3) (p + o) = rd m1 (p + o).
Proof using All.
  intros Hp Hn Ho. destruct child_apart as (_ & _ & _ & H4). apply (fk_mem _ _ _ _ _ _ _ _ _ _ Hf).
  eapply (out_of kend _ p); [done| |set_solver|lia]. intros w Hw. apply H4. set_solver.
Qed.

Lemma child_frame o : 0 ≤ o < SIZEOF_TRAPFRAME → ¬ (28 ≤ o < 32) →
  rd m4 (v + 4020 + o) = rd m (p_tf x + o).
Proof using All.
  intros Ho Hn. destruct child_apart as (_ & _ & H3 & _). destruct (fp_stack _ _ _ _ _ _ _ Hpre) as (Hp & Hs & ->).
  rewrite frame_mem_frame by done. unfold SIZEOF_TRAPFRAME, KSTACKSIZE in *.
  replace (p_kstack x + 4096 - 76 + o) with (p_kstack x + (4020 + o)) by lia.
  rewrite copied_other, stack_other; [done|done|set_solver| |done|set_solver|]; unfold PGSIZE; lia.
Qed.

Lemma child_eip : ld32 m4 (v + 4012) = forkret_addr.
Proof using All.
  destruct child_apart as (_ & _ & H3 & _). destruct new_page as (Hv & Hn & _).
  eapply frame_mem_context; [done| |done]. intros a Ha.
  replace a with (v + (a - v)) by lia. apply copied_other; [done|done|lia].
Qed.
End memory.

(** *** The call *)

#[local] Arguments fork_files : simpl never.
#[local] Arguments NOFILE : simpl never.

(** States of the table when the slot [np] is free again. *)
Lemma states_back (t : list proc) np z y i : t !! np = Some z → p_state z = UNUSED → p_state y = UNUSED →
  p_state <$> <[np := y]> t !! i = p_state <$> t !! i.
Proof.
  intros Hz Hu Hy. destruct (decide (i = np)) as [-> |].
  - rewrite list_lookup_insert_eq, Hz by (by eapply lookup_lt_Some). simpl. congruence.
  - by rewrite list_lookup_insert_ne.
Qed.

(** [allocproc] after its critical section, then the copy. *)
Lemma build_runs c b cur x l Tp t i n fi lk k f np z (Q : bool → pst → Prop) :
  fork_pre c b cur x l Tp (Pst t i n fi lk k f) → t !! np = Some z → p_state z = UNUSED →
  (∀ s' l', s_lk s' = lk → (∀ i, p_state <$> s_proc s' !! i = p_state <$> t !! i) →
     kinv kend (s_k s') l' → (∀ w, w ∈ l' ↔ w ∈ l) → Z.of_nat (length l) ≤ 1027 + npg (p_sz x) → Q false s') →
  (∀ y k' f' l' T', fork_child cur x l Tp (Pst t i n fi lk k f)
       (Pst (<[np := set_pstate RUNNABLE y]> t) i (n + 1) fi lk k' f') np (set_pstate RUNNABLE y) l' T' →
     p_pid y = n → Q true (Pst (<[np := y]> t) i (n + 1) fi lk k' f')) →
  runs (fork_build kend kdata trapret forkret_addr cur np) Q
    (Pst (<[np := set_ppid n (set_pstate EMBRYO z)]> t) i (n + 1) fi lk k f).
Proof using All.
  intros Hpre Hz Hu Hbad Hgood. pose proof (lookup_lt_Some _ _ _ Hz) as Hlt. pose proof Hpre as [_ _ Hx Hr Hk _ _ _ _ Hst Hof Hfl Hcw Hnm Hcl].
  cbn [s_proc s_f s_k] in *. assert (Hne : cur ≠ np) by congruence. unfold fork_build, allocproc_stack, fork_copy, mem_mod.
  kstep. kstep. apply runs_k. eapply kalloc_ok; [exact Hk| |].
  - intros ->. kstep. apply runs_upd_slot; [done|]. simpl. kstep. apply runs_upd_slot; [done|]. do 2 kstep.
    pose proof (npg_range (p_sz x) ltac:(apply Hpre)).
    eapply (Hbad _ []); [done| |done|done|simpl; lia]. intros j. by eapply states_back.
  - intros v l1 k1 -> Hv0 Hk1 _ Em1. kstep. apply runs_upd_slot; [done|]. apply Z.eqb_neq in Hv0. rewrite Hv0.
    destruct Hst as (Hkp & Hkn & Htf). unfold KSTACKSIZE, SIZEOF_TRAPFRAME, SIZEOF_CONTEXT in *.
    kstep. apply runs_upd_slot; [done|]. kstep. apply runs_k. kstep.
    kstep. apply runs_upd_slot; [done|]. kstep. apply runs_k. kstep. kstep. apply runs_k. kstep. kstep.
    kstep. eapply runs_getp_other; [done|done|done|]. cbn [k_mem set_kmem k_locked k_use_lock k_freelist].
    kstep. apply runs_k. rewrite Em1.
    replace (v + 4096 - 76 - 4 - 20 + 16) with (v + 4012) by lia. replace (v + 4096 - 76 - 4 - 20) with (v + 3996) by lia.
    replace (v + 4096 - 76 - 4) with (v + 4016) by lia. replace (v + 4096 - 76) with (v + 4020) by lia.
    change (set_kmem _ (set_kmem _ (set_kmem _ k1))) with (set_kmem (stack_mem trapret forkret_addr v (k_mem k)) k1).
    eapply (copy_runs c b cur x (Pst t i n fi lk k f) v l1 Tp Hpre k1 Hk1 Em1).
    + intros s3 l' Hk3 Hl' Hlen. simpl. kstep. apply runs_upd_slot; [done|]. kstep. apply runs_getp_slot; [done|].
      destruct (new_page c b cur x (Pst t i n fi lk k f) v l1 Tp Hpre k1 Hk1 Em1) as (Hpg & Hvn & _). simpl.
      kstep. apply runs_k. eapply kfree_ok; [done|done|by rewrite Hl'|]. intros s4 Hk4 _ _.
      kstep. apply runs_upd_slot; [done|]. kstep. apply runs_upd_slot; [done|]. kstep.
      eapply (Hbad _ (v :: l')); [done| |done| |simpl; lia]; [intros j; by eapply states_back|]. intros w. rewrite !elem_of_cons, Hl'. done.
    + intros d s3 l' T' Hd Hf.
      pose proof (child_inv c b cur x (Pst t i n fi lk k f) v l1 Tp Hpre k1 Hk1 Em1 d s3 l' T' Hf) as Hinv.
      pose proof (child_page c b cur x (Pst t i n fi lk k f) v l1 Tp Hpre k1 Hk1 Em1 d s3 l' T' Hf) as Hpage.
      pose proof (whole_out c b cur x (Pst t i n fi lk k f) v l1 Tp Hpre k1 Hk1 Em1 d s3 l' T' Hf) as Hout.
      pose proof (child_frame c b cur x (Pst t i n fi lk k f) v l1 Tp Hpre k1 Hk1 Em1 d s3 l' T' Hf) as Hframe.
      pose proof (child_eip c b cur x (Pst t i n fi lk k f) v l1 Tp Hpre k1 Hk1 Em1 d s3 l' T' Hf) as Heip.
      apply Z.eqb_neq in Hd. rewrite Hd. simpl in *.
      do 3 (kstep; apply runs_upd_slot; [done|]). kstep. apply runs_getp_slot; [done|].
      kstep. apply runs_k. kstep. kstep. apply runs_k. kstep. cbn [p_tf set_pparent set_psz set_ppgdir set_pcontext set_ptf].
      replace (v + 4020 + tf_eax) with (v + 4048) by (unfold tf_eax; lia).
      change (set_kmem _ (set_kmem _ s3)) with (set_kmem (frame_mem v (p_tf x) (k_mem s3)) s3).
      kstep. eapply (files_runs cur x np t); [done|done|done|done|done|done|done| |].
      { simpl. by rewrite (Hcl np z Hz Hu). }
      intros f' Hw'. kstep. apply runs_f. eapply runs_mono; [by apply op_idup_ok|]. intros w f2 ->.
      do 2 (kstep; apply runs_upd_slot; [done|]). kstep.
      eapply (Hgood _ _ _ l' T'); [|done]. split; simpl; [by exists z|try done..].
      * unfold name_copy. by rewrite take_ge.
      * apply frame_mem_eax.
      * by replace (v + 3996 + 16) with (v + 4012) by lia.
Qed.

Lemma stack_slot np s : post (allocproc_stack trapret forkret_addr np) (λ o (_ : pst), ∀ p, o = Some p → p = np) s.
Proof.
  assert (Hany : ∀ {A} (m : K pst A) (Q : A → pst → Prop) s, (∀ a s', Q a s') → post m Q s) by (intros A m Q s1 H a s2 _; apply H).
  unfold allocproc_stack, upd. pstep. apply Hany. intros v s1. pstep. pstep. destruct (v =? 0).
  - do 2 pstep. by pstep.
  - do 2 pstep. pstep. apply Hany. intros _ s2. do 2 pstep. pstep. apply Hany. intros _ s3. pstep. apply Hany.
    intros _ s4. pstep. by intros p [= <-].
Qed.

(** The two halves of [allocproc] and [fork_copy], grouped as in [fork_build]. *)
Lemma build_bind c np cur (Q : Z → pst → Prop) s :
  runs (fork_build kend kdata trapret forkret_addr cur np)
    (λ b s', runs (if negb b then mret (-1) else fork_go ptable c np) Q s') s →
  runs (allocproc_stack trapret forkret_addr np) (λ o s', runs
    match o with
    | None => mret (-1)
    | Some np => b ← fork_copy kend kdata cur np; if negb b then mret (-1) else fork_go ptable c np
    end Q s') s.
Proof.
  unfold fork_build. intros (o & s1 & E & H)%runs_bind_inv. exists o, s1. split; [done|].
  pose proof (stack_slot np s o s1 E) as Ho. destruct o as [np'|].
  - rewrite (Ho np' eq_refl) in *. kstep. exact H.
  - destruct H as (a & s2 & [= <- <-] & H). exact H.
Qed.

Lemma fork_runs c b cur x l Tp s (Q : Z → pst → Prop) :
  fork_pre c b cur x l Tp s →
  (∀ s', fork_failed x l s s' → Q (-1) s') →
  (∀ s' np y l' T', fork_child cur x l Tp s s' np y l' T' → Q (s_nextpid s) s') →
  runs (fork kend kdata ptable trapret forkret_addr c cur) Q s.
Proof using All.
  intros Hpre Hbad Hgood. destruct s as [t i n fi lk k f]. pose proof Hpre as [Hlk Hn _ _ Hk _ _ _ _ _ _ _ _ _ _]. simpl in *.
  unfold fork, allocproc. kstep. kstep. eapply take_runs; [done| |].
  - intros lk' Hq Hfull. cbv beta iota. kstep. cbv beta iota. kstep. apply Hbad. split; [by left|].
    split; [done|]. by exists l.
  - intros lk' np z Hq Hz Hu. rewrite s32_small by lia.
    assert (Hpre' : fork_pre c b cur x l Tp (Pst t i n fi lk' k f)) by (destruct Hpre; by split).
    apply (build_bind c np).
    eapply (build_runs c b cur x l Tp t i n fi lk' k f np z); [done|done|done| |].
    + intros s' l' _ H1 H2 H3 H4. cbn [negb]. kstep. apply Hbad. split; [by right|]. split; [done|]. by exists l'.
    + intros y k' f' l' T' Hc Hy. cbn [negb]. eapply go_runs; [by eapply lookup_lt_Some|done|].
      intros lk2. rewrite Hy. eapply Hgood. destruct Hc. by split.
Qed.

End fork.
