(* ===== verification/ProcProps.v ===== *)
(** * Processes: theorems

    The life of processes under every interleaving, [fork] as a whole, and the
    rounds of the scheduler. *)

From S2P Require Import Prelude Str Mmu Spinlock Kalloc Vm VmSpec VmUser VmFork VmProps Proc ProcSpec ProcInv ProcFork.

(** ** Boot *)

Section boot.
Context {F : Type} `{!FileOps F}.
Context (kend kdata ptable trapret forkret_addr init_start init_size : Z).

(** The zeroed table, and the table with the first process only. *)
Definition zeroed (s : pst F) : Prop := s_proc s = replicate NPROC proc0 ∧ s_nextpid s = 1.
Definition booted (s : pst F) : Prop :=
  ∃ p, views s = <[p := View RUNNABLE 1 None 0]> (replicate NPROC (view_of proc0)) ∧ (p < NPROC)%nat ∧
    s_initproc s = Some p ∧ s_nextpid s = 2.

Lemma userinit_boots c s s' : zeroed s →
  userinit kend kdata ptable trapret forkret_addr init_start init_size c s = Ok (tt, s') → booted s'.
Proof.
  intros [Ht Hn] E.
  assert (Hvs : views s = replicate NPROC (view_of proc0)) by (unfold views; by rewrite Ht, fmap_replicate).
  apply (table_eq _ _ _ _ _ (userinit_table _ _ _ _ _ _ _ _ _)) in E as (p & v & Hv & _ & E).
  injection E as E1 E2 E3. exists p. rewrite E1, E2, E3, Hn. cbn [t_v table_of] in Hv. rewrite Hvs in *.
  apply lookup_replicate in Hv as [-> Hp]. split; [|done]. rewrite (alter_insert_list _ p _ (view_of proc0)); [done|by apply lookup_replicate].
Qed.

Lemma booted_inv s : booted s → cfg_inv ptable (Cfg s (λ _, Idle)).
Proof.
  intros (p & Ht & Hp & Hi & Hn). exists p. simpl. split; [done|]. rewrite Hn. set (y := View RUNNABLE 1 None 0) in *.
  assert (Hv : ∀ i v, views s !! i = Some v → (i = p ∧ v = y) ∨ (i ≠ p ∧ v = view_of proc0)).
  { intros i v H. rewrite Ht in H. destruct (decide (i = p)) as [-> |]; [left|right; split; [done|]].
    - rewrite list_lookup_insert_eq in H by (by rewrite length_replicate). by injection H as <-.
    - rewrite list_lookup_insert_ne in H by done. by apply lookup_replicate in H as [-> _]. }
  assert (Hvp : views s !! p = Some y) by (by rewrite Ht, list_lookup_insert_eq by (by rewrite length_replicate)).
  split; try done.
  - by rewrite Ht, length_insert, length_replicate.
  - exists y. unfold alive. naive_solver.
  - intros i v [[-> ->]|[_ ->]]%Hv; simpl; (split; [lia|done]).
  - intros i j v w [[-> ->]|[? ->]]%Hv [[-> ->]|[? ->]]%Hv; simpl; done.
  - intros i v q [[-> ->]|[_ ->]]%Hv; simpl; congruence.
  - intros i v [[-> ->]|[_ ->]]%Hv; simpl; congruence.
  - intros i v [[-> ->]|[_ ->]]%Hv; simpl; [done|]. intros [[|[|]]|]; done.
  - intros i v [[-> ->]|[_ ->]]%Hv; simpl; congruence.
  - intros i v [[-> ->]|[_ ->]]%Hv; simpl; congruence.
Qed.

End boot.

(** ** The life of processes *)

Section life.
Context {F : Type} `{!FileOps F}.
Context (kend kdata ptable trapret forkret_addr : Z).

Notation pstep := (pstep kend kdata ptable trapret forkret_addr).

Lemma booted_reach (s : pst F) g : booted s → rtc pstep (Cfg s (λ _, Idle)) g → cfg_inv ptable g.
Proof. intros. eapply rtc_invariant; [apply cfg_step|by apply booted_inv|done]. Qed.

(** [wait] of a process with an exited child returns one of them. *)
Lemma resume_collects (s s' : pst F) c i j v w r : views s !! i = Some v → views s !! j = Some w → v_parent w = Some i →
  v_state w = ZOMBIE → i ≠ j → (j < NPROC)%nat → wait_resume kend ptable c i s = Ok (r, s') →
  ∃ k x, views s !! k = Some x ∧ v_parent x = Some i ∧ v_state x = ZOMBIE ∧ r = Some (v_pid x) ∧
    ∃ x', views s' !! k = Some x' ∧ v_state x' = UNUSED.
Proof.
  intros Hv Hw Hp Hz Hne Hj E. unfold wait_resume in E. apply bind_inv in E as ([] & s1 & E1 & E).
  apply (table_eq _ _ _ _ _ (sleep_end_table _ _ _ _ _)) in E1.
  apply (table_eq _ _ _ _ _ (wait_round_table _ _ _ _ _)) in E. rewrite E1 in E.
  assert (Hw1 : t_v (at_slot i (set_vchan 0) (table_of s)) !! j = Some w) by (by rewrite lookup_at_slot, decide_False by done).
  destruct r as [pid|].
  - destruct E as [[_ Hno]|(k & x & Hx & Hxp & Hxz & -> & E)]; [by destruct (Hno j w)|].
    destruct (decide (k = i)) as [-> |Hki].
    + rewrite lookup_at_slot, decide_True in Hx by done. simpl in Hx. rewrite Hv in Hx. injection Hx as <-. simpl in *.
      exists i, v. do 4 (split; [done|]). exists (free_view (set_vchan 0 v)).
      change (views s') with (t_v (table_of s')). rewrite E, lookup_at_slot, decide_True by done.
      rewrite lookup_at_slot, decide_True by done. simpl. by rewrite Hv.
    + rewrite lookup_at_slot, decide_False in Hx by done. exists k, x. do 4 (split; [done|]).
      exists (free_view x). change (views s') with (t_v (table_of s')). rewrite E, lookup_at_slot, decide_True by done.
      by rewrite lookup_at_slot, decide_False, Hx by done.
  - destruct E as [_ Hno]. by destruct (Hno j w).
Qed.

(** C17. Under every interleaving of the operations on the process table, from the
    table that [userinit] leaves: two processes never share a pid; every process
    but the first has a parent that is alive, so no exited child is ever orphaned;
    a process in [wait] with an exited child is not asleep, and when it runs again
    [wait] returns the pid of an exited child and frees its slot; and a runnable
    process stays runnable until the scheduler picks it.  Fewer than [2 ^ 31 - 1] pids
    have been given. *)
Theorem processes_are_never_lost (s : pst F) g :
  booted s → rtc pstep (Cfg s (λ _, Idle)) g →
  let t := views (g_st g) in
  (∀ i j v w, t !! i = Some v → t !! j = Some w → v_state v ≠ UNUSED → v_pid v = v_pid w → i = j) ∧
  (∀ i v, t !! i = Some v → alive v ∨ v_state v = ZOMBIE → s_initproc (g_st g) ≠ Some i →
     ∃ q w, v_parent v = Some q ∧ t !! q = Some w ∧ alive w) ∧
  (∀ i v j w, t !! i = Some v → g_ph g i = InWait → t !! j = Some w → v_parent w = Some i → v_state w = ZOMBIE →
     v_state v ≠ SLEEPING ∧
     ∀ c r s', wait_resume kend ptable c i (g_st g) = Ok (r, s') →
       ∃ k x, t !! k = Some x ∧ v_parent x = Some i ∧ v_state x = ZOMBIE ∧ r = Some (v_pid x) ∧
         ∃ x', views s' !! k = Some x' ∧ v_state x' = UNUSED) ∧
  (∀ g' j v, pstep g g' → t !! j = Some v → v_state v = RUNNABLE → ready j (views (g_st g'))).
Proof.
  intros Hb Hr t. pose proof (booted_reach s g Hb Hr) as Hc. destruct (Hc) as (i0 & Hi0 & Hi). fold t in Hi. split_and!.
  - intros i j v w Hv Hw Hs Hp. apply (pi_uniq _ _ _ _ _ Hi i j v w Hv Hw Hp). by apply (pi_pid _ _ _ _ _ Hi i v Hv).
  - intros i v Hv Ha Hne. pose proof (pi_kin _ _ _ _ _ Hi i v Hv Ha ltac:(congruence)) as Hk.
    destruct (v_parent v) as [q|] eqn:Eq; [|done]. destruct (pi_parent _ _ _ _ _ Hi i v q Hv Eq) as [_ (w & Hw & Haw)].
    by exists q, w.
  - intros i v j w Hv Hph Hw Hp Hz. split.
    + intros Hs. by apply (pi_awake _ _ _ _ _ Hi i v j w Hv Hs Hph Hw Hp).
    + intros c r s' E. destruct (pi_parent _ _ _ _ _ Hi j w i Hw Hp) as [Hne _].
      apply (resume_collects (g_st g) s' c i j v w); try done. rewrite <- (pi_len _ _ _ _ _ Hi). by eapply lookup_lt_Some.
  - intros g' j v Hs Hv Hrn. by eapply runnable_stays.
Qed.
End life.

(** ** [fork] *)

Section forking.
Context {F : Type} `{!FileOps F} `{!FileSpec F}.
Context (kend kdata ptable trapret forkret_addr : Z) (Hkend : KERNBASE < kend).
Context (Hdata : KERNLINK < kdata < KERNBASE + PHYSTOP) (Halign : kdata mod PGSIZE = 0).
Context (Hfr : 0 ≤ forkret_addr < 2 ^ 32).

(** C18. [fork] returns.  Either the table is full or memory is short, and then every
    slot keeps its state and every page it took is free again; or it returns the
    next pid, and the child in a slot that was unused is runnable, has the caller as
    parent, its size, name, open files and directory, a page table of its own with
    the flags and the bytes of every page of the caller in pages that were free, the
    caller's trap frame with [%eax] cleared, and starts in [forkret]; nothing else in
    memory changed. *)
Theorem fork_copies_the_caller c b cur x l Tp (s : pst F) :
  fork_pre kend ptable c b cur x l Tp s →
  runs (fork kend kdata ptable trapret forkret_addr c cur) (λ pid s',
    pid = -1 ∧ fork_failed kend x l s s' ∨
    pid = s_nextpid s ∧ ∃ np y l' T', fork_child kend forkret_addr cur x l Tp s s' np y l' T') s.
Proof using All.
  intros Hpre. eapply (fork_runs kend kdata ptable trapret forkret_addr Hkend Hdata Halign Hfr); [done| |].
  - intros s' Hf. by left.
  - intros s' np y l' T' Hc. right. split; [done|]. by exists np, y, l', T'.
Qed.
End forking.

(** ** The scheduler *)

Section sched.
Context {F : Type} `{!FileOps F}.
Context (kend kdata ptable trapret forkret_addr : Z) (c : nat) (run : nat → K (pst F) unit).

Notation pstep := (pstep kend kdata ptable trapret forkret_addr).

(** A process that runs, or may run, has a stack and a page table. *)
Definition can_run (y : proc) : Prop :=
  p_state y = RUNNABLE ∨ p_state y = RUNNING → p_kstack y ≠ 0 ∧ p_pgdir y ≠ 0.

(** Between two processes: the table lock is held by this processor and every
    process can be switched to. *)
Definition sched_ok (s : pst F) : Prop :=
  (∃ b, holds c ptable b (s_lk s)) ∧ length (s_proc s) = NPROC ∧
  ∀ j y, s_proc s !! j = Some y → can_run y.

(** A step of the operations on the process table in which no scheduler picks a
    process. *)
Definition own_step (g g' : cfg (F := F)) : Prop :=
  pstep g g' ∧ ∀ j v v', views (g_st g) !! j = Some v → v_state v = RUNNABLE →
    views (g_st g') !! j = Some v' → v_state v' ≠ RUNNING.

(** What a process may do while it runs: any operations of [pstep] but the
    scheduler's, and it comes back with the lock, where every process that is runnable
    has a stack and a page table. *)
Definition fair_run : Prop := ∀ i s ph, running s i → sched_ok s → cfg_inv ptable (Cfg s ph) →
  runs (run i) (λ _ s', sched_ok s' ∧ ∃ ph', rtc own_step (Cfg s ph) (Cfg s' ph')) s.

Lemma own_steps g g' : rtc own_step g g' → cfg_inv ptable g →
  cfg_inv ptable g' ∧
  ∀ j v, views (g_st g) !! j = Some v → v_state v = RUNNABLE → ∃ v', views (g_st g') !! j = Some v' ∧ v_state v' = RUNNABLE.
Proof.
  induction 1 as [g|g g1 g' [Hs Hno] _ IH]; intros Hc; [split; [done|eauto]|].
  destruct (IH (cfg_step _ _ _ _ _ _ _ Hc Hs)) as [Hc' Hall]. split; [done|]. intros j v Hv Hr.
  destruct (runnable_stays _ _ _ _ _ j g g1 v Hc Hs Hv Hr) as (v1 & Hv1 & [Hr1|Hr1]); [by eapply Hall|].
  by destruct (Hno j v v1).
Qed.

Lemma view_lookup (s : pst F) j y : s_proc s !! j = Some y → views s !! j = Some (view_of y).
Proof. intros Hy. unfold views. by rewrite list_lookup_fmap, Hy. Qed.

Lemma pick_runs s i y (Q : unit → pst F → Prop) : s_proc s !! i = Some y → p_kstack y ≠ 0 → p_pgdir y ≠ 0 →
  Q tt (set_table (alter (set_pstate RUNNING) i) s) → runs (scheduler_pick i) Q s.
Proof.
  intros Hy Hk Hp HQ. unfold scheduler_pick, switchuvm, getp, upd. do 3 kstep.
  rewrite (list_lookup_total_correct _ _ _ Hy).
  kstep. kstep; [by apply negb_true_iff, Z.eqb_neq|]. kstep; [by apply negb_true_iff, Z.eqb_neq|]. by kstep.
Qed.

Lemma scan_runs (Hrun : fair_run) k : ∀ i s ph (Q : list nat → pst F → Prop), (i + k = NPROC)%nat → sched_ok s →
  cfg_inv ptable (Cfg s ph) →
  (∀ l s', sched_ok s' → (∀ j y, (i ≤ j)%nat → s_proc s !! j = Some y → p_state y = RUNNABLE → j ∈ l) → Q l s') →
  runs (scheduler_scan run i k) Q s.
Proof using All.
  induction k as [|k IH]; intros i s ph Q Hik Hs Hcf HQ; cbn [scheduler_scan].
  - kstep. apply HQ; [done|]. intros j y Hj Hy. apply lookup_lt_Some in Hy. destruct Hs as (_ & Hl & _). lia.
  - destruct Hs as (Hh & Hl & Hc). assert (is_Some (s_proc s !! i)) as [y Hy] by (apply lookup_lt_is_Some; lia).
    unfold getp at 1. kstep. kstep. rewrite (list_lookup_total_correct _ _ _ Hy). case_bool_decide as Hr; cbn [negb].
    + destruct (Hc i y Hy) as [Hk0 Hp0]; [by left|]. set (s1 := set_table (alter (set_pstate RUNNING) i) s).
      destruct (pick_runs s i y (λ _ s', s' = s1) Hy Hk0 Hp0 eq_refl) as ([] & ? & Ep & ->).
      kstep. eapply runs_of_eq; [exact Ep|]. kstep.
      assert (Hy1 : ∀ j z, j ≠ i → s_proc s1 !! j = Some z ↔ s_proc s !! j = Some z).
      { intros j z Hj. unfold s1. simpl. by rewrite list_lookup_alter_ne. }
      assert (Hcf1 : cfg_inv ptable (Cfg s1 ph)).
      { eapply (cfg_step kend kdata ptable trapret forkret_addr); [exact Hcf|]. apply (ps_pick _ _ _ _ _ i); [|lia|done].
        by rewrite (list_lookup_total_correct _ _ _ Hy). }
      eapply runs_mono; [apply (Hrun i s1 ph)|].
      * exists (set_pstate RUNNING y). unfold s1. simpl. by rewrite list_lookup_alter_eq, Hy.
      * split; [done|]. split; [unfold s1; simpl; by rewrite length_alter|]. intros j z Hz.
        destruct (decide (j = i)) as [-> |Hj]; [|by eapply (Hc j); apply Hy1].
        unfold s1 in Hz. simpl in Hz. rewrite list_lookup_alter_eq, Hy in Hz. by injection Hz as <-.
      * done.
      * intros [] s2 [Hs2 (ph' & Hst)]. destruct (own_steps _ _ Hst Hcf1) as [Hcf2 Hk2]. simpl in Hk2.
        kstep. eapply (IH (S i) s2 ph'); [lia|done|done|]. intros l s' Hs' Hall. kstep. apply HQ; [done|].
        intros j z Hj Hz Hzr. destruct (decide (j = i)) as [-> |Hji]; [set_solver|]. apply elem_of_cons. right.
        destruct (Hk2 j (view_of z)) as (v' & Hv' & Hr'); [by apply view_lookup, Hy1|done|].
        unfold views in Hv'. rewrite list_lookup_fmap in Hv'. destruct (s_proc s2 !! j) as [z'|] eqn:Hz'; [|done].
        injection Hv' as <-. eapply (Hall j z'); [lia|done|done].
    + eapply (IH (S i) s ph); [lia|done|done|]. intros l s' Hs' Hall. apply HQ; [done|]. intros j z Hj Hz Hzr.
      destruct (decide (j = i)) as [-> |Hji]; [congruence|]. eapply (Hall j z); [lia|done|done].
Qed.

(** C19. Liveness of the scheduler, on one processor: from a state of the process table
    that keeps its invariant, with a stack and a page table in every runnable process,
    a round of the scheduler returns and every process that was runnable when it began
    has run.  The processes may do, while they run, any sequence of the operations on
    the table; what is assumed of them is that each comes back to the scheduler with
    the table lock, that no other scheduler picks a process meanwhile, and that the
    processes they leave runnable have a stack and a page table. *)
Theorem scheduler_round_runs_everyone b (s : pst F) ph :
  fair_run → quiet c ptable b (s_lk s) → length (s_proc s) = NPROC →
  (∀ j y, s_proc s !! j = Some y → can_run y) → cfg_inv ptable (Cfg s ph) →
  runs (scheduler_round ptable run c) (λ l _,
    ∀ j y, s_proc s !! j = Some y → p_state y = RUNNABLE → j ∈ l) s.
Proof using All.
  intros Hrun [Hq Hfree] Hl Hc Hcf. destruct s as [t i n fi lk k f]. unfold scheduler_round, acquire_ptable, release_ptable, sti.
  kstep. apply runs_lk. kstep. kstep. apply runs_lk. set (lk1 := set_cpu c _ lk).
  assert (Hq1 : quiet c ptable true lk1).
  { split; [|done]. destruct Hq as [Hn Hi He Hs]. simpl in *. unfold lk1.
    split; unfold depth in *; simpl; rewrite ?fupd_eq; simpl; try done. }
  eapply acquire_ok; [done|]. intros lk2 H2. kstep. eapply scan_runs; [done|done| | |].
  - split; [by exists true|done].
  - exact Hcf.
  - intros l s' [[b' Hb'] _] Hall. kstep. destruct s'. apply runs_lk. eapply release_runs; [done|].
    intros lk3 _. kstep. intros j y Hy Hr. eapply (Hall j y); [lia|done|done].
Qed.
End sched.

(** ** A machine with one process

    No files: the references are just numbers. *)
#[local] Instance no_files : FileOps unit := {
  op_filedup f := mret f; op_fileclose _ := mret tt; op_idup w := mret w; op_iput _ := mret tt;
  op_begin_op := mret tt; op_end_op := mret tt; op_namei _ := mret 9; op_iinit _ := mret tt; op_initlog _ := mret tt
}.

#[local] Program Instance no_files_spec : FileSpec unit := {
  f_file _ _ := True; f_inode _ _ := True
}.
Next Obligation. intros. by apply runs_ret. Qed.
Next Obligation. intros. by apply runs_ret. Qed.

Definition one_stack : Z := 0x80403000.

Definition one_proc (st : procstate) : proc :=
  Proc 4096 m_dir one_stack st 1 None (one_stack + KSTACKSIZE - SIZEOF_TRAPFRAME) 0 0 false (replicate NOFILE 0) 9 [].

Definition one_state (st : procstate) (k : kst) : pst unit :=
  Pst (<[0%nat := one_proc st]> (replicate NPROC proc0)) (Some 0%nat) 2 true (Lkst (λ _, Cpu true 0 false) ∅) k tt.

Lemma one_slot st k i y : s_proc (one_state st k) !! i = Some y → (i = 0%nat ∧ y = one_proc st) ∨ (i ≠ 0%nat ∧ y = proc0).
Proof.
  intros Hy. destruct (decide (i = 0%nat)) as [-> |].
  - left. simpl in Hy. by injection Hy as <-.
  - right. unfold one_state in Hy. cbn [s_proc] in Hy. rewrite list_lookup_insert_ne in Hy by done.
    by apply lookup_replicate in Hy as [-> _].
Qed.

Lemma one_booted k : booted (one_state RUNNABLE k).
Proof. exists 0%nat. split; [reflexivity|]. split; [unfold NPROC; lia|done]. Qed.

Lemma processes_are_never_lost_witness : ∃ g : cfg,
  rtc (pstep m_kend m_kdata 7 0 0) (Cfg (one_state RUNNABLE m_start) (λ _, Idle)) g ∧
  ∃ u v, views (g_st g) !! 0%nat = Some u ∧ views (g_st g) !! 1%nat = Some v ∧
    v_state v = EMBRYO ∧ v_pid u ≠ v_pid v.
Proof.
  set (s1 := one_state RUNNING m_start).
  assert (E2 : ∃ s2, allocproc_take 7 0 s1 = Ok (Some 1%nat, s2) ∧
    views s2 !! 0%nat = Some (View RUNNING 1 None 0) ∧ views s2 !! 1%nat = Some (View EMBRYO 2 None 0)).
  { eexists. split; [vm_compute; reflexivity|]. by split. }
  destruct E2 as (s2 & E2 & H0 & H1).
  assert (Hr : rtc (pstep m_kend m_kdata 7 0 0) (Cfg (one_state RUNNABLE m_start) (λ _, Idle))
    (Cfg s2 (fupd (λ _, Idle) 0%nat (Forking 1 false)))).
  { eapply rtc_l; [apply (ps_pick _ _ _ _ _ 0%nat _ s1); [done|by vm_compute; lia|done]|].
    apply rtc_once. eapply (ps_take _ _ _ _ _ 0%nat 0%nat); [by eexists|done|done|exact E2]. }
  eexists. split; [exact Hr|].
  destruct (processes_are_never_lost m_kend m_kdata 7 0 0 _ _ (one_booted m_start) Hr) as [Hpid _].
  eexists _, _. split; [exact H0|]. split; [exact H1|]. split; [done|]. simpl. intros E.
  by specialize (Hpid 0%nat 1%nat _ _ H0 H1 ltac:(done) E).
Defined.

Lemma one_fork_pre k l : kinv m_kend k l → m_same (k_mem k) → (∀ v, v ∈ l → m_free ≤ v) →
  fork_pre m_kend 7 0 true 0 (one_proc RUNNING) l m_T (one_state RUNNING k).
Proof.
  intros Hk Hm Hv. assert (Hpg : page_ok m_kend m_page) by (by apply m_page_ok).
  destruct (page_entry m_kend m_page 7 Hpg ltac:(done)) as (_ & _ & _ & Hfr & _). cbv zeta in Hfr.
  split; try done.
  - by apply m_pt.
  - intros v Hin. apply m_dis, Hv, Hin.
  - change (npg (p_sz (one_proc RUNNING))) with 1. intros q Hq. replace q with 0 by lia. cbn [s_k one_state].
    rewrite (m_entry _ Hm), Hfr. split; [by vm_compute|]. split; [done|]. intros Hin%Hv. unfold m_free, m_page in *. lia.
  - cbn [p_kstack one_proc]. split; [by apply m_page_ok|]. split; [|done].
    intros Hin%Hv. unfold m_free, one_stack in *. lia.
  - simpl. lia.
  - intros i y [[-> ->]|[_ ->]]%one_slot; done.
Qed.

Lemma fork_copies_the_caller_witness : ∃ s : pst unit,
  runs (fork m_kend m_kdata 7 0x80100000 0x80100010 0 0) (λ pid s', pid = 2 ∧ ∃ np y, s_proc s' !! np = Some y ∧
    p_state y = RUNNABLE ∧ p_parent y = Some 0%nat) s.
Proof.
  destruct m_machine as (k & l & Hk & Hm & Hl & Hv). exists (one_state RUNNING k). eapply runs_mono.
  { apply (fork_copies_the_caller m_kend m_kdata 7 0x80100000 0x80100010 ltac:(done) ltac:(done) ltac:(done) ltac:(done)
      0 true 0 (one_proc RUNNING) l m_T). by apply one_fork_pre. }
  intros pid s' [(_ & [Hfull|Hshort] & _)|(-> & np & y & l' & T' & Hc)].
  - by destruct (Hfull 1%nat proc0).
  - change (npg (p_sz (one_proc RUNNING))) with 1 in Hshort. lia.
  - split; [done|]. exists np, y. rewrite (fc_table _ _ _ _ _ _ _ _ _ _ _ _ Hc).
    destruct (fc_slot _ _ _ _ _ _ _ _ _ _ _ _ Hc) as (z & Hz & _).
    split; [by apply list_lookup_insert_eq, lookup_lt_is_Some; eexists|].
    split; [apply (fc_state _ _ _ _ _ _ _ _ _ _ _ _ Hc)|apply (fc_parent _ _ _ _ _ _ _ _ _ _ _ _ Hc)].
Defined.

(** A process that only yields. *)
Definition yielding (ptable : Z) (c i : nat) : K (pst unit) unit :=
  yield_end ptable c;;
  yield_begin ptable c i.

Lemma sched_runs {F} ptable c b p y t i n fi lk k (f : F) (Q : unit → pst F → Prop) :
  holds c ptable b lk → t !! p = Some y → p_state y ≠ RUNNING →
  (∀ lk', holds c ptable b lk' → Q tt (Pst t i n fi lk' k f)) → runs (sched ptable c p) Q (Pst t i n fi lk k f).
Proof.
  intros Hh Hy Hs HQ. unfold sched. kstep. apply runs_lk. eapply holding_runs; [done|]. intros lk1 H1.
  destruct (holds_cpu _ _ _ _ H1) as (Hn & Hi & _). kstep. kstep; [done|]. kstep. apply runs_lk, mycpu_ok; [done|].
  rewrite Hn. kstep. kstep; [done|]. unfold getp. kstep. kstep. cbn [s_proc].
  rewrite (list_lookup_total_correct _ _ _ Hy), bool_decide_eq_false_2 by done. kstep. kstep; [done|].
  kstep. apply runs_lk. kstep. kstep; [by rewrite Hi|]. by apply HQ.
Qed.

Lemma yielding_fair ptable c : fair_run m_kend m_kdata ptable 0 0 c (yielding ptable c).
Proof.
  intros i [t ip n fi lk k []] ph (y & Hy & Hr) ([b Hh] & Hl & Hc) _. cbn [s_proc s_lk] in *. unfold yielding, yield_end, release_ptable.
  kstep. apply runs_lk. eapply release_runs; [done|]. intros lk1 H1.
  set (s1 := Pst t ip n fi lk1 k tt).
  assert (Hy1 : alter (set_pstate RUNNABLE) i t !! i = Some (set_pstate RUNNABLE y)) by (by rewrite list_lookup_alter_eq, Hy).
  assert (Hrun : runs (yield_begin ptable c i) (λ _ s', ∃ lk', holds c ptable b lk' ∧
    s' = Pst (alter (set_pstate RUNNABLE) i t) ip n fi lk' k tt) s1).
  { unfold s1, yield_begin, acquire_ptable, upd. kstep. apply runs_lk. eapply acquire_ok; [done|].
    intros lk2 H2. kstep. kstep. unfold set_table. cbn [s_proc s_initproc s_nextpid s_first s_lk s_k s_f].
    eapply sched_runs; [done|done|done|]. intros lk3 H3. by exists lk3. }
  destruct Hrun as ([] & s' & E & lk' & Hh' & ->). eapply runs_of_eq; [exact E|].
  split; [split; [by exists b|split]|exists ph; eapply rtc_l; [|apply rtc_once]].
  - cbn [s_proc]. by rewrite length_alter.
  - cbn [s_proc]. intros j z Hz. destruct (decide (j = i)) as [-> |Hj].
    + rewrite Hy1 in Hz. injection Hz as <-. intros _. apply (Hc i y Hy). by right.
    + rewrite list_lookup_alter_ne in Hz by done. by apply (Hc j).
  - split; [by apply (ps_other _ _ _ _ _ _ s1)|]. simpl. intros j v v' Hv Hvr Hv'. unfold views in *. simpl in *. congruence.
  - split; [eapply ps_yield; [by exists y|exact E]|]. simpl. unfold views. simpl. intros j v v'.
    rewrite !list_lookup_fmap. destruct (decide (j = i)) as [-> |Hj].
    + rewrite Hy1. simpl. by intros _ _ [= <-].
    + rewrite list_lookup_alter_ne by done. intros -> Hvr [= <-]. congruence.
Qed.

Lemma scheduler_round_runs_everyone_witness :
  runs (scheduler_round 7 (yielding 7 0) 0) (λ l _, 0%nat ∈ l) (one_state RUNNABLE m_start).
Proof.
  eapply runs_mono.
  { apply (scheduler_round_runs_everyone m_kend m_kdata 7 0 0 0 (yielding 7 0) true _ (λ _, Idle)); [apply yielding_fair|apply quiet_init|done| |].
    - intros j y [[-> ->]|[_ ->]]%one_slot; [done|]. intros [|]; done.
    - apply booted_inv, one_booted. }
  intros l s' Hl. by apply (Hl 0%nat (one_proc RUNNABLE)).
Defined.

(** A failed [fork] leaves its pid in the free slot: [kill] of that pid succeeds and
    marks the slot, and the next process made in it is born killed. *)
Theorem failed_fork_leaves_a_pid_behind : ∃ s1 s2 s3 : pst unit,
  fork m_kend m_kdata 7 0 0 0 0 (one_state RUNNING m_start) = Ok (-1, s1) ∧
  kill 7 0 2 s1 = Ok (0, s2) ∧
  allocproc_take 7 0 s2 = Ok (Some 1%nat, s3) ∧ p_pid (s_proc s3 !!! 1%nat) = 3 ∧ p_killed (s_proc s3 !!! 1%nat) = true.
Proof.
  eexists _, _, _. split; [vm_compute; reflexivity|]. split; [vm_compute; reflexivity|].
  split; [vm_compute; reflexivity|]. by split.
Qed.
