(* ===== verification/Ring.v ===== *)
(** * Rings: arrays used as queues, indexed modulo their size

    Shared by the pipe ([xv6/pipe.c]), the input line of the console
    ([xv6/console.c]) and the bounded buffers of the semaphore programs.  A queue
    starts at a position that only grows; the machine keeps it modulo [2 ^ 32], which
    is harmless when the size of the array divides [2 ^ 32]. *)

From Stdlib Require Znumtheory.
From S2P Require Import Prelude.

(** [data] has [size] places and holds [q] from position [t] on. *)
Definition ring_holds {A} (size : Z) (data : list A) (t : Z) (q : list A) : Prop :=
  length data = Z.to_nat size ∧ Z.of_nat (length q) ≤ size ∧
  ∀ k c, q !! k = Some c → data !! Z.to_nat ((t + Z.of_nat k) mod size) = Some c.

(** ** Positions on 32 bits *)

Lemma u32_step x d : u32 (u32 x + d) = u32 (x + d).
Proof. unfold u32. by rewrite Z.add_mod_idemp_l. Qed.

Lemma u32_sub_step x y : u32 (u32 x - u32 y) = u32 (x - y).
Proof. unfold u32. by rewrite <- Zminus_mod. Qed.

Lemma u32_eq_near x d : 0 ≤ d < 2 ^ 32 → u32 (x + d) = u32 x → d = 0.
Proof.
  intros Hd. unfold u32. intros E. pose proof (Z.div_mod x (2 ^ 32)). pose proof (Z.div_mod (x + d) (2 ^ 32)).
  pose proof (Z.mod_pos_bound x (2 ^ 32)). nia.
Qed.

Lemma u32_mod_pow n x : 0 ≤ n ≤ 32 → u32 x mod 2 ^ n = x mod 2 ^ n.
Proof.
  intros Hn. unfold u32. symmetry. apply Znumtheory.Zmod_div_mod; [by apply Z.pow_pos_nonneg; lia|lia|].
  exists (2 ^ (32 - n)). rewrite <- Z.pow_add_r by lia. f_equal. lia.
Qed.

(** ** Queues in a ring *)

Section ring.
Context {A : Type} (size : Z) (Hsize : 0 < size).
Implicit Types (data q : list A) (c : A).

(** Two positions less than [size] apart are two places. *)
Lemma mod_shift_inj t a b : 0 ≤ a < size → 0 ≤ b < size → (t + a) mod size = (t + b) mod size → a = b.
Proof.
  intros Ha Hb E. pose proof (Z.div_mod (t + a) size ltac:(lia)). pose proof (Z.div_mod (t + b) size ltac:(lia)).
  assert (Ed : a - b = size * ((t + a) / size - (t + b) / size)) by lia.
  set (d := (t + a) / size - (t + b) / size) in Ed. destruct (Z.lt_trichotomy d 0) as [Hd|[Hd|Hd]]; nia.
Qed.

Lemma ring_nil data t : length data = Z.to_nat size → ring_holds size data t [].
Proof. intros Hl. split_and!; [done|simpl; lia|]. intros k c E. by rewrite lookup_nil in E. Qed.

Lemma ring_put data t q c : ring_holds size data t q → Z.of_nat (length q) < size →
  ring_holds size (<[Z.to_nat ((t + Z.of_nat (length q)) mod size) := c]> data) t (q ++ [c]).
Proof.
  intros (Hl & Hf & Hd) Hroom. pose proof (Z.mod_pos_bound (t + Z.of_nat (length q)) size Hsize) as Hb.
  split_and!; [by rewrite length_insert|rewrite length_app; simpl; lia|]. intros k x Hk.
  destruct (decide (k = length q)) as [-> |Hne].
  - rewrite lookup_app_r, Nat.sub_diag in Hk by lia. injection Hk as ->. apply list_lookup_insert_eq. lia.
  - pose proof (lookup_lt_Some _ _ _ Hk) as Hlt. rewrite length_app in Hlt. simpl in Hlt.
    rewrite lookup_app_l in Hk by lia. rewrite list_lookup_insert_ne; [by apply Hd|].
    intros E. apply Z2Nat.inj in E; [|lia|by apply Z.mod_pos_bound]. apply mod_shift_inj in E; lia.
Qed.

Lemma ring_first data t c q : ring_holds size data t (c :: q) → data !! Z.to_nat (t mod size) = Some c.
Proof. intros (Hl & Hf & Hd). pose proof (Hd 0%nat c eq_refl) as H0. by rewrite Z.add_0_r in H0. Qed.

Lemma ring_at data t q k c : ring_holds size data t q → q !! k = Some c →
  data !! Z.to_nat ((t + Z.of_nat k) mod size) = Some c.
Proof. intros (Hl & Hf & Hd). apply Hd. Qed.

Lemma ring_drop data t c q : ring_holds size data t (c :: q) → ring_holds size data (t + 1) q.
Proof.
  intros (Hl & Hf & Hd). simpl in Hf. split_and!; [done|lia|]. intros k x Hk.
  replace (t + 1 + Z.of_nat k) with (t + Z.of_nat (S k)) by lia. by apply Hd.
Qed.

Lemma ring_prefix data t q q' : ring_holds size data t (q ++ q') → ring_holds size data t q.
Proof.
  intros (Hl & Hf & Hd). rewrite length_app in Hf. split_and!; [done|lia|]. intros k x Hk.
  apply Hd. by apply lookup_app_l_Some.
Qed.
End ring.
