(* ===== verification/Pipe.v ===== *)
(** * Pipes: [xv6/pipe.c]

    A pipe is a ring buffer shared by readers and writers.  What a process does
    between [acquire(&p->lock)] and the next [release] or [sleep] is one step; a
    process that sleeps comes back to the test it slept at.  [psys] is the pipe with
    what each process is doing to it. *)

From S2P Require Import Prelude Ring.

Definition PIPESIZE : Z := 512.

(** [struct pipe] without its lock. *)
Record pipe := Pipe {
  p_data : list Z;
  p_nread : Z;
  p_nwrite : Z;
  p_readopen : bool;
  p_writeopen : bool
}.

(** A process that sleeps in [pipewrite] with [i] of the bytes [buf] written, or in
    [piperead] of [n] bytes; [awake] when it was woken and has not run yet. *)
Inductive activity :=
| Elsewhere
| Writing (awake : bool) (buf : list Z) (i : Z)
| Reading (awake : bool) (n : Z).

Record psys := Psys { y_pipe : pipe; y_act : nat → activity }.

Definition set_pipe (f : pipe → pipe) (s : psys) : psys := Psys (f (y_pipe s)) (y_act s).
Definition set_act (f : (nat → activity) → nat → activity) (s : psys) : psys := Psys (y_pipe s) (f (y_act s)).

(** [wakeup(&p->nread)] and [wakeup(&p->nwrite)]. *)
Definition wake_reader (a : activity) : activity :=
  match a with Reading _ n => Reading true n | _ => a end.
Definition wake_writer (a : activity) : activity :=
  match a with Writing _ buf i => Writing true buf i | _ => a end.

Definition wakeup_nread : K psys unit := kmod (set_act (λ ph q, wake_reader (ph q))).
Definition wakeup_nwrite : K psys unit := kmod (set_act (λ ph q, wake_writer (ph q))).

(** ** Operations *)

(** The pipe that [pipealloc] makes in a page with [data] in the buffer's place. *)
Definition pipe_init (data : list Z) : pipe := Pipe data 0 0 true true.

(** [p->data[p->nwrite++ % PIPESIZE] = c] and [p->data[p->nread++ % PIPESIZE]]. *)
Definition put_byte (c : Z) (p : pipe) : pipe :=
  Pipe (<[Z.to_nat (p_nwrite p mod PIPESIZE) := c]> (p_data p)) (p_nread p) (u32 (p_nwrite p + 1))
    (p_readopen p) (p_writeopen p).
Definition get_byte (p : pipe) : Z := p_data p !!! Z.to_nat (p_nread p mod PIPESIZE).
Definition drop_byte (p : pipe) : pipe :=
  Pipe (p_data p) (u32 (p_nread p + 1)) (p_nwrite p) (p_readopen p) (p_writeopen p).

(** How [pipewrite] ends: it returns [r], or sleeps; [i] bytes are written. *)
Inductive wres := WRet (r i : Z) | WSleep (i : Z).

(** [pipewrite] with the lock held, from its test at byte [i], with [k] bytes to
    go. *)
Fixpoint pipewrite_loop (killed : bool) (buf : list Z) (n i : Z) (k : nat) : K psys wres :=
  match k with
  | O => wakeup_nread;; mret (WRet n i)
  | S k' =>
      s ← kget;
      let p := y_pipe s in
      if p_nwrite p =? u32 (p_nread p + PIPESIZE) then
        if negb (p_readopen p) || killed then mret (WRet (-1) i)
        else wakeup_nread;; mret (WSleep i)
      else
        kmod (set_pipe (put_byte (buf !!! Z.to_nat i)));;
        pipewrite_loop killed buf n (i + 1) k'
  end.

Definition pipewrite (killed : bool) (buf : list Z) (i : Z) : K psys wres :=
  let n := Z.of_nat (length buf) in
  pipewrite_loop killed buf n i (Z.to_nat (n - i)).

(** How [piperead] ends: it returns -1 or the bytes, or sleeps. *)
Inductive rres := RFail | RRet (bytes : list Z) | RSleep.

(** Its copying loop, with [k] bytes to go. *)
Fixpoint piperead_copy (k : nat) : K psys (list Z) :=
  match k with
  | O => mret []
  | S k' =>
      s ← kget;
      let p := y_pipe s in
      if p_nread p =? p_nwrite p then mret []
      else
        kmod (set_pipe drop_byte);;
        l ← piperead_copy k';
        mret (get_byte p :: l)
  end.

Definition piperead (killed : bool) (n : Z) : K psys rres :=
  s ← kget;
  let p := y_pipe s in
  if (p_nread p =? p_nwrite p) && p_writeopen p then
    if killed then mret RFail else mret RSleep
  else
    l ← piperead_copy (Z.to_nat n);
    wakeup_nwrite;;
    mret (RRet l).

(** The result says whether the pipe's page is to be freed. *)
Definition pipeclose (writable : bool) : K psys bool :=
  (if writable then
     kmod (set_pipe (λ p, Pipe (p_data p) (p_nread p) (p_nwrite p) (p_readopen p) false));;
     wakeup_nread
   else
     kmod (set_pipe (λ p, Pipe (p_data p) (p_nread p) (p_nwrite p) false (p_writeopen p)));;
     wakeup_nwrite);;
  s ← kget;
  mret (negb (p_readopen (y_pipe s)) && negb (p_writeopen (y_pipe s))).

(** ** Readers and writers together

    [h_in] and [h_out] record the bytes accepted from writers and given to
    readers, in order.  A process uses an end that is open, and an end is closed
    when no process is using it (a process in [fileread] or [filewrite] has the file
    open).  [hstep false] leaves out the writers that were killed. *)
Record history := History { h_sys : psys; h_in : list Z; h_out : list Z }.

(** The bytes [i..j) of [buf]. *)
Definition bytes (buf : list Z) (i j : Z) : list Z := take (Z.to_nat (j - i)) (drop (Z.to_nat i) buf).

Definition after_write (q : nat) (buf : list Z) (r : wres) (ph : nat → activity) : nat → activity :=
  match r with
  | WRet _ _ => fupd ph q Elsewhere
  | WSleep i => fupd ph q (Writing false buf i)
  end.
Definition written (r : wres) : Z := match r with WRet _ i => i | WSleep i => i end.

Definition after_read (q : nat) (n : Z) (r : rres) (ph : nat → activity) : nat → activity :=
  match r with
  | RSleep => fupd ph q (Reading false n)
  | _ => fupd ph q Elsewhere
  end.
Definition received (r : rres) : list Z := match r with RRet l => l | _ => [] end.

Inductive hstep (allow_killed : bool) : history → history → Prop :=
| h_write q killed buf i r s s' hi ho :
    (y_act s q = Elsewhere ∧ i = 0) ∨ y_act s q = Writing true buf i → p_writeopen (y_pipe s) = true →
    (killed = true → allow_killed = true) →
    pipewrite killed buf i s = Ok (r, s') →
    hstep allow_killed (History s hi ho) (History (set_act (after_write q buf r) s') (hi ++ bytes buf i (written r)) ho)
| h_read q killed n r s s' hi ho :
    y_act s q = Elsewhere ∨ y_act s q = Reading true n → p_readopen (y_pipe s) = true →
    piperead killed n s = Ok (r, s') →
    hstep allow_killed (History s hi ho) (History (set_act (after_read q n r) s') hi (ho ++ received r))
| h_close (writable : bool) b s s' hi ho :
    (∀ x, if writable then ∀ a buf i, y_act s x ≠ Writing a buf i else ∀ a n, y_act s x ≠ Reading a n) →
    pipeclose writable s = Ok (b, s') → b = false →
    hstep allow_killed (History s hi ho) (History s' hi ho)
| h_kill q s hi ho :
    hstep allow_killed (History s hi ho) (History (set_act (λ ph, fupd ph q (wake_reader (wake_writer (ph q)))) s) hi ho).

(** ** The queue in the ring buffer

    [q] is what was written and not yet read, [tr] the number of bytes read since
    the pipe was made. *)
Record holds_queue (p : pipe) (q : list Z) (tr : Z) : Prop := {
  hq_len : length (p_data p) = Z.to_nat PIPESIZE;
  hq_tr : 0 ≤ tr;
  hq_fits : Z.of_nat (length q) ≤ PIPESIZE;
  hq_nread : p_nread p = u32 tr;
  hq_nwrite : p_nwrite p = u32 (tr + Z.of_nat (length q));
  hq_data k c : q !! k = Some c → p_data p !! Z.to_nat ((tr + Z.of_nat k) mod PIPESIZE) = Some c
}.

Lemma u32_mod_pipe x : u32 x mod PIPESIZE = x mod PIPESIZE.
Proof. by apply (u32_mod_pow 9). Qed.

(** The ring of the pipe. *)
Lemma hq_ring p q tr : holds_queue p q tr → ring_holds PIPESIZE (p_data p) tr q.
Proof. by intros []. Qed.

Lemma pipe_empty p q tr : holds_queue p q tr → (p_nread p =? p_nwrite p) = bool_decide (q = []).
Proof.
  intros [Hl Ht Hf Hr Hw Hd]. rewrite Hr, Hw. unfold PIPESIZE in Hf. destruct (decide (q = [])) as [-> |Hq].
  - simpl. by rewrite Z.add_0_r, Z.eqb_refl.
  - rewrite bool_decide_eq_false_2 by done. apply Z.eqb_neq. intros E. symmetry in E. apply u32_eq_near in E; [|lia].
    by destruct q.
Qed.

Lemma pipe_full p q tr : holds_queue p q tr →
  (p_nwrite p =? u32 (p_nread p + PIPESIZE)) = (Z.of_nat (length q) =? PIPESIZE).
Proof.
  intros [Hl Ht Hf Hr Hw Hd]. rewrite Hr, Hw, u32_step. unfold PIPESIZE in *.
  destruct (Z.eqb_spec (Z.of_nat (length q)) 512) as [-> |Hn]; [apply Z.eqb_refl|]. apply Z.eqb_neq. intros E.
  replace (tr + 512) with (tr + Z.of_nat (length q) + (512 - Z.of_nat (length q))) in E by lia.
  symmetry in E. apply u32_eq_near in E; lia.
Qed.

Lemma put_queue p q tr c : holds_queue p q tr → Z.of_nat (length q) < PIPESIZE → holds_queue (put_byte c p) (q ++ [c]) tr.
Proof.
  intros Hq Hroom. pose proof (ring_put PIPESIZE eq_refl _ _ _ c (hq_ring _ _ _ Hq) Hroom) as (Rl & Rf & Rd).
  destruct Hq as [Hl Ht Hf Hr Hw Hd]. rewrite <- u32_mod_pipe, <- Hw in Rl, Rd.
  split; unfold put_byte; cbn [p_data p_nread p_nwrite]; try done.
  rewrite Hw, u32_step, length_app. f_equal. simpl. lia.
Qed.

Lemma drop_queue p c q tr : holds_queue p (c :: q) tr → get_byte p = c ∧ holds_queue (drop_byte p) q (tr + 1).
Proof.
  intros [Hl Ht Hf Hr Hw Hd]. split.
  - unfold get_byte. rewrite Hr, u32_mod_pipe. apply list_lookup_total_correct.
    pose proof (Hd 0%nat c eq_refl) as H0. by rewrite Z.add_0_r in H0.
  - split; unfold drop_byte; cbn [p_data p_nread p_nwrite]; [done|lia|simpl in Hf; lia| | |].
    + by rewrite Hr, u32_step.
    + rewrite Hw. f_equal. simpl. lia.
    + intros k x Hk. replace (tr + 1 + Z.of_nat k) with (tr + Z.of_nat (S k)) by lia. by apply Hd.
Qed.

Lemma init_queue data : length data = Z.to_nat PIPESIZE → holds_queue (pipe_init data) [] 0.
Proof. intros Hl. split; try done. Qed.

(** ** The operations on the queue *)

(** Bytes that fit. *)
Definition fitting (q buf : list Z) (i : Z) : Z :=
  Z.min (Z.of_nat (length buf) - i) (PIPESIZE - Z.of_nat (length q)).

Lemma bytes_nil buf i : bytes buf i i = [].
Proof. unfold bytes. by rewrite Z.sub_diag. Qed.

Lemma bytes_cons buf i j : 0 ≤ i → i < j → i < Z.of_nat (length buf) →
  bytes buf i j = buf !!! Z.to_nat i :: bytes buf (i + 1) j.
Proof.
  intros Hi Hj Hl. unfold bytes. assert (is_Some (buf !! Z.to_nat i)) as [c Hc] by (apply lookup_lt_is_Some; lia).
  rewrite (drop_S _ _ _ Hc), (list_lookup_total_correct _ _ _ Hc).
  replace (Z.to_nat (j - i)) with (S (Z.to_nat (j - (i + 1)))) by lia. simpl.
  by replace (S (Z.to_nat i)) with (Z.to_nat (i + 1)) by lia.
Qed.

(** What [pipewrite] does: it appends what fits and wakes the readers, and sleeps
    only when the buffer is full and somebody may read. *)
Definition write_post (killed : bool) (buf : list Z) (i : Z) (p : pipe) (ph : nat → activity) (q : list Z) (tr : Z)
    (Q : wres → psys → Prop) : Prop :=
  let j := i + fitting q buf i in
  let q' := q ++ bytes buf i j in
  let awake := λ x, wake_reader (ph x) in
  ∀ p', holds_queue p' q' tr → p_readopen p' = p_readopen p → p_writeopen p' = p_writeopen p →
    (j = Z.of_nat (length buf) → Q (WRet j j) (Psys p' awake)) ∧
    (j < Z.of_nat (length buf) → Z.of_nat (length q') = PIPESIZE →
       if negb (p_readopen p) || killed then Q (WRet (-1) j) (Psys p' ph) else Q (WSleep j) (Psys p' awake)).

Lemma write_post_step killed buf i p ph q tr Q : holds_queue p q tr → 0 ≤ i < Z.of_nat (length buf) →
  Z.of_nat (length q) < PIPESIZE → write_post killed buf i p ph q tr Q →
  write_post killed buf (i + 1) (put_byte (buf !!! Z.to_nat i) p) ph (q ++ [buf !!! Z.to_nat i]) tr Q.
Proof.
  intros Hq Hi Hroom HQ. unfold write_post. set (c := buf !!! Z.to_nat i).
  assert (Ej : i + 1 + fitting (q ++ [c]) buf (i + 1) = i + fitting q buf i).
  { unfold fitting. rewrite length_app. simpl. lia. }
  rewrite Ej. assert (Hj : i < i + fitting q buf i) by (unfold fitting; lia).
  rewrite <- app_assoc. change ([c] ++ bytes buf (i + 1) (i + fitting q buf i)) with (c :: bytes buf (i + 1) (i + fitting q buf i)).
  unfold c. rewrite <- bytes_cons by lia. apply HQ.
Qed.

Lemma pipewrite_loop_ok killed buf ph tr (Q : wres → psys → Prop) k : ∀ i p q,
  holds_queue p q tr → 0 ≤ i → (Z.of_nat (length buf) - i) = Z.of_nat k → write_post killed buf i p ph q tr Q →
  runs (pipewrite_loop killed buf (Z.of_nat (length buf)) i k) Q (Psys p ph).
Proof.
  induction k as [|k IH]; intros i p q Hq Hi Hk HQ; cbn [pipewrite_loop].
  - unfold wakeup_nread. kstep. kstep. kstep. unfold set_act. cbn [y_pipe y_act].
    assert (Ef : i + fitting q buf i = i) by (unfold fitting; pose proof (hq_fits _ _ _ Hq); lia).
    unfold write_post in HQ. rewrite Ef, bytes_nil, app_nil_r in HQ.
    replace (Z.of_nat (length buf)) with i by lia. apply (HQ p Hq eq_refl eq_refl). lia.
  - kstep. kstep. cbn [y_pipe]. rewrite (pipe_full _ _ _ Hq). destruct (Z.eqb_spec (Z.of_nat (length q)) PIPESIZE) as [Hf|Hf].
    + assert (Ef : i + fitting q buf i = i) by (unfold fitting; lia).
      unfold write_post in HQ. rewrite Ef, bytes_nil, app_nil_r in HQ.
      destruct (HQ p Hq eq_refl eq_refl) as [_ H]. specialize (H ltac:(lia) Hf).
      destruct (negb (p_readopen p) || killed); [by kstep|]. unfold wakeup_nread. by repeat kstep.
    + kstep. kstep. unfold set_pipe. cbn [y_pipe y_act]. pose proof (hq_fits _ _ _ Hq).
      eapply (IH (i + 1) _ (q ++ [buf !!! Z.to_nat i])); [apply put_queue; [done|lia]|lia|lia|].
      apply write_post_step; [done|lia|lia|done].
Qed.

Lemma pipewrite_ok killed buf i p ph q tr (Q : wres → psys → Prop) :
  holds_queue p q tr → 0 ≤ i ≤ Z.of_nat (length buf) → write_post killed buf i p ph q tr Q →
  runs (pipewrite killed buf i) Q (Psys p ph).
Proof. intros Hq Hi HQ. unfold pipewrite. eapply pipewrite_loop_ok; [done|lia|lia|done]. Qed.

Lemma piperead_copy_ok ph k : ∀ p q tr (Q : list Z → psys → Prop), holds_queue p q tr →
  (∀ p' tr', holds_queue p' (drop k q) tr' → p_readopen p' = p_readopen p → p_writeopen p' = p_writeopen p →
     Q (take k q) (Psys p' ph)) →
  runs (piperead_copy k) Q (Psys p ph).
Proof.
  induction k as [|k IH]; intros p q tr Q Hq HQ; cbn [piperead_copy]; [kstep; by eapply HQ|].
  kstep. kstep. cbn [y_pipe]. rewrite (pipe_empty _ _ _ Hq). destruct q as [|c q].
  - rewrite bool_decide_eq_true_2 by done. kstep. by eapply (HQ p tr).
  - rewrite bool_decide_eq_false_2 by done. destruct (drop_queue _ _ _ _ Hq) as [Hc Hq']. rewrite Hc.
    kstep. kstep. kstep. unfold set_pipe. cbn [y_pipe y_act]. eapply IH; [done|]. intros p' tr' H1 H2 H3. kstep.
    by eapply (HQ p' tr').
Qed.

(** What [piperead] does: it takes what there is, up to [n] bytes, and wakes the
    writers; it waits only when there is nothing and somebody may write. *)
Lemma piperead_ok (killed : bool) n p ph q tr (Q : rres → psys → Prop) : holds_queue p q tr →
  (q = [] → p_writeopen p = true → Q (if killed then RFail else RSleep) (Psys p ph)) →
  (q ≠ [] ∨ p_writeopen p = false → ∀ p' tr', holds_queue p' (drop (Z.to_nat n) q) tr' →
     p_readopen p' = p_readopen p → p_writeopen p' = p_writeopen p →
     Q (RRet (take (Z.to_nat n) q)) (Psys p' (λ x, wake_writer (ph x)))) →
  runs (piperead killed n) Q (Psys p ph).
Proof.
  intros Hq Hnone Hsome. unfold piperead. kstep. kstep. cbn [y_pipe]. rewrite (pipe_empty _ _ _ Hq).
  assert (Hgo : q ≠ [] ∨ p_writeopen p = false →
    runs (l ← piperead_copy (Z.to_nat n); wakeup_nwrite;; mret (RRet l)) Q (Psys p ph)).
  { intros Hd. kstep. eapply piperead_copy_ok; [done|]. intros p' tr' H1 H2 H3. unfold wakeup_nwrite. do 3 kstep.
    by eapply Hsome. }
  case_bool_decide as Hq0; simpl; [|auto]. destruct (Bool.bool_dec (p_writeopen p) true) as [Ew|Ew].
  - rewrite Ew. specialize (Hnone Hq0 Ew). destruct killed; by kstep.
  - apply not_true_is_false in Ew. rewrite Ew. auto.
Qed.

(** ** Invariant *)

Record hinv (allow_killed : bool) (h : history) : Prop := {
  hi_queue : ∃ q tr, holds_queue (y_pipe (h_sys h)) q tr ∧ h_in h = h_out h ++ q ∧
    (allow_killed = false → ∀ x n, y_act (h_sys h) x = Reading false n → q = [] ∧ p_writeopen (y_pipe (h_sys h)) = true) ∧
    (∀ x buf i, y_act (h_sys h) x = Writing false buf i →
       Z.of_nat (length q) = PIPESIZE ∧ p_readopen (y_pipe (h_sys h)) = true);
  hi_read x b n : y_act (h_sys h) x = Reading b n → p_readopen (y_pipe (h_sys h)) = true;
  hi_write x b buf i : y_act (h_sys h) x = Writing b buf i → 0 ≤ i ≤ Z.of_nat (length buf)
}.

Lemma wake_reader_reading a n : wake_reader a ≠ Reading false n.
Proof. by destruct a. Qed.
Lemma wake_reader_pos a b n : wake_reader a = Reading b n → ∃ b', a = Reading b' n.
Proof. destruct a; try done. intros [= <- <-]. by eexists. Qed.
Lemma wake_reader_writing a b buf i : wake_reader a = Writing b buf i → a = Writing b buf i.
Proof. by destruct a. Qed.
Lemma wake_writer_writing a buf i : wake_writer a ≠ Writing false buf i.
Proof. by destruct a. Qed.
Lemma wake_writer_reading a b n : wake_writer a = Reading b n → a = Reading b n.
Proof. by destruct a. Qed.
Lemma wake_writer_pos a b buf i : wake_writer a = Writing b buf i → ∃ b', a = Writing b' buf i.
Proof. destruct a; try done. intros [= <- <- <-]. by eexists. Qed.

Lemma length_bytes buf i m : 0 ≤ i → 0 ≤ m → i + m ≤ Z.of_nat (length buf) → Z.of_nat (length (bytes buf i (i + m))) = m.
Proof. intros. unfold bytes. rewrite length_take, length_drop. lia. Qed.

(** [fupd] of what a process does, looked up. *)
Lemma fupd_case (ph : nat → activity) q a x b : fupd ph q a x = b → (x = q ∧ a = b) ∨ (x ≠ q ∧ ph x = b).
Proof. unfold fupd. case_decide; auto. Qed.

Lemma hinv_write allow q killed buf i r s s' hi ho :
  hinv allow (History s hi ho) → (y_act s q = Elsewhere ∧ i = 0) ∨ y_act s q = Writing true buf i →
  (killed = true → allow = true) → pipewrite killed buf i s = Ok (r, s') →
  hinv allow (History (set_act (after_write q buf r) s') (hi ++ bytes buf i (written r)) ho).
Proof.
  intros [(u & tr & Hq & Ein & Hrd & Hwr) Hop Hpos] Hact Hk E. destruct s as [p ph]. cbn [h_sys h_in h_out y_pipe y_act] in *.
  assert (Hi : 0 ≤ i ≤ Z.of_nat (length buf)) by (destruct Hact as [[_ ->]|H]; [lia|by eapply Hpos]).
  set (Q := λ r s', hinv allow (History (set_act (after_write q buf r) s') (hi ++ bytes buf i (written r)) ho)).
  apply (runs_eq (pipewrite killed buf i) Q (Psys p ph) r s'); [|done]. unfold Q. clear r s' E Q.
  assert (Hm : 0 ≤ fitting u buf i) by (unfold fitting; pose proof (hq_fits _ _ _ Hq); lia).
  assert (Hle : i + fitting u buf i ≤ Z.of_nat (length buf)) by (unfold fitting; lia).
  pose proof (length_bytes buf i (fitting u buf i) ltac:(lia) Hm Hle) as Hlb.
  eapply (pipewrite_ok killed buf i p ph u tr); [done|done|]. intros p' Hq' Er Ew. cbn zeta. set (j := i + fitting u buf i) in *.
  assert (Hfull : ∀ x b y, ph x = Writing false b y → Z.of_nat (length (u ++ bytes buf i j)) = PIPESIZE ∧ p_readopen p' = true).
  { intros x b y [Hl Ho]%Hwr. split; [|congruence]. rewrite length_app. unfold fitting in Hlb. lia. }
  split; [intros Ej|intros Ej Hlen; destruct (negb (p_readopen p) || killed) eqn:Ec].
  - split; [exists (u ++ bytes buf i j), tr|..]; cbn [h_sys h_in h_out y_pipe y_act set_act after_write written].
    + split; [done|]. split; [by rewrite Ein, app_assoc|]. split.
      * intros _ x n [[_ [=]]|[_ H]]%fupd_case. by apply wake_reader_reading in H.
      * intros x b y [[_ [=]]|[_ H]]%fupd_case. apply wake_reader_writing in H. by eapply Hfull.
    + intros x b n [[_ [=]]|[_ H]]%fupd_case. apply wake_reader_pos in H as [b' H]. rewrite Er. by eapply Hop.
    + intros x b y z [[_ [=]]|[_ H]]%fupd_case. apply wake_reader_writing in H. by eapply Hpos.
  - split; [exists (u ++ bytes buf i j), tr|..]; cbn [h_sys h_in h_out y_pipe y_act set_act after_write written].
    + split; [done|]. split; [by rewrite Ein, app_assoc|]. split.
      * intros Ha x n [[_ [=]]|[_ H]]%fupd_case. rewrite (Hop x _ _ H) in Ec. simpl in Ec. apply Hk in Ec. congruence.
      * intros x b y [[_ [=]]|[_ H]]%fupd_case. by eapply Hfull.
    + intros x b n [[_ [=]]|[_ H]]%fupd_case. rewrite Er. by eapply Hop.
    + intros x b y z [[_ [=]]|[_ H]]%fupd_case. by eapply Hpos.
  - split; [exists (u ++ bytes buf i j), tr|..]; cbn [h_sys h_in h_out y_pipe y_act set_act after_write written].
    + split; [done|]. split; [by rewrite Ein, app_assoc|]. split.
      * intros _ x n [[_ [=]]|[_ H]]%fupd_case. by apply wake_reader_reading in H.
      * intros x b y [[_ _]|[_ H]]%fupd_case; [|apply wake_reader_writing in H; by eapply Hfull].
        split; [done|]. rewrite Er. by destruct (p_readopen p).
    + intros x b n [[_ [=]]|[_ H]]%fupd_case. apply wake_reader_pos in H as [b' H]. rewrite Er. by eapply Hop.
    + intros x b y z [[_ [= _ <- <-]]|[_ H]]%fupd_case; [lia|]. apply wake_reader_writing in H. by eapply Hpos.
Qed.

Lemma hinv_read allow q killed n r s s' hi ho :
  hinv allow (History s hi ho) → p_readopen (y_pipe s) = true → piperead killed n s = Ok (r, s') →
  hinv allow (History (set_act (after_read q n r) s') hi (ho ++ received r)).
Proof.
  intros [(u & tr & Hq & Ein & Hrd & Hwr) Hop Hpos] Hro E. destruct s as [p ph]. cbn [h_sys h_in h_out y_pipe y_act] in *.
  set (Q := λ r s', hinv allow (History (set_act (after_read q n r) s') hi (ho ++ received r))).
  apply (runs_eq (piperead killed n) Q (Psys p ph) r s'); [|done]. unfold Q. clear r s' E Q.
  eapply (piperead_ok killed n p ph u tr); [done| |].
  - intros -> Hwo. destruct killed; (split; [exists [], tr|..]);
      cbn [h_sys h_in h_out y_pipe y_act set_act after_read received]; rewrite ?app_nil_r in *.
    + split; [done|]. split; [done|]. split; [intros Ha x m|intros x b y]; intros [[_ [=]]|[_ H]]%fupd_case; [by eauto|by eapply Hwr].
    + intros x b m [[_ [=]]|[_ H]]%fupd_case. by eapply Hop.
    + intros x b y z [[_ [=]]|[_ H]]%fupd_case. by eapply Hpos.
    + split; [done|]. split; [done|]. split; [done|]. intros x b y [[_ [=]]|[_ H]]%fupd_case. by eapply Hwr.
    + intros x b m [[_ _]|[_ H]]%fupd_case; [done|]. by eapply Hop.
    + intros x b y z [[_ [=]]|[_ H]]%fupd_case. by eapply Hpos.
  - intros Hd p' tr' Hq' Er Ew. split; [exists (drop (Z.to_nat n) u), tr'|..];
      cbn [h_sys h_in h_out y_pipe y_act set_act after_read received].
    + split; [done|]. split; [by rewrite <- app_assoc, take_drop|]. split.
      * intros Ha x m [[_ [=]]|[_ H]]%fupd_case. apply wake_writer_reading in H. destruct (Hrd Ha x m H) as [-> Ho].
        rewrite drop_nil. split; [done|congruence].
      * intros x b y [[_ [=]]|[_ H]]%fupd_case. by apply wake_writer_writing in H.
    + intros x b m [[_ [=]]|[_ H]]%fupd_case. apply wake_writer_reading in H. rewrite Er. by eapply Hop.
    + intros x b y z [[_ [=]]|[_ H]]%fupd_case. apply wake_writer_pos in H as [b' H]. by eapply Hpos.
Qed.

Lemma same_queue p p' q tr : holds_queue p q tr → p_data p' = p_data p → p_nread p' = p_nread p →
  p_nwrite p' = p_nwrite p → holds_queue p' q tr.
Proof. intros [] E1 E2 E3. split; rewrite ?E1, ?E2, ?E3; done. Qed.

Lemma hinv_close allow writable b s s' hi ho :
  hinv allow (History s hi ho) →
  (∀ x, if writable : bool then ∀ a buf i, y_act s x ≠ Writing a buf i else ∀ a n, y_act s x ≠ Reading a n) →
  pipeclose writable s = Ok (b, s') → hinv allow (History s' hi ho).
Proof.
  intros [(u & tr & Hq & Ein & Hrd & Hwr) Hop Hpos] Hno E. destruct s as [p ph]. cbn [h_sys h_in h_out y_pipe y_act] in *.
  destruct writable; injection E as _ <-; (split; [exists u, tr|..]);
    cbn [h_sys h_in h_out y_pipe y_act set_act set_pipe p_readopen p_writeopen].
  - split; [by eapply same_queue|]. split; [done|]. split.
    + intros _ x n H. by apply wake_reader_reading in H.
    + intros x buf i H. apply wake_reader_writing in H. by eapply Hwr.
  - intros x c n H. apply wake_reader_pos in H as [b' H]. by eapply Hop.
  - intros x c buf i H. apply wake_reader_writing in H. by eapply Hpos.
  - split; [by eapply same_queue|]. split; [done|]. split.
    + intros _ x n H. apply wake_writer_reading in H. by apply (Hno x) in H.
    + intros x buf i H. by apply wake_writer_writing in H.
  - intros x c n H. apply wake_writer_reading in H. by apply (Hno x) in H.
  - intros x c buf i H. apply wake_writer_pos in H as [b' H]. by eapply Hpos.
Qed.

Lemma hinv_step allow h h' : hinv allow h → hstep allow h h' → hinv allow h'.
Proof.
  intros Hi Hs. destruct Hs as [q killed buf i r s s' hi ho Ha Hw Hk E|q killed n r s s' hi ho Ha Hr E|w b s s' hi ho Hno E Hb|q s hi ho].
  - by eapply hinv_write.
  - by eapply hinv_read.
  - by eapply hinv_close.
  - destruct Hi as [(u & tr & Hq & Ein & Hrd & Hwr) Hop Hpos]. cbn [h_sys h_in h_out] in *.
    assert (Hw : ∀ x a, fupd (y_act s) q (wake_reader (wake_writer (y_act s q))) x = a →
      (∀ n, a = Reading false n → y_act s x = a) ∧ (∀ buf i, a = Writing false buf i → y_act s x = a) ∧
      (∀ b n, a = Reading b n → ∃ b', y_act s x = Reading b' n) ∧
      (∀ b buf i, a = Writing b buf i → ∃ b', y_act s x = Writing b' buf i)).
    { intros x a [[-> <-]|[_ ->]]%fupd_case; [|naive_solver]. destruct (y_act s q); simpl; naive_solver. }
    split; [exists u, tr|..]; cbn [h_sys h_in h_out set_act y_pipe y_act].
    + split; [done|]. split; [done|]. split.
      * intros Hf x n H. apply Hw in H as (H & _). by eapply Hrd, H.
      * intros x buf i H. apply Hw in H as (_ & H & _). by eapply Hwr, H.
    + intros x b n H. apply Hw in H as (_ & _ & H & _). destruct (H b n eq_refl) as [b' H']. by eapply Hop.
    + intros x b buf i H. apply Hw in H as (_ & _ & _ & H). destruct (H b buf i eq_refl) as [b' H']. by eapply Hpos.
Qed.

Definition pipe_start (data : list Z) : history := History (Psys (pipe_init data) (λ _, Elsewhere)) [] [].

Lemma hinv_start allow data : length data = Z.to_nat PIPESIZE → hinv allow (pipe_start data).
Proof. intros Hl. split; [exists [], 0; split; [by apply init_queue|done]|done|done]. Qed.

Lemma hinv_reach allow data h : length data = Z.to_nat PIPESIZE → rtc (hstep allow) (pipe_start data) h → hinv allow h.
Proof. intros. eapply rtc_invariant; [apply hinv_step|by apply hinv_start|done]. Qed.

(** C20. A pipe is a FIFO of 512 bytes, however many readers and writers share it and
    however the 32-bit counters wrap: what was accepted from writers is what was
    given to readers followed by the buffer.  A writer sleeps only while the buffer
    is full and the read end open and, when no writer is killed, a reader only while
    it is empty and the write end open, so no wakeup is lost.  A read from a
    non-empty pipe returns its first bytes and leaves no writer asleep; a write that
    fits is accepted whole and leaves no reader asleep. *)
Theorem pipe_is_a_fifo allow data h :
  length data = Z.to_nat PIPESIZE → rtc (hstep allow) (pipe_start data) h →
  ∃ q, h_in h = h_out h ++ q ∧ Z.of_nat (length q) ≤ PIPESIZE ∧
  (allow = false → ∀ x n, y_act (h_sys h) x = Reading false n → q = [] ∧ p_writeopen (y_pipe (h_sys h)) = true) ∧
  (∀ x buf i, y_act (h_sys h) x = Writing false buf i →
     Z.of_nat (length q) = PIPESIZE ∧ p_readopen (y_pipe (h_sys h)) = true) ∧
  (∀ killed n, q ≠ [] → runs (piperead killed n) (λ r s', r = RRet (take (Z.to_nat n) q) ∧
     ∀ x buf i, y_act s' x ≠ Writing false buf i) (h_sys h)) ∧
  (∀ killed buf, Z.of_nat (length q + length buf) ≤ PIPESIZE →
     runs (pipewrite killed buf 0) (λ r s', r = WRet (Z.of_nat (length buf)) (Z.of_nat (length buf)) ∧
       ∀ x n, y_act s' x ≠ Reading false n) (h_sys h)).
Proof.
  intros Hl Hr. destruct (hinv_reach allow data h Hl Hr) as [(q & tr & Hq & Ein & Hrd & Hwr) _ _].
  exists q. split; [done|]. split; [apply Hq|]. split; [done|]. split; [done|]. destruct (h_sys h) as [p ph]. simpl in *. split.
  - intros killed n Hne. eapply piperead_ok; [done|done|]. intros _ p' tr' _ _ _. split; [done|].
    intros x buf i. apply wake_writer_writing.
  - intros killed buf Hfit. eapply (pipewrite_ok killed buf 0 p ph q tr); [done|lia|]. intros p' Hq' _ _. cbn zeta in *.
    assert (Ef : 0 + fitting q buf 0 = Z.of_nat (length buf)) by (unfold fitting; lia). rewrite Ef. split; [|lia].
    intros _. split; [done|]. intros x n. apply wake_reader_reading.
Qed.

Lemma pipe_is_a_fifo_witness : ∃ h, rtc (hstep false) (pipe_start (replicate 512 0)) h ∧
  y_act (h_sys h) 0%nat = Reading true 10 ∧
  runs (piperead false 10) (λ r _, r = RRet [1; 2; 3]) (h_sys h).
Proof.
  assert (Hr : ∃ h, rtc (hstep false) (pipe_start (replicate 512 0)) h ∧
    y_act (h_sys h) 0%nat = Reading true 10 ∧ h_in h = [1; 2; 3] ∧ h_out h = []).
  { eexists. split.
    - eapply rtc_l; [apply (h_read false 0%nat false 10 RSleep); [by left|done|vm_compute; reflexivity]|].
      apply rtc_once. apply (h_write false 1%nat false [1; 2; 3] 0 (WRet 3 3)); [by left|done|done|vm_compute; reflexivity].
    - by split. }
  destruct Hr as (h & Hr & Ha & Ei & Eo). exists h. split; [done|]. split; [done|].
  destruct (pipe_is_a_fifo false (replicate 512 0) h eq_refl Hr) as (q & Eq & _ & _ & _ & Hread & _).
  rewrite Ei, Eo in Eq. simpl in Eq. subst q. eapply runs_mono; [by apply (Hread false 10)|]. by intros r s' [-> _].
Defined.

(** A writer that was killed returns from a full pipe without the [wakeup] of the
    readers: bytes are there and the reader sleeps. *)
Theorem killed_writer_leaves_readers_asleep : ∃ h, rtc (hstep true) (pipe_start (replicate 512 0)) h ∧
  y_act (h_sys h) 0%nat = Reading false 1 ∧ y_act (h_sys h) 1%nat = Elsewhere ∧
  length (h_in h) = 512%nat ∧ h_out h = [].
Proof.
  eexists. split.
  - eapply rtc_l; [apply (h_read true 0%nat false 1 RSleep); [by left|done|vm_compute; reflexivity]|].
    apply rtc_once. apply (h_write true 1%nat true (replicate 513 7) 0 (WRet (-1) 512)); [by left|done|done|].
    vm_compute. reflexivity.
  - by repeat split.
Qed.
