(* ===== verification/File.v ===== *)
(** * Open files: [xv6/file.c], and [pipealloc] of [xv6/pipe.c]

    The table of open files, over the inodes of [Fs], the pipes of [Pipe] and the
    pages of [Kalloc].  A pointer to a file is its place in the table, a pointer to
    a pipe the page it lives in.  The model follows one process: a read or write
    that would sleep does not return. *)

From S2P Require Import Prelude Str Mmu Kalloc Bytes Ide Bio Log Trans Fs Pipe.

Definition NFILE : nat := 100.

Inductive fdtype := FD_NONE | FD_PIPE | FD_INODE.

(** [struct file]. *)
Record file := File {
  f_type : fdtype;
  f_ref : Z;
  f_readable : bool;
  f_writable : bool;
  f_pipe : Z;
  f_ip : nat;
  f_off : Z
}.

Definition file0 : file := File FD_NONE 0 false false 0 0 0.
#[global] Instance file_inhabited : Inhabited file := populate file0.

Definition set_fref (r : Z) (f : file) : file :=
  File (f_type f) r (f_readable f) (f_writable f) (f_pipe f) (f_ip f) (f_off f).
Definition set_ftype (t : fdtype) (f : file) : file :=
  File t (f_ref f) (f_readable f) (f_writable f) (f_pipe f) (f_ip f) (f_off f).
Definition set_foff (o : Z) (f : file) : file :=
  File (f_type f) (f_ref f) (f_readable f) (f_writable f) (f_pipe f) (f_ip f) o.

(** [ftable.file], the pipes, memory, the file system, and whether the process was
    killed. *)
Record fst (L : Type) := Fst {
  t_file : list file;
  t_pipes : gmap Z psys;
  t_k : kst;
  t_fs : fs L;
  t_killed : bool
}.
Arguments Fst {L}.
Arguments t_file {L}.
Arguments t_pipes {L}.
Arguments t_k {L}.
Arguments t_fs {L}.
Arguments t_killed {L}.

Section file.
Context {L : Type} `{LogDisk L}.
Context (kend : Z).
Context (devsw_read : Z → option (nat → Z → K (fs L) (Z * list Z))).
Context (devsw_write : Z → option (nat → list Z → Z → K (fs L) Z)).
(** [begin_op] and [end_op] of the log. *)
Context (log_begin log_end : K L unit).

Definition set_files (g : list file → list file) (s : fst L) : fst L :=
  Fst (g (t_file s)) (t_pipes s) (t_k s) (t_fs s) (t_killed s).
Definition set_pipes (g : gmap Z psys → gmap Z psys) (s : fst L) : fst L :=
  Fst (t_file s) (g (t_pipes s)) (t_k s) (t_fs s) (t_killed s).

Definition on_fs {A} (m : K (fs L) A) : K (fst L) A := λ s,
  match m (t_fs s) with
  | Ok (a, x) => Ok (a, Fst (t_file s) (t_pipes s) (t_k s) x (t_killed s))
  | Panic msg => Panic msg
  | Hang => Hang
  end.
Definition on_pages {A} (m : K kst A) : K (fst L) A := λ s,
  match m (t_k s) with
  | Ok (a, x) => Ok (a, Fst (t_file s) (t_pipes s) x (t_fs s) (t_killed s))
  | Panic msg => Panic msg
  | Hang => Hang
  end.

(** An operation on the pipe at [p]; there is no such pipe: a wild pointer. *)
Definition on_pipe {A} (p : Z) (m : K psys A) : K (fst L) A := λ s,
  match t_pipes s !! p with
  | None => Panic "trap"
  | Some y =>
      match m y with
      | Ok (a, y') => Ok (a, set_pipes (<[p := y']>) s)
      | Panic msg => Panic msg
      | Hang => Hang
      end
  end.

Definition begin_op : K (fst L) unit := on_fs (flift log_begin).
Definition end_op : K (fst L) unit := on_fs (flift log_end).

Definition getf (f : nat) : K (fst L) file := kgets (λ s, t_file s !!! f).
Definition updf (f : nat) (g : file → file) : K (fst L) unit := kmod (set_files (alter g f)).

(** ** References *)

Definition filealloc : K (fst L) (option nat) :=
  s ← kget;
  match list_find (λ f, f_ref f = 0) (t_file s) with
  | Some (f, _) => updf f (set_fref 1);; mret (Some f)
  | None => mret None
  end.

Definition filedup (f : nat) : K (fst L) nat :=
  x ← getf f;
  kassert (negb (f_ref x <? 1)) "filedup";;
  updf f (set_fref (f_ref x + 1));;
  mret f.

(** [pipeclose] with the release of the page. *)
Definition pipe_close (p : Z) (writable : bool) : K (fst L) unit :=
  b ← on_pipe p (pipeclose writable);
  if b : bool then kmod (set_pipes (delete p));; on_pages (kfree kend p) else mret tt.

Definition fileclose (f : nat) : K (fst L) unit :=
  x ← getf f;
  kassert (negb (f_ref x <? 1)) "fileclose";;
  updf f (set_fref (f_ref x - 1));;
  if 0 <? f_ref x - 1 then mret tt
  else
    let ff := x in
    updf f (set_fref 0);;
    updf f (set_ftype FD_NONE);;
    match f_type ff with
    | FD_PIPE => pipe_close (f_pipe ff) (f_writable ff)
    | FD_INODE => begin_op;; on_fs (iput (f_ip ff));; end_op
    | FD_NONE => mret tt
    end.

(** ** Reading and writing *)

(** -1, or the metadata for the caller's buffer. *)
Definition filestat (f : nat) : K (fst L) (option stat) :=
  x ← getf f;
  match f_type x with
  | FD_INODE =>
      on_fs (ilock (f_ip x));;
      st ← on_fs (stati (f_ip x));
      on_fs (iunlock (f_ip x));;
      mret (Some st)
  | _ => mret None
  end.

(** The result and the bytes put in the caller's buffer. *)
Definition fileread (f : nat) (n : Z) : K (fst L) (Z * list Z) :=
  x ← getf f;
  if negb (f_readable x) then mret (-1, [])
  else
    match f_type x with
    | FD_PIPE =>
        s ← kget;
        r ← on_pipe (f_pipe x) (piperead (t_killed s) n);
        match r with
        | RFail => mret (-1, [])
        | RRet l => mret (Z.of_nat (length l), l)
        | RSleep => khang
        end
    | FD_INODE =>
        on_fs (ilock (f_ip x));;
        '(r, l) ← on_fs (readi devsw_read (f_ip x) (f_off x) n);
        (if 0 <? r then updf f (set_foff (u32 (f_off x + r))) else mret tt);;
        on_fs (iunlock (f_ip x));;
        mret (r, l)
    | FD_NONE => kpanic "fileread"
    end.

Definition max_write : Z := ((MAXOPBLOCKS - 1 - 1 - 2) / 2) * 512.

(** The loop of [filewrite]; each round but the last adds to [i].  The result is
    [i] at the end. *)
Fixpoint filewrite_loop (fuel : nat) (f : nat) (src : list Z) (i n : Z) : K (fst L) Z :=
  match fuel with
  | O => khang
  | S fuel' =>
      if i <? n then
        let n1 := n - i in
        let n1 := if max_write <? n1 then max_write else n1 in
        begin_op;;
        x ← getf f;
        on_fs (ilock (f_ip x));;
        r ← on_fs (writei devsw_write (f_ip x) (drop (Z.to_nat i) src) (f_off x) n1);
        (if 0 <? r then updf f (set_foff (u32 (f_off x + r))) else mret tt);;
        on_fs (iunlock (f_ip x));;
        end_op;;
        if r <? 0 then mret i
        else
          kassert (r =? n1) "short filewrite";;
          filewrite_loop fuel' f src (i + r) n
      else mret i
  end.

Definition filewrite (f : nat) (src : list Z) (n : Z) : K (fst L) Z :=
  x ← getf f;
  if negb (f_writable x) then mret (-1)
  else
    match f_type x with
    | FD_PIPE =>
        s ← kget;
        r ← on_pipe (f_pipe x) (pipewrite (t_killed s) (take (Z.to_nat n) src) 0);
        match r with
        | WRet r _ => mret r
        | WSleep _ => khang
        end
    | FD_INODE =>
        i ← filewrite_loop (S (Z.to_nat n)) f src 0 n;
        mret (if i =? n then n else -1)
    | FD_NONE => kpanic "filewrite"
    end.

(** ** Pipes *)

Definition pipe_data : Z := 52.    (* offset of [data] in [struct pipe] *)

Definition close_opt (o : option nat) : K (fst L) unit :=
  match o with Some f => fileclose f | None => mret tt end.

(** The files of the two ends, or [None] after [bad:]. *)
Definition pipealloc : K (fst L) (option (nat * nat)) :=
  f0 ← filealloc;
  match f0 with
  | None => mret None
  | Some r =>
      f1 ← filealloc;
      match f1 with
      | None => close_opt f0;; mret None
      | Some w =>
          p ← on_pages kalloc;
          if p =? 0 then close_opt f0;; close_opt f1;; mret None
          else
            s ← kget;
            let data := (λ j, rd (k_mem (t_k s)) (p + pipe_data + Z.of_nat j)) <$> seq 0 (Z.to_nat PIPESIZE) in
            kmod (set_pipes (<[p := Psys (pipe_init data) (λ _, Elsewhere)]>));;
            updf r (λ f, File FD_PIPE (f_ref f) true false p (f_ip f) (f_off f));;
            updf w (λ f, File FD_PIPE (f_ref f) false true p (f_ip f) (f_off f));;
            mret (Some (r, w))
      end
  end.

End file.
