(* ===== verification/Syscall.v ===== *)
(** * System calls: [xv6/syscall.c]

    The arguments of a system call are words on the user stack; the kernel checks
    that what it reads, and the buffers it is given, lie inside the process.  [uctx]
    is what these functions see of the calling process. *)

From S2P Require Import Prelude Str Mmu.

(** [curproc->sz], the user memory by virtual address, and [curproc->tf->esp]. *)
Record uctx := Uctx {
  u_sz : Z;
  u_mem : gmap Z Z;
  u_esp : Z
}.

(** ** Arguments: [None] is a return of -1 *)

Definition fetchint (u : uctx) (addr : Z) : option Z :=
  if (u_sz u <=? addr) || (u_sz u <? u32 (addr + 4)) then None
  else Some (s32 (ld32 (u_mem u) addr)).

(** The loop from [s] to [ep], with [k] bytes to go. *)
Fixpoint fetchstr_loop (u : uctx) (pp s : Z) (k : nat) : option Z :=
  match k with
  | O => None
  | S k' => if rd (u_mem u) s =? 0 then Some (s - pp) else fetchstr_loop u pp (s + 1) k'
  end.

(** [*pp] and the length. *)
Definition fetchstr (u : uctx) (addr : Z) : option (Z * Z) :=
  if u_sz u <=? addr then None
  else
    len ← fetchstr_loop u addr addr (Z.to_nat (u_sz u - addr));
    mret (addr, len).

Definition argint (u : uctx) (n : Z) : option Z := fetchint u (u32 (u_esp u + 4 + 4 * n)).

Definition argptr (u : uctx) (n size : Z) : option Z :=
  i ← argint u n;
  if (size <? 0) || (u_sz u <=? u32 i) || (u_sz u <? u32 (u32 i + size)) then None
  else Some (u32 i).

Definition argstr (u : uctx) (n : Z) : option (Z * Z) :=
  addr ← argint u n;
  fetchstr u (u32 addr).

(** The characters of the string that [argstr] points to. *)
Definition user_bytes (u : uctx) (p len : Z) : list Z :=
  (λ j, rd (u_mem u) (p + Z.of_nat j)) <$> seq 0 (Z.to_nat len).

(** ** Dispatch *)

(** [syscalls_names], which has the entries of [syscalls]. *)
Definition syscalls_names : list (Z * string) := [
  (1, "sys_fork"); (2, "sys_exit"); (3, "sys_wait"); (4, "sys_pipe"); (5, "sys_read");
  (6, "sys_kill"); (7, "sys_exec"); (8, "sys_fstat"); (9, "sys_chdir"); (10, "sys_dup");
  (11, "sys_getpid"); (12, "sys_sbrk"); (13, "sys_sleep"); (14, "sys_uptime"); (15, "sys_open");
  (16, "sys_write"); (17, "sys_mknod"); (18, "sys_unlink"); (19, "sys_link"); (20, "sys_mkdir");
  (21, "sys_close"); (22, "sys_trace"); (23, "sys_answer"); (24, "sys_getppid"); (25, "sys_pscnt");
  (26, "sys_pgcnt")
]%string.

(** A line printed by [syscall]: of a traced call, or of an unknown number. *)
Inductive line :=
| Traced (num : Z) (name : string) (result : Z)
| Unknown (pid : Z) (pname : list Z) (num : Z).

Section dispatch.
Context {S : Type}.
(** The handlers, [curproc->tf->eax] and the [trace] variable in the state [S], the
    pid and name of the process, and the console. *)
Context (handler : Z → K S Z).
Context (get_eax : S → Z) (set_eax : Z → S → S) (get_trace : S → Z).
Context (pid : Z) (pname : list Z) (cprintf : line → K S unit).

Definition syscall_name (num : Z) : option string := snd <$> (snd <$> list_find (λ e, e.1 = num) syscalls_names).

Definition NELEM_syscalls : Z := 27.

Definition syscall : K S unit :=
  num ← kgets (λ s, s32 (get_eax s));
  match (if (0 <? num) && (num <? NELEM_syscalls) then syscall_name num else None) with
  | Some name =>
      r ← handler num;
      kmod (set_eax (u32 r));;
      tr ← kgets get_trace;
      (if 0 <? tr then
         eax ← kgets get_eax;
         cprintf (Traced num name (s32 eax))
       else mret tt)
  | None =>
      cprintf (Unknown pid pname num);;
      kmod (set_eax (u32 (-1)))
  end.

End dispatch.

(** ** Theorems *)

Lemma fetchstr_loop_spec u pp k : ∀ s len, fetchstr_loop u pp s k = Some len →
  s ≤ pp + len < s + Z.of_nat k ∧ rd (u_mem u) (pp + len) = 0 ∧ ∀ a, s ≤ a < pp + len → rd (u_mem u) a ≠ 0.
Proof.
  induction k as [|k IH]; intros s len; cbn [fetchstr_loop]; [done|].
  destruct (Z.eqb_spec (rd (u_mem u) s) 0) as [E|E].
  - intros [= <-]. replace (pp + (s - pp)) with s by lia. split; [lia|]. split; [done|lia].
  - intros H. apply IH in H as (H1 & H2 & H3). split; [lia|]. split; [done|]. intros a Ha.
    destruct (decide (a = s)) as [-> |]; [done|]. apply H3. lia.
Qed.

Lemma fetchstr_loop_none u pp k : ∀ s, fetchstr_loop u pp s k = None →
  ∀ a, s ≤ a < s + Z.of_nat k → rd (u_mem u) a ≠ 0.
Proof.
  induction k as [|k IH]; intros s; cbn [fetchstr_loop]; [lia|].
  destruct (Z.eqb_spec (rd (u_mem u) s) 0) as [E|E]; [done|]. intros H a Ha.
  destruct (decide (a = s)) as [-> |]; [done|]. apply (IH (s + 1)); [done|lia].
Qed.

Lemma u32_s32 x : u32 (s32 x) = u32 x.
Proof.
  unfold u32, s32. rewrite Zminus_mod_idemp_l. f_equal. lia.
Qed.

Lemma fetchint_iff u addr v : 0 ≤ u_sz u ≤ KERNBASE → 0 ≤ addr →
  fetchint u addr = Some v ↔ addr + 4 ≤ u_sz u ∧ v = s32 (ld32 (u_mem u) addr).
Proof.
  unfold fetchint, KERNBASE. intros Hsz Ha. destruct (Z.leb_spec (u_sz u) addr); simpl; [split; [done|lia]|].
  rewrite u32_small by lia. destruct (Z.ltb_spec (u_sz u) (addr + 4)); split; try done; try lia.
  - intros [= <-]. split; [lia|done].
  - by intros [_ ->].
Qed.

Lemma fetchstr_iff u addr p len : 0 ≤ addr → fetchstr u addr = Some (p, len) ↔
  p = addr ∧ 0 ≤ len ∧ p + len < u_sz u ∧ rd (u_mem u) (p + len) = 0 ∧ ∀ a, p ≤ a < p + len → rd (u_mem u) a ≠ 0.
Proof.
  intros Ha. unfold fetchstr. destruct (Z.leb_spec (u_sz u) addr); [split; [done|lia]|].
  destruct (fetchstr_loop _ _ _ _) as [n|] eqn:E; simpl; (split; [|intros (-> & Hl & Hlt & Hz & Hnz)]).
  - intros [= <- <-]. apply fetchstr_loop_spec in E as (H1 & H2 & H3). split_and!; [done|lia|lia|done|done].
  - apply fetchstr_loop_spec in E as (H1 & H2 & H3). do 2 f_equal.
    destruct (Z.lt_trichotomy n len) as [?|[?|?]]; [|done|].
    + by destruct (Hnz (addr + n) ltac:(lia)).
    + by destruct (H3 (addr + len) ltac:(lia)).
  - done.
  - by destruct (fetchstr_loop_none _ _ _ _ E (addr + len) ltac:(lia)).
Qed.

(** C21. Whatever the user passes, the kernel accepts exactly what lies inside the
    process: [argint] the word at [esp + 4 + 4 n] when its four bytes do, [argptr] a
    word that is the address of a block of [size] bytes that does, and [argstr] a word
    that is the address of a string whose first NUL does, with its length; everything
    else is refused, negative sizes included.  The process is at most [KERNBASE]
    bytes long. *)
Theorem syscall_arguments_are_inside u n :
  0 ≤ u_sz u ≤ KERNBASE →
  let a := u32 (u_esp u + 4 + 4 * n) in
  let word := ld32 (u_mem u) a in
  (∀ v, argint u n = Some v ↔ a + 4 ≤ u_sz u ∧ v = s32 word) ∧
  (∀ size p, - 2 ^ 31 ≤ size < 2 ^ 31 →
     argptr u n size = Some p ↔ a + 4 ≤ u_sz u ∧ p = u32 word ∧ 0 ≤ size ∧ p < u_sz u ∧ p + size ≤ u_sz u) ∧
  (∀ p len, argstr u n = Some (p, len) ↔
     a + 4 ≤ u_sz u ∧ p = u32 word ∧ 0 ≤ len ∧ p + len < u_sz u ∧ rd (u_mem u) (p + len) = 0 ∧
     ∀ b, p ≤ b < p + len → rd (u_mem u) b ≠ 0).
Proof.
  intros Hsz a word. pose proof (u32_range (u_esp u + 4 + 4 * n)) as Ha. fold a in Ha. pose proof (u32_range word) as Hw.
  assert (Hi : ∀ v, argint u n = Some v ↔ a + 4 ≤ u_sz u ∧ v = s32 word) by (intros v; apply fetchint_iff; [done|lia]).
  split; [done|]. split.
  - intros size p Hs. unfold argptr. destruct (argint u n) as [i|] eqn:E.
    + destruct (proj1 (Hi i) eq_refl) as [Hin ->]. simpl. rewrite u32_s32. unfold KERNBASE in Hsz.
      destruct (Z.ltb_spec size 0), (Z.leb_spec (u_sz u) (u32 word)); simpl; try (split; [done|lia]).
      rewrite (u32_small (u32 word + size)) by lia. destruct (Z.ltb_spec (u_sz u) (u32 word + size)); split; try done; try lia.
      * intros [= <-]. lia.
      * by intros (_ & -> & _).
    + split; [done|]. intros [Hin _]. by pose proof (proj2 (Hi (s32 word)) (conj Hin eq_refl)).
  - intros p len. unfold argstr. destruct (argint u n) as [i|] eqn:E.
    + destruct (proj1 (Hi i) eq_refl) as [Hin ->]. simpl. rewrite u32_s32, fetchstr_iff by lia. naive_solver.
    + split; [done|]. intros [Hin _]. by pose proof (proj2 (Hi (s32 word)) (conj Hin eq_refl)).
Qed.

(** A process of 4096 bytes that passes a string at 100 and a buffer at 4000. *)
Definition sample_uctx : uctx :=
  Uctx 4096 (st_bytes (st32 (st32 ∅ 2004 100) 2008 4000) 100 [104; 105; 0]) 2000.

Lemma syscall_arguments_are_inside_witness :
  argint sample_uctx 0 = Some 100 ∧ argstr sample_uctx 0 = Some (100, 2) ∧
  argptr sample_uctx 1 96 = Some 4000 ∧ argptr sample_uctx 1 97 ≠ Some 4000.
Proof.
  assert (Hs : 0 ≤ u_sz sample_uctx ≤ KERNBASE) by done.
  destruct (syscall_arguments_are_inside sample_uctx 0 Hs) as (Hi & _ & Hstr).
  destruct (syscall_arguments_are_inside sample_uctx 1 Hs) as (_ & Hp & _).
  split; [apply Hi; by vm_compute|]. split.
  - apply Hstr. do 5 (split; [by vm_compute|]). intros b Hb. assert (b = 100 ∨ b = 101) as [-> | ->] by lia; by vm_compute.
  - split; [apply Hp; [done|by vm_compute]|]. intros E%Hp; [|done]. destruct E as (_ & _ & _ & _ & E). by vm_compute in E.
Defined.
