(* ===== verification/Sysfile.v ===== *)
(** * File system calls: [xv6/sysfile.c]

    Argument checking over [Syscall], then calls into [File] and [Fs].  The state is
    the calling process (its memory and its descriptors) and the file layer. *)

From S2P Require Import Prelude Str Mmu Kalloc Bytes Ide Bio Log Trans Fs Pipe File Syscall.

Definition NOFILE : nat := 16.
Definition MAXARG : nat := 32.

Definition O_RDONLY : Z := 0.
Definition O_WRONLY : Z := 1.
Definition O_RDWR : Z := 2.
Definition O_CREATE : Z := 512.

Definition dot : list Z := [46].
Definition dotdot : list Z := [46; 46].

(** The process: what [Syscall] sees of it and [ofile]; the file layer. *)
Record sst (L : Type) := Sst {
  x_u : uctx;
  x_ofile : list (option nat);
  x_f : fst L
}.
Arguments Sst {L}.
Arguments x_u {L}.
Arguments x_ofile {L}.
Arguments x_f {L}.

Section sysfile.
Context {L : Type} `{LogDisk L}.
Context (kend : Z).
Context (devsw_read : Z → option (nat → Z → K (fs L) (Z * list Z))).
Context (devsw_write : Z → option (nat → list Z → Z → K (fs L) Z)).
Context (log_begin log_end : K L unit).
(** [exec(path, argv)]; the strings of [argv] are in user memory. *)
Context (exec : list Z → list Z → K (sst L) Z).

Notation fileclose := (fileclose kend log_begin log_end).
Notation dirlookup := (dirlookup devsw_read).
Notation dirlink := (dirlink devsw_read devsw_write).
Notation namei := (namei devsw_read).
Notation nameiparent := (nameiparent devsw_read).

Definition set_u (u : uctx) (s : sst L) : sst L := Sst u (x_ofile s) (x_f s).
Definition set_ofile (fd : nat) (o : option nat) (s : sst L) : sst L := Sst (x_u s) (<[fd := o]> (x_ofile s)) (x_f s).

Definition on_file {A} (m : K (fst L) A) : K (sst L) A := λ s,
  match m (x_f s) with
  | Ok (a, f) => Ok (a, Sst (x_u s) (x_ofile s) f)
  | Panic msg => Panic msg
  | Hang => Hang
  end.
Definition on_inode {A} (m : K (fs L) A) : K (sst L) A := on_file (on_fs m).

Definition begin_op : K (sst L) unit := on_file (File.begin_op log_begin).
Definition end_op : K (sst L) unit := on_file (File.end_op log_end).

(** Stores to user memory at [p]. *)
Definition put_user (p : Z) (l : list Z) : K (sst L) unit :=
  kmod (λ s, set_u (Uctx (u_sz (x_u s)) (st_bytes (u_mem (x_u s)) p l) (u_esp (x_u s))) s).

(** The arguments. *)
Definition arg {A} (f : uctx → option A) : K (sst L) (option A) := kgets (λ s, f (x_u s)).
(** The bytes of a path accepted by [argstr]. *)
Definition arg_path (n : Z) : K (sst L) (option (list Z)) :=
  arg (λ u, '(p, len) ← argstr u n; mret (user_bytes u p len)).

(** ** Descriptors *)

(** The descriptor and the file. *)
Definition argfd (n : Z) : K (sst L) (option (nat * nat)) :=
  a ← arg (λ u, argint u n);
  s ← kget;
  mret (fd ← a;
        if (fd <? 0) || (Z.of_nat NOFILE <=? fd) then None
        else f ← x_ofile s !!! Z.to_nat fd; mret (Z.to_nat fd, f)).

Definition fdalloc (f : nat) : K (sst L) Z :=
  s ← kget;
  match list_find (λ o, o = None) (x_ofile s) with
  | Some (fd, _) => kmod (set_ofile fd (Some f));; mret (Z.of_nat fd)
  | None => mret (-1)
  end.

Definition sys_dup : K (sst L) Z :=
  a ← argfd 0;
  match a with
  | None => mret (-1)
  | Some (_, f) =>
      fd ← fdalloc f;
      if fd <? 0 then mret (-1)
      else on_file (filedup f);; mret fd
  end.

Definition sys_read : K (sst L) Z :=
  a ← argfd 0;
  n ← arg (λ u, argint u 2);
  p ← arg (λ u, n ← n; argptr u 1 n);
  match a, n, p with
  | Some (_, f), Some n, Some p =>
      '(r, l) ← on_file (fileread devsw_read f n);
      put_user p l;;
      mret r
  | _, _, _ => mret (-1)
  end.

Definition sys_write : K (sst L) Z :=
  a ← argfd 0;
  n ← arg (λ u, argint u 2);
  p ← arg (λ u, n ← n; argptr u 1 n);
  match a, n, p with
  | Some (_, f), Some n, Some p =>
      src ← kgets (λ s, user_bytes (x_u s) p n);
      on_file (filewrite devsw_write log_begin log_end f src n)
  | _, _, _ => mret (-1)
  end.

Definition sys_close : K (sst L) Z :=
  a ← argfd 0;
  match a with
  | None => mret (-1)
  | Some (fd, f) =>
      kmod (set_ofile fd None);;
      on_file (fileclose f);;
      mret 0
  end.

(** [sizeof(struct stat)] and its bytes, with the padding kept as it was. *)
Definition sizeof_stat : Z := 20.

Definition put_stat (p : Z) (st : stat) : K (sst L) unit :=
  put_user p (le16 (st_type st));;
  put_user (p + 4) (le32 (st_dev st));;
  put_user (p + 8) (le32 (st_ino st));;
  put_user (p + 12) (le16 (st_nlink st));;
  put_user (p + 16) (le32 (st_size st)).

Definition sys_fstat : K (sst L) Z :=
  a ← argfd 0;
  p ← arg (λ u, argptr u 1 sizeof_stat);
  match a, p with
  | Some (_, f), Some p =>
      r ← on_file (filestat f);
      match r with
      | Some st => put_stat p st;; mret 0
      | None => mret (-1)
      end
  | _, _ => mret (-1)
  end.

(** ** Links *)

Definition sys_link_bad (ip : nat) : K (sst L) Z :=
  on_inode (ilock ip);;
  i ← on_inode (ip_get ip);
  on_inode (ip_mod ip (set_nlink (s16 (i_nlink i - 1))));;
  on_inode (iupdate ip);;
  on_inode (iunlockput ip);;
  end_op;;
  mret (-1).

Definition sys_link : K (sst L) Z :=
  old ← arg_path 0;
  new ← arg_path 1;
  match old, new with
  | Some old, Some new =>
      begin_op;;
      r ← on_inode (namei old);
      match r with
      | None => end_op;; mret (-1)
      | Some ip =>
          on_inode (ilock ip);;
          i ← on_inode (ip_get ip);
          if i_type i =? T_DIR then on_inode (iunlockput ip);; end_op;; mret (-1)
          else
            on_inode (ip_mod ip (set_nlink (s16 (i_nlink i + 1))));;
            on_inode (iupdate ip);;
            on_inode (iunlock ip);;
            '(r, name) ← on_inode (nameiparent new (zeroes DIRSIZ));
            match r with
            | None => sys_link_bad ip
            | Some dp =>
                on_inode (ilock dp);;
                d ← on_inode (ip_get dp);
                i ← on_inode (ip_get ip);
                r ← (if negb (i_dev d =? i_dev i) then mret (-1) else on_inode (dirlink dp name (i_inum i)));
                on_inode (iunlockput dp);;
                if r <? 0 then sys_link_bad ip
                else
                  on_inode (iput ip);;
                  end_op;;
                  mret 0
            end
      end
  | _, _ => mret (-1)
  end.

Fixpoint isdirempty_loop (fuel : nat) (dp : nat) (off : Z) : K (fs L) bool :=
  match fuel with
  | O => khang
  | S fuel' =>
      i ← ip_get dp;
      if off <? i_size i then
        '(r, de) ← readi devsw_read dp off dirent_size;
        kassert (r =? dirent_size) "isdirempty: readi";;
        if negb (de_inum de =? 0) then mret false
        else isdirempty_loop fuel' dp (off + dirent_size)
      else mret true
  end.

Definition isdirempty (dp : nat) : K (fs L) bool :=
  i ← ip_get dp;
  isdirempty_loop (S (Z.to_nat (i_size i))) dp (2 * dirent_size).

Definition sys_unlink_bad (dp : nat) : K (sst L) Z :=
  on_inode (iunlockput dp);;
  end_op;;
  mret (-1).

Definition sys_unlink : K (sst L) Z :=
  path ← arg_path 0;
  match path with
  | None => mret (-1)
  | Some path =>
      begin_op;;
      '(r, name) ← on_inode (nameiparent path (zeroes DIRSIZ));
      match r with
      | None => end_op;; mret (-1)
      | Some dp =>
          on_inode (ilock dp);;
          if (namecmp name dot =? 0) || (namecmp name dotdot =? 0) then sys_unlink_bad dp
          else
            r ← on_inode (dirlookup dp name);
            match r with
            | None => sys_unlink_bad dp
            | Some (ip, off) =>
                on_inode (ilock ip);;
                i ← on_inode (ip_get ip);
                kassert (negb (i_nlink i <? 1)) "unlink: nlink < 1";;
                full ← (if i_type i =? T_DIR then e ← on_inode (isdirempty ip); mret (negb e) else mret false);
                if full : bool then on_inode (iunlockput ip);; sys_unlink_bad dp
                else
                  r ← on_inode (writei devsw_write dp (zeroes dirent_size) off dirent_size);
                  kassert (r =? dirent_size) "unlink: writei";;
                  (if i_type i =? T_DIR then
                     d ← on_inode (ip_get dp);
                     on_inode (ip_mod dp (set_nlink (s16 (i_nlink d - 1))));;
                     on_inode (iupdate dp)
                   else mret tt);;
                  on_inode (iunlockput dp);;
                  i ← on_inode (ip_get ip);
                  on_inode (ip_mod ip (set_nlink (s16 (i_nlink i - 1))));;
                  on_inode (iupdate ip);;
                  on_inode (iunlockput ip);;
                  end_op;;
                  mret 0
            end
      end
  end.

(** ** Creation *)

(** A new file of that type at [path], locked; an existing regular file will do. *)
Definition create (path : list Z) (type major minor : Z) : K (fs L) (option nat) :=
  '(r, name) ← nameiparent path (zeroes DIRSIZ);
  match r with
  | None => mret None
  | Some dp =>
      ilock dp;;
      r ← dirlookup dp name;
      match r with
      | Some (ip, _) =>
          iunlockput dp;;
          ilock ip;;
          i ← ip_get ip;
          if (type =? T_FILE) && (i_type i =? T_FILE) then mret (Some ip)
          else iunlockput ip;; mret None
      | None =>
          d ← ip_get dp;
          ip ← ialloc (i_dev d) type;
          ilock ip;;
          ip_mod ip (set_devno (s16 major) (s16 minor));;
          ip_mod ip (set_nlink 1);;
          iupdate ip;;
          (if type =? T_DIR then
             d ← ip_get dp;
             ip_mod dp (set_nlink (s16 (i_nlink d + 1)));;
             iupdate dp;;
             i ← ip_get ip;
             r1 ← dirlink ip dot (i_inum i);
             kassert (negb (r1 <? 0)) "create dots";;
             d ← ip_get dp;
             r2 ← dirlink ip dotdot (i_inum d);
             kassert (negb (r2 <? 0)) "create dots"
           else mret tt);;
          i ← ip_get ip;
          r ← dirlink dp name (i_inum i);
          kassert (negb (r <? 0)) "create: dirlink";;
          iunlockput dp;;
          mret (Some ip)
      end
  end.

(** [sys_open] from the inode on: a file and a descriptor for it. *)
Definition sys_open_inode (ip : nat) (omode : Z) : K (sst L) Z :=
  o ← on_file filealloc;
  fd ← (match o with Some f => fdalloc f | None => mret (-1) end);
  if fd <? 0 then
    (match o with Some f => on_file (fileclose f) | None => mret tt end);;
    on_inode (iunlockput ip);;
    end_op;;
    mret (-1)
  else
    on_inode (iunlock ip);;
    end_op;;
    on_file (updf (default 0%nat o) (λ f, File FD_INODE (f_ref f)
      (Z.land omode O_WRONLY =? 0)
      (negb (Z.land omode O_WRONLY =? 0) || negb (Z.land omode O_RDWR =? 0)) (f_pipe f) ip 0));;
    mret fd.

Definition sys_open : K (sst L) Z :=
  path ← arg_path 0;
  omode ← arg (λ u, argint u 1);
  match path, omode with
  | Some path, Some omode =>
      begin_op;;
      if negb (Z.land omode O_CREATE =? 0) then
        r ← on_inode (create path T_FILE 0 0);
        match r with
        | None => end_op;; mret (-1)
        | Some ip => sys_open_inode ip omode
        end
      else
        r ← on_inode (namei path);
        match r with
        | None => end_op;; mret (-1)
        | Some ip =>
            on_inode (ilock ip);;
            i ← on_inode (ip_get ip);
            if (i_type i =? T_DIR) && negb (omode =? O_RDONLY) then
              on_inode (iunlockput ip);; end_op;; mret (-1)
            else sys_open_inode ip omode
        end
  | _, _ => mret (-1)
  end.

Definition sys_mkdir : K (sst L) Z :=
  begin_op;;
  path ← arg_path 0;
  r ← (match path with Some path => on_inode (create path T_DIR 0 0) | None => mret None end);
  match r with
  | None => end_op;; mret (-1)
  | Some ip => on_inode (iunlockput ip);; end_op;; mret 0
  end.

Definition sys_mknod : K (sst L) Z :=
  begin_op;;
  path ← arg_path 0;
  major ← arg (λ u, argint u 1);
  minor ← arg (λ u, argint u 2);
  r ← (match path, major, minor with
       | Some path, Some major, Some minor => on_inode (create path T_DEV major minor)
       | _, _, _ => mret None
       end);
  match r with
  | None => end_op;; mret (-1)
  | Some ip => on_inode (iunlockput ip);; end_op;; mret 0
  end.

Definition set_cwd (ip : nat) (s : fs L) : fs L := Fs (f_sb s) (f_inodes s) (f_pid s) ip (f_log s).

Definition sys_chdir : K (sst L) Z :=
  begin_op;;
  path ← arg_path 0;
  r ← (match path with Some path => on_inode (namei path) | None => mret None end);
  match r with
  | None => end_op;; mret (-1)
  | Some ip =>
      on_inode (ilock ip);;
      i ← on_inode (ip_get ip);
      if negb (i_type i =? T_DIR) then on_inode (iunlockput ip);; end_op;; mret (-1)
      else
        on_inode (iunlock ip);;
        cwd ← on_inode (kgets f_cwd);
        on_inode (iput cwd);;
        end_op;;
        on_inode (kmod (set_cwd ip));;
        mret 0
  end.

(** ** Programs *)

(** The loop over the user's [argv], with [k] places left in the kernel's. *)
Fixpoint sys_exec_args (u : uctx) (uargv i : Z) (k : nat) : option (list Z) :=
  match k with
  | O => None
  | S k' =>
      uarg ← fetchint u (u32 (uargv + 4 * i));
      if uarg =? 0 then mret []
      else
        '(p, _) ← fetchstr u (u32 uarg);
        l ← sys_exec_args u uargv (i + 1) k';
        mret (p :: l)
  end.

Definition sys_exec : K (sst L) Z :=
  path ← arg_path 0;
  uargv ← arg (λ u, argint u 1);
  match path, uargv with
  | Some path, Some uargv =>
      argv ← arg (λ u, sys_exec_args u (u32 uargv) 0 MAXARG);
      match argv with
      | None => mret (-1)
      | Some argv => exec path argv
      end
  | _, _ => mret (-1)
  end.

(** ** Pipes *)

Definition sys_pipe : K (sst L) Z :=
  fd ← arg (λ u, argptr u 0 8);
  match fd with
  | None => mret (-1)
  | Some fd =>
      r ← on_file (pipealloc kend log_begin log_end);
      match r with
      | None => mret (-1)
      | Some (rf, wf) =>
          fd0 ← fdalloc rf;
          fd1 ← (if fd0 <? 0 then mret (-1) else fdalloc wf);
          if (fd0 <? 0) || (fd1 <? 0) then
            (if 0 <=? fd0 then kmod (set_ofile (Z.to_nat fd0) None) else mret tt);;
            on_file (fileclose rf);;
            on_file (fileclose wf);;
            mret (-1)
          else
            put_user fd (le32 fd0);;
            put_user (fd + 4) (le32 fd1);;
            mret 0
      end
  end.

End sysfile.
