(* ===== verification/SysfileProps.v ===== *)
(** * File system calls: references to open files

    Every call of [xv6/sysfile.c] keeps the reference counts of the file table equal
    to the number of descriptors, on every path out of the call. *)

From S2P Require Import Prelude Str Mmu Kalloc Bytes Ide Bio Log Trans Fs FsProps Pipe File Syscall Sysfile.

Section refs.
Context {L : Type} `{LogDisk L}.
Context (kend : Z).
Context (devsw_read : Z → option (nat → Z → K (fs L) (Z * list Z))).
Context (devsw_write : Z → option (nat → list Z → Z → K (fs L) Z)).
Context (log_begin log_end : K L unit).

Notation sst := (sst L).
Notation fst := (fst L).

(** ** The descriptors and the reference counts along a call

    [rpost a m Q]: when [m] returns from a state whose descriptors and counts are
    [a], those it leaves satisfy [Q].  [fpost] is the same for code of [File]. *)
Record refs := Refs { r_fd : list (option nat); r_ref : list Z }.

Definition refs_of (s : sst) : refs := Refs (x_ofile s) (f_ref <$> t_file (x_f s)).

Definition rpost {A} (a : refs) (m : K sst A) (Q : A → refs → Prop) : Prop :=
  ∀ s, refs_of s = a → post m (λ r s', Q r (refs_of s')) s.

Definition fpost {A} (l : list Z) (m : K fst A) (Q : A → list Z → Prop) : Prop :=
  ∀ s, f_ref <$> t_file s = l → post m (λ r s', Q r (f_ref <$> t_file s')) s.

Lemma fpost_ret {A} l (x : A) (Q : A → list Z → Prop) : Q x l → fpost l (mret x) Q.
Proof. intros HQ s <-. by apply post_ret. Qed.

Lemma fpost_bind {A B} l (m : K fst A) (f : A → K fst B) Q :
  fpost l m (λ x l', fpost l' (f x) Q) → fpost l (m ≫= f) Q.
Proof. intros Hm s Hs. apply post_bind. eapply post_mono; [by apply Hm|]. intros x s' Hx. by apply Hx. Qed.

Lemma fpost_mono {A} l (m : K fst A) (P Q : A → list Z → Prop) : fpost l m P → (∀ x l', P x l' → Q x l') → fpost l m Q.
Proof. intros Hm HPQ s Hs. eapply post_mono; [by apply Hm|]. intros x s' HP. by apply HPQ. Qed.

Lemma fpost_get l (Q : fst → list Z → Prop) : (∀ s, f_ref <$> t_file s = l → Q s l) → fpost l kget Q.
Proof. intros HQ s Hs. apply post_get. rewrite Hs. by apply HQ. Qed.

Lemma fpost_getf l f (Q : file → list Z → Prop) :
  (∀ x, f_ref x = default 0 (l !! f) → Q x l) → fpost l (getf f) Q.
Proof.
  intros HQ s <-. unfold getf. apply post_gets, HQ. rewrite list_lookup_fmap, list_lookup_total_alt. by destruct (t_file s !! f).
Qed.

Lemma fpost_assert l b msg (Q : unit → list Z → Prop) : (b = true → Q tt l) → fpost l (kassert b msg) Q.
Proof. intros HQ s <-. apply post_assert. auto. Qed.

Lemma fpost_panic {A} l msg (Q : A → list Z → Prop) : fpost l (kpanic msg) Q.
Proof. intros s _. apply post_panic. Qed.

Lemma fpost_hang {A} l (Q : A → list Z → Prop) : fpost l khang Q.
Proof. intros s _. apply post_hang. Qed.

Lemma fpost_fs {A} l (m : K (fs L) A) (Q : A → list Z → Prop) : (∀ x, Q x l) → fpost l (on_fs m) Q.
Proof. intros HQ s <- x s' E. unfold on_fs in E. destruct (m (t_fs s)) as [[]| |]; [|done|done]. injection E as <- <-. apply HQ. Qed.

Lemma fpost_pages {A} l (m : K kst A) (Q : A → list Z → Prop) : (∀ x, Q x l) → fpost l (on_pages m) Q.
Proof. intros HQ s <- x s' E. unfold on_pages in E. destruct (m (t_k s)) as [[]| |]; [|done|done]. injection E as <- <-. apply HQ. Qed.

Lemma fpost_pipe {A} l p (m : K psys A) (Q : A → list Z → Prop) : (∀ x, Q x l) → fpost l (on_pipe p m) Q.
Proof.
  intros HQ s <- x s' E. unfold on_pipe in E. destruct (t_pipes s !! p) as [y|]; [|done].
  destruct (m y) as [[]| |]; [|done|done]. injection E as <- <-. apply HQ.
Qed.

Lemma fpost_pipes l g (Q : unit → list Z → Prop) : Q tt l → fpost l (kmod (set_pipes g)) Q.
Proof. intros HQ s <-. by apply post_mod. Qed.

(** A change of a file that gives it the count [r], or leaves its count alone. *)
Lemma fpost_ref l f r (Q : unit → list Z → Prop) : Q tt (<[f := r]> l) → fpost l (updf f (set_fref r)) Q.
Proof.
  intros HQ s <-. apply post_mod. simpl. assert (E : f_ref <$> alter (set_fref r) f (t_file s) = <[f := r]> (f_ref <$> t_file s)); [|by rewrite E].
  apply list_eq. intros i. rewrite list_lookup_fmap. destruct (decide (i = f)) as [-> |].
  - rewrite list_lookup_alter_eq. destruct (t_file s !! f) as [x|] eqn:E; simpl.
    + rewrite list_lookup_insert_eq; [done|]. rewrite length_fmap. by eapply lookup_lt_Some.
    + rewrite list_insert_ge; [by rewrite list_lookup_fmap, E|]. rewrite length_fmap. by apply lookup_ge_None.
  - rewrite list_lookup_alter_ne, list_lookup_insert_ne by done. by rewrite list_lookup_fmap.
Qed.

Lemma fpost_upd l f g (Q : unit → list Z → Prop) : (∀ x, f_ref (g x) = f_ref x) → Q tt l → fpost l (updf f g) Q.
Proof.
  intros Hg HQ s <-. apply post_mod. simpl. assert (E : f_ref <$> alter g f (t_file s) = f_ref <$> t_file s); [|by rewrite E].
  apply list_eq. intros i. rewrite !list_lookup_fmap. destruct (decide (i = f)) as [-> |].
  - rewrite list_lookup_alter_eq. destruct (t_file s !! f); simpl; by rewrite ?Hg.
  - by rewrite list_lookup_alter_ne.
Qed.

Ltac fstep :=
  match goal with
  | |- fpost _ (mbind _ _) _ => apply fpost_bind
  | |- fpost _ (mret _) _ => apply fpost_ret
  | |- fpost _ (kpanic _) _ => apply fpost_panic
  | |- fpost _ khang _ => apply fpost_hang
  | |- fpost _ kget _ => apply fpost_get; intros ? ?
  | |- fpost _ (getf _) _ => apply fpost_getf; intros ? ?
  | |- fpost _ (kassert _ _) _ => apply fpost_assert; intros ?
  | |- fpost _ (on_fs _) _ => apply fpost_fs; intros ?
  | |- fpost _ (on_pages _) _ => apply fpost_pages; intros ?
  | |- fpost _ (on_pipe _ _) _ => apply fpost_pipe; intros ?
  | |- fpost _ (File.begin_op _) _ => apply fpost_fs; intros ?
  | |- fpost _ (File.end_op _) _ => apply fpost_fs; intros ?
  | |- fpost _ (kmod (set_pipes _)) _ => apply fpost_pipes
  | |- fpost _ (updf _ (set_fref _)) _ => apply fpost_ref
  | |- fpost _ (updf _ _) _ => apply fpost_upd; [done|]
  end.

(** ** The operations of [File] *)

Lemma filealloc_refs l : fpost l filealloc (λ o l',
  match o with Some f => l !! f = Some 0 ∧ l' = <[f := 1]> l | None => l' = l end).
Proof.
  unfold filealloc. fstep. apply fpost_get. intros s Hs. destruct (list_find _ (t_file s)) as [[f x]|] eqn:Ef; [|by repeat fstep].
  apply list_find_Some in Ef as (Hx & Hz & _). repeat fstep. split; [|done]. by rewrite <- Hs, list_lookup_fmap, Hx, <- Hz.
Qed.

Lemma filedup_refs l f : fpost l (filedup f) (λ _ l', ∃ r, l !! f = Some r ∧ l' = <[f := r + 1]> l).
Proof.
  unfold filedup. fstep. apply fpost_getf. intros x Hx. repeat fstep. destruct (l !! f) as [r|]; simpl in Hx.
  - exists r. by rewrite Hx.
  - rewrite Hx in *. done.
Qed.

Lemma fileclose_refs l f : fpost l (fileclose kend log_begin log_end f) (λ _ l',
  ∃ r, l !! f = Some r ∧ 1 ≤ r ∧ l' = <[f := r - 1]> l).
Proof.
  unfold fileclose. fstep. apply fpost_getf. intros x Hx. fstep. apply fpost_assert. intros Hr. do 2 fstep.
  apply negb_true_iff, Z.ltb_ge in Hr. destruct (l !! f) as [r|] eqn:El; simpl in Hx; [|lia].
  destruct (Z.ltb_spec 0 (f_ref x - 1)).
  - fstep. exists r. rewrite Hx in *. split; [done|]. split; [lia|done].
  - do 4 fstep. assert (Hl : ∃ r0, l !! f = Some r0 ∧ 1 ≤ r0 ∧ <[f := 0]> (<[f := f_ref x - 1]> l) = <[f := r0 - 1]> l).
    { exists r. split; [done|]. split; [lia|]. rewrite list_insert_insert_eq. f_equal. lia. }
    rewrite El in Hl. unfold pipe_close. destruct (f_type x); repeat fstep; try done.
    destruct x0; by repeat fstep.
Qed.

Lemma fileread_refs l f n : fpost l (fileread devsw_read f n) (λ _ l', l' = l).
Proof.
  unfold fileread. fstep. apply fpost_getf. intros x Hx. destruct (negb _); [by fstep|]. destruct (f_type x); [by fstep|..].
  - do 4 fstep. destruct x0; by fstep.
  - do 4 fstep. destruct x1 as [r b]. fstep. destruct (0 <? r); by repeat fstep.
Qed.

Lemma filewrite_loop_refs f src n fuel : ∀ l i,
  fpost l (filewrite_loop devsw_write log_begin log_end fuel f src i n) (λ _ l', l' = l).
Proof.
  induction fuel as [|fuel IH]; intros l i; cbn [filewrite_loop]; [by fstep|]. destruct (i <? n); [|by fstep].
  do 8 fstep. fstep. destruct (0 <? x2); repeat fstep; (destruct (x2 <? 0); [by fstep|]; repeat fstep; apply IH).
Qed.

Lemma filewrite_refs l f src n : fpost l (filewrite devsw_write log_begin log_end f src n) (λ _ l', l' = l).
Proof.
  unfold filewrite. fstep. apply fpost_getf. intros x Hx. destruct (negb _); [by fstep|]. destruct (f_type x); [by fstep|..].
  - do 4 fstep. destruct x0; by fstep.
  - fstep. eapply fpost_mono; [apply filewrite_loop_refs|]. intros i l' ->. by fstep.
Qed.

Lemma filestat_refs l f : fpost l (filestat f) (λ _ l', l' = l).
Proof. unfold filestat. fstep. apply fpost_getf. intros x Hx. destruct (f_type x); by repeat fstep. Qed.

Lemma insert_back (l : list Z) r w (a b : Z) : l !! r = Some a → l !! w = Some b → r ≠ w →
  <[w := b]> (<[r := a]> (<[w := 1]> (<[r := 1]> l))) = l.
Proof.
  intros Hr Hw Hne. rewrite (list_insert_insert_ne _ w r) by done. rewrite list_insert_insert_eq.
  rewrite (list_insert_insert_ne _ w r) by done. rewrite list_insert_insert_eq, (list_insert_id l w) by done.
  by apply list_insert_id.
Qed.

(** The two ends, in two entries that were free. *)
Lemma pipealloc_refs l : fpost l (pipealloc kend log_begin log_end) (λ o l',
  match o with
  | Some (r, w) => l !! r = Some 0 ∧ l !! w = Some 0 ∧ r ≠ w ∧ l' = <[w := 1]> (<[r := 1]> l)
  | None => l' = l
  end).
Proof.
  unfold pipealloc. fstep. eapply fpost_mono; [apply filealloc_refs|]. intros [r|] l1; [|intros ->; by fstep].
  intros [Hr ->]. pose proof (lookup_lt_Some _ _ _ Hr) as Hlt. fstep. eapply fpost_mono; [apply filealloc_refs|]. intros [w|] l2.
  - intros [Hw ->]. assert (Hne : r ≠ w) by (intros ->; rewrite list_lookup_insert_eq in Hw by done; done).
    rewrite list_lookup_insert_ne in Hw by done. do 2 fstep. destruct (x =? 0).
    + fstep. eapply fpost_mono; [apply fileclose_refs|]. intros _ l3 (r1 & Hr1 & _ & ->).
      rewrite list_lookup_insert_ne, list_lookup_insert_eq in Hr1 by done. injection Hr1 as <-.
      fstep. eapply fpost_mono; [apply fileclose_refs|]. intros _ l4 (r2 & Hr2 & _ & ->).
      rewrite list_lookup_insert_ne, list_lookup_insert_eq in Hr2 by (rewrite ?length_insert; done || by eapply lookup_lt_Some).
      injection Hr2 as <-. fstep. by apply insert_back.
    + by repeat fstep.
  - intros ->. fstep. eapply fpost_mono; [apply fileclose_refs|]. intros _ l3 (r1 & Hr1 & _ & ->).
    rewrite list_lookup_insert_eq in Hr1 by done. injection Hr1 as <-. fstep. rewrite list_insert_insert_eq.
    by apply list_insert_id.
Qed.

(** ** The system calls, from where the process stands *)

Lemma rpost_ret {A} a (x : A) (Q : A → refs → Prop) : Q x a → rpost a (mret x) Q.
Proof. intros HQ s <-. by apply post_ret. Qed.

Lemma rpost_bind {A B} a (m : K sst A) (f : A → K sst B) Q :
  rpost a m (λ x a', rpost a' (f x) Q) → rpost a (m ≫= f) Q.
Proof. intros Hm s Hs. apply post_bind. eapply post_mono; [by apply Hm|]. intros x s' Hx. by apply Hx. Qed.

Lemma rpost_mono {A} a (m : K sst A) (P Q : A → refs → Prop) : rpost a m P → (∀ x a', P x a' → Q x a') → rpost a m Q.
Proof. intros Hm HPQ s Hs. eapply post_mono; [by apply Hm|]. intros x s' HP. by apply HPQ. Qed.

Lemma rpost_get a (Q : sst → refs → Prop) : (∀ s, refs_of s = a → Q s a) → rpost a kget Q.
Proof. intros HQ s <-. apply post_get. by apply HQ. Qed.

Lemma rpost_gets {A} a (f : sst → A) (Q : A → refs → Prop) : (∀ x, Q x a) → rpost a (kgets f) Q.
Proof. intros HQ s <-. apply post_gets. by apply HQ. Qed.

Lemma rpost_assert a b msg (Q : unit → refs → Prop) : Q tt a → rpost a (kassert b msg) Q.
Proof. intros HQ s <-. apply post_assert. auto. Qed.

Lemma rpost_file {A} l n (m : K fst A) (Q : A → refs → Prop) :
  fpost n m (λ x n', Q x (Refs l n')) → rpost (Refs l n) (on_file m) Q.
Proof.
  intros Hm s [= <- <-] x s' E. unfold on_file in E. destruct (m (x_f s)) as [[y f]| |] eqn:Em; [|done|done].
  injection E as <- <-. by apply (Hm (x_f s) eq_refl y f).
Qed.

Lemma rpost_inode {A} a (m : K (fs L) A) (Q : A → refs → Prop) : (∀ x, Q x a) → rpost a (on_inode m) Q.
Proof. intros HQ. destruct a. apply rpost_file. by fstep. Qed.

Lemma rpost_user a p l (Q : unit → refs → Prop) : Q tt a → rpost a (put_user p l) Q.
Proof. intros HQ s <-. by apply post_mod. Qed.

Lemma rpost_ofile l n fd o (Q : unit → refs → Prop) : Q tt (Refs (<[fd := o]> l) n) → rpost (Refs l n) (kmod (set_ofile fd o)) Q.
Proof. intros HQ s [= <- <-]. by apply post_mod. Qed.

Lemma argfd_refs l n k : rpost (Refs l n) (argfd k) (λ o a,
  a = Refs l n ∧ match o with Some (fd, f) => l !! fd = Some (Some f) | None => True end).
Proof.
  unfold argfd. apply rpost_bind, rpost_gets. intros a. apply rpost_bind, rpost_get. intros s [= <- <-]. apply rpost_ret.
  split; [done|]. destruct a as [fd|]; simpl; [|done]. destruct (_ || _); [done|]. rewrite list_lookup_total_alt.
  destruct (x_ofile s !! Z.to_nat fd) as [[f|]|] eqn:E; done.
Qed.

Lemma fdalloc_refs l n f : rpost (Refs l n) (fdalloc f) (λ fd a,
  (0 ≤ fd ∧ l !! Z.to_nat fd = Some None ∧ a = Refs (<[Z.to_nat fd := Some f]> l) n) ∨ (fd = -1 ∧ a = Refs l n)).
Proof.
  unfold fdalloc. apply rpost_bind, rpost_get. intros s [= <- <-].
  destruct (list_find _ _) as [[fd o]|] eqn:E; [|apply rpost_ret; by right].
  apply list_find_Some in E as (E & -> & _). apply rpost_bind, rpost_ofile, rpost_ret. left. rewrite Nat2Z.id.
  split; [lia|done].
Qed.

Ltac rstep :=
  match goal with
  | |- rpost _ (mbind _ _) _ => apply rpost_bind
  | |- rpost _ (mret _) _ => apply rpost_ret
  | |- rpost _ (arg _) _ => apply rpost_gets; intros ?
  | |- rpost _ (arg_path _) _ => apply rpost_gets; intros ?
  | |- rpost _ (kgets _) _ => apply rpost_gets; intros ?
  | |- rpost _ (kassert _ _) _ => apply rpost_assert
  | |- rpost _ (on_inode _) _ => apply rpost_inode; intros ?
  | |- rpost _ (begin_op _) _ => apply rpost_inode; intros ?
  | |- rpost _ (end_op _) _ => apply rpost_inode; intros ?
  | |- rpost _ (put_user _ _) _ => apply rpost_user
  | |- rpost _ (kmod (set_ofile _ _)) _ => apply rpost_ofile
  | |- rpost _ (match ?x with _ => _ end) _ => destruct x
  end.

(** ** Descriptors and counts agree

    [ext] counts the references to each file from outside the process's table. *)
Definition fd_count (i : nat) (l : list (option nat)) : Z := Z.of_nat (length (filter (λ o, o = Some i) l)).
Definition points_to (o : option nat) (i : nat) : Z := if decide (o = Some i) then 1 else 0.

Definition counted (ext : nat → Z) (a : refs) : Prop :=
  (∀ fd f, r_fd a !! fd = Some (Some f) → (f < length (r_ref a))%nat) ∧
  (∀ i r, r_ref a !! i = Some r → r = ext i + fd_count i (r_fd a)).

Lemma fd_count_insert i fd o old l : l !! fd = Some old →
  fd_count i (<[fd := o]> l) = fd_count i l + points_to o i - points_to old i.
Proof.
  intros Hl. pose proof (lookup_lt_Some _ _ _ Hl) as Hlt. rewrite <- (take_drop_middle l fd old Hl) at 2.
  rewrite insert_take_drop by done. unfold fd_count, points_to. rewrite !filter_app, !length_app.
  rewrite !filter_cons. repeat case_decide; cbn [length]; lia.
Qed.

Lemma fd_count_pos i fd l : l !! fd = Some (Some i) → 1 ≤ fd_count i l.
Proof.
  intros Hl. pose proof (fd_count_insert i fd None _ _ Hl) as E. unfold points_to in E. repeat case_decide; try done.
  unfold fd_count in *. lia.
Qed.

Lemma fd_count_none i l : (∀ fd, l !! fd ≠ Some (Some i)) → fd_count i l = 0.
Proof.
  intros Hno. unfold fd_count. destruct (filter _ l) as [|o l'] eqn:E; [done|].
  assert (Ho : o ∈ filter (λ o, o = Some i) l) by (rewrite E; by left). apply list_elem_of_filter in Ho as [-> Ho].
  apply list_elem_of_lookup in Ho as [fd Hfd]. by destruct (Hno fd).
Qed.

Lemma counted_ext ext ext' a : counted ext a → (∀ i, ext' i = ext i) → counted ext' a.
Proof. intros [H1 H2] He. split; [done|]. intros i r Hi. rewrite He. by apply H2. Qed.

(** The outside takes [d] references to [f]; a descriptor changes hands. *)
Lemma counted_ref ext l n f r d : counted ext (Refs l n) → n !! f = Some r →
  counted (λ i, ext i + d * points_to (Some f) i) (Refs l (<[f := r + d]> n)).
Proof.
  intros [H1 H2] Hf. simpl in *. pose proof (lookup_lt_Some _ _ _ Hf). split; simpl.
  - intros fd g Hg. rewrite length_insert. eauto.
  - intros i r' Hi. unfold points_to. case_decide as E.
    + injection E as <-. rewrite list_lookup_insert_eq in Hi by done. injection Hi as <-. rewrite (H2 f r Hf). lia.
    + rewrite list_lookup_insert_ne in Hi by congruence. rewrite (H2 i r' Hi). lia.
Qed.

Lemma counted_fd ext l n fd o old : counted ext (Refs l n) → l !! fd = Some old →
  (∀ f, o = Some f → (f < length n)%nat) →
  counted (λ i, ext i + points_to old i - points_to o i) (Refs (<[fd := o]> l) n).
Proof.
  intros [H1 H2] Hl Ho. simpl in *. pose proof (lookup_lt_Some _ _ _ Hl). split; simpl.
  - intros fd' f Hf. destruct (decide (fd' = fd)) as [-> |].
    + rewrite list_lookup_insert_eq in Hf by done. apply Ho. by injection Hf.
    + rewrite list_lookup_insert_ne in Hf by done. eauto.
  - intros i r Hi. rewrite (fd_count_insert _ _ _ _ _ Hl), (H2 i r Hi). lia.
Qed.

Lemma counted_room ext l n fd f : counted ext (Refs l n) → l !! fd = Some (Some f) → ∃ r, n !! f = Some r.
Proof. intros [H1 _] Hl. apply lookup_lt_is_Some. by apply (H1 fd). Qed.

(** Reading off the count after some transfers. *)
Ltac settle H :=
  eapply counted_ext; [exact H|]; intros ?; cbn beta; unfold points_to; repeat case_decide; simplify_eq; lia.

Lemma sys_dup_counted ext a : counted ext a → rpost a sys_dup (λ _, counted ext).
Proof.
  destruct a as [l n]. intros Hc. unfold sys_dup. rstep. eapply rpost_mono; [apply argfd_refs|]. intros [[fd f]|] a'.
  2:{ intros [-> _]. by rstep. }
  intros [-> Hf]. destruct (counted_room _ _ _ _ _ Hc Hf) as [r Hr]. rstep. eapply rpost_mono; [apply fdalloc_refs|].
  intros fd' a' [(Hfd & Hl & ->) | [-> ->]]; [|by apply rpost_ret]. destruct (Z.ltb_spec fd' 0); [lia|]. rstep. apply rpost_file.
  eapply fpost_mono; [apply filedup_refs|]. intros _ n' (r' & Hr' & ->). rstep.
  assert (Hin : ∀ g, Some f = Some g → (g < length n)%nat) by (intros g [= <-]; by eapply lookup_lt_Some).
  pose proof (counted_ref _ _ _ f _ 1 (counted_fd _ _ _ _ _ _ Hc Hl Hin) Hr') as H'. settle H'.
Qed.

Lemma sys_close_counted ext a : counted ext a → rpost a (sys_close kend log_begin log_end) (λ _, counted ext).
Proof.
  destruct a as [l n]. intros Hc. unfold sys_close. rstep. eapply rpost_mono; [apply argfd_refs|]. intros [[fd f]|] a'.
  2:{ intros [-> _]. by rstep. }
  intros [-> Hf]. do 3 rstep. apply rpost_file. eapply fpost_mono; [apply fileclose_refs|]. intros _ n' (r & Hr & _ & ->).
  rstep. assert (Hin : ∀ g, None = Some g → (g < length n)%nat) by done.
  pose proof (counted_ref _ _ _ f _ (-1) (counted_fd _ _ _ _ _ _ Hc Hf Hin) Hr) as H'. settle H'.
Qed.

(** Calls that leave descriptors and counts alone. *)
Ltac quiet_call :=
  repeat first [ done | rstep
    | eapply rpost_mono; [apply argfd_refs|]; intros [[??]|] ? [-> ?]
    | apply rpost_file; eapply fpost_mono; [apply fileread_refs|]; intros ? ? ->
    | apply rpost_file; eapply fpost_mono; [apply filewrite_refs|]; intros ? ? ->
    | apply rpost_file; eapply fpost_mono; [apply filestat_refs|]; intros ? ? -> ].

Lemma quiet_calls ext a : counted ext a →
  rpost a (sys_read devsw_read) (λ _, counted ext) ∧
  rpost a (sys_write devsw_write log_begin log_end) (λ _, counted ext) ∧
  rpost a sys_fstat (λ _, counted ext) ∧
  rpost a (sys_link devsw_read devsw_write log_begin log_end) (λ _, counted ext) ∧
  rpost a (sys_unlink devsw_read devsw_write log_begin log_end) (λ _, counted ext) ∧
  rpost a (sys_mkdir devsw_read devsw_write log_begin log_end) (λ _, counted ext) ∧
  rpost a (sys_mknod devsw_read devsw_write log_begin log_end) (λ _, counted ext) ∧
  rpost a (sys_chdir devsw_read log_begin log_end) (λ _, counted ext).
Proof.
  intros Hc. destruct a as [l n].
  unfold sys_read, sys_write, sys_fstat, sys_link, sys_unlink, sys_link_bad, sys_unlink_bad, sys_mkdir, sys_mknod, sys_chdir, put_stat.
  split_and!; quiet_call.
Qed.

Lemma sys_open_inode_counted ext a ip omode : counted ext a → rpost a (sys_open_inode kend log_begin log_end ip omode) (λ _, counted ext).
Proof.
  destruct a as [l n]. intros Hc. unfold sys_open_inode. rstep. apply rpost_file. eapply fpost_mono; [apply filealloc_refs|].
  intros [f|] n'; [|intros ->; cbv beta iota; do 2 rstep; cbn [Z.ltb Z.compare]; by repeat rstep]. intros [Hf ->]. pose proof (lookup_lt_Some _ _ _ Hf) as Hlt.
  pose proof (counted_ref _ _ _ _ _ 1 Hc Hf) as Hc1. rstep. eapply rpost_mono; [apply fdalloc_refs|].
  intros fd a' [(Hfd & Hl & ->) | [-> ->]].
  - destruct (Z.ltb_spec fd 0); [lia|]. do 5 rstep. apply rpost_file. fstep. rstep.
    assert (Hin : ∀ g, Some f = Some g → (g < length (<[f := 1%Z]> n))%nat) by (intros g [= <-]; by rewrite length_insert).
    pose proof (counted_fd _ _ _ _ _ _ Hc1 Hl Hin) as H'. settle H'.
  - cbn [Z.ltb Z.compare]. rstep. apply rpost_file. eapply fpost_mono; [apply fileclose_refs|].
    intros _ n' (r & Hr & _ & ->). do 5 rstep. pose proof (counted_ref _ _ _ _ _ (-1) Hc1 Hr) as H'. settle H'.
Qed.

Lemma sys_open_counted ext a : counted ext a →
  rpost a (sys_open kend devsw_read devsw_write log_begin log_end) (λ _, counted ext).
Proof. intros Hc. unfold sys_open. repeat first [ done | by apply sys_open_inode_counted | rstep ]. Qed.

(** [sys_pipe] gives back the two ends. *)
Lemma close_both ext rf wf a :
  counted (λ i, ext i + 1 * points_to (Some rf) i + 1 * points_to (Some wf) i) a →
  rpost a (on_file (fileclose kend log_begin log_end rf);; on_file (fileclose kend log_begin log_end wf);; mret (-1))
    (λ _, counted ext).
Proof.
  destruct a as [l n]. intros Hc. rstep. apply rpost_file. eapply fpost_mono; [apply fileclose_refs|].
  intros _ n1 (r1 & H1 & _ & ->). pose proof (counted_ref _ _ _ _ _ (-1) Hc H1) as Hc1.
  rstep. apply rpost_file. eapply fpost_mono; [apply fileclose_refs|].
  intros _ n2 (r2 & H2 & _ & ->). rstep. pose proof (counted_ref _ _ _ _ _ (-1) Hc1 H2) as Hc2. settle Hc2.
Qed.

Lemma sys_pipe_counted ext a : counted ext a → rpost a (sys_pipe kend log_begin log_end) (λ _, counted ext).
Proof.
  destruct a as [l n]. intros Hc. unfold sys_pipe. rstep. rstep. rstep; [|by rstep]. rstep. apply rpost_file.
  eapply fpost_mono; [apply pipealloc_refs|].
  intros [[rf wf]|] n'; [|intros ->; by rstep]. intros (Hrf & Hwf & Hne & ->).
  pose proof (lookup_lt_Some _ _ _ Hrf) as Hr. pose proof (lookup_lt_Some _ _ _ Hwf) as Hw.
  pose proof (counted_ref _ _ _ _ _ 1 Hc Hrf) as Hc1. rewrite <- (list_lookup_insert_ne n rf wf (0 + 1)) in Hwf by done.
  pose proof (counted_ref _ _ _ _ _ 1 Hc1 Hwf) as Hc2. change (0 + 1) with 1 in Hc2. revert Hc2.
  assert (Hlen : length (<[wf := 1]> (<[rf := 1]> n)) = length n) by (by rewrite !length_insert).
  revert Hlen. generalize (<[wf := 1]> (<[rf := 1]> n)). intros m Hlen Hc2.
  assert (Hin : ∀ o g, Some o = Some g → (o < length n → g < length m)%nat) by (intros o g [= <-]; by rewrite Hlen).
  rstep. eapply rpost_mono; [apply fdalloc_refs|]. intros fd0 a0 [(Hfd & Hl & ->) | [-> ->]].
  2:{ cbn [Z.ltb Z.leb Z.compare orb]. do 2 rstep. cbn [Z.ltb Z.leb Z.compare orb]. do 2 rstep. by apply close_both. }
  pose proof (counted_fd _ _ _ _ _ _ Hc2 Hl (λ g Hg, Hin _ _ Hg Hr)) as Hc3. destruct (Z.ltb_spec fd0 0); [lia|].
  rstep. eapply rpost_mono; [apply fdalloc_refs|]. intros fd1 a1 [(Hfd1 & Hl1 & ->) | [-> ->]].
  - destruct (Z.ltb_spec fd1 0); [lia|]. cbn [orb]. do 4 rstep. rstep.
    pose proof (counted_fd _ _ _ _ _ _ Hc3 Hl1 (λ g Hg, Hin _ _ Hg Hw)) as Hc4. settle Hc4.
  - cbn [Z.ltb Z.compare orb]. destruct (Z.leb_spec 0 fd0); [|lia]. rstep. rstep.
    assert (Hl2 : <[Z.to_nat fd0 := Some rf]> l !! Z.to_nat fd0 = Some (Some rf)).
    { apply list_lookup_insert_eq. by eapply lookup_lt_Some. }
    assert (Hno : ∀ g, None = Some g → (g < length m)%nat) by done.
    pose proof (counted_fd _ _ _ _ _ _ Hc3 Hl2 Hno) as Hc4. apply close_both. settle Hc4.
Qed.

(** ** Sequences of calls *)

(** A call that returned. *)
Inductive scall : sst → sst → Prop :=
| call_dup s r s' : sys_dup s = Ok (r, s') → scall s s'
| call_read s r s' : sys_read devsw_read s = Ok (r, s') → scall s s'
| call_write s r s' : sys_write devsw_write log_begin log_end s = Ok (r, s') → scall s s'
| call_close s r s' : sys_close kend log_begin log_end s = Ok (r, s') → scall s s'
| call_fstat s r s' : sys_fstat s = Ok (r, s') → scall s s'
| call_link s r s' : sys_link devsw_read devsw_write log_begin log_end s = Ok (r, s') → scall s s'
| call_unlink s r s' : sys_unlink devsw_read devsw_write log_begin log_end s = Ok (r, s') → scall s s'
| call_open s r s' : sys_open kend devsw_read devsw_write log_begin log_end s = Ok (r, s') → scall s s'
| call_mkdir s r s' : sys_mkdir devsw_read devsw_write log_begin log_end s = Ok (r, s') → scall s s'
| call_mknod s r s' : sys_mknod devsw_read devsw_write log_begin log_end s = Ok (r, s') → scall s s'
| call_chdir s r s' : sys_chdir devsw_read log_begin log_end s = Ok (r, s') → scall s s'
| call_pipe s r s' : sys_pipe kend log_begin log_end s = Ok (r, s') → scall s s'
(** The process runs between calls. *)
| call_user s u : scall s (set_u u s).

Lemma scall_counted ext s s' : scall s s' → counted ext (refs_of s) → counted ext (refs_of s').
Proof.
  intros Hs Hc. destruct (quiet_calls _ _ Hc) as (Q1 & Q2 & Q3 & Q4 & Q5 & Q6 & Q7 & Q8).
  destruct Hs as [??? E|??? E|??? E|??? E|??? E|??? E|??? E|??? E|??? E|??? E|??? E|??? E|]; [..|exact Hc].
  - exact (sys_dup_counted _ _ Hc _ eq_refl _ _ E).
  - exact (Q1 _ eq_refl _ _ E).
  - exact (Q2 _ eq_refl _ _ E).
  - exact (sys_close_counted _ _ Hc _ eq_refl _ _ E).
  - exact (Q3 _ eq_refl _ _ E).
  - exact (Q4 _ eq_refl _ _ E).
  - exact (Q5 _ eq_refl _ _ E).
  - exact (sys_open_counted _ _ Hc _ eq_refl _ _ E).
  - exact (Q6 _ eq_refl _ _ E).
  - exact (Q7 _ eq_refl _ _ E).
  - exact (Q8 _ eq_refl _ _ E).
  - exact (sys_pipe_counted _ _ Hc _ eq_refl _ _ E).
Qed.

Lemma counted_held ext s f fd : (∀ i, 0 ≤ ext i) → counted ext (refs_of s) → x_ofile s !! fd = Some (Some f) →
  1 ≤ f_ref (t_file (x_f s) !!! f).
Proof.
  intros He Hc Hl. pose proof (fd_count_pos _ _ _ Hl) as Hp. destruct (counted_room _ _ _ _ _ Hc Hl) as [r Hr].
  pose proof (proj2 Hc f r Hr) as E. simpl in Hr, E. rewrite list_lookup_fmap in Hr.
  destruct (t_file (x_f s) !! f) as [x|] eqn:Ef; [|done]. injection Hr as Hr. specialize (He f).
  rewrite (list_lookup_total_correct _ _ _ Ef). lia.
Qed.

Lemma filedup_runs (s : fst) f : 1 ≤ f_ref (t_file s !!! f) → runs (filedup f) (λ f' _, f' = f) s.
Proof.
  intros Hr. unfold filedup, getf. kstep. kstep. kstep. kstep.
  - apply negb_true_iff, Z.ltb_ge. lia.
  - unfold updf. by repeat kstep.
Qed.

(** What [fileclose] does with the last reference: the entry becomes free, and then the
    pipe end is closed, or the inode is put in a transaction. *)
Definition last_close (x : file) (f : nat) : K fst unit :=
  kmod (set_files (alter (λ y, set_ftype FD_NONE (set_fref 0 y)) f));;
  match f_type x with
  | FD_PIPE => pipe_close kend (f_pipe x) (f_writable x)
  | FD_INODE => File.begin_op log_begin;; on_fs (iput (f_ip x));; File.end_op log_end
  | FD_NONE => mret tt
  end.

Lemma alter_last (l : list file) f r :
  alter (set_ftype FD_NONE) f (alter (set_fref 0) f (alter (set_fref r) f l)) = alter (λ y, set_ftype FD_NONE (set_fref 0 y)) f l.
Proof.
  apply list_eq. intros i. destruct (decide (i = f)) as [-> |].
  - rewrite !list_lookup_alter_eq. by destruct (l !! f).
  - by rewrite !list_lookup_alter_ne.
Qed.

Lemma fileclose_held (s : fst) f x : t_file s !!! f = x → 1 ≤ f_ref x →
  fileclose kend log_begin log_end f s =
    if 1 <? f_ref x then Ok (tt, set_files (alter (set_fref (f_ref x - 1)) f) s) else last_close x f s.
Proof.
  intros Hx Hr. unfold fileclose, last_close, getf, updf. erewrite bind_ok by reflexivity. rewrite Hx.
  unfold kassert. rewrite (proj2 (Z.ltb_ge (f_ref x) 1)) by lia. cbn [negb]. do 2 erewrite bind_ok by reflexivity.
  replace (0 <? f_ref x - 1) with (1 <? f_ref x) by (bdestruct_all; done || lia).
  destruct (1 <? f_ref x); [done|]. cbv zeta. do 2 erewrite bind_ok by reflexivity.
  symmetry. erewrite bind_ok by reflexivity. unfold set_files. cbn [t_file t_pipes t_k t_fs t_killed]. by rewrite alter_last.
Qed.

(** C22. The file table counts references exactly.  Whatever sequence of file system
    calls returns to a process, with success or not, a file's count is the number of the
    process's descriptors for it plus the references [ext] that others hold, which
    no call changes: no error path leaks or drops a reference.  So an entry is free
    for [filealloc] exactly when nobody refers to it, and [filedup] and [fileclose]
    of an open descriptor find it counted, so that their own panics cannot happen:
    [filedup] returns; [fileclose] returns with one reference less when others remain,
    and otherwise frees the entry and goes on to close the pipe end or put the inode. *)
Theorem descriptors_count_references ext s s' :
  (∀ i, 0 ≤ ext i) → counted ext (refs_of s) → rtc scall s s' →
  counted ext (refs_of s') ∧
  (∀ i x, t_file (x_f s') !! i = Some x →
     f_ref x = 0 ↔ (ext i = 0 ∧ ∀ fd, x_ofile s' !! fd ≠ Some (Some i))) ∧
  (∀ fd f, x_ofile s' !! fd = Some (Some f) →
     let x := t_file (x_f s') !!! f in
     1 ≤ f_ref x ∧ runs (filedup f) (λ f' _, f' = f) (x_f s') ∧
     fileclose kend log_begin log_end f (x_f s') =
       if 1 <? f_ref x then Ok (tt, set_files (alter (set_fref (f_ref x - 1)) f) (x_f s'))
       else last_close x f (x_f s')).
Proof.
  intros He H0 Hs. assert (Hc : counted ext (refs_of s')) by (induction Hs; eauto using scall_counted).
  split; [done|]. split.
  - intros i x Hx. assert (E : f_ref x = ext i + fd_count i (x_ofile s')).
    { apply (proj2 Hc). simpl. by rewrite list_lookup_fmap, Hx. }
    rewrite E. specialize (He i). assert (0 ≤ fd_count i (x_ofile s')) by (unfold fd_count; lia). split.
    + intros Hz. split; [lia|]. intros fd Hl. apply fd_count_pos in Hl. lia.
    + intros [-> Hno]. rewrite fd_count_none by done. done.
  - intros fd f Hl x. pose proof (counted_held _ _ _ _ He Hc Hl). auto using filedup_runs, fileclose_held.
Qed.

End refs.

(** ** A process with its three first descriptors on one file *)

Definition sample_file : file := File FD_INODE 3 true true 0 0 0.

(** The first argument of its calls is 3. *)
Definition sample_sst : sst (lst bst) :=
  Sst (Uctx 4096 (st32 ∅ 2004 3) 2000)
    (replicate 3 (Some 0%nat) ++ replicate 13 None)
    (Fst (sample_file :: replicate 99 file0) ∅ (Kst false false (KERNBASE + 8192) ∅) (image_fs (image_inode T_FILE)) false).

#[local] Existing Instance image_disk.

(** The state after a call. *)
Definition after (m : K (sst (lst bst)) Z) (s : sst (lst bst)) : sst (lst bst) :=
  match m s with Ok (_, s') => s' | _ => s end.

(** [pipe], then [dup] of its read end, then [close] of the original. *)
Definition sample_1 := after (sys_pipe (KERNBASE + 4096) (mret tt) (mret tt)) sample_sst.
Definition sample_2 := after sys_dup sample_1.
Definition sample_3 := after (sys_close (KERNBASE + 4096) (mret tt) (mret tt)) sample_2.

Lemma sample_counted : counted (λ _, 0) (refs_of sample_sst).
Proof.
  assert (Hall : Forall (λ i, r_ref (refs_of sample_sst) !! i = Some (0 + fd_count i (r_fd (refs_of sample_sst)))) (seq 0 100)).
  { apply (bool_decide_unpack _). vm_compute. done. }
  split.
  - intros fd f. change (r_fd (refs_of sample_sst)) with (replicate 3 (Some 0%nat) ++ replicate 13 None).
    intros [Hl|Hl]%list_elem_of_lookup_2%elem_of_app; apply elem_of_replicate in Hl as [Hl _]; [|done].
    injection Hl as ->. simpl. lia.
  - intros i r Hi. pose proof (lookup_lt_Some _ _ _ Hi) as Hlt. change (length _) with 100%nat in Hlt. rewrite Forall_forall in Hall.
    rewrite (Hall i) in Hi by (apply elem_of_seq; lia). by injection Hi.
Qed.

Lemma descriptors_count_references_witness :
  take 6 (x_ofile sample_3) = [Some 0; Some 0; Some 0; None; Some 2; Some 1]%nat ∧ counted (λ _, 0) (refs_of sample_3).
Proof.
  split; [by vm_compute|].
  apply (descriptors_count_references (KERNBASE + 4096) no_read no_write (mret tt) (mret tt) (λ _, 0) sample_sst sample_3);
    [done|exact sample_counted|].
  apply (rtc_l _ _ sample_1); [apply (call_pipe _ _ _ _ _ _ 0); vm_compute; reflexivity|].
  apply (rtc_l _ _ sample_2); [apply (call_dup _ _ _ _ _ _ 5); vm_compute; reflexivity|].
  apply rtc_once, (call_close _ _ _ _ _ _ 0). vm_compute; reflexivity.
Defined.
