(* ===== verification/Umalloc.v ===== *)
(** * The user memory allocator: [xv6/umalloc.c]

    Free blocks are on a circular list in address order; each starts with a header.
    [Header] takes 8 bytes and sizes count headers.  [sbrk] is a parameter: what the
    allocator relies on is the class [Sbrk]. *)

From S2P Require Import Prelude Mmu.

(** ** Memory, [freep] and the end of the process *)
Record um := Um {
  m_mem : gmap Z Z;
  m_freep : Z;
  m_brk : Z
}.

Definition sizeof_Header : Z := 8.

Definition set_mem (m : gmap Z Z) (s : um) : um := Um m (m_freep s) (m_brk s).
Definition set_freep (p : Z) (s : um) : um := Um (m_mem s) p (m_brk s).

(** [p->s.ptr] and [p->s.size], read and written. *)
Definition s_ptr (p : Z) : K um Z := kgets (λ s, ld32 (m_mem s) p).
Definition s_size (p : Z) : K um Z := kgets (λ s, ld32 (m_mem s) (p + 4)).
Definition set_ptr (p v : Z) : K um unit := kmod (λ s, set_mem (st32 (m_mem s) p v) s).
Definition set_size (p v : Z) : K um unit := kmod (λ s, set_mem (st32 (m_mem s) (p + 4) v) s).

(** [p + n] for a [Header] pointer. *)
Definition hdr_add (p n : Z) : Z := u32 (p + sizeof_Header * n).

(** What [sbrk] promises for a positive amount: it fails and changes nothing, or it
    returns the old end of the process and moves it, keeping the memory below. *)
Class Sbrk (sbrk : Z → K um Z) := {
  sbrk_spec s n : 0 ≤ n < 2 ^ 31 → mem_ok (m_mem s) →
    runs (sbrk n) (λ r s',
      (r = u32 (-1) ∧ s' = s) ∨
      (r = m_brk s ∧ m_brk s + n ≤ KERNBASE ∧ m_brk s' = m_brk s + n ∧ m_freep s' = m_freep s ∧ mem_ok (m_mem s') ∧
       ∀ a, a < m_brk s → rd (m_mem s') a = rd (m_mem s) a)) s
}.

Section umalloc.
(** The address of [base]. *)
Context (base : Z) (sbrk : Z → K um Z).

(** The list has no more blocks than fit below the end of the process. *)
Definition ring_fuel (s : um) : nat := S (Z.to_nat (m_brk s / 8)).

(** The loop of [free]. *)
Fixpoint free_find (fuel : nat) (bp p : Z) : K um Z :=
  match fuel with
  | O => khang
  | S fuel' =>
      nx ← s_ptr p;
      if (p <? bp) && (bp <? nx) then mret p
      else if (nx <=? p) && ((p <? bp) || (bp <? nx)) then mret p
      else free_find fuel' bp nx
  end.

(** The two joins of [free]. *)
Definition free_upper (bp p : Z) : K um unit :=
  sz ← s_size bp;
  nx ← s_ptr p;
  if hdr_add bp sz =? nx then
    nsz ← s_size nx;
    set_size bp (u32 (sz + nsz));;
    nnx ← s_ptr nx;
    set_ptr bp nnx
  else set_ptr bp nx.

Definition free_lower (bp p : Z) : K um unit :=
  psz ← s_size p;
  if hdr_add p psz =? bp then
    bsz ← s_size bp;
    set_size p (u32 (psz + bsz));;
    bnx ← s_ptr bp;
    set_ptr p bnx
  else set_ptr p bp.

Definition free (ap : Z) : K um unit :=
  let bp := hdr_add ap (-1) in
  s ← kget;
  p ← free_find (ring_fuel s) bp (m_freep s);
  free_upper bp p;;
  free_lower bp p;;
  kmod (set_freep p).

Definition morecore (nu : Z) : K um Z :=
  let nu := if nu <? 4096 then 4096 else nu in
  p ← sbrk (s32 (u32 (nu * sizeof_Header)));
  if p =? u32 (-1) then mret 0
  else
    set_size p nu;;
    free (hdr_add p 1);;
    kgets m_freep.

(** [malloc] found the block [p], of size [sz], after [prevp]. *)
Definition malloc_take (nunits prevp p sz : Z) : K um Z :=
  p' ← (if sz =? nunits then
          nx ← s_ptr p;
          set_ptr prevp nx;;
          mret p
        else
          set_size p (u32 (sz - nunits));;
          sz' ← s_size p;
          let p' := hdr_add p sz' in
          set_size p' nunits;;
          mret p');
  kmod (set_freep prevp);;
  mret (hdr_add p' 1).

(** The loop of [malloc]. *)
Fixpoint malloc_loop (fuel : nat) (nunits prevp p : Z) : K um Z :=
  match fuel with
  | O => khang
  | S fuel' =>
      sz ← s_size p;
      if nunits <=? sz then malloc_take nunits prevp p sz
      else
        s ← kget;
        if p =? m_freep s then
          q ← morecore nunits;
          if q =? 0 then mret 0
          else
            nx ← s_ptr q;
            malloc_loop fuel' nunits q nx
        else
          nx ← s_ptr p;
          malloc_loop fuel' nunits p nx
  end.

Definition malloc_units (nbytes : Z) : Z := u32 (u32 (nbytes + sizeof_Header - 1) / sizeof_Header + 1).

Definition malloc (nbytes : Z) : K um Z :=
  let nunits := malloc_units nbytes in
  f ← kgets m_freep;
  (if f =? 0 then
     set_ptr base base;;
     kmod (set_freep base);;
     set_size base 0
   else mret tt);;
  s ← kget;
  let prevp := m_freep s in
  p ← s_ptr prevp;
  malloc_loop (2 * ring_fuel s) nunits prevp p.

End umalloc.
