(* ===== verification/UmallocProps.v ===== *)
(** * The user memory allocator: what it promises

    The heap is a row of blocks without gaps; [umalloc.c] implements it with headers
    in memory and a circular list. *)

From stdpp Require Import sorting.
From S2P Require Import Prelude Mmu Umalloc.

(** ** The heap as a row of blocks

    A block has a size in headers and is free or in use. *)
Definition tile : Type := Z * bool.

Fixpoint units (h : list tile) : Z :=
  match h with [] => 0 | (n, _) :: h' => n + units h' end.

(** The blocks that are free, and those in use, of a row that starts at [a]. *)
Fixpoint frees (a : Z) (h : list tile) : list (Z * Z) :=
  match h with
  | [] => []
  | (n, f) :: h' => (if f : bool then [(a, n)] else []) ++ frees (a + 8 * n) h'
  end.

Fixpoint useds (a : Z) (h : list tile) : list (Z * Z) :=
  match h with
  | [] => []
  | (n, f) :: h' => (if f : bool then [] else [(a, n)]) ++ useds (a + 8 * n) h'
  end.

Definition sized (h : list tile) : Prop := Forall (λ t, 0 < t.1) h.

(** No two free blocks are neighbours. *)
Definition head_free (h : list tile) : bool := match h with (_, f) :: _ => f | [] => false end.

Fixpoint coalesced (h : list tile) : bool :=
  match h with [] => true | (_, f) :: h' => negb (f && head_free h') && coalesced h' end.

Definition last_free (h : list tile) : bool := match last h with Some (_, f) => f | None => false end.

Lemma units_app h1 h2 : units (h1 ++ h2) = units h1 + units h2.
Proof. induction h1 as [|[n f] h1 IH]; simpl; lia. Qed.

Lemma frees_app a h1 h2 : frees a (h1 ++ h2) = frees a h1 ++ frees (a + 8 * units h1) h2.
Proof.
  revert a. induction h1 as [|[n f] h1 IH]; intros a; simpl; [by rewrite Z.add_0_r|].
  rewrite IH, (assoc (++)). do 2 f_equal. lia.
Qed.

Lemma useds_app a h1 h2 : useds a (h1 ++ h2) = useds a h1 ++ useds (a + 8 * units h1) h2.
Proof.
  revert a. induction h1 as [|[n f] h1 IH]; intros a; simpl; [by rewrite Z.add_0_r|].
  rewrite IH, (assoc (++)). do 2 f_equal. lia.
Qed.

Lemma units_nonneg h : sized h → 0 ≤ units h.
Proof. induction 1 as [|[n f] h Hn _ IH]; simpl in *; lia. Qed.

Lemma frees_in a h p n : sized h → (p, n) ∈ frees a h → a ≤ p ∧ 0 < n ∧ p + 8 * n ≤ a + 8 * units h.
Proof.
  intros Hs. revert a. induction Hs as [|[k f] h Hk Hs IH]; intros a; simpl; [by intros ?%not_elem_of_nil|].
  pose proof (units_nonneg h Hs). simpl in Hk. intros [Hf|Hin]%elem_of_app.
  - destruct f; [|by apply not_elem_of_nil in Hf]. apply list_elem_of_singleton in Hf as [= -> ->]. lia.
  - apply IH in Hin. lia.
Qed.

Lemma useds_in a h p n : sized h → (p, n) ∈ useds a h → a ≤ p ∧ 0 < n ∧ p + 8 * n ≤ a + 8 * units h.
Proof.
  intros Hs. revert a. induction Hs as [|[k f] h Hk Hs IH]; intros a; simpl; [by intros ?%not_elem_of_nil|].
  pose proof (units_nonneg h Hs). simpl in Hk. intros [Hf|Hin]%elem_of_app.
  - destruct f; [by apply not_elem_of_nil in Hf|]. apply list_elem_of_singleton in Hf as [= -> ->]. lia.
  - apply IH in Hin. lia.
Qed.

(** Where a free or a used block is in the row. *)
Lemma frees_split a h F1 F2 p n : frees a h = F1 ++ (p, n) :: F2 →
  ∃ h1 h2, h = h1 ++ (n, true) :: h2 ∧ p = a + 8 * units h1 ∧ frees a h1 = F1 ∧ frees (p + 8 * n) h2 = F2.
Proof.
  revert a F1. induction h as [|[k f] h IH]; intros a F1; simpl; [by destruct F1|].
  destruct f; simpl.
  - destruct F1 as [|x F1]; intros [= E1 E2].
    + subst. exists [], h. simpl. split; [done|]. split; [lia|]. done.
    + apply IH in E2 as (h1 & h2 & -> & -> & <- & <-). exists ((k, true) :: h1), h2. simpl. subst x.
      split; [done|]. split; [lia|]. done.
  - intros E. apply IH in E as (h1 & h2 & -> & -> & <- & <-). exists ((k, false) :: h1), h2. simpl.
    split; [done|]. split; [lia|]. done.
Qed.

Lemma useds_split a h p n : (p, n) ∈ useds a h →
  ∃ h1 h2, h = h1 ++ (n, false) :: h2 ∧ p = a + 8 * units h1.
Proof.
  revert a. induction h as [|[k f] h IH]; intros a; simpl; [by intros ?%not_elem_of_nil|].
  intros [Hf|Hin]%elem_of_app.
  - destruct f; [by apply not_elem_of_nil in Hf|]. apply list_elem_of_singleton in Hf as [= -> ->].
    exists [], h. simpl. split; [done|lia].
  - apply IH in Hin as (h1 & h2 & -> & ->). exists ((k, f) :: h1), h2. simpl. split; [done|lia].
Qed.

Lemma sized_app h1 h2 : sized (h1 ++ h2) ↔ sized h1 ∧ sized h2.
Proof. apply Forall_app. Qed.

Lemma frees_sorted a h : sized h → StronglySorted (λ x y, x.1 + 8 ≤ y.1) (frees a h).
Proof.
  intros Hs. revert a. induction Hs as [|[k f] h Hk Hs IH]; intros a; simpl; [constructor|].
  destruct f; simpl; [|apply IH]. constructor; [apply IH|]. apply Forall_forall. intros [p n] Hin.
  apply frees_in in Hin; [|done]. simpl in *. lia.
Qed.

Lemma coalesced_app h1 h2 :
  coalesced (h1 ++ h2) = coalesced h1 && coalesced h2 && negb (last_free h1 && head_free h2).
Proof.
  induction h1 as [|[n f] h1 IH]; simpl; [by rewrite andb_true_r|]. rewrite IH. unfold last_free.
  destruct h1 as [|[n' f'] h1]; simpl; [|by destruct (negb (f && f')), (coalesced _), (coalesced h2)].
  destruct f, (head_free h2), (coalesced h2); done.
Qed.

(** All blocks free: there is at most one. *)
Lemma coalesced_all_free h a : coalesced h = true → useds a h = [] → (length h ≤ 1)%nat.
Proof.
  destruct h as [|[n f] [|[n' f'] h]]; simpl; [lia|lia|]. destruct f, f'; simpl; try done.
Qed.

(** ** Headers in memory *)

Definition head_addr (l : list (Z * Z)) (z : Z) : Z := match l with (a, _) :: _ => a | [] => z end.

(** The blocks [l] are linked in this order and the last one leads to [z]. *)
Fixpoint seg (m : gmap Z Z) (l : list (Z * Z)) (z : Z) : Prop :=
  match l with
  | [] => True
  | (a, n) :: l' => ld32 m a = head_addr l' z ∧ ld32 m (a + 4) = n ∧ seg m l' z
  end.

Lemma seg_app m l1 l2 z : seg m (l1 ++ l2) z ↔ seg m l1 (head_addr l2 z) ∧ seg m l2 z.
Proof.
  induction l1 as [|[a n] l1 IH]; simpl; [tauto|]. rewrite IH.
  assert (head_addr (l1 ++ l2) z = head_addr l1 (head_addr l2 z)) as -> by (by destruct l1). tauto.
Qed.

Lemma head_addr_app l1 l2 z : head_addr (l1 ++ l2) z = head_addr l1 (head_addr l2 z).
Proof. by destruct l1. Qed.

Lemma seg_size m l z a n : seg m l z → (a, n) ∈ l → ld32 m (a + 4) = n.
Proof.
  induction l as [|[a' n'] l IH]; [by intros _ ?%not_elem_of_nil|]. intros (_ & E & Hl) [[= -> ->] | Hin]%elem_of_cons; auto.
Qed.

(** A memory that keeps the headers keeps the list. *)
Lemma seg_ext m m' l z : seg m l z → (∀ a n b, (a, n) ∈ l → a ≤ b < a + 8 → rd m' b = rd m b) → seg m' l z.
Proof.
  induction l as [|[a n] l IH]; simpl; [done|]. intros (H1 & H2 & H3) Hm. split_and!.
  - rewrite <- H1. apply ld32_ext. intros; apply (Hm a n); [by left|lia].
  - rewrite <- H2. apply ld32_ext. intros; apply (Hm a n); [by left|lia].
  - apply IH; [done|]. intros a' n' b Hin. apply (Hm a' n'). by right.
Qed.

Lemma seg_st32 m l z x v : seg m l z → (∀ a n, (a, n) ∈ l → a + 8 ≤ x ∨ x + 4 ≤ a) → seg (st32 m x v) l z.
Proof.
  intros Hs Hd. eapply seg_ext; [done|]. intros a n b Hin Hb. specialize (Hd a n Hin).
  rewrite rd_st32. bdestruct_all; simpl; lia || done.
Qed.

Lemma rd_header m p v n b : b < p ∨ p + 8 ≤ b → rd (st32 (st32 m (p + 4) n) p v) b = rd m b.
Proof. intros Hb. rewrite !rd_st32. bdestruct_all; lia || done. Qed.

Lemma ld_header m p v n : 0 ≤ v < 2 ^ 32 → 0 ≤ n < 2 ^ 32 →
  ld32 (st32 (st32 m (p + 4) n) p v) p = v ∧ ld32 (st32 (st32 m (p + 4) n) p v) (p + 4) = n.
Proof. intros Hv Hn. by rewrite ld32_st32_eq, ld32_st32_ne, ld32_st32_eq, !u32_small by lia. Qed.

Section allocator.
Context (base : Z) (sbrk : Z → K um Z) `{!Sbrk sbrk}.
(** Where the heap starts, above [base]. *)
Context (h0 : Z) (Hbase : 0 < base) (Hh0 : base + 8 ≤ h0) (Hal : h0 mod 8 = 0).
Notation free_find := free_find.

Definition ring (h : list tile) : list (Z * Z) := (base, 0) :: frees h0 h.
#[local] Arguments ring : simpl never.

Record uinv (s : um) (h : list tile) : Prop := {
  ui_mem : mem_ok (m_mem s);
  ui_sized : sized h;
  ui_coal : coalesced h = true;
  ui_brk : m_brk s = h0 + 8 * units h;
  ui_top : m_brk s ≤ KERNBASE;
  ui_ring : seg (m_mem s) (ring h) base;
  ui_used : ∀ a n, (a, n) ∈ useds h0 h → ld32 (m_mem s) (a + 4) = n;
  ui_freep : m_freep s ∈ (ring h).*1
}.

Lemma ring_sorted h : sized h → StronglySorted (λ x y : Z * Z, x.1 + 8 ≤ y.1) (ring h).
Proof.
  intros Hs. constructor; [by apply frees_sorted|]. apply Forall_forall. intros [p n] Hin.
  apply frees_in in Hin; [|done]. simpl. lia.
Qed.

Lemma ring_app h1 h2 : ring (h1 ++ h2) = ring h1 ++ frees (h0 + 8 * units h1) h2.
Proof. unfold ring. by rewrite frees_app. Qed.

Lemma length_ring s h : uinv s h → (length (ring h) < ring_fuel s)%nat.
Proof.
  intros Hi. unfold ring_fuel, ring. simpl. apply le_n_S. pose proof (ui_brk _ _ Hi). pose proof (ui_sized _ _ Hi) as Hs.
  assert (Hl : ∀ a h', sized h' → Z.of_nat (length (frees a h')) ≤ units h').
  { intros a h' Hs'. revert a. induction Hs' as [|[n f] h' Hn _ IH]; intros a; simpl; [lia|]. rewrite length_app.
    specialize (IH (a + 8 * n)). simpl in Hn. destruct f; simpl; lia. }
  specialize (Hl h0 h Hs). assert (units h + 1 ≤ m_brk s / 8) by (apply Z.div_le_lower_bound; lia). lia.
Qed.

(** ** [free] finds its place

    The block [bp] in use lies above the blocks [l1] and below the blocks [l2]. *)
Record between (m : gmap Z Z) (bp : Z) (l1 l2 : list (Z * Z)) : Prop := {
  bt_seg : seg m (l1 ++ l2) base;
  bt_sorted : StronglySorted (λ x y : Z * Z, x.1 + 8 ≤ y.1) (l1 ++ l2);
  bt_base : base < bp;
  bt_lower : Forall (λ x : Z * Z, base ≤ x.1 ∧ x.1 + 8 ≤ bp) l1;
  bt_upper : Forall (λ x : Z * Z, bp + 8 ≤ x.1) l2
}.

Lemma find_lower s bp l1 l2 : between (m_mem s) bp l1 l2 → ∀ y x p n fuel, l1 = x ++ (p, n) :: y → (length y < fuel)%nat →
  ∃ q k x', l1 = x' ++ [(q, k)] ∧ free_find fuel bp p s = Ok (q, s).
Proof.
  intros [Hseg Hsort Hb H1 H2]. induction y as [|[p' n'] y IH]; intros x p n [|fuel] -> Hf; try (simpl in Hf; lia); cbn [free_find];
    rewrite <- (assoc (++)) in Hseg; pose proof (proj2 (proj1 (seg_app _ _ _ _) Hseg)) as Hp; simpl in Hp; destruct Hp as (E & _).
  - exists p, n, x. split; [done|]. apply Forall_app in H1 as [_ H1]. apply Forall_cons in H1 as [H1 _]. simpl in H1.
    rewrite (bind_ok _ _ s (head_addr l2 base) s) by (unfold s_ptr, kgets; by rewrite E).
    assert (Hn : bp < head_addr l2 base ∨ head_addr l2 base = base).
    { destruct l2 as [|[q k] l2]; [by right|]. left. apply Forall_cons in H2 as [? _]. simpl in *. lia. }
    destruct Hn as [Hn | ->].
    + assert ((p <? bp) && (bp <? head_addr l2 base) = true) as -> by lia. done.
    + assert ((p <? bp) && (bp <? base) = false) as -> by lia.
      assert ((base <=? p) && ((p <? bp) || (bp <? base)) = true) as -> by lia. done.
  - rewrite (bind_ok _ _ s p' s) by (unfold s_ptr, kgets; by rewrite E).
    apply Forall_app in H1 as [H0 H1]. apply Forall_cons in H1 as [_ H1]. pose proof H1 as [Hp' _]%Forall_cons. simpl in Hp'.
    assert ((p <? bp) && (bp <? p') = false) as -> by lia.
    assert (Hlt : p < p').
    { rewrite <- (assoc (++)) in Hsort. apply StronglySorted_app_1_r in Hsort. simpl in Hsort.
      apply StronglySorted_inv in Hsort as [_ Hsort]. apply Forall_cons in Hsort as [? _]. simpl in *. lia. }
    assert ((p' <=? p) && ((p <? bp) || (bp <? p')) = false) as -> by lia.
    apply (IH (x ++ [(p, n)]) p' n' fuel); [by rewrite <- (assoc (++))|simpl in Hf; lia].
Qed.

Lemma find_upper s bp l1 l2 : between (m_mem s) bp l1 l2 → ∀ y x p n fuel, l2 = x ++ (p, n) :: y → (length y < fuel)%nat →
  free_find fuel bp p s = free_find (fuel - S (length y)) bp base s.
Proof.
  intros [Hseg Hsort Hb H1 H2]. induction y as [|[p' n'] y IH]; intros x p n [|fuel] -> Hf; try (simpl in Hf; lia); cbn [free_find];
    rewrite (assoc (++)) in Hseg; pose proof (proj2 (proj1 (seg_app _ _ _ _) Hseg)) as Hp; simpl in Hp; destruct Hp as (E & _);
    apply Forall_app in H2 as [_ H2]; apply Forall_cons in H2 as [Hpb H2]; simpl in Hpb.
  - rewrite (bind_ok _ _ s base s) by (unfold s_ptr, kgets; by rewrite E).
    assert ((p <? bp) && (bp <? base) = false) as -> by lia.
    assert ((base <=? p) && ((p <? bp) || (bp <? base)) = false) as -> by lia.
    cbn [length]. by replace (S fuel - 1)%nat with fuel by lia.
  - rewrite (bind_ok _ _ s p' s) by (unfold s_ptr, kgets; by rewrite E).
    assert (Hlt : p < p').
    { rewrite (assoc (++)) in Hsort. apply StronglySorted_app_1_r, StronglySorted_inv in Hsort as [_ Hsort].
      apply Forall_cons in Hsort as [? _]. simpl in *. lia. }
    assert ((p <? bp) && (bp <? p') = false) as -> by lia.
    assert ((p' <=? p) && ((p <? bp) || (bp <? p')) = false) as -> by lia.
    rewrite (IH (x ++ [(p, n)]) p' n' fuel); [done|by rewrite <- (assoc (++))|simpl in Hf; lia].
Qed.

Lemma find_ok s bp l1 l2 fuel : between (m_mem s) bp ((base, 0) :: l1) l2 →
  m_freep s ∈ (((base, 0) :: l1) ++ l2).*1 → (length (((base, 0%Z) :: l1) ++ l2) ≤ fuel)%nat →
  ∃ q k x, (base, 0) :: l1 = x ++ [(q, k)] ∧ free_find fuel bp (m_freep s) s = Ok (q, s).
Proof.
  intros Hb Hp Hf. rewrite length_app in Hf. apply list_elem_of_fmap in Hp as ([p n] & -> & [Hp|Hp]%elem_of_app).
  - apply list_elem_of_split in Hp as (x & y & E). apply (find_lower s bp _ l2 Hb y x p n); [done|].
    rewrite E, length_app in Hf. simpl in Hf. lia.
  - apply list_elem_of_split in Hp as (x & y & E). simpl. rewrite (find_upper s bp _ l2 Hb y x p n); [|done|].
    + apply (find_lower s bp _ l2 Hb l1 [] base 0); [done|]. rewrite E, length_app in Hf. simpl in Hf. lia.
    + rewrite E, length_app in Hf. simpl in Hf. lia.
Qed.

(** A block in use, in the row. *)
Lemma used_between s h1 n h2 : let bp := h0 + 8 * units h1 in
  uinv s (h1 ++ (n, false) :: h2) → between (m_mem s) bp (ring h1) (frees (bp + 8 * n) h2).
Proof.
  intros bp Hi. pose proof (ui_ring _ _ Hi) as Hr. pose proof (ring_sorted _ (ui_sized _ _ Hi)) as Hs.
  pose proof (ui_sized _ _ Hi) as [H1 Hn]%sized_app. apply Forall_cons in Hn as [Hn H2]. simpl in Hn.
  rewrite ring_app in Hr, Hs. simpl in Hr, Hs. fold bp in Hr, Hs. pose proof (units_nonneg _ H1). split; [done|done|lia|..].
  - constructor; [simpl; lia|]. apply Forall_forall. intros [p k] Hin. apply frees_in in Hin; [|done]. simpl. lia.
  - apply Forall_forall. intros [p k] Hin. apply frees_in in Hin; [|done]. simpl. lia.
Qed.

Lemma free_used_apart a h p k b j : sized h → (p, k) ∈ frees a h → (b, j) ∈ useds a h → p + 8 * k ≤ b ∨ b + 8 * j ≤ p.
Proof.
  intros Hs. revert a. induction Hs as [|[n f] h Hn Hs IH]; intros a; simpl; [by intros ?%not_elem_of_nil|].
  simpl in Hn. intros [H1|H1]%elem_of_app [H2|H2]%elem_of_app.
  - destruct f; by apply not_elem_of_nil in H1 || apply not_elem_of_nil in H2.
  - apply useds_in in H2; [|done]. destruct f; [|by apply not_elem_of_nil in H1]. apply list_elem_of_singleton in H1 as [= -> ->]. lia.
  - apply frees_in in H1; [|done]. destruct f; [by apply not_elem_of_nil in H2|]. apply list_elem_of_singleton in H2 as [= -> ->]. lia.
  - by apply (IH (a + 8 * n)).
Qed.

Lemma ring_used_apart h p k b j : sized h → (p, k) ∈ ring h → (b, j) ∈ useds h0 h → p + 8 ≤ b ∨ b + 8 * j ≤ p.
Proof.
  intros Hs [[= -> ->] | Hp]%elem_of_cons Hu.
  - apply useds_in in Hu; [|done]. lia.
  - pose proof (frees_in _ _ _ _ Hs Hp). destruct (free_used_apart _ _ _ _ _ _ Hs Hp Hu); lia.
Qed.

(** ** The joins *)

(** What a freed block becomes with its upper and its lower neighbour. *)
Definition join_right (n : Z) (h2 : list tile) : Z * list tile :=
  match h2 with (k, true) :: h2' => (n + k, h2') | _ => (n, h2) end.

Definition join_left (h1 : list tile) (n : Z) : list tile :=
  match reverse h1 with (k, true) :: r => reverse r ++ [(k + n, true)] | _ => h1 ++ [(n, true)] end.

Definition freed (h1 : list tile) (n : Z) (h2 : list tile) : list tile :=
  let '(n', h2') := join_right n h2 in join_left h1 n' ++ h2'.

Lemma upper_ok s h1 n h2 x q k : let bp := h0 + 8 * units h1 in let '(n', h2') := join_right n h2 in
  uinv s (h1 ++ (n, false) :: h2) → ring h1 = x ++ [(q, k)] →
  runs (free_upper bp q) (λ _ s', ∃ m, s' = set_mem m s ∧ mem_ok m ∧
    ld32 m bp = head_addr (frees (bp + 8 * n') h2') base ∧ ld32 m (bp + 4) = n' ∧
    ∀ b, b < bp ∨ bp + 8 ≤ b → rd m b = rd (m_mem s) b) s.
Proof.
  intros bp. destruct (join_right n h2) as [n' h2'] eqn:Ej. intros Hi Hx.
  pose proof (ui_sized _ _ Hi) as [H1 Hn]%sized_app. apply Forall_cons in Hn as [Hn H2]. simpl in Hn.
  pose proof (bt_seg _ _ _ _ (used_between _ _ _ _ Hi)) as Hseg. fold bp in Hseg. rewrite Hx, <- (assoc (++)) in Hseg.
  apply seg_app in Hseg as [_ [Eq [_ Hup]]]. simpl in Hup, Eq.
  pose proof (ui_brk _ _ Hi) as Hbrk. pose proof (ui_top _ _ Hi) as Htop. unfold KERNBASE in Htop. rewrite units_app in Hbrk. simpl in Hbrk.
  pose proof (units_nonneg _ H1). pose proof (units_nonneg _ H2).
  assert (En : ld32 (m_mem s) (bp + 4) = n).
  { apply (ui_used _ _ Hi bp). rewrite useds_app. apply elem_of_app. right. simpl. by left. }
  unfold free_upper, s_size, s_ptr. kstep. kstep. kstep. kstep. rewrite En, Eq.
  unfold hdr_add, sizeof_Header. rewrite u32_small by (subst bp; lia).
  assert (Hnx : ∀ a h', sized h' → base ≤ a → a + 8 * units h' ≤ m_brk s → 0 ≤ head_addr (frees a h') base < 2 ^ 32).
  { intros a h' Hs' Ha Hb. destruct (frees a h') as [|[p j] F] eqn:E; simpl; [lia|].
    assert (Hin : (p, j) ∈ frees a h') by (rewrite E; by left). apply frees_in in Hin; [|done]. lia. }
  destruct (bool_decide (head_free h2 = true)) eqn:Ef.
  - apply bool_decide_eq_true in Ef. destruct h2 as [|[j []] h2]; try done. injection Ej as <- <-. simpl in *.
    apply Forall_cons in H2 as [Hj H2]. simpl in Hj. pose proof (units_nonneg _ H2). rewrite Z.eqb_refl. destruct Hup as (Ep & Es & _).
    kstep. kstep. rewrite Es. kstep. unfold set_size. kstep. kstep. kstep. unfold set_ptr. kstep. simpl.
    rewrite ld32_st32_ne, Ep, u32_small by lia. eexists. split; [reflexivity|].
    replace (bp + 8 * (n + j)) with (bp + 8 * n + 8 * j) by lia.
    destruct (ld_header (m_mem s) bp (head_addr (frees (bp + 8 * n + 8 * j) h2) base) (n + j)) as [E1 E2]; [apply Hnx; [done|lia..]|lia|].
    split; [by apply mem_ok_st32, mem_ok_st32, (ui_mem _ _ Hi)|]. split; [done|]. split; [done|]. intros b Hb. by apply rd_header.
  - apply bool_decide_eq_false in Ef. assert (n' = n ∧ h2' = h2) as [-> ->] by (destruct h2 as [|[j []] h2]; by simplify_eq/=).
    assert (Hne : bp + 8 * n ≠ head_addr (frees (bp + 8 * n) h2) base).
    { destruct h2 as [|[j []] h2]; simpl in *; [lia|done|]. apply Forall_cons in H2 as [Hj H2]. simpl in Hj.
      destruct (frees _ h2) as [|[p i] F] eqn:E; simpl; [lia|].
      assert (Hin : (p, i) ∈ frees (bp + 8 * n + 8 * j) h2) by (rewrite E; by left). apply frees_in in Hin; [|done]. lia. }
    apply Z.eqb_neq in Hne as ->. unfold set_ptr. kstep. eexists. split; [reflexivity|].
    split; [by apply mem_ok_st32, (ui_mem _ _ Hi)|]. rewrite ld32_st32_eq, u32_small by (apply Hnx; [done|lia..]).
    split; [done|]. rewrite ld32_st32_ne by lia. split; [done|]. intros b Hb. rewrite rd_st32. bdestruct_all; lia || done.
Qed.

Lemma lower_ok s bp q k v n : mem_ok (m_mem s) → 0 ≤ q → q + 8 ≤ bp → 0 ≤ k → q + 8 * k ≤ bp → 0 ≤ n → bp + 8 * n ≤ KERNBASE →
  0 ≤ v < 2 ^ 32 → ld32 (m_mem s) (q + 4) = k → ld32 (m_mem s) bp = v → ld32 (m_mem s) (bp + 4) = n →
  runs (free_lower bp q) (λ _ s', ∃ m, s' = set_mem m s ∧ mem_ok m ∧
    ld32 m q = (if q + 8 * k =? bp then v else bp) ∧ ld32 m (q + 4) = (if q + 8 * k =? bp then k + n else k) ∧
    ∀ b, b < q ∨ q + 8 ≤ b → rd m b = rd (m_mem s) b) s.
Proof.
  unfold KERNBASE. intros Hm Hq Hqb Hk Hkb Hn Htop Hv Ek Ev En. unfold free_lower, s_size, s_ptr, set_ptr, set_size.
  kstep. kstep. rewrite Ek. unfold hdr_add, sizeof_Header. rewrite u32_small by lia. destruct (Z.eqb_spec (q + 8 * k) bp).
  - kstep. kstep. rewrite En. kstep. kstep. kstep. kstep. kstep. simpl. rewrite ld32_st32_ne, Ev, u32_small by lia.
    eexists. split; [reflexivity|]. destruct (ld_header (m_mem s) q v (k + n)) as [E1 E2]; [lia|lia|].
    split; [by apply mem_ok_st32, mem_ok_st32|]. split; [done|]. split; [done|]. intros b Hb. by apply rd_header.
  - kstep. eexists. split; [reflexivity|]. split; [by apply mem_ok_st32|].
    rewrite ld32_st32_eq, ld32_st32_ne, u32_small by lia. split; [done|]. split; [done|].
    intros b Hb. rewrite rd_st32. bdestruct_all; lia || done.
Qed.

(** The last block of the list below a place, and whether it touches the place. *)
Lemma ring_last h1 x q k : sized h1 → ring h1 = x ++ [(q, k)] →
  (∃ h1', h1 = h1' ++ [(k, true)] ∧ x = ring h1' ∧ q = h0 + 8 * units h1' ∧ 0 < k) ∨
  (last_free h1 = false ∧ 0 ≤ k ∧ base ≤ q ∧ q + 8 ≤ h0 + 8 * units h1 ∧ q + 8 * k < h0 + 8 * units h1).
Proof.
  intros Hs. induction h1 as [|[j f] h1 _] using rev_ind.
  - intros E. assert (x = [] ∧ (q, k) = (base, 0)) as [-> [= -> ->]] by (apply (app_inj_tail x [] _ _); by rewrite <- E).
    right. simpl. split; [done|]. lia.
  - apply sized_app in Hs as [Hs [Hj _]%Forall_cons]. simpl in Hj. pose proof (units_nonneg _ Hs). rewrite ring_app, units_app. cbn [frees units].
    destruct f; rewrite ?(app_nil_r [_]), ?(app_nil_l []); intros E.
    + apply app_inj_tail in E as [<- [= <- <-]]. left. by exists h1.
    + right. rewrite app_nil_r in E. unfold last_free. rewrite last_snoc. split; [done|].
      assert (Hin : (q, k) ∈ ring h1) by (rewrite E; apply elem_of_app; right; by left).
      apply elem_of_cons in Hin as [[= -> ->] | Hin]; [lia|]. apply frees_in in Hin; [lia|done].
Qed.

(** The rows before and after [free]. *)
Lemma join_right_spec n h2 n' h2' a : join_right n h2 = (n', h2') → sized h2 → 0 < n →
  n ≤ n' ∧ sized h2' ∧ n + units h2 = n' + units h2' ∧ useds (a + 8 * n) h2 = useds (a + 8 * n') h2' ∧
  (∃ F, frees (a + 8 * n) h2 = F ++ frees (a + 8 * n') h2') ∧
  (coalesced h2 = true → coalesced h2' = true ∧ head_free h2' = false).
Proof.
  intros E Hs Hn. destruct h2 as [|[k []] h2]; injection E as <- <-; simpl in *.
  - split_and!; try done || lia. by exists [].
  - apply Forall_cons in Hs as [Hk Hs]. simpl in Hk. replace (a + 8 * (n + k)) with (a + 8 * n + 8 * k) by lia.
    split_and!; try done || lia; [by exists [(a + 8 * n, k)]|]. destruct (head_free h2); simpl; [done|]. done.
  - split_and!; try done || lia. by exists [].
Qed.

Lemma snoc_case (h1 : list tile) : (∃ g k, h1 = g ++ [(k, true)]) ∨ last_free h1 = false.
Proof.
  induction h1 as [|[k f] g _] using rev_ind; [by right|]. unfold last_free. rewrite last_snoc.
  destruct f; [left; eauto|by right].
Qed.

Lemma join_left_snoc g k n : join_left (g ++ [(k, true)]) n = g ++ [(k + n, true)].
Proof. unfold join_left. rewrite reverse_snoc. by rewrite reverse_involutive. Qed.

Lemma join_left_keep h1 n : last_free h1 = false → join_left h1 n = h1 ++ [(n, true)].
Proof.
  unfold join_left. induction h1 as [|[k f] g _] using rev_ind; [done|]. unfold last_free. rewrite last_snoc, reverse_snoc.
  by intros ->.
Qed.

Lemma freed_spec h1 n h2 : sized (h1 ++ (n, false) :: h2) → coalesced (h1 ++ (n, false) :: h2) = true →
  sized (freed h1 n h2) ∧ coalesced (freed h1 n h2) = true ∧ units (freed h1 n h2) = units (h1 ++ (n, false) :: h2) ∧
  useds h0 (freed h1 n h2) = useds h0 h1 ++ useds (h0 + 8 * units h1 + 8 * n) h2.
Proof.
  intros [H1 [Hn H2]%Forall_cons]%sized_app Hc. simpl in Hn. unfold freed.
  destruct (join_right n h2) as [n' h2'] eqn:Ej.
  destruct (join_right_spec _ _ _ _ (h0 + 8 * units h1) Ej H2 Hn) as (Hn' & H2' & Hu & Hused & _ & Hco).
  rewrite coalesced_app in Hc. simpl in Hc. apply andb_true_iff in Hc as [[Hc1 Hc2]%andb_true_iff _]. destruct (Hco Hc2) as [Hc2' Hh2].
  rewrite (units_app h1). simpl. rewrite Hu. clear Ej Hco Hu. destruct (snoc_case h1) as [(g & k & ->) | Hl].
  - rewrite join_left_snoc, <- (assoc (++)). apply sized_app in H1 as [H1 [Hk _]%Forall_cons]. simpl in Hk.
    rewrite coalesced_app, !units_app, !useds_app in *. simpl in *. rewrite Hh2, Hc2', app_nil_r.
    split; [apply sized_app; split; [done|]; constructor; [simpl; lia|done]|].
    split; [by rewrite !andb_true_r in *|]. split; [lia|]. rewrite Hused. do 2 f_equal. lia.
  - rewrite join_left_keep, <- (assoc (++)) by done. rewrite coalesced_app, !units_app, !useds_app. simpl.
    rewrite Hh2, Hc1, Hc2', Hl. split; [apply sized_app; split; [done|]; constructor; [simpl; lia|done]|].
    split; [done|]. split; [lia|]. rewrite Hused. do 2 f_equal. lia.
Qed.

(** The list after both joins. *)
Lemma freed_ring m m' h1 n h2 n' h2' x q k : let bp := h0 + 8 * units h1 in
  between m bp (ring h1) (frees (bp + 8 * n) h2) → sized h1 → sized h2 → 0 < n →
  join_right n h2 = (n', h2') → ring h1 = x ++ [(q, k)] →
  ld32 m' q = (if q + 8 * k =? bp then head_addr (frees (bp + 8 * n') h2') base else bp) →
  ld32 m' (q + 4) = (if q + 8 * k =? bp then k + n' else k) →
  ld32 m' bp = head_addr (frees (bp + 8 * n') h2') base → ld32 m' (bp + 4) = n' →
  (∀ b, b < q ∨ q + 8 ≤ b → b < bp ∨ bp + 8 ≤ b → rd m' b = rd m b) →
  seg m' (ring (freed h1 n h2)) base ∧ q ∈ (ring (freed h1 n h2)).*1.
Proof.
  intros bp Hb H1 H2 Hn Ej Ex Eq Es Ebp Ebs Hfr. pose proof (bt_seg _ _ _ _ Hb) as Hseg. pose proof (bt_sorted _ _ _ _ Hb) as Hso.
  destruct (join_right_spec _ _ _ _ bp Ej H2 Hn) as (Hn' & H2' & _ & _ & [F HF] & _).
  rewrite HF, Ex, <- (assoc (++)) in Hseg. simpl in Hseg. apply seg_app in Hseg as [Hx Hseg]. simpl in Hx.
  apply StronglySorted_app_1_l in Hso. rewrite Ex in Hso.
  assert (Hq : q + 8 ≤ bp).
  { pose proof (bt_lower _ _ _ _ Hb) as Hl. rewrite Ex in Hl. apply Forall_app in Hl as [_ [Hl _]%Forall_cons]. simpl in Hl. lia. }
  assert (Hx' : seg m' x q).
  { apply (seg_ext m); [done|]. intros a j b Ha Hab.
    assert (a + 8 ≤ q) by (apply (StronglySorted_app_1_elem_of _ x [(q, k)] (a, j) (q, k) Hso Ha); by left). apply Hfr; lia. }
  assert (Hup : seg m' (frees (bp + 8 * n') h2') base).
  { destruct Hseg as (_ & _ & Hseg). apply seg_app in Hseg as [_ Hseg]. apply (seg_ext m); [done|]. intros a j b Ha Hab.
    apply frees_in in Ha; [|done]. apply Hfr; lia. }
  unfold freed. rewrite Ej. destruct (ring_last h1 x q k H1 Ex) as [(g & -> & -> & Hqg & Hk) | (Hl & Hk & _ & _ & Hlt)].
  - assert (Ebp' : q + 8 * k = bp) by (subst bp; rewrite units_app; simpl; lia).
    rewrite (proj2 (Z.eqb_eq _ _) Ebp') in Eq, Es. rewrite join_left_snoc, <- (assoc (++)), ring_app. cbn [frees app units].
    rewrite <- Hqg. replace (q + 8 * (k + n')) with (bp + 8 * n') by lia. split.
    + apply seg_app. split; [done|]. by cbn [seg].
    + rewrite fmap_app. apply elem_of_app. right. by left.
  - assert (Hne : q + 8 * k ≠ bp) by (subst bp; lia). rewrite (proj2 (Z.eqb_neq _ _) Hne) in Eq, Es.
    rewrite join_left_keep, <- (assoc (++)), ring_app by done. cbn [frees app units]. fold bp. split.
    + rewrite Ex, <- (assoc (++)). apply seg_app. split; [done|]. by cbn [seg app head_addr].
    + rewrite fmap_app, Ex, fmap_app. apply elem_of_app. left. apply elem_of_app. right. by left.
Qed.

Lemma freed_useds h1 n h2 a j : sized (h1 ++ (n, false) :: h2) → coalesced (h1 ++ (n, false) :: h2) = true →
  (a, j) ∈ useds h0 (freed h1 n h2) →
  (a, j) ∈ useds h0 (h1 ++ (n, false) :: h2) ∧ (a + 8 * j ≤ h0 + 8 * units h1 ∨ h0 + 8 * units h1 + 8 * n ≤ a).
Proof.
  intros Hs Hc Ha. destruct (freed_spec h1 n h2 Hs Hc) as (_ & _ & _ & Fused). rewrite Fused in Ha. rewrite useds_app.
  apply sized_app in Hs as [H1 [Hn H2]%Forall_cons]. apply elem_of_app in Ha as [Ha|Ha].
  - split; [apply elem_of_app; by left|]. apply useds_in in Ha; [lia|done].
  - split; [apply elem_of_app; right; simpl; by right|]. apply useds_in in Ha; [lia|done].
Qed.

Lemma free_ok s h1 n h2 : let bp := h0 + 8 * units h1 in uinv s (h1 ++ (n, false) :: h2) →
  runs (free (bp + 8)) (λ _ s', uinv s' (freed h1 n h2) ∧ m_brk s' = m_brk s ∧
    ∀ a j b, (a, j) ∈ useds h0 (freed h1 n h2) → a ≤ b < a + 8 * j → rd (m_mem s') b = rd (m_mem s) b) s.
Proof.
  intros bp Hi. pose proof (used_between _ _ _ _ Hi) as Hb. fold bp in Hb.
  pose proof (ui_sized _ _ Hi) as Hs. pose proof Hs as [H1 [Hn H2]%Forall_cons]%sized_app. simpl in Hn.
  destruct (freed_spec h1 n h2 Hs (ui_coal _ _ Hi)) as (Fs & Fc & Fu & Fused).
  pose proof (units_nonneg _ H1). pose proof (units_nonneg _ H2). pose proof (ui_brk _ _ Hi) as Hbrk. pose proof (ui_top _ _ Hi) as Htop.
  rewrite units_app in Hbrk. simpl in Hbrk. unfold free, hdr_add, sizeof_Header.
  replace (bp + 8 + 8 * -1) with bp by lia. rewrite u32_small by (unfold KERNBASE in Htop; subst bp; lia).
  pose proof (ui_freep _ _ Hi) as Hp. pose proof (length_ring _ _ Hi) as Hlen. rewrite ring_app in Hp, Hlen.
  destruct (find_ok s bp (frees h0 h1) (frees (bp + 8 * n) h2) (ring_fuel s) Hb Hp (Nat.lt_le_incl _ _ Hlen)) as (q & k & x & Ex & Ef).
  change (ring h1 = x ++ [(q, k)]) in Ex.
  kstep. kstep. kstep. apply (runs_of_eq _ _ _ _ _ Ef). kstep. pose proof (upper_ok s h1 n h2 x q k) as Hup.
  fold bp in Hup. destruct (join_right n h2) as [n' h2'] eqn:Ej. eapply runs_mono; [by apply Hup|].
  intros [] s1 (m1 & -> & Hm1 & Ev & En & Hfr1). destruct (join_right_spec _ _ _ _ bp Ej H2 Hn) as (Hn' & H2' & Hu & _).
  pose proof (units_nonneg _ H2'). assert (Hq : base ≤ q ∧ q + 8 ≤ bp ∧ 0 ≤ k ∧ q + 8 * k ≤ bp).
  { destruct (ring_last h1 x q k H1 Ex) as [(g & -> & _ & -> & Hk) | (_ & Hk & Hq1 & Hq2 & Hq3)]; [|subst bp; lia].
    apply sized_app in H1 as [H1 _]. pose proof (units_nonneg _ H1). subst bp. rewrite units_app. simpl. lia. }
  pose proof (bt_seg _ _ _ _ Hb) as Hseg. rewrite Ex, <- (assoc (++)) in Hseg. apply seg_app in Hseg as [_ (_ & Ek & _)].
  kstep. eapply runs_mono; [apply (lower_ok _ bp q k (head_addr (frees (bp + 8 * n') h2') base) n')|]; simpl; try done; try lia.
  { rewrite <- Ev. by apply ld32_range. }
  { rewrite <- Ek. apply ld32_ext. intros; apply Hfr1; lia. }
  intros [] s2 (m2 & -> & Hm2 & Eq & Es & Hfr2). simpl in Hfr2. kstep. simpl.
  assert (Hfr : ∀ b, b < q ∨ q + 8 ≤ b → b < bp ∨ bp + 8 ≤ b → rd m2 b = rd (m_mem s) b) by (intros; rewrite Hfr2, Hfr1 by lia; done).
  destruct (freed_ring (m_mem s) m2 h1 n h2 n' h2' x q k) as [Hr Hqin]; try done.
  { fold bp. rewrite <- Ev. apply ld32_ext. intros; apply Hfr2; lia. }
  { fold bp. rewrite <- En. apply ld32_ext. intros; apply Hfr2; lia. }
  assert (Hfrm : ∀ a j b, (a, j) ∈ useds h0 (freed h1 n h2) → a ≤ b < a + 8 * j → rd m2 b = rd (m_mem s) b).
  { intros a j b Ha Hab. apply (freed_useds h1 n h2) in Ha as [Ha Hap]; [|done|apply Hi].
    apply Hfr; [|fold bp in Hap; lia]. assert (Hin : (q, k) ∈ ring (h1 ++ (n, false) :: h2)).
    { rewrite ring_app, Ex. apply elem_of_app. left. apply elem_of_app. right. by left. }
    destruct (ring_used_apart _ _ _ _ _ Hs Hin Ha); lia. }
  split; [|done]. split; simpl; try done; [by rewrite Fu, units_app; simpl|].
  intros a j Ha. pose proof (freed_useds h1 n h2 a j Hs (ui_coal _ _ Hi) Ha) as [Ha' _]. rewrite <- (ui_used _ _ Hi a j Ha').
  apply ld32_ext. intros b Hb'. apply (Hfrm a j); [done|]. apply useds_in in Ha; [|done]. lia.
Qed.

(** ** [malloc] takes a block *)

Lemma ring_split h L v n Y : ring h = L ++ (v, n) :: Y → L ≠ [] →
  ∃ h1 h2, h = h1 ++ (n, true) :: h2 ∧ v = h0 + 8 * units h1 ∧ ring h1 = L ∧ frees (v + 8 * n) h2 = Y.
Proof.
  intros E HL. destruct L as [|x L]; [done|]. injection E as <- E.
  apply frees_split in E as (h1 & h2 & -> & -> & <- & <-). by exists h1, h2.
Qed.

(** The row when [nunits] are taken from the end of a free block of size [n]. *)
Definition taken (h1 : list tile) (n nunits : Z) (h2 : list tile) : list tile :=
  h1 ++ (if n =? nunits then [] else [(n - nunits, true)]) ++ (nunits, false) :: h2.

Lemma taken_spec h1 n nunits h2 : sized (h1 ++ (n, true) :: h2) → coalesced (h1 ++ (n, true) :: h2) = true → 0 < nunits ≤ n →
  let h' := taken h1 n nunits h2 in
  sized h' ∧ coalesced h' = true ∧ units h' = units (h1 ++ (n, true) :: h2) ∧
  useds h0 h' ≡ₚ (h0 + 8 * units h1 + 8 * (n - nunits), nunits) :: useds h0 (h1 ++ (n, true) :: h2) ∧
  ring h' = ring h1 ++ (if n =? nunits then [] else [(h0 + 8 * units h1, n - nunits)]) ++ frees (h0 + 8 * units h1 + 8 * n) h2.
Proof.
  intros [H1 [Hn H2]%Forall_cons]%sized_app Hc Hu h'. simpl in Hn. subst h'. unfold taken.
  rewrite coalesced_app in *. simpl in *. rewrite !andb_true_iff, !negb_true_iff in Hc. destruct Hc as ((Hc1 & Hc2 & Hc3) & Hc4).
  rewrite ring_app. destruct (Z.eqb_spec n nunits) as [-> |Hne]; simpl.
  - rewrite !units_app, !useds_app. simpl. rewrite Hc1, Hc3, andb_false_r. split; [apply sized_app; by repeat constructor|].
    split; [done|]. split; [done|]. split; [|done]. rewrite Z.sub_diag, Z.mul_0_r, Z.add_0_r. by rewrite Permutation_middle.
  - rewrite !units_app, !useds_app. simpl. rewrite Hc1, Hc3, Hc4. split; [apply sized_app; repeat constructor; simpl; done || lia|].
    split; [done|]. split; [lia|].
    replace (h0 + 8 * units h1 + 8 * (n - nunits) + 8 * nunits) with (h0 + 8 * units h1 + 8 * n) by lia.
    split; [by rewrite Permutation_middle|done].
Qed.

(** A block leaves the list, or shrinks and its end becomes a block of its own. *)
Definition spaced (l : list (Z * Z)) : Prop := StronglySorted (λ x y : Z * Z, x.1 + 8 ≤ y.1) l.

Lemma seg_unlink m X u un v n Y z : seg m (X ++ (u, un) :: (v, n) :: Y) z → spaced (X ++ (u, un) :: (v, n) :: Y) →
  0 ≤ ld32 m v < 2 ^ 32 → seg (st32 m u (ld32 m v)) (X ++ (u, un) :: Y) z.
Proof.
  intros Hseg Hso Hv. apply seg_app in Hseg as [Hx (Eu & Eun & Ep & En & HY)]. apply StronglySorted_app in Hso as (Hxu & _ & Hso).
  apply StronglySorted_inv in Hso as [_ HuY]. apply Forall_cons in HuY as [_ HuY]. rewrite Forall_forall in HuY.
  apply seg_app. split; [|split; [|split]].
  - apply seg_st32; [done|]. intros a j Ha. assert (a + 8 ≤ u) by (apply (Hxu (a, j) (u, un)); [done|by left]). lia.
  - rewrite ld32_st32_eq, u32_small by done. done.
  - rewrite ld32_st32_ne by lia. done.
  - apply seg_st32; [done|]. intros a j Ha. specialize (HuY _ Ha). simpl in HuY. lia.
Qed.

Lemma seg_shrink m X v n Y z k w : seg m (X ++ (v, n) :: Y) z → spaced (X ++ (v, n) :: Y) → 0 < k < n → k < 2 ^ 32 →
  (∀ a j, (a, j) ∈ Y → v + 8 * n ≤ a) → seg (st32 (st32 m (v + 4) k) (v + 8 * k + 4) w) (X ++ (v, k) :: Y) z.
Proof.
  intros Hseg Hso Hk Hk2 HvY. apply seg_app in Hseg as [Hx (Ep & En & HY)]. apply StronglySorted_app in Hso as (Hxu & _).
  apply seg_app. split; [|split; [|split]].
  - do 2 (apply seg_st32; [|intros a j Ha; assert (a + 8 ≤ v) by (apply (Hxu (a, j) (v, n)); [done|by left]); lia]). done.
  - by rewrite !ld32_st32_ne by lia.
  - by rewrite ld32_st32_ne, ld32_st32_eq, u32_small by lia.
  - do 2 (apply seg_st32; [|intros a j Ha; specialize (HvY _ _ Ha); lia]). done.
Qed.

Lemma uinv_taken s h1 n nunits h2 u m' : let h := h1 ++ (n, true) :: h2 in let v := h0 + 8 * units h1 in
  uinv s h → 0 < nunits ≤ n → u ∈ (ring h1).*1 → mem_ok m' → seg m' (ring (taken h1 n nunits h2)) base →
  ld32 m' (v + 8 * (n - nunits) + 4) = nunits →
  (∀ a j b, (a, j) ∈ useds h0 h → a ≤ b < a + 8 * j → rd m' b = rd (m_mem s) b) →
  uinv (Um m' u (m_brk s)) (taken h1 n nunits h2) ∧
  useds h0 (taken h1 n nunits h2) ≡ₚ (v + 8 * (n - nunits), nunits) :: useds h0 h.
Proof.
  intros h v Hi Hn Hu Hm Hr Hnew Hfr.
  destruct (taken_spec h1 n nunits h2 (ui_sized _ _ Hi) (ui_coal _ _ Hi) Hn) as (Ts & Tc & Tu & Tus & Tr). fold h in Tu, Tus.
  split; [|done]. split; cbn [m_mem m_freep m_brk]; try done.
  - rewrite Tu. apply Hi.
  - apply Hi.
  - intros a j Ha. rewrite Tus in Ha. apply elem_of_cons in Ha as [[= -> ->] | Ha]; [done|].
    rewrite <- (ui_used _ _ Hi a j Ha). apply ld32_ext. intros b Hb. apply (Hfr a j); [done|].
    apply useds_in in Ha; [lia|apply Hi].
  - rewrite Tr, fmap_app. apply elem_of_app. by left.
Qed.

Lemma take_ok s h X u un v n Y nunits : uinv s h → ring h = X ++ (u, un) :: (v, n) :: Y → 0 < nunits ≤ n →
  runs (malloc_take nunits u v n) (λ r s', ∃ h', uinv s' h' ∧
    useds h0 h' ≡ₚ (r - 8, nunits) :: useds h0 h ∧ m_brk s' = m_brk s ∧
    ∀ a j b, (a, j) ∈ useds h0 h → a ≤ b < a + 8 * j → rd (m_mem s') b = rd (m_mem s) b) s.
Proof.
  intros Hi E Hn. pose proof (ui_ring _ _ Hi) as Hseg. pose proof (ring_sorted _ (ui_sized _ _ Hi) : spaced _) as Hso.
  assert (Er : ring h = (X ++ [(u, un)]) ++ (v, n) :: Y) by (by rewrite <- (assoc (++))).
  destruct (ring_split _ _ _ _ _ Er) as (h1 & h2 & Eh & Ev & Ex & Ey); [by destruct X|].
  assert (Hu : u ∈ (ring h1).*1) by (rewrite Ex, fmap_app; apply elem_of_app; right; by left).
  pose proof (ui_sized _ _ Hi) as Hs. subst h. pose proof (taken_spec h1 n nunits h2 Hs (ui_coal _ _ Hi) Hn) as (_ & _ & _ & _ & Tr).
  pose proof (ui_brk _ _ Hi) as Hbrk. pose proof (ui_top _ _ Hi) as Htop. unfold KERNBASE in Htop. rewrite units_app in Hbrk.
  cbn [units] in Hbrk. pose proof (proj1 (sized_app _ _) Hs) as [Hs1 [_ Hs2]%Forall_cons].
  pose proof (units_nonneg _ Hs1). pose proof (units_nonneg _ Hs2). pose proof (ui_mem _ _ Hi) as Hm.
  rewrite <- Ev, Ey, Ex in Tr. unfold malloc_take, s_ptr, s_size, set_ptr, set_size, hdr_add, sizeof_Header.
  assert (Huin : (u, un) ∈ ring (h1 ++ (n, true) :: h2)) by (rewrite E; apply elem_of_app; right; by left).
  assert (Hvin : (v, n) ∈ frees h0 (h1 ++ (n, true) :: h2)).
  { rewrite frees_app. apply elem_of_app. right. simpl. rewrite Ev. by left. }
  assert (Huv : u + 8 ≤ v) by (rewrite E in Hso; apply StronglySorted_app_1_r, StronglySorted_inv in Hso as [_ [Huv _]%Forall_cons]; done).
  assert (En : ld32 (m_mem s) (v + 4) = n) by (rewrite Er in Hseg; by apply seg_app in Hseg as [_ (_ & ? & _)]).
  destruct (Z.eqb_spec n nunits) as [-> |Hne].
  - do 9 kstep. cbn [m_mem m_freep m_brk set_mem set_freep].
    assert (Hfr : ∀ a j b, (a, j) ∈ useds h0 (h1 ++ (nunits, true) :: h2) → a ≤ b < a + 8 * j →
      rd (st32 (m_mem s) u (ld32 (m_mem s) v)) b = rd (m_mem s) b).
    { intros a j b Ha Hb. pose proof (ring_used_apart _ _ _ _ _ Hs Huin Ha). rewrite rd_st32. bdestruct_all; lia || done. }
    destruct (uinv_taken s h1 nunits nunits h2 u (st32 (m_mem s) u (ld32 (m_mem s) v))) as [U1 U2]; try done.
    + by apply mem_ok_st32.
    + rewrite Tr. cbn [app]. rewrite <- (assoc (++)). rewrite E in Hseg, Hso. apply (seg_unlink _ _ _ _ _ _ _ _ Hseg Hso). by apply ld32_range.
    + rewrite <- Ev, ld32_st32_ne by lia. by replace (v + 8 * (nunits - nunits)) with v by lia.
    + exists (taken h1 nunits nunits h2). split; [done|]. split; [|done]. rewrite <- Ev in U2. rewrite u32_small by lia.
      rewrite U2. by replace (v + 8 * 1 - 8) with (v + 8 * (nunits - nunits)) by lia.
  - rewrite (u32_small (n - nunits)) by lia. do 6 kstep. cbn [m_mem m_freep m_brk set_mem set_freep].
    rewrite ld32_st32_eq, (u32_small (n - nunits)), (u32_small (v + _)) by lia. do 5 kstep. cbn [m_mem m_freep m_brk set_mem set_freep].
    set (m' := st32 _ _ nunits). assert (Hfr : ∀ a j b, (a, j) ∈ useds h0 (h1 ++ (n, true) :: h2) → a ≤ b < a + 8 * j →
      rd m' b = rd (m_mem s) b).
    { intros a j b Ha Hb. pose proof (free_used_apart _ _ _ _ _ _ Hs Hvin Ha). unfold m'. rewrite !rd_st32. bdestruct_all; lia || done. }
    destruct (uinv_taken s h1 n nunits h2 u m') as [U1 U2]; try done.
    + by apply mem_ok_st32, mem_ok_st32.
    + rewrite Tr. cbn [app]. rewrite Er in Hseg, Hso. apply (seg_shrink _ _ _ n); try done; [lia..|].
      intros a j Ha. rewrite <- Ey in Ha. apply frees_in in Ha; [lia|done].
    + unfold m'. rewrite <- Ev, ld32_st32_eq, u32_small by lia. done.
    + exists (taken h1 n nunits h2). split; [done|]. split; [|done]. rewrite <- Ev in U2. rewrite u32_small by lia.
      rewrite U2. by replace (v + 8 * (n - nunits) + 8 * 1 - 8) with (v + 8 * (n - nunits)) by lia.
Qed.

(** ** [malloc] asks for more *)

Lemma uinv_grow s s1 h n : uinv s h → 0 < n → m_brk s + 8 * n ≤ KERNBASE → m_brk s1 = m_brk s + 8 * n →
  m_freep s1 = m_freep s → mem_ok (m_mem s1) → (∀ a, a < m_brk s → rd (m_mem s1) a = rd (m_mem s) a) →
  uinv (set_mem (st32 (m_mem s1) (m_brk s + 4) n) s1) (h ++ [(n, false)]).
Proof.
  intros Hi Hn Htop Hb1 Hf1 Hm1 Hfr. pose proof (ui_sized _ _ Hi) as Hs. pose proof (ui_brk _ _ Hi) as Hb. unfold KERNBASE in Htop.
  pose proof (units_nonneg _ Hs).
  assert (Hrd : ∀ a, a < m_brk s → rd (st32 (m_mem s1) (m_brk s + 4) n) a = rd (m_mem s) a).
  { intros a Ha. rewrite rd_st32. bdestruct_all; try lia; by apply Hfr. }
  assert (Er : ring (h ++ [(n, false)]) = ring h) by (rewrite ring_app; cbn [frees app]; by rewrite app_nil_r).
  split; cbn [m_mem m_freep m_brk set_mem]; rewrite ?Er.
  - by apply mem_ok_st32.
  - apply sized_app. by repeat constructor.
  - rewrite coalesced_app, (ui_coal _ _ Hi). simpl. by rewrite andb_false_r.
  - rewrite units_app. simpl. lia.
  - unfold KERNBASE. lia.
  - apply (seg_ext (m_mem s)); [apply Hi|]. intros a k b Ha Hab. apply Hrd.
    apply elem_of_cons in Ha as [[= -> ->] | Ha]; [lia|]. apply frees_in in Ha; [lia|done].
  - intros a k. rewrite useds_app. intros [Ha|Ha]%elem_of_app.
    + rewrite <- (ui_used _ _ Hi a k Ha). apply ld32_ext. intros b Hb'. apply Hrd. apply useds_in in Ha; [lia|done].
    + apply list_elem_of_singleton in Ha as [= -> ->]. rewrite <- Hb, ld32_st32_eq, u32_small by lia. done.
  - rewrite Hf1. apply Hi.
Qed.

Lemma freed_end h n : sized h → 0 < n →
  (∃ p k, (p, k) ∈ frees h0 (freed h n []) ∧ n ≤ k) ∧ (length (ring (freed h n [])) ≤ S (length (ring h)))%nat.
Proof.
  intros Hs Hn. unfold freed, ring. cbn [join_right length]. rewrite app_nil_r. destruct (snoc_case h) as [(g & k & ->) | Hl].
  - rewrite join_left_snoc, !frees_app, !length_app. cbn [frees app length]. apply sized_app in Hs as [_ [Hk _]%Forall_cons]. simpl in Hk.
    split; [|lia]. exists (h0 + 8 * units g), (k + n). split; [apply elem_of_app; right; by left|lia].
  - rewrite join_left_keep, !frees_app, !length_app by done. cbn [frees app length]. split; [|lia].
    exists (h0 + 8 * units h), n. split; [apply elem_of_app; right; by left|lia].
Qed.

Lemma morecore_ok s h nu : uinv s h → 0 < nu → 8 * nu < 2 ^ 31 →
  runs (morecore sbrk nu) (λ r s', (r = 0 ∧ s' = s ∧ sbrk (8 * Z.max 4096 nu) s = Ok (u32 (-1), s)) ∨ ∃ h', r = m_freep s' ∧ r ≠ 0 ∧ uinv s' h' ∧ useds h0 h' = useds h0 h ∧
    (∃ p k, (p, k) ∈ frees h0 h' ∧ nu ≤ k) ∧ (length (ring h') ≤ S (length (ring h)))%nat ∧
    ∀ a j b, (a, j) ∈ useds h0 h → a ≤ b < a + 8 * j → rd (m_mem s') b = rd (m_mem s) b) s.
Proof.
  intros Hi Hnu Hlt. unfold morecore, sizeof_Header. set (n := if nu <? 4096 then 4096 else nu).
  assert (Hn : nu ≤ n ∧ 0 < n ∧ n * 8 < 2 ^ 31 ∧ 8 * Z.max 4096 nu = n * 8) by (unfold n; destruct (Z.ltb_spec nu 4096); lia).
  clearbody n. destruct Hn as (Hn & Hn0 & Hn8 & ->).
  rewrite (u32_small (n * 8)), s32_small by lia. pose proof (ui_sized _ _ Hi) as Hs. pose proof (ui_brk _ _ Hi) as Hb. pose proof (ui_top _ _ Hi) as Ht.
  pose proof (units_nonneg _ Hs). unfold KERNBASE in Ht.
  kstep. destruct (sbrk_spec s (n * 8) ltac:(lia) (ui_mem _ _ Hi)) as (r & s1 & Esb & Hsb). apply (runs_of_eq _ _ _ _ _ Esb).
  destruct Hsb as [[-> ->] | (-> & Htop & Hb1 & Hf1 & Hm1 & Hfr)].
  { rewrite Z.eqb_refl. kstep. by left. }
  destruct (Z.eqb_spec (m_brk s) (u32 (-1))) as [E|_]; [change (u32 (-1)) with 4294967295 in E; lia|].
  unfold set_size. kstep. kstep. kstep. unfold hdr_add, sizeof_Header. unfold KERNBASE in Htop. rewrite u32_small by lia.
  assert (Hi' : uinv (set_mem (st32 (m_mem s1) (m_brk s + 4) n) s1) (h ++ [(n, false)])) by (apply (uinv_grow s); unfold KERNBASE; lia || done).
  replace (m_brk s + 8 * 1) with (h0 + 8 * units h + 8) by lia. eapply runs_mono; [apply (free_ok _ h n [] Hi')|].
  intros [] s2 (Hi2 & _ & Hfr2). kstep. right. exists (freed h n []).
  destruct (freed_spec h n [] (ui_sized _ _ Hi') (ui_coal _ _ Hi')) as (_ & _ & _ & Fu). cbn [useds] in Fu. rewrite app_nil_r in Fu.
  destruct (freed_end h n Hs) as [(p & k & Hin & Hk) Hlen]; [lia|]. split; [done|]. split.
  { pose proof (ui_freep _ _ Hi2) as Hf. apply list_elem_of_fmap in Hf as ([p' k'] & -> & Hf).
    apply elem_of_cons in Hf as [[= -> ->] | Hf]; [simpl; lia|]. apply frees_in in Hf; [simpl; lia|apply Hi2]. }
  split; [done|]. split; [done|]. split; [exists p, k; split; [done|lia]|]. split; [done|].
  intros a j b Ha Hab. rewrite (Hfr2 a j b) by (rewrite ?Fu; done). cbn [m_mem set_mem]. apply useds_in in Ha; [|done].
  rewrite rd_st32. bdestruct_all; try lia. apply Hfr. lia.
Qed.

(** ** [malloc] goes round the list *)

(** The list read from [freep] on. *)
Lemma cycle s h : uinv s h → ∃ n T, (m_freep s, n) :: T ≡ₚ ring h ∧ seg (m_mem s) ((m_freep s, n) :: T) (m_freep s).
Proof.
  intros Hi. pose proof (ui_freep _ _ Hi) as Hf. apply list_elem_of_fmap in Hf as ([f n] & E & Hf). simpl in E. rewrite E.
  apply list_elem_of_split in Hf as (A & B & ER). pose proof (ui_ring _ _ Hi) as Hs. rewrite ER in Hs.
  apply seg_app in Hs as [HA (Ef & En & HB)]. exists n, (B ++ A). split.
  { by rewrite ER, <- Permutation_middle, (Permutation_app_comm A B). }
  assert (EA : head_addr A f = base) by (destruct A; injection ER as <-; [done|by subst]).
  cbn [seg]. rewrite head_addr_app, EA. split; [done|]. split; [done|]. apply seg_app. by rewrite EA.
Qed.

Lemma ring_nodup h : sized h → NoDup (ring h).*1.
Proof.
  intros Hs. pose proof (ring_sorted h Hs) as Hso. induction Hso as [|x l Hso IH Hx]; [constructor|]. constructor; [|done].
  intros Hin. apply list_elem_of_fmap in Hin as (y & Ey & Hy). rewrite Forall_forall in Hx. specialize (Hx y Hy). simpl in Hx. lia.
Qed.

(** [q ← morecore; ...] in the loop. *)
Definition grow_and_go (fuel : nat) (nunits : Z) : K um Z :=
  q ← morecore sbrk nunits;
  if q =? 0 then mret 0 else nx ← s_ptr q; malloc_loop sbrk fuel nunits q nx.

Lemma loop_walk s h nunits n0 T0 (Q : Z → um → Prop) : let f := m_freep s in
  uinv s h → (f, n0) :: T0 ≡ₚ ring h → seg (m_mem s) ((f, n0) :: T0) f →
  (∀ u v n, u ∈ (ring h).*1 → ld32 (m_mem s) u = v → (v, n) ∈ ring h → nunits ≤ n → runs (malloc_take nunits u v n) Q s) →
  ∀ T D u un fuel, (f, n0) :: T0 = D ++ (u, un) :: T → (length T < fuel)%nat →
  ((∀ p k, (p, k) ∈ T ++ [(f, n0)] → k < nunits) → runs (grow_and_go (fuel - S (length T)) nunits) Q s) →
  runs (malloc_loop sbrk fuel nunits u (head_addr T f)) Q s.
Proof.
  intros f Hi HP Hseg Hfound. induction T as [|[v n] T IH]; intros D u un [|fuel] ED Hfu Hgrow; try (simpl in Hfu; lia);
    cbn [malloc_loop head_addr]; unfold s_size; kstep; kstep;
    (assert (Hu : u ∈ (ring h).*1) by (rewrite <- HP, ED, fmap_app; apply elem_of_app; right; by left));
    pose proof Hseg as Hs; rewrite ED in Hs; apply seg_app in Hs as [_ (Eu & _ & HT)]; cbn [head_addr] in Eu.
  - destruct Hseg as (_ & En & _). rewrite En. destruct (Z.leb_spec nunits n0).
    + apply Hfound; [done|done| |done]. rewrite <- HP. by left.
    + kstep. kstep. fold f. rewrite Z.eqb_refl. replace fuel with (S fuel - 1)%nat by lia. apply Hgrow.
      intros p k [= -> ->]%list_elem_of_singleton. done.
  - destruct HT as (Ev & En & _). rewrite En. destruct (Z.leb_spec nunits n).
    + apply Hfound; [done|done| |done]. rewrite <- HP, ED. apply elem_of_app. right. right. by left.
    + kstep. kstep. fold f. assert (Hne : v ≠ f).
      { intros ->. pose proof (ring_nodup h (ui_sized _ _ Hi)) as Hnd. rewrite <- HP in Hnd. apply NoDup_cons in Hnd as [Hnd _].
        apply Hnd. pose proof (f_equal tail ED) as ET. apply list_elem_of_fmap. exists (f, n). split; [done|].
        destruct D as [|d D]; simpl in ET; rewrite ET.
        - by left.
        - apply elem_of_app. right. right. by left. }
      rewrite (proj2 (Z.eqb_neq v f) Hne). unfold s_ptr. kstep. kstep. rewrite Ev.
      apply (IH (D ++ [(u, un)]) v n fuel); [by rewrite <- (assoc (++))|simpl in Hfu; lia|]. intros Hsm.
      apply Hgrow. intros p k Hin. rewrite <- app_comm_cons in Hin. apply elem_of_cons in Hin as [[= -> ->] | Hin]; [done|eauto].
Qed.

(** A block large enough that the list leads to. *)
Lemma found_ok s h nunits u v n : uinv s h → 0 < nunits → u ∈ (ring h).*1 → ld32 (m_mem s) u = v → (v, n) ∈ ring h → nunits ≤ n →
  ∃ X un Y, ring h = X ++ (u, un) :: (v, n) :: Y.
Proof.
  intros Hi Hn Hu Ev Hv Hle. apply list_elem_of_fmap in Hu as ([u' un] & -> & Hu). simpl in *.
  apply list_elem_of_split in Hu as (X & Y & E). pose proof (ui_ring _ _ Hi) as Hs. rewrite E in Hs.
  apply seg_app in Hs as [_ (Eu & _ & HY)]. rewrite Ev in Eu. exists X, un.
  assert (Hvb : v ≠ base).
  { intros ->. pose proof (ring_nodup h (ui_sized _ _ Hi)) as Hnd. apply NoDup_cons in Hnd as [Hnd _].
    apply elem_of_cons in Hv as [[= ->] | Hv]; [lia|]. apply Hnd, list_elem_of_fmap. by exists (base, n). }
  destruct Y as [|[v' n'] Y]; [by simpl in Eu|]. simpl in Eu. subst v'. exists Y. rewrite E. do 3 f_equal.
  rewrite <- (seg_size _ _ _ _ _ (ui_ring _ _ Hi) Hv). by destruct HY as (_ & -> & _).
Qed.

(** ** What [malloc] and [free] promise *)

(** The heap before the first call. *)
Definition fresh (s : um) : Prop := m_freep s = 0 ∧ m_brk s = h0 ∧ h0 ≤ KERNBASE ∧ mem_ok (m_mem s).

Definition is_heap (s : um) (h : list tile) : Prop := uinv s h ∨ (fresh s ∧ h = []).

Definition malloc_post (nbytes : Z) (s : um) (h : list tile) (r : Z) (s' : um) : Prop :=
  let n := (nbytes + 7) / 8 + 1 in
  (r = 0 ∧ (∃ h', is_heap s' h' ∧ useds h0 h' = useds h0 h) ∧ (∀ p k, (p, k) ∈ frees h0 h → k < n) ∧
     sbrk (8 * Z.max 4096 n) s' = Ok (u32 (-1), s') ∧
     ∀ a j b, (a, j) ∈ useds h0 h → a ≤ b < a + 8 * j → rd (m_mem s') b = rd (m_mem s) b) ∨
  (∃ h', is_heap s' h' ∧ useds h0 h' ≡ₚ (r - 8, n) :: useds h0 h ∧
     ∀ a j b, (a, j) ∈ useds h0 h → a ≤ b < a + 8 * j → rd (m_mem s') b = rd (m_mem s) b).

Lemma loop_ok s h nbytes : let n := (nbytes + 7) / 8 + 1 in uinv s h → 0 < n → 8 * n < 2 ^ 31 →
  runs (p ← s_ptr (m_freep s); malloc_loop sbrk (2 * ring_fuel s) n (m_freep s) p) (malloc_post nbytes s h) s.
Proof.
  intros n Hi Hn Hlt. destruct (cycle s h Hi) as (n0 & T0 & HP & Hseg). pose proof (length_ring s h Hi) as Hlen.
  pose proof (Permutation_length HP) as HL. cbn [length] in HL.
  unfold s_ptr. kstep. kstep. destruct Hseg as (Ef & Hseg'). rewrite Ef.
  apply (loop_walk s h n n0 T0 _ Hi HP (conj Ef Hseg')) with (D := []) (un := n0); [|done|lia|].
  - intros u v k Hu Ev Hv Hk. destruct (found_ok s h n u v k Hi Hn Hu Ev Hv Hk) as (X & un & Y & E).
    eapply runs_mono; [apply (take_ok s h X u un v k Y n Hi E); lia|]. intros r s' (h' & Hi' & Hp & _ & Hfr).
    right. exists h'. split; [by left|]. done.
  - intros Hsmall. unfold grow_and_go. kstep. eapply runs_mono; [by apply (morecore_ok s h n Hi)|].
    intros q s' [(-> & -> & Esb) | (h' & -> & Hq & Hi' & Hu & (p & k & Hpk & Hk) & Hl' & Hfr)].
    + apply runs_ret. left. split; [done|]. split; [exists h; split; [by left|done]|]. split; [|done].
      clear Esb. intros p k Hpk. apply (Hsmall p k). assert (Hin : (p, k) ∈ (m_freep s, n0) :: T0) by (rewrite HP; by right).
      set_solver.
    + rewrite (proj2 (Z.eqb_neq _ 0) Hq). destruct (cycle s' h' Hi') as (n1 & T1 & HP1 & Ef1 & Hseg1). pose proof (Permutation_length HP1) as HL1. cbn [length] in HL1.
      unfold s_ptr. kstep. kstep. rewrite Ef1.
      apply (loop_walk s' h' n n1 T1 _ Hi' HP1 (conj Ef1 Hseg1)) with (D := []) (un := n1); [|done|lia|].
      * intros u v j Hu' Ev Hv Hj. destruct (found_ok s' h' n u v j Hi' Hn Hu' Ev Hv Hj) as (X & un & Y & E).
        eapply runs_mono; [apply (take_ok s' h' X u un v j Y n Hi' E); lia|]. intros r s2 (h2 & Hi2 & Hp2 & _ & Hfr2).
        right. exists h2. split; [by left|]. rewrite <- Hu. split; [done|]. intros a i b Ha Hab. rewrite (Hfr2 a i b), (Hfr a i b) by congruence. done.
      * intros Hno. assert (Hin : (p, k) ∈ (m_freep s', n1) :: T1) by (rewrite HP1; by right).
        assert (k < n) by (apply (Hno p k); set_solver). lia.
Qed.

Lemma malloc_ok s h nbytes : is_heap s h → 0 ≤ nbytes → nbytes + 16 < 2 ^ 31 →
  runs (malloc base sbrk nbytes) (malloc_post nbytes s h) s.
Proof.
  intros Hh H0 Hlt. unfold malloc, malloc_units, sizeof_Header. replace (nbytes + 8 - 1) with (nbytes + 7) by lia.
  pose proof (Z.div_pos (nbytes + 7) 8 ltac:(lia) ltac:(lia)). pose proof (Z.mul_div_le (nbytes + 7) 8 ltac:(lia)).
  rewrite (u32_small (nbytes + 7)), u32_small by lia. kstep. kstep. destruct Hh as [Hi | [(Ef & Hb & Htop & Hm) ->]].
  - assert (Hne : m_freep s ≠ 0).
    { pose proof (ui_freep _ _ Hi) as Hf. apply list_elem_of_fmap in Hf as ([p' k'] & -> & Hf).
      apply elem_of_cons in Hf as [[= -> ->] | Hf]; [simpl; lia|]. apply frees_in in Hf; [simpl; lia|apply Hi]. }
    rewrite (proj2 (Z.eqb_neq _ 0) Hne). kstep. kstep. kstep. kstep. apply (loop_ok s h nbytes Hi); lia.
  - rewrite Ef, Z.eqb_refl. unfold set_ptr, set_size. kstep. kstep. kstep. kstep. kstep. kstep. kstep. kstep.
    set (s1 := set_mem _ _). assert (Hi : uinv s1 []).
    { unfold KERNBASE in Htop. split; subst s1; cbn [m_mem m_freep m_brk set_mem set_freep]; try done.
      - by apply mem_ok_st32, mem_ok_st32.
      - constructor.
      - simpl. lia.
      - unfold KERNBASE. lia.
      - unfold ring. cbn [seg frees head_addr]. rewrite ld32_st32_ne, ld32_st32_eq, ld32_st32_eq, !u32_small by lia. done.
      - by intros a n ?%not_elem_of_nil.
      - by left. }
    eapply runs_mono; [apply (loop_ok s1 [] nbytes Hi); lia|]. intros r s' [(Hr & Hh & Hs & Hb' & _) | (h' & Hh & Hp & _)].
    + left. split; [done|]. split; [done|]. split; [done|]. split; [done|]. by intros a j b ?%not_elem_of_nil.
    + right. exists h'. split; [done|]. split; [done|]. by intros a j b ?%not_elem_of_nil.
Qed.

Lemma useds_apart a0 h i j a n b k : sized h → useds a0 h !! i = Some (a, n) → useds a0 h !! j = Some (b, k) → (i < j)%nat →
  a + 8 * n ≤ b.
Proof.
  intros Hs. revert a0 i j. induction Hs as [|[m f] h Hm Hs IH]; intros a0 i j; simpl; [done|]. destruct f; simpl; [apply IH|].
  intros Hi Hj Hij. destruct j as [|j]; [lia|]. simpl in Hj. destruct i as [|i]; simpl in Hi.
  - injection Hi as -> ->. apply list_elem_of_lookup_2, useds_in in Hj; [lia|done].
  - apply (IH (a0 + 8 * m) i j); [done|done|lia].
Qed.

Lemma user_store_ok s h m : is_heap s h → mem_ok m →
  (∀ b, (∀ a n, (a, n) ∈ useds h0 h → ¬ (a + 8 ≤ b < a + 8 * n)) → rd m b = rd (m_mem s) b) → is_heap (set_mem m s) h.
Proof.
  intros [Hi | [(Ef & Hb & Htop & Hm) ->]] Hmk Hsame; [left|right; by split].
  pose proof (ui_sized _ _ Hi) as Hs. split; cbn [m_mem m_freep m_brk set_mem]; try apply Hi; [done|..].
  - apply (seg_ext (m_mem s)); [apply Hi|]. intros p k b Hp Hpb. apply Hsame. intros a n Ha Hab.
    destruct (ring_used_apart _ _ _ _ _ Hs Hp Ha); lia.
  - intros a n Ha. rewrite <- (ui_used _ _ Hi a n Ha). apply ld32_ext. intros b Hab. apply Hsame. intros a' n' Ha' Hab'.
    apply list_elem_of_lookup in Ha as [i Hai]. apply list_elem_of_lookup in Ha' as [j Haj].
    pose proof (useds_in _ _ _ _ Hs (list_elem_of_lookup_2 _ _ _ Hai)). destruct (Nat.lt_trichotomy i j) as [Hij | [-> |Hij]].
    + pose proof (useds_apart _ _ _ _ _ _ _ _ Hs Hai Haj Hij). lia.
    + rewrite Hai in Haj. injection Haj as <- <-. lia.
    + pose proof (useds_apart _ _ _ _ _ _ _ _ Hs Haj Hai Hij). lia.
Qed.

(** C23. The allocator manages a heap of blocks without gaps.  [malloc] of a request
    with [nbytes + 16 < 2 ^ 31], below which the size computation does not overflow,
    returns: a block of its own of at least [nbytes] bytes, aligned to 8, or 0 when no
    free block is large enough and [sbrk] refuses; [free] of a block in use returns and
    takes exactly it back; both keep every byte of the other blocks in use, whose
    owners may write where they like inside them.  Blocks in use never overlap, and
    free neighbours are joined: when everything is freed the heap is one block. *)
Theorem malloc_and_free_manage_the_heap s h : is_heap s h →
  (∀ nbytes, 0 ≤ nbytes → nbytes + 16 < 2 ^ 31 →
     nbytes ≤ 8 * ((nbytes + 7) / 8) ∧ runs (malloc base sbrk nbytes) (malloc_post nbytes s h) s) ∧
  (∀ a n, (a, n) ∈ useds h0 h → runs (free (a + 8)) (λ _ s', ∃ h', is_heap s' h' ∧ useds h0 h ≡ₚ (a, n) :: useds h0 h' ∧
     ∀ c j b, (c, j) ∈ useds h0 h' → c ≤ b < c + 8 * j → rd (m_mem s') b = rd (m_mem s) b) s) ∧
  (∀ m, mem_ok m → (∀ b, (∀ a n, (a, n) ∈ useds h0 h → ¬ (a + 8 ≤ b < a + 8 * n)) → rd m b = rd (m_mem s) b) →
     is_heap (set_mem m s) h) ∧
  (∀ i j a n b k, useds h0 h !! i = Some (a, n) → useds h0 h !! j = Some (b, k) → (i < j)%nat →
     h0 ≤ a ∧ a mod 8 = 0 ∧ a + 8 * n ≤ b ∧ b + 8 * k ≤ m_brk s) ∧
  (useds h0 h = [] → (length h ≤ 1)%nat).
Proof.
  intros Hh. split; [|split; [|split; [|split]]].
  - intros nbytes H0 Hlt. split; [|by apply malloc_ok]. pose proof (Z.mod_pos_bound (nbytes + 7) 8 ltac:(lia)).
    pose proof (Z.div_mod (nbytes + 7) 8 ltac:(lia)). lia.
  - intros a n Ha. destruct Hh as [Hi | [_ ->]]; [|by apply not_elem_of_nil in Ha].
    apply useds_split in Ha as (h1 & h2 & -> & ->). eapply runs_mono; [apply (free_ok s h1 n h2 Hi)|].
    intros [] s' (Hi' & _ & Hfr). exists (freed h1 n h2). split; [by left|]. split; [|done].
    destruct (freed_spec h1 n h2 (ui_sized _ _ Hi) (ui_coal _ _ Hi)) as (_ & _ & _ & ->). rewrite useds_app. simpl. by rewrite Permutation_middle.
  - intros m. by apply user_store_ok.
  - intros i j a n b k Hai Hbj Hij. destruct Hh as [Hi | [_ ->]]; [|done]. pose proof (ui_sized _ _ Hi) as Hs.
    pose proof (useds_apart _ _ _ _ _ _ _ _ Hs Hai Hbj Hij). apply list_elem_of_lookup_2 in Hai, Hbj.
    pose proof (useds_split _ _ _ _ Hai) as (g1 & g2 & _ & Ea). apply useds_in in Hai, Hbj; try done. rewrite (ui_brk _ _ Hi).
    split; [lia|]. split; [|lia]. rewrite Ea, Z.mul_comm, Z.mod_add; [done|lia].
  - destruct Hh as [Hi | [_ ->]]; [|simpl; lia]. apply coalesced_all_free, Hi.
Qed.

End allocator.

(** ** A process of 16384 bytes that may grow up to a limit *)

Definition limit_sbrk (limit n : Z) : K um Z := λ s,
  if m_brk s + n <=? limit then Ok (m_brk s, Um (m_mem s) (m_freep s) (m_brk s + n)) else Ok (u32 (-1), s).

Lemma limit_sbrk_spec limit : limit ≤ KERNBASE → Sbrk (limit_sbrk limit).
Proof.
  intros Hl. constructor. intros s n Hn Hm. unfold limit_sbrk, runs. destruct (Z.leb_spec (m_brk s + n) limit).
  - eexists _, _. split; [reflexivity|]. right. simpl. split; [done|]. split; [lia|]. done.
  - eexists _, _. split; [reflexivity|]. by left.
Qed.

#[local] Instance sample_sbrk : Sbrk (limit_sbrk 65536) := limit_sbrk_spec 65536 ltac:(by vm_compute).

Definition sample_um : um := Um ∅ 0 16384.

Lemma malloc_and_free_manage_the_heap_witness :
  fresh 16384 sample_um ∧ runs (malloc 1000 (limit_sbrk 65536) 100) (malloc_post 1000 (limit_sbrk 65536) 16384 100 sample_um []) sample_um ∧
  runs (malloc 1000 (limit_sbrk 65536) 100) (λ r _, r = 16384 + 8 * (4096 - 14) + 8) sample_um.
Proof.
  assert (Hf : fresh 16384 sample_um) by (split; [done|]; split; [done|]; split; [by vm_compute|apply mem_ok_empty]).
  split; [done|]. split; [|eexists _, _; split; [vm_compute; reflexivity|reflexivity]].
  apply (malloc_and_free_manage_the_heap 1000 (limit_sbrk 65536) 16384 ltac:(lia) ltac:(lia) ltac:(done) sample_um []);
    [by right|lia|lia].
Defined.

(** The size computation wraps: a request close to 4 GB gets a block of one header,
    without room for a byte, and one of 2 GB makes [morecore] ask [sbrk] for a
    negative amount. *)
Lemma malloc_size_wraps : malloc_units (2 ^ 32 - 1) = 1 ∧ s32 (u32 (malloc_units (2 ^ 31) * sizeof_Header)) < 0.
Proof. by vm_compute. Qed.
