(* ===== verification/Grep.v ===== *)
(** * grep: [xv6/grep.c]

    The matcher of regular expressions, and the loop that splits the input in lines
    inside a buffer.  A C string is the list of its characters without the NUL. *)

From S2P Require Import Prelude.

(** ['*'], ['.'], ['$'], ['^'] and ['\n']. *)
Definition ch_star : Z := 42.
Definition ch_dot : Z := 46.
Definition ch_dollar : Z := 36.
Definition ch_caret : Z := 94.
Definition ch_nl : Z := 10.

(** ** The matcher *)

(** [matchstar]; [here] is [matchhere] of the rest of the expression. *)
Fixpoint matchstar (here : list Z → bool) (c : Z) (text : list Z) : bool :=
  if here text then true
  else
    match text with
    | t :: text' => if (t =? c) || (c =? ch_dot) then matchstar here c text' else false
    | [] => false
    end.

(** The last test of [matchhere], with [rest] for the recursive call. *)
Definition match_one (c : Z) (rest : list Z → bool) (text : list Z) : bool :=
  match text with
  | t :: text' => if (c =? ch_dot) || (c =? t) then rest text' else false
  | [] => false
  end.

Fixpoint matchhere (re : list Z) : list Z → bool :=
  match re with
  | [] => λ _, true
  | c :: re1 =>
      let one := match_one c (matchhere re1) in
      match re1 with
      | d :: re2 => if d =? ch_star then matchstar (matchhere re2) c else one
      | [] => if c =? ch_dollar then λ text, match text with [] => true | _ => false end else one
      end
  end.

(** The loop of [match], which also looks at the empty end of the text. *)
Fixpoint match_loop (re text : list Z) : bool :=
  if matchhere re text then true
  else match text with _ :: text' => match_loop re text' | [] => false end.

Definition grep_match (re text : list Z) : bool :=
  match re with
  | c :: re' => if c =? ch_caret then matchhere re' text else match_loop re text
  | [] => match_loop re text
  end.

(** ** The lines *)

(** [buf], the pieces in which [read] will return the input, and what was written,
    with its descriptor. *)
Record gst := Gst {
  g_buf : list Z;
  g_in : list (list Z);
  g_out : list (Z * list Z)
}.

Definition BUFSIZE : nat := 1024.

Definition set_gbuf (f : list Z → list Z) (s : gst) : gst := Gst (f (g_buf s)) (g_in s) (g_out s).

Definition read (n : nat) : K gst (list Z) := λ s,
  match g_in s with
  | [] => Ok ([], s)
  | c :: cs =>
      let rest := drop n c in
      Ok (take n c, Gst (g_buf s) (match rest with [] => cs | _ => rest :: cs end) (g_out s))
  end.

Definition write (fd : Z) (l : list Z) : K gst unit := kmod (λ s, Gst (g_buf s) (g_in s) (g_out s ++ [(fd, l)])).

(** The string at [buf + p], and [strchr] in it. *)
Fixpoint cstring (l : list Z) : list Z :=
  match l with [] => [] | x :: l' => if x =? 0 then [] else x :: cstring l' end.

Fixpoint strchr_at (l : list Z) (c : Z) (i : nat) : option nat :=
  match l with
  | [] => None
  | x :: l' => if x =? 0 then None else if x =? c then Some i else strchr_at l' c (S i)
  end.

(** The bytes [l] stored at [buf + i]. *)
Definition store_at (i : nat) (l buf : list Z) : list Z := take i buf ++ l ++ drop (i + length l) buf.

(** The inner loop, from [p]; the result is the last [p]. *)
Fixpoint grep_lines (fuel : nat) (pattern : list Z) (p : nat) : K gst nat :=
  match fuel with
  | O => khang
  | S fuel' =>
      s ← kget;
      match strchr_at (drop p (g_buf s)) ch_nl p with
      | None => mret p
      | Some q =>
          kmod (set_gbuf (store_at q [0]));;
          s ← kget;
          (if grep_match pattern (cstring (drop p (g_buf s))) then
             kmod (set_gbuf (store_at q [ch_nl]));;
             s ← kget;
             write 1 (take (q + 1 - p) (drop p (g_buf s)))
           else mret tt);;
          grep_lines fuel' pattern (S q)
      end
  end.

(** The outer loop, with [m] bytes in the buffer. *)
Fixpoint grep_loop (fuel : nat) (pattern : list Z) (m : nat) : K gst unit :=
  match fuel with
  | O => khang
  | S fuel' =>
      l ← read (BUFSIZE - m - 1);
      match l with
      | [] => mret tt
      | _ =>
          let m := (m + length l)%nat in
          kmod (set_gbuf (store_at (m - length l) l));;
          kmod (set_gbuf (store_at m [0]));;
          p ← grep_lines (S BUFSIZE) pattern 0;
          let m := if decide (p = 0%nat) then 0%nat else m in
          m ← (if decide (0 < m)%nat then
                 let m := (m - p)%nat in
                 kmod (set_gbuf (λ b, store_at 0 (take m (drop p b)) b));;
                 mret m
               else mret m);
          grep_loop fuel' pattern m
      end
  end.

(** Each round takes a byte of the input. *)
Definition grep (pattern : list Z) : K gst unit :=
  s ← kget;
  grep_loop (S (length (concat (g_in s)))) pattern 0.

(** [main]; [open] gives the pieces in which a file is read. *)
Section main.
Context (open : list Z → option (list (list Z))).
Context (usage : list Z) (cannot_open : list Z → list Z).

Fixpoint grep_files (pattern : list Z) (files : list (list Z)) : K gst unit :=
  match files with
  | [] => mret tt
  | f :: files' =>
      match open f with
      | None => write 1 (cannot_open f)
      | Some pieces =>
          kmod (λ s, Gst (g_buf s) pieces (g_out s));;
          grep pattern;;
          grep_files pattern files'
      end
  end.

Definition grep_main (argv : list (list Z)) : K gst unit :=
  match argv with
  | _ :: pattern :: files =>
      match files with
      | [] => grep pattern
      | _ => grep_files pattern files
      end
  | _ => write 2 usage
  end.
End main.

(** ** What a pattern means

    A pattern is a sequence of characters and repetitions, anchored or not. *)
Inductive item := One (c : Z) | Star (c : Z).

(** The items of an expression and whether it ends in [$]. *)
Fixpoint parse (re : list Z) : list item * bool :=
  match re with
  | [] => ([], false)
  | c :: re1 =>
      match re1 with
      | d :: re2 =>
          if d =? ch_star then (Star c :: (parse re2).1, (parse re2).2)
          else (One c :: (parse re1).1, (parse re1).2)
      | [] => if c =? ch_dollar then ([], true) else ([One c], false)
      end
  end.

Definition accepts (c x : Z) : Prop := c = ch_dot ∨ x = c.

(** The words of a sequence of items. *)
Fixpoint lang (its : list item) (w : list Z) : Prop :=
  match its with
  | [] => w = []
  | One c :: its' => ∃ x w', w = x :: w' ∧ accepts c x ∧ lang its' w'
  | Star c :: its' => ∃ u v, w = u ++ v ∧ Forall (accepts c) u ∧ lang its' v
  end.

(** Some part of the text is a word of the pattern. *)
Definition matches (bol : bool) (p : list item * bool) (text : list Z) : Prop :=
  ∃ pre w post, text = pre ++ w ++ post ∧ lang p.1 w ∧ (bol = true → pre = []) ∧ (p.2 = true → post = []).

Definition meaning (re text : list Z) : Prop :=
  match re with
  | c :: re' => if c =? ch_caret then matches true (parse re') text else matches false (parse re) text
  | [] => matches false (parse re) text
  end.

Definition at_start (p : list item * bool) (text : list Z) : Prop :=
  ∃ w post, text = w ++ post ∧ lang p.1 w ∧ (p.2 = true → post = []).

Lemma accepts_test c x : (c =? ch_dot) || (c =? x) = true ↔ accepts c x.
Proof. unfold accepts. rewrite orb_true_iff, !Z.eqb_eq. naive_solver. Qed.

Lemma matchstar_ok here p c text : (∀ t, here t = true ↔ at_start p t) →
  matchstar here c text = true ↔ at_start (Star c :: p.1, p.2) text.
Proof.
  intros Hh. induction text as [|t text IH]; cbn [matchstar].
  - destruct (here []) eqn:E.
    + apply Hh in E as (w & post & E & Hl & He). split; [intros _|done]. exists w, post. simpl. split; [done|].
      split; [exists [], w; by repeat constructor|done].
    + split; [done|]. intros (w & post & [-> ->]%symmetry%app_nil & (u & v & [-> ->]%symmetry%app_nil & _ & Hl) & He).
      rewrite (proj2 (Hh [])) in E; [done|]. exists [], []. done.
  - destruct (here (t :: text)) eqn:E.
    + apply Hh in E as (w & post & E & Hl & He). split; [intros _|done]. exists w, post. simpl. split; [done|].
      split; [exists [], w; by repeat constructor|done].
    + rewrite (orb_comm (t =? c)), (Z.eqb_sym t c). destruct ((c =? ch_dot) || (c =? t)) eqn:Ea.
      * apply accepts_test in Ea. rewrite IH. split.
        -- intros (w & post & -> & (u & v & -> & Hu & Hl) & He). exists (t :: u ++ v), post. split; [done|].
           split; [|done]. exists (t :: u), v. split; [done|]. split; [by constructor|done].
        -- intros (w & post & Et & (u & v & -> & Hu & Hl) & He). destruct u as [|x u].
           ++ rewrite (proj2 (Hh (t :: text))) in E; [done|]. exists v, post. done.
           ++ simpl in Et. injection Et as -> ->. exists (u ++ v), post. split; [done|]. split; [|done].
              exists u, v. apply Forall_cons in Hu as [_ Hu]. done.
      * split; [done|]. intros (w & post & Et & (u & v & -> & Hu & Hl) & He). destruct u as [|x u].
        -- rewrite (proj2 (Hh (t :: text))) in E; [done|]. exists v, post. done.
        -- simpl in Et. injection Et as <- _. apply Forall_cons in Hu as [Hx _]. apply accepts_test in Hx. by rewrite Hx in Ea.
Qed.

Lemma match_one_ok c rest p text : (∀ t, rest t = true ↔ at_start p t) →
  match_one c rest text = true ↔ at_start (One c :: p.1, p.2) text.
Proof.
  intros Hr. unfold match_one. destruct text as [|t text].
  - split; [done|]. intros (w & post & [-> ->]%symmetry%app_nil & (x & w' & ? & _) & _). done.
  - destruct ((c =? ch_dot) || (c =? t)) eqn:Ea.
    + apply accepts_test in Ea. rewrite Hr. split.
      * intros (w & post & -> & Hl & He). exists (t :: w), post. split; [done|]. split; [|done]. by exists t, w.
      * intros (w & post & Et & (x & w' & -> & Hx & Hl) & He). simpl in Et. injection Et as -> ->. by exists w', post.
    + split; [done|]. intros (w & post & Et & (x & w' & -> & Hx & Hl) & He). simpl in Et. injection Et as <- _.
      apply accepts_test in Hx. by rewrite Hx in Ea.
Qed.

Lemma matchhere_ok re : ∀ text, matchhere re text = true ↔ at_start (parse re) text.
Proof.
  induction re as [re IH] using (induction_ltof1 _ (@length Z)). unfold ltof in IH. intros text.
  destruct re as [|c [|d re2]]; cbn [matchhere parse].
  - split; [intros _; by exists [], text|done].
  - destruct (c =? ch_dollar).
    + destruct text as [|t text]; [split; [intros _; by exists [], []|done]|]. split; [done|].
      intros (w & post & E & -> & He). simpl in He, E. by rewrite He in E.
    + apply (match_one_ok c _ ([], false)). intros t. split; [intros _; by exists [], t|done].
  - destruct (d =? ch_star).
    + apply matchstar_ok, IH. simpl. lia.
    + apply (match_one_ok c (matchhere (d :: re2)) (parse (d :: re2))), IH. simpl. lia.
Qed.

Lemma match_loop_ok re text : match_loop re text = true ↔ matches false (parse re) text.
Proof.
  assert (Hpre : ∀ t, matchhere re t = true → matches false (parse re) t).
  { intros t (w & post & -> & Hl & He)%matchhere_ok. by exists [], w, post. }
  induction text as [|t text IH]; cbn [match_loop].
  - destruct (matchhere re []) eqn:E; [split; auto|]. split; [done|].
    intros (pre & w & post & [_ [-> ->]%app_nil]%symmetry%app_nil & Hl & _ & He). rewrite <- E. apply matchhere_ok. by exists [], [].
  - destruct (matchhere re (t :: text)) eqn:E; [split; auto|]. rewrite IH. split.
    + intros (pre & w & post & -> & Hl & _ & He). by exists (t :: pre), w, post.
    + intros (pre & w & post & Et & Hl & _ & He). destruct pre as [|x pre].
      * assert (Ht : matchhere re (t :: text) = true) by (apply matchhere_ok; by exists w, post). congruence.
      * simpl in Et. injection Et as -> ->. by exists pre, w, post.
Qed.

Lemma grep_match_ok re text : grep_match re text = true ↔ meaning re text.
Proof.
  unfold grep_match, meaning. destruct re as [|c re]; [apply match_loop_ok|]. destruct (c =? ch_caret); [|apply match_loop_ok].
  rewrite matchhere_ok. split.
  - intros (w & post & -> & Hl & He). by exists [], w, post.
  - intros (pre & w & post & -> & Hl & Hb & He). rewrite Hb by done. by exists w, post.
Qed.

(** ** Lines *)

(** The complete lines of a text and what follows the last of them. *)
Fixpoint lines (l : list Z) : list (list Z) * list Z :=
  match l with
  | [] => ([], [])
  | x :: l' =>
      let '(ls, r) := lines l' in
      if x =? ch_nl then ([] :: ls, r)
      else match ls with [] => ([], x :: r) | a :: ls' => ((x :: a) :: ls', r) end
  end.

Definition printed (pattern : list Z) (ls : list (list Z)) : list (Z * list Z) :=
  (λ a, (1, a ++ [ch_nl])) <$> filter (λ a, grep_match pattern a = true) ls.

(** Each piece ends a line and fits in the buffer with what is kept of the last one. *)
Fixpoint fits (kept : list Z) (pieces : list (list Z)) : Prop :=
  match pieces with
  | [] => True
  | c :: pieces' =>
      ch_nl ∈ c ∧ (length kept + length c < BUFSIZE)%nat ∧ Forall (λ x, x ≠ 0) c ∧ fits (lines (kept ++ c)).2 pieces'
  end.

Definition plain (l : list Z) : Prop := Forall (λ x, x ≠ 0) l.

Lemma lines_cut a l : ch_nl ∉ a → lines (a ++ ch_nl :: l) = (a :: (lines l).1, (lines l).2).
Proof.
  induction a as [|x a IH]; intros Ha; cbn [lines app].
  - by destruct (lines l).
  - apply not_elem_of_cons in Ha as [Hx Ha]. rewrite (IH Ha). by rewrite (proj2 (Z.eqb_neq x ch_nl)) by congruence.
Qed.

Lemma lines_none l : ch_nl ∉ l → lines l = ([], l).
Proof.
  induction l as [|x l IH]; intros Hl; cbn [lines]; [done|]. apply not_elem_of_cons in Hl as [Hx Hl]. rewrite (IH Hl).
  by rewrite (proj2 (Z.eqb_neq x ch_nl)) by congruence.
Qed.

Lemma nl_split l : (∃ a t, l = a ++ ch_nl :: t ∧ ch_nl ∉ a) ∨ ch_nl ∉ l.
Proof.
  induction l as [|x l [(a & t & -> & Ha)|IH]]; [right; by apply not_elem_of_nil|..]; destruct (decide (x = ch_nl)) as [-> |Hx].
  - left. exists [], (a ++ ch_nl :: t). split; [done|by apply not_elem_of_nil].
  - left. exists (x :: a), t. split; [done|]. apply not_elem_of_cons. split; [congruence|done].
  - left. exists [], l. split; [done|by apply not_elem_of_nil].
  - right. apply not_elem_of_cons. split; [congruence|done].
Qed.

Lemma lines_app t u : lines (t ++ u) = ((lines t).1 ++ (lines ((lines t).2 ++ u)).1, (lines ((lines t).2 ++ u)).2).
Proof.
  induction t as [t IH] using (induction_ltof1 _ (@length Z)). unfold ltof in IH. destruct (nl_split t) as [(a & t' & -> & Ha)|Ht].
  - rewrite <- app_assoc. simpl. rewrite !lines_cut, IH by (done || rewrite length_app; simpl; lia). done.
  - rewrite (lines_none t) by done. simpl. by destruct (lines (t ++ u)).
Qed.

Lemma plain_rest t : plain t → plain (lines t).2.
Proof.
  induction t as [t IH] using (induction_ltof1 _ (@length Z)). unfold ltof in IH. intros Hp. destruct (nl_split t) as [(a & t' & -> & Ha)|Ht].
  - rewrite lines_cut by done. apply Forall_app in Hp as [_ [_ Hp]%Forall_cons]. apply IH; [rewrite length_app; simpl; lia|done].
  - by rewrite lines_none.
Qed.

Lemma store_at_mid u x y v : store_at (length u) [y] (u ++ x :: v) = u ++ y :: v.
Proof.
  unfold store_at. rewrite take_app_length. simpl. rewrite drop_app_ge by lia. by replace (length u + 1 - length u)%nat with 1%nat by lia.
Qed.

Lemma strchr_found a l i : ch_nl ∉ a → plain a → strchr_at (a ++ ch_nl :: l) ch_nl i = Some (i + length a)%nat.
Proof.
  revert i. induction a as [|x a IH]; intros i Ha Hp; simpl; [by rewrite Nat.add_0_r|].
  apply not_elem_of_cons in Ha as [Hx Ha]. apply Forall_cons in Hp as [Hx0 Hp].
  rewrite (proj2 (Z.eqb_neq x 0)), (proj2 (Z.eqb_neq x ch_nl)), IH by (done || congruence). f_equal. lia.
Qed.

Lemma strchr_none a l i : ch_nl ∉ a → strchr_at (a ++ 0 :: l) ch_nl i = None.
Proof.
  revert i. induction a as [|x a IH]; intros i Ha; simpl; [done|]. apply not_elem_of_cons in Ha as [Hx Ha].
  destruct (x =? 0); [done|]. by rewrite (proj2 (Z.eqb_neq x ch_nl)), IH by (done || congruence).
Qed.

Lemma cstring_app a l : plain a → cstring (a ++ 0 :: l) = a.
Proof. induction 1 as [|x a Hx _ IH]; simpl; [done|]. by rewrite (proj2 (Z.eqb_neq x 0) Hx), IH. Qed.

Lemma printed_cons pattern a ls : printed pattern (a :: ls) =
  (if grep_match pattern a then [(1, a ++ [ch_nl])] else []) ++ printed pattern ls.
Proof. unfold printed. rewrite filter_cons. case_decide as E; destruct (grep_match pattern a); done. Qed.

Lemma printed_app pattern l1 l2 : printed pattern (l1 ++ l2) = printed pattern l1 ++ printed pattern l2.
Proof. unfold printed. by rewrite filter_app, fmap_app. Qed.

Lemma grep_lines_ok pattern fuel : ∀ t pre junk i o, plain t → (length (lines t).1 < fuel)%nat →
  runs (grep_lines fuel pattern (length pre)) (λ p s', ∃ pre', p = length pre' ∧
      s' = Gst (pre' ++ (lines t).2 ++ 0 :: junk) i (o ++ printed pattern (lines t).1) ∧
      (length pre' + length (lines t).2 = length pre + length t)%nat)
    (Gst (pre ++ t ++ 0 :: junk) i o).
Proof.
  induction fuel as [|fuel IH]; intros t pre junk i o Hp Hf; [lia|]. cbn [grep_lines]. kstep. kstep. simpl.
  rewrite drop_app_length. destruct (nl_split t) as [(a & t' & -> & Ha)|Ht].
  - rewrite lines_cut in * by done. apply Forall_app in Hp as [Hpa [_ Hpt]%Forall_cons]. cbn [app length fst snd] in *.
    rewrite <- app_assoc. simpl. rewrite strchr_found by done.
    assert (Hst : ∀ x y, store_at (length pre + length a) [y] (pre ++ a ++ x :: t' ++ 0 :: junk) = pre ++ a ++ y :: t' ++ 0 :: junk).
    { intros x y. rewrite <- length_app, !(app_assoc pre). apply store_at_mid. }
    kstep. kstep. kstep. kstep. unfold set_gbuf. cbn [g_buf g_in g_out]. rewrite Hst, drop_app_length, cstring_app by done.
    assert (Hnext : ∀ o', runs (grep_lines fuel pattern (S (length pre + length a))) (λ p s', ∃ pre', p = length pre' ∧
        s' = Gst (pre' ++ (lines t').2 ++ 0 :: junk) i (o' ++ printed pattern (lines t').1) ∧
        (length pre' + length (lines t').2 = length pre + length (a ++ ch_nl :: t'))%nat)
      (Gst (pre ++ a ++ (if grep_match pattern a then ch_nl else 0) :: t' ++ 0 :: junk) i o')).
    { intros o'. set (z := if grep_match pattern a then ch_nl else 0). pose proof (IH t' (pre ++ a ++ [z]) junk i o' Hpt ltac:(lia)) as H.
      rewrite <- !app_assoc in H. rewrite !length_app in *. cbn [length app] in *.
      replace (length pre + (length a + 1))%nat with (S (length pre + length a)) in H by lia.
      eapply runs_mono; [exact H|]. intros p s' (pre' & -> & -> & E). exists pre'. split; [done|]. split; [done|]. lia. }
    rewrite printed_cons. destruct (grep_match pattern a).
    + kstep. kstep. kstep. kstep. kstep. unfold write. kstep. cbn [g_buf g_in g_out]. rewrite Hst, drop_app_length.
      replace (take (length pre + length a + 1 - length pre) (a ++ ch_nl :: t' ++ 0 :: junk)) with (a ++ [ch_nl]).
      * eapply runs_mono; [apply Hnext|]. intros p s' (pre' & -> & -> & E). exists pre'. split; [done|]. split; [|done].
        by rewrite <- app_assoc.
      * replace (length pre + length a + 1 - length pre)%nat with (length (a ++ [ch_nl])) by (rewrite length_app; simpl; lia).
        change (ch_nl :: t' ++ 0 :: junk) with ([ch_nl] ++ t' ++ 0 :: junk). rewrite app_assoc. by rewrite take_app_length.
    + kstep. kstep. apply Hnext.
  - rewrite strchr_none, lines_none by done. kstep. exists pre. split; [done|]. split; [|done].
    unfold printed. simpl. by rewrite app_nil_r.
Qed.

Lemma lines_count t : (length (lines t).1 + length (lines t).2 ≤ length t)%nat.
Proof.
  induction t as [t IH] using (induction_ltof1 _ (@length Z)). unfold ltof in IH. destruct (nl_split t) as [(a & t' & -> & Ha)|Ht].
  - rewrite lines_cut by done. rewrite length_app. cbn [length fst snd]. specialize (IH t' ltac:(rewrite length_app; simpl; lia)). lia.
  - rewrite lines_none by done. simpl. lia.
Qed.

(** A piece read behind what was kept. *)
Lemma store_read kept c rest : (length kept + length c < length (kept ++ rest))%nat →
  ∃ junk, store_at (length kept + length c) [0] (store_at (length kept) c (kept ++ rest)) = kept ++ c ++ 0 :: junk ∧
    length (kept ++ c ++ 0 :: junk) = length (kept ++ rest).
Proof.
  intros Hl. rewrite length_app in Hl. unfold store_at at 2. rewrite take_app_length, drop_app_ge by lia.
  replace (length kept + length c - length kept)%nat with (length c) by lia.
  destruct (drop (length c) rest) as [|x junk] eqn:E.
  { apply (f_equal length) in E. rewrite length_drop in E. simpl in E. lia. }
  exists junk. rewrite <- length_app, (app_assoc kept), store_at_mid, <- app_assoc. split; [done|].
  apply (f_equal length) in E. rewrite length_drop in E. rewrite !length_app. simpl in *. lia.
Qed.

Lemma store_at_0 l b : store_at 0 l b = l ++ drop (length l) b.
Proof. done. Qed.

Lemma rest_no_nl t : ch_nl ∉ (lines t).2.
Proof.
  induction t as [t IH] using (induction_ltof1 _ (@length Z)). unfold ltof in IH. destruct (nl_split t) as [(a & t' & -> & Ha)|Ht].
  - rewrite lines_cut by done. apply IH. rewrite length_app. simpl. lia.
  - by rewrite lines_none.
Qed.

Lemma lines_shorter t : ch_nl ∈ t → (length (lines t).2 < length t)%nat.
Proof.
  intros Ht. destruct (nl_split t) as [(a & t' & -> & Ha)|?]; [|done]. pose proof (lines_count t').
  rewrite lines_cut by done. rewrite length_app. cbn [length snd]. lia.
Qed.

Lemma grep_loop_ok pattern fuel : ∀ pieces kept rest o, plain kept → ch_nl ∉ kept → length (kept ++ rest) = BUFSIZE → fits kept pieces →
  (length pieces < fuel)%nat →
  runs (grep_loop fuel pattern (length kept)) (λ _ s', g_out s' = o ++ printed pattern (lines (kept ++ concat pieces)).1)
    (Gst (kept ++ rest) pieces o).
Proof.
  induction fuel as [|fuel IH]; intros pieces kept rest o Hp Hkn Hlen Hfit Hf; [lia|]. cbn [grep_loop]. kstep.
  destruct pieces as [|c pieces].
  { eapply runs_of_eq; [reflexivity|]. apply runs_ret. simpl. rewrite app_nil_r, (lines_none kept) by done. unfold printed. simpl. by rewrite app_nil_r. }
  destruct Hfit as (Hnl & Hsz & Hc & Hfit).
  eapply runs_of_eq; [unfold read; cbn [g_in g_buf g_out]; reflexivity|]. rewrite take_ge, drop_ge by lia.
  destruct c as [|x c]; [by apply not_elem_of_nil in Hnl|]. set (l := x :: c) in *.
  destruct (store_read kept l rest) as (junk & Es & Ejl); [lia|].
  replace (length kept + length l - length l)%nat with (length kept) by lia.
  kstep. kstep. kstep. kstep. unfold set_gbuf. cbn [g_buf g_in g_out]. rewrite Es, (app_assoc kept). kstep.
  assert (Hpl : plain (kept ++ l)) by (by apply Forall_app).
  pose proof (lines_count (kept ++ l)) as Hcnt. rewrite length_app in Hcnt.
  pose proof (lines_shorter (kept ++ l) ltac:(apply elem_of_app; by right)) as Hsh. rewrite length_app in Hsh.
  eapply runs_mono; [apply (grep_lines_ok pattern (S BUFSIZE) (kept ++ l) []); [done|lia]|].
  intros p s' (pre & -> & -> & Epre). cbn [length] in Epre. rewrite length_app in Epre.
  destruct (decide (length pre = 0%nat)); [lia|]. destruct (decide (0 < length kept + length l)%nat); [|lia]. kstep. kstep. kstep. kstep. cbn [g_buf g_in g_out].
  replace (length kept + length l - length pre)%nat with (length (lines (kept ++ l)).2) by lia.
  set (r := (lines (kept ++ l)).2) in *. rewrite drop_app_length, take_app_length, store_at_0.
  cbn [concat]. rewrite (app_assoc kept), (lines_app (kept ++ l)). fold r. cbn [fst snd].
  rewrite printed_app, (app_assoc o). apply IH; [by apply plain_rest|apply rest_no_nl| |done|simpl in Hf; lia].
  rewrite length_app, length_drop, !length_app. rewrite !length_app in *. cbn [length] in *. lia.
Qed.

(** C24. [grep] returns and prints exactly the lines that match, in order, where to
    match is what the pattern means: some part of the line is a word of its items,
    at the beginning of the line after [^] and at its end before [$].  It does so
    when every [read] brings the end of a line and the buffer has room for it. *)
Theorem grep_prints_matching_lines pattern s :
  length (g_buf s) = BUFSIZE → fits [] (g_in s) →
  (∀ l, grep_match pattern l = true ↔ meaning pattern l) ∧
  runs (grep pattern) (λ _ s', g_out s' = g_out s ++ printed pattern (lines (concat (g_in s))).1) s.
Proof.
  intros Hb Hf. split; [apply grep_match_ok|]. destruct s as [b i o]. simpl in Hb, Hf. unfold grep. kstep. kstep.
  apply (grep_loop_ok pattern _ i [] b o); [constructor|by apply not_elem_of_nil|done|done|]. cbn [g_in].
  assert (Hl : ∀ k, fits k i → (length i ≤ length (concat i))%nat); [|specialize (Hl _ Hf); lia].
  clear. induction i as [|c i IH]; intros k; cbn [fits concat length]; [lia|]. intros (Hc & _ & _ & Hf).
  apply IH in Hf. rewrite length_app. destruct c; [by apply not_elem_of_nil in Hc|]. simpl. lia.
Qed.

(** Three lines in two pieces, and the pattern [^b.*d$]. *)
Definition sample_gst : gst :=
  Gst (replicate BUFSIZE 0) [chars_of "abcd" ++ [ch_nl] ++ chars_of "bc"; chars_of "cd" ++ [ch_nl] ++ chars_of "bd!" ++ [ch_nl]] [].

Lemma grep_prints_matching_lines_witness :
  runs (grep (chars_of "^b.*d$")) (λ _ s', g_out s' = [(1, chars_of "bccd" ++ [ch_nl])]) sample_gst.
Proof.
  eapply runs_mono.
  - apply (grep_prints_matching_lines (chars_of "^b.*d$") sample_gst).
    + apply length_replicate.
    + cbn [fits g_in sample_gst]. split_and!; try done.
      * apply (bool_decide_unpack _). by vm_compute.
      * apply (bool_decide_unpack _). by vm_compute.
      * apply (bool_decide_unpack _). by vm_compute.
      * apply (bool_decide_unpack _). by vm_compute.
      * apply (bool_decide_unpack _). by vm_compute.
      * apply (bool_decide_unpack _). by vm_compute.
  - intros [] s' ->. by vm_compute.
Defined.

(** When a [read] ends inside the first line of the buffer, that part of the line is
    lost: the line [abc] arrives in two pieces and the pattern [^c] matches it. *)
Lemma grep_loses_the_start_of_a_line :
  runs (grep (chars_of "^c")) (λ _ s', g_out s' = [(1, chars_of "c" ++ [ch_nl])])
    (Gst (replicate BUFSIZE 0) [chars_of "ab"; chars_of "c" ++ [ch_nl]] []) ∧
  grep_match (chars_of "^c") (chars_of "abc") = false.
Proof. split; [|by vm_compute]. eexists _, _. split; [vm_compute; reflexivity|]. by vm_compute. Qed.
