(* ===== verification/Sh.v ===== *)
(** * The shell: [xv6/sh.c]

    The command line is parsed in place: the commands point into the buffer, where
    [nulterminate] then ends the words.  A pointer into the buffer is its offset. *)

From S2P Require Import Prelude.

Definition EXEC : Z := 1.
Definition REDIR : Z := 2.
Definition PIPE : Z := 3.
Definition LIST : Z := 4.
Definition BACK : Z := 5.
Definition MAXARGS : nat := 10.

Definition O_RDONLY : Z := 0.
Definition O_WRONLY : Z := 1.
Definition O_RDWR : Z := 2.
Definition O_CREATE : Z := 512.

(** ** Commands, over words [W] *)
Inductive command (W : Type) :=
| execcmd (argv : list W)
| redircmd (sub : command W) (file : W) (mode fd : Z)
| pipecmd (left right : command W)
| listcmd (left right : command W)
| backcmd (sub : command W).
Arguments execcmd {W}.
Arguments redircmd {W}.
Arguments pipecmd {W}.
Arguments listcmd {W}.
Arguments backcmd {W}.

(** A word of the buffer is where it starts and where it ends: [argv[i]] and
    [eargv[i]]. *)
Definition word : Type := nat * nat.
Notation cmd := (command word).

(** ** Tokens *)

(** [" \t\r\n\v"] and ["<|>&;()"]. *)
Definition whitespace : list Z := [32; 9; 13; 10; 11].
Definition symbols : list Z := [60; 124; 62; 38; 59; 40; 41].

Definition ch_in : Z := 60.      (* < *)
Definition ch_out : Z := 62.     (* > *)
Definition ch_bar : Z := 124.    (* | *)
Definition ch_amp : Z := 38.     (* & *)
Definition ch_semi : Z := 59.    (* ; *)
Definition ch_open : Z := 40.
Definition ch_close : Z := 41.
Definition ch_plus : Z := 43.    (* for >> *)
Definition ch_a : Z := 97.       (* for a word *)

(** [strchr(l, c)] is not null; it is for the NUL. *)
Definition among (l : list Z) (c : Z) : bool := negb (c =? 0) && bool_decide (c ∈ l).

(** The parser works on the characters [buf] up to the NUL, whose end is [es]; its
    state is the pointer [*ps]. *)
Section parser.
Context (buf : list Z).

Definition es : nat := length buf.

(** [*s]; the NUL at the end. *)
Definition char_at (s : nat) : Z := default 0 (buf !! s).

(** [while(s < es && strchr(whitespace, *s)) s++], with [k] characters to go. *)
Fixpoint skip_space (k s : nat) : nat :=
  match k with
  | O => s
  | S k' => if among whitespace (char_at s) then skip_space k' (S s) else s
  end.

Definition skip (s : nat) : nat := skip_space (es - s) s.

(** The loop over the characters of a word. *)
Fixpoint skip_word_loop (k s : nat) : nat :=
  match k with
  | O => s
  | S k' =>
      if negb (among whitespace (char_at s)) && negb (among symbols (char_at s)) then skip_word_loop k' (S s) else s
  end.

Definition skip_word (s : nat) : nat := skip_word_loop (es - s) s.

(** The kind of the token, and where it starts and ends. *)
Definition gettoken : K nat (Z * word) := λ ps,
  let q := skip ps in
  let c := char_at q in
  let '(ret, s) :=
    if c =? 0 then (c, q)
    else if bool_decide (c ∈ [ch_bar; ch_open; ch_close; ch_semi; ch_amp; ch_in]) then (c, S q)
    else if c =? ch_out then
      if char_at (S q) =? ch_out then (ch_plus, S (S q)) else (c, S q)
    else (ch_a, skip_word q) in
  Ok ((ret, (q, s)), skip s).

Definition peek (toks : list Z) : K nat bool := λ ps,
  let s := skip ps in
  Ok (among toks (char_at s), s).

(** ** Parsing *)

(** A redirection: file, mode and descriptor; a command inside redirections, the
    last of them outermost. *)
Definition redir : Type := word * Z * Z.
Definition wrap {W} (c : command W) (rs : list (W * Z * Z)) : command W :=
  fold_left (λ c '(file, mode, fd), redircmd c file mode fd) rs c.

(** [parseredirs] wraps its command in these; [k] bounds the rounds. *)
Fixpoint parseredirs (k : nat) : K nat (list redir) :=
  match k with
  | O => khang
  | S k' =>
      b ← peek [ch_in; ch_out];
      if b : bool then
        '(tok, _) ← gettoken;
        '(t, w) ← gettoken;
        if negb (t =? ch_a) then kpanic "missing file for redirection"
        else
          let r := if tok =? ch_in then (w, O_RDONLY, 0) else (w, Z.lor O_WRONLY O_CREATE, 1) in
          rs ← parseredirs k';
          mret (r :: rs)
      else mret []
  end.

(** The loop of [parseexec]: the arguments, and the redirections that [ret] wraps
    around the command they are stored in. *)
Fixpoint parseexec_loop (k : nat) (argv : list word) (rs : list redir) : K nat (list word * list redir) :=
  match k with
  | O => khang
  | S k' =>
      b ← peek [ch_bar; ch_close; ch_amp; ch_semi];
      if b : bool then mret (argv, rs)
      else
        '(tok, w) ← gettoken;
        if tok =? 0 then mret (argv, rs)
        else if negb (tok =? ch_a) then kpanic "syntax"
        else
          let argv := argv ++ [w] in
          if (MAXARGS <=? length argv)%nat then kpanic "too many args"
          else
            rs' ← parseredirs (S es);
            parseexec_loop k' argv (rs ++ rs')
  end.

(** [while(peek(ps, es, "&"))] in [parseline]. *)
Fixpoint parseback (k : nat) (c : cmd) : K nat cmd :=
  match k with
  | O => khang
  | S k' =>
      b ← peek [ch_amp];
      if b : bool then gettoken;; parseback k' (backcmd c) else mret c
  end.

Fixpoint parseline (fuel : nat) : K nat cmd :=
  match fuel with
  | O => khang
  | S fuel' =>
      c ← parsepipe fuel';
      c ← parseback (S es) c;
      b ← peek [ch_semi];
      if b : bool then
        gettoken;;
        r ← parseline fuel';
        mret (listcmd c r)
      else mret c
  end
with parsepipe (fuel : nat) : K nat cmd :=
  match fuel with
  | O => khang
  | S fuel' =>
      c ← parseexec fuel';
      b ← peek [ch_bar];
      if b : bool then
        gettoken;;
        r ← parsepipe fuel';
        mret (pipecmd c r)
      else mret c
  end
with parseexec (fuel : nat) : K nat cmd :=
  match fuel with
  | O => khang
  | S fuel' =>
      b ← peek [ch_open];
      if b : bool then parseblock fuel'
      else
        rs ← parseredirs (S es);
        '(argv, rs) ← parseexec_loop (S es) [] rs;
        mret (wrap (execcmd argv) rs)
  end
with parseblock (fuel : nat) : K nat cmd :=
  match fuel with
  | O => khang
  | S fuel' =>
      b ← peek [ch_open];
      if negb b then kpanic "parseblock"
      else
        gettoken;;
        c ← parseline fuel';
        b ← peek [ch_close];
        if negb b then kpanic "syntax - missing )"
        else
          gettoken;;
          rs ← parseredirs (S es);
          mret (wrap c rs)
  end.

(** Every level of the recursion reads a character after at most four calls. *)
Definition parse_fuel : nat := 4 * S es.

(** [parsecmd] up to [nulterminate]; characters left over are a syntax error. *)
Definition parse : K nat cmd :=
  c ← parseline parse_fuel;
  peek [];;
  s ← kget;
  if negb (s =? es)%nat then kpanic "leftovers" else mret c.

End parser.

(** ** The words *)

(** [nulterminate] on the buffer with its NUL. *)
Fixpoint nulterminate (c : cmd) (buf : list Z) : list Z :=
  match c with
  | execcmd argv => fold_left (λ b '(_, e), <[e := 0]> b) argv buf
  | redircmd sub (_, e) _ _ => <[e := 0]> (nulterminate sub buf)
  | pipecmd l r | listcmd l r => nulterminate r (nulterminate l buf)
  | backcmd sub => nulterminate sub buf
  end.

(** The parsed command and the buffer that holds its words. *)
Definition parsecmd (s : list Z) : res (cmd * list Z) :=
  match parse s 0%nat with
  | Ok (c, _) => Ok (c, nulterminate c (s ++ [0]))
  | Panic msg => Panic msg
  | Hang => Hang
  end.

(** The string at an offset. *)
Fixpoint string_at (l : list Z) : list Z :=
  match l with [] => [] | x :: l' => if x =? 0 then [] else x :: string_at l' end.

Definition str (b : list Z) (w : word) : list Z := string_at (drop w.1 b).

(** ** Running *)

(** What a process of the shell asks of the system. *)
Inductive event :=
| Exec (argv : list (list Z))
| Open (file : list Z) (mode : Z)
| Close (fd : Z)
| Chdir (path : list Z)
| Fork
| Wait
| Print (fd : Z) (text : string)
| PrintPath (fd : Z) (text : string) (path : list Z)
| Exit.

(** [runcmd] in the child; [started argv] when [exec] does not return. *)
Section run.
Context (started : list (list Z) → bool).

Fixpoint runcmd (b : list Z) (c : cmd) : list event :=
  match c with
  | execcmd argv =>
      match argv with
      | [] => [Exit]
      | _ =>
          let args := str b <$> argv in
          Exec args :: if started args then [] else [Exit]
      end
  | redircmd sub file mode fd => Close fd :: Open (str b file) mode :: runcmd b sub
  | listcmd l _ => Print 2 "list not implemented" :: runcmd b l
  | pipecmd l _ => Print 2 "pipe not implemented" :: runcmd b l
  | backcmd sub => Print 2 "background not implemented" :: runcmd b sub
  end.

(** The child of [main]. *)
Definition run_child (line : list Z) : list event :=
  match parsecmd line with
  | Ok (c, b) => runcmd b c
  | Panic msg =>
      (if bool_decide (msg = "leftovers") then [Print 2 "leftovers"; Print 2 "syntax"] else [Print 2 msg]) ++ [Exit]
  | Hang => []
  end.

(** [gets] of at most [n - 1] characters, through the end of the line; the rest of
    the input. *)
Fixpoint gets (n : nat) (inp : list Z) : list Z * list Z :=
  match n with
  | O | 1%nat => ([], inp)
  | S n' =>
      match inp with
      | [] => ([], [])
      | c :: inp' =>
          if (c =? 10) || (c =? 13) then ([c], inp')
          else let '(l, r) := gets n' inp' in (c :: l, r)
      end
  end.

Definition BUFLEN : nat := 100.

(** [main]: the events of the parent and, after each [Fork], those of the child.
    [chdir_ok] is whether [chdir] succeeds, [fork_ok k] whether the [k]th fork does;
    [fuel] bounds the lines. *)
Context (chdir_ok : list Z → bool) (fork_ok : nat → bool).

Fixpoint main_loop (fuel k : nat) (inp : list Z) : list event :=
  match fuel with
  | O => []
  | S fuel' =>
      Print 2 "$ " ::
      let '(line, inp') := gets BUFLEN inp in
      let buf := string_at line in
      match buf with
      | [] => [Exit]
      | _ =>
          if bool_decide (take 3 buf = [99; 100; 32]) then
            let path := drop 3 (take (length buf - 1) buf) in
            Chdir path :: (if chdir_ok path then [] else [PrintPath 2 "cannot cd" path]) ++ main_loop fuel' k inp'
          else if fork_ok k then
            Fork :: run_child buf ++ Wait :: main_loop fuel' (S k) inp'
          else [Print 2 "fork"; Exit]
      end
  end.

(** [open_console] is what [open] of the console returns, in turn. *)
Fixpoint open_three (fds : list Z) : list event :=
  match fds with
  | [] => []
  | fd :: fds' =>
      Open [99; 111; 110; 115; 111; 108; 101] O_RDWR ::
      (if 0 <=? fd then if 3 <=? fd then [Close fd] else open_three fds' else [])
  end.

Definition main (fds inp : list Z) : list event :=
  open_three fds ++ main_loop (S (length inp)) 0 inp.

End run.
