(* ===== verification/ShProps.v ===== *)
(** * The shell: what its parser accepts

    The lexical syntax and the grammar of command lines, and the proof that the
    parser of [xv6/sh.c] reads every line of the grammar as it should, and ends on
    any line. *)

From S2P Require Import Prelude Sh.

(** ** Lexical syntax *)
Inductive token := TSym (c : Z) | TAppend | TWord (w : list Z).

Definition blank (c : Z) : Prop := c ∈ whitespace.
#[global] Instance blank_dec c : Decision (blank c).
Proof. unfold blank. apply _. Defined.

Definition plain (c : Z) : Prop := c ≠ 0 ∧ c ∉ whitespace ∧ c ∉ symbols.

#[global] Instance plain_dec c : Decision (plain c).
Proof. unfold plain. apply _. Defined.

Definition ends_word (l : list Z) : Prop := match l with [] => True | c :: _ => ¬ plain c end.
#[global] Instance ends_word_dec l : Decision (ends_word l).
Proof. destruct l; simpl; apply _. Defined.

Definition no_gt (l : list Z) : Prop := match l with [] => True | c :: _ => c ≠ ch_out end.

Inductive lexes : list Z → list token → Prop :=
| lex_end sp : Forall blank sp → lexes sp []
| lex_sym sp c l ts : Forall blank sp → c ∈ [ch_bar; ch_open; ch_close; ch_semi; ch_amp; ch_in] → lexes l ts →
    lexes (sp ++ c :: l) (TSym c :: ts)
| lex_out sp l ts : Forall blank sp → no_gt l → lexes l ts → lexes (sp ++ ch_out :: l) (TSym ch_out :: ts)
| lex_append sp l ts : Forall blank sp → lexes l ts → lexes (sp ++ ch_out :: ch_out :: l) (TAppend :: ts)
| lex_word sp w l ts : Forall blank sp → w ≠ [] → Forall plain w → ends_word l → lexes l ts →
    lexes (sp ++ w ++ l) (TWord w :: ts).

Lemma blank_not_plain c : blank c → ¬ plain c.
Proof. unfold plain, blank. tauto. Qed.

Lemma symbol_not_blank c : c ∈ symbols → ¬ blank c.
Proof. intros Hc Hb. unfold symbols, blank, whitespace in *. set_unfold. lia. Qed.

Lemma out_not_blank : ¬ blank ch_out.
Proof. apply symbol_not_blank. unfold symbols, ch_out. set_solver. Qed.

Lemma sym_in c : c ∈ [ch_bar; ch_open; ch_close; ch_semi; ch_amp; ch_in] → c ∈ symbols ∧ c ≠ ch_out ∧ c ≠ 0.
Proof. unfold symbols, ch_bar, ch_open, ch_close, ch_semi, ch_amp, ch_in, ch_out. intros H. set_unfold. lia. Qed.

Lemma blank_nonzero c : blank c → c ≠ 0.
Proof. unfold blank, whitespace. intros H. set_unfold. lia. Qed.

Lemma lexes_blank x l ts : blank x → lexes (x :: l) ts → lexes l ts.
Proof.
  intros Hx Hl. remember (x :: l) as xl eqn:E. destruct Hl as [sp Hsp|sp c l' ts Hsp Hc Hl'|sp l' ts Hsp Hn Hl'|sp l' ts Hsp Hl'|sp w l' ts Hsp Hw Hp He Hl'].
  - subst sp. apply Forall_cons in Hsp as [_ Hsp]. by constructor.
  - destruct sp as [|y sp]; injection E as -> <-; [by apply sym_in in Hc as [?%symbol_not_blank _]|].
    apply Forall_cons in Hsp as [_ Hsp]. by constructor.
  - destruct sp as [|y sp]; injection E as E1 E2; subst x l; [by apply out_not_blank in Hx|].
    apply Forall_cons in Hsp as [_ Hsp]. by constructor.
  - destruct sp as [|y sp]; injection E as E1 E2; subst x l; [by apply out_not_blank in Hx|].
    apply Forall_cons in Hsp as [_ Hsp]. by constructor.
  - destruct sp as [|y sp]; [destruct w as [|z w]; [done|]|]; injection E as -> <-.
    + apply Forall_cons in Hp as [Hp _]. by apply blank_not_plain in Hx.
    + apply Forall_cons in Hsp as [_ Hsp]. by constructor.
Qed.

Lemma lexes_blanks sp l ts : Forall blank sp → lexes (sp ++ l) ts → lexes l ts.
Proof. induction 1 as [|x sp Hx _ IH]; [done|]. intros Hl. apply IH. by apply (lexes_blank x). Qed.

(** The text from its first character that is not blank. *)
Inductive starts : list Z → list token → Prop :=
| starts_end : starts [] []
| starts_sym c l ts : c ∈ [ch_bar; ch_open; ch_close; ch_semi; ch_amp; ch_in] → lexes l ts → starts (c :: l) (TSym c :: ts)
| starts_out l ts : no_gt l → lexes l ts → starts (ch_out :: l) (TSym ch_out :: ts)
| starts_append l ts : lexes l ts → starts (ch_out :: ch_out :: l) (TAppend :: ts)
| starts_word c w l ts : plain c → Forall plain w → ends_word l → lexes l ts → starts (c :: w ++ l) (TWord (c :: w) :: ts).

Lemma lexes_starts l ts : lexes l ts → ∃ sp l', l = sp ++ l' ∧ Forall blank sp ∧ starts l' ts.
Proof.
  intros [sp Hsp|sp c l' ts' Hsp Hc Hl'|sp l' ts' Hsp Hn Hl'|sp l' ts' Hsp Hl'|sp w l' ts' Hsp Hw Hp He Hl'].
  - exists sp, []. rewrite app_nil_r. repeat split; [done|constructor].
  - exists sp, (c :: l'). repeat split; [done|by constructor].
  - exists sp, (ch_out :: l'). repeat split; [done|by constructor].
  - exists sp, (ch_out :: ch_out :: l'). repeat split; [done|by constructor].
  - destruct w as [|c w]; [done|]. apply Forall_cons in Hp as [Hc Hp]. exists sp, ((c :: w) ++ l').
    repeat split; [done|by constructor].
Qed.

Lemma starts_lexes l ts : starts l ts → lexes l ts.
Proof.
  intros [|c l' ts' Hc Hl|l' ts' Hn Hl|l' ts' Hl|c w l' ts' Hc Hw He Hl].
  - by apply (lex_end []).
  - by apply (lex_sym []).
  - by apply (lex_out []).
  - by apply (lex_append []).
  - apply (lex_word [] (c :: w)); try done. by constructor.
Qed.

Lemma starts_head l ts : starts l ts → match l with [] => True | c :: _ => ¬ blank c ∧ c ≠ 0 end.
Proof.
  intros [|c l' ts' Hc Hl|l' ts' Hn Hl|l' ts' Hl|c w l' ts' Hc Hw He Hl]; try done.
  - apply sym_in in Hc as (Hc & _ & ?). split; [by apply symbol_not_blank|done].
  - split; [apply out_not_blank|done].
  - split; [apply out_not_blank|done].
  - destruct Hc as (? & ? & _). done.
Qed.

(** ** The grammar

    A command line is pipelines with their [&], separated by [;]; a pipeline is
    commands separated by [|]; a command is words and redirections, or a line in
    parentheses and redirections. *)
Inductive rkind := RIn | ROut | RAppend.
#[global] Instance rkind_eq_dec : EqDecision rkind.
Proof. solve_decision. Defined.
Notation redirection := (rkind * list Z)%type.

Inductive cst :=
| CExec (first : list redirection) (args : list (list Z * list redirection))
| CBlock (line : cst) (rs : list redirection)
| CPipe (left right : cst)
| CLine (pipe : cst) (backs : nat)
| CList (pipe : cst) (backs : nat) (rest : cst).

Fixpoint is_exec (c : cst) : Prop :=
  match c with CExec _ args => (length args < MAXARGS)%nat | CBlock l _ => is_line l | _ => False end
with is_pipe (c : cst) : Prop :=
  match c with CPipe e p => is_exec e ∧ is_pipe p | CExec _ args => (length args < MAXARGS)%nat | CBlock l _ => is_line l | _ => False end
with is_line (c : cst) : Prop :=
  match c with CLine p _ => is_pipe p | CList p _ l => is_pipe p ∧ is_line l | _ => False end.

(** Its tokens. *)
Definition rtok (k : rkind) : token := match k with RIn => TSym ch_in | ROut => TSym ch_out | RAppend => TAppend end.
Definition rtoks (rs : list redirection) : list token := rs ≫= λ '(k, w), [rtok k; TWord w].
Definition atoks (args : list (list Z * list redirection)) : list token := args ≫= λ '(w, rs), TWord w :: rtoks rs.

Fixpoint toks (c : cst) : list token :=
  match c with
  | CExec rs args => rtoks rs ++ atoks args
  | CBlock l rs => TSym ch_open :: toks l ++ TSym ch_close :: rtoks rs
  | CPipe e p => toks e ++ TSym ch_bar :: toks p
  | CLine p k => toks p ++ replicate k (TSym ch_amp)
  | CList p k l => toks p ++ replicate k (TSym ch_amp) ++ TSym ch_semi :: toks l
  end.

(** The command it stands for. *)
Definition rsem (r : redirection) : list Z * Z * Z :=
  match r.1 with RIn => (r.2, O_RDONLY, 0) | _ => (r.2, Z.lor O_WRONLY O_CREATE, 1) end.

Fixpoint denotes (c : cst) : command (list Z) :=
  match c with
  | CExec rs args => wrap (execcmd args.*1) (rsem <$> rs ++ concat args.*2)
  | CBlock l rs => wrap (denotes l) (rsem <$> rs)
  | CPipe e p => pipecmd (denotes e) (denotes p)
  | CLine p k => Nat.iter k backcmd (denotes p)
  | CList p k l => listcmd (Nat.iter k backcmd (denotes p)) (denotes l)
  end.

(** ** Commands and their words *)

Fixpoint cmd_map {V W} (f : V → W) (c : command V) : command W :=
  match c with
  | execcmd argv => execcmd (f <$> argv)
  | redircmd sub file mode fd => redircmd (cmd_map f sub) (f file) mode fd
  | pipecmd l r => pipecmd (cmd_map f l) (cmd_map f r)
  | listcmd l r => listcmd (cmd_map f l) (cmd_map f r)
  | backcmd sub => backcmd (cmd_map f sub)
  end.

Fixpoint words {W} (c : command W) : list W :=
  match c with
  | execcmd argv => argv
  | redircmd sub file _ _ => words sub ++ [file]
  | pipecmd l r | listcmd l r => words l ++ words r
  | backcmd sub => words sub
  end.

Lemma cmd_map_wrap {V W} (f : V → W) rs : ∀ c, cmd_map f (wrap c rs) = wrap (cmd_map f c) ((λ '(w, m, d), (f w, m, d)) <$> rs).
Proof. induction rs as [|[[w m] d] rs IH]; intros c; [done|]. exact (IH (redircmd c w m d)). Qed.

Lemma words_wrap {W} rs : ∀ c : command W, words (wrap c rs) = words c ++ ((λ '(w, _, _), w) <$> rs).
Proof.
  induction rs as [|[[w m] d] rs IH]; intros c; [by rewrite app_nil_r|].
  transitivity (words (redircmd c w m d) ++ ((λ '(w, _, _), w) <$> rs)); [apply IH|]. simpl. by rewrite <- app_assoc.
Qed.

Lemma cmd_map_backs {V W} (f : V → W) k c : cmd_map f (Nat.iter k backcmd c) = Nat.iter k backcmd (cmd_map f c).
Proof. induction k; simpl; congruence. Qed.

Lemma words_backs {W} k (c : command W) : words (Nat.iter k backcmd c) = words c.
Proof. by induction k. Qed.

Lemma cmd_map_ext {V W} (f g : V → W) c : (∀ w, w ∈ words c → f w = g w) → cmd_map f c = cmd_map g c.
Proof.
  induction c as [argv|sub IH w m d|l IHl r IHr|l IHl r IHr|sub IH]; simpl; intros Hfg.
  - f_equal. by apply list_fmap_ext_ne || (apply Forall_fmap_ext, Forall_forall; auto).
  - rewrite IH, Hfg; [done|set_solver|set_solver].
  - rewrite IHl, IHr; [done|set_solver|set_solver].
  - rewrite IHl, IHr; [done|set_solver|set_solver].
  - by rewrite IH.
Qed.

(** ** Tokens in the buffer *)
Section buffer.
Context (buf : list Z) (Hnz : Forall (λ c, c ≠ 0) buf).
Notation es := (es buf).
Notation char_at := (char_at buf).
Notation skip := (skip buf).

(** The tokens ahead of [*ps]. *)
Definition ahead (ps : nat) (ts : list token) : Prop := (ps ≤ es)%nat ∧ lexes (drop ps buf) ts.

(** A word of the buffer and its characters. *)
Definition slice (w : word) : list Z := take (w.2 - w.1) (drop w.1 buf).

Record word_ok (w : word) : Prop := {
  wo_range : (w.1 < w.2 ≤ es)%nat;
  wo_plain : Forall plain (slice w);
  wo_end : ¬ plain (char_at w.2)
}.

Lemma char_drop s : char_at s = match drop s buf with [] => 0 | c :: _ => c end.
Proof. unfold Sh.char_at. rewrite <- (Nat.add_0_r s) at 1. rewrite <- lookup_drop. by destruct (drop s buf). Qed.

Lemma drop_more s a l : drop s buf = a ++ l → drop (s + length a) buf = l.
Proof. intros E. by rewrite <- drop_drop, E, drop_app_length. Qed.

Lemma drop_room s a l : (s ≤ es)%nat → drop s buf = a ++ l → (s + length a ≤ es)%nat ∧ length l = (es - (s + length a))%nat.
Proof. intros Hs E. apply (f_equal length) in E. rewrite length_drop, length_app in E. unfold Sh.es in *. lia. Qed.

Lemma among_blank c : among whitespace c = true ↔ blank c.
Proof. unfold among. rewrite andb_true_iff, negb_true_iff, Z.eqb_neq, bool_decide_eq_true. split; [by intros []|]. intros H. split; [by apply blank_nonzero|done]. Qed.

Lemma skip_blanks sp : ∀ s l k, drop s buf = sp ++ l → (length sp ≤ k)%nat → Forall blank sp →
  match l with [] => k = length sp | c :: _ => ¬ blank c end → skip_space buf k s = (s + length sp)%nat.
Proof.
  induction sp as [|x sp IH]; intros s l k E Hk Hsp Hl.
  - rewrite Nat.add_0_r. destruct k as [|k]; [done|]. cbn [skip_space]. rewrite char_drop, E. destruct l as [|c l]; [done|]. simpl.
    destruct (among whitespace c) eqn:Ea; [by apply among_blank in Ea|done].
  - destruct k as [|k]; [simpl in Hk; lia|]. cbn [skip_space]. apply Forall_cons in Hsp as [Hx Hsp]. rewrite char_drop, E. simpl.
    rewrite (proj2 (among_blank x) Hx). assert (E' : drop (S s) buf = sp ++ l).
    { replace (S s) with (s + length [x])%nat by (simpl; lia). apply (drop_more s [x]). done. }
    rewrite (IH (S s) l k E'); [lia|simpl in Hk; lia|done|]. destruct l; [simpl in Hl; lia|done].
Qed.

Lemma skip_ok ps ts : ahead ps ts → (ps ≤ skip ps ≤ es)%nat ∧ starts (drop (skip ps) buf) ts.
Proof.
  intros [Hle Hl]. apply lexes_starts in Hl as (sp & l & E & Hsp & Hst). pose proof (drop_room ps sp l Hle E) as [Hr Hlen].
  unfold Sh.skip. rewrite (skip_blanks sp ps l); [|done|lia|done|].
  - split; [lia|]. by rewrite (drop_more ps sp l).
  - pose proof (starts_head _ _ Hst) as Hh. destruct l; [simpl in Hlen; lia|by destruct Hh].
Qed.

Lemma ahead_skip ps ts : ahead ps ts → ahead (skip ps) ts.
Proof. intros Ha. destruct (skip_ok ps ts Ha) as [? Hs]. split; [lia|by apply starts_lexes]. Qed.

(** Does the next token start with a character of [toks]? *)
Definition next_in (toks : list Z) (ts : list token) : bool :=
  match ts with
  | TSym c :: _ => bool_decide (c ∈ toks)
  | TAppend :: _ => bool_decide (ch_out ∈ toks)
  | _ => false
  end.

Lemma peek_ok toks ps ts : Forall (.∈ symbols) toks → ahead ps ts → ∃ ps', peek buf toks ps = Ok (next_in toks ts, ps') ∧ ahead ps' ts.
Proof.
  intros Ht Ha. destruct (skip_ok ps ts Ha) as [Hr Hs]. exists (skip ps). split; [|by apply ahead_skip]. unfold peek. do 2 f_equal.
  rewrite char_drop. rewrite Forall_forall in Ht.
  destruct Hs as [|c l ts' Hc Hl|l ts' Hn Hl|l ts' Hl|c w l ts' Hc Hw He Hl]; simpl; unfold among; try done.
  - apply sym_in in Hc as (_ & _ & Hc). by rewrite (proj2 (Z.eqb_neq c 0) Hc).
  - rewrite bool_decide_eq_false_2; [by rewrite andb_false_r|]. intros Hin. by apply Ht, Hc in Hin.
Qed.

Lemma skip_word_ok w : ∀ s l k, drop s buf = w ++ l → (length w ≤ k)%nat → Forall plain w → ends_word l →
  (l = [] → k = length w) → skip_word_loop buf k s = (s + length w)%nat.
Proof.
  induction w as [|x w IH]; intros s l k E Hk Hw He Hend.
  - rewrite Nat.add_0_r. destruct k as [|k]; [done|]. cbn [skip_word_loop]. rewrite char_drop, E. destruct l as [|c l]; [by specialize (Hend eq_refl)|]. simpl.
    destruct (negb _ && negb _) eqn:Ea; [|done]. apply andb_true_iff in Ea as [E1%negb_true_iff E2%negb_true_iff].
    assert (Hc : c ≠ 0) by (apply (proj1 (Forall_forall _ buf) Hnz); rewrite <- (take_drop s buf), E; set_solver).
    exfalso. apply He. unfold among in E1, E2. rewrite (proj2 (Z.eqb_neq c 0) Hc) in E1, E2. simpl in E1, E2.
    rewrite bool_decide_eq_false in E1, E2. done.
  - destruct k as [|k]; [simpl in Hk; lia|]. cbn [skip_word_loop]. apply Forall_cons in Hw as [Hx Hw]. rewrite char_drop, E. simpl.
    destruct Hx as (Hx0 & Hx1 & Hx2). unfold among. rewrite !bool_decide_eq_false_2, !andb_false_r by done. simpl.
    assert (E' : drop (S s) buf = w ++ l).
    { replace (S s) with (s + length [x])%nat by (simpl; lia). apply (drop_more s [x]). done. }
    rewrite (IH (S s) l k E'); [lia|simpl in Hk; lia|done|done|]. intros ->. specialize (Hend eq_refl). simpl in Hend. lia.
Qed.

(** What [gettoken] returns for the next token. *)
Definition got (ts : list token) (k : Z) (w : word) (ps : nat) : Prop :=
  match ts with
  | [] => k = 0 ∧ ahead ps []
  | TSym c :: ts' => k = c ∧ ahead ps ts'
  | TAppend :: ts' => k = ch_plus ∧ ahead ps ts'
  | TWord x :: ts' => k = ch_a ∧ ahead ps ts' ∧ word_ok w ∧ slice w = x
  end.

Lemma gettoken_ok ps ts : ahead ps ts → ∃ k w ps', gettoken buf ps = Ok ((k, w), ps') ∧ got ts k w ps'.
Proof.
  intros Ha. destruct (skip_ok ps ts Ha) as [Hr Hs]. unfold gettoken. set (q := skip ps) in *. rewrite !char_drop.
  assert (Hnext : ∀ a l ts', drop q buf = a ++ l → lexes l ts' → ahead (skip (q + length a)) ts').
  { intros a l ts' E Hl. apply ahead_skip. split; [by destruct (drop_room q a l ltac:(lia) E)|]. by rewrite (drop_more q a l). }
  destruct (drop q buf) as [|c rest] eqn:E; [inversion Hs; subst|].
  { eexists _, _, _. split; [reflexivity|]. split; [done|]. rewrite <- (Nat.add_0_r q). apply (Hnext [] [] []); [done|]. by apply (lex_end []). }
  inversion Hs as [|c' l ts' Hc Hl E1 E2|l ts' Hn Hl E1 E2|l ts' Hl E1 E2|c' w l ts' Hc Hw He Hl E1 E2]; subst.
  - pose proof (sym_in _ Hc) as (_ & Hno & Hc0). rewrite (proj2 (Z.eqb_neq c 0) Hc0), bool_decide_eq_true_2 by done.
    eexists _, _, _. split; [reflexivity|]. split; [done|]. replace (S q) with (q + length [c])%nat by (simpl; lia). by apply (Hnext [c] rest).
  - change (ch_out =? 0) with false. rewrite bool_decide_eq_false_2 by (unfold ch_out, ch_bar, ch_open, ch_close, ch_semi, ch_amp, ch_in; set_solver).
    change (ch_out =? ch_out) with true. cbv beta iota.
    replace (drop (S q) buf) with rest by (symmetry; replace (S q) with (q + length [ch_out])%nat by (simpl; lia); by apply (drop_more q [ch_out])).
    assert ((match rest with [] => 0 | c :: _ => c end =? ch_out) = false) as -> by (destruct rest; [done|by apply Z.eqb_neq]).
    eexists _, _, _. split; [reflexivity|]. split; [done|]. replace (S q) with (q + length [ch_out])%nat by (simpl; lia). by apply (Hnext [ch_out] rest).
  - change (ch_out =? 0) with false. rewrite bool_decide_eq_false_2 by (unfold ch_out, ch_bar, ch_open, ch_close, ch_semi, ch_amp, ch_in; set_solver).
    change (ch_out =? ch_out) with true. cbv beta iota.
    replace (drop (S q) buf) with (ch_out :: l) by (symmetry; replace (S q) with (q + length [ch_out])%nat by (simpl; lia); by apply (drop_more q [ch_out])).
    change (ch_out =? ch_out) with true. cbv beta iota. eexists _, _, _. split; [reflexivity|]. split; [done|].
    replace (S (S q)) with (q + length [ch_out; ch_out])%nat by (simpl; lia). by apply (Hnext [ch_out; ch_out] l).
  - pose proof Hc as (Hc0 & Hcw & Hcs). rewrite (proj2 (Z.eqb_neq c 0) Hc0).
    rewrite bool_decide_eq_false_2 by (intros [? _]%sym_in; done).
    assert (Hno : c ≠ ch_out) by (intros ->; apply Hcs; unfold symbols, ch_out; set_solver). rewrite (proj2 (Z.eqb_neq c ch_out) Hno).
    destruct (drop_room q (c :: w) l ltac:(lia) E) as [Hroom Hll].
    assert (Esw : skip_word buf q = (q + length (c :: w))%nat).
    { apply (skip_word_ok (c :: w) q l); [done|lia|by constructor|done|]. intros ->. cbn [length] in *. lia. }
    eexists _, _, _. split; [reflexivity|]. rewrite Esw. split; [done|]. split; [by apply (Hnext (c :: w) l)|].
    assert (Esl : slice (q, q + length (c :: w))%nat = c :: w).
    { unfold slice. cbn [fst snd]. rewrite E. replace (q + length (c :: w) - q)%nat with (length (c :: w)) by lia. change (c :: w ++ l) with ((c :: w) ++ l). by rewrite take_app_length. }
    split; [|done]. split; cbn [fst snd]; [simpl in *; lia|rewrite Esl; by constructor|].
    rewrite char_drop, (drop_more q (c :: w) l E). destruct l; [by intros []|done].
Qed.

(** ** The parser reads the grammar *)

Lemma runs_peek cs ps ts (Q : bool → nat → Prop) : Forall (.∈ symbols) cs → ahead ps ts →
  (∀ ps', ahead ps' ts → Q (next_in cs ts) ps') → runs (peek buf cs) Q ps.
Proof. intros Hc Ha HQ. destruct (peek_ok cs ps ts Hc Ha) as (ps' & E & Ha'). exists (next_in cs ts), ps'. auto. Qed.

Lemma runs_token ps ts (Q : Z * word → nat → Prop) : ahead ps ts → (∀ k w ps', got ts k w ps' → Q (k, w) ps') → runs (gettoken buf) Q ps.
Proof. intros Ha HQ. destruct (gettoken_ok ps ts Ha) as (k & w & ps' & E & Hg). exists (k, w), ps'. auto. Qed.

Definition word_rel (x : list Z) (w : word) : Prop := word_ok w ∧ slice w = x.
Definition redir_rel (r : redirection) (o : redir) : Prop := word_ok o.1.1 ∧ (slice o.1.1, o.1.2, o.2) = rsem r.

Lemma redirs_ok rs : ∀ ts ps k, ahead ps (rtoks rs ++ ts) → next_in [ch_in; ch_out] ts = false → (length rs < k)%nat →
  runs (parseredirs buf k) (λ out ps', ahead ps' ts ∧ Forall2 redir_rel rs out) ps.
Proof.
  assert (Hsy : Forall (.∈ symbols) [ch_in; ch_out]) by (apply (bool_decide_unpack _); by vm_compute).
  induction rs as [|[k w] rs IH]; intros ts ps [|n] Ha Hts Hk; try (simpl in Hk; lia); cbn [parseredirs]; kstep;
    apply (runs_peek _ _ _ _ Hsy Ha); intros ps1 Ha1.
  - simpl. rewrite Hts. kstep. done.
  - assert (next_in [ch_in; ch_out] (rtoks ((k, w) :: rs) ++ ts) = true) as -> by (destruct k; by vm_compute).
    kstep. apply (runs_token _ _ _ Ha1). intros tok w1 ps2 Hg. kstep.
    assert (Hg' : ahead ps2 (TWord w :: rtoks rs ++ ts) ∧ (tok =? ch_in) = bool_decide (k = RIn)).
    { destruct k; simpl in Hg; destruct Hg as [-> Hg]; done. }
    destruct Hg' as [Ha2 Etok]. apply (runs_token _ _ _ Ha2). intros t w2 ps3 (-> & Ha3 & Hw & Ew).
    change (ch_a =? ch_a) with true. cbn [negb]. kstep. eapply runs_mono; [apply (IH ts ps3 n Ha3 Hts); simpl in Hk; lia|].
    intros out ps4 [Ha4 Hr]. kstep. split; [done|]. constructor; [|done]. rewrite Etok. unfold redir_rel, rsem. destruct k; simpl; rewrite Ew; done.
Qed.

Definition stops : list Z := [ch_bar; ch_close; ch_amp; ch_semi].

Lemma atoks_cons w rs args : atoks ((w, rs) :: args) = TWord w :: rtoks rs ++ atoks args.
Proof. done. Qed.

Lemma stops_no_redir ts : next_in stops ts = true → next_in [ch_in; ch_out] ts = false.
Proof.
  unfold next_in, stops, ch_bar, ch_close, ch_amp, ch_semi, ch_in, ch_out. destruct ts as [|[c| |w] ts]; try done; rewrite bool_decide_eq_true, bool_decide_eq_false;
    intros H1 H2; set_unfold; lia.
Qed.

Lemma length_rtoks rs : length (rtoks rs) = (2 * length rs)%nat.
Proof. induction rs as [|[k w] rs IH]; [done|]. cbn [rtoks mbind list_bind app length] in *. unfold rtoks in IH. simpl. rewrite IH. lia. Qed.

Lemma length_atoks args : (length args ≤ length (atoks args))%nat.
Proof. induction args as [|[w rs] args IH]; [done|]. rewrite atoks_cons. cbn [length]. rewrite length_app. lia. Qed.

Lemma args_ok args : ∀ argv rs ts ps k, ahead ps (atoks args ++ ts) → (ts = [] ∨ next_in stops ts = true) →
  (length args < k)%nat → (length argv + length args < MAXARGS)%nat → (length (atoks args) ≤ es)%nat →
  runs (parseexec_loop buf k argv rs) (λ '(argv', rs') ps', ahead ps' ts ∧ ∃ ws os, argv' = argv ++ ws ∧ rs' = rs ++ os ∧
    Forall2 word_rel args.*1 ws ∧ Forall2 redir_rel (concat args.*2) os) ps.
Proof.
  assert (Hsy : Forall (.∈ symbols) stops) by (apply (bool_decide_unpack _); by vm_compute).
  induction args as [|[w rw] args IH]; intros argv rs ts ps [|n] Ha Hts Hk Hm Hlen; try (simpl in Hk; lia); cbn [parseexec_loop]; kstep;
    apply (runs_peek _ _ _ _ Hsy Ha); intros ps1 Ha1.
  - destruct Hts as [-> | Hts]; simpl; [|rewrite Hts; kstep; split; [done|]; exists [], []; rewrite !app_nil_r; by repeat constructor].
    kstep. apply (runs_token _ _ _ Ha1). intros k w ps2 [-> Ha2]. apply runs_ret. split; [done|]. exists [], []. rewrite !app_nil_r.
    by repeat constructor.
  - cbn [next_in app atoks mbind list_bind]. kstep. apply (runs_token _ _ _ Ha1). intros k w2 ps2 (-> & Ha2 & Hw & Ew).
    change (ch_a =? 0) with false. change (ch_a =? ch_a) with true. cbn [negb]. rewrite length_app. cbn [length] in *.
    rewrite (proj2 (Nat.leb_gt _ _)) by lia. kstep. rewrite <- app_assoc in Ha2.
    rewrite atoks_cons in Hlen. cbn [length] in Hlen. rewrite length_app in Hlen.
    eapply runs_mono; [apply (redirs_ok rw (atoks args ++ ts) ps2 _ Ha2)|].
    { destruct args as [|[w' rw'] args]; [|done]. destruct Hts as [-> | Hts]; [done|]. by apply stops_no_redir. }
    { rewrite length_rtoks in Hlen. lia. }
    intros out ps3 [Ha3 Hr]. eapply runs_mono; [apply (IH (argv ++ [w2]) (rs ++ out) ts ps3 n Ha3 Hts)|].
    { lia. }
    { rewrite length_app. simpl. lia. }
    { lia. }
    intros [argv' rs'] ps4 (Ha4 & ws & os & -> & -> & Hws & Hos). split; [done|]. exists (w2 :: ws), (out ++ os).
    rewrite <- !app_assoc. split; [done|]. split; [done|]. split; [by constructor|]. by apply Forall2_app.
Qed.

Lemma ahead_length ps ts : ahead ps ts → (length ts ≤ es)%nat.
Proof.
  intros [_ Hl]. assert (Hle : (length ts ≤ length (drop ps buf))%nat); [|rewrite length_drop in Hle; unfold Sh.es; lia].
  induction Hl as [| | | |sp w l ts Hsp Hw]; rewrite ?length_app; cbn [length] in *; try lia. destruct w; [done|]. cbn [length]. lia.
Qed.

(** A tree of the buffer that reads as a command. *)
Definition reads (t : cmd) (m : command (list Z)) : Prop := cmd_map slice t = m ∧ Forall word_ok (words t).

Lemma reads_wrap t m rs out : reads t m → Forall2 redir_rel rs out → reads (wrap t out) (wrap m (rsem <$> rs)).
Proof.
  intros [<- Hw] Hr. split.
  - rewrite cmd_map_wrap. f_equal. induction Hr as [|r [[w mo] fd] rs out [_ E] _ IH]; [done|]. rewrite !fmap_cons, IH. f_equal. exact E.
  - rewrite words_wrap. apply Forall_app. split; [done|]. clear Hw. induction Hr as [|r [[w mo] fd] rs out [Hw _] _ IH]; simpl; by constructor.
Qed.

Lemma reads_exec xs ws : Forall2 word_rel xs ws → reads (execcmd ws) (execcmd xs).
Proof.
  intros H. split; simpl.
  - f_equal. induction H as [|x w xs ws [_ E] _ IH]; [done|]. by rewrite fmap_cons, IH, E.
  - induction H as [|x w xs ws [Hw _] _ IH]; by constructor.
Qed.

Definition exec_reads (c : cst) : Prop := is_exec c → ∀ ts fuel ps, (4 * length (toks c) + 2 ≤ fuel)%nat → ahead ps (toks c ++ ts) →
  (ts = [] ∨ next_in stops ts = true) → runs (parseexec buf fuel) (λ t ps', ahead ps' ts ∧ reads t (denotes c)) ps.
Definition pipe_reads (c : cst) : Prop := is_pipe c → ∀ ts fuel ps, (4 * length (toks c) + 3 ≤ fuel)%nat → ahead ps (toks c ++ ts) →
  (ts = [] ∨ next_in [ch_close; ch_amp; ch_semi] ts = true) → runs (parsepipe buf fuel) (λ t ps', ahead ps' ts ∧ reads t (denotes c)) ps.
Definition line_reads (c : cst) : Prop := is_line c → ∀ ts fuel ps, (4 * length (toks c) + 4 ≤ fuel)%nat → ahead ps (toks c ++ ts) →
  (ts = [] ∨ next_in [ch_close] ts = true) → runs (parseline buf fuel) (λ t ps', ahead ps' ts ∧ reads t (denotes c)) ps.

(** The first tokens that matter to [peek]. *)
Lemma next_among cs cs' ts : next_in cs ts = true → (∀ c, c ∈ cs → c ∉ cs') → next_in cs' ts = false.
Proof.
  unfold next_in. destruct ts as [|[c| |w] ts]; try done; rewrite bool_decide_eq_true, bool_decide_eq_false; auto.
Qed.

Lemma next_sub cs cs' ts : next_in cs ts = true → (∀ c, c ∈ cs → c ∈ cs') → next_in cs' ts = true.
Proof. unfold next_in. destruct ts as [|[c| |w] ts]; try done; rewrite !bool_decide_eq_true; auto. Qed.

Ltac chars := apply (bool_decide_unpack _); by vm_compute.

Lemma cexec_reads rs args : exec_reads (CExec rs args).
Proof.
  intros Hn ts [|fuel] ps Hf Ha Hts; [lia|]. cbn [parseexec toks is_exec] in *. pose proof (ahead_length _ _ Ha) as Hlen.
  rewrite !length_app, length_rtoks in *. kstep. apply (runs_peek [ch_open] _ _ _ ltac:(chars) Ha). intros ps1 Ha1.
  assert (next_in [ch_open] ((rtoks rs ++ atoks args) ++ ts) = false) as ->.
  { destruct rs as [|[[] w] rs]; try done. destruct args as [|[w rw] args]; try done. destruct Hts as [-> | Hts]; [done|].
    apply (next_among stops); [done|]. intros c. unfold stops, ch_bar, ch_close, ch_amp, ch_semi, ch_open. set_solver by lia. }
  rewrite <- app_assoc in Ha1. kstep. eapply runs_mono; [apply (redirs_ok rs _ ps1 _ Ha1)|].
  { destruct args as [|[w rw] args]; [|done]. destruct Hts as [-> | Hts]; [done|]. by apply stops_no_redir. }
  { lia. }
  intros out ps2 [Ha2 Hr]. kstep. eapply runs_mono; [apply (args_ok args [] out ts ps2 _ Ha2 Hts)|]; try (simpl; lia).
  { pose proof (length_atoks args). lia. }
  intros [argv rs'] ps3 (Ha3 & ws & os & -> & -> & Hws & Hos). kstep. split; [done|]. simpl. apply reads_wrap; [by apply reads_exec|].
  by apply Forall2_app.
Qed.

Lemma block_reads l rs : line_reads l → exec_reads (CBlock l rs).
Proof.
  intros IH Hn ts [|[|fuel]] ps Hf Ha Hts; try lia. cbn [toks is_exec] in *. pose proof (ahead_length _ _ Ha) as Hlen.
  cbn [parseexec parseblock]. cbn [length app] in *. rewrite !length_app in *. cbn [length] in *. rewrite length_rtoks in *.
  kstep. apply (runs_peek [ch_open] _ _ _ ltac:(chars) Ha). intros ps1 Ha1. change (next_in [ch_open] _) with true. cbv beta iota.
  kstep. apply (runs_peek [ch_open] _ _ _ ltac:(chars) Ha1). intros ps2 Ha2. change (next_in [ch_open] _) with true. cbn [negb].
  kstep. apply (runs_token _ _ _ Ha2). intros k w ps3 [_ Ha3]. rewrite <- app_assoc in Ha3. kstep.
  eapply runs_mono; [apply (IH Hn _ fuel ps3 ltac:(lia) Ha3); by right|]. intros t ps4 [Ha4 Ht].
  kstep. apply (runs_peek [ch_close] _ _ _ ltac:(chars) Ha4). intros ps5 Ha5. change (next_in [ch_close] _) with true. cbn [negb].
  kstep. apply (runs_token _ _ _ Ha5). intros k' w' ps6 [_ Ha6]. kstep.
  eapply runs_mono; [apply (redirs_ok rs ts ps6 _ Ha6)|].
  { destruct Hts as [-> | Hts]; [done|]. by apply stops_no_redir. }
  { lia. }
  intros out ps7 [Ha7 Hr]. kstep. split; [done|]. by apply reads_wrap.
Qed.

Lemma pipe_of_exec c : exec_reads c → is_exec c → pipe_reads c.
Proof.
  intros IH Hn _ ts [|fuel] ps Hf Ha Hts; [lia|]. cbn [parsepipe]. kstep.
  eapply runs_mono; [apply (IH Hn ts fuel ps ltac:(lia) Ha)|].
  { destruct Hts as [-> | Hts]; [by left|]. right. eapply next_sub; [done|]. intros x. unfold stops. set_solver. }
  intros t ps1 [Ha1 Ht]. kstep. apply (runs_peek [ch_bar] _ _ _ ltac:(chars) Ha1). intros ps2 Ha2.
  assert (next_in [ch_bar] ts = false) as ->.
  { destruct Hts as [-> | Hts]; [done|]. eapply next_among; [done|]. intros x. unfold ch_close, ch_amp, ch_semi, ch_bar. set_solver by lia. }
  by kstep.
Qed.

Lemma cpipe_reads e p : exec_reads e → pipe_reads p → pipe_reads (CPipe e p).
Proof.
  intros IHe IHp [He Hp] ts [|fuel] ps Hf Ha Hts; [lia|]. cbn [toks parsepipe] in *. rewrite length_app in Hf. cbn [length] in Hf.
  rewrite <- app_assoc in Ha. kstep. eapply runs_mono; [apply (IHe He _ fuel ps ltac:(lia) Ha); by right|]. intros t ps1 [Ha1 Ht].
  kstep. apply (runs_peek [ch_bar] _ _ _ ltac:(chars) Ha1). intros ps2 Ha2. change (next_in [ch_bar] _) with true. cbv beta iota.
  kstep. apply (runs_token _ _ _ Ha2). intros k w ps3 [_ Ha3]. kstep.
  eapply runs_mono; [apply (IHp Hp ts fuel ps3 ltac:(lia) Ha3 Hts)|]. intros t' ps4 [Ha4 Ht']. kstep. split; [done|].
  destruct Ht as [Em Hw], Ht' as [Em' Hw']. split; [simpl; by rewrite Em, Em'|]. by apply Forall_app.
Qed.

Lemma backs_ok k : ∀ ts ps c fuel, ahead ps (replicate k (TSym ch_amp) ++ ts) → next_in [ch_amp] ts = false → (k < fuel)%nat →
  runs (parseback buf fuel c) (λ t ps', ahead ps' ts ∧ t = Nat.iter k backcmd c) ps.
Proof.
  induction k as [|k IH]; intros ts ps c [|fuel] Ha Hts Hk; try lia; cbn [parseback]; kstep;
    apply (runs_peek [ch_amp] _ _ _ ltac:(chars) Ha); intros ps1 Ha1.
  - simpl. rewrite Hts. by kstep.
  - change (next_in [ch_amp] _) with true. cbv beta iota. kstep. apply (runs_token _ _ _ Ha1). intros k' w ps2 [_ Ha2].
    eapply runs_mono; [apply (IH ts ps2 (backcmd c) fuel Ha2 Hts); lia|]. intros t ps3 [Ha3 ->]. split; [done|]. by rewrite Nat.iter_swap.
Qed.

(** A pipeline and its [&], inside [parseline]. *)
Lemma pipe_backs p k ts ps fuel (Q : cmd → nat → Prop) (rest : cmd → K nat cmd) :
  pipe_reads p → is_pipe p → (4 * length (toks p) + 3 ≤ fuel)%nat → ahead ps (toks p ++ replicate k (TSym ch_amp) ++ ts) →
  (ts = [] ∨ next_in [ch_close; ch_semi] ts = true) →
  (∀ t ps', ahead ps' ts → reads t (Nat.iter k backcmd (denotes p)) → runs (rest t) Q ps') →
  runs (c ← parsepipe buf fuel; c ← parseback buf (S es) c; rest c) Q ps.
Proof.
  intros IH Hp Hf Ha Hts Hrest. pose proof (ahead_length _ _ Ha) as Hlen. rewrite !length_app, length_replicate in Hlen.
  kstep. eapply runs_mono; [apply (IH Hp _ fuel ps Hf Ha)|].
  { destruct k; [|by right]. destruct Hts as [-> | Hts]; [by left|]. right. eapply next_sub; [done|]. set_solver. }
  intros t ps1 [Ha1 [Em Hw]]. kstep. eapply runs_mono; [apply (backs_ok k ts ps1 t _ Ha1)|].
  { destruct Hts as [-> | Hts]; [done|]. eapply next_among; [done|]. intros x. unfold ch_close, ch_amp, ch_semi. set_solver by lia. }
  { lia. }
  intros t' ps2 [Ha2 ->]. apply Hrest; [done|]. split; [by rewrite cmd_map_backs, Em|by rewrite words_backs].
Qed.

Lemma cline_reads p k : pipe_reads p → line_reads (CLine p k).
Proof.
  intros IH Hp ts [|fuel] ps Hf Ha Hts; [lia|]. cbn [toks parseline is_line denotes] in *. rewrite length_app, length_replicate in Hf.
  rewrite <- app_assoc in Ha. apply (pipe_backs p k ts ps fuel); [done|done|lia|done| |].
  { destruct Hts as [-> | Hts]; [by left|]. right. eapply next_sub; [done|]. set_solver. }
  intros t ps1 Ha1 Ht. kstep. apply (runs_peek [ch_semi] _ _ _ ltac:(chars) Ha1). intros ps2 Ha2.
  assert (next_in [ch_semi] ts = false) as ->; [|by kstep].
  destruct Hts as [-> | Hts]; [done|]. eapply next_among; [done|]. intros x. unfold ch_close, ch_semi. set_solver by lia.
Qed.

Lemma clist_reads p k l : pipe_reads p → line_reads l → line_reads (CList p k l).
Proof.
  intros IHp IHl [Hp Hl] ts [|fuel] ps Hf Ha Hts; [lia|]. cbn [toks parseline denotes] in *.
  rewrite !length_app, length_replicate in Hf. cbn [length] in Hf. rewrite <- !app_assoc in Ha.
  apply (pipe_backs p k (TSym ch_semi :: toks l ++ ts) ps fuel); [done|done|lia|done|by right|].
  intros t ps1 Ha1 [Em Hw]. kstep. apply (runs_peek [ch_semi] _ _ _ ltac:(chars) Ha1). intros ps2 Ha2.
  change (next_in [ch_semi] _) with true. cbv beta iota. kstep. apply (runs_token _ _ _ Ha2). intros k' w ps3 [_ Ha3]. kstep.
  eapply runs_mono; [apply (IHl Hl ts fuel ps3 ltac:(lia) Ha3 Hts)|]. intros t' ps4 [Ha4 [Em' Hw']]. kstep. split; [done|].
  split; [simpl; by rewrite Em, Em'|]. by apply Forall_app.
Qed.

Lemma cst_reads c : exec_reads c ∧ pipe_reads c ∧ line_reads c.
Proof.
  induction c as [rs args|l (_ & _ & IHl) rs|e (IHe & _ & _) p (_ & IHp & _)|p (_ & IHp & _) k|p (_ & IHp & _) k l (_ & _ & IHl)];
    (split; [|split]); try (intros Hno; by destruct Hno).
  - apply cexec_reads.
  - intros Hn. by apply (pipe_of_exec _ (cexec_reads rs args)).
  - by apply block_reads.
  - intros Hn. by apply (pipe_of_exec _ (block_reads l rs IHl)).
  - by apply cpipe_reads.
  - by apply cline_reads.
  - by apply clist_reads.
Qed.

(** ** Any line is parsed or refused

    [settles m P ps]: [m] from [ps] returns with [P], or stops with a message. *)
Definition settles {A} (m : K nat A) (P : A → nat → Prop) (ps : nat) : Prop :=
  match m ps with Ok (a, ps') => P a ps' | Panic _ => True | Hang => False end.

Lemma settles_ret {A} (x : A) (P : A → nat → Prop) ps : P x ps → settles (mret x) P ps.
Proof. done. Qed.

Lemma settles_panic {A} msg (P : A → nat → Prop) ps : settles (kpanic msg) P ps.
Proof. done. Qed.

Lemma settles_bind {A B} (m : K nat A) (f : A → K nat B) P ps : settles m (λ a ps', settles (f a) P ps') ps → settles (m ≫= f) P ps.
Proof. unfold settles, mbind, K_bind. by destruct (m ps) as [[]| |]. Qed.

Lemma settles_mono {A} (m : K nat A) (P Q : A → nat → Prop) ps : settles m P ps → (∀ a ps', P a ps' → Q a ps') → settles m Q ps.
Proof. unfold settles. destruct (m ps) as [[]| |]; auto. Qed.

Lemma skip_space_range k s : (s ≤ skip_space buf k s ≤ s + k)%nat ∧
  (skip_space buf k s = (s + k)%nat ∨ ¬ blank (char_at (skip_space buf k s))).
Proof.
  revert s. induction k as [|k IH]; intros s; cbn [skip_space]; [lia|]. destruct (among whitespace (char_at s)) eqn:E.
  - destruct (IH (S s)) as [? [?|?]]; (split; [lia|]); [left; lia|by right].
  - split; [lia|]. right. intros Hb. apply among_blank in Hb. congruence.
Qed.

Lemma skip_range s : (s ≤ es)%nat → (s ≤ skip s ≤ es)%nat ∧ (char_at (skip s) ≠ 0 → ¬ blank (char_at (skip s)) ∧ (skip s < es)%nat).
Proof.
  intros Hs. unfold Sh.skip. destruct (skip_space_range (es - s) s) as [Hr Hb]. set (k := skip_space buf (es - s) s) in *. split; [lia|].
  intros Hc. assert (Hlt : (k < es)%nat).
  { unfold Sh.char_at in Hc. destruct (buf !! k) eqn:E; [|done]. by apply lookup_lt_Some in E. }
  split; [|done]. destruct Hb; [lia|done].
Qed.

Lemma skip_word_range k s : (s ≤ skip_word_loop buf k s ≤ s + k)%nat.
Proof. revert s. induction k as [|k IH]; intros s; cbn [skip_word_loop]; [lia|]. destruct (_ && _); [specialize (IH (S s))|]; lia. Qed.

Lemma char_inside s : char_at s ≠ 0 → (s < es)%nat.
Proof. unfold Sh.char_at. destruct (buf !! s) eqn:E; [|done]. by apply lookup_lt_Some in E. Qed.

Lemma token_settles ps : (ps ≤ es)%nat → settles (gettoken buf) (λ '(k, _) ps', (ps ≤ ps' ≤ es)%nat ∧
  (k ≠ 0 → (ps < ps')%nat) ∧ (char_at (skip ps) ≠ 0 → (ps < ps')%nat)) ps.
Proof.
  intros Hps. destruct (skip_range ps Hps) as [Hr Hb]. unfold settles, gettoken. set (q := skip ps) in *.
  assert (Hs : ∀ s, (q ≤ s ≤ es)%nat → (s ≤ skip s ≤ es)%nat) by (intros s Hs; apply (skip_range s); lia).
  destruct (Z.eqb_spec (char_at q) 0) as [E|Hc].
  { rewrite E. specialize (Hs q ltac:(lia)). split; [lia|done]. }
  destruct (Hb Hc) as [Hnb Hlt]. case_bool_decide as Hsy.
  { specialize (Hs (S q) ltac:(lia)). split_and!; lia. }
  destruct (Z.eqb_spec (char_at q) ch_out) as [E|Hno].
  - destruct (Z.eqb_spec (char_at (S q)) ch_out) as [E'|_].
    + assert (S q < es)%nat by (apply char_inside; rewrite E'; done). specialize (Hs (S (S q)) ltac:(lia)). split_and!; lia.
    + specialize (Hs (S q) ltac:(lia)). split_and!; lia.
  - unfold skip_word. destruct (es - q)%nat as [|k] eqn:Ek; [lia|]. cbn [skip_word_loop].
    assert (among whitespace (char_at q) = false) as -> by (apply not_true_iff_false; by rewrite among_blank).
    assert (among symbols (char_at q) = false) as ->.
    { apply not_true_iff_false. unfold among. rewrite andb_true_iff, bool_decide_eq_true. intros [_ Hin]. apply Hsy.
      unfold symbols, ch_bar, ch_open, ch_close, ch_semi, ch_amp, ch_in, ch_out in *. set_unfold. lia. }
    cbn [negb andb]. pose proof (skip_word_range k (S q)). specialize (Hs (skip_word_loop buf k (S q)) ltac:(lia)). split_and!; lia.
Qed.

Lemma peek_settles cs ps : (ps ≤ es)%nat → settles (peek buf cs) (λ b ps', (ps ≤ ps' ≤ es)%nat ∧ (b = true → char_at (skip ps') ≠ 0)) ps.
Proof.
  intros Hps. destruct (skip_range ps Hps) as [Hr Hb]. unfold settles, peek. split; [done|]. intros Ha.
  assert (Hc : char_at (skip ps) ≠ 0) by (unfold among in Ha; apply andb_true_iff in Ha as [Ha _]; by apply negb_true_iff, Z.eqb_neq in Ha).
  destruct (Hb Hc) as [Hnb Hlt]. assert (skip (skip ps) = skip ps) as ->; [|done]. unfold Sh.skip at 1.
  destruct (es - skip ps)%nat eqn:E; [lia|]. cbn [skip_space].
  by assert (among whitespace (char_at (skip ps)) = false) as -> by (apply not_true_iff_false; by rewrite among_blank).
Qed.

(** The pointer moves forward. *)
Definition moves {A} (m : K nat A) (ps : nat) : Prop := settles m (λ _ ps', (ps ≤ ps' ≤ es)%nat) ps.

Lemma peek_then {A} cs (f : bool → K nat A) P ps : (ps ≤ es)%nat →
  (∀ b ps', (ps ≤ ps' ≤ es)%nat → (b = true → char_at (skip ps') ≠ 0) → settles (f b) P ps') → settles (peek buf cs ≫= f) P ps.
Proof. intros Hps Hf. apply settles_bind. eapply settles_mono; [by apply peek_settles|]. intros b ps' [? ?]. by apply Hf. Qed.

Lemma token_then {A} (f : Z * word → K nat A) P ps : (ps ≤ es)%nat →
  (∀ k w ps', (ps ≤ ps' ≤ es)%nat → (k ≠ 0 → (ps < ps')%nat) → (char_at (skip ps) ≠ 0 → (ps < ps')%nat) → settles (f (k, w)) P ps') →
  settles (gettoken buf ≫= f) P ps.
Proof. intros Hps Hf. apply settles_bind. eapply settles_mono; [by apply token_settles|]. intros [k w] ps' (? & ? & ?). by apply Hf. Qed.

Lemma then_moves {A B} (m : K nat A) (f : A → K nat B) ps : moves m ps → (∀ a ps', (ps ≤ ps' ≤ es)%nat → settles (f a) (λ _ ps'', (ps' ≤ ps'' ≤ es)%nat) ps') →
  moves (m ≫= f) ps.
Proof.
  intros Hm Hf. apply settles_bind. eapply settles_mono; [exact Hm|]. intros a ps' Hp. eapply settles_mono; [by apply Hf|]. intros ? ? ?. simpl in *. lia.
Qed.

Lemma moves_weaken {A} (m : K nat A) ps ps0 : moves m ps → (ps0 ≤ ps)%nat → settles m (λ _ ps', (ps0 ≤ ps' ≤ es)%nat) ps.
Proof. intros Hm Hle. eapply settles_mono; [exact Hm|]. intros ? ? ?. simpl in *. lia. Qed.

Lemma moves_mono {A} (m : K nat A) (P : A → nat → Prop) ps : moves m ps → (∀ a ps', (ps ≤ ps' ≤ es)%nat → P a ps') → settles m P ps.
Proof. intros Hm HP. eapply settles_mono; [exact Hm|]. intros a ps' Hp. by apply HP. Qed.

Lemma moves_then {A B} (m : K nat A) (f : A → K nat B) P ps : moves m ps →
  (∀ a ps', (ps ≤ ps' ≤ es)%nat → settles (f a) P ps') → settles (m ≫= f) P ps.
Proof. intros Hm HP. by apply settles_bind, moves_mono. Qed.

Lemma redirs_settle n : ∀ ps, (ps ≤ es)%nat → (es - ps < n)%nat → moves (parseredirs buf n) ps.
Proof.
  induction n as [|n IH]; intros ps Hps Hn; [lia|]. cbn [parseredirs]. apply peek_then; [done|]. intros [] ps1 Hp1 Hb; [|apply settles_ret; simpl in *; lia].
  specialize (Hb eq_refl). apply token_then; [lia|]. intros k w ps2 Hp2 _ Hlt. specialize (Hlt Hb). apply token_then; [lia|].
  intros k' w' ps3 Hp3 _ _. destruct (negb _); [apply settles_panic|]. eapply moves_then; [apply (IH ps3); lia|]. intros rs ps4 Hp4. apply settles_ret. simpl in *. lia.
Qed.

Lemma args_settle n : ∀ argv rs ps, (ps ≤ es)%nat → (es - ps < n)%nat → moves (parseexec_loop buf n argv rs) ps.
Proof.
  induction n as [|n IH]; intros argv rs ps Hps Hn; [lia|]. cbn [parseexec_loop]. apply peek_then; [done|].
  intros [] ps1 Hp1 _; [apply settles_ret; simpl in *; lia|]. apply token_then; [lia|]. intros k w ps2 Hp2 Hlt _.
  destruct (Z.eqb_spec k 0) as [_|Hk]; [apply settles_ret; simpl in *; lia|]. specialize (Hlt Hk). destruct (negb _); [apply settles_panic|].
  destruct (_ <=? _)%nat; [apply settles_panic|]. eapply moves_then; [apply (redirs_settle (S es) ps2); lia|].
  intros rs' ps3 Hp3. eapply moves_mono; [apply (IH _ _ ps3); lia|]. intros ? ? ?. simpl in *. lia.
Qed.

Lemma backs_settle n : ∀ c ps, (ps ≤ es)%nat → (es - ps < n)%nat → moves (parseback buf n c) ps.
Proof.
  induction n as [|n IH]; intros c ps Hps Hn; [lia|]. cbn [parseback]. apply peek_then; [done|].
  intros [] ps1 Hp1 Hb; [|apply settles_ret; simpl in *; lia]. specialize (Hb eq_refl). apply token_then; [lia|]. intros k w ps2 Hp2 _ Hlt. specialize (Hlt Hb).
  eapply moves_mono; [apply (IH (backcmd c) ps2); lia|]. intros ? ? ?. simpl in *. lia.
Qed.

Lemma parser_settles fuel : ∀ ps, (ps ≤ es)%nat →
  ((4 * (es - ps) + 4 ≤ fuel)%nat → moves (parseline buf fuel) ps) ∧
  ((4 * (es - ps) + 3 ≤ fuel)%nat → moves (parsepipe buf fuel) ps) ∧
  ((4 * (es - ps) + 2 ≤ fuel)%nat → moves (parseexec buf fuel) ps) ∧
  (char_at (skip ps) ≠ 0 → (4 * (es - ps) + 1 ≤ fuel)%nat → moves (parseblock buf fuel) ps).
Proof.
  induction fuel as [|fuel IH]; intros ps Hps; [lia|]. split_and!; intros; cbn [parseline parsepipe parseexec parseblock].
  - apply then_moves; [apply IH; lia|]. intros c ps1 Hp1. apply then_moves; [apply backs_settle; lia|]. intros c' ps2 Hp2.
    apply peek_then; [lia|]. intros [] ps3 Hp3 Hb; [|apply settles_ret; simpl in *; lia]. specialize (Hb eq_refl). apply token_then; [lia|].
    intros k w ps4 Hp4 _ Hlt. specialize (Hlt Hb). destruct (IH ps4 ltac:(lia)) as (IHl & _). eapply moves_then; [apply IHl; lia|]. intros r ps5 Hp5. apply settles_ret. simpl in *. lia.
  - apply then_moves; [apply IH; lia|]. intros c ps1 Hp1. apply peek_then; [lia|]. intros [] ps2 Hp2 Hb; [|apply settles_ret; simpl in *; lia].
    specialize (Hb eq_refl). apply token_then; [lia|]. intros k w ps3 Hp3 _ Hlt. specialize (Hlt Hb). apply settles_bind.
    destruct (IH ps3 ltac:(lia)) as (_ & IHp & _). eapply settles_mono; [apply IHp; lia|]. intros r ps4 Hp4. apply settles_ret. simpl in *. lia.
  - apply peek_then; [lia|]. intros [] ps1 Hp1 Hb.
    + destruct (IH ps1 ltac:(lia)) as (_ & _ & _ & IHb). eapply moves_weaken; [apply IHb; [by apply Hb|lia]|lia].
    + eapply moves_weaken; [|exact (proj1 Hp1)]. apply then_moves; [apply redirs_settle; lia|]. intros rs ps2 Hp2.
      apply then_moves; [apply args_settle; lia|]. intros [argv rs'] ps3 Hp3. apply settles_ret. simpl in *. lia.
  - apply peek_then; [lia|]. intros b ps1 Hp1 Hb. destruct b; cbn [negb]; [|apply settles_panic]. specialize (Hb eq_refl).
    apply token_then; [lia|]. intros k w ps2 Hp2 _ Hlt. specialize (Hlt Hb). destruct (IH ps2 ltac:(lia)) as (IHl & _).
    eapply moves_weaken; [|exact (Nat.le_trans _ _ _ (proj1 Hp1) (proj1 Hp2))]. apply then_moves; [apply IHl; lia|]. intros c ps3 Hp3.
    apply peek_then; [lia|]. intros b ps4 Hp4 _. destruct b; cbn [negb]; [|apply settles_panic]. apply token_then; [lia|].
    intros k' w' ps5 Hp5 _ _. eapply moves_then; [apply (redirs_settle (S es) ps5); lia|].
    intros rs ps6 Hp6. apply settles_ret. simpl in *. lia.
Qed.

(** ** The words after [nulterminate] *)

Definition end_words (ws : list word) (b : list Z) : list Z := fold_left (λ b w, <[w.2 := 0]> b) ws b.

Lemma nulterminate_words c : ∀ b, nulterminate c b = end_words (words c) b.
Proof.
  unfold end_words. induction c as [argv|sub IH [q e] m d|l IHl r IHr|l IHl r IHr|sub IH]; intros b; cbn [nulterminate words].
  - revert b. induction argv as [|[q e] argv IH]; intros b; [done|]. apply IH.
  - by rewrite fold_left_app, IH.
  - by rewrite fold_left_app, IHl, IHr.
  - by rewrite fold_left_app, IHl, IHr.
  - apply IH.
Qed.

Lemma end_words_other ws i : ∀ b, i ∉ ws.*2 → end_words ws b !! i = b !! i.
Proof.
  unfold end_words. induction ws as [|[q e] ws IH]; intros b Hi; [done|]. cbn [fold_left]. rewrite fmap_cons in Hi. apply not_elem_of_cons in Hi as [Hi1 Hi2].
  rewrite IH by done. by apply list_lookup_insert_ne.
Qed.

Lemma end_words_end ws i : ∀ b, i ∈ ws.*2 → (i < length b)%nat → end_words ws b !! i = Some 0.
Proof.
  unfold end_words. induction ws as [|[q e] ws IH]; intros b Hi Hl; [by apply not_elem_of_nil in Hi|]. cbn [fold_left].
  destruct (decide (i ∈ ws.*2)) as [Hin|Hno]; [by apply IH; rewrite ?length_insert|].
  rewrite fmap_cons in Hi. apply elem_of_cons in Hi as [-> |?]; [|done].
  rewrite (end_words_other ws e _ Hno). by apply list_lookup_insert_eq.
Qed.

Lemma string_at_lookup x : ∀ l, Forall (λ c, c ≠ 0) x → (∀ j, (j < length x)%nat → l !! j = x !! j) → l !! length x = Some 0 → string_at l = x.
Proof.
  induction x as [|c x IH]; intros [|d l] Hx Hl He; try done; simpl in *; [by injection He as ->|].
  - apply Forall_cons in Hx as [Hc Hx]. pose proof (Hl 0%nat ltac:(lia)) as [= ->]. rewrite (proj2 (Z.eqb_neq c 0) Hc). f_equal.
    apply IH; [done| |done]. intros j Hj. apply (Hl (S j)). lia.
Qed.

Lemma str_word ws w : Forall word_ok ws → w ∈ ws → str (end_words ws (buf ++ [0])) w = slice w.
Proof.
  intros Hws Hw. pose proof (proj1 (Forall_forall _ _) Hws w Hw) as [Hr Hp He]. destruct w as [q e]. cbn [fst snd] in *.
  assert (Hlen : length (slice (q, e)) = (e - q)%nat).
  { unfold slice. cbn [fst snd]. rewrite length_take, length_drop. unfold Sh.es in Hr. lia. }
  assert (Hsl : ∀ j, (j < e - q)%nat → slice (q, e) !! j = buf !! (q + j)%nat).
  { intros j Hj. unfold slice. cbn [fst snd]. by rewrite lookup_take_lt, lookup_drop by lia. }
  unfold str. cbn [fst]. apply string_at_lookup.
  - eapply Forall_impl; [exact Hp|]. by intros c (? & _).
  - intros j Hj. rewrite Hlen in Hj. rewrite Hsl, lookup_drop by done. rewrite end_words_other.
    + apply lookup_app_l. unfold Sh.es in Hr. lia.
    + intros Hin. apply list_elem_of_fmap in Hin as ([q' e'] & Ee & Hin). simpl in Ee. subst e'.
      pose proof (proj1 (Forall_forall _ _) Hws _ Hin) as [_ _ Hn]. cbn [snd] in Hn. apply Hn.
      destruct (slice (q, e) !! j) as [c|] eqn:E; [|apply lookup_ge_None in E; lia].
      unfold Sh.char_at. rewrite <- (Hsl j Hj), E. simpl. exact (proj1 (Forall_lookup _ _) Hp _ _ E).
  - rewrite Hlen, lookup_drop. replace (q + (e - q))%nat with e by lia. apply end_words_end.
    + apply list_elem_of_fmap. by exists (q, e).
    + rewrite length_app. simpl. unfold Sh.es in Hr. lia.
Qed.

End buffer.

(** C25. The parser of the shell is right.  On a line of the grammar, with blanks
    anywhere between its tokens and at most nine arguments to a command, [parsecmd]
    returns the command the line stands for, and after [nulterminate] the strings
    its words point to are those words.  On any other line it returns a command or
    stops with a message: it never loops. *)
Theorem parsecmd_reads_the_grammar s :
  Forall (λ c, c ≠ 0) s →
  (∀ c, is_line c → lexes s (toks c) → ∃ t b, parsecmd s = Ok (t, b) ∧ cmd_map (str b) t = denotes c) ∧
  parsecmd s ≠ Hang.
Proof.
  intros Hnz. split.
  - intros c Hc Hl. assert (Ha : ahead s 0 (toks c ++ [])) by (rewrite app_nil_r; split; [lia|done]).
    pose proof (ahead_length _ _ _ Ha) as Hlen. rewrite app_nil_r in Hlen.
    destruct (cst_reads s Hnz c) as (_ & _ & Hline).
    destruct (Hline Hc [] (parse_fuel s) 0%nat) as (t & ps & E & Ha' & Em & Hw); [unfold parse_fuel; lia|done|by left|].
    destruct (skip_ok _ ps [] Ha') as [Hr Hst].
    assert (Es : skip s ps = es s).
    { inversion Hst as [Hd| | | |]. apply (f_equal length) in Hd. rewrite length_drop in Hd. unfold es in *. simpl in Hd. lia. }
    exists t, (nulterminate t (s ++ [0])). split.
    + unfold parsecmd, parse. rewrite (bind_ok _ _ _ _ _ E). unfold peek, mbind, K_bind, kget. rewrite Es, Nat.eqb_refl. done.
    + rewrite <- Em, nulterminate_words. apply cmd_map_ext. intros w Hin. by apply str_word.
  - unfold parsecmd, parse. destruct (parser_settles s Hnz (parse_fuel s) 0 ltac:(lia)) as (Hm & _).
    specialize (Hm ltac:(unfold parse_fuel; lia)). unfold moves, settles in Hm. unfold mbind, K_bind.
    destruct (parseline s (parse_fuel s) 0%nat) as [[t ps]| |]; [|done|done]. unfold peek, kget. by destruct (negb _).
Qed.

(** [(a <f b; c) >>g | d &]. *)
Definition sample_line : list Z := chars_of "(a <f b; c) >>g | d &".

Definition sample_cst : cst :=
  CLine
    (CPipe
      (CBlock
        (CList (CExec [] [(chars_of "a", [(RIn, chars_of "f")]); (chars_of "b", [])]) 0
          (CLine (CExec [] [(chars_of "c", [])]) 0))
        [(RAppend, chars_of "g")])
      (CExec [] [(chars_of "d", [])]))
    1.

Ltac side := first [ done | by repeat constructor | by apply (bool_decide_unpack _); vm_compute ].

Lemma sample_lexes : lexes sample_line (toks sample_cst).
Proof.
  unfold sample_line, sample_cst. vm_compute.
  apply (lex_sym [] 40); [side..|]. apply (lex_word [] [97]); [side..|]. apply (lex_sym [32] 60); [side..|].
  apply (lex_word [] [102]); [side..|]. apply (lex_word [32] [98]); [side..|]. apply (lex_sym [] 59); [side..|].
  apply (lex_word [32] [99]); [side..|]. apply (lex_sym [] 41); [side..|]. apply (lex_append [32]); [side..|].
  apply (lex_word [] [103]); [side..|]. apply (lex_sym [32] 124); [side..|]. apply (lex_word [32] [100]); [side..|].
  apply (lex_sym [32] 38); [side..|]. by apply (lex_end []).
Qed.

Lemma parsecmd_reads_the_grammar_witness :
  ∃ t b, parsecmd sample_line = Ok (t, b) ∧ cmd_map (str b) t =
    backcmd (pipecmd
      (redircmd (listcmd (redircmd (execcmd [chars_of "a"; chars_of "b"]) (chars_of "f") 0 0) (execcmd [chars_of "c"]))
        (chars_of "g") 513 1)
      (execcmd [chars_of "d"])).
Proof.
  apply (parsecmd_reads_the_grammar sample_line ltac:(apply (bool_decide_unpack _); by vm_compute)) with (c := sample_cst).
  - vm_compute. lia.
  - exact sample_lexes.
Defined.
