(* ===== verification/Sim.v ===== *)
(** * Page replacement simulator: [lab-07/sim.c]

    Processes refer to pages; the main memory holds eight of them, the secondary
    memory those that were replaced.  Indexing outside an array, or reading the
    local [rem_memory] before it is set, is undefined in C and stops the model. *)

From S2P Require Import Prelude.

Definition MAX_PROCESS : nat := 100.
Definition TAM_PROCESS : nat := 16.
Definition TAM_PRIMARY : nat := 8.
Definition TAM_SECONDARY : nat := 16.
Definition NUM_MAX : Z := 1000.

(** [process_t] and [memory_t]. *)
Record process := Process { pr_pid : Z; pr_page : list Z; pr_created : bool }.
Record memory := Memory { me_process : Z; me_page : Z; me_FIFO : Z; me_LRU : Z }.

Record sim := Sim {
  processes : list process;
  primary : list memory;
  secondary : list memory;
  cont_FIFO : Z;
  cont_LRU : Z
}.

(** The option: ['f'] or ['l']. *)
Inductive option_t := Fifo | Lru.
#[global] Instance option_t_eq_dec : EqDecision option_t.
Proof. solve_decision. Defined.

(** Globals are zero at the start. *)
Definition process0 : process := Process 0 (replicate TAM_PROCESS 0) false.
Definition memory0 : memory := Memory 0 0 0 0.
#[global] Instance process_inhabited : Inhabited process := populate process0.
#[global] Instance memory_inhabited : Inhabited memory := populate memory0.

(** ** Fields *)

Definition set_processes f s := Sim (f (processes s)) (primary s) (secondary s) (cont_FIFO s) (cont_LRU s).
Definition set_primary f s := Sim (processes s) (f (primary s)) (secondary s) (cont_FIFO s) (cont_LRU s).
Definition set_secondary f s := Sim (processes s) (primary s) (f (secondary s)) (cont_FIFO s) (cont_LRU s).

(** The counter that the option compares, in an entry and in the program. *)
Definition age (o : option_t) (m : memory) : Z := match o with Fifo => me_FIFO m | Lru => me_LRU m end.
Definition set_age (o : option_t) (t : Z) (m : memory) : memory :=
  match o with
  | Fifo => Memory (me_process m) (me_page m) t (me_LRU m)
  | Lru => Memory (me_process m) (me_page m) (me_FIFO m) t
  end.
Definition set_entry (pid page : Z) (m : memory) : memory := Memory pid page (me_FIFO m) (me_LRU m).

(** [cont_FIFO++] or [cont_LRU++]: the value before. *)
Definition tick (o : option_t) : K sim Z := λ s,
  match o with
  | Fifo => Ok (cont_FIFO s, Sim (processes s) (primary s) (secondary s) (cont_FIFO s + 1) (cont_LRU s))
  | Lru => Ok (cont_LRU s, Sim (processes s) (primary s) (secondary s) (cont_FIFO s) (cont_LRU s + 1))
  end.

(** [processes[pid].page[page - 1] = i]. *)
Definition set_page (pid page : Z) (i : nat) : K sim unit :=
  if (0 <=? pid) && (pid <? Z.of_nat MAX_PROCESS) && (1 <=? page) && (page <=? Z.of_nat TAM_PROCESS) then
    kmod (set_processes (alter (λ p, Process (pr_pid p) (<[Z.to_nat (page - 1) := Z.of_nat i]> (pr_page p)) (pr_created p)) (Z.to_nat pid)))
  else kpanic "out of bounds".

(** [processes[pid] = process] for a process with no page. *)
Definition create_process (pid : Z) : K sim unit :=
  if (0 <=? pid) && (pid <? Z.of_nat MAX_PROCESS) then
    kmod (set_processes (<[Z.to_nat pid := Process pid (replicate TAM_PROCESS (-1)) true]>))
  else kpanic "out of bounds".

(** ** Searches *)

Definition holds (pid page : Z) (m : memory) : bool := (me_process m =? pid) && (me_page m =? page).

(** The first entry with a property. *)
Definition first (p : memory → bool) (l : list memory) : option (nat * memory) := list_find (λ m, p m = true) l.

(** The loop that looks for the smallest counter: [cont] and [rem_memory], which is
    not set at first. *)
Fixpoint oldest (o : option_t) (l : list memory) (cont : Z) (rem : option memory) : Z * option memory :=
  match l with
  | [] => (cont, rem)
  | m :: l' => if age o m <? cont then oldest o l' (age o m) (Some m) else oldest o l' cont rem
  end.

(** Reading [rem_memory]. *)
Definition read_rem (r : option memory) : K sim memory :=
  match r with Some m => mret m | None => kpanic "uninitialised" end.

(** ** [modify_process] *)

(** The loop that replaces the entry of counter [cont] in the main memory. *)
Definition replace_primary (o : option_t) (cont pid page : Z) : K sim unit :=
  s ← kget;
  match first (λ m, age o m =? cont) (primary s) with
  | None => mret tt
  | Some (i, _) =>
      t ← tick o;
      kmod (set_primary (alter (λ m, set_age o t (set_entry pid page m)) i));;
      set_page pid page i
  end.

(** A page in neither memory, when there is room. *)
Definition load_free (i : nat) (pid page : Z) : K sim unit :=
  kmod (set_primary (alter (set_entry pid page) i));;
  set_page pid page i;;
  t ← tick Fifo;
  kmod (set_primary (alter (set_age Fifo t) i));;
  t ← tick Lru;
  kmod (set_primary (alter (set_age Lru t) i)).

(** And when there is not: the oldest goes to the secondary memory. *)
Definition swap_out (o : option_t) (pid page : Z) : K sim unit :=
  s ← kget;
  let '(cont, rem) := oldest o (primary s) NUM_MAX None in
  replace_primary o cont pid page;;
  s ← kget;
  match first (λ m, me_process m =? -1) (secondary s) with
  | None => mret tt
  | Some (j, _) =>
      r ← read_rem rem;
      kmod (set_secondary (alter (λ m, set_age o (age o r) (set_entry (me_process r) (me_page r) m)) j));;
      set_page (me_process r) (me_page r) j
  end.

(** A page in the secondary memory changes places with the oldest. *)
Definition swap_in (o : option_t) (pid page : Z) : K sim unit :=
  s ← kget;
  let '(cont, rem) := oldest o (primary s) NUM_MAX None in
  match first (holds pid page) (secondary s) with
  | None => mret tt
  | Some (j, ms) =>
      r ← read_rem rem;
      kmod (set_secondary (alter (λ m, set_age o (age o r) (set_entry (me_process r) (me_page r) m)) j));;
      set_page (me_process r) (me_page r) j;;
      replace_primary o cont (me_process ms) (me_page ms)
  end.

(** The result is whether the program ends, with the secondary memory full. *)
Definition modify_process (o : option_t) (pid page : Z) : K sim bool :=
  s ← kget;
  (match first (holds pid page) (primary s) with
   | Some (i, _) => t ← tick Lru; kmod (set_primary (alter (set_age Lru t) i))
   | None => mret tt
   end);;
  let pass := match first (holds pid page) (primary s) with Some _ => true | None => false end in
  s ← kget;
  let between := match first (holds pid page) (secondary s) with Some _ => true | None => false end in
  (if negb pass && negb between then
     match first (λ m, me_process m =? -1) (primary s) with
     | Some (i, _) => load_free i pid page
     | None => swap_out o pid page
     end
   else mret tt);;
  (if between : bool then swap_in o pid page else mret tt);;
  s ← kget;
  mret (negb (me_process (secondary s !!! (TAM_SECONDARY - 1)%nat) =? -1)).

(** ** [write_all] and [main] *)

(** What is printed: the created processes with their pages, and both memories;
    [None] is a dash. *)
Definition dash (x : Z) : option Z := if x =? -1 then None else Some x.

Definition write_all (s : sim) : list (Z * list (option Z)) * list (option (Z * Z)) * list (option (Z * Z)) :=
  ((λ p, (pr_pid p, dash <$> pr_page p)) <$> filter (λ p, pr_created p = true) (processes s),
   (λ m, if me_process m =? -1 then None else Some (me_process m, me_page m)) <$> primary s,
   (λ m, if me_process m =? -1 then None else Some (me_process m, me_page m)) <$> secondary s).

(** The memories marked empty. *)
Definition start : sim :=
  Sim (replicate MAX_PROCESS process0)
    (replicate TAM_PRIMARY (set_entry (-1) 0 memory0)) (replicate TAM_SECONDARY (set_entry (-1) 0 memory0)) 0 0.

(** One reference, from the two numbers read. *)
Definition refer (o : option_t) (pid page : Z) : K sim bool :=
  if Z.of_nat TAM_PROCESS <? page then mret false
  else
    s ← kget;
    (if existsb (λ p, pr_pid p =? pid) (processes s) then mret tt else create_process pid);;
    modify_process o pid page.

(** The loop of [main]: the input that is left, and the variables [num], [number1] and
    [count].  [scanf] at the end of the input does not set [num], and [main] does not look
    at its result: [num] keeps the value of the round before. *)
Record loop := Loop { lo_in : list Z; lo_num : Z; lo_number1 : Z; lo_count : Z }.

Definition scanf_d (inp : list Z) (num : Z) : Z * list Z :=
  match inp with
  | [] => (num, [])
  | x :: inp' => (x, inp')
  end.

(** A round of the loop; the result is [None] when the program exits. *)
Definition main_round (o : option_t) (l : loop) : K sim (option loop) :=
  let '(num, inp) := scanf_d (lo_in l) (lo_num l) in
  if lo_count l =? 0 then mret (Some (Loop inp num num (lo_count l + 1)))
  else if lo_count l =? 1 then
    b ← refer o (lo_number1 l) num;
    mret (if b : bool then None else Some (Loop inp num (lo_number1 l) 0))
  else mret (Some (Loop inp num (lo_number1 l) (lo_count l))).

(** What [n] rounds do. *)
Fixpoint main_rounds (n : nat) (o : option_t) (l : loop) : K sim (option loop) :=
  match n with
  | O => mret (Some l)
  | S n' =>
      r ← main_round o l;
      match r with
      | Some l' => main_rounds n' o l'
      | None => mret None
      end
  end.
