(* ===== verification/SimProps.v ===== *)
(** * Page replacement simulator: the replacement is right

    [lab-07/sim.c] keeps counters; the policies it is meant to implement are a queue
    of the pages in main memory. *)

From stdpp Require Import sorting.
From S2P Require Import Prelude Sim.

(** ** The policies

    The pages in main memory, the one to be replaced last. *)
Notation ppage := (Z * Z)%type.

Definition policy (o : option_t) (q : list ppage) (p : ppage) : list ppage :=
  if decide (p ∈ q) then
    match o with Fifo => q | Lru => p :: filter (λ x, x ≠ p) q end
  else p :: take (TAM_PRIMARY - 1) q.

(** ** Entries *)

Definition pair (m : memory) : ppage := (me_process m, me_page m).
Definition used (m : memory) : Prop := me_process m ≠ -1.
#[global] Instance used_dec m : Decision (used m).
Proof. unfold used. apply _. Defined.

Definition valid (p : ppage) : Prop := 0 ≤ p.1 < Z.of_nat MAX_PROCESS ∧ 1 ≤ p.2 ≤ Z.of_nat TAM_PROCESS.

Definition counter (o : option_t) (s : sim) : Z := match o with Fifo => cont_FIFO s | Lru => cont_LRU s end.

Lemma first_some p l i m : first p l = Some (i, m) → l !! i = Some m ∧ p m = true.
Proof. intros (Hl & Hp & _)%list_find_Some. done. Qed.

Lemma first_none p l : first p l = None → ∀ m, m ∈ l → p m = false.
Proof. intros Hn%list_find_None m Hm. rewrite Forall_forall in Hn. apply not_true_iff_false. by apply Hn. Qed.

Lemma holds_pair pid page m : holds pid page m = true ↔ pair m = (pid, page).
Proof. unfold holds, pair. rewrite andb_true_iff, !Z.eqb_eq. naive_solver. Qed.

(** An entry replaced by one in use. *)
Lemma filter_insert (l : list memory) i x y : l !! i = Some x → used y →
  ∃ R, filter used l ≡ₚ (if decide (used x) then [x] else []) ++ R ∧ filter used (<[i := y]> l) ≡ₚ y :: R.
Proof.
  intros Hl Hy. pose proof (lookup_lt_Some _ _ _ Hl). exists (filter used (take i l ++ drop (S i) l)). split.
  - rewrite <- (take_drop_middle l i x Hl) at 1. rewrite !filter_app, filter_cons. case_decide; simpl; [|done]. by rewrite Permutation_middle.
  - rewrite insert_take_drop by done. rewrite !filter_app, filter_cons_True by done. by rewrite Permutation_middle.
Qed.

Lemma oldest_ok o l : ∀ cont rem c r, oldest o l cont rem = (c, r) →
  c ≤ cont ∧ (∀ m, m ∈ l → c ≤ age o m) ∧ ((c = cont ∧ r = rem) ∨ ∃ m, m ∈ l ∧ r = Some m ∧ age o m = c).
Proof.
  induction l as [|m l IH]; intros cont rem c r; cbn [oldest].
  - intros [= <- <-]. split; [lia|]. split; [by intros m ?%not_elem_of_nil|by left].
  - destruct (Z.ltb_spec (age o m) cont); intros (H1 & H2 & H3)%IH.
    + split; [lia|]. split; [intros m' [-> | ?]%elem_of_cons; [lia|by apply H2]|]. right.
      destruct H3 as [[-> ->] | (m' & Hm' & -> & E)]; [exists m|exists m']; (split; [|done]); [by left|by right].
    + split; [lia|]. split; [intros m' [-> | ?]%elem_of_cons; [lia|by apply H2]|].
      destruct H3 as [[-> ->] | (m' & Hm' & -> & E)]; [by left|]. right. exists m'. split; [by right|done].
Qed.

(** ** The order of the entries

    [E] lists the entries in use, newest first. *)
Definition by_age (o : option_t) : memory → memory → Prop := λ x y, age o y < age o x.

Record ordered (o : option_t) (l : list memory) (t : Z) (q : list ppage) (E : list memory) : Prop := {
  or_perm : E ≡ₚ filter used l;
  or_sorted : StronglySorted (by_age o) E;
  or_pairs : pair <$> E = q;
  or_time : ∀ m, m ∈ E → age o m < t
}.

Lemma sorted_middle {A} (R : A → A → Prop) l1 x l2 : StronglySorted R (l1 ++ x :: l2) → StronglySorted R (l1 ++ l2).
Proof.
  rewrite !StronglySorted_app, StronglySorted_cons. intros (H1 & H2 & _ & H3). split; [|done]. intros a b Ha Hb. apply H1; [done|by right].
Qed.

(** A new entry becomes the newest. *)
Lemma ordered_add o l t q E i x y : ordered o l t q E → l !! i = Some x → ¬ used x → used y → age o y = t →
  ordered o (<[i := y]> l) (t + 1) (pair y :: q) (y :: E).
Proof.
  intros [Hp Hs Hq Ht] Hl Hx Hy Ha. destruct (filter_insert l i x y Hl Hy) as (R & HR & HR'). rewrite decide_False in HR by done. simpl in HR.
  split.
  - by rewrite HR', Hp, HR.
  - constructor; [done|]. apply Forall_forall. intros m Hm. specialize (Ht m Hm). unfold by_age. lia.
  - by rewrite fmap_cons, Hq.
  - intros m [-> |Hm]%elem_of_cons; [lia|]. specialize (Ht m Hm). lia.
Qed.

(** The entry [x] gives way to [y], the newest. *)
Lemma ordered_replace o l t q E i x y A B : ordered o l t q E → l !! i = Some x → E = A ++ x :: B → used x → used y → age o y = t →
  ordered o (<[i := y]> l) (t + 1) (pair y :: (pair <$> A ++ B)) (y :: A ++ B).
Proof.
  intros [Hp Hs Hq Ht] Hl -> Hx Hy Ha. destruct (filter_insert l i x y Hl Hy) as (R & HR & HR'). rewrite decide_True in HR by done. simpl in HR.
  assert (HAB : A ++ B ≡ₚ R).
  { apply (Permutation_cons_inv (a := x)). by rewrite <- HR, <- Hp, Permutation_middle. }
  assert (Hin : ∀ m, m ∈ A ++ B → age o m < t) by (intros m Hm; apply Ht; set_solver).
  split.
  - by rewrite HR', HAB.
  - constructor; [by apply (sorted_middle _ _ x)|]. apply Forall_forall. intros m Hm. specialize (Hin m Hm). unfold by_age. lia.
  - done.
  - intros m [-> |Hm]%elem_of_cons; [lia|]. specialize (Hin m Hm). lia.
Qed.

(** The entry [x] becomes [y] with the same age and page. *)
Lemma ordered_same o l t q E i x y A B : ordered o l t q E → l !! i = Some x → E = A ++ x :: B → used x → pair y = pair x → age o y = age o x →
  ordered o (<[i := y]> l) t q (A ++ y :: B).
Proof.
  intros [Hp Hs Hq Ht] Hl -> Hx Hy Ha. assert (Huy : used y) by (unfold used; by injection Hy as -> _).
  destruct (filter_insert l i x y Hl Huy) as (R & HR & HR'). rewrite decide_True in HR by done. simpl in HR.
  split.
  - rewrite HR'. apply (Permutation_cons_inv (a := x)). rewrite Permutation_swap, <- HR, <- Hp.
    rewrite <- !Permutation_middle. apply Permutation_swap.
  - revert Hs. rewrite !StronglySorted_app, !StronglySorted_cons. intros (H1 & H2 & H3 & H4). split; [|split; [done|split; [|done]]].
    + intros a b Ha' [-> |Hb]%elem_of_cons; [|apply H1; [done|by right]]. unfold by_age. rewrite Ha. apply (H1 a x); [done|by left].
    + eapply Forall_impl; [exact H3|]. intros b. unfold by_age. by rewrite Ha.
  - rewrite <- Hq, !fmap_app, !fmap_cons. by rewrite Hy.
  - intros m. rewrite elem_of_app, elem_of_cons. intros [Hm|[-> |Hm]].
    + apply Ht. set_solver.
    + rewrite Ha. apply Ht. set_solver.
    + apply Ht. set_solver.
Qed.

Lemma filter_used l : Forall used l → filter used l = l.
Proof. induction 1 as [|m l Hm _ IH]; [done|]. by rewrite filter_cons_True, IH. Qed.

(** With every entry in use, the loop finds the last of the order. *)
Lemma ordered_oldest o l t q E c r : ordered o l t q E → Forall used l → l ≠ [] → t ≤ NUM_MAX → oldest o l NUM_MAX None = (c, r) →
  ∃ A v i, E = A ++ [v] ∧ r = Some v ∧ c = age o v ∧ first (λ m, age o m =? c) l = Some (i, v) ∧ l !! i = Some v.
Proof.
  intros [Hp Hs Hq Ht] Hu Hl Hmax Ho. rewrite filter_used in Hp by done. apply oldest_ok in Ho as (Hc & Hmin & Hr).
  assert (Hr' : ∃ m, m ∈ l ∧ r = Some m ∧ age o m = c).
  { destruct Hr as [[-> ->] |?]; [|done]. destruct l as [|m l]; [done|]. specialize (Hmin m ltac:(by left)).
    specialize (Ht m ltac:(rewrite Hp; by left)). lia. }
  destruct Hr' as (v & Hv & -> & <-).
  assert (HE : ∃ A z, E = A ++ [z]).
  { destruct E as [|z E _] using rev_ind; [|by exists E, z]. apply Permutation_nil in Hp as ->; done. }
  destruct HE as (A & z & ->). apply StronglySorted_app in Hs as (Hs & HsA & _).
  assert (Hlast : ∀ m, m ∈ l → age o m ≤ age o v → m = z).
  { intros m Hm Hle. rewrite <- Hp in Hm. apply elem_of_app in Hm as [Hm|Hm%list_elem_of_singleton]; [|done].
    specialize (Hs m z Hm ltac:(by left)). unfold by_age in Hs. specialize (Hmin z ltac:(rewrite <- Hp; set_solver)). lia. }
  pose proof (Hlast v Hv ltac:(lia)) as <-. exists A, v.
  destruct (first _ l) as [[i x]|] eqn:Ef.
  - apply first_some in Ef as [Hi Hx]. apply Z.eqb_eq in Hx. apply list_elem_of_lookup_2 in Hi as Hxl.
    pose proof (Hlast x Hxl ltac:(lia)) as ->. by exists i.
  - apply first_none with (m := v) in Ef; [|done]. by rewrite Z.eqb_refl in Ef.
Qed.

(** ** The page tables *)

(** [processes[pid].page[page - 1]]. *)
Definition table (ps : list process) (p : ppage) : Z := pr_page (ps !!! Z.to_nat p.1) !!! Z.to_nat (p.2 - 1).

(** The table leads to the entry of every page of [l]. *)
Definition tabled (ps : list process) (l : list memory) : Prop :=
  ∀ i m, l !! i = Some m → used m → table ps (pair m) = Z.of_nat i.

(** A process is created at its number, and all the arrays have their lengths. *)
Record procs_ok (ps : list process) : Prop := {
  po_len : length ps = MAX_PROCESS;
  po_pages : ∀ k p, ps !! k = Some p → length (pr_page p) = TAM_PROCESS;
  po_pid : ∀ k p, ps !! k = Some p → pr_pid p = 0 ∨ pr_pid p = Z.of_nat k
}.

Definition assign (p : ppage) (i : nat) : list process → list process :=
  alter (λ r, Process (pr_pid r) (<[Z.to_nat (p.2 - 1) := Z.of_nat i]> (pr_page r)) (pr_created r)) (Z.to_nat p.1).

Lemma procs_at ps p : procs_ok ps → valid p → ∃ r, ps !! Z.to_nat p.1 = Some r ∧ length (pr_page r) = TAM_PROCESS.
Proof.
  intros [Hl Hp _] [H1 _]. destruct (lookup_lt_is_Some_2 ps (Z.to_nat p.1)) as [r Hr]; [lia|]. exists r. split; [done|by eapply Hp].
Qed.

Lemma assign_ok ps p i : procs_ok ps → procs_ok (assign p i ps).
Proof.
  intros [Hl Hp Hk]. unfold assign. split; [by rewrite length_alter| |]; intros k r; rewrite list_lookup_alter; (case_decide as E; [subst k|eauto]);
    rewrite fmap_Some; intros (r' & Hr & ->); simpl; [rewrite length_insert|]; eauto.
Qed.

Lemma table_assign ps p i x : procs_ok ps → valid p → valid x → table (assign p i ps) x = if decide (x = p) then Z.of_nat i else table ps x.
Proof.
  intros Hok Hp Hx. destruct (procs_at _ _ Hok Hp) as (r & Hr & Hlen). unfold table, assign. destruct p as [pid page], x as [pid' page'].
  destruct Hp as [Hp1 Hp2], Hx as [Hx1 Hx2]. simpl in *.
  destruct (decide (pid' = pid)) as [-> |Hne].
  - rewrite !list_lookup_total_alt, list_lookup_alter_eq, Hr. simpl.
    case_decide as E; [injection E as ->; by rewrite list_lookup_insert_eq by lia|].
    rewrite list_lookup_insert_ne; [done|]. intros ?. apply E. f_equal. lia.
  - rewrite decide_False by congruence. rewrite !list_lookup_total_alt, list_lookup_alter_ne by lia. done.
Qed.

Definition pid_of (ps : list process) (p : ppage) : Z := pr_pid (ps !!! Z.to_nat p.1).

Lemma pid_assign ps p i x : pid_of (assign p i ps) x = pid_of ps x.
Proof.
  unfold pid_of, assign. rewrite !list_lookup_total_alt, list_lookup_alter. case_decide as E; [|done]. rewrite <- E. by destruct (ps !! Z.to_nat p.1).
Qed.

Lemma tabled_insert ps ps' l i y : tabled ps l → table ps' (pair y) = Z.of_nat i →
  (∀ k m, k ≠ i → l !! k = Some m → used m → table ps' (pair m) = table ps (pair m)) → tabled ps' (<[i := y]> l).
Proof.
  intros Ht Hy Hm k m. rewrite list_lookup_insert. case_decide as E.
  - destruct E as [<- _]. by intros [= <-].
  - intros Hk Hu. destruct (decide (k = i)) as [-> |Hne]; [apply lookup_lt_Some in Hk; naive_solver|]. rewrite (Hm k m) by done. by apply Ht.
Qed.

Lemma alter_insert (f : memory → memory) (l : list memory) i x : l !! i = Some x → alter f i l = <[i := f x]> l.
Proof.
  intros Hl. pose proof (lookup_lt_Some _ _ _ Hl). apply list_eq. intros k. rewrite list_lookup_alter, list_lookup_insert.
  case_decide as E; [subst k; by rewrite Hl, decide_True|]. rewrite decide_False; naive_solver.
Qed.

Lemma alter_twice (f : memory → memory) (l : list memory) i y : (i < length l)%nat → alter f i (<[i := y]> l) = <[i := f y]> l.
Proof. intros Hl. rewrite (alter_insert _ _ _ y) by by apply list_lookup_insert_eq. apply list_insert_insert_eq. Qed.

(** ** The state *)

(** The pages in a memory. *)
Definition pages (l : list memory) : list ppage := pair <$> filter used l.
Notation stored s := (pages (secondary s)).

(** The entries in use are the first ones. *)
Definition from_start (l : list memory) : Prop :=
  ∀ j k m n, l !! j = Some m → l !! k = Some n → (j < k)%nat → used n → used m.

Record inv (o : option_t) (s : sim) (q : list ppage) : Prop := {
  iv_procs : procs_ok (processes s);
  iv_primary : length (primary s) = TAM_PRIMARY;
  iv_secondary : length (secondary s) = TAM_SECONDARY;
  iv_order : ∃ E, ordered o (primary s) (counter o s) q E;
  iv_nodup : NoDup (q ++ stored s);
  iv_full : Forall used (primary s) ∨ stored s = [];
  iv_known : ∀ p, p ∈ q ++ stored s → valid p ∧ pid_of (processes s) p = p.1;
  iv_tab1 : tabled (processes s) (primary s);
  iv_tab2 : tabled (processes s) (secondary s);
  iv_prefix : from_start (secondary s)
}.

Lemma stored_in s i m : secondary s !! i = Some m → used m → pair m ∈ stored s.
Proof. intros Hm%list_elem_of_lookup_2 Hu. apply list_elem_of_fmap_2. by apply list_elem_of_filter. Qed.

Lemma ordered_in o l t q E i m : ordered o l t q E → l !! i = Some m → used m → m ∈ E ∧ pair m ∈ q.
Proof.
  intros [Hp _ <- _] Hm%list_elem_of_lookup_2 Hu. assert (m ∈ E) by (rewrite Hp; by apply list_elem_of_filter). split; [done|]. by apply list_elem_of_fmap_2.
Qed.

Lemma inv_in o s q i m : inv o s q → primary s !! i = Some m → used m → pair m ∈ q.
Proof. intros [_ _ _ [E HE] _ _ _ _ _ _] Hm Hu. by eapply ordered_in. Qed.

(** Two entries with the same page are one. *)
Lemma primary_inj o s q i j m n : inv o s q → primary s !! i = Some m → primary s !! j = Some n → used m → pair m = pair n → i = j.
Proof.
  intros Hi Hm Hn Hu E. assert (used n) by (unfold used in *; injection E; congruence).
  pose proof (iv_tab1 _ _ _ Hi i m Hm Hu). pose proof (iv_tab1 _ _ _ Hi j n Hn ltac:(done)). rewrite E in *. lia.
Qed.

Lemma secondary_inj o s q i j m n : inv o s q → secondary s !! i = Some m → secondary s !! j = Some n → used m → pair m = pair n → i = j.
Proof.
  intros Hi Hm Hn Hu E. assert (used n) by (unfold used in *; injection E; congruence).
  pose proof (iv_tab2 _ _ _ Hi i m Hm Hu). pose proof (iv_tab2 _ _ _ Hi j n Hn ltac:(done)). rewrite E in *. lia.
Qed.

(** A page is not in both. *)
Lemma inv_apart o s q p : inv o s q → p ∈ q → p ∈ stored s → False.
Proof. intros [_ _ _ _ Hn _ _ _ _ _] H1 H2. apply NoDup_app in Hn as (_ & Hn & _). by eapply Hn. Qed.

Lemma valid_used m : valid (pair m) → used m.
Proof. intros [H _]. unfold used. simpl in H. lia. Qed.

(** ** The steps of the state *)

Lemma filter_middle (A B : list ppage) p : NoDup (A ++ p :: B) → filter (λ x, x ≠ p) (A ++ p :: B) = A ++ B.
Proof.
  intros Hn. rewrite <- Permutation_middle in Hn. apply NoDup_cons in Hn as [Hn _]. rewrite filter_app, filter_cons_False by naive_solver. rewrite <- filter_app.
  induction (A ++ B) as [|x l IH]; [done|]. rewrite filter_cons_True by set_solver. rewrite IH; set_solver.
Qed.

Lemma policy_hit o q p : NoDup q → p ∈ q → policy o q p ≡ₚ q.
Proof.
  intros Hnd Hp. unfold policy. rewrite decide_True by done. destruct o; [done|]. apply list_elem_of_split in Hp as (A & B & ->).
  rewrite filter_middle by done. apply Permutation_middle.
Qed.

(** A page already in the main memory. *)
Lemma inv_hit o s q i x : inv o s q → primary s !! i = Some x → used x →
  inv o (Sim (processes s) (<[i := set_age Lru (cont_LRU s) x]> (primary s)) (secondary s) (cont_FIFO s) (cont_LRU s + 1))
    (policy o q (pair x)).
Proof.
  intros Hi Hx Hu. pose proof Hi as [Hps Hl1 Hl2 [E HE] Hnd Hfull Hkn Ht1 Ht2 Hpre]. destruct (ordered_in _ _ _ _ _ _ _ HE Hx Hu) as [HxE Hxq].
  apply list_elem_of_split in HxE as (A & B & HAB).
  assert (Hq : q = (pair <$> A) ++ pair x :: (pair <$> B)).
  { by rewrite <- (or_pairs _ _ _ _ _ HE), HAB, fmap_app, fmap_cons. }
  assert (Hfl : filter (λ y, y ≠ pair x) q = pair <$> A ++ B).
  { rewrite fmap_app, Hq. apply filter_middle. rewrite <- Hq. by apply NoDup_app in Hnd as (? & _ & _). }
  assert (Hpq : policy o q (pair x) ≡ₚ q) by (apply policy_hit; [by apply NoDup_app in Hnd as (? & _ & _)|done]).
  split; simpl; try done.
  - by rewrite length_insert.
  - unfold policy. rewrite decide_True by done. destruct o; simpl in *.
    + eexists. eapply ordered_same; eauto.
    + eexists. pose proof (ordered_replace _ _ _ _ _ i x (set_age Lru (cont_LRU s) x) A B HE Hx HAB Hu Hu eq_refl) as HE'.
      rewrite Hfl. exact HE'.
  - by rewrite Hpq.
  - destruct Hfull as [Hf|]; [left|by right]. by apply Forall_insert.
  - intros p. rewrite Hpq. apply Hkn.
  - eapply tabled_insert; eauto. by apply (Ht1 i x).
Qed.

Lemma policy_load o s q i x p : inv o s q → primary s !! i = Some x → ¬ used x → p ∉ q → policy o q p = p :: q.
Proof.
  intros [_ Hl _ [E HE] _ _ _ _ _ _] Hx Hu Hp. unfold policy. rewrite decide_False by done. rewrite take_ge; [done|].
  rewrite <- (or_pairs _ _ _ _ _ HE), length_fmap, (or_perm _ _ _ _ _ HE), <- Hl. rewrite <- (take_drop_middle _ _ _ Hx) at 1.
  rewrite filter_app, filter_cons_False by done. rewrite <- (take_drop_middle _ _ _ Hx) at 3. rewrite !length_app; cbn [length].
  pose proof (length_filter used (take i (primary s))). pose proof (length_filter used (drop (S i) (primary s))). lia.
Qed.

(** A new page in a free place. *)
Lemma inv_load o s q i x p : inv o s q → primary s !! i = Some x → ¬ used x → valid p → pid_of (processes s) p = p.1 → p ∉ q ++ stored s →
  inv o (Sim (assign p i (processes s)) (<[i := Memory p.1 p.2 (cont_FIFO s) (cont_LRU s)]> (primary s)) (secondary s) (cont_FIFO s + 1) (cont_LRU s + 1))
    (policy o q p).
Proof.
  intros Hi Hx Hu Hv Hpid Hp. pose proof Hi as [Hps Hl1 Hl2 [E HE] Hnd Hfull Hkn Ht1 Ht2 Hpre].
  assert (Hs : stored s = []). { destruct Hfull as [Hf|]; [|done]. by apply (Forall_lookup_1 _ _ _ _ Hf) in Hx. }
  rewrite Hs, app_nil_r in *.
  assert (Hpol : policy o q p = p :: q) by by eapply policy_load.
  assert (Hother : ∀ m, used m → pair m ∈ q → table (assign p i (processes s)) (pair m) = table (processes s) (pair m)).
  { intros m Hm Hq. rewrite table_assign; [|done|done|by apply Hkn]. rewrite decide_False by congruence. done. }
  rewrite Hpol. split; simpl.
  - by apply assign_ok.
  - by rewrite length_insert.
  - done.
  - assert (pair (Memory p.1 p.2 (cont_FIFO s) (cont_LRU s)) = p) as Epair by by destruct p.
    eexists. replace (counter o _) with (counter o s + 1) by by destruct o.
    eapply ordered_add in HE; [rewrite Epair in HE; exact HE|done..| |by destruct o]. apply valid_used. by rewrite Epair.
  - unfold pages in *. simpl. rewrite Hs, app_nil_r. by constructor.
  - right. done.
  - unfold pages in *; simpl. rewrite Hs, app_nil_r. intros x'. rewrite pid_assign. intros [-> |?]%elem_of_cons; auto.
  - eapply tabled_insert; [done| |].
    + unfold pair; simpl. rewrite <- surjective_pairing, table_assign by done. by rewrite decide_True.
    + intros k m _ Hk Hm. apply Hother; [done|]. by eapply inv_in.
  - intros k m Hk Hm. pose proof (stored_in _ _ _ Hk Hm) as Hin. rewrite Hs in Hin. by apply not_elem_of_nil in Hin.
  - done.
Qed.

Lemma prefix_insert l j w : used w → (∀ k m, l !! k = Some m → (k < j)%nat → used m) → from_start l → from_start (<[j := w]> l).
Proof.
  intros Hw Hj Hl k1 k2 m n. rewrite !list_lookup_insert. case_decide as E1; [by intros [= <-]|].
  case_decide as E2; [|apply Hl]. destruct E2 as [<- _]. intros Hk _ Hlt _. by eapply Hj.
Qed.

(** What a reference does to the state: the next one of the abstract policy, with
    nothing lost. *)
Definition served (o : option_t) (s : sim) (q : list ppage) (p : ppage) (s' : sim) : Prop :=
  inv o s' (policy o q p) ∧ counter o s' ≤ counter o s + 1 ∧ (∀ z, z ∈ policy o q p ++ stored s' ↔ z = p ∨ z ∈ q ++ stored s).

(** The order of two assignments to different pages does not matter to the table. *)
Lemma assign_two ps p v i j z : procs_ok ps → valid p → valid v → valid z → p ≠ v →
  table (assign p i (assign v j ps)) z = (if decide (z = p) then Z.of_nat i else if decide (z = v) then Z.of_nat j else table ps z) ∧
  table (assign v j (assign p i ps)) z = (if decide (z = p) then Z.of_nat i else if decide (z = v) then Z.of_nat j else table ps z).
Proof.
  intros Hps Hp Hv Hz Hne. rewrite !table_assign by (done || by apply assign_ok). repeat case_decide; naive_solver.
Qed.

(** The page [p] takes the place of the oldest [v] in the main memory, and [v] the
    place of the entry [x] in the secondary: a free one or that of [p]. *)
Section swap.
Context (o : option_t) (s : sim) (q : list ppage) (E A : list memory) (v x : memory) (i j : nat) (p : ppage).
Hypothesis Hi : inv o s q.
Hypothesis HE : ordered o (primary s) (counter o s) q E.
Hypothesis HA : E = A ++ [v].
Hypothesis Hfull : Forall used (primary s).
Hypothesis Hv : primary s !! i = Some v.
Hypothesis Hx : secondary s !! j = Some x.
Hypothesis Hfirst : ∀ k m, secondary s !! k = Some m → (k < j)%nat → used m.
Hypothesis Hxp : if decide (used x) then pair x = p else p ∉ q ++ stored s.
Hypothesis Hp : valid p.
Hypothesis Hpid : pid_of (processes s) p = p.1.

Lemma swap_v : used v ∧ pair v ∈ q.
Proof. assert (used v) by by apply (Forall_lookup_1 _ _ _ _ Hfull Hv). split; [done|by eapply inv_in]. Qed.

Lemma swap_new : p ∉ q.
Proof. case_decide; [|set_solver]. intros Hq. apply (inv_apart _ _ _ p Hi Hq). rewrite <- Hxp. by eapply stored_in. Qed.

Lemma swap_policy : policy o q p = p :: (pair <$> A) ∧ q = (pair <$> A) ++ [pair v].
Proof.
  assert (Hq : q = (pair <$> A) ++ [pair v]) by by rewrite <- (or_pairs _ _ _ _ _ HE), HA, fmap_app.
  split; [|done]. unfold policy. rewrite decide_False by apply swap_new. f_equal.
  assert (Hlen : length E = TAM_PRIMARY).
  { rewrite (or_perm _ _ _ _ _ HE), <- (iv_primary _ _ _ Hi). by rewrite filter_used. }
  rewrite Hq, take_app_length'; [done|]. rewrite length_fmap. rewrite HA, length_app in Hlen. simpl in Hlen. unfold TAM_PRIMARY in *. lia.
Qed.

(** The pages in memory are the same, with [p]. *)
Lemma swap_pages w : used w → pair w = pair v →
  let all := policy o q p ++ (pair <$> filter used (<[j := w]> (secondary s))) in
  NoDup all ∧ (∀ z, z ∈ all ↔ z = p ∨ z ∈ q ++ stored s).
Proof.
  intros Hw Ew all. destruct (filter_insert _ _ _ _ Hx Hw) as (R & HR & HR'). destruct swap_policy as [Epol Eq].
  assert (Hall : all ≡ₚ p :: q ++ (pair <$> R)).
  { unfold all. rewrite Epol, HR', fmap_cons, Ew, Eq, <- app_assoc. done. }
  assert (Hold : q ++ stored s ≡ₚ (if decide (used x) then [p] else []) ++ q ++ (pair <$> R)).
  { unfold pages. rewrite HR, fmap_app, !app_assoc. f_equiv. rewrite Permutation_app_comm. f_equiv. case_decide; [|done]. simpl. by rewrite Hxp. }
  pose proof (iv_nodup _ _ _ Hi) as Hnd. rewrite Hall. case_decide.
  - simpl in Hold. rewrite <- Hold. split; [done|]. intros z. rewrite Hall, <- Hold. split; [by right|]. intros [-> |?]; [|done]. rewrite Hold. by left.
  - simpl in Hold. rewrite <- Hold. split; [by constructor|]. intros z. rewrite Hall, <- Hold. apply elem_of_cons.
Qed.

Lemma inv_swap ps' y w cf cl : counter o (Sim ps' [] [] cf cl) = counter o s + 1 → procs_ok ps' → (∀ z, pid_of ps' z = pid_of (processes s) z) →
  (∀ z, valid z → table ps' z = if decide (z = p) then Z.of_nat i else if decide (z = pair v) then Z.of_nat j else table (processes s) z) →
  pair y = p → age o y = counter o s → pair w = pair v →
  inv o (Sim ps' (<[i := y]> (primary s)) (<[j := w]> (secondary s)) cf cl) (policy o q p).
Proof.
  intros Hc Hps Hpids Htab Ey Hay Ew. destruct swap_v as [Hvu Hvq]. pose proof swap_new as Hnew. destruct swap_policy as [Epol Eq].
  assert (Hy : used y) by (apply valid_used; by rewrite Ey).
  assert (Hw : used w) by (unfold used in *; injection Ew; congruence).
  destruct (swap_pages w Hw Ew) as [Hnd Hall].
  assert (Hk : ∀ z, z ∈ q ++ stored s → valid z) by (intros z Hz; by apply (iv_known _ _ _ Hi)).
  split; cbn [processes primary secondary].
  - done.
  - rewrite length_insert. apply (iv_primary _ _ _ Hi).
  - rewrite length_insert. apply (iv_secondary _ _ _ Hi).
  - exists (y :: A ++ []). replace (counter o _) with (counter o s + 1) by (rewrite <- Hc; by destruct o).
    pose proof (ordered_replace _ _ _ _ _ i v y A [] HE Hv HA Hvu Hy Hay) as HE'. by rewrite Epol, <- Ey, <- (app_nil_r A) at 1.
  - done.
  - left. by apply Forall_insert.
  - intros z [-> |Hz]%Hall; rewrite Hpids; [done|by apply (iv_known _ _ _ Hi)].
  - eapply tabled_insert; [by apply (iv_tab1 _ _ _ Hi)| |].
    + rewrite Ey, Htab, decide_True; done.
    + intros k m Hne Hm Hu. pose proof (inv_in _ _ _ _ _ Hi Hm Hu). rewrite Htab by (apply Hk, elem_of_app; by left).
      rewrite !decide_False; [done| |congruence]. intros E'. apply Hne. by eapply (primary_inj _ _ _ k i m v).
  - eapply tabled_insert; [by apply (iv_tab2 _ _ _ Hi)| |].
    + rewrite Ew, Htab by (apply Hk, elem_of_app; by left). rewrite decide_False, decide_True by congruence. done.
    + intros k m Hne Hm Hu. pose proof (stored_in _ _ _ Hm Hu) as Hst. rewrite Htab by (apply Hk, elem_of_app; by right).
      rewrite !decide_False; [done| |].
      * intros E'. rewrite E' in Hst. by apply (inv_apart _ _ _ _ Hi Hvq).
      * intros E'. case_decide; [|apply Hxp, elem_of_app; right; congruence]. apply Hne. eapply (secondary_inj _ _ _ k j m x); [done..|]. congruence.
  - apply prefix_insert; [done..|apply (iv_prefix _ _ _ Hi)].
Qed.

Lemma swap_served ps' y w cf cl : counter o (Sim [] [] [] cf cl) = counter o s + 1 →
  ps' = assign p i (assign (pair v) j (processes s)) ∨ ps' = assign (pair v) j (assign p i (processes s)) →
  pair y = p → age o y = counter o s → pair w = pair v →
  served o s q p (Sim ps' (<[i := y]> (primary s)) (<[j := w]> (secondary s)) cf cl).
Proof.
  intros Hc Hps Ey Hay Ew. pose proof (iv_procs _ _ _ Hi) as Hok. destruct swap_v as [Hvu Hvq]. pose proof swap_new as Hnew.
  destruct (iv_known _ _ _ Hi (pair v)) as [Hvv _]; [apply elem_of_app; by left|]. assert (Hne : p ≠ pair v) by congruence. split; [|split].
  - apply inv_swap; try done.
    + destruct Hps as [-> | ->]; by do 2 apply assign_ok.
    + intros z. destruct Hps as [-> | ->]; by rewrite !pid_assign.
    + intros z Hz. destruct Hps as [-> | ->]; by apply assign_two.
  - transitivity (counter o (Sim [] [] [] cf cl)); [by destruct o|lia].
  - apply swap_pages; [|done]. unfold used in *; injection Ew; congruence.
Qed.
End swap.

(** ** The functions *)

Lemma set_page_runs pid page i s Q : valid (pid, page) → Q tt (set_processes (assign (pid, page) i) s) → runs (set_page pid page i) Q s.
Proof.
  intros [H1 H2] HQ. simpl in *. unfold set_page. rewrite (proj2 (Z.leb_le 0 pid)), (proj2 (Z.ltb_lt pid _)), (proj2 (Z.leb_le 1 page)), (proj2 (Z.leb_le page _)) by lia.
  by apply runs_mod.
Qed.

(** The loops that replace an entry. *)
Lemma replace_primary_runs o cont pid page s i x Q : valid (pid, page) →
  first (λ m, age o m =? cont) (primary s) = Some (i, x) → primary s !! i = Some x →
  (∀ cf cl, counter o (Sim [] [] [] cf cl) = counter o s + 1 →
     Q tt (Sim (assign (pid, page) i (processes s)) (<[i := set_age o (counter o s) (set_entry pid page x)]> (primary s)) (secondary s) cf cl)) →
  runs (replace_primary o cont pid page) Q s.
Proof.
  intros Hv Hf Hi HQ. unfold replace_primary. repeat kstep. rewrite Hf. kstep.
  destruct o; (eapply runs_of_eq; [reflexivity|]); (kstep; kstep; apply set_page_runs; [done|]);
    unfold set_processes, set_primary; simpl; rewrite (alter_insert _ _ _ _ Hi); by apply HQ.
Qed.

Lemma load_free_runs i x pid page s Q : valid (pid, page) → primary s !! i = Some x →
  Q tt (Sim (assign (pid, page) i (processes s)) (<[i := Memory pid page (cont_FIFO s) (cont_LRU s)]> (primary s)) (secondary s) (cont_FIFO s + 1) (cont_LRU s + 1)) →
  runs (load_free i pid page) Q s.
Proof.
  intros Hv Hi HQ. unfold load_free. kstep; kstep. kstep. apply set_page_runs; [done|]. kstep. eapply runs_of_eq; [reflexivity|]. kstep. kstep.
  kstep. eapply runs_of_eq; [reflexivity|]. kstep. unfold set_processes, set_primary; simpl.
  pose proof (lookup_lt_Some _ _ _ Hi). by rewrite (alter_insert _ _ _ _ Hi), !alter_twice.
Qed.

Definition room (s : sim) : Prop := ∃ m, secondary s !! (TAM_SECONDARY - 1)%nat = Some m ∧ ¬ used m.

(** What the loop for the oldest gives in a state with the main memory full. *)
Lemma oldest_full o s q : inv o s q → Forall used (primary s) → counter o s ≤ NUM_MAX →
  ∃ E A v i, ordered o (primary s) (counter o s) q E ∧ E = A ++ [v] ∧ oldest o (primary s) NUM_MAX None = (age o v, Some v) ∧
    first (λ m, age o m =? age o v) (primary s) = Some (i, v) ∧ primary s !! i = Some v.
Proof.
  intros Hi Hf Hc. destruct (iv_order _ _ _ Hi) as [E HE]. destruct (oldest o (primary s) NUM_MAX None) as [c r] eqn:Eo.
  assert (primary s ≠ []) by (intros E0; pose proof (iv_primary _ _ _ Hi) as Hl; by rewrite E0 in Hl).
  destruct (ordered_oldest _ _ _ _ _ _ _ HE Hf ltac:(done) Hc Eo) as (A & v & i & -> & -> & -> & ? & ?). by exists (A ++ [v]), A, v, i.
Qed.

Lemma pair_entry o t m pid page : pair (set_age o t (set_entry pid page m)) = (pid, page).
Proof. by destruct o. Qed.

Lemma age_entry o t m : age o (set_age o t m) = t.
Proof. by destruct o. Qed.

Lemma swap_out_ok o s q pid page : inv o s q → Forall used (primary s) → counter o s ≤ NUM_MAX → room s →
  valid (pid, page) → pid_of (processes s) (pid, page) = pid → (pid, page) ∉ q ++ stored s →
  runs (swap_out o pid page) (λ _ s', served o s q (pid, page) s') s.
Proof.
  intros Hi Hf Hc (m & Hm & Hmu) Hv Hpid Hnew. destruct (oldest_full _ _ _ Hi Hf Hc) as (E & A & v & i & HE & HA & Ho & Hfi & Hiv).
  unfold swap_out. kstep; kstep. rewrite Ho. kstep. eapply replace_primary_runs; [done..|]. intros cf cl Hcnt. repeat kstep. simpl.
  destruct (first _ (secondary s)) as [[j x]|] eqn:Ej; [|apply first_none with (m := m) in Ej; [|by eapply list_elem_of_lookup_2]; apply Z.eqb_neq in Ej; done].
  apply list_find_Some in Ej as (Hj & Hx & Hbefore). apply Z.eqb_eq in Hx. assert (Hxu : ¬ used x) by (unfold used; tauto).
  assert (Hvq : pair v ∈ q ++ stored s) by (apply elem_of_app; left; eapply inv_in; [done..|]; by apply (Forall_lookup_1 _ _ _ _ Hf Hiv)).
  destruct (iv_known _ _ _ Hi _ Hvq) as [Hvv _]. repeat kstep. unfold read_rem. repeat kstep. apply set_page_runs; [done|].
  unfold set_processes, set_secondary; simpl. rewrite (alter_insert _ _ _ _ Hj).
  assert (Hxp : if decide (used x) then pair x = (pid, page) else (pid, page) ∉ q ++ stored s) by by rewrite decide_False.
  assert (Hfst : ∀ k n, secondary s !! k = Some n → (k < j)%nat → used n).
  { intros k n Hk Hlt. unfold used. intros En. apply (Hbefore k n Hk Hlt). by apply Z.eqb_eq. }
  eapply (swap_served o s q E A v x i j (pid, page)); try done; [by right|apply pair_entry|apply age_entry|apply pair_entry].
Qed.

Lemma swap_in_ok o s q pid page : inv o s q → counter o s ≤ NUM_MAX →
  valid (pid, page) → pid_of (processes s) (pid, page) = pid → (pid, page) ∈ stored s →
  runs (swap_in o pid page) (λ _ s', served o s q (pid, page) s') s.
Proof.
  intros Hi Hc Hv Hpid Hst. assert (Hf : Forall used (primary s)). { destruct (iv_full _ _ _ Hi) as [?|E]; [done|]. rewrite E in Hst. by apply not_elem_of_nil in Hst. }
  destruct (oldest_full _ _ _ Hi Hf Hc) as (E & A & v & i & HE & HA & Ho & Hfi & Hiv).
  unfold swap_in. kstep; kstep. rewrite Ho.
  destruct (first _ (secondary s)) as [[j x]|] eqn:Ej.
  2:{ apply list_elem_of_fmap in Hst as (m & Em & [_ Hm]%list_elem_of_filter). apply first_none with (m := m) in Ej; [|done].
      apply not_true_iff_false in Ej. destruct Ej. by apply holds_pair. }
  apply first_some in Ej as [Hj Hx%holds_pair].
  assert (Hvq : pair v ∈ q) by (eapply inv_in; [done..|]; by apply (Forall_lookup_1 _ _ _ _ Hf Hiv)).
  destruct (iv_known _ _ _ Hi (pair v)) as [Hvv _]; [apply elem_of_app; by left|].
  assert (Hxu : used x) by (apply valid_used; by rewrite Hx).
  unfold read_rem. repeat kstep. apply set_page_runs; [done|]. unfold set_processes, set_secondary; simpl. rewrite (alter_insert _ _ _ _ Hj).
  injection Hx as Hx1 Hx2. rewrite Hx1, Hx2. eapply replace_primary_runs; [done..|]. simpl. intros cf cl Hcnt.
  assert (Hxp : if decide (used x) then pair x = (pid, page) else (pid, page) ∉ q ++ stored s) by (rewrite decide_True by done; unfold pair; congruence).
  assert (Hfst : ∀ k n, secondary s !! k = Some n → (k < j)%nat → used n).
  { intros k n Hk Hlt. by eapply (iv_prefix _ _ _ Hi k j). }
  eapply (swap_served o s q E A v x i j (pid, page)); try done; [by left|apply pair_entry|apply age_entry|apply pair_entry].
Qed.

(** ** A reference *)

Lemma found_in_primary o s q p : inv o s q → first (holds p.1 p.2) (primary s) = None → valid p → p ∉ q.
Proof.
  intros Hi Hn Hv Hp. destruct (iv_order _ _ _ Hi) as [E [HE _ Hq _]]. rewrite <- Hq in Hp. apply list_elem_of_fmap in Hp as (m & -> & Hm).
  rewrite HE in Hm. apply list_elem_of_filter in Hm as [_ Hm]. apply first_none with (m := m) in Hn; [|done].
  apply not_true_iff_false in Hn. destruct Hn. by apply holds_pair.
Qed.

Lemma found_in_secondary s p : valid p →
  match first (holds p.1 p.2) (secondary s) with Some _ => true | None => false end = bool_decide (p ∈ stored s).
Proof.
  intros Hv. symmetry. destruct (first _ _) as [[j m]|] eqn:Ej.
  - apply first_some in Ej as [Hj Hm%holds_pair]. rewrite <- surjective_pairing in Hm. subst p. apply bool_decide_eq_true.
    eapply stored_in; [done|by apply valid_used].
  - apply bool_decide_eq_false. intros Hs. apply list_elem_of_fmap in Hs as (m & -> & [_ Hm]%list_elem_of_filter).
    apply first_none with (m := m) in Ej; [|done]. apply not_true_iff_false in Ej. destruct Ej. by apply holds_pair.
Qed.

Lemma room_test s : length (secondary s) = TAM_SECONDARY →
  (negb (me_process (secondary s !!! (TAM_SECONDARY - 1)%nat) =? -1) = false ↔ room s).
Proof.
  intros Hl. destruct (lookup_lt_is_Some_2 (secondary s) (TAM_SECONDARY - 1)%nat) as [m Hm]; [rewrite Hl; unfold TAM_SECONDARY; lia|].
  rewrite (list_lookup_total_correct _ _ _ Hm), negb_false_iff, Z.eqb_eq. unfold room, used. rewrite Hm. split.
  - intros E. exists m. split; [done|]. tauto.
  - intros (m' & [= <-] & Hu). destruct (decide (me_process m = -1)); tauto.
Qed.

Lemma served_hit o s q i x : inv o s q → primary s !! i = Some x → used x →
  served o s q (pair x) (Sim (processes s) (<[i := set_age Lru (cont_LRU s) x]> (primary s)) (secondary s) (cont_FIFO s) (cont_LRU s + 1)).
Proof.
  intros Hi Hx Hu. assert (Hq : pair x ∈ q) by by eapply inv_in. split; [by apply inv_hit|]. split; [destruct o; simpl; lia|].
  intros z. rewrite policy_hit; [|by pose proof (iv_nodup _ _ _ Hi) as (? & _ & _)%NoDup_app|done].
  unfold pages; simpl. split; [by right|]. intros [-> |?]; [apply elem_of_app; by left|done].
Qed.

Lemma served_load o s q i x p : inv o s q → primary s !! i = Some x → ¬ used x → valid p → pid_of (processes s) p = p.1 → p ∉ q ++ stored s →
  served o s q p (Sim (assign p i (processes s)) (<[i := Memory p.1 p.2 (cont_FIFO s) (cont_LRU s)]> (primary s)) (secondary s) (cont_FIFO s + 1) (cont_LRU s + 1)).
Proof.
  intros Hi Hx Hu Hv Hpid Hp. split; [by eapply inv_load|]. split; [by destruct o|]. intros z.
  rewrite (policy_load _ _ _ _ _ _ Hi Hx Hu) by (intros ?; apply Hp, elem_of_app; by left). apply elem_of_cons.
Qed.

Lemma modify_process_ok o s q pid page : inv o s q → counter o s ≤ NUM_MAX → room s →
  valid (pid, page) → pid_of (processes s) (pid, page) = pid →
  runs (modify_process o pid page) (λ b s', served o s q (pid, page) s' ∧ (b = false ↔ room s')) s.
Proof.
  intros Hi Hc Hroom Hv Hpid. unfold modify_process. kstep; kstep. pose proof (found_in_secondary s _ Hv) as Hsec. cbn [fst snd] in Hsec.
  assert (Hend : ∀ s', served o s q (pid, page) s' →
    served o s q (pid, page) s' ∧ (negb (me_process (secondary s' !!! (TAM_SECONDARY - 1)%nat) =? -1) = false ↔ room s')).
  { intros s' Hs'. split; [done|]. apply room_test. apply (iv_secondary _ _ _ (proj1 Hs')). }
  destruct (first _ (primary s)) as [[i x]|] eqn:Ei.
  - apply first_some in Ei as [Hx Ex%holds_pair]. assert (Hu : used x) by (apply valid_used; by rewrite Ex).
    rewrite <- Ex in *. kstep. kstep. eapply runs_of_eq; [reflexivity|]. do 2 kstep. kstep.
    unfold set_primary; simpl. rewrite Hsec, bool_decide_eq_false_2 by (intros Hs; eapply inv_apart; [done|by eapply inv_in|done]).
    repeat kstep. rewrite (alter_insert _ _ _ _ Hx). apply Hend. by apply served_hit.
  - pose proof (found_in_primary _ _ _ (pid, page) Hi Ei Hv) as Hnq. repeat kstep. rewrite Hsec. cbn [negb andb].
    case_bool_decide as Hs; cbn [negb]; [repeat kstep; eapply runs_mono; [by apply swap_in_ok|intros [] s' Hs'; repeat kstep; by apply Hend]|].
    assert (Hnew : (pid, page) ∉ q ++ stored s) by (rewrite elem_of_app; tauto).
    destruct (first (λ m, me_process m =? -1) (primary s)) as [[i x]|] eqn:Ef.
    + apply first_some in Ef as [Hx Eu%Z.eqb_eq]. eapply load_free_runs; [done..|]. repeat kstep. apply Hend.
      apply (served_load o s q i x (pid, page)); try done. unfold used. tauto.
    + eapply runs_mono; [apply swap_out_ok; try done|intros [] s' Hs'; repeat kstep; by apply Hend].
      apply Forall_forall. intros m Hm. apply first_none with (m := m) in Ef; [|done]. by apply Z.eqb_neq in Ef.
Qed.

Lemma inv_create o s q pid : inv o s q → 0 ≤ pid < Z.of_nat MAX_PROCESS → (∀ r, r ∈ processes s → pr_pid r ≠ pid) →
  inv o (set_processes (<[Z.to_nat pid := Process pid (replicate TAM_PROCESS (-1)) true]>) s) q.
Proof.
  intros Hi Hpid Hno. pose proof Hi as [Hps Hl1 Hl2 HE Hnd Hfull Hkn Ht1 Ht2 Hpre]. pose proof Hps as [Hlen Hpg Hpids].
  set (r := Process _ _ _). assert (Hlt : (Z.to_nat pid < length (processes s))%nat) by lia.
  assert (Hother : ∀ z, z ∈ q ++ stored s → <[Z.to_nat pid := r]> (processes s) !!! Z.to_nat z.1 = processes s !!! Z.to_nat z.1).
  { intros z [[Hz _] Hk]%Hkn. rewrite !list_lookup_total_alt, list_lookup_insert_ne; [done|]. intros E. assert (z.1 = pid) as <- by lia.
    destruct (lookup_lt_is_Some_2 _ _ Hlt) as [r' Hr']. unfold pid_of in Hk. rewrite (list_lookup_total_correct _ _ _ Hr') in Hk.
    apply (Hno r'); [by eapply list_elem_of_lookup_2|done]. }
  assert (Htab : ∀ l, tabled (processes s) l → (∀ i m, l !! i = Some m → used m → pair m ∈ q ++ stored s) → tabled (<[Z.to_nat pid := r]> (processes s)) l).
  { intros l Hl Hin i m Hm Hu. unfold table. rewrite Hother by by eapply Hin. by apply Hl. }
  split; simpl; try done.
  - split; [by rewrite length_insert| |]; intros k r'; rewrite list_lookup_insert; (case_decide as E; [destruct E as [<- _]; intros [= <-]|by eauto]); simpl; [done|].
    right. lia.
  - intros z Hz. unfold pid_of. rewrite Hother by done. by apply Hkn.
  - apply Htab; [done|]. intros i m Hm Hu. apply elem_of_app. left. by eapply inv_in.
  - apply Htab; [done|]. intros i m Hm Hu. apply elem_of_app. right. by eapply stored_in.
Qed.

Lemma refer_ok o s q pid page : inv o s q → counter o s ≤ NUM_MAX → room s → valid (pid, page) →
  runs (refer o pid page) (λ b s', served o s q (pid, page) s' ∧ (b = false ↔ room s')) s.
Proof.
  intros Hi Hc Hr Hv. unfold refer. pose proof Hv as [Hv1 Hv2]; simpl in Hv1, Hv2. rewrite (proj2 (Z.ltb_ge _ _)) by lia. kstep; kstep. kstep.
  pose proof (iv_procs _ _ _ Hi) as [Hlen _ Hpids]. destruct (existsb _ _) eqn:Ex.
  - kstep. apply modify_process_ok; try done. apply existsb_exists in Ex as (r & Hr' & Hp%Z.eqb_eq).
    apply list_elem_of_In, list_elem_of_lookup in Hr' as [k Hk]. unfold pid_of; simpl.
    destruct (lookup_lt_is_Some_2 (processes s) (Z.to_nat pid)) as [r' Hr']; [lia|]. rewrite (list_lookup_total_correct _ _ _ Hr').
    destruct (Hpids _ _ Hk) as [H0|H0]; [destruct (Hpids _ _ Hr'); lia|]. assert (k = Z.to_nat pid) as -> by lia. by simplify_eq.
  - unfold create_process. rewrite (proj2 (Z.leb_le 0 pid)), (proj2 (Z.ltb_lt pid _)) by lia. cbn [andb]. kstep.
    eapply runs_mono; [apply (modify_process_ok o _ q)|done].
    + apply inv_create; [done..|]. intros r Hr' E. apply not_true_iff_false in Ex. destruct Ex. apply existsb_exists. exists r. split; [by apply list_elem_of_In|by apply Z.eqb_eq].
    + done.
    + done.
    + done.
    + unfold pid_of, set_processes; simpl. rewrite list_lookup_total_alt, list_lookup_insert_eq by lia. done.
Qed.

(** ** The program *)

Lemma inv_start o : inv o start [].
Proof.
  split; [|done|done| |by vm_compute; constructor|by right| | | |].
  - split; [done| |]; intros k r [-> _]%lookup_replicate; [done|by left].
  - exists []. split; [done|constructor|done|by intros m ?%not_elem_of_nil].
  - by intros p ?%not_elem_of_nil.
  - intros i m [-> _]%lookup_replicate Hu. by destruct Hu.
  - intros i m [-> _]%lookup_replicate Hu. by destruct Hu.
  - intros j k m n _ [-> _]%lookup_replicate _ Hu. by destruct Hu.
Qed.

(** Without room, both memories are full. *)
Lemma inv_no_room o s q : inv o s q → ¬ room s → length (q ++ stored s) = (TAM_PRIMARY + TAM_SECONDARY)%nat.
Proof.
  intros Hi Hr. pose proof Hi as [_ Hl1 Hl2 [E HE] _ Hfull _ _ _ Hpre].
  destruct (lookup_lt_is_Some_2 (secondary s) (TAM_SECONDARY - 1)%nat) as [n Hn]; [rewrite Hl2; unfold TAM_SECONDARY; lia|].
  assert (Hu : used n). { destruct (decide (used n)); [done|]. destruct Hr. by exists n. }
  assert (Hall : Forall used (secondary s)).
  { apply Forall_lookup. intros k m Hk. pose proof (lookup_lt_Some _ _ _ Hk). destruct (decide (k = (TAM_SECONDARY - 1)%nat)) as [-> |]; [by simplify_eq|].
    eapply (Hpre k); [done|exact Hn|lia|done]. }
  assert (Hne : stored s ≠ []). { intros E0. pose proof (stored_in _ _ _ Hn Hu) as Hin. rewrite E0 in Hin. by apply not_elem_of_nil in Hin. }
  destruct Hfull as [Hf|]; [|done]. rewrite length_app. unfold pages. rewrite length_fmap, filter_used by done.
  rewrite <- (or_pairs _ _ _ _ _ HE), length_fmap, (or_perm _ _ _ _ _ HE), filter_used by done. lia.
Qed.

(** The numbers of the input. *)
Definition numbers (refs : list ppage) : list Z := refs ≫= λ p, [p.1; p.2].

(** The loop before a reference: an even number of numbers was read. *)
Definition at_ref (inp : list Z) (r : option loop) : Prop := ∃ num number1, r = Some (Loop inp num number1 0).

Lemma second_number o inp num number1 s : main_round o (Loop inp num number1 1) s =
  (b ← refer o number1 (scanf_d inp num).1; mret (if b : bool then None else Some (Loop (scanf_d inp num).2 (scanf_d inp num).1 number1 0))) s.
Proof. unfold main_round. cbn [lo_in lo_num lo_count lo_number1]. by destruct (scanf_d inp num). Qed.

Lemma two_rounds o n inp num number1 s : let '(pid, inp1) := scanf_d inp num in let '(page, inp2) := scanf_d inp1 pid in
  main_rounds (S (S n)) o (Loop inp num number1 0) s =
    (b ← refer o pid page; if b : bool then mret None else main_rounds n o (Loop inp2 page pid 0)) s.
Proof.
  destruct (scanf_d inp num) as [pid inp1] eqn:E1, (scanf_d inp1 pid) as [page inp2] eqn:E2. cbn [main_rounds].
  rewrite (bind_ok (main_round o _) _ s (Some (Loop inp1 pid pid 1)) s) by (unfold main_round; cbn [lo_in lo_num]; by rewrite E1).
  cbn [main_rounds]. unfold mbind at 1, K_bind at 1. rewrite second_number, E2. cbn [fst snd]. unfold mbind, K_bind.
  destruct (refer o pid page s) as [[[] s']| |]; done.
Qed.

Lemma main_rounds_ok o refs inp : ∀ s past num number1, inv o s (foldl (policy o) [] past) → room s → counter o s + Z.of_nat (length refs) ≤ NUM_MAX →
  Forall valid refs → (∀ z, z ∈ past ↔ z ∈ foldl (policy o) [] past ++ stored s) →
  runs (main_rounds (2 * length refs) o (Loop (numbers refs ++ inp) num number1 0)) (λ r s', ∃ now rest, refs = now ++ rest ∧
    inv o s' (foldl (policy o) [] (past ++ now)) ∧ (∀ z, z ∈ past ++ now ↔ z ∈ foldl (policy o) [] (past ++ now) ++ stored s') ∧
    (rest = [] ∧ at_ref inp r ∨ r = None ∧ ¬ room s')) s.
Proof.
  induction refs as [|[pid page] refs IH]; intros s past num number1 Hi Hr Hc Hv Hz.
  - apply runs_ret. exists [], []. rewrite (app_nil_r past). split; [done|]. split; [done|]. split; [done|]. left. split; [done|]. by eexists _, _.
  - apply Forall_cons in Hv as [Hv Hvs]. cbn [length] in *. change (numbers ((pid, page) :: refs)) with (pid :: page :: numbers refs).
    replace (2 * S (length refs))%nat with (S (S (2 * length refs))) by lia. cbn [app].
    destruct (refer_ok o s _ pid page Hi ltac:(lia) Hr Hv) as (b & s' & E & (Hi' & Hc' & Hz') & Hb). unfold runs.
    pose proof (two_rounds o (2 * length refs) (pid :: page :: numbers refs ++ inp) num number1 s) as E0. cbn [scanf_d] in E0. rewrite (bind_ok _ _ _ _ _ E) in E0. rewrite E0. clear E0.
    change (policy o (foldl _ _ _) _) with (foldl (policy o) (foldl (policy o) [] past) [(pid, page)]) in *. rewrite <- foldl_app in *.
    assert (Hz2 : ∀ z, z ∈ past ++ [(pid, page)] ↔ z ∈ foldl (policy o) [] (past ++ [(pid, page)]) ++ stored s').
    { intros z. rewrite Hz', elem_of_app, list_elem_of_singleton, Hz. tauto. }
    destruct b.
    + eexists _, _. split; [done|]. exists [(pid, page)], refs. split; [done|]. split; [done|]. split; [done|]. right. split; [done|]. intros Hr'. by apply Hb in Hr'.
    + destruct (IH s' (past ++ [(pid, page)]) page pid) as (r & s2 & E2 & now & rest & -> & H1 & H2 & H3); [done|by apply Hb|lia|done..|].
      eexists _, _. split; [exact E2|]. exists ((pid, page) :: now), rest. rewrite <- app_assoc in *. auto.
Qed.

(** C26. The simulator [lab-07/sim.c] implements the two replacement policies.  For
    an input that begins with up to [NUM_MAX] = 1000 references to processes 0 to 99 and
    pages 1 to 16, the rounds of the loop that read them run without leaving the arrays;
    the main memory then has exactly the pages that the queue of the policy gives (first
    in first out, or least recently used), each once; the secondary memory holds every
    other page that was referred to, and nothing is lost or in both; the page table of
    every process has, for each of its pages, the index from 0 of its entry; and the
    program exits before it read them all only with all the entries of both memories
    taken.  What follows the references in the input is arbitrary. *)
Theorem sim_follows_the_policy o refs inp num number1 : Forall valid refs → Z.of_nat (length refs) ≤ NUM_MAX →
  runs (main_rounds (2 * length refs) o (Loop (numbers refs ++ inp) num number1 0)) (λ r s', ∃ now rest, refs = now ++ rest ∧
    let q := foldl (policy o) [] now in
    pages (primary s') ≡ₚ q ∧ NoDup (q ++ pages (secondary s')) ∧ (∀ p, p ∈ now ↔ p ∈ q ++ pages (secondary s')) ∧
    tabled (processes s') (primary s') ∧ tabled (processes s') (secondary s') ∧
    (rest = [] ∧ at_ref inp r ∨ r = None ∧ length (q ++ pages (secondary s')) = (TAM_PRIMARY + TAM_SECONDARY)%nat)) start.
Proof.
  intros Hv Hn. eapply runs_mono; [apply (main_rounds_ok o refs inp start [] num number1)|]; [by apply inv_start|by vm_compute; eexists; split; [reflexivity|tauto]|by destruct o|done| |].
  - intros z. by change (z ∈ @nil ppage ↔ z ∈ @nil ppage).
  - intros r s' (now & rest & -> & Hi & Hz & Hr). cbn [app] in *. exists now, rest. pose proof Hi as [_ _ _ [E HE] Hnd _ _ Ht1 Ht2 _].
    split; [done|]. split; [|split; [done|split; [done|split; [done|split; [done|]]]]].
    + unfold pages. by rewrite <- (or_perm _ _ _ _ _ HE), (or_pairs _ _ _ _ _ HE).
    + destruct Hr as [?|[? ?]]; [by left|right]. split; [done|]. by eapply inv_no_room.
Qed.

(** The end of the input does not end the program: two more rounds refer to the page and
    the process that the last number read names. *)
Lemma sim_goes_on_after_the_input o num number1 s :
  main_rounds 2 o (Loop [] num number1 0) s =
    (b ← refer o num num; mret (if b : bool then None else Some (Loop [] num num 0))) s.
Proof.
  rewrite (two_rounds o 0 [] num number1 s). unfold mbind, K_bind. by destruct (refer o num num s) as [[[] s']| |].
Qed.

(** The input of the exercise text, and two rounds more: page 1 of process 1, to which the
    input does not refer, is in the memory. *)
Lemma sim_example_after_the_input : ∃ r s,
  main_rounds 10 Fifo (Loop [1; 3; 1; 9; 1; 3; 2; 1] 0 0 0) start = Ok (r, s) ∧
  take 4 (write_all s).1.2 = [Some (1, 3); Some (1, 9); Some (2, 1); Some (1, 1)] ∧
  (write_all s).1.1 !! 0%nat = Some (1, <[0%nat := Some 3]> (<[2%nat := Some 0]> (<[8%nat := Some 1]> (replicate 16 None)))).
Proof. eexists _, _. split; [vm_compute; reflexivity|]. split; vm_compute; reflexivity. Qed.

(** Nine pages, the first of them referred to again before the ninth: the least
    recently used is the second. *)
Definition sample_refs : list ppage := [(1, 1); (1, 2); (1, 3); (2, 1); (2, 2); (2, 3); (3, 1); (3, 2); (1, 1); (0, 16)].

Lemma sim_follows_the_policy_witness :
  foldl (policy Lru) [] sample_refs = [(0, 16); (1, 1); (3, 2); (3, 1); (2, 3); (2, 2); (2, 1); (1, 3)] ∧
  runs (main_rounds 20 Lru (Loop (numbers sample_refs ++ [7]) 0 0 0)) (λ r s', ∃ now rest, sample_refs = now ++ rest ∧
    let q := foldl (policy Lru) [] now in
    pages (primary s') ≡ₚ q ∧ NoDup (q ++ pages (secondary s')) ∧ (∀ p, p ∈ now ↔ p ∈ q ++ pages (secondary s')) ∧
    tabled (processes s') (primary s') ∧ tabled (processes s') (secondary s') ∧
    (rest = [] ∧ at_ref [7] r ∨ r = None ∧ length (q ++ pages (secondary s')) = (TAM_PRIMARY + TAM_SECONDARY)%nat)) start.
Proof.
  split; [vm_compute; reflexivity|]. apply (sim_follows_the_policy Lru sample_refs [7] 0 0); [|by vm_compute].
  repeat constructor; vm_compute; congruence.
Defined.

(** The counters are compared with [NUM_MAX]: with the main memory full and all of
    its counters past it, the loop finds no entry, and the one it copies was never
    set. *)
Lemma sim_copies_an_unset_entry s pid page m : Forall (λ x, NUM_MAX < age Lru x) (primary s) →
  first (λ x, me_process x =? -1) (secondary s) = Some m → swap_out Lru pid page s = Panic "uninitialised".
Proof.
  intros Hage Hm. unfold swap_out. assert (Ho : ∀ l, Forall (λ x, NUM_MAX < age Lru x) l → oldest Lru l NUM_MAX None = (NUM_MAX, None)).
  { induction 1 as [|x l Hx _ IH]; [done|]. cbn [oldest]. rewrite (proj2 (Z.ltb_ge _ _)) by lia. done. }
  assert (Hf : first (λ x, age Lru x =? NUM_MAX) (primary s) = None).
  { apply list_find_None. eapply Forall_impl; [exact Hage|]. intros x Hx. cbv beta in *. intros E%Z.eqb_eq. lia. }
  cbv [mbind K_bind kget mret]. rewrite Ho by done. unfold replace_primary. cbv [mbind K_bind kget mret]. rewrite Hf. cbv [K_ret].
  rewrite Hm. by destruct m.
Qed.
