(* ===== verification/Exec.v ===== *)
(** * Running a program: [xv6/exec.c] and [xv6/elf.h]

    [exec] builds a new address space from an ELF file, lays out the arguments on
    its stack and replaces the memory of the current process.  It is built on the
    virtual memory layer ([Vm]), on the process table ([Proc]) and on the file
    system, which it reaches through [ExecFs].  Addresses below [KERNBASE] hold
    what the current process sees there. *)

From S2P Require Import Prelude Str Mmu Bytes Kalloc Vm Proc.

(** ** [elf.h] *)

Definition ELF_MAGIC : Z := 0x464C457F.
Definition ELF_PROG_LOAD : Z := 1.

(** [struct elfhdr] and [struct proghdr] as they are in the file: the fields by
    their offsets, and the sizes. *)
Definition sizeof_elfhdr : Z := 52.
Definition elf_magic (b : list Z) : Z := get32 b 0.
Definition elf_entry (b : list Z) : Z := get32 b 24.
Definition elf_phoff (b : list Z) : Z := get32 b 28.
Definition elf_phnum (b : list Z) : Z := get16 b 44.

Definition sizeof_proghdr : Z := 32.
Definition ph_type (b : list Z) : Z := get32 b 0.
Definition ph_off (b : list Z) : Z := get32 b 4.
Definition ph_vaddr (b : list Z) : Z := get32 b 8.
Definition ph_filesz (b : list Z) : Z := get32 b 16.
Definition ph_memsz (b : list Z) : Z := get32 b 20.

Definition MAXARG : nat := 32.

(** What [exec] asks of the file system; [I] is the type of inode pointers. *)
Class ExecFs (F I : Type) := {
  xf_begin_op : K F unit;
  xf_end_op : K F unit;
  xf_namei : list Z → K F (option I);
  xf_ilock : I → K F unit;
  xf_readi : I → Z → Z → K F (Z * list Z);
  xf_iunlockput : I → K F unit
}.

Section exec.
Context {F I : Type} `{!ExecFs F I}.
(** [end], [data], and the address of the local array [ustack] of [exec]. *)
Context (kend kdata ustack : Z).

(** Code on the memory and the file system together. *)
Definition on_kf {A} (m : K (kst * F) A) : K (pst F) A := λ s,
  match m (s_k s, s_f s) with
  | Ok (a, (k, f)) => Ok (a, Pst (s_proc s) (s_initproc s) (s_nextpid s) (s_first s) (s_lk s) k f)
  | Panic msg => Panic msg
  | Hang => Hang
  end.

(** The label [bad]; [ip] is [None] for the null pointer. *)
Definition exec_bad (pgdir : Z) (ip : option I) : K (pst F) Z :=
  (if pgdir =? 0 then mret tt else on_k (freevm kend pgdir));;
  (match ip with
   | Some ip => on_f (xf_iunlockput ip);; on_f xf_end_op
   | None => mret tt
   end);;
  mret (-1).

(** The loop over the program headers, with [k] of them to go: the size reached, or
    [None] for [goto bad]. *)
Fixpoint exec_segments (ip : I) (pgdir off sz : Z) (k : nat) : K (pst F) (option Z) :=
  match k with
  | O => mret (Some sz)
  | S k' =>
      '(r, ph) ← on_f (xf_readi ip (u32 off) sizeof_proghdr);
      if negb (r =? sizeof_proghdr) then mret None
      else if negb (ph_type ph =? ELF_PROG_LOAD) then exec_segments ip pgdir (u32 (off + sizeof_proghdr)) sz k'
      else if ph_memsz ph <? ph_filesz ph then mret None
      else if u32 (ph_vaddr ph + ph_memsz ph) <? ph_vaddr ph then mret None
      else
        sz ← on_k (allocuvm kend pgdir sz (u32 (ph_vaddr ph + ph_memsz ph)));
        if sz =? 0 then mret None
        else if negb (ph_vaddr ph mod PGSIZE =? 0) then mret None
        else
          r ← on_kf (loaduvm (xf_readi ip) pgdir (ph_vaddr ph) (ph_off ph) (ph_filesz ph));
          if r <? 0 then mret None
          else exec_segments ip pgdir (u32 (off + sizeof_proghdr)) sz k'
  end.

(** A store to [ustack]. *)
Definition set_ustack (i : nat) (v : Z) : K (pst F) unit :=
  on_k (mem_mod (λ m, st32 m (ustack + 4 * Z.of_nat i) v)).

(** The loop over [argv], whose null pointer is the end of the list: [argc] and
    [sp] at its end. *)
Fixpoint exec_args (cur : nat) (pgdir : Z) (argv : list Z) (argc : nat) (sp : Z) : K (pst F) (option (nat * Z)) :=
  match argv with
  | [] => mret (Some (argc, sp))
  | a :: argv' =>
      if decide (MAXARG ≤ argc)%nat then mret None
      else
        x ← getp cur;
        m ← on_k (kgets k_mem);
        match strlen (S (Z.to_nat (p_sz x))) m a with
        | None => khang
        | Some n =>
            let sp := Z.land (u32 (sp - (n + 1))) (Z.lnot 3) in
            r ← on_k (copyout pgdir sp a (n + 1));
            if r <? 0 then mret None
            else
              set_ustack (3 + argc) sp;;
              exec_args cur pgdir argv' (S argc) sp
        end
  end.

(** [for(last=s=path; *s; s++)]. *)
Fixpoint last_part (s last : list Z) : list Z :=
  match s with
  | [] => last
  | c :: s' => if c =? 47 then last_part s' s' else last_part s' last
  end.

(** From the file loaded to the arguments on the stack: the size and the stack
    pointer. *)
Definition exec_stack (cur : nat) (pgdir sz : Z) (argv : list Z) : K (pst F) (option (Z * Z)) :=
  let sz := PGROUNDUP sz in
  sz ← on_k (allocuvm kend pgdir sz (u32 (sz + 2 * PGSIZE)));
  if sz =? 0 then mret None
  else
    on_k (clearpteu pgdir (sz - 2 * PGSIZE));;
    r ← exec_args cur pgdir argv 0 sz;
    match r with
    | None => mret None
    | Some (argc, sp) =>
        set_ustack (3 + argc) 0;;
        set_ustack 0 0xffffffff;;
        set_ustack 1 (Z.of_nat argc);;
        set_ustack 2 (u32 (sp - (Z.of_nat argc + 1) * 4));;
        let sp := u32 (sp - (3 + Z.of_nat argc + 1) * 4) in
        r ← on_k (copyout pgdir sp ustack ((3 + Z.of_nat argc + 1) * 4));
        if r <? 0 then mret None else mret (Some (sz, sp))
    end.

(** The commit to the new image. *)
Definition exec_commit (cur : nat) (path : list Z) (pgdir sz sp entry : Z) : K (pst F) Z :=
  upd cur (set_pname (name_copy (last_part path path)));;
  x ← getp cur;
  let oldpgdir := p_pgdir x in
  upd cur (set_ppgdir pgdir);;
  upd cur (set_psz sz);;
  on_k (mem_mod (λ m, st32 m (p_tf x + tf_eip) entry));;
  on_k (mem_mod (λ m, st32 m (p_tf x + tf_esp) sp));;
  switchuvm cur;;
  on_k (freevm kend oldpgdir);;
  mret 0.

Definition exec (cur : nat) (path : list Z) (argv : list Z) : K (pst F) Z :=
  on_f xf_begin_op;;
  o ← on_f (xf_namei path);
  match o with
  | None => on_f xf_end_op;; mret (-1)
  | Some ip =>
      on_f (xf_ilock ip);;
      '(r, elf) ← on_f (xf_readi ip 0 sizeof_elfhdr);
      if negb (r =? sizeof_elfhdr) then exec_bad 0 (Some ip)
      else if negb (elf_magic elf =? ELF_MAGIC) then exec_bad 0 (Some ip)
      else
        pgdir ← on_k (setupkvm kend kdata);
        if pgdir =? 0 then exec_bad 0 (Some ip)
        else
          r ← exec_segments ip pgdir (elf_phoff elf) 0 (Z.to_nat (elf_phnum elf));
          match r with
          | None => exec_bad pgdir (Some ip)
          | Some sz =>
              on_f (xf_iunlockput ip);;
              on_f xf_end_op;;
              r ← exec_stack cur pgdir sz argv;
              match r with
              | None => exec_bad pgdir None
              | Some (sz, sp) => exec_commit cur path pgdir sz sp (elf_entry elf)
              end
          end
  end.

End exec.
