(* ===== verification/ExecImage.v ===== *)
(** * Running a program: the address space under construction

    What the operations of [xv6/vm.c] that [exec] uses do to a new address space:
    pages [0, np) are mapped, to pages that were free at the start, and hold the
    bytes of an image. *)

From S2P Require Import Prelude Str Mmu Bytes Kalloc Vm VmSpec VmUser VmFork VmCopy.

Section image.
Context (kend kdata : Z) (Hkend : KERNBASE < kend).
Context (Hdata : KERNLINK < kdata < KERNBASE + PHYSTOP) (Halign : kdata mod PGSIZE = 0).

(** Memory and free pages when [exec] starts. *)
Context (m0 : gmap Z Z) (l0 : list Z) (Hfree : ∀ v, v ∈ l0 → page_ok kend v) (Hnodup : NoDup l0).

Notation vinv := (vinv kend).
Notation user_ok := (user_ok kend).

(** The directory [d] maps page [q] with the flags [fl q], and user address [va]
    holds [img va]. *)
Record image (d np : Z) (fl img : Z → Z) (s : kst) (l : list Z) (T : gmap Z Z) : Prop := {
  im_np : 0 ≤ np ≤ 2 ^ 19;
  im_inv : vinv s l d T;
  im_user : user_ok (k_mem s) l d T 0 (2 ^ 19);
  im_page q : 0 ≤ q < np → let e := entry (k_mem s) T q in present e ∧ PTE_FLAGS e = fl q ∧ frame e ∈ l0;
  im_byte va : 0 ≤ va < PGSIZE * np → rd (k_mem s) (ka (k_mem s) T va) = img va;
  im_none p : np ≤ p < 2 ^ 19 → ¬ present (entry (k_mem s) T p);
  im_kern p : 2 ^ 19 ≤ p < npages → entry (k_mem s) T p = default 0 (kentry (kmap kdata) p);
  im_count w : w ∈ l0 ↔ w ∈ l ∨ w ∈ own d T ∨ ∃ q, 0 ≤ q < np ∧ w = frame (entry (k_mem s) T q);
  im_mem : same_out (list_to_set l0) m0 (k_mem s)
}.

(** A mapped page is a page of its own. *)
Lemma image_frame d np fl img s l T q : image d np fl img s l T → 0 ≤ q < np →
  let v := frame (entry (k_mem s) T q) in page_ok kend v ∧ v ∉ own d T ∧ v ∉ l ∧ v ∈ l0.
Proof.
  intros Hi Hq v. pose proof (im_np _ _ _ _ _ _ _ Hi). destruct (im_page _ _ _ _ _ _ _ Hi q Hq) as (Hp & _ & Hv).
  destruct (us_page _ _ _ _ _ _ _ (im_user _ _ _ _ _ _ _ Hi) q ltac:(lia) Hp) as (H1 & H2 & H3). done.
Qed.

Lemma image_frame_inj d np fl img s l T p q : image d np fl img s l T → 0 ≤ p < np → 0 ≤ q < np →
  frame (entry (k_mem s) T p) = frame (entry (k_mem s) T q) → p = q.
Proof.
  intros Hi Hp Hq. pose proof (im_np _ _ _ _ _ _ _ Hi).
  apply (us_inj _ _ _ _ _ _ _ (im_user _ _ _ _ _ _ _ Hi)); [lia|lia|by apply (im_page _ _ _ _ _ _ _ Hi)..].
Qed.

Lemma l0_list_pages w : w ∈ (list_to_set l0 : gset Z) → page_ok kend w.
Proof. rewrite elem_of_list_to_set. apply Hfree. Qed.

(** ** [setupkvm] *)

Lemma image_start d fl img s l T : vinv s l d T → (∀ w, w ∈ l0 ↔ w ∈ l ∨ w ∈ own d T) → kernel_only kdata (k_mem s) T →
  same_out (list_to_set l0) m0 (k_mem s) → image d 0 fl img s l T.
Proof.
  intros Hv Hc Hk Hm. assert (HN : npages = 2 ^ 20) by done.
  assert (Hno : ∀ q, 0 ≤ q < 2 ^ 19 → ¬ present (entry (k_mem s) T q)).
  { intros q Hq. rewrite Hk by lia. rewrite (kentry_below _ _ q (kmap_rows kdata Hdata Halign)) by lia. apply not_present_0. }
  split; [lia|done| |intros; lia|intros; lia|done|by intros p Hp; apply Hk; lia| |done].
  - split; [intros p Hp Hpr|intros p q Hp _ Hpr]; by destruct (Hno p Hp).
  - intros w. rewrite Hc. split; [tauto|]. intros [?|[?|(q & Hq & _)]]; [tauto..|lia].
Qed.

(** ** [allocuvm] *)

Section alloc.
Context (d np np' : Z) (fl img : Z → Z) (s s' : kst) (l l' : list Z) (T T' : gmap Z Z).
Hypothesis Hi : image d np fl img s l T.
Hypothesis Hnp : np ≤ np' ≤ 2 ^ 19.

(** Pages of the image are neither free nor page tables, before and after. *)
Lemma alloc_other q : 0 ≤ q < np → (∀ w, w ∈ l' ∨ w ∈ own d T' → w ∈ l ∨ w ∈ own d T) →
  let v := frame (entry (k_mem s) T q) in page_ok kend v ∧ v ∉ own d T' ∧ v ∉ l' ∧ v ∈ l0 ∧ v ∉ l ∧ v ∉ own d T.
Proof.
  intros Hq Hsub v. destruct (image_frame _ _ _ _ _ _ _ q Hi Hq) as (H1 & H2 & H3 & H4).
  split_and!; try done; intros Hin; destruct (Hsub v); tauto.
Qed.

Lemma alloc_byte va : 0 ≤ va < PGSIZE * np → same_out (list_to_set l ∪ own d T) (k_mem s) (k_mem s') →
  (∀ q, 0 ≤ q < np → entry (k_mem s') T' q = entry (k_mem s) T q) → rd (k_mem s') (ka (k_mem s') T' va) = img va.
Proof.
  intros Hva Hm He. assert (Hq : 0 ≤ va / PGSIZE < np).
  { split; [apply Z.div_pos; [lia|done]|apply Z.div_lt_upper_bound; [done|lia]]. }
  rewrite <- (im_byte _ _ _ _ _ _ _ Hi va Hva). unfold ka. rewrite He by done.
  destruct (image_frame _ _ _ _ _ _ _ _ Hi Hq) as (H1 & H2 & H3 & _). apply Hm.
  apply (out_of kend _ (frame (entry (k_mem s) T (va / PGSIZE)))); [done| | |pose proof (Z.mod_pos_bound va PGSIZE ltac:(done)); lia].
  - intros p [Hp%elem_of_list_to_set|Hp]%elem_of_union.
    + apply Hfree, (im_count _ _ _ _ _ _ _ Hi). by left.
    + eapply own_page; [|done]. apply (vi_pt _ _ _ _ _ (im_inv _ _ _ _ _ _ _ Hi)).
  - rewrite elem_of_union, elem_of_list_to_set. tauto.
Qed.

Lemma alloc_mem : same_out (list_to_set l ∪ own d T) (k_mem s) (k_mem s') → same_out (list_to_set l0) m0 (k_mem s').
Proof.
  intros Hm. eapply same_out_trans; [apply (im_mem _ _ _ _ _ _ _ Hi)|]. eapply same_out_mono; [|exact Hm].
  intros w. rewrite elem_of_union, !elem_of_list_to_set, (im_count _ _ _ _ _ _ _ Hi). tauto.
Qed.

Lemma image_alloc : allocated kend user_flags zero_page s l d T np np' s' l' T' →
  image d np' (λ q, if q <? np then fl q else 7) (λ va, if va <? PGSIZE * np then img va else 0) s' l' T'.
Proof.
  intros Ha. pose proof (im_np _ _ _ _ _ _ _ Hi). assert (HN : npages = 2 ^ 20) by done. assert (HG : PGSIZE = 4096) by done.
  assert (He : ∀ q, 0 ≤ q < np → entry (k_mem s') T' q = entry (k_mem s) T q).
  { intros q Hq. apply (ad_old _ _ _ _ _ _ _ _ _ _ _ _ Ha); lia. }
  assert (Hsub : ∀ w, w ∈ l' ∨ w ∈ own d T' → w ∈ l ∨ w ∈ own d T).
  { intros w Hw. apply (ad_count _ _ _ _ _ _ _ _ _ _ _ _ Ha). tauto. }
  assert (Hnew : ∀ q, np ≤ q < np' → frame (entry (k_mem s') T' q) ∈ l).
  { intros q Hq. apply (ad_new _ _ _ _ _ _ _ _ _ _ _ _ Ha q Hq). }
  assert (Hrest : ∀ p, np' ≤ p < npages → entry (k_mem s') T' p = entry (k_mem s) T p).
  { intros p Hp. apply (ad_old _ _ _ _ _ _ _ _ _ _ _ _ Ha); lia. }
  assert (Hfresh : ∀ p q, 0 ≤ p < np → np ≤ q < np' → frame (entry (k_mem s) T p) ≠ frame (entry (k_mem s') T' q)).
  { intros p q Hp Hq E. destruct (image_frame _ _ _ _ _ _ _ p Hi Hp) as (_ & _ & Hn & _). apply Hn. rewrite E. by apply Hnew. }
  split; [lia|apply Ha| | | | | | |by apply alloc_mem, Ha].
  - assert (Hmax : ∀ p, 0 ≤ p < 2 ^ 19 → present (entry (k_mem s') T' p) → p < np').
    { intros p Hp Hpr. destruct (decide (p < np')); [done|]. rewrite Hrest in Hpr by lia. by destruct (im_none _ _ _ _ _ _ _ Hi p ltac:(lia)). }
    pose proof (ad_user _ _ _ _ _ _ _ _ _ _ _ _ Ha) as Hu. split.
    + intros p Hp Hpr. specialize (Hmax p Hp Hpr). destruct (decide (p < np)) as [Hlt|].
      * rewrite He by lia. destruct (alloc_other p ltac:(lia) Hsub) as (? & ? & ? & _). done.
      * apply (us_page _ _ _ _ _ _ _ Hu); [lia|done].
    + intros p q Hp Hq Hpp Hpq. pose proof (Hmax p Hp Hpp). pose proof (Hmax q Hq Hpq).
      destruct (decide (p < np)) as [Hlp|Hlp], (decide (q < np)) as [Hlq|Hlq].
      * rewrite !He by lia. apply (image_frame_inj _ _ _ _ _ _ _ p q Hi); lia.
      * rewrite He by lia. intros E. destruct (Hfresh p q); [lia|lia|done].
      * rewrite (He q) by lia. intros E. symmetry in E. destruct (Hfresh q p); [lia|lia|done].
      * apply (us_inj _ _ _ _ _ _ _ Hu); [lia|lia|done..].
  - intros q Hq e. unfold e. destruct (Z.ltb_spec q np).
    + rewrite He by lia. apply (im_page _ _ _ _ _ _ _ Hi). lia.
    + destruct (ad_new _ _ _ _ _ _ _ _ _ _ _ _ Ha q ltac:(lia)) as (H1 & H2 & H3 & _). split_and!; [done|done|].
      apply (im_count _ _ _ _ _ _ _ Hi). by left.
  - intros va Hva. destruct (Z.ltb_spec va (PGSIZE * np)) as [Hlt|Hge].
    + apply alloc_byte; [lia|apply Ha|done].
    + assert (Hq : np ≤ va / PGSIZE < np') by (split; [apply Z.div_le_lower_bound|apply Z.div_lt_upper_bound]; lia).
      apply (ad_new _ _ _ _ _ _ _ _ _ _ _ _ Ha _ Hq). apply Z.mod_pos_bound. lia.
  - intros p Hp. rewrite Hrest by lia. apply (im_none _ _ _ _ _ _ _ Hi). lia.
  - intros p Hp. rewrite Hrest by lia. by apply (im_kern _ _ _ _ _ _ _ Hi).
  - intros w. assert (Hw : w ∈ l0 ↔ (w ∈ l ∨ w ∈ own d T) ∨ ∃ q, 0 ≤ q < np ∧ w = frame (entry (k_mem s) T q)).
    { rewrite (im_count _ _ _ _ _ _ _ Hi). tauto. }
    rewrite Hw, (ad_count _ _ _ _ _ _ _ _ _ _ _ _ Ha). split.
    + intros [[?|[?|(q & Hq & ->)]]|(q & Hq & ->)]; [tauto|tauto| |]; right; right; exists q; (split; [lia|]); [done|by rewrite He].
    + intros [?|[?|(q & Hq & ->)]]; [tauto|tauto|]. destruct (decide (q < np)); [right|left; right; right].
      * exists q. split; [lia|]. apply (f_equal frame), He. lia.
      * exists q. split; [lia|done].
Qed.

Lemma image_restored : restored kend s l d T np np' s' l' T' → image d np fl img s' l' T'.
Proof.
  intros Hr. pose proof (im_np _ _ _ _ _ _ _ Hi). assert (HN : npages = 2 ^ 20) by done.
  assert (He : ∀ q, 0 ≤ q < np → entry (k_mem s') T' q = entry (k_mem s) T q).
  { intros q Hq. apply (rs_old _ _ _ _ _ _ _ _ _ _ Hr); lia. }
  assert (Hsub : ∀ w, w ∈ l' ∨ w ∈ own d T' → w ∈ l ∨ w ∈ own d T).
  { intros w Hw. apply (rs_count _ _ _ _ _ _ _ _ _ _ Hr). tauto. }
  assert (Hmax : ∀ p, 0 ≤ p < 2 ^ 19 → present (entry (k_mem s') T' p) → p < np).
  { intros p Hp Hpr. destruct (decide (p < np)); [done|]. destruct (decide (p < np')).
    - by destruct (rs_none _ _ _ _ _ _ _ _ _ _ Hr p ltac:(lia)).
    - rewrite (rs_old _ _ _ _ _ _ _ _ _ _ Hr) in Hpr by lia. by destruct (im_none _ _ _ _ _ _ _ Hi p ltac:(lia)). }
  split; [lia|apply Hr| | | | | | |by apply alloc_mem, Hr].
  - split.
    + intros p Hp Hpr. specialize (Hmax p Hp Hpr). rewrite He by lia. destruct (alloc_other p ltac:(lia) Hsub) as (? & ? & ? & _). done.
    + intros p q Hp Hq Hpp Hpq. pose proof (Hmax p Hp Hpp). pose proof (Hmax q Hq Hpq). rewrite !He by lia.
      apply (image_frame_inj _ _ _ _ _ _ _ p q Hi); lia.
  - intros q Hq e. unfold e. rewrite He by lia. by apply (im_page _ _ _ _ _ _ _ Hi).
  - intros va Hva. apply alloc_byte; [lia|apply Hr|done].
  - intros p Hp Hpr. specialize (Hmax p ltac:(lia) Hpr). lia.
  - intros p Hp. rewrite (rs_old _ _ _ _ _ _ _ _ _ _ Hr) by lia. by apply (im_kern _ _ _ _ _ _ _ Hi).
  - intros w. assert (Hw : w ∈ l0 ↔ (w ∈ l ∨ w ∈ own d T) ∨ ∃ q, 0 ≤ q < np ∧ w = frame (entry (k_mem s) T q)).
    { rewrite (im_count _ _ _ _ _ _ _ Hi). tauto. }
    rewrite Hw, (rs_count _ _ _ _ _ _ _ _ _ _ Hr). split.
    + intros [[?|?]|(q & Hq & ->)]; [tauto|tauto|]. right. right. exists q. split; [lia|]. by rewrite He.
    + intros [?|[?|(q & Hq & ->)]]; [tauto|tauto|]. right. exists q. split; [lia|]. by rewrite He.
Qed.
End alloc.

(** ** User addresses *)

Lemma ka_page m T q o : 0 ≤ o < PGSIZE → ka m T (PGSIZE * q + o) = frame (entry m T q) + o.
Proof.
  intros Ho. unfold ka. assert (E : (PGSIZE * q + o) / PGSIZE = q ∧ (PGSIZE * q + o) mod PGSIZE = o); [|by destruct E as [-> ->]].
  split; symmetry; [by apply (Z.div_unique_pos _ _ _ o)|by apply (Z.mod_unique_pos _ _ q)].
Qed.

Lemma va_split va : va = PGSIZE * (va / PGSIZE) + va mod PGSIZE ∧ 0 ≤ va mod PGSIZE < PGSIZE.
Proof. split; [by apply Z.div_mod|by apply Z.mod_pos_bound]. Qed.

Lemma va_page va np : 0 ≤ va < PGSIZE * np → 0 ≤ va / PGSIZE < np.
Proof. intros H. split; [apply Z.div_pos; [lia|done]|apply Z.div_lt_upper_bound; [done|lia]]. Qed.

Lemma ka_inj d np fl img s l T a b : image d np fl img s l T → 0 ≤ a < PGSIZE * np → 0 ≤ b < PGSIZE * np →
  ka (k_mem s) T a = ka (k_mem s) T b → a = b.
Proof.
  intros Hi Ha Hb. unfold ka. pose proof (va_page a np Ha) as Hqa. pose proof (va_page b np Hb) as Hqb.
  destruct (va_split a) as [Ea Hoa], (va_split b) as [Eb Hob].
  destruct (decide (a / PGSIZE = b / PGSIZE)) as [E|Hne]; [rewrite E; intros; lia|].
  destruct (image_frame _ _ _ _ _ _ _ _ Hi Hqa) as [Hpa _]. destruct (image_frame _ _ _ _ _ _ _ _ Hi Hqb) as [Hpb _].
  assert (Hd : frame (entry (k_mem s) T (a / PGSIZE)) ≠ frame (entry (k_mem s) T (b / PGSIZE))).
  { intros E. apply Hne. by apply (image_frame_inj _ _ _ _ _ _ _ _ _ Hi). }
  pose proof (pages_disjoint kend _ _ Hpa Hpb Hd). lia.
Qed.

Lemma image_ext d np fl img img' s l T : image d np fl img s l T → (∀ va, 0 ≤ va < PGSIZE * np → img va = img' va) → image d np fl img' s l T.
Proof. intros [] E. split; try done. intros va Hva. rewrite <- E by done. auto. Qed.

Lemma image_flags d np fl fl' img s l T : image d np fl img s l T → (∀ q, 0 ≤ q < np → fl q = fl' q) → image d np fl' img s l T.
Proof. intros [] E. split; try done. intros q Hq e. rewrite <- E by done. by apply im_page0. Qed.

(** ** Writing to the pages of the image *)

Section write.
Context (d np : Z) (fl img img' : Z → Z) (s : kst) (l : list Z) (T m' : gmap Z Z).
Hypothesis Hi : image d np fl img s l T.
Hypothesis Hout : ∀ b, (∀ va, 0 ≤ va < PGSIZE * np → b ≠ ka (k_mem s) T va) → rd m' b = rd (k_mem s) b.

Definition frames : gset Z := list_to_set ((λ q, frame (entry (k_mem s) T q)) <$> seqZ 0 np).

Lemma elem_frames w : w ∈ frames ↔ ∃ q, 0 ≤ q < np ∧ w = frame (entry (k_mem s) T q).
Proof.
  unfold frames. rewrite elem_of_list_to_set, list_elem_of_fmap. pose proof (im_np _ _ _ _ _ _ _ Hi).
  split; intros (q & H1 & H2); exists q; rewrite elem_of_seqZ in *; split; (done || lia).
Qed.

Lemma frames_ok w : w ∈ frames → page_ok kend w ∧ w ∉ own d T ∧ w ∉ l ∧ w ∈ l0.
Proof. intros (q & Hq & ->)%elem_frames. by apply (image_frame _ _ _ _ _ _ _ q Hi). Qed.

Lemma write_out : same_out frames (k_mem s) m'.
Proof.
  intros b Hb. apply Hout. intros va Hva ->. pose proof (va_page va np Hva) as Hq. destruct (va_split va) as [_ Ho].
  specialize (Hb (frame (entry (k_mem s) T (va / PGSIZE)))). unfold ka in Hb.
  destruct Hb; [apply elem_frames; by eexists|lia..].
Qed.

Lemma write_entry q : entry m' T q = entry (k_mem s) T q.
Proof.
  eapply (entry_out kend frames); [apply (vi_pt _ _ _ _ _ (im_inv _ _ _ _ _ _ _ Hi))|apply write_out|].
  intros w Hw%frames_ok. tauto.
Qed.

Lemma image_write : mem_ok m' → (∀ va, 0 ≤ va < PGSIZE * np → rd m' (ka (k_mem s) T va) = img' va) → image d np fl img' (set_kmem m' s) l T.
Proof.
  intros Hm Hb. pose proof (im_inv _ _ _ _ _ _ _ Hi) as Hv. split; cbn [k_mem set_kmem].
  - apply (im_np _ _ _ _ _ _ _ Hi).
  - split; cbn [k_mem set_kmem].
    + eapply (kinv_out kend frames); [apply Hv|done|apply write_out|]. intros w Hw%frames_ok. tauto.
    + eapply (pt_out kend frames); [apply Hv|apply write_out|]. intros w Hw%frames_ok. tauto.
    + apply Hv.
  - split; intros *; rewrite !write_entry; apply (im_user _ _ _ _ _ _ _ Hi).
  - intros q. rewrite write_entry. apply (im_page _ _ _ _ _ _ _ Hi).
  - intros va Hva. unfold ka. rewrite write_entry. by apply Hb.
  - intros p. rewrite write_entry. apply (im_none _ _ _ _ _ _ _ Hi).
  - intros p. rewrite write_entry. apply (im_kern _ _ _ _ _ _ _ Hi).
  - intros w. rewrite (im_count _ _ _ _ _ _ _ Hi). by setoid_rewrite write_entry.
  - eapply same_out_trans; [apply (im_mem _ _ _ _ _ _ _ Hi)|]. eapply same_out_mono; [|apply write_out].
    intros w Hw%frames_ok. apply elem_of_list_to_set. tauto.
Qed.
End write.

(** ** [copyout] *)

Definition put (img : Z → Z) (va k : Z) (f : Z → Z) : Z → Z := λ x, if (va <=? x) && (x <? va + k) then f (x - va) else img x.

Lemma copied_mem_ok m T va buf k m' : mem_ok m → copied m T va buf k m' → mem_ok m'.
Proof.
  intros Hm [_ Hd Hf] b. destruct (decide (b ∈ (λ i, ka m T (va + i)) <$> seqZ 0 k)) as [(i & -> & Hi%elem_of_seqZ)%list_elem_of_fmap|Hn].
  - rewrite Hd by lia. apply Hm.
  - rewrite Hf; [apply Hm|]. intros i Hi ->. apply Hn, list_elem_of_fmap. exists i. split; [done|]. apply elem_of_seqZ. lia.
Qed.

Lemma image_put d np fl img s l T va k f m' : image d np fl img s l T → mem_ok m' → 0 ≤ va → va + k ≤ PGSIZE * np →
  (∀ i, 0 ≤ i < k → rd m' (ka (k_mem s) T (va + i)) = f i) →
  (∀ b, (∀ i, 0 ≤ i < k → b ≠ ka (k_mem s) T (va + i)) → rd m' b = rd (k_mem s) b) →
  image d np fl (put img va k f) (set_kmem m' s) l T.
Proof.
  intros Hi Hm Hva Hle Hd Hf. eapply image_write; [done| |done|].
  - intros b Hb. apply Hf. intros i Hlt. apply Hb. lia.
  - intros x Hx. unfold put. bdestruct_all; simpl.
    { replace x with (va + (x - va)) at 1 by lia. apply Hd. lia. }
    all: rewrite <- (im_byte _ _ _ _ _ _ _ Hi x Hx); apply Hf; intros i Hlt E%(ka_inj _ _ _ _ _ _ _ _ _ Hi); lia.
Qed.

Lemma image_mem_ok d np fl img s l T : image d np fl img s l T → mem_ok (k_mem s).
Proof. intros Hi. apply (vi_k _ _ _ _ _ (im_inv _ _ _ _ _ _ _ Hi)). Qed.

Lemma image_copied d np fl img s l T va buf k m' : image d np fl img s l T → 0 ≤ va → 0 ≤ k → va + k ≤ PGSIZE * np →
  copied (k_mem s) T va buf k m' → image d np fl (put img va k (λ i, rd (k_mem s) (buf + i))) (set_kmem m' s) l T.
Proof.
  intros Hi Hva Hk Hle Hc. pose proof (copied_mem_ok _ _ _ _ _ _ (image_mem_ok _ _ _ _ _ _ _ Hi) Hc) as Hm'.
  apply image_put; try done; apply Hc.
Qed.

(** An address outside the pages that were free. *)
Definition outside (b : Z) : Prop := ∀ p, p ∈ l0 → b < p ∨ p + PGSIZE ≤ b.

(** The page may be used in user mode, by its flags. *)
Lemma accessible_flags e : present e → accessible e = negb (Z.land (PTE_FLAGS e) PTE_U =? 0).
Proof.
  intros Hp. unfold accessible. apply Z.eqb_neq in Hp. rewrite Hp. simpl. do 2 f_equal. unfold PTE_FLAGS, u32.
  rewrite <- Z.land_assoc, <- (Z.land_ones _ 32), <- Z.land_assoc by lia. done.
Qed.

Lemma image_table d np fl img s l T q : image d np fl img s l T → 0 ≤ q < np → is_Some (T !! (q / NPTENTRIES)).
Proof.
  intros Hi Hq. destruct (im_page _ _ _ _ _ _ _ Hi q Hq) as [Hp _]. unfold entry in Hp.
  destruct (T !! (q / NPTENTRIES)); [by eexists|by destruct not_present_0].
Qed.

Lemma image_copyout d np fl img s l T va buf len (Q : Z → kst → Prop) : image d np fl img s l T →
  0 ≤ va → 0 ≤ len → va + len ≤ PGSIZE * np → (∀ i, 0 ≤ i < len → outside (buf + i)) →
  (∀ r k m', r = 0 ∧ k = len ∧ (∀ i, 0 ≤ i < len → Z.land (fl ((va + i) / PGSIZE)) PTE_U ≠ 0) ∨
       r = -1 ∧ 0 ≤ k < len ∧ Z.land (fl ((va + k) / PGSIZE)) PTE_U = 0 →
     image d np fl (put img va k (λ i, rd (k_mem s) (buf + i))) (set_kmem m' s) l T → Q r (set_kmem m' s)) →
  runs (copyout d va buf len) Q s.
Proof.
  intros Hi Hva Hlen Hle Hbuf HQ. pose proof (im_inv _ _ _ _ _ _ _ Hi) as Hv. pose proof (im_np _ _ _ _ _ _ _ Hi) as Hnp.
  assert (HG : PGSIZE = 4096) by done.
  assert (Hq : ∀ q, va / PGSIZE ≤ q < npg (va + len) → 0 ≤ q < np).
  { intros q [H1 H2%npg_lt]. pose proof (Z.div_pos va PGSIZE ltac:(lia) ltac:(lia)). lia. }
  assert (Hacc : ∀ q, 0 ≤ q < np → accessible (entry (k_mem s) T q) = negb (Z.land (fl q) PTE_U =? 0)).
  { intros q Hq'. destruct (im_page _ _ _ _ _ _ _ Hi q Hq') as (Hp & <- & _). by apply accessible_flags. }
  eapply (copyout_ok kend s d T va buf len); [apply Hv|apply Hv| | |done|].
  - split; [unfold KERNBASE; lia| | |].
    + intros q Hqr. left. by apply (image_table _ _ _ _ _ _ _ q Hi), Hq.
    + intros q Hqr%Hq _. destruct (image_frame _ _ _ _ _ _ _ q Hi Hqr) as (? & ? & _). done.
    + intros q q' Hqr%Hq Hqr'%Hq _ _. by apply (image_frame_inj _ _ _ _ _ _ _ _ _ Hi).
  - intros q b Hqr%Hq _ Hb. replace b with (buf + (b - buf)) by lia. apply Hbuf; [lia|]. by apply (image_frame _ _ _ _ _ _ _ q Hi).
  - intros r k m' Hc Hr. assert (0 ≤ k ≤ len) by (destruct Hr as [[_ ->]|(_ & ? & _)]; lia). apply (HQ r k m').
    + destruct Hr as [[-> ->]|(-> & Hk & Ha)]; [left; split_and!; [done..|]|right].
      { intros i Hik. pose proof (cp_user _ _ _ _ _ _ Hc i Hik) as Hu. rewrite Hacc in Hu; [|apply va_page; lia]. by apply negb_true_iff, Z.eqb_neq in Hu. }
      split_and!; [done|lia|lia|]. rewrite Hacc in Ha; [|apply va_page; lia].
      by apply negb_false_iff, Z.eqb_eq in Ha.
    + apply image_copied; [done|lia|lia|lia|done].
Qed.

(** ** [clearpteu] *)

Lemma clear_user e : Z.land (Z.land e (Z.lnot PTE_U)) PTE_P = Z.land e PTE_P ∧
  PTE_ADDR (u32 (Z.land e (Z.lnot PTE_U))) = PTE_ADDR (u32 e) ∧
  PTE_FLAGS (u32 (Z.land e (Z.lnot PTE_U))) = Z.land (PTE_FLAGS (u32 e)) (Z.lnot PTE_U).
Proof.
  unfold PTE_ADDR, PTE_FLAGS, u32. rewrite <- !(Z.land_ones _ 32) by lia. rewrite <- !Z.land_assoc. done.
Qed.

(** Entries whose flags changed, in the page [t] of the page tables. *)
Lemma image_reflag d np fl fl' img s l T t m' : image d np fl img s l T → vinv (set_kmem m' s) l d T → t ∈ own d T → same_out {[t]} (k_mem s) m' →
  (∀ x, 0 ≤ x < npages → present (entry m' T x) ↔ present (entry (k_mem s) T x)) →
  (∀ x, 0 ≤ x < npages → frame (entry m' T x) = frame (entry (k_mem s) T x)) →
  (∀ x, 0 ≤ x < np → PTE_FLAGS (entry m' T x) = fl' x) → (∀ x, 2 ^ 19 ≤ x < npages → entry m' T x = entry (k_mem s) T x) →
  image d np fl' img (set_kmem m' s) l T.
Proof.
  intros Hi Hv' Hto Hout Hpr Hfr Hfl Hkern. pose proof (im_inv _ _ _ _ _ _ _ Hi) as Hv. pose proof (im_np _ _ _ _ _ _ _ Hi) as Hnp. assert (HN : npages = 2 ^ 20) by done.
  split; cbn [k_mem set_kmem]; [done|done| | | | | | |].
  - pose proof (im_user _ _ _ _ _ _ _ Hi) as Hu. split; intros *; intros H1.
    + rewrite Hpr, Hfr by lia. by apply Hu.
    + intros H2. rewrite !Hpr, !Hfr by lia. by apply Hu.
  - intros x Hx. cbv zeta. rewrite Hpr, Hfr by lia. destruct (im_page _ _ _ _ _ _ _ Hi x Hx) as (P1 & P2 & P3). split_and!; auto.
  - intros va Hva. pose proof (va_page va np Hva) as Hx. rewrite <- (im_byte _ _ _ _ _ _ _ Hi va Hva). unfold ka. rewrite Hfr by lia.
    destruct (image_frame _ _ _ _ _ _ _ _ Hi Hx) as (F1 & F2 & _). apply Hout. destruct (va_split va) as [_ ?].
    apply (out_of kend _ (frame (entry (k_mem s) T (va / PGSIZE)))); [done| | |lia].
    + intros p ->%elem_of_singleton. eapply own_page; [apply Hv|done].
    + intros E%elem_of_singleton. by rewrite E in F2.
  - intros p Hp. rewrite Hpr by lia. by apply (im_none _ _ _ _ _ _ _ Hi).
  - intros p Hp. rewrite Hkern by lia. by apply (im_kern _ _ _ _ _ _ _ Hi).
  - intros w. rewrite (im_count _ _ _ _ _ _ _ Hi). split; intros [?|[?|(x & Hx & ->)]]; [tauto|tauto|..|tauto|tauto|];
      right; right; exists x; (split; [done|]); rewrite Hfr by lia; done.
  - eapply same_out_trans; [apply (im_mem _ _ _ _ _ _ _ Hi)|]. eapply same_out_mono; [|exact Hout].
    intros w ->%elem_of_singleton. apply elem_of_list_to_set, (im_count _ _ _ _ _ _ _ Hi). tauto.
Qed.

Lemma image_clear d np fl img s l T q (Q : unit → kst → Prop) : image d np fl img s l T → 0 ≤ q < np →
  (∀ s', image d np (λ x, if x =? q then Z.land (fl q) (Z.lnot PTE_U) else fl x) img s' l T → Q tt s') →
  runs (clearpteu d (PGSIZE * q)) Q s.
Proof.
  intros Hi Hq HQ. pose proof (im_inv _ _ _ _ _ _ _ Hi) as Hv. pose proof (im_np _ _ _ _ _ _ _ Hi) as Hnp. assert (HN : npages = 2 ^ 20) by done.
  destruct (image_table _ _ _ _ _ _ _ q Hi Hq) as [t Ht]. unfold clearpteu, mem_ld, mem_mod. kstep.
  eapply (walk_ok kend); [apply Hv|]. rewrite pgn_mul by lia. destruct (entry_at_pos kend _ _ _ q t (vi_pt _ _ _ _ _ Hv) Ht ltac:(lia)) as [Ea Hpos].
  kstep. kstep; [apply negb_true_iff, Z.eqb_neq; lia|]. kstep. kstep. kstep. rewrite Ea.
  replace (ld32 (k_mem s) (t + 4 * (q mod NPTENTRIES))) with (entry (k_mem s) T q) by (unfold entry; by rewrite Ht).
  set (e' := Z.land _ _). destruct (store_ok kend s l d q e' t T Hv ltac:(lia) Ht) as [Hv' He'].
  set (m' := st32 _ _ _) in *. apply HQ.
  assert (Hent : ∀ x, 0 ≤ x < npages → entry m' T x = if decide (x = q) then u32 e' else entry (k_mem s) T x).
  { intros x Hx. exact (store_entry kend s l d q e' t T Hv ltac:(lia) Ht x Hx). }
  destruct (clear_user (entry (k_mem s) T q)) as (C1 & C2 & C3). fold e' in C1, C2, C3.
  assert (Eu : u32 (entry (k_mem s) T q) = entry (k_mem s) T q).
  { apply u32_small. unfold entry. rewrite Ht. apply ld32_range, Hv. }
  rewrite Eu in C2, C3.
  assert (Hpr : ∀ x, 0 ≤ x < npages → present (entry m' T x) ↔ present (entry (k_mem s) T x)).
  { intros x Hx. rewrite Hent by done. case_decide as E; [|done]. subst x. unfold present.
    replace (Z.land (u32 e') PTE_P) with (Z.land e' PTE_P); [by rewrite C1|]. unfold u32. by rewrite <- (Z.land_ones _ 32), <- Z.land_assoc by lia. }
  assert (Hfr : ∀ x, 0 ≤ x < npages → frame (entry m' T x) = frame (entry (k_mem s) T x)).
  { intros x Hx. rewrite Hent by done. case_decide as E; [|done]. subst x. unfold frame. by rewrite C2. }
  apply (image_reflag _ _ fl _ _ _ _ _ t); [done|done|apply elem_own; eauto|apply same_out_st32, (pdi_range q); lia|done|done| |].
  - intros x Hx. destruct (im_page _ _ _ _ _ _ _ Hi x Hx) as (_ & P2 & _). rewrite Hent by lia.
    destruct (Z.eqb_spec x q) as [-> |Hne]; [by rewrite decide_True, C3, P2|by rewrite decide_False].
  - intros x Hx. by rewrite Hent, decide_False by lia.
Qed.

(** ** [freevm] *)

Lemma image_freevm d np fl img s l T (Q : unit → kst → Prop) : image d np fl img s l T →
  (∀ s' l', kinv kend s' l' → (∀ w, w ∈ l' ↔ w ∈ l0) → same_out (list_to_set l0) m0 (k_mem s') → Q tt s') →
  runs (freevm kend d) Q s.
Proof.
  intros Hi HQ. pose proof (im_np _ _ _ _ _ _ _ Hi). eapply (freevm_ok kend Hkend); [apply Hi|apply Hi|]. intros s' l' Hk Hl Ho.
  assert (El : ∀ w, w ∈ l' ↔ w ∈ l0).
  { intros w. rewrite Hl, (im_count _ _ _ _ _ _ _ Hi). split; intros [?|[?|(q & Hq & Hw)]]; [tauto|tauto| |tauto|tauto|]; right; right; exists q.
    - destruct Hw as [Hpr ->]. destruct (decide (q < np)); [split; [lia|done]|]. by destruct (im_none _ _ _ _ _ _ _ Hi q ltac:(lia)).
    - split_and!; [lia|lia|by apply (im_page _ _ _ _ _ _ _ Hi)|done]. }
  apply (HQ s' l'); [done|done|]. eapply same_out_trans; [apply (im_mem _ _ _ _ _ _ _ Hi)|]. eapply same_out_mono; [|exact Ho].
  intros w. rewrite !elem_of_list_to_set. apply El.
Qed.

(** ** Sizes *)

(** The pages that are not in the image any more. *)
Lemma image_length d np fl img s l T : image d np fl img s l T → Z.of_nat (length l0) ≤ Z.of_nat (length l) + 1026 + np.
Proof.
  intros Hi. pose proof (im_inv _ _ _ _ _ _ _ Hi) as Hv. pose proof (im_np _ _ _ _ _ _ _ Hi).
  assert (Hsub : l0 ⊆+ l ++ filter (λ w, w ∉ l) l0).
  { apply NoDup_submseteq; [done|]. intros w Hw. rewrite elem_of_app, list_elem_of_filter. destruct (decide (w ∈ l)); tauto. }
  apply submseteq_length in Hsub. rewrite length_app in Hsub.
  assert (Z.of_nat (length (filter (λ w, w ∉ l) l0)) ≤ 1026 + (np - 0)); [|lia].
  apply (few_pages kend (k_mem s) d T d (λ q, frame (entry (k_mem s) T q)) 0 np); [apply Hv|by apply NoDup_filter|lia|].
  intros w [Hn Hw]%list_elem_of_filter. apply (im_count _ _ _ _ _ _ _ Hi) in Hw. tauto.
Qed.

(** Growing the image to [newsz] bytes. *)
Definition grown (np : Z) (img : Z → Z) : Z → Z := λ va, if va <? PGSIZE * np then img va else 0.

Lemma image_allocuvm d fl img s l T oldsz newsz (Q : Z → kst → Prop) : image d (npg oldsz) fl img s l T → 0 ≤ oldsz ≤ newsz → newsz < KERNBASE →
  (∀ s' l' T', image d (npg oldsz) fl img s' l' T' → Z.of_nat (length l0) ≤ 2052 + npg newsz → Q 0 s') →
  (∀ s' l' T', image d (npg newsz) (λ q, if q <? npg oldsz then fl q else 7) (grown (npg oldsz) img) s' l' T' → Q newsz s') →
  runs (allocuvm kend d oldsz newsz) Q s.
Proof.
  intros Hi Ho Hn Hbad Hgood. pose proof (npg_mono oldsz newsz ltac:(lia)). pose proof (npg_range newsz ltac:(lia)).
  eapply (allocuvm_ok kend Hkend); [apply Hi|done|done| | |].
  - intros q Hq. apply (im_none _ _ _ _ _ _ _ Hi). lia.
  - intros s' l' T' Hr Hl. eapply Hbad; [eapply image_restored; [exact Hi| |exact Hr]; lia|].
    pose proof (image_length _ _ _ _ _ _ _ Hi). lia.
  - intros s' l' T' Ha. eapply Hgood. eapply image_alloc; [exact Hi|lia|exact Ha].
Qed.

(** ** [loaduvm] *)

Lemma rd_st_bytes b : ∀ m a x, rd (st_bytes m a b) x = if (a <=? x) && (x <? a + Z.of_nat (length b)) then u8 (get8 b (x - a)) else rd m x.
Proof.
  induction b as [|c b IH]; intros m a x; cbn [st_bytes length].
  - bdestruct_all; simpl; (done || lia).
  - rewrite IH, rd_wr. destruct (decide (x = a)) as [-> |Hne].
    + rewrite Z.eqb_refl, Z.sub_diag. bdestruct_all; simpl; (done || lia).
    + replace (a =? x) with false by (symmetry; apply Z.eqb_neq; lia).
      destruct (decide (a ≤ x)); [|bdestruct_all; simpl; (done || lia)].
      assert (E : get8 (c :: b) (x - a) = get8 b (x - (a + 1))).
      { unfold get8. replace (Z.to_nat (x - a)) with (S (Z.to_nat (x - (a + 1)))) by lia. done. }
      rewrite E. bdestruct_all; simpl; (done || lia).
Qed.

Lemma image_st_bytes d np fl img s l T q b : image d np fl img s l T → 0 ≤ q < np → Z.of_nat (length b) ≤ PGSIZE → Forall (λ x, 0 ≤ x < 2 ^ 8) b →
  image d np fl (put img (PGSIZE * q) (Z.of_nat (length b)) (get8 b)) (set_kmem (st_bytes (k_mem s) (frame (entry (k_mem s) T q)) b) s) l T.
Proof.
  intros Hi Hq Hb Hby. assert (HG : PGSIZE = 4096) by done. assert (Hka : ∀ i, 0 ≤ i < PGSIZE → ka (k_mem s) T (PGSIZE * q + i) = frame (entry (k_mem s) T q) + i).
  { intros i Hir. by apply ka_page. }
  assert (Hb8 : ∀ i, 0 ≤ i < Z.of_nat (length b) → u8 (get8 b i) = get8 b i).
  { intros i Hir. apply Z.mod_small. unfold get8. destruct (lookup_lt_is_Some_2 b (Z.to_nat i)) as [y Hy]; [lia|]. rewrite Hy. by apply (Forall_lookup_1 _ _ _ _ Hby Hy). }
  apply image_put; [done|apply mem_ok_st_bytes; by eapply image_mem_ok|lia|lia| |]; set (v := frame _) in *.
  - intros i Hir. rewrite Hka, rd_st_bytes by lia. replace (v + i - v) with i by lia. rewrite <- (Hb8 i Hir) at 2. bdestruct_all; simpl; (done || lia).
  - intros x Hx. rewrite rd_st_bytes. bdestruct_all; simpl; try done. exfalso. apply (Hx (x - v)); [lia|]. rewrite Hka by lia. lia.
Qed.

(** What [readi] gives of a file with the bytes [data]. *)
Definition read_spec (data : list Z) (off n : Z) : Z * list Z :=
  if (Z.of_nat (length data) <? off) || (2 ^ 32 <=? off + n) then (-1, [])
  else (Z.of_nat (length (slice data off n)), slice data off n).

Lemma slice_length data off n : 0 ≤ off ≤ Z.of_nat (length data) → 0 ≤ n → Z.of_nat (length (slice data off n)) = Z.min n (Z.of_nat (length data) - off).
Proof. intros. unfold slice. rewrite length_take, length_drop. lia. Qed.

(** A page, then the rest. *)
Lemma put_pages img a b k k' n (f g h : Z → Z) va : b = a + PGSIZE → k' = k - PGSIZE → n = Z.min k PGSIZE →
  (∀ x, 0 ≤ x < n → f x = g x) → (∀ x, h x = g (PGSIZE + x)) → put (put img a n f) b k' h va = put img a k g va.
Proof.
  intros -> -> Hn Hf Hh. unfold put. assert (HG : PGSIZE = 4096) by done. bdestruct_all; simpl; try lia; try done.
  - rewrite Hh. f_equal. lia.
  - apply Hf. lia.
Qed.

Section load.
Context {F : Type} (readi : Z → Z → K F (Z * list Z)) (open : F → Prop) (data : list Z).
Hypothesis Hread : ∀ f off n (Q : Z * list Z → F → Prop), open f → 0 ≤ off < 2 ^ 32 → 0 ≤ n < 2 ^ 31 →
  (∀ f', open f' → Q (read_spec data off n) f') → runs (readi off n) Q f.
Hypothesis Hbytes : Forall (λ x, 0 ≤ x < 2 ^ 8) data.
Hypothesis Hlen : Z.of_nat (length data) < 2 ^ 31.

Lemma runs_on_mem {A} (m : K kst A) (Q : A → kst * F → Prop) s f : runs m (λ a s', Q a (s', f)) s → runs (on_mem m) Q (s, f).
Proof. intros (a & s' & E & HQ). exists a, (s', f). unfold on_mem. simpl. by rewrite E. Qed.

Lemma runs_on_fs {A} (m : K F A) (Q : A → kst * F → Prop) s f : runs m (λ a f', Q a (s, f')) f → runs (on_fs m) Q (s, f).
Proof. intros (a & f' & E & HQ). exists a, (s, f'). unfold on_fs. simpl. by rewrite E. Qed.

Lemma loaduvm_loop_image fuel : ∀ d np fl img s l T f q off sz j (Q : Z → kst * F → Prop),
  image d np fl img s l T → open f → 0 ≤ q → 0 ≤ j → PGSIZE * q + sz ≤ PGSIZE * np → 0 ≤ sz →
  0 ≤ off → off + PGSIZE * j < 2 ^ 32 → PGSIZE * j < sz + PGSIZE → (Z.to_nat (npg sz - j) < fuel)%nat →
  (∀ s' f' img', image d np fl img' s' l T → open f' → Z.of_nat (length data) < off + sz → Q (-1) (s', f')) →
  (∀ s' f', image d np fl (put img (PGSIZE * (q + j)) (sz - PGSIZE * j) (λ x, get8 data (off + PGSIZE * j + x))) s' l T → open f' →
     (PGSIZE * j < sz → off + sz ≤ Z.of_nat (length data)) → Q 0 (s', f')) →
  runs (loaduvm_loop readi fuel d (PGSIZE * q) off sz (PGSIZE * j)) Q (s, f).
Proof.
  induction fuel as [|fuel IH]; intros d np fl img s l T f q off sz j Q Hi Hf Hq Hj Hle Hsz Hoff Hoi Hjs Hfuel Hbad Hgood; [lia|].
  assert (HG : PGSIZE = 4096) by done. pose proof (im_np _ _ _ _ _ _ _ Hi) as Hnp. pose proof (im_inv _ _ _ _ _ _ _ Hi) as Hv.
  assert (HN : npages = 2 ^ 20) by done. cbn [loaduvm_loop]. destruct (Z.ltb_spec (PGSIZE * j) sz) as [Hlt|Hge].
  2:{ kstep. apply Hgood; [|done|lia]. eapply image_ext; [exact Hi|]. intros va Hva. unfold put. bdestruct_all; simpl; (done || lia). }
  assert (Hqj : 0 ≤ q + j < np) by lia. destruct (image_table _ _ _ _ _ _ _ (q + j) Hi Hqj) as [t Ht].
  destruct (entry_at_pos kend _ _ _ (q + j) t (vi_pt _ _ _ _ _ Hv) Ht ltac:(lia)) as [Ea Hpos].
  kstep. apply runs_on_mem. eapply (walk_ok kend); [apply Hv|]. rewrite (u32_small (PGSIZE * q + PGSIZE * j)) by lia.
  replace (PGSIZE * q + PGSIZE * j) with (PGSIZE * (q + j)) by lia. rewrite pgn_mul by lia.
  kstep. kstep; [apply negb_true_iff, Z.eqb_neq; lia|]. kstep. apply runs_on_mem. unfold mem_ld. kstep. rewrite Ea.
  replace (ld32 (k_mem s) (t + 4 * ((q + j) mod NPTENTRIES))) with (entry (k_mem s) T (q + j)) by (unfold entry; by rewrite Ht).
  replace (if sz - PGSIZE * j <? PGSIZE then sz - PGSIZE * j else PGSIZE) with (Z.min (sz - PGSIZE * j) PGSIZE) by (bdestruct_all; lia).
  set (n := Z.min _ _). rewrite (u32_small (off + _)) by lia. kstep. apply runs_on_fs. eapply Hread; [done|lia|lia|]. intros f' Hf'.
  change (P2V (PTE_ADDR (entry (k_mem s) T (q + j)))) with (frame (entry (k_mem s) T (q + j))).
  assert (Hslice : ∀ b, Forall (λ x, 0 ≤ x < 2 ^ 8) b → Z.of_nat (length b) ≤ PGSIZE →
    image d np fl (put img (PGSIZE * (q + j)) (Z.of_nat (length b)) (get8 b)) (set_kmem (st_bytes (k_mem s) (frame (entry (k_mem s) T (q + j))) b) s) l T).
  { intros b Hb Hlb. by apply image_st_bytes. }
  unfold read_spec. destruct (_ || _) eqn:Eb.
  - cbv beta iota. kstep. apply runs_on_mem. unfold mem_mod. kstep. replace (negb (-1 =? n)) with true by (symmetry; apply negb_true_iff, Z.eqb_neq; lia). kstep.
    eapply Hbad; [apply (Hslice []); [constructor|simpl; lia]|done|]. apply orb_true_iff in Eb as [?%Z.ltb_lt|?%Z.leb_le]; lia.
  - apply orb_false_iff in Eb as [Eb1%Z.ltb_ge Eb2%Z.leb_gt]. pose proof (slice_length data (off + PGSIZE * j) n ltac:(lia) ltac:(lia)) as Hsl.
    set (b := slice data _ n) in *. assert (Hby : Forall (λ x, 0 ≤ x < 2 ^ 8) b) by (by apply Forall_take, Forall_drop). specialize (Hslice b Hby ltac:(lia)).
    cbv beta iota. kstep. apply runs_on_mem. unfold mem_mod. kstep. destruct (Z.eqb_spec (Z.of_nat (length b)) n) as [En|Hne]; cbn [negb].
    + rewrite u32_small by lia. replace (PGSIZE * j + PGSIZE) with (PGSIZE * (j + 1)) by lia.
      eapply (IH d np fl _ _ l T f' q off sz (j + 1)); [exact Hslice|done|lia|lia|lia|lia|lia|lia|lia| |done|].
      { pose proof (proj1 (npg_lt j sz) Hlt). lia. }
      intros s2 f2 H2 Hf2 Hl2. apply Hgood; [|done|].
      * eapply image_ext; [exact H2|]. intros va Hva. rewrite En. apply put_pages; [lia|lia|lia| |].
        -- intros x Hx. apply get8_slice; lia.
        -- intros x. f_equal. lia.
      * intros _. destruct (decide (PGSIZE * (j + 1) < sz)); [auto|lia].
    + kstep. eapply Hbad; [exact Hslice|done|lia].
Qed.

Lemma image_loaduvm d np fl img s l T f vaddr off sz (Q : Z → kst * F → Prop) : image d np fl img s l T → open f →
  0 ≤ vaddr → vaddr mod PGSIZE = 0 → 0 ≤ sz → vaddr + sz ≤ PGSIZE * np → 0 ≤ off < 2 ^ 32 →
  (∀ s' f' img', image d np fl img' s' l T → open f' → 0 < sz ∧ Z.of_nat (length data) < off + sz → Q (-1) (s', f')) →
  (∀ s' f', image d np fl (put img vaddr sz (λ x, get8 data (off + x))) s' l T → open f' →
     sz = 0 ∨ off + sz ≤ Z.of_nat (length data) → Q 0 (s', f')) →
  runs (loaduvm readi d vaddr off sz) Q (s, f).
Proof.
  intros Hi Hf Hva Hmod Hsz Hle Hoff Hbad Hgood. assert (HG : PGSIZE = 4096) by done. pose proof (im_np _ _ _ _ _ _ _ Hi).
  pose proof (Z.div_mod vaddr PGSIZE ltac:(lia)) as Hd. rewrite Hmod, Z.add_0_r in Hd. set (q := vaddr / PGSIZE) in *.
  unfold loaduvm. kstep. kstep; [by apply Z.eqb_eq|]. rewrite Hd. destruct (decide (sz = 0)) as [-> |Hne].
  { cbn [page_fuel loaduvm_loop]. change (0 <? 0) with false. cbv iota. kstep. apply Hgood; [|done|by left].
    eapply image_ext; [exact Hi|]. intros va _. unfold put. bdestruct_all; simpl; (done || lia). }
  change (runs (loaduvm_loop readi (page_fuel sz) d (PGSIZE * q) off sz (PGSIZE * 0)) Q (s, f)).
  eapply (loaduvm_loop_image _ d np fl img s l T f q off sz 0); try done; try lia.
  - pose proof (npg_fuel sz Hsz). lia.
  - intros s' f' img' Hi' Hf' Hl. eapply Hbad; [done|done|lia].
  - intros s' f' Hi' Hf' Hl. apply Hgood; [|done|right; apply Hl; lia]. eapply image_ext; [exact Hi'|]. intros va _. rewrite !Z.add_0_r, Z.sub_0_r, <- Hd. done.
Qed.

End load.

(** ** The address space alone *)

Record space (d np : Z) (fl img : Z → Z) (s : kst) (l : list Z) (T : gmap Z Z) : Prop := {
  sp_inv : vinv s l d T;
  sp_user : user_ok (k_mem s) l d T 0 (2 ^ 19);
  sp_page q : 0 ≤ q < np → present (entry (k_mem s) T q) ∧ PTE_FLAGS (entry (k_mem s) T q) = fl q;
  sp_byte va : 0 ≤ va < PGSIZE * np → rd (k_mem s) (ka (k_mem s) T va) = img va;
  sp_none p : np ≤ p < 2 ^ 19 → ¬ present (entry (k_mem s) T p);
  sp_kern p : 2 ^ 19 ≤ p < npages → entry (k_mem s) T p = default 0 (kentry (kmap kdata) p)
}.

(** It is the same in a state whose changes are in other pages [P]. *)
Lemma space_after d np fl img s l T s' l' (P : gset Z) : image d np fl img s l T → kinv kend s' l' → same_out P (k_mem s) (k_mem s') →
  (∀ w, w ∈ P → page_ok kend w ∧ w ∉ own d T ∧ ∀ q, 0 ≤ q < np → w ≠ frame (entry (k_mem s) T q)) →
  (∀ w, w ∈ l' → w ∉ own d T ∧ ∀ q, 0 ≤ q < np → w ≠ frame (entry (k_mem s) T q)) → space d np fl img s' l' T ∧
  ∀ q, 0 ≤ q < np → entry (k_mem s') T q = entry (k_mem s) T q.
Proof.
  intros Hi Hk Hm HP Hl. pose proof (im_inv _ _ _ _ _ _ _ Hi) as Hv. pose proof (im_np _ _ _ _ _ _ _ Hi) as Hnp.
  assert (He : ∀ q, entry (k_mem s') T q = entry (k_mem s) T q).
  { intros q. eapply (entry_out kend P); [apply Hv|done|]. intros w (? & ? & _)%HP. done. }
  split; [|by intros q _]. split.
  - split; [done| |intros w Hw; by apply Hl]. eapply (pt_out kend P); [apply Hv|done|]. intros w (? & ? & _)%HP. done.
  - pose proof (im_user _ _ _ _ _ _ _ Hi) as Hu. split; intros *; rewrite !He; [|apply Hu].
    intros Hp Hpr. destruct (us_page _ _ _ _ _ _ _ Hu p Hp Hpr) as (U1 & U2 & _). split_and!; [done|done|].
    intros Hin. destruct (decide (p < np)); [by apply (proj2 (Hl _ Hin) p); [lia|]|]. by destruct (im_none _ _ _ _ _ _ _ Hi p ltac:(lia)).
  - intros q Hq. rewrite He. destruct (im_page _ _ _ _ _ _ _ Hi q Hq) as (? & ? & _). done.
  - intros va Hva. pose proof (va_page va np Hva) as Hq. rewrite <- (im_byte _ _ _ _ _ _ _ Hi va Hva). unfold ka. rewrite He.
    destruct (image_frame _ _ _ _ _ _ _ _ Hi Hq) as (F1 & _). destruct (va_split va) as [_ ?]. apply Hm.
    apply (out_of kend _ (frame (entry (k_mem s) T (va / PGSIZE)))); [done|by intros p (? & _)%HP| |lia].
    intros Hin. by apply (proj2 (proj2 (HP _ Hin)) _ Hq).
  - intros p. rewrite He. apply (im_none _ _ _ _ _ _ _ Hi).
  - intros p. rewrite He. apply (im_kern _ _ _ _ _ _ _ Hi).
Qed.

End image.

(** ** Stores elsewhere *)

(** A store in a page [w] that was not free. *)
Lemma image_store kend kdata m0 l0 d np fl img s l T w a v : (∀ p, p ∈ l0 → page_ok kend p) → image kend kdata m0 l0 d np fl img s l T →
  page_ok kend w → w ∉ l0 → w ≤ a → a + 4 ≤ w + PGSIZE →
  image kend kdata (st32 m0 a v) l0 d np fl img (set_kmem (st32 (k_mem s) a v) s) l T.
Proof.
  intros Hfree Hi Hw Hwl Ha1 Ha2. pose proof (im_inv _ _ _ _ _ _ _ _ _ _ _ Hi) as Hv. pose proof (im_np _ _ _ _ _ _ _ _ _ _ _ Hi) as Hnp.
  assert (Hs : ∀ m, same_out {[w]} m (st32 m a v)).
  { intros m b Hb. specialize (Hb w ltac:(set_solver)). rewrite rd_st32. bdestruct_all; simpl; (done || lia). }
  assert (Hown : w ∉ own d T) by (intros Hin; apply Hwl, (im_count _ _ _ _ _ _ _ _ _ _ _ Hi); tauto).
  assert (Hl : w ∉ l) by (intros Hin; apply Hwl, (im_count _ _ _ _ _ _ _ _ _ _ _ Hi); tauto).
  assert (He : ∀ q, entry (st32 (k_mem s) a v) T q = entry (k_mem s) T q).
  { intros q. eapply (entry_out kend {[w]}); [apply Hv|apply Hs|]. by intros p ->%elem_of_singleton. }
  split; cbn [k_mem set_kmem]; [done| | | | | | | |].
  - split; cbn [k_mem set_kmem]; [| |apply Hv].
    + eapply (kinv_out kend {[w]}); [apply Hv|apply mem_ok_st32, (vi_k _ _ _ _ _ Hv)|apply Hs|by intros p ->%elem_of_singleton].
    + eapply (pt_out kend {[w]}); [apply Hv|apply Hs|by intros p ->%elem_of_singleton].
  - split; intros *; rewrite !He; apply (im_user _ _ _ _ _ _ _ _ _ _ _ Hi).
  - intros q. rewrite He. apply (im_page _ _ _ _ _ _ _ _ _ _ _ Hi).
  - intros va Hva. pose proof (va_page va np Hva) as Hq. rewrite <- (im_byte _ _ _ _ _ _ _ _ _ _ _ Hi va Hva). unfold ka. rewrite He.
    destruct (image_frame _ _ _ _ _ _ _ _ _ _ _ _ Hi Hq) as (F1 & _ & _ & F2). destruct (va_split va) as [_ ?]. apply Hs.
    apply (out_of kend _ (frame (entry (k_mem s) T (va / PGSIZE)))); [done|by intros p ->%elem_of_singleton| |lia].
    intros E%elem_of_singleton. by rewrite E in F2.
  - intros p. rewrite He. apply (im_none _ _ _ _ _ _ _ _ _ _ _ Hi).
  - intros p. rewrite He. apply (im_kern _ _ _ _ _ _ _ _ _ _ _ Hi).
  - intros p. rewrite (im_count _ _ _ _ _ _ _ _ _ _ _ Hi). by setoid_rewrite He.
  - intros b Hb. pose proof (im_mem _ _ _ _ _ _ _ _ _ _ _ Hi b Hb) as E. rewrite !rd_st32. by rewrite E.
Qed.
