(* ===== verification/ExecProps.v ===== *)
(** * Running a program: [exec] as a whole

    [exec] of [xv6/exec.c], over the address space of [ExecImage] and over what the
    file system promises: the process gets the program of the file with its
    arguments on the stack, or is left as it was. *)

From S2P Require Import Prelude Str Mmu Bytes Spinlock Kalloc Vm VmSpec VmUser VmFork VmCopy VmProps Proc ProcFork Exec ExecImage.

(** ** What [exec] relies on in the file system

    [fs_idle], [fs_op] and [fs_locked] say where an operation is: outside of any,
    between [begin_op] and [end_op], and with an inode locked besides; [fs_file]
    gives the contents of the file of a path. *)
Class ExecFsSpec (F I : Type) `{!ExecFs F I} := {
  fs_file : list Z → option (list Z);
  fs_idle : F → Prop;
  fs_op : F → Prop;
  fs_named : F → I → list Z → Prop;
  fs_locked : I → list Z → F → Prop;
  xf_begin_ok f (Q : unit → F → Prop) : fs_idle f → (∀ f', fs_op f' → Q tt f') → runs xf_begin_op Q f;
  xf_end_ok f (Q : unit → F → Prop) : fs_op f → (∀ f', fs_idle f' → Q tt f') → runs xf_end_op Q f;
  xf_namei_ok f path (Q : option I → F → Prop) : fs_op f →
    (∀ f', fs_op f' → fs_file path = None → Q None f') →
    (∀ f' ip data, fs_op f' → fs_named f' ip data → fs_file path = Some data → Q (Some ip) f') → runs (xf_namei path) Q f;
  xf_ilock_ok f ip data (Q : unit → F → Prop) : fs_op f → fs_named f ip data → (∀ f', fs_locked ip data f' → Q tt f') → runs (xf_ilock ip) Q f;
  xf_readi_ok f ip data off n (Q : Z * list Z → F → Prop) : fs_locked ip data f → 0 ≤ off < 2 ^ 32 → 0 ≤ n < 2 ^ 31 →
    (∀ f', fs_locked ip data f' → Q (read_spec data off n) f') → runs (xf_readi ip off n) Q f;
  xf_iunlockput_ok f ip data (Q : unit → F → Prop) : fs_locked ip data f → (∀ f', fs_op f' → Q tt f') → runs (xf_iunlockput ip) Q f;
  fs_bytes path data : fs_file path = Some data → Forall (λ x, 0 ≤ x < 2 ^ 8) data ∧ Z.of_nat (length data) < 2 ^ 31
}.

(** ** What a file means as a program *)

(** [n] bytes of the file, when they are all there. *)
Definition file_part (data : list Z) (off n : Z) : option (list Z) :=
  if off + n <=? Z.of_nat (length data) then Some (slice data off n) else None.

(** A segment can be loaded after [sz] bytes. *)
Definition segment_ok (data : list Z) (sz : Z) (ph : list Z) : Prop :=
  ph_filesz ph ≤ ph_memsz ph ∧ ph_vaddr ph + ph_memsz ph < KERNBASE ∧ 0 < Z.max sz (ph_vaddr ph + ph_memsz ph) ∧
  ph_vaddr ph mod PGSIZE = 0 ∧ (ph_filesz ph = 0 ∨ ph_off ph + ph_filesz ph ≤ Z.of_nat (length data)).
#[global] Instance segment_ok_dec data sz ph : Decision (segment_ok data sz ph).
Proof. unfold segment_ok. apply _. Defined.

(** The segments from the header at [off] on: the size of the image and its bytes. *)
Fixpoint segments (data : list Z) (off sz : Z) (img : Z → Z) (k : nat) : option (Z * (Z → Z)) :=
  match k with
  | O => Some (sz, img)
  | S k' =>
      ph ← file_part data off sizeof_proghdr;
      let next := u32 (off + sizeof_proghdr) in
      if negb (ph_type ph =? ELF_PROG_LOAD) then segments data next sz img k'
      else
        if decide (segment_ok data sz ph)
        then segments data next (Z.max sz (ph_vaddr ph + ph_memsz ph)) (put img (ph_vaddr ph) (ph_filesz ph) (λ i, get8 data (ph_off ph + i))) k'
        else None
  end.

(** The entry point, the size and the bytes of a program. *)
Definition program (data : list Z) : option (Z * Z * (Z → Z)) :=
  elf ← file_part data 0 sizeof_elfhdr;
  if elf_magic elf =? ELF_MAGIC then
    '(sz, img) ← segments data (elf_phoff elf) 0 (λ _, 0) (Z.to_nat (elf_phnum elf));
    Some (elf_entry elf, sz, img)
  else None.

(** ** What the stack of a new program looks like *)

Definition align4 (x : Z) : Z := x - x mod 4.

(** The places of the argument strings, from [sp] down. *)
Fixpoint places (sp : Z) (strs : list (list Z)) : list Z :=
  match strs with
  | [] => []
  | str :: strs' => let sp := align4 (sp - (Z.of_nat (length str) + 1)) in sp :: places sp strs'
  end.

Definition lowest (sp : Z) (strs : list (list Z)) : Z := default sp (last (places sp strs)).

(** The stack pointer below the strings and the words for [main]. *)
Definition stack_ptr (top : Z) (strs : list (list Z)) : Z := lowest top strs - 4 * (Z.of_nat (length strs) + 4).

(** A word of an image. *)
Definition word_at (img : Z → Z) (va : Z) : Z := img va + 2 ^ 8 * img (va + 1) + 2 ^ 16 * img (va + 2) + 2 ^ 24 * img (va + 3).

(** A string of an image, with its end. *)
Definition string_in (img : Z → Z) (va : Z) (str : list Z) : Prop :=
  ∀ i, 0 ≤ i ≤ Z.of_nat (length str) → img (va + i) = get8 str i.

(** What [main] finds: a return address, [argc], and [argv] with its strings. *)
Record stack_ok (img : Z → Z) (top : Z) (strs : list (list Z)) : Prop := {
  so_ret : word_at img (stack_ptr top strs) = 0xffffffff;
  so_argc : word_at img (stack_ptr top strs + 4) = Z.of_nat (length strs);
  so_argv : word_at img (stack_ptr top strs + 8) = stack_ptr top strs + 12;
  so_word i p : places top strs !! i = Some p → word_at img (stack_ptr top strs + 12 + 4 * Z.of_nat i) = p;
  so_null : word_at img (stack_ptr top strs + 12 + 4 * Z.of_nat (length strs)) = 0;
  so_string i p str : places top strs !! i = Some p → strs !! i = Some str → string_in img p str
}.

Lemma program_parts data e sz img : program data = Some (e, sz, img) →
  ∃ elf, file_part data 0 sizeof_elfhdr = Some elf ∧ segments data (elf_phoff elf) 0 (λ _, 0) (Z.to_nat (elf_phnum elf)) = Some (sz, img).
Proof.
  unfold program. destruct (file_part data 0 sizeof_elfhdr) as [elf|]; [|done]. cbn [mbind option_bind]. case_match; [|done].
  destruct (segments _ _ _ _ _) as [[sz' img']|] eqn:Es; [|done]. cbn [mbind option_bind]. intros [= _ <- <-]. exists elf. by rewrite Es.
Qed.

Section exec.
Context {F I : Type} `{!ExecFs F I, !ExecFsSpec F I}.
Context (kend kdata ustack : Z) (Hkend : KERNBASE < kend).
Context (Hdata : KERNLINK < kdata < KERNBASE + PHYSTOP) (Halign : kdata mod PGSIZE = 0).
Context (l0 : list Z) (Hfree : ∀ v, v ∈ l0 → page_ok kend v) (Hnodup : NoDup l0).

Notation image := (image kend kdata).

(** ** Code of several layers *)

Lemma runs_kf {A} (m : K (kst * F) A) (Q : A → pst F → Prop) t i n fi lk k f :
  runs m (λ a x, Q a (Pst t i n fi lk x.1 x.2)) (k, f) → runs (on_kf m) Q (Pst t i n fi lk k f).
Proof. intros (a & [k' f'] & E & HQ). eexists _, _. split; [|exact HQ]. unfold on_kf. simpl. by rewrite E. Qed.

(** ** The segments *)

Definition user7 : Z → Z := λ _, 7.

(** Nothing but zeros from page [np] on. *)
Definition ends_at (np : Z) (img : Z → Z) : Prop := ∀ va, PGSIZE * np ≤ va → img va = 0.

Lemma read_part data off n : 0 ≤ off < 2 ^ 32 → 0 < n < 2 ^ 31 → Z.of_nat (length data) < 2 ^ 31 →
  match file_part data off n with
  | Some b => read_spec data off n = (n, b)
  | None => (read_spec data off n).1 ≠ n
  end.
Proof.
  intros Hoff Hn Hlen. unfold file_part, read_spec. destruct (Z.leb_spec (off + n) (Z.of_nat (length data))).
  - replace ((Z.of_nat (length data) <? off) || (2 ^ 32 <=? off + n)) with false by (bdestruct_all; simpl; (done || lia)).
    rewrite slice_length by lia. f_equal. lia.
  - destruct (_ || _) eqn:E; simpl; [lia|]. apply orb_false_iff in E as [E1%Z.ltb_ge _]. rewrite slice_length by lia. lia.
Qed.

Lemma segments_mono data k : ∀ off sz img sz' img', segments data off sz img k = Some (sz', img') → sz ≤ sz'.
Proof.
  induction k as [|k IH]; intros off sz img sz' img'; cbn [segments]; [by intros [= <- _]|].
  destruct (file_part data off sizeof_proghdr) as [ph|]; [|done]. cbn [mbind option_bind]. case_match; [by apply IH|]. case_match; [|done]. intros ?%IH. lia.
Qed.

Lemma bytes_get32 b off : Forall (λ x, 0 ≤ x < 2 ^ 8) b → 0 ≤ get32 b off < 2 ^ 32.
Proof.
  intros Hb. assert (H8 : ∀ o, 0 ≤ get8 b o < 2 ^ 8).
  { intros o. unfold get8. destruct (b !! Z.to_nat o) as [y|] eqn:E; simpl; [|lia]. by apply (Forall_lookup_1 _ _ _ _ Hb E). }
  unfold get32. pose proof (H8 off). pose proof (H8 (off + 1)). pose proof (H8 (off + 2)). pose proof (H8 (off + 3)). lia.
Qed.

Lemma npg_cover sz : sz ≤ PGSIZE * npg sz.
Proof. destruct (decide (PGSIZE * npg sz < sz)) as [H%npg_lt|]; lia. Qed.

(** The image grows to [hi] bytes and the file part of the segment is put in it. *)
Lemma grow_segment m0 d sz hi img s l T f t i n fi lk (Q : Z → pst F → Prop) : image m0 l0 d (npg sz) user7 img s l T → ends_at (npg sz) img →
  0 ≤ sz < KERNBASE → 0 ≤ hi < 2 ^ 32 →
  (∀ s' l' T', image m0 l0 d (npg sz) user7 img s' l' T' → KERNBASE ≤ hi ∨ Z.of_nat (length l0) ≤ 2052 + npg hi → Q 0 (Pst t i n fi lk s' f)) →
  (∀ s' l' T', hi < KERNBASE → image m0 l0 d (npg (Z.max sz hi)) user7 img s' l' T' → Q (Z.max sz hi) (Pst t i n fi lk s' f)) →
  runs (on_k (allocuvm kend d sz hi)) Q (Pst t i n fi lk s f).
Proof.
  intros Hi Hz Hsz Hhi Hbad Hgood. apply runs_k. destruct (decide (KERNBASE ≤ hi)) as [Hge|Hlt].
  { unfold allocuvm. rewrite (proj2 (Z.leb_le _ _)) by done. kstep. eapply Hbad; [done|by left]. }
  destruct (decide (hi < sz)) as [Hs|Hs].
  { unfold allocuvm. rewrite (proj2 (Z.leb_gt _ _)), (proj2 (Z.ltb_lt _ _)) by lia. kstep. replace sz with (Z.max sz hi) at 1 by lia.
    apply (Hgood s l T); [lia|]. by replace (Z.max sz hi) with sz by lia. }
  eapply (image_allocuvm kend kdata Hkend Hdata _ l0 Hfree Hnodup); [exact Hi|lia|lia| |].
  - intros s' l' T' Hi' Hl. eapply Hbad; [done|by right].
  - intros s' l' T' Hi'. replace hi with (Z.max sz hi) at 1 by lia. eapply (Hgood s' l' T'); [lia|]. replace (Z.max sz hi) with hi by lia.
    eapply image_flags; [eapply image_ext; [exact Hi'|]|].
    + intros va Hva. unfold grown. destruct (Z.ltb_spec va (PGSIZE * npg sz)); [done|]. symmetry. by apply Hz.
    + intros q Hq. unfold user7. by destruct (q <? npg sz).
Qed.

Section segments.
Context (m0 : gmap Z Z) (d : Z) (ip : I) (data : list Z) (t : list proc) (i0 : option nat) (n0 : Z) (fi : bool) (lk : lkst).
Context (Hbytes : Forall (λ x, 0 ≤ x < 2 ^ 8) data) (Hlen : Z.of_nat (length data) < 2 ^ 31).
Notation st s f := (Pst t i0 n0 fi lk s f).

(** Memory is not enough for the program that [r] is. *)
Definition short (r : option (Z * (Z → Z))) : Prop := ∀ sz img, r = Some (sz, img) → Z.of_nat (length l0) ≤ 2052 + npg sz.

Lemma exec_segments_ok k : ∀ off sz img s l T f (Q : option Z → pst F → Prop),
  image m0 l0 d (npg sz) user7 img s l T → ends_at (npg sz) img → fs_locked ip data f → 0 ≤ off < 2 ^ 32 → 0 ≤ sz < KERNBASE →
  (∀ np' img' s' l' T' f', image m0 l0 d np' user7 img' s' l' T' → fs_locked ip data f' → short (segments data off sz img k) → Q None (st s' f')) →
  (∀ sz' img' s' l' T' f', segments data off sz img k = Some (sz', img') → 0 ≤ sz' < KERNBASE → image m0 l0 d (npg sz') user7 img' s' l' T' →
     ends_at (npg sz') img' → fs_locked ip data f' → Q (Some sz') (st s' f')) →
  runs (exec_segments kend ip d off sz k) Q (st s f).
Proof.
  induction k as [|k IH]; intros off sz img s l T f Q Hi Hz Hf Hoff Hsz Hbad Hgood; cbn [exec_segments].
  { kstep. by eapply Hgood. }
  cbn [segments] in Hbad, Hgood. assert (Hs32 : sizeof_proghdr = 32) by done. kstep. apply runs_f. rewrite u32_small by lia.
  eapply xf_readi_ok; [exact Hf|lia|lia|]. intros f1 Hf1. pose proof (read_part data off sizeof_proghdr Hoff ltac:(lia) Hlen) as Hrp.
  destruct (file_part data off sizeof_proghdr) as [ph|] eqn:Eph; cbn [mbind option_bind] in Hbad, Hgood.
  2:{ destruct (read_spec _ _ _) as [r b]. simpl in Hrp. replace (r =? sizeof_proghdr) with false by (symmetry; by apply Z.eqb_neq). cbn [negb]. kstep. eapply Hbad; [done|done|by intros ? ? [=]]. }
  rewrite Hrp, Z.eqb_refl. cbn [negb]. destruct (negb (ph_type ph =? ELF_PROG_LOAD)).
  { eapply IH; [done|done|done|apply u32_range|done|done|done]. }
  assert (Hph : Forall (λ x, 0 ≤ x < 2 ^ 8) ph).
  { unfold file_part in Eph. destruct (_ <=? _); [|done]. injection Eph as <-. by apply Forall_take, Forall_drop. }
  pose proof (bytes_get32 ph 4 Hph : 0 ≤ ph_off ph < 2 ^ 32) as Ho. pose proof (bytes_get32 ph 8 Hph : 0 ≤ ph_vaddr ph < 2 ^ 32) as Hv.
  pose proof (bytes_get32 ph 16 Hph : 0 ≤ ph_filesz ph < 2 ^ 32) as Hfz. pose proof (bytes_get32 ph 20 Hph : 0 ≤ ph_memsz ph < 2 ^ 32) as Hmz.
  assert (Hno : ¬ segment_ok data sz ph → ∀ np' img' s' l' T' f', image m0 l0 d np' user7 img' s' l' T' → fs_locked ip data f' → Q None (st s' f')).
  { intros Hn np' img' s' l' T' f' Hi' Hf'. eapply Hbad; [done|done|]. rewrite decide_False by done. by intros ? ? [=]. }
  clear Hrp Eph. destruct (Z.ltb_spec (ph_memsz ph) (ph_filesz ph)) as [Hmf|Hmf]; [kstep; eapply Hno; [|done..]; unfold segment_ok; lia|].
  set (hi := ph_vaddr ph + ph_memsz ph) in *. destruct (decide (hi < 2 ^ 32)) as [Hh32|Hh32].
  2:{ assert (u32 hi < ph_vaddr ph) as Hlt.
      { unfold u32. replace hi with (hi - 2 ^ 32 + 1 * 2 ^ 32) by lia. rewrite Z.mod_add, Z.mod_small by lia. lia. }
      rewrite (proj2 (Z.ltb_lt _ _)) by done. kstep. eapply Hno; [|done..]. unfold segment_ok. fold hi. unfold KERNBASE. lia. }
  rewrite u32_small by lia. rewrite (proj2 (Z.ltb_ge _ _)) by lia. kstep. eapply grow_segment; [exact Hi|done|done|lia| |].
  { intros s' l' T' Hi' Hr. apply runs_ret. destruct (decide (segment_ok data sz ph)) as [Hok|Hn]; [|by eapply Hno].
    eapply Hbad; [done|done|]. intros sz' img' Hseg%segments_mono. destruct Hr as [Hr|Hr]; [unfold segment_ok in Hok; fold hi in Hok; lia|].
    fold hi in Hseg. pose proof (npg_mono hi sz' ltac:(lia)). lia. }
  intros s' l' T' Hhi Hi'. destruct (Z.eqb_spec (Z.max sz hi) 0) as [E0|E0]; [kstep; eapply Hno; [|done..]; unfold segment_ok; fold hi; lia|].
  destruct (Z.eqb_spec (ph_vaddr ph mod PGSIZE) 0) as [Em|Em]; cbn [negb]; [|kstep; eapply Hno; [|done..]; unfold segment_ok; tauto].
  kstep. apply runs_kf. pose proof (npg_range (Z.max sz hi) ltac:(unfold KERNBASE in *; lia)) as Hnr. pose proof (npg_cover (Z.max sz hi)) as Hcov.
  eapply (image_loaduvm kend kdata Hdata m0 l0 (xf_readi ip) (fs_locked ip data) data); [|done|done|exact Hi'|done|lia|done|lia|lia|done| |].
  { intros f2 o n2 Q2 Hf2 Hoff2 Hn2 HQ2. by eapply xf_readi_ok. }
  - intros s2 f2 img2 Hi2 Hf2 [Hpos Hshort]. apply runs_ret. eapply Hno; [|exact Hi2|done]. unfold segment_ok. lia.
  - intros s2 f2 Hi2 Hf2 Hfits. change (0 <? 0) with false. cbv iota.
    assert (Hok : segment_ok data sz ph) by (unfold segment_ok; fold hi; split_and!; (done || lia)).
    rewrite decide_True in Hbad, Hgood by done. eapply IH; [exact Hi2| |done|apply u32_range|lia|done|done].
    intros va Hva. unfold put. replace ((ph_vaddr ph <=? va) && (va <? ph_vaddr ph + ph_filesz ph)) with false by (bdestruct_all; simpl; (done || lia)).
    apply Hz. pose proof (npg_mono sz (Z.max sz hi) ltac:(lia)). unfold PGSIZE in *. lia.
Qed.
End segments.

(** ** The arguments *)

(** The string [str] at [a] in the memory of the caller. *)
Record str_at (m : gmap Z Z) (a : Z) (str : list Z) : Prop := {
  sa_bound : 0 ≤ a ∧ a + Z.of_nat (length str) < KERNBASE;
  sa_byte i : 0 ≤ i ≤ Z.of_nat (length str) → rd m (a + i) = get8 str i;
  sa_nonzero : Forall (λ c, c ≠ 0) str
}.

(** Room for the strings, with their ends and the alignment. *)
Definition need (strs : list (list Z)) : Z := foldr (λ str n, Z.of_nat (length str) + 4 + n) 0 strs.

(** The image with the strings pushed from [sp] down. *)
Fixpoint push (img : Z → Z) (sp : Z) (strs : list (list Z)) : Z → Z :=
  match strs with
  | [] => img
  | str :: strs' =>
      let sp := align4 (sp - (Z.of_nat (length str) + 1)) in
      push (put img sp (Z.of_nat (length str) + 1) (get8 str)) sp strs'
  end.

Lemma align4_range x : x - 3 ≤ align4 x ≤ x ∧ align4 x mod 4 = 0.
Proof.
  unfold align4. pose proof (Z.mod_pos_bound x 4 ltac:(lia)). split; [lia|]. pose proof (Z.div_mod x 4 ltac:(lia)).
  replace (x - x mod 4) with (x / 4 * 4) by lia. by apply Z.mod_mul.
Qed.

Lemma need_nonneg strs : 0 ≤ need strs.
Proof. induction strs as [|str strs IH]; cbn [need foldr]; [done|]. unfold need in IH. lia. Qed.

Lemma lowest_cons sp str strs : lowest sp (str :: strs) = lowest (align4 (sp - (Z.of_nat (length str) + 1))) strs.
Proof.
  unfold lowest. cbn [places]. set (sp' := align4 _). destruct (places sp' strs) eqn:E; [done|]. rewrite last_cons_cons. by destruct (last _) eqn:El; [|apply last_None in El].
Qed.

Lemma lowest_range strs : ∀ sp, sp mod 4 = 0 → sp - need strs ≤ lowest sp strs ≤ sp ∧ lowest sp strs mod 4 = 0.
Proof.
  induction strs as [|str strs IH]; intros sp Hsp; [unfold lowest; cbn; split; [lia|done]|].
  rewrite lowest_cons. destruct (align4_range (sp - (Z.of_nat (length str) + 1))) as [Ha Hm]. destruct (IH _ Hm) as [Hl Hlm].
  unfold need in *. cbn [foldr]. lia.
Qed.

Lemma push_above strs : ∀ img sp va, sp ≤ va → sp mod 4 = 0 → push img sp strs va = img va.
Proof.
  induction strs as [|str strs IH]; intros img sp va Hva Hm; cbn [push]; [done|].
  destruct (align4_range (sp - (Z.of_nat (length str) + 1))) as [Ha Hm']. rewrite IH by lia. unfold put. bdestruct_all; simpl; (done || lia).
Qed.

Lemma push_below strs : ∀ img sp va, va < lowest sp strs → sp mod 4 = 0 → push img sp strs va = img va.
Proof.
  induction strs as [|str strs IH]; intros img sp va Hva Hm; cbn [push]; [done|]. rewrite lowest_cons in Hva.
  destruct (align4_range (sp - (Z.of_nat (length str) + 1))) as [Ha Hm']. destruct (lowest_range strs _ Hm') as [Hl _].
  rewrite IH by done. unfold put. bdestruct_all; simpl; (done || lia).
Qed.

Lemma push_string strs : ∀ img sp i p str, sp mod 4 = 0 → places sp strs !! i = Some p → strs !! i = Some str →
  string_in (push img sp strs) p str ∧ lowest sp strs ≤ p ∧ p + Z.of_nat (length str) < sp.
Proof.
  induction strs as [|str0 strs IH]; intros img sp i p str Hsp; [done|]. cbn [places push]. rewrite lowest_cons.
  destruct (align4_range (sp - (Z.of_nat (length str0) + 1))) as [Ha Hm]. set (sp' := align4 _) in *. destruct (lowest_range strs _ Hm) as [Hl _].
  destruct i as [|i]; cbn [lookup list_lookup].
  - intros [= <-] [= <-]. split; [|lia]. intros i Hi. rewrite push_above by lia. unfold put. bdestruct_all; simpl; try lia. f_equal. lia.
  - intros Hp Hs. destruct (IH (put img sp' (Z.of_nat (length str0) + 1) (get8 str0)) sp' i p str Hm Hp Hs) as (H1 & H2 & H3). split; [done|lia].
Qed.

Section args.
Context (t : list proc) (cur : nat) (x : proc) (i0 : option nat) (n0 : Z) (fi : bool) (lk : lkst) (f : F).
Context (Hx : t !! cur = Some x) (Hks : page_ok kend (p_kstack x)) (Hkl : p_kstack x ∉ l0).
Context (Hu1 : p_kstack x ≤ ustack) (Hu2 : ustack + 4 * 36 ≤ p_kstack x + PGSIZE).
Notation st s := (Pst t i0 n0 fi lk s f).

(** Nothing but [ustack] changed. *)
Definition same_but (m m' : gmap Z Z) : Prop := ∀ b, b < ustack ∨ ustack + 4 * 36 ≤ b → rd m' b = rd m b.

Lemma ustack_high : KERNBASE ≤ ustack.
Proof using Hkend Hks Hu1. destruct Hks as (_ & ? & _). lia. Qed.

Lemma str_same m m' a str : same_but m m' → str_at m a str → str_at m' a str.
Proof using Hkend Hks Hu1.
  intros Hs [Hb Hbyte Hnz]. split; [done| |done]. intros i Hi. rewrite Hs; [by apply Hbyte|]. pose proof ustack_high. lia.
Qed.

Lemma low_outside b : b < KERNBASE → outside l0 b.
Proof using Hkend Hfree. intros Hb p Hp. destruct (Hfree p Hp) as (_ & ? & _). lia. Qed.

Lemma ustack_outside b : ustack ≤ b < ustack + 4 * 36 → outside l0 b.
Proof using Hfree Hks Hkl Hu1 Hu2.
  intros Hb p Hp. assert (p_kstack x ≠ p) as Hne by (intros E; by rewrite E in Hkl). pose proof (pages_disjoint kend _ _ Hks (Hfree p Hp) Hne). lia.
Qed.

(** Bytes outside the pages that were free are as in [m0]. *)
Lemma image_outside m0 d np fl img s l T b : image m0 l0 d np fl img s l T → outside l0 b → rd (k_mem s) b = rd m0 b.
Proof. intros Hi Hb. apply (im_mem _ _ _ _ _ _ _ _ _ _ _ Hi). intros p Hp%elem_of_list_to_set. by apply Hb. Qed.

Lemma set_ustack_ok m0 d np fl img s l T j v (Q : unit → pst F → Prop) : image m0 l0 d np fl img s l T → (j < 36)%nat →
  (∀ m0' s', image m0' l0 d np fl img s' l T → same_but m0 m0' → m0' = st32 m0 (ustack + 4 * Z.of_nat j) v → Q tt (st s')) →
  runs (set_ustack ustack j v) Q (st s).
Proof using Hfree Hks Hkl Hu1 Hu2.
  intros Hi Hj HQ. unfold set_ustack. apply runs_k. unfold mem_mod. kstep. eapply HQ; [|  |done].
  - eapply image_store; [done|done|exact Hks|done|lia|lia].
  - intros b Hb. rewrite rd_st32. bdestruct_all; simpl; (done || lia).
Qed.

Lemma align4_land y : 0 ≤ y < 2 ^ 32 → Z.land (u32 y) (Z.lnot 3) = align4 y.
Proof. intros Hy. rewrite u32_small by done. apply (land_lnot_ones y 2). lia. Qed.

(** [sp] moved past a string or the words of a stack. *)
Definition blocked (fl : Z → Z) (lo hi : Z) : Prop := ∃ a, lo ≤ a < hi ∧ Z.land (fl (a / PGSIZE)) PTE_U = 0.

Lemma exec_args_ok d np fl l T strs : ∀ argv argc sp img m0 s (Q : option (nat * Z) → pst F → Prop),
  image m0 l0 d np fl img s l T → Forall2 (str_at m0) argv strs → Forall (λ str, Z.of_nat (length str) ≤ p_sz x) strs →
  need strs ≤ sp → sp ≤ PGSIZE * np → sp mod 4 = 0 → (argc ≤ MAXARG)%nat →
  (∀ m0' img' s', image m0' l0 d np fl img' s' l T → same_but m0 m0' →
     (MAXARG < argc + length strs)%nat ∨ blocked fl (lowest sp strs) sp → Q None (st s')) →
  (∀ m0' s', image m0' l0 d np fl (push img sp strs) s' l T → same_but m0 m0' → (argc + length strs ≤ MAXARG)%nat →
     (∀ j, (j < argc)%nat → ld32 m0' (ustack + 4 * Z.of_nat (3 + j)) = ld32 m0 (ustack + 4 * Z.of_nat (3 + j))) →
     (∀ j p, places sp strs !! j = Some p → ld32 m0' (ustack + 4 * Z.of_nat (3 + argc + j)) = p) →
     Q (Some ((argc + length strs)%nat, lowest sp strs)) (st s')) →
  runs (exec_args ustack cur d argv argc sp) Q (st s).
Proof using Hkend Hdata Hfree Hx Hks Hkl Hu1 Hu2.
  induction strs as [|str strs IH]; intros argv argc sp img m0 s Q Hi Hstr Hsz Hneed Hsp Hmod Hargc Hbad Hgood.
  { apply Forall2_nil_inv_r in Hstr as ->. cbn [exec_args]. kstep. replace (Some (argc, sp)) with (Some ((argc + length (@nil (list Z)))%nat, lowest sp [])) by (cbn; by rewrite Nat.add_0_r).
    eapply Hgood; [exact Hi|done|cbn; lia|done|done]. }
  apply Forall2_cons_inv_r in Hstr as (a & argv' & Ha & Hstr & ->). apply Forall_cons in Hsz as [Hsz1 Hsz]. cbn [exec_args].
  destruct (decide (MAXARG ≤ argc)%nat) as [Hmax|Hmax].
  { kstep. eapply Hbad; [exact Hi|done|left; cbn [length]; lia]. }
  pose proof (im_np _ _ _ _ _ _ _ _ _ _ _ Hi) as Hnp. unfold need in Hneed. cbn [foldr] in Hneed. fold (need strs) in Hneed. pose proof (need_nonneg strs).
  assert (Hrd : ∀ i, 0 ≤ i ≤ Z.of_nat (length str) → rd (k_mem s) (a + i) = get8 str i).
  { intros i Hir. rewrite (image_outside _ _ _ _ _ _ _ _ _ Hi); [by apply (sa_byte _ _ _ Ha)|]. apply low_outside. pose proof (sa_bound _ _ _ Ha). lia. }
  assert (Hlen : strlen (S (Z.to_nat (p_sz x))) (k_mem s) a = Some (Z.of_nat (length str))).
  { unfold strlen. rewrite (strlen_loop_ok (length str)); [done| |lia]. rewrite Z.add_0_r. split.
    - rewrite Hrd by lia. unfold get8. by rewrite lookup_ge_None_2 by lia.
    - intros i Hir. rewrite Hrd by lia. unfold get8. destruct (lookup_lt_is_Some_2 str (Z.to_nat i)) as [c Hc]; [lia|]. rewrite Hc.
      by apply (Forall_lookup_1 _ _ _ _ (sa_nonzero _ _ _ Ha) Hc). }
  kstep. unfold getp. kstep. kstep. apply runs_k. kstep. simpl. rewrite (list_lookup_total_correct _ _ _ Hx). rewrite Hlen.
  rewrite align4_land by (unfold PGSIZE in *; lia). rewrite lowest_cons in Hbad, Hgood.
  destruct (align4_range (sp - (Z.of_nat (length str) + 1))) as [Hal Ham]. set (sp' := align4 _) in *. destruct (lowest_range strs sp' Ham) as [Hlow _].
  kstep. apply runs_k. eapply (image_copyout kend kdata Hdata); [exact Hi|lia|lia|lia| |].
  { intros i Hir. apply low_outside. pose proof (sa_bound _ _ _ Ha). lia. }
  intros r k m' Hr Hi'. destruct Hr as [(-> & -> & _)|(-> & Hk & Hblk)].
  2:{ apply runs_ret. eapply Hbad; [exact Hi'|done|right]. exists (sp' + k). split; [lia|done]. }
  change (0 <? 0) with false. cbv iota. kstep. eapply set_ustack_ok; [exact Hi'|unfold MAXARG in *; lia|]. intros m1 s1 Hi1 Hs1 Em1.
  eapply (IH argv' (S argc) sp' (put img sp' (Z.of_nat (length str) + 1) (get8 str)) m1 s1).
  - eapply image_ext; [exact Hi1|]. intros va Hva. unfold put. bdestruct_all; simpl; try done. apply Hrd. lia.
  - eapply Forall2_impl; [exact Hstr|]. intros a' str'. by apply str_same.
  - done.
  - lia.
  - lia.
  - done.
  - lia.
  - intros m2 img2 s2 Hi2 Hs2 Hr2. eapply Hbad; [exact Hi2|intros b Hb; by rewrite Hs2, Hs1|]. cbn [length].
    destruct Hr2 as [?|(a2 & ? & ?)]; [left; lia|right]. exists a2. split; [lia|done].
  - intros m2 s2 Hi2 Hs2 Hmax2 Hold Hnew. replace (S argc + length strs)%nat with (argc + length (str :: strs))%nat by (cbn [length]; lia). apply (Hgood m2 s2); [done|intros b Hb; by rewrite Hs2, Hs1|cbn [length]; lia| |].
    + intros j Hj. rewrite Hold by lia. rewrite Em1. apply ld32_st32_ne. lia.
    + intros j p. cbn [places]. fold sp'. destruct j as [|j]; cbn [lookup list_lookup].
      * intros [= <-]. rewrite Nat.add_0_r.  rewrite Hold by lia. rewrite Em1, ld32_st32_eq. apply u32_small. unfold PGSIZE in *. lia.
      * intros Hp. rewrite <- (Hnew j p Hp). f_equal. lia.
Qed.

(** Every page for the user but the one below the stack. *)
Definition guarded (g : Z) : Z → Z := λ q, if q =? g then 3 else 7.

Lemma places_length strs : ∀ sp, length (places sp strs) = length strs.
Proof. induction strs as [|str strs IH]; intros sp; cbn; [done|]. by rewrite IH. Qed.

(** The words copied from [ustack]. *)
Lemma word_put img a k m j : 0 ≤ j → 4 * j + 4 ≤ k → word_at (put img a k (λ i, rd m (ustack + i))) (a + 4 * j) = ld32 m (ustack + 4 * j).
Proof.
  intros Hj Hk. assert (E : ∀ i, 0 ≤ i < k → put img a k (λ i, rd m (ustack + i)) (a + i) = rd m (ustack + i)).
  { intros i Hi. unfold put. replace ((a <=? a + i) && (a + i <? a + k)) with true by (bdestruct_all; simpl; (done || lia)). do 2 f_equal. lia. }
  unfold word_at, ld32. rewrite <- !Z.add_assoc. by rewrite !E by lia.
Qed.

(** The stack after the last [copyout]. *)
Lemma stack_built img top strs m2 : top mod 4 = 0 → 4 * Z.of_nat (length strs) + 16 ≤ lowest top strs → top < KERNBASE → (length strs ≤ MAXARG)%nat →
  (∀ j p, places top strs !! j = Some p → ld32 m2 (ustack + 4 * Z.of_nat (3 + j)) = p) →
  let n := Z.of_nat (length strs) in
  let m3 := st32 (st32 (st32 (st32 m2 (ustack + 4 * Z.of_nat (3 + length strs)) 0) (ustack + 4 * 0) 0xffffffff) (ustack + 4 * 1) n)
              (ustack + 4 * 2) (u32 (lowest top strs - (n + 1) * 4)) in
  stack_ok (put (push img top strs) (stack_ptr top strs) ((3 + n + 1) * 4) (λ i, rd m3 (ustack + i))) top strs.
Proof.
  intros Hmod Hlow Htop Hmax Hplaces n m3. destruct (lowest_range strs top Hmod) as [Hl _]. unfold KERNBASE in Htop.
  set (esp := stack_ptr top strs). assert (Hesp : esp = lowest top strs - 4 * (n + 4)) by done.
  assert (Hw : ∀ j, 0 ≤ j < n + 4 → word_at (put (push img top strs) esp ((3 + n + 1) * 4) (λ i, rd m3 (ustack + i))) (esp + 4 * j) = ld32 m3 (ustack + 4 * j)).
  { intros j Hj. apply word_put; lia. }
  split; fold esp.
  - replace esp with (esp + 4 * 0) at 2 by lia. rewrite Hw by lia. unfold m3. rewrite !(ld32_st32_ne _ (ustack + 4 * 2)), !(ld32_st32_ne _ (ustack + 4 * 1)) by lia. apply ld32_st32_eq.
  - replace (esp + 4) with (esp + 4 * 1) by lia. rewrite Hw by lia. unfold m3. rewrite (ld32_st32_ne _ (ustack + 4 * 2)) by lia. rewrite ld32_st32_eq. apply u32_small. unfold MAXARG in Hmax. lia.
  - replace (esp + 8) with (esp + 4 * 2) by lia. rewrite Hw by lia. unfold m3. rewrite ld32_st32_eq, (u32_small (u32 _)) by apply u32_range. rewrite u32_small; lia.
  - intros j p Hp. pose proof (lookup_lt_Some _ _ _ Hp) as Hj. rewrite places_length in Hj.
    replace (esp + 12 + 4 * Z.of_nat j) with (esp + 4 * (3 + Z.of_nat j)) by lia. rewrite Hw by lia. rewrite <- (Hplaces j p Hp). unfold m3.
    replace (Z.of_nat (3 + j)) with (3 + Z.of_nat j) by lia. rewrite !ld32_st32_ne by lia. done.
  - replace (esp + 12 + 4 * Z.of_nat (length strs)) with (esp + 4 * (3 + n)) by lia. rewrite Hw by lia. unfold m3.
    replace (Z.of_nat (3 + length strs)) with (3 + n) by lia. rewrite (ld32_st32_ne _ (ustack + 4 * 2)), (ld32_st32_ne _ (ustack + 4 * 1)), (ld32_st32_ne _ (ustack + 4 * 0)) by lia.
    apply ld32_st32_eq.
  - intros j p str Hp Hs. destruct (push_string strs img top j p str Hmod Hp Hs) as (H1 & H2 & _). intros i Hi. unfold put.
    replace ((esp <=? p + i) && (p + i <? esp + (3 + n + 1) * 4)) with false by (bdestruct_all; simpl; (done || lia)). by apply H1.
Qed.

(** The two pages above the program. *)
Lemma stack_pages m0 d sz img s l T (Q : Z → pst F → Prop) : image m0 l0 d (npg sz) user7 img s l T → ends_at (npg sz) img → 0 ≤ sz < KERNBASE →
  (∀ s' l' T', image m0 l0 d (npg sz) user7 img s' l' T' → KERNBASE ≤ PGSIZE * (npg sz + 2) ∨ Z.of_nat (length l0) ≤ 2052 + (npg sz + 2) → Q 0 (st s')) →
  (∀ s' l' T', PGSIZE * (npg sz + 2) < KERNBASE → image m0 l0 d (npg sz + 2) user7 img s' l' T' → Q (PGSIZE * (npg sz + 2)) (st s')) →
  runs (on_k (allocuvm kend d (PGROUNDUP sz) (u32 (PGROUNDUP sz + 2 * PGSIZE)))) Q (st s).
Proof using Hkend Hdata Hfree Hnodup.
  intros Hi Hz Hsz Hbad Hgood. rewrite PGROUNDUP_npg by lia. pose proof (npg_range sz ltac:(unfold KERNBASE in *; lia)) as Hr. assert (HG : PGSIZE = 4096) by done.
  assert (Hn : ∀ k, npg (PGSIZE * k) = k). { intros k. unfold npg. symmetry. apply (Z.div_unique_pos _ _ _ (PGSIZE - 1)); lia. }
  rewrite u32_small by lia. replace (PGSIZE * npg sz + 2 * PGSIZE) with (PGSIZE * (npg sz + 2)) by lia.
  destruct (decide (KERNBASE ≤ PGSIZE * (npg sz + 2))) as [Hge|Hlt].
  { apply runs_k. unfold allocuvm. rewrite (proj2 (Z.leb_le _ _)) by done. kstep. eapply Hbad; [done|by left]. }
  eapply (grow_segment m0 d (PGSIZE * npg sz) (PGSIZE * (npg sz + 2)) img s l T); rewrite ?Hn; [done|done|lia|lia| |].
  - intros s' l' T' Hi' Hr'. by eapply Hbad.
  - replace (Z.max (PGSIZE * npg sz) (PGSIZE * (npg sz + 2))) with (PGSIZE * (npg sz + 2)) by lia. rewrite Hn. done.
Qed.

Lemma exec_stack_ok m0 d sz img s l T argv strs (Q : option (Z * Z) → pst F → Prop) :
  image m0 l0 d (npg sz) user7 img s l T → ends_at (npg sz) img → 0 ≤ sz < KERNBASE →
  Forall2 (str_at m0) argv strs → Forall (λ str, Z.of_nat (length str) ≤ p_sz x) strs → need strs + 4 * (Z.of_nat (length strs) + 4) ≤ 2 * PGSIZE →
  let top := PGSIZE * (npg sz + 2) in
  (∀ m0' np' fl' img' s' l' T', image m0' l0 d np' fl' img' s' l' T' → same_but m0 m0' →
     KERNBASE ≤ top ∨ Z.of_nat (length l0) ≤ 2052 + (npg sz + 2) ∨ (MAXARG < length strs)%nat ∨ stack_ptr top strs < top - PGSIZE → Q None (st s')) →
  (∀ m0' img' s' l' T', image m0' l0 d (npg sz + 2) (guarded (npg sz)) img' s' l' T' → same_but m0 m0' → top < KERNBASE →
     (length strs ≤ MAXARG)%nat → top - PGSIZE ≤ stack_ptr top strs → stack_ok img' top strs → (∀ va, va < top - PGSIZE → img' va = img va) →
     Q (Some (top, stack_ptr top strs)) (st s')) →
  runs (exec_stack kend ustack cur d sz argv) Q (st s).
Proof using Hkend Hdata Hfree Hnodup Hx Hks Hkl Hu1 Hu2.
  intros Hi Hz Hsz Hstr Hlens Hneed top Hbad Hgood. assert (HG : PGSIZE = 4096) by done. pose proof (need_nonneg strs). pose proof (npg_range sz ltac:(unfold KERNBASE in *; lia)) as Hr.
  unfold exec_stack. kstep. eapply stack_pages; [exact Hi|done|done| |].
  { intros s' l' T' Hi' Hr'. apply runs_ret. eapply Hbad; [exact Hi'|done|tauto]. }
  fold top. intros s1 l1 T1 Htop Hi1. rewrite (proj2 (Z.eqb_neq top 0)) by lia. kstep. apply runs_k. replace (top - 2 * PGSIZE) with (PGSIZE * npg sz) by lia.
  eapply (image_clear kend kdata Hdata); [exact Hi1|lia|]. intros s2 Hi2.
  assert (Hfl : image m0 l0 d (npg sz + 2) (guarded (npg sz)) img s2 l1 T1).
  { eapply image_flags; [exact Hi2|]. intros q _. unfold guarded, user7. by destruct (q =? npg sz). }
  clear Hi1 Hi2. assert (Hm4 : top mod 4 = 0). { unfold top. rewrite HG. replace (4096 * (npg sz + 2)) with (1024 * (npg sz + 2) * 4) by lia. by apply Z.mod_mul. }
  destruct (lowest_range strs top Hm4) as [Hlow _]. assert (Hguard : ∀ a, top - 2 * PGSIZE ≤ a < top → Z.land (guarded (npg sz) (a / PGSIZE)) PTE_U = 0 ↔ a < top - PGSIZE).
  { intros a Ha. unfold guarded. pose proof (Z.div_mod a PGSIZE ltac:(lia)). pose proof (Z.mod_pos_bound a PGSIZE ltac:(lia)).
    destruct (Z.eqb_spec (a / PGSIZE) (npg sz)) as [E|E]; (split; [intros HP; try done; try lia|intros HP; try done; lia]). }
  kstep. eapply (exec_args_ok d (npg sz + 2) (guarded (npg sz)) l1 T1 strs argv 0 top img m0 s2); try done; try lia.
  { intros m1 img1 s3 Hi3 Hs3 Hr3. kstep. eapply Hbad; [exact Hi3|done|]. right. right. destruct Hr3 as [?|(a & Ha & Hg)]; [left; lia|right].
    apply Hguard in Hg; [|lia]. unfold stack_ptr. lia. }
  intros m1 s3 Hi3 Hs3 Hmax _ Hplaces. cbn [Nat.add] in *.
  assert (Hmx : (length strs ≤ 32)%nat) by exact Hmax.
  kstep. eapply set_ustack_ok; [exact Hi3|lia|]. intros m2 s4 Hi4 Hs4 Em2. kstep. eapply set_ustack_ok; [exact Hi4|lia|]. intros m3 s5 Hi5 Hs5 Em3.
  kstep. eapply set_ustack_ok; [exact Hi5|lia|]. intros m4 s6 Hi6 Hs6 Em4. kstep. eapply set_ustack_ok; [exact Hi6|lia|]. intros m5 s7 Hi7 Hs7 Em5.
  assert (Hs : same_but m0 m5) by (intros b Hb; by rewrite Hs7, Hs6, Hs5, Hs4, Hs3).
  assert (Hsp : u32 (lowest top strs - (3 + Z.of_nat (length strs) + 1) * 4) = stack_ptr top strs).
  { unfold stack_ptr. rewrite u32_small; unfold KERNBASE in Htop; lia. }
  rewrite Hsp. assert (Hspr : top - 2 * PGSIZE ≤ stack_ptr top strs) by (unfold stack_ptr; lia).
  kstep. apply runs_k. eapply (image_copyout kend kdata Hdata); [exact Hi7|lia|lia|unfold stack_ptr; lia| |].
  { intros i Hir. apply (ustack_outside). lia. }
  intros r k m' Hr' Hi'. destruct Hr' as [(-> & -> & Hok)|(-> & Hk & Hg)].
  2:{ apply runs_ret. eapply Hbad; [exact Hi'|done|]. right. right. right. apply Hguard in Hg; [lia|]. unfold stack_ptr in *. lia. }
  apply runs_ret. assert (Hfit : top - PGSIZE ≤ stack_ptr top strs).
  { specialize (Hok 0 ltac:(lia)). rewrite Z.add_0_r in Hok. destruct (decide (stack_ptr top strs < top - PGSIZE)); [|lia]. exfalso. apply Hok, Hguard; [|done]. unfold stack_ptr in *. lia. }
  eapply (Hgood m5 _ _ l1 T1).
  - eapply image_ext; [exact Hi'|]. intros va Hva. instantiate (1 := put (push img top strs) (stack_ptr top strs) ((3 + Z.of_nat (length strs) + 1) * 4) (λ i, rd m5 (ustack + i))).
    unfold put. bdestruct_all; simpl; try done. eapply image_outside; [exact Hi7|]. apply ustack_outside. lia.
  - done.
  - done.
  - done.
  - done.
  - rewrite Em5, Em4, Em3, Em2. apply stack_built; try done. lia.
  - intros va Hva. unfold put. replace ((stack_ptr top strs <=? va) && _) with false by (bdestruct_all; simpl; (done || lia)).
    apply push_below; [|done]. unfold stack_ptr in *. lia.
Qed.
End args.

(** ** The whole *)

(** The process [x] in slot [cur], its memory and the free pages [l0], and what it
    passes to [exec]. *)
Record caller (s : pst F) (cur : nat) (x : proc) (Told : gmap Z Z) (argv : list Z) (strs : list (list Z)) : Prop := {
  ca_slot : s_proc s !! cur = Some x;
  ca_vm : vinv kend (s_k s) l0 (p_pgdir x) Told;
  ca_user : user_ok kend (k_mem (s_k s)) l0 (p_pgdir x) Told 0 (2 ^ 19);
  ca_kstack : page_ok kend (p_kstack x) ∧ p_kstack x ∉ l0 ∧ p_kstack x ∉ own (p_pgdir x) Told ∧
    ∀ q, 0 ≤ q < 2 ^ 19 → present (entry (k_mem (s_k s)) Told q) → p_kstack x ≠ frame (entry (k_mem (s_k s)) Told q);
  ca_ustack : p_kstack x ≤ ustack ∧ ustack + 4 * 36 ≤ p_kstack x + PGSIZE;
  ca_tf : p_kstack x ≤ p_tf x ∧ p_tf x + SIZEOF_TRAPFRAME ≤ p_kstack x + PGSIZE;
  ca_args : Forall2 (str_at (k_mem (s_k s))) argv strs;
  ca_lens : Forall (λ str, Z.of_nat (length str) ≤ p_sz x) strs;
  ca_need : need strs + 4 * (Z.of_nat (length strs) + 4) ≤ 2 * PGSIZE
}.

(** The pages that are free or belong to an address space. *)
Definition pages_of (m : gmap Z Z) (l : list Z) (d : Z) (T : gmap Z Z) (w : Z) : Prop :=
  w ∈ l ∨ w ∈ own d T ∨ ∃ q, 0 ≤ q < 2 ^ 19 ∧ present (entry m T q) ∧ w = frame (entry m T q).

(** [exec] returned -1: the process is as it was, and so are the free pages. *)
Definition left_alone (s : pst F) (x : proc) (s' : pst F) : Prop :=
  s_proc s' = s_proc s ∧ ∃ l', kinv kend (s_k s') l' ∧ (∀ w, w ∈ l' ↔ w ∈ l0) ∧
    same_out (list_to_set l0 ∪ {[p_kstack x]}) (k_mem (s_k s)) (k_mem (s_k s')).

(** It had a reason to. *)
Definition refused (path : list Z) (strs : list (list Z)) : Prop :=
  ∀ data e sz img, fs_file path = Some data → program data = Some (e, sz, img) → let top := PGSIZE * (npg sz + 2) in
    KERNBASE ≤ top ∨ Z.of_nat (length l0) ≤ 2052 + (npg sz + 2) ∨ (MAXARG < length strs)%nat ∨ stack_ptr top strs < top - PGSIZE.

(** [exec] returned 0: the process runs the program of the file. *)
Definition replaced (s : pst F) (cur : nat) (x : proc) (Told : gmap Z Z) (path : list Z) (strs : list (list Z)) (s' : pst F) : Prop :=
  ∃ data e sz img d img' l' T, fs_file path = Some data ∧ program data = Some (e, sz, img) ∧
    let top := PGSIZE * (npg sz + 2) in
    s_proc s' = <[cur := set_psz top (set_ppgdir d (set_pname (name_copy (last_part path path)) x))]> (s_proc s) ∧
    space kend kdata d (npg sz + 2) (guarded (npg sz)) img' (s_k s') l' T ∧
    (∀ va, 0 ≤ va < PGSIZE * npg sz → img' va = img va) ∧
    stack_ok img' top strs ∧ top - PGSIZE ≤ stack_ptr top strs ∧
    ld32 (k_mem (s_k s')) (p_tf x + tf_eip) = e ∧ ld32 (k_mem (s_k s')) (p_tf x + tf_esp) = stack_ptr top strs ∧
    ∀ w, pages_of (k_mem (s_k s')) l' d T w ↔ pages_of (k_mem (s_k s)) l0 (p_pgdir x) Told w.

Section whole.
Context (t : list proc) (i0 : option nat) (n0 : Z) (fi : bool) (lk : lkst) (k0 : kst) (f0 : F).
Context (cur : nat) (x : proc) (Told : gmap Z Z) (argv : list Z) (strs : list (list Z)) (path : list Z).
Notation s0 := (Pst t i0 n0 fi lk k0 f0).
Hypothesis Hc : caller s0 cur x Told argv strs.

(** Memory outside the free pages and the kernel stack is as in the beginning. *)
Lemma kept_out m0 d np fl img s l T : image m0 l0 d np fl img s l T → same_out {[p_kstack x]} (k_mem k0) m0 →
  same_out (list_to_set l0 ∪ {[p_kstack x]}) (k_mem k0) (k_mem s).
Proof.
  intros Hi Hm. eapply same_out_trans; [eapply same_out_mono; [|exact Hm]; apply union_subseteq_r|]. eapply same_out_mono; [|apply (im_mem _ _ _ _ _ _ _ _ _ _ _ Hi)]. apply union_subseteq_l.
Qed.

Lemma same_but_out m m' : same_but m m' → same_out {[p_kstack x]} m m'.
Proof using Hc. intros Hs b Hb. specialize (Hb (p_kstack x) (proj2 (elem_of_singleton _ _) eq_refl)). apply Hs. pose proof (ca_ustack _ _ _ _ _ _ Hc). clear Hkend Hdata Halign. lia. Qed.

(** The old address space is intact while the new one is built. *)
Lemma old_space m0 d np fl img s l T : image m0 l0 d np fl img s l T → same_out {[p_kstack x]} (k_mem k0) m0 →
  vinv kend s l (p_pgdir x) Told ∧ user_ok kend (k_mem s) l (p_pgdir x) Told 0 (2 ^ 19) ∧
  ∀ q, entry (k_mem s) Told q = entry (k_mem k0) Told q.
Proof using Hc Hfree.
  intros Hi Hm. pose proof (kept_out _ _ _ _ _ _ _ _ Hi Hm) as Ho. destruct (ca_kstack _ _ _ _ _ _ Hc) as (K1 & K2 & K3 & _). cbn in K3.
  pose proof (ca_vm _ _ _ _ _ _ Hc) as Hv. pose proof (ca_user _ _ _ _ _ _ Hc) as Hu. cbn in Hv, Hu.
  assert (HP : ∀ w, w ∈ (list_to_set l0 ∪ {[p_kstack x]} : gset Z) → page_ok kend w ∧ w ∉ own (p_pgdir x) Told).
  { intros w [Hw%elem_of_list_to_set| ->%elem_of_singleton]%elem_of_union; [|done]. split; [by apply Hfree|by apply (vi_dis _ _ _ _ _ Hv)]. }
  assert (He : ∀ q, entry (k_mem s) Told q = entry (k_mem k0) Told q) by (intros q; eapply entry_out; [apply Hv|exact Ho|done]).
  assert (Hsub : ∀ w, w ∈ l → w ∈ l0) by (intros w Hw; apply (im_count _ _ _ _ _ _ _ _ _ _ _ Hi); by left).
  split_and!; [split|split|done].
  - apply (vi_k _ _ _ _ _ (im_inv _ _ _ _ _ _ _ _ _ _ _ Hi)).
  - eapply pt_out; [apply Hv|exact Ho|done].
  - intros w Hw. by apply (vi_dis _ _ _ _ _ Hv), Hsub.
  - intros q Hq. rewrite He. intros Hp. destruct (us_page _ _ _ _ _ _ _ Hu q Hq Hp) as (U1 & U2 & U3). split_and!; [done|done|]. intros Hin. by apply U3, Hsub.
  - intros q q' Hq Hq'. rewrite !He. by apply (us_inj _ _ _ _ _ _ _ Hu).
Qed.

(** The failures after the new directory was made, and the one before. *)
Lemma exec_bad_ok m0 d np fl img s l T f o (Q : Z → pst F → Prop) : image m0 l0 d np fl img s l T → same_out {[p_kstack x]} (k_mem k0) m0 → d ≠ 0 →
  match o with Some ip => ∃ data, fs_locked ip data f | None => fs_idle f end →
  (∀ s' f', left_alone s0 x (Pst t i0 n0 fi lk s' f') → fs_idle f' → Q (-1) (Pst t i0 n0 fi lk s' f')) →
  runs (exec_bad kend d o) Q (Pst t i0 n0 fi lk s f).
Proof using Hkend Hdata Hc.
  intros Hi Hm Hd Ho HQ. unfold exec_bad. apply Z.eqb_neq in Hd. rewrite Hd. kstep. apply runs_k. eapply (image_freevm kend kdata Hkend Hdata); [exact Hi|].
  intros s' l' Hk' Hl' Hm'. assert (Hla : ∀ f', left_alone s0 x (Pst t i0 n0 fi lk s' f')).
  { intros f'. split; [done|]. exists l'. split_and!; [done|done|]. cbn. eapply same_out_trans; [eapply same_out_mono; [|exact Hm]; apply union_subseteq_r|].
    eapply same_out_mono; [|exact Hm']. apply union_subseteq_l. }
  kstep. destruct o as [ip|].
  - destruct Ho as [data Ho]. kstep. apply runs_f. eapply xf_iunlockput_ok; [exact Ho|]. intros f1 Hf1. apply runs_f. eapply xf_end_ok; [done|]. intros f2 Hf2. kstep. by apply HQ.
  - kstep. kstep. by apply HQ.
Qed.

Lemma exec_bad_early f ip data s l (Q : Z → pst F → Prop) : fs_locked ip data f → kinv kend s l → (∀ w, w ∈ l ↔ w ∈ l0) → same_out (list_to_set l0) (k_mem k0) (k_mem s) →
  (∀ s' f', left_alone s0 x (Pst t i0 n0 fi lk s' f') → fs_idle f' → Q (-1) (Pst t i0 n0 fi lk s' f')) →
  runs (exec_bad kend 0 (Some ip)) Q (Pst t i0 n0 fi lk s f).
Proof.
  intros Hf Hk Hl Hm HQ. unfold exec_bad. change (0 =? 0) with true. cbv iota. kstep. kstep. kstep. kstep. apply runs_f. eapply xf_iunlockput_ok; [exact Hf|].
  intros f1 Hf1. apply runs_f. eapply xf_end_ok; [done|]. intros f2 Hf2. kstep. apply HQ; [|done]. split; [done|]. exists l. split_and!; [done|done|]. cbn.
  eapply same_out_mono; [|exact Hm]. apply union_subseteq_l.
Qed.

(** A store in the kernel stack. *)
Lemma image_kstack m0 d np fl img s l T a v : image m0 l0 d np fl img s l T → same_out {[p_kstack x]} (k_mem k0) m0 →
  p_kstack x ≤ a → a + 4 ≤ p_kstack x + PGSIZE →
  image (st32 m0 a v) l0 d np fl img (set_kmem (st32 (k_mem s) a v) s) l T ∧ same_out {[p_kstack x]} (k_mem k0) (st32 m0 a v).
Proof using Hfree Hc.
  intros Hi Hm H1 H2. destruct (ca_kstack _ _ _ _ _ _ Hc) as (K1 & K2 & _). split; [by eapply image_store|].
  eapply same_out_trans; [exact Hm|]. intros b Hb. specialize (Hb (p_kstack x) (proj2 (elem_of_singleton _ _) eq_refl)). rewrite rd_st32. clear -Hb H1 H2. bdestruct_all; simpl; (done || lia).
Qed.

(** The old address space is given back, the new one and the kernel stack stay. *)
Lemma drop_old m0 d np fl img s l T (Q : unit → kst → Prop) : image m0 l0 d np fl img s l T → same_out {[p_kstack x]} (k_mem k0) m0 →
  (∀ s' l', space kend kdata d np fl img s' l' T → (∀ w, pages_of (k_mem s') l' d T w ↔ pages_of (k_mem k0) l0 (p_pgdir x) Told w) →
     (∀ a, p_kstack x ≤ a < p_kstack x + PGSIZE → rd (k_mem s') a = rd (k_mem s) a) → Q tt s') →
  runs (freevm kend (p_pgdir x)) Q s.
Proof using Hkend Hdata Hfree Hc.
  intros Hi Hm HQ. destruct (old_space _ _ _ _ _ _ _ _ Hi Hm) as (Hv & Hu & He). pose proof (ca_user _ _ _ _ _ _ Hc) as Hu0. pose proof (ca_vm _ _ _ _ _ _ Hc) as Hv0.
  destruct (ca_kstack _ _ _ _ _ _ Hc) as (K1 & K2 & K3 & K4). cbn in Hu0, Hv0, K4.
  eapply (freevm_ok kend Hkend); [exact Hv|exact Hu|]. intros s' l' Hk' Hl' Ho'. setoid_rewrite He in Hl'.
  assert (Hold : ∀ w, w ∈ l' → w ∈ l ∨ w ∉ l0 ∧ page_ok kend w ∧ w ≠ p_kstack x).
  { intros w [?|[Hw|(q & Hq & Hp & ->)]]%Hl'; [by left|right..].
    - split_and!; [intros Hin; by apply (vi_dis _ _ _ _ _ Hv0 w)|eapply own_page; [apply Hv0|done]|by intros ->].
    - destruct (us_page _ _ _ _ _ _ _ Hu0 q Hq Hp) as (U1 & _ & U3). split_and!; [done|done|]. intros E. by apply (K4 q). }
  assert (Hnew : ∀ w, w ∈ l' → page_ok kend w ∧ w ∉ own d T ∧ ∀ q, 0 ≤ q < np → w ≠ frame (entry (k_mem s) T q)).
  { intros w [Hw|(Hn & Hpg & _)]%Hold.
    - split_and!; [apply Hfree, (im_count _ _ _ _ _ _ _ _ _ _ _ Hi); by left|by apply (vi_dis _ _ _ _ _ (im_inv _ _ _ _ _ _ _ _ _ _ _ Hi))|].
      intros q Hq ->. by destruct (image_frame _ _ _ _ _ _ _ _ _ _ _ q Hi Hq) as (_ & _ & ? & _).
    - split_and!; [done| |]; [intros Hin; apply Hn, (im_count _ _ _ _ _ _ _ _ _ _ _ Hi); tauto|].
      intros q Hq ->. by destruct (image_frame _ _ _ _ _ _ _ _ _ _ _ q Hi Hq) as (_ & _ & _ & ?). }
  destruct (space_after kend kdata m0 l0 d np fl img s l T s' l' (list_to_set l') Hi Hk' Ho') as [Hsp He'].
  { intros w Hw%elem_of_list_to_set. by apply Hnew. }
  { intros w Hw. by apply Hnew. }
  apply (HQ s' l' Hsp).
  - intros w. assert (Hfr : (∃ q, 0 ≤ q < 2 ^ 19 ∧ present (entry (k_mem s') T q) ∧ w = frame (entry (k_mem s') T q)) ↔ ∃ q, 0 ≤ q < np ∧ w = frame (entry (k_mem s) T q)).
    { pose proof (im_np _ _ _ _ _ _ _ _ _ _ _ Hi) as Hnp. split.
      - intros (q & Hq & Hp & ->). exists q. destruct (decide (q < np)); [split; [lia|by rewrite He' by lia]|]. by destruct (sp_none _ _ _ _ _ _ _ _ _ Hsp q ltac:(lia)).
      - intros (q & Hq & ->). exists q. split_and!; [lia|lia|by apply (sp_page _ _ _ _ _ _ _ _ _ Hsp)|by rewrite He']. }
    unfold pages_of. rewrite Hfr, Hl', (im_count _ _ _ _ _ _ _ _ _ _ _ Hi). tauto.
  - intros a Ha. apply Ho'. apply (out_of kend _ (p_kstack x)); [done|intros p Hp%elem_of_list_to_set; by apply Hnew| |done].
    intros Hin%elem_of_list_to_set. destruct (Hold _ Hin) as [Hw|(_ & _ & ?)]; [|done]. apply K2, (im_count _ _ _ _ _ _ _ _ _ _ _ Hi). by left.
Qed.

Lemma exec_commit_ok m0 d sz img' s l T f data e img (Q : Z → pst F → Prop) : let top := PGSIZE * (npg sz + 2) in
  image m0 l0 d (npg sz + 2) (guarded (npg sz)) img' s l T → same_out {[p_kstack x]} (k_mem k0) m0 → d ≠ 0 →
  fs_file path = Some data → program data = Some (e, sz, img) → 0 ≤ e < 2 ^ 32 → 0 ≤ stack_ptr top strs < 2 ^ 32 →
  stack_ok img' top strs → top - PGSIZE ≤ stack_ptr top strs → (∀ va, 0 ≤ va < PGSIZE * npg sz → img' va = img va) →
  (∀ t' s', replaced s0 cur x Told path strs (Pst t' i0 n0 fi lk s' f) → Q 0 (Pst t' i0 n0 fi lk s' f)) →
  runs (exec_commit kend cur path d top (stack_ptr top strs) e) Q (Pst t i0 n0 fi lk s f).
Proof using Hkend Hdata Hfree Hc.
  intros top Hi Hm Hd Hfile Hprog He Hsp Hstk Hfit Himg HQ. pose proof (ca_slot _ _ _ _ _ _ Hc) as Hx. cbn in Hx. pose proof (lookup_lt_Some _ _ _ Hx) as Hlt.
  destruct (ca_tf _ _ _ _ _ _ Hc) as [Htf1 Htf2]. unfold SIZEOF_TRAPFRAME in Htf2. unfold exec_commit, mem_mod.
  assert (Et : t = <[cur := x]> t) by by rewrite list_insert_id. rewrite Et at 1. kstep. apply runs_upd_slot; [done|]. kstep. apply runs_getp_slot; [done|].
  kstep. apply runs_upd_slot; [done|]. kstep. apply runs_upd_slot; [done|]. kstep. apply runs_k. kstep. kstep. apply runs_k. kstep. cbn [p_tf set_pname].
  destruct (image_kstack _ _ _ _ _ _ _ _ (p_tf x + tf_eip) e Hi Hm ltac:(unfold tf_eip; lia) ltac:(unfold tf_eip; lia)) as [Hi1 Hm1].
  destruct (image_kstack _ _ _ _ _ _ _ _ (p_tf x + tf_esp) (stack_ptr top strs) Hi1 Hm1 ltac:(unfold tf_esp; lia) ltac:(unfold tf_esp; lia)) as [Hi2 Hm2].
  cbn [k_mem set_kmem] in Hi2. kstep. unfold switchuvm. kstep. apply runs_getp_slot; [done|]. cbn [p_kstack p_pgdir set_psz set_ppgdir set_pname].
  destruct (ca_kstack _ _ _ _ _ _ Hc) as (K1 & _). destruct (page_ok_pos _ _ K1) as [Hk0 _].
  kstep. kstep; [by apply negb_true_iff, Z.eqb_neq|]. kstep; [by apply negb_true_iff, Z.eqb_neq|]. kstep. apply runs_k.
  eapply (drop_old _ _ _ _ _ _ _ _ _ Hi2 Hm2). intros s' l' Hspace Hpages Hstay. kstep.
  apply HQ. cbn. exists data, e, sz, img, d, img', l', T. split; [done|]. split; [done|]. split_and!; try done.
  - erewrite ld32_ext; [|intros b Hb; apply Hstay; unfold tf_eip in *; lia]. cbn [k_mem set_kmem]. rewrite ld32_st32_ne by (unfold tf_eip, tf_esp; lia).
    rewrite ld32_st32_eq. by apply u32_small.
  - erewrite ld32_ext; [|intros b Hb; apply Hstay; unfold tf_esp in *; lia]. cbn [k_mem set_kmem]. rewrite ld32_st32_eq. by apply u32_small.
Qed.

(** How [exec] ends. *)
Definition outcome (r : Z) (s' : pst F) : Prop :=
  fs_idle (s_f s') ∧ (s_initproc s', s_nextpid s', s_first s', s_lk s') = (i0, n0, fi, lk) ∧
  (r = -1 ∧ left_alone s0 x s' ∧ refused path strs ∨ r = 0 ∧ replaced s0 cur x Told path strs s').

Lemma outcome_bad s f : refused path strs → left_alone s0 x (Pst t i0 n0 fi lk s f) → fs_idle f → outcome (-1) (Pst t i0 n0 fi lk s f).
Proof. intros Hr Hl Hf. split_and!; [done|done|left; done]. Qed.

(** The loading of a file that was found, with its inode locked. *)
Lemma exec_load f ip data : fs_locked ip data f → fs_file path = Some data →
  runs ('(r, elf) ← on_f (xf_readi ip 0 sizeof_elfhdr);
      if negb (r =? sizeof_elfhdr) then exec_bad kend 0 (Some ip)
      else if negb (elf_magic elf =? ELF_MAGIC) then exec_bad kend 0 (Some ip)
      else
        pgdir ← on_k (setupkvm kend kdata);
        if pgdir =? 0 then exec_bad kend 0 (Some ip)
        else
          r ← exec_segments kend ip pgdir (elf_phoff elf) 0 (Z.to_nat (elf_phnum elf));
          match r with
          | None => exec_bad kend pgdir (Some ip)
          | Some sz =>
              on_f (xf_iunlockput ip);;
              on_f xf_end_op;;
              r ← exec_stack kend ustack cur pgdir sz argv;
              match r with
              | None => exec_bad kend pgdir None
              | Some (sz, sp) => exec_commit kend cur path pgdir sz sp (elf_entry elf)
              end
          end) outcome (Pst t i0 n0 fi lk k0 f).
Proof using Hkend Hdata Halign Hfree Hnodup Hc.
  intros Hf Hfile. destruct (fs_bytes _ _ Hfile) as [Hbytes Hlen]. pose proof (ca_vm _ _ _ _ _ _ Hc) as Hv0. cbn in Hv0. pose proof (vi_k _ _ _ _ _ Hv0) as Hk0.
  assert (Hse : sizeof_elfhdr = 52) by done. kstep. apply runs_f. eapply xf_readi_ok; [exact Hf|lia|lia|]. intros f1 Hf1.
  pose proof (read_part data 0 sizeof_elfhdr ltac:(lia) ltac:(lia) Hlen) as Hrp.
  pose proof (program_parts data) as Hprog.
  assert (Hearly : refused path strs → runs (exec_bad kend 0 (Some ip)) outcome (Pst t i0 n0 fi lk k0 f1)).
  { intros Hr. eapply exec_bad_early; [exact Hf1|exact Hk0|done|done|]. intros s' f' Hl' Hf'. by apply outcome_bad. }
  assert (Hno : program data = None → refused path strs) by (intros Hn dt e sz img Hd Hp; rewrite Hfile in Hd; injection Hd as <-; by rewrite Hn in Hp).
  destruct (file_part data 0 sizeof_elfhdr) as [elf|] eqn:Eelf.
  2:{ destruct (read_spec _ _ _) as [r b]. simpl in Hrp. replace (r =? sizeof_elfhdr) with false by (symmetry; by apply Z.eqb_neq). cbn [negb].
      apply Hearly, Hno. unfold program. by rewrite Eelf. }
  rewrite Hrp, Z.eqb_refl. cbn [negb]. destruct (Z.eqb_spec (elf_magic elf) ELF_MAGIC) as [Em|Em]; cbn [negb].
  2:{ apply Hearly, Hno. unfold program. rewrite Eelf. cbn [mbind option_bind]. by rewrite (proj2 (Z.eqb_neq _ _)). }
  assert (Helf : Forall (λ y, 0 ≤ y < 2 ^ 8) elf). { unfold file_part in Eelf. destruct (_ <=? _); [|done]. injection Eelf as <-. by apply Forall_take, Forall_drop. }
  kstep. apply runs_k. eapply (setupkvm_ok kend kdata Hkend Hdata Halign); [exact Hk0| |].
  { intros s' l' Hk' Hl' Hm' Hfew. change (0 =? 0) with true. cbv iota. eapply exec_bad_early; [exact Hf1|exact Hk'|done|done|].
    intros s2 f2 Hl2 Hf2. apply outcome_bad; [|done|done]. intros dt e sz img Hd Hp top. right. left. rewrite Hfile in Hd. injection Hd as <-.
    apply Hprog in Hp as (elf' & _ & Hseg). pose proof (segments_mono _ _ _ _ _ _ _ Hseg). pose proof (npg_mono 0 sz ltac:(lia)) as Hn. change (npg 0) with 0 in Hn. lia. }
  intros d s1 l1 T1 Hd Hv1 Hc1 Hker1 Hm1. pose proof (image_start kend kdata Hdata Halign (k_mem k0) l0 d user7 (λ _, 0) s1 l1 T1 Hv1 Hc1 Hker1 Hm1) as Hi1.
  rewrite (proj2 (Z.eqb_neq d 0)) by done. kstep. eapply (exec_segments_ok (k_mem k0) d ip data t i0 n0 fi lk Hbytes Hlen _ (elf_phoff elf) 0 (λ _, 0) s1 l1 T1 f1); [done|done|done|by apply bytes_get32|done| |].
  { intros np' img' s' l' T' f' Hi' Hf' Hshort. eapply exec_bad_ok; [exact Hi'|done|done|by exists data|]. intros s2 f2 Hl2 Hf2. apply outcome_bad; [|done|done].
    intros dt e sz img Hdt Hp top. right. left. rewrite Hfile in Hdt. injection Hdt as <-. apply Hprog in Hp as (elf' & [= <-] & Hseg). pose proof (Hshort _ _ Hseg). lia. }
  intros sz img s2 l2 T2 f2 Hseg Hsz Hi2 Hends Hf2. kstep. apply runs_f. eapply xf_iunlockput_ok; [exact Hf2|]. intros f3 Hf3. kstep. apply runs_f. eapply xf_end_ok; [exact Hf3|]. intros f4 Hf4.
  assert (Hp : program data = Some (elf_entry elf, sz, img)).
  { unfold program. rewrite Eelf. cbn [mbind option_bind]. rewrite (proj2 (Z.eqb_eq _ _) Em), Hseg. done. }
  destruct (ca_kstack _ _ _ _ _ _ Hc) as (K1 & K2 & _). destruct (ca_ustack _ _ _ _ _ _ Hc) as [U1 U2].
  kstep. eapply (exec_stack_ok t cur x i0 n0 fi lk f4 (ca_slot _ _ _ _ _ _ Hc) K1 K2 U1 U2 (k_mem k0)); [exact Hi2|done|done|apply Hc|apply Hc|apply Hc| |].
  - intros m5 np' fl' img' s5 l5 T5 Hi5 Hs5 Hr. eapply exec_bad_ok; [exact Hi5|by apply same_but_out|done|done|]. intros s6 f6 Hl6 Hf6. apply outcome_bad; [|done|done].
    intros dt e sz' img2 Hdt Hp2 top. rewrite Hfile in Hdt. injection Hdt as <-. rewrite Hp in Hp2. by injection Hp2 as <- <- <-.
  - intros m5 img' s5 l5 T5 Hi5 Hs5 Htop Hmax Hfit Hstk Himg. eapply exec_commit_ok; [exact Hi5|by apply same_but_out|done|exact Hfile|exact Hp|by apply bytes_get32| |done|done| |].
    + unfold KERNBASE in Htop. pose proof (npg_range sz ltac:(unfold KERNBASE in *; lia)). assert (HG : PGSIZE = 4096) by done.
      assert (Hm4 : (PGSIZE * (npg sz + 2)) mod 4 = 0). { rewrite HG. replace (4096 * (npg sz + 2)) with (1024 * (npg sz + 2) * 4) by lia. by apply Z.mod_mul. }
      destruct (lowest_range strs _ Hm4) as [? _]. unfold stack_ptr in *. lia.
    + intros va Hva. apply Himg. unfold PGSIZE in *. lia.
    + intros t' s6 Hrep. split_and!; [done|done|right; done].
Qed.

Lemma exec_ok : fs_idle f0 → runs (exec kend kdata ustack cur path argv) outcome s0.
Proof using Hkend Hdata Halign Hfree Hnodup Hc.
  intros Hidle. unfold exec. kstep. apply runs_f. eapply xf_begin_ok; [done|]. intros f1 Hf1. kstep. apply runs_f. eapply xf_namei_ok; [done| |].
  - intros f2 Hf2 Hnone. kstep. apply runs_f. eapply xf_end_ok; [done|]. intros f3 Hf3. kstep. apply outcome_bad; [|split; [done|]|done].
    + intros data e sz img Hd. by rewrite Hnone in Hd.
    + exists l0. split_and!; [apply (ca_vm _ _ _ _ _ _ Hc)|done|apply same_out_refl].
  - intros f2 ip data Hf2 Hnamed Hfile. kstep. apply runs_f. eapply xf_ilock_ok; [done|done|]. intros f3 Hf3. by eapply exec_load.
Qed.
End whole.
End exec.

(** C27. [exec] runs a program or changes nothing.  For a process with a well-formed
    address space and arguments that with their pointers fit in two pages, each no
    longer than the process, and whatever the file system holds under the path, [exec]
    returns,
    outside of any file system operation and with no inode locked.  Either it
    returns 0 and the process has a new address space made of pages that were free:
    the segments of the ELF file at their addresses with zeros after them, a page
    that the user cannot access, and a stack page with [argc], [argv] and the
    argument strings where [main] expects them; the trap frame has the entry point
    and the stack pointer, and every page of the old address space is free again.
    Or it returns -1, and then the table of processes, the free pages and all of
    memory but the free pages and the kernel stack are as before; it does that only
    when there is no such file, the file is not a loadable program, memory or the
    address space does not suffice, or the arguments are too many or too long. *)
Theorem exec_replaces_or_leaves_alone {F I : Type} `{!ExecFs F I, !ExecFsSpec F I} kend kdata ustack l s cur x Told argv strs path :
  KERNBASE < kend → KERNLINK < kdata < KERNBASE + PHYSTOP → kdata mod PGSIZE = 0 →
  caller kend ustack l s cur x Told argv strs → fs_idle (s_f s) →
  runs (exec kend kdata ustack cur path argv)
    (λ r s', fs_idle (s_f s') ∧ (r = -1 ∧ left_alone kend l s x s' ∧ refused l path strs ∨
       r = 0 ∧ replaced kend kdata l s cur x Told path strs s')) s.
Proof.
  intros Hkend Hdata Halign Hc Hf. pose proof (vi_k _ _ _ _ _ (ca_vm _ _ _ _ _ _ _ _ _ Hc)) as Hk. destruct s as [t i0 n0 fi lk k0 f0].
  eapply runs_mono; [apply (exec_ok kend kdata ustack Hkend Hdata Halign l); [|apply Hk|exact Hc|exact Hf]|].
  - intros v Hv. by eapply Forall_forall in Hv; [|eapply chain_pages, Hk].
  - intros r s' (H1 & _ & H2). done.
Qed.

(** ** An example *)

(** A file system with the one file [/a], a program of 8 bytes in one segment, four
    of them in the file; the state tells how far an operation is. *)
Definition toy_data : list Z :=
  [127; 69; 76; 70] ++ replicate 20 0 ++ le32 4 ++ le32 52 ++ replicate 12 0 ++ [1; 0] ++ replicate 6 0 ++
  le32 1 ++ le32 84 ++ le32 0 ++ le32 0 ++ le32 4 ++ le32 8 ++ le32 0 ++ le32 0 ++ [1; 2; 3; 4].

Definition toy_path : list Z := [47; 97].

#[local] Instance toy_fs : ExecFs nat unit := {|
  xf_begin_op := kmod (λ _, 1%nat);
  xf_end_op := kmod (λ _, 0%nat);
  xf_namei path := mret (if decide (path = toy_path) then Some tt else None);
  xf_ilock _ := kmod (λ _, 2%nat);
  xf_readi _ off n := mret (read_spec toy_data off n);
  xf_iunlockput _ := kmod (λ _, 1%nat)
|}.

#[local] Instance toy_spec : ExecFsSpec nat unit.
Proof.
  refine {|
    fs_file path := if decide (path = toy_path) then Some toy_data else None;
    fs_idle f := f = 0%nat;
    fs_op f := f = 1%nat;
    fs_named _ _ data := data = toy_data;
    fs_locked _ data f := data = toy_data ∧ f = 2%nat
  |}.
  - intros f Q _ HQ. simpl. kstep. by apply HQ.
  - intros f Q _ HQ. simpl. kstep. by apply HQ.
  - intros f path Q -> H1 H2. simpl. kstep. case_decide; [by eapply H2|by apply H1].
  - intros f ip data Q _ -> HQ. simpl. kstep. by apply HQ.
  - intros f ip data off n Q [-> ->] _ _ HQ. simpl. kstep. by apply HQ.
  - intros f ip data Q _ HQ. simpl. kstep. by apply HQ.
  - intros path data. case_decide; [|done]. intros [= <-]. split; [|by vm_compute]. apply (bool_decide_unpack _). by vm_compute.
Defined.

(** The process of the small machine of [VmProps], with a kernel stack. *)
Definition toy_kstack : Z := 0x80403000.
Definition toy_proc : proc := Proc 4096 m_dir toy_kstack RUNNING 1 None (toy_kstack + 4000) 0 0 false [] 0 [].
Definition toy_state (k : kst) : pst nat := Pst [toy_proc] None 2 false (Lkst (λ _, Cpu true 0 false) ∅) k 0%nat.

Lemma m_entry_other m q : m_same m → 0 < q < 2 ^ 19 → entry m m_T q = 0.
Proof.
  intros Hs Hq. unfold entry, m_T. destruct (decide (q / NPTENTRIES = 0)) as [E|E]; [rewrite E, lookup_singleton_eq|by rewrite lookup_singleton_ne].
  unfold NPTENTRIES in *. pose proof (Z.div_mod q 1024 ltac:(lia)). pose proof (Z.mod_pos_bound q 1024 ltac:(lia)). assert (Eq : q mod 1024 = q) by lia. rewrite Eq.
  rewrite (ld32_ext _ m_mem) by (intros b Hb; apply Hs; unfold m_tab, m_free in *; lia).
  unfold m_mem. rewrite !ld32_st32_ne by (unfold m_dir, m_tab; lia). unfold ld32. rewrite !rd_wr_ne by (unfold m_tab, m_page; lia). done.
Qed.

Lemma m_user m l : m_same m → (∀ v, v ∈ l → m_free ≤ v) → user_ok m_kend m l m_dir m_T 0 (2 ^ 19).
Proof.
  intros Hs Hl. assert (Hpg : page_ok m_kend m_page) by (by apply m_page_ok).
  destruct (page_entry m_kend m_page 7 Hpg ltac:(done)) as (_ & _ & _ & Hfr & _). cbv zeta in Hfr.
  assert (H0 : ∀ q, 0 ≤ q < 2 ^ 19 → present (entry m m_T q) → q = 0).
  { intros q Hq Hp. destruct (decide (q = 0)); [done|]. rewrite (m_entry_other _ _ Hs) in Hp by lia. by destruct not_present_0. }
  split.
  - intros q Hq Hp. pose proof (H0 q Hq Hp) as ->. rewrite (m_entry _ Hs), Hfr. split_and!; [done| |].
    + rewrite m_own. unfold m_page, m_dir, m_tab. rewrite elem_of_union, !elem_of_singleton. lia.
    + intros Hin%Hl. unfold m_free, m_page in *. lia.
  - intros q q' Hq Hq' Hp Hp' _. by rewrite (H0 q Hq Hp), (H0 q' Hq' Hp').
Qed.

Lemma toy_caller k l : kinv m_kend k l → m_same (k_mem k) → (∀ v, v ∈ l → m_free ≤ v) →
  caller m_kend toy_kstack l (toy_state k) 0 toy_proc m_T [16] [[]].
Proof.
  intros Hk Hs Hl. assert (Hpg : page_ok m_kend m_page) by (by apply m_page_ok).
  destruct (page_entry m_kend m_page 7 Hpg ltac:(done)) as (_ & _ & _ & Hfr & _). cbv zeta in Hfr. split; cbn [s_k s_proc toy_state p_pgdir toy_proc p_kstack p_tf p_sz].
  - done.
  - split; [done|by apply m_pt|]. intros v Hin. apply m_dis, Hl, Hin.
  - by apply m_user.
  - split_and!; [by apply m_page_ok|intros Hin%Hl; unfold m_free, toy_kstack in *; lia| |].
    + rewrite m_own. unfold toy_kstack, m_dir, m_tab. rewrite elem_of_union, !elem_of_singleton. lia.
    + intros q Hq Hp. destruct (decide (q = 0)) as [-> |]; [rewrite (m_entry _ Hs), Hfr; done|].
      rewrite (m_entry_other _ _ Hs) in Hp by lia. by destruct not_present_0.
  - by vm_compute.
  - by vm_compute.
  - constructor; [|constructor]. split; [done| |constructor]. intros i Hi. cbn [length] in Hi. replace i with 0 by lia. rewrite Hs by (unfold m_free; lia). by vm_compute.
  - constructor; [by vm_compute|constructor].
  - by vm_compute.
Qed.

Lemma exec_replaces_or_leaves_alone_witness :
  ∃ k, runs (exec m_kend m_kdata toy_kstack 0 toy_path [16]) (λ r s', r = 0 ∧ ∃ y, s_proc s' = [y] ∧ p_sz y = 12288) (toy_state k).
Proof.
  destruct (m_machine_of 2400 ltac:(lia)) as (k & l & Hk & Hm & Hl & Hv). exists k. eapply runs_mono.
  { apply (exec_replaces_or_leaves_alone m_kend m_kdata toy_kstack l (toy_state k) 0 toy_proc m_T [16] [[]] toy_path ltac:(done) ltac:(done) ltac:(done)).
    - by apply toy_caller.
    - done. }
  assert (Hp : ∃ img, program toy_data = Some (4, 8, img)) by (eexists; vm_compute; reflexivity). destruct Hp as [img Hp].
  intros r s' [_ [(-> & _ & Hr)|(-> & data & e & sz & img' & d & img2 & l' & T & Hf & Hp' & Ht & _)]].
  - exfalso. specialize (Hr toy_data 4 8 img eq_refl Hp). change (npg 8) with 1 in Hr. cbv zeta in Hr. destruct Hr as [Hr|[Hr|[Hr|Hr]]]; [unfold KERNBASE, PGSIZE in Hr; lia|rewrite Hl in Hr; lia|cbn [length] in Hr; unfold MAXARG in Hr; lia|vm_compute in Hr; congruence].
  - split; [done|]. simpl in Hf. injection Hf as <-. rewrite Hp in Hp'. injection Hp' as <- <- <-. eexists. split; [exact Ht|reflexivity].
Defined.
