(* ===== verification/Console.v ===== *)
(** * The console: [xv6/console.c] and the output half of [xv6/uart.c]

    Characters come from the keyboard or the serial port into a line that can be
    edited, and go out to the serial port and to the screen.  What runs with
    [cons.lock] held, up to a release or a [sleep], is one step. *)

From S2P Require Import Prelude.

Definition BACKSPACE : Z := 0x100.
Definition INPUT_BUF : Z := 128.

(** [C(x)]. *)
Definition C (x : Z) : Z := x - 64.

(** The screen memory and its cursor, the serial port with what was sent to it, and
    [input]; [c_wakeups] counts the calls of [wakeup(&input.r)]. *)
Record con := Con {
  c_panicked : bool;
  c_crt : list Z;
  c_pos : Z;
  c_uart : bool;
  c_sent : list Z;
  c_buf : list Z;
  c_r : Z;
  c_w : Z;
  c_e : Z;
  c_wakeups : nat
}.

Definition set_crt (f : list Z → list Z) (s : con) : con :=
  Con (c_panicked s) (f (c_crt s)) (c_pos s) (c_uart s) (c_sent s) (c_buf s) (c_r s) (c_w s) (c_e s) (c_wakeups s).
Definition set_pos (x : Z) (s : con) : con :=
  Con (c_panicked s) (c_crt s) x (c_uart s) (c_sent s) (c_buf s) (c_r s) (c_w s) (c_e s) (c_wakeups s).
Definition set_sent (f : list Z → list Z) (s : con) : con :=
  Con (c_panicked s) (c_crt s) (c_pos s) (c_uart s) (f (c_sent s)) (c_buf s) (c_r s) (c_w s) (c_e s) (c_wakeups s).
Definition set_cbuf (f : list Z → list Z) (s : con) : con :=
  Con (c_panicked s) (c_crt s) (c_pos s) (c_uart s) (c_sent s) (f (c_buf s)) (c_r s) (c_w s) (c_e s) (c_wakeups s).
Definition set_r (x : Z) (s : con) : con :=
  Con (c_panicked s) (c_crt s) (c_pos s) (c_uart s) (c_sent s) (c_buf s) x (c_w s) (c_e s) (c_wakeups s).
Definition set_w (x : Z) (s : con) : con :=
  Con (c_panicked s) (c_crt s) (c_pos s) (c_uart s) (c_sent s) (c_buf s) (c_r s) x (c_e s) (c_wakeups s).
Definition set_e (x : Z) (s : con) : con :=
  Con (c_panicked s) (c_crt s) (c_pos s) (c_uart s) (c_sent s) (c_buf s) (c_r s) (c_w s) x (c_wakeups s).
Definition wakeup_r : K con unit := kmod (λ s,
  Con (c_panicked s) (c_crt s) (c_pos s) (c_uart s) (c_sent s) (c_buf s) (c_r s) (c_w s) (c_e s) (S (c_wakeups s))).

(** ** Output *)

(** [uartputc]: the wait for the port only passes time. *)
Definition uartputc (c : Z) : K con unit :=
  s ← kget;
  if negb (c_uart s) then mret tt else kmod (set_sent (λ l, l ++ [u8 c])).

(** [cgaputc]; the cursor is two registers of 8 bits. *)
Definition cgaputc (c : Z) : K con unit :=
  s ← kget;
  let pos := c_pos s in
  pos ← (if c =? 10 then mret (pos + (80 - pos mod 80))
         else if c =? BACKSPACE then mret (if 0 <? pos then pos - 1 else pos)
         else
           kmod (set_crt (<[Z.to_nat pos := Z.lor (Z.land c 0xff) 0x0700]>));;
           mret (pos + 1));
  kassert (negb ((pos <? 0) || (25 * 80 <? pos))) "pos under/overflow";;
  pos ← (if 24 <=? pos / 80 then
           kmod (set_crt (λ crt, take (23 * 80) (drop 80 crt) ++ drop (23 * 80) crt));;
           let pos := pos - 80 in
           kmod (set_crt (λ crt, take (Z.to_nat pos) crt ++ replicate (Z.to_nat (24 * 80 - pos)) 0 ++ drop (24 * 80) crt));;
           mret pos
         else mret pos);
  kmod (set_pos (u16 pos));;
  kmod (set_crt (<[Z.to_nat pos := Z.lor 32 0x0700]>)).

Definition consputc (c : Z) : K con unit :=
  s ← kget;
  if c_panicked s then khang
  else
    (if c =? BACKSPACE then uartputc 8;; uartputc 32;; uartputc 8 else uartputc c);;
    cgaputc c.

(** ** Formatted output *)

Definition digits : list Z := [48; 49; 50; 51; 52; 53; 54; 55; 56; 57; 97; 98; 99; 100; 101; 102].

(** The [do] loop of [printint], with what is in [buf]. *)
Fixpoint put_digits (ds : list Z) (fuel : nat) (x base : Z) (buf : list Z) : list Z :=
  match fuel with
  | O => buf
  | S fuel' =>
      let buf := buf ++ [ds !!! Z.to_nat (x mod base)] in
      if x / base =? 0 then buf else put_digits ds fuel' (x / base) base buf
  end.

(** [buf] before it is printed backwards. *)
Definition int_buf (ds : list Z) (xx base : Z) (sign : bool) : list Z :=
  let neg := sign && (xx <? 0) in
  let x := if neg then u32 (- xx) else u32 xx in
  let buf := put_digits ds 33 x base [] in
  if neg then buf ++ [45] else buf.

(** Each of a list of characters. *)
Fixpoint each {S} (f : Z → K S unit) (l : list Z) : K S unit :=
  match l with
  | [] => mret tt
  | c :: l' => f c;; each f l'
  end.

Definition printint (xx base : Z) (sign : bool) : K con unit := each consputc (rev (int_buf digits xx base sign)).

Section cprintf.
(** The words after [fmt] on the stack, and the string at an address. *)
Context (args : nat → Z) (str : Z → list Z).

Definition null_string : list Z := [40; 110; 117; 108; 108; 41].

Fixpoint cprintf_loop (fmt : list Z) (argp : nat) : K con unit :=
  match fmt with
  | [] => mret tt
  | c :: fmt =>
      if negb (c =? 37) then consputc c;; cprintf_loop fmt argp
      else
        match fmt with
        | [] => mret tt
        | c :: fmt =>
            if c =? 100 then printint (s32 (args argp)) 10 true;; cprintf_loop fmt (S argp)
            else if (c =? 120) || (c =? 112) then printint (s32 (args argp)) 16 false;; cprintf_loop fmt (S argp)
            else if c =? 115 then
              each consputc (if args argp =? 0 then null_string else str (args argp));;
              cprintf_loop fmt (S argp)
            else if c =? 37 then consputc 37;; cprintf_loop fmt argp
            else consputc 37;; consputc c;; cprintf_loop fmt argp
        end
  end.

(** [None] is a null pointer. *)
Definition cprintf (fmt : option (list Z)) : K con unit :=
  match fmt with
  | Some fmt => cprintf_loop fmt 0
  | None => kpanic "null fmt"
  end.
End cprintf.

(** ** Input *)

(** The loop of [C('U')]. *)
Fixpoint kill_line (fuel : nat) : K con unit :=
  match fuel with
  | O => khang
  | S fuel' =>
      s ← kget;
      if negb (c_e s =? c_w s) && negb (c_buf s !!! Z.to_nat (u32 (c_e s - 1) mod INPUT_BUF) =? 10) then
        kmod (set_e (u32 (c_e s - 1)));;
        consputc BACKSPACE;;
        kill_line fuel'
      else mret tt
  end.

(** One round of the loop of [consoleintr]: whether [procdump] was asked for. *)
Definition consoleintr_char (c : Z) : K con bool :=
  if c =? C 80 then mret true
  else if c =? C 85 then kill_line (S (Z.to_nat INPUT_BUF));; mret false
  else if (c =? C 72) || (c =? 0x7f) then
    s ← kget;
    (if negb (c_e s =? c_w s) then kmod (set_e (u32 (c_e s - 1)));; consputc BACKSPACE else mret tt);;
    mret false
  else
    s ← kget;
    (if negb (c =? 0) && (u32 (c_e s - c_r s) <? INPUT_BUF) then
       let c := if c =? 13 then 10 else c in
       kmod (set_cbuf (<[Z.to_nat (c_e s mod INPUT_BUF) := u8 c]>));;
       kmod (set_e (u32 (c_e s + 1)));;
       consputc c;;
       s ← kget;
       if (c =? 10) || (c =? C 68) || (c_e s =? u32 (c_r s + INPUT_BUF)) then
         kmod (set_w (c_e s));;
         wakeup_r
       else mret tt
     else mret tt);;
    mret false.

(** [consoleintr] with the characters that [getc] returns until it has none. *)
Fixpoint consoleintr (cs : list Z) (doprocdump : bool) : K con bool :=
  match cs with
  | [] => mret doprocdump
  | c :: cs' => b ← consoleintr_char c; consoleintr cs' (doprocdump || b)
  end.

(** How [consoleread] stops: it returns, with the bytes read, or it sleeps with
    [n] bytes still wanted. *)
Inductive cread := CRet (r : Z) (dst : list Z) | CSleep (n : nat) (dst : list Z).

(** The loops of [consoleread]: [n] bytes of [target] are wanted, [dst] were read. *)
Fixpoint consoleread_loop (killed : bool) (target n : nat) (dst : list Z) : K con cread :=
  match n with
  | O => mret (CRet (Z.of_nat target) dst)
  | S n' =>
      s ← kget;
      if c_r s =? c_w s then
        if killed then mret (CRet (-1) dst) else mret (CSleep n dst)
      else
        let c := c_buf s !!! Z.to_nat (c_r s mod INPUT_BUF) in
        kmod (set_r (u32 (c_r s + 1)));;
        if c =? C 68 then
          (if decide (n < target)%nat then kmod (set_r (u32 (u32 (c_r s + 1) - 1))) else mret tt);;
          mret (CRet (Z.of_nat target - Z.of_nat n) dst)
        else if c =? 10 then mret (CRet (Z.of_nat target - Z.of_nat n') (dst ++ [c]))
        else consoleread_loop killed target n' (dst ++ [c])
  end.

Definition consoleread (killed : bool) (n : nat) : K con cread := consoleread_loop killed n n [].

Definition consolewrite (buf : list Z) : K con Z :=
  each (λ c, consputc (Z.land c 0xff)) buf;;
  mret (Z.of_nat (length buf)).
