(* ===== verification/ConsoleProps.v ===== *)
(** * The console as a line editor

    [consoleintr] and [consoleread] share a ring of 128 characters with three indices
    that grow modulo [2 ^ 32].  What they promise is told on two lists: the characters
    of finished lines, which readers take from the front, and the line being edited.
    The section on output gives the bounds of the screen and the digits of numbers;
    the last one composes the keyboard with the console. *)

From S2P Require Import Prelude Ring Console.

(** ** The line editor *)

(** Finished characters and the line being edited. *)
Record editor := Editor { ed_done : list Z; ed_line : list Z }.

(** What a character does to the editor. *)
Definition ed_char (a : editor) (c : Z) : editor :=
  if c =? C 80 then a
  else if c =? C 85 then Editor (ed_done a) []
  else if (c =? C 72) || (c =? 0x7f) then Editor (ed_done a) (removelast (ed_line a))
  else if (c =? 0) || bool_decide (INPUT_BUF ≤ Z.of_nat (length (ed_done a ++ ed_line a))) then a
  else
    let c := if c =? 13 then 10 else c in
    let line := ed_line a ++ [c] in
    if (c =? 10) || (c =? C 68) || bool_decide (Z.of_nat (length (ed_done a ++ line)) = INPUT_BUF)
    then Editor (ed_done a ++ line) []
    else Editor (ed_done a) line.

(** What is sent to the serial port for an echo. *)
Definition echo1 (c : Z) : list Z := if c =? BACKSPACE then [8; 32; 8] else [u8 c].
Definition echo (l : list Z) : list Z := concat (map echo1 l).

(** What a character makes the console show. *)
Definition ed_shown (a : editor) (c : Z) : list Z :=
  if c =? C 80 then []
  else if c =? C 85 then replicate (length (ed_line a)) BACKSPACE
  else if (c =? C 72) || (c =? 0x7f) then if decide (ed_line a = []) then [] else [BACKSPACE]
  else if (c =? 0) || bool_decide (INPUT_BUF ≤ Z.of_nat (length (ed_done a ++ ed_line a))) then []
  else [if c =? 13 then 10 else c].

Fixpoint ed_shows (a : editor) (cs : list Z) : list Z :=
  match cs with
  | [] => []
  | c :: cs' => ed_shown a c ++ ed_shows (ed_char a c) cs'
  end.

(** A read that wants [n] bytes of [target], from the finished characters. *)
Fixpoint ed_read (killed : bool) (target n : nat) (q dst : list Z) : cread * list Z :=
  match n, q with
  | O, _ => (CRet (Z.of_nat target) dst, q)
  | S n', [] => (if killed then CRet (-1) dst else CSleep n dst, [])
  | S n', c :: q' =>
      if c =? C 68 then
        (CRet (Z.of_nat target - Z.of_nat n) dst, if decide (n < target)%nat then q else q')
      else if c =? 10 then (CRet (Z.of_nat target - Z.of_nat n') (dst ++ [c]), q')
      else ed_read killed target n' q' (dst ++ [c])
  end.

(** What happens to the console: an interrupt with the characters it brings, or a
    process that starts or resumes a read. *)
Inductive cevent :=
| Typed (cs : list Z)
| Read (killed : bool) (target n : nat) (dst : list Z).

Definition con_event (ev : cevent) : K con (option cread) :=
  match ev with
  | Typed cs => consoleintr cs false;; mret None
  | Read killed target n dst => r ← consoleread_loop killed target n dst; mret (Some r)
  end.

Fixpoint con_events (evs : list cevent) : K con (list (option cread)) :=
  match evs with
  | [] => mret []
  | ev :: evs' => r ← con_event ev; rs ← con_events evs'; mret (r :: rs)
  end.

Definition ed_event (a : editor) (ev : cevent) : option cread * editor :=
  match ev with
  | Typed cs => (None, foldl ed_char a cs)
  | Read killed target n dst =>
      let '(r, q) := ed_read killed target n (ed_done a) dst in (Some r, Editor q (ed_line a))
  end.

Fixpoint ed_events (a : editor) (evs : list cevent) : list (option cread) * editor :=
  match evs with
  | [] => ([], a)
  | ev :: evs' =>
      let '(r, a1) := ed_event a ev in
      let '(rs, a2) := ed_events a1 evs' in (r :: rs, a2)
  end.

Definition typed_bytes (ev : cevent) : Prop :=
  match ev with Typed cs => Forall (λ c, 0 ≤ c < 256) cs | Read _ _ _ _ => True end.

(** ** Output *)

(** The screen is where it should be and output goes on. *)
Record out_ok (s : con) : Prop := {
  oo_run : c_panicked s = false;
  oo_crt : length (c_crt s) = 2000%nat;
  oo_pos : 0 ≤ c_pos s < 2000
}.

(** Only output happened, and it was [l]. *)
Record shown (l : list Z) (s s' : con) : Prop := {
  sh_ok : out_ok s';
  sh_uart : c_uart s' = c_uart s;
  sh_sent : c_sent s' = if c_uart s then c_sent s ++ echo l else c_sent s;
  sh_buf : c_buf s' = c_buf s;
  sh_r : c_r s' = c_r s;
  sh_w : c_w s' = c_w s;
  sh_e : c_e s' = c_e s;
  sh_wakeups : c_wakeups s' = c_wakeups s
}.

Lemma shown_nil s : out_ok s → shown [] s s.
Proof. intros Ho. split; try done. simpl. unfold echo. simpl. rewrite app_nil_r. by destruct (c_uart s). Qed.

Lemma echo_app l l' : echo (l ++ l') = echo l ++ echo l'.
Proof. unfold echo. by rewrite map_app, concat_app. Qed.

Lemma shown_app l l' s s1 s2 : shown l s s1 → shown l' s1 s2 → shown (l ++ l') s s2.
Proof.
  intros [] []. split; try congruence. rewrite echo_app, sh_sent1, sh_uart0, sh_sent0.
  destruct (c_uart s); [by rewrite app_assoc|done].
Qed.

Lemma cgaputc_ok c s : out_ok s → runs (cgaputc c) (λ _ s', shown [] s s') s.
Proof.
  intros [Hp Hc Hpos]. unfold cgaputc. kstep. kstep. kstep.
  match goal with |- runs ?m _ _ =>
    assert (Hm : runs m (λ pos s', shown [] s s' ∧ 0 ≤ pos ≤ 2000) s) end.
  { pose proof (Z.mod_pos_bound (c_pos s) 80). pose proof (Z.div_mod (c_pos s) 80).
    assert (Hs : shown [] s s) by (by apply shown_nil).
    destruct (c =? 10); [|destruct (c =? BACKSPACE)].
    - kstep. split; [done|]. assert (c_pos s / 80 < 25) by (apply Z.div_lt_upper_bound; lia). lia.
    - kstep. split; [done|]. bdestruct_all; lia.
    - repeat kstep. split; [|lia]. destruct Hs. split; try done. split; try done. simpl. by rewrite length_insert. }
  eapply runs_mono; [exact Hm|]. intros pos s1 [Hs1 Hp1]. kstep. kstep.
  { bdestruct_all; simpl; try done; lia. }
  kstep.
  match goal with |- runs ?m _ _ =>
    assert (Hm2 : runs m (λ pos s', shown [] s s' ∧ 0 ≤ pos < 2000) s1) end.
  { destruct (Z.leb_spec 24 (pos / 80)) as [Hge|Hlt].
    - assert (1920 ≤ pos) by (pose proof (Z.mul_div_le pos 80); lia).
      repeat kstep. split; [|lia]. destruct Hs1 as [[]]. split; try done. split; try done. simpl.
      rewrite !length_app, !length_take, length_replicate, !length_drop, !length_app, !length_take, !length_drop. lia.
    - kstep. split; [done|]. assert (pos < 24 * 80) by (pose proof (Z.div_mod pos 80); pose proof (Z.mod_pos_bound pos 80); lia). lia. }
  eapply runs_mono; [exact Hm2|]. intros pos2 s2 [Hs2 Hp2]. repeat kstep.
  destruct Hs2 as [[]]. split; try done. split; simpl; [done|by rewrite length_insert|].
  unfold u16. rewrite Z.mod_small; lia.
Qed.

Lemma uartputc_ok c s : out_ok s → c ≠ BACKSPACE → runs (uartputc c) (λ _ s', shown [c] s s') s.
Proof.
  intros Ho Hc. unfold uartputc. kstep. kstep. destruct (c_uart s) eqn:E; simpl; kstep.
  - split; try done; [by destruct Ho|]. simpl. rewrite E. unfold echo, echo1. simpl.
    by rewrite (proj2 (Z.eqb_neq _ _) Hc), app_nil_r.
  - split; try done. by rewrite E.
Qed.

Lemma consputc_ok c s : out_ok s → runs (consputc c) (λ _ s', shown [c] s s') s.
Proof.
  intros Ho. unfold consputc. kstep. kstep. rewrite (oo_run _ Ho). kstep.
  assert (Hm : runs (if c =? BACKSPACE then uartputc 8;; uartputc 32;; uartputc 8 else uartputc c)
                 (λ _ s', shown [c] s s') s).
  { destruct (Z.eqb_spec c BACKSPACE) as [-> |Hc]; [|by apply uartputc_ok].
    kstep. eapply runs_mono; [by apply uartputc_ok|]. intros [] s1 H1. kstep.
    eapply runs_mono; [by apply uartputc_ok; [apply H1|]|]. intros [] s2 H2.
    eapply runs_mono; [by apply uartputc_ok; [apply H2|]|]. intros [] s3 H3.
    pose proof (shown_app _ _ _ _ _ (shown_app _ _ _ _ _ H1 H2) H3) as [].
    split; done. }
  eapply runs_mono; [exact Hm|]. intros [] s1 H1. eapply runs_mono; [apply cgaputc_ok, H1|].
  intros [] s2 H2. exact (shown_app _ _ _ _ _ H1 H2).
Qed.

(** ** Input *)

(** The console implements the editor; [t] is the position of its first character. *)
Record rep (t : Z) (a : editor) (s : con) : Prop := {
  rp_out : out_ok s;
  rp_r : c_r s = u32 t;
  rp_w : c_w s = u32 (t + Z.of_nat (length (ed_done a)));
  rp_e : c_e s = u32 (t + Z.of_nat (length (ed_done a ++ ed_line a)));
  rp_ring : ring_holds INPUT_BUF (c_buf s) t (ed_done a ++ ed_line a);
  rp_line : Forall (λ c, c ≠ 10) (ed_line a)
}.

(** What the world saw: [l] was shown and the readers were woken [n] times. *)
Record did (l : list Z) (n : nat) (s s' : con) : Prop := {
  di_uart : c_uart s' = c_uart s;
  di_sent : c_sent s' = if c_uart s then c_sent s ++ echo l else c_sent s;
  di_wakeups : c_wakeups s' = (c_wakeups s + n)%nat
}.

Lemma did_nil s : did [] 0 s s.
Proof. split; [done| |lia]. unfold echo. simpl. rewrite app_nil_r. by destruct (c_uart s). Qed.

Lemma did_app l l' n n' s s1 s2 : did l n s s1 → did l' n' s1 s2 → did (l ++ l') (n + n') s s2.
Proof.
  intros [] []. split; [congruence| |lia]. rewrite echo_app, di_sent1, di_uart0, di_sent0.
  destruct (c_uart s); [by rewrite app_assoc|done].
Qed.

Lemma did_shown l s s' : shown l s s' → did l 0 s s'.
Proof. intros []. split; [done|done|lia]. Qed.

Lemma rep_shown t a l s s' : rep t a s → shown l s s' → rep t a s'.
Proof. intros [] []. split; congruence. Qed.

Lemma u32_mod_input x : u32 x mod INPUT_BUF = x mod INPUT_BUF.
Proof. by apply (u32_mod_pow 7). Qed.

Lemma rep_fits t a s : rep t a s → Z.of_nat (length (ed_done a ++ ed_line a)) ≤ 128.
Proof. intros []. by destruct rp_ring0 as (_ & ? & _). Qed.

Lemma edit_empty t a s : rep t a s → (c_e s =? c_w s) = bool_decide (ed_line a = []).
Proof.
  intros Hr. pose proof (rep_fits _ _ _ Hr) as Hf. destruct Hr. rewrite rp_e0, rp_w0. rewrite length_app in *.
  destruct (decide (ed_line a = [])) as [E|E].
  - rewrite E. simpl. rewrite Nat.add_0_r. by rewrite Z.eqb_refl.
  - rewrite bool_decide_eq_false_2 by done. apply Z.eqb_neq. intros Eu.
    rewrite Nat2Z.inj_add, Z.add_assoc in Eu. apply u32_eq_near in Eu; [|lia]. by destruct (ed_line a).
Qed.

Lemma queue_empty t a s : rep t a s → (c_r s =? c_w s) = bool_decide (ed_done a = []).
Proof.
  intros Hr. pose proof (rep_fits _ _ _ Hr) as Hf. destruct Hr. rewrite rp_r0, rp_w0. rewrite length_app in Hf.
  destruct (decide (ed_done a = [])) as [E|E].
  - rewrite E. simpl. by rewrite Z.add_0_r, Z.eqb_refl.
  - rewrite bool_decide_eq_false_2 by done. apply Z.eqb_neq. intros Eu. symmetry in Eu.
    apply u32_eq_near in Eu; [|lia]. by destruct (ed_done a).
Qed.

Lemma edit_room t a s : rep t a s →
  (u32 (c_e s - c_r s) <? INPUT_BUF) = negb (bool_decide (INPUT_BUF ≤ Z.of_nat (length (ed_done a ++ ed_line a)))).
Proof.
  intros Hr. pose proof (rep_fits _ _ _ Hr) as Hf. destruct Hr. rewrite rp_e0, rp_r0, u32_sub_step.
  rewrite Z.add_simpl_l, u32_small by lia. unfold INPUT_BUF. bdestruct_all.
  - by rewrite bool_decide_eq_false_2 by lia.
  - by rewrite bool_decide_eq_true_2 by lia.
Qed.

(** The last character of the line goes. *)
Lemma rep_back t d line c s : rep t (Editor d (line ++ [c])) s →
  rep t (Editor d line) (set_e (u32 (c_e s - 1)) s) ∧
  c_buf s !!! Z.to_nat (u32 (c_e s - 1) mod INPUT_BUF) = c.
Proof.
  intros []. simpl in *.
  assert (Ee : u32 (c_e s - 1) = u32 (t + Z.of_nat (length (d ++ line)))).
  { rewrite rp_e0. unfold Z.sub. rewrite u32_step. f_equal. rewrite !length_app. simpl. lia. }
  apply Forall_app in rp_line0 as [Hl _]. split.
  - split; simpl; try done; [by destruct rp_out0|]. apply (ring_prefix INPUT_BUF eq_refl _ _ (d ++ line) [c]). by rewrite <- app_assoc.
  - rewrite Ee, u32_mod_input. apply list_lookup_total_correct.
    eapply ring_at; [exact rp_ring0|]. rewrite app_assoc. by apply list_lookup_middle.
Qed.

Lemma echo_back n : replicate (S n) BACKSPACE = [BACKSPACE] ++ replicate n BACKSPACE.
Proof. done. Qed.

Lemma kill_line_ok t d line : ∀ fuel s, (length line < fuel)%nat → rep t (Editor d line) s →
  runs (kill_line fuel) (λ _ s', rep t (Editor d []) s' ∧ did (replicate (length line) BACKSPACE) 0 s s') s.
Proof.
  induction line as [|c line IH] using rev_ind; intros fuel s Hfuel Hr; destruct fuel as [|fuel]; try (simpl in Hfuel; lia); simpl;
    kstep; kstep; rewrite (edit_empty _ _ _ Hr); simpl.
  - kstep. split; [done|apply did_nil].
  - rewrite bool_decide_eq_false_2 by (by destruct line). simpl. destruct (rep_back _ _ _ _ _ Hr) as [Hb Eb].
    assert (Hc : c ≠ 10) by (pose proof (rp_line _ _ _ Hr) as Hl; simpl in Hl; apply Forall_app in Hl as [_ Hl]; exact (proj1 (Forall_singleton _ _) Hl)).
    rewrite Eb, (proj2 (Z.eqb_neq _ _) Hc). simpl. rewrite length_app in Hfuel. simpl in Hfuel. kstep. kstep. kstep.
    eapply runs_mono; [apply consputc_ok, Hb|]. intros [] s1 H1.
    eapply runs_mono; [apply IH; [lia|by eapply rep_shown]|]. intros [] s2 [Hr2 Hd2]. split; [done|].
    rewrite length_app, Nat.add_1_r, echo_back. pose proof (did_app _ _ _ _ _ _ _ (did_shown _ _ _ H1) Hd2) as Hd. by destruct Hd.
Qed.

(** How often a character wakes the readers. *)
Definition ed_wakes (a : editor) (c : Z) : nat := if decide (ed_done (ed_char a c) = ed_done a) then 0 else 1.

Fixpoint ed_woken (a : editor) (cs : list Z) : nat :=
  match cs with
  | [] => 0
  | c :: cs' => ed_wakes a c + ed_woken (ed_char a c) cs'
  end.

(** A character joins the line. *)
Lemma rep_put t d line c s : rep t (Editor d line) s → 0 ≤ c < 256 → Z.of_nat (length (d ++ line)) < INPUT_BUF →
  let s' := set_e (u32 (c_e s + 1)) (set_cbuf (<[Z.to_nat (c_e s mod INPUT_BUF) := u8 c]>) s) in
  out_ok s' ∧ c_r s' = u32 t ∧ c_w s' = u32 (t + Z.of_nat (length d)) ∧
  c_e s' = u32 (t + Z.of_nat (length (d ++ line ++ [c]))) ∧ ring_holds INPUT_BUF (c_buf s') t (d ++ line ++ [c]).
Proof.
  intros [] Hc Hroom. simpl in *. split_and!; try done.
  - by destruct rp_out0.
  - rewrite rp_e0, u32_step. f_equal. rewrite !length_app. simpl. lia.
  - rewrite rp_e0, u32_mod_input, u8_small, app_assoc by done. by apply ring_put.
Qed.

Lemma edit_full t (d line : list Z) c s : c_r s = u32 t → c_e s = u32 (t + Z.of_nat (length (d ++ line ++ [c]))) →
  Z.of_nat (length (d ++ line)) < INPUT_BUF →
  (c_e s =? u32 (c_r s + INPUT_BUF)) = bool_decide (Z.of_nat (length (d ++ line ++ [c])) = INPUT_BUF).
Proof.
  intros -> -> Hroom. rewrite u32_step, app_assoc, length_app. simpl.
  set (n := Z.of_nat (length (d ++ line) + 1)). assert (0 ≤ n ≤ INPUT_BUF) by lia.
  destruct (decide (n = INPUT_BUF)) as [E|E].
  - by rewrite E, Z.eqb_refl, bool_decide_eq_true_2.
  - rewrite bool_decide_eq_false_2 by done. apply Z.eqb_neq. intros Eu. unfold INPUT_BUF in *.
    replace (t + 128) with (t + n + (128 - n)) in Eu by lia. symmetry in Eu. apply u32_eq_near in Eu; lia.
Qed.

Lemma app_snoc_ne (d line : list Z) c : d ++ line ++ [c] ≠ d.
Proof. intros E. apply (f_equal length) in E. rewrite !length_app in E. simpl in E. lia. Qed.

Lemma consoleintr_char_ok t a c s : rep t a s → 0 ≤ c < 256 →
  runs (consoleintr_char c)
    (λ b s', b = (c =? C 80) ∧ rep t (ed_char a c) s' ∧ did (ed_shown a c) (ed_wakes a c) s s') s.
Proof.
  intros Hr Hc. destruct a as [d line]. unfold consoleintr_char, ed_wakes, ed_char, ed_shown. cbn [ed_done ed_line].
  destruct (c =? C 80); [kstep; split_and!; [done|done|rewrite decide_True by done; apply did_nil]|].
  destruct (c =? C 85).
  { cbn [ed_done ed_line]. rewrite decide_True by done. kstep. pose proof (rep_fits _ _ _ Hr) as Hf. simpl in Hf. rewrite length_app in Hf.
    eapply runs_mono; [apply kill_line_ok; [|exact Hr]; unfold INPUT_BUF; lia|]. intros [] s1 [Hr1 Hd1]. by kstep. }
  destruct ((c =? C 72) || (c =? 127)).
  { cbn [ed_done]. rewrite (decide_True (P := d = d)) by done. kstep. kstep. rewrite (edit_empty _ _ _ Hr). cbn [ed_line]. kstep.
    destruct line as [|x line _] using rev_ind.
    - simpl. kstep. kstep. split_and!; [done|done|apply did_nil].
    - rewrite bool_decide_eq_false_2 by (by destruct line). simpl. rewrite removelast_last, decide_False by (by destruct line).
      destruct (rep_back _ _ _ _ _ Hr) as [Hb _]. kstep. kstep.
      eapply runs_mono; [apply consputc_ok, Hb|]. intros [] s1 H1. kstep. split_and!; [done|by eapply rep_shown|].
      destruct (did_shown _ _ _ H1). by split. }
  kstep. kstep. rewrite (edit_room _ _ _ Hr). simpl. kstep.
  destruct (Z.eqb_spec c 0) as [-> |Hc0]; simpl.
  { kstep. kstep. rewrite decide_True by done. split_and!; [done|done|apply did_nil]. }
  destruct (decide (INPUT_BUF ≤ Z.of_nat (length (d ++ line)))) as [Hfull|Hroom].
  { rewrite bool_decide_eq_true_2 by done. simpl. kstep. kstep. rewrite decide_True by done. split_and!; [done|done|apply did_nil]. }
  rewrite bool_decide_eq_false_2 by done. simpl. set (c' := if c =? 13 then 10 else c).
  assert (Hc' : 0 ≤ c' < 256) by (unfold c'; destruct (c =? 13); lia). kstep. kstep. kstep. kstep.
  destruct (rep_put _ _ _ _ _ Hr Hc' ltac:(lia)) as (Ho & Er & Ew & Ee & Hring).
  simpl. kstep. eapply runs_mono; [apply consputc_ok, Ho|]. intros [] s1 H1. kstep. kstep.
  rewrite <- (sh_r _ _ _ H1) in Er. rewrite <- (sh_w _ _ _ H1) in Ew. rewrite <- (sh_e _ _ _ H1) in Ee. rewrite <- (sh_buf _ _ _ H1) in Hring.
  rewrite (edit_full _ _ _ _ _ Er Ee ltac:(lia)).
  destruct ((c' =? 10) || (c' =? C 68) || bool_decide (Z.of_nat (length (d ++ line ++ [c'])) = INPUT_BUF)) eqn:Ecommit; simpl.
  - kstep. kstep. unfold wakeup_r. kstep. kstep. rewrite decide_False by apply app_snoc_ne. split_and!; [done| |].
    + split; simpl; try done; rewrite ?app_nil_r; try done. by destruct (sh_ok _ _ _ H1).
    + destruct H1. split; simpl; [done|done|]. rewrite sh_wakeups0. simpl. lia.
  - kstep. kstep. rewrite decide_True by done. split_and!; [done| |].
    + split; simpl; try done; [by destruct (sh_ok _ _ _ H1)|]. apply Forall_app. split; [apply (rp_line _ _ _ Hr)|].
      apply Forall_singleton. intros E. by rewrite E in Ecommit.
    + destruct H1. split; simpl; [done|done|]. rewrite sh_wakeups0. simpl. lia.
Qed.

Lemma consoleintr_ok t cs : ∀ a b s, rep t a s → Forall (λ c, 0 ≤ c < 256) cs →
  runs (consoleintr cs b)
    (λ r s', r = b || existsb (λ c, c =? C 80) cs ∧ rep t (foldl ed_char a cs) s' ∧ did (ed_shows a cs) (ed_woken a cs) s s') s.
Proof.
  induction cs as [|c cs IH]; intros a b s Hr Hcs; simpl.
  - kstep. split_and!; [by rewrite orb_false_r|done|apply did_nil].
  - apply Forall_cons in Hcs as [Hc Hcs]. kstep. eapply runs_mono; [by apply consoleintr_char_ok|].
    intros r s1 (-> & Hr1 & Hd1). eapply runs_mono; [by apply IH|]. intros r2 s2 (-> & Hr2 & Hd2).
    split_and!; [by rewrite orb_assoc|done|by eapply did_app].
Qed.

(** The first finished character is taken. *)
Lemma rep_take t c q line s : rep t (Editor (c :: q) line) s →
  c_buf s !!! Z.to_nat (c_r s mod INPUT_BUF) = c ∧ rep (t + 1) (Editor q line) (set_r (u32 (c_r s + 1)) s).
Proof.
  intros []. simpl in *. split.
  - rewrite rp_r0, u32_mod_input. apply list_lookup_total_correct. by eapply ring_first.
  - split; simpl; [by destruct rp_out0|by rewrite rp_r0, u32_step|rewrite rp_w0; f_equal; lia| | |done].
    + rewrite rp_e0. f_equal. rewrite !length_app. lia.
    + by eapply ring_drop.
Qed.

Lemma consoleread_loop_ok killed target n : ∀ t a s dst, rep t a s →
  runs (consoleread_loop killed target n dst)
    (λ r s', ∃ t', rep t' (Editor (ed_read killed target n (ed_done a) dst).2 (ed_line a)) s' ∧
       r = (ed_read killed target n (ed_done a) dst).1 ∧ did [] 0 s s') s.
Proof.
  induction n as [|n IH]; intros t [d line] s dst Hr; simpl.
  - kstep. exists t. split_and!; [done|done|apply did_nil].
  - kstep. kstep. rewrite (queue_empty _ _ _ Hr). simpl. destruct d as [|c q]; simpl.
    { destruct killed; kstep; exists t; (split_and!; [done|done|apply did_nil]). }
    destruct (rep_take _ _ _ _ _ Hr) as [-> Ht]. pose proof (did_nil s) as [Hu Hs Hw]. kstep. kstep.
    destruct (c =? C 68); [|destruct (c =? 10)].
    + kstep. destruct (decide (S n < target)%nat); kstep; kstep.
      * exists t. split_and!; [|done|by split]. destruct Hr. split; try done; [by destruct rp_out0|]. simpl.
        rewrite rp_r0, u32_step. unfold Z.sub. rewrite u32_step. f_equal. lia.
      * exists (t + 1). split_and!; [done|done|by split].
    + kstep. exists (t + 1). split_and!; [done|done|by split].
    + eapply runs_mono; [by apply (IH _ _ _ _ Ht)|]. intros r s' (t' & Hr' & -> & Hd'). exists t'.
      split_and!; [done|done|]. by destruct Hd'.
Qed.

(** What the events show, and how often they wake the readers. *)
Fixpoint ed_output (a : editor) (evs : list cevent) : list Z * nat :=
  match evs with
  | [] => ([], 0%nat)
  | ev :: evs' =>
      let '(l, n) := ed_output (ed_event a ev).2 evs' in
      match ev with
      | Typed cs => (ed_shows a cs ++ l, (ed_woken a cs + n)%nat)
      | Read _ _ _ _ => (l, n)
      end
  end.

Lemma con_events_ok evs : ∀ t a s, rep t a s → Forall typed_bytes evs →
  runs (con_events evs)
    (λ rs s', rs = (ed_events a evs).1 ∧ (∃ t', rep t' (ed_events a evs).2 s') ∧
       did (ed_output a evs).1 (ed_output a evs).2 s s') s.
Proof.
  induction evs as [|ev evs IH]; intros t a s Hr Hev; simpl.
  - kstep. split_and!; [done|by exists t|apply did_nil].
  - apply Forall_cons in Hev as [He Hev]. kstep. destruct ev as [cs|killed target n dst]; simpl.
    + kstep. eapply runs_mono; [by apply consoleintr_ok|]. intros b s1 (_ & Hr1 & Hd1). kstep. kstep.
      eapply runs_mono; [by eapply IH|]. intros rs s2 (-> & Hr2 & Hd2). kstep.
      destruct (ed_events _ evs) as [rs a2] eqn:E. simpl. destruct (ed_output _ evs) as [l m] eqn:E'. simpl.
      split_and!; [done|done|by eapply did_app].
    + kstep. eapply runs_mono; [by eapply consoleread_loop_ok|]. intros r s1 (t1 & Hr1 & -> & Hd1). kstep.
      destruct (ed_read killed target n (ed_done a) dst) as [r q]. simpl in *. kstep.
      eapply runs_mono; [by eapply IH|]. intros rs s2 (-> & Hr2 & Hd2). kstep.
      destruct (ed_events _ evs) as [rs a2] eqn:E. simpl. destruct (ed_output _ evs) as [l m] eqn:E'. simpl.
      split_and!; [done|done|]. exact (did_app _ _ _ _ _ _ _ Hd1 Hd2).
Qed.

(** The console before the first interrupt: [input] is zero. *)
Record con_fresh (s : con) : Prop := {
  cf_out : out_ok s;
  cf_buf : length (c_buf s) = 128%nat;
  cf_r : c_r s = 0;
  cf_w : c_w s = 0;
  cf_e : c_e s = 0
}.

Lemma fresh_rep s : con_fresh s → rep 0 (Editor [] []) s.
Proof. intros []. by split. Qed.

(** C28. The console is a line editor.  From a fresh console, whatever interrupts come with
    whatever characters and whatever reads start or resume in between, [consoleintr]
    and [consoleread] return, the screen stays in bounds (no panic), and every read gives
    exactly what the editor on lists gives: characters join the edited line until a
    newline, a control-D or a full buffer finishes it; backspace and control-U only
    reach the edited line; a read takes finished characters in order up to a
    newline, a control-D ends it and is kept for the next read when it already has
    characters; it sleeps only when nothing is finished.  The serial port gets the
    echo of the editor, and readers are woken each time something is finished: the
    indices of [input] may wrap around [2 ^ 32] at any point. *)
Theorem console_is_a_line_editor evs s : con_fresh s → Forall typed_bytes evs →
  runs (con_events evs)
    (λ rs s', rs = (ed_events (Editor [] []) evs).1 ∧
       (∃ t, rep t (ed_events (Editor [] []) evs).2 s') ∧
       c_sent s' = (if c_uart s then c_sent s ++ echo (ed_output (Editor [] []) evs).1 else c_sent s) ∧
       c_wakeups s' = (c_wakeups s + (ed_output (Editor [] []) evs).2)%nat) s.
Proof.
  intros Hf Hev. eapply runs_mono; [by apply (con_events_ok evs 0 _ _ (fresh_rep _ Hf))|].
  intros rs s' (-> & Hr & []). done.
Qed.

Definition blank_console : con := Con false (replicate 2000 0) 0 true [] (replicate 128 0) 0 0 0 0.

Lemma blank_fresh : con_fresh blank_console.
Proof. split; try done. Qed.

(** A reader finds nothing; then [lt], backspace, [s], return; the reader resumes. *)
Lemma console_is_a_line_editor_witness :
  ∃ s', con_events [Read false 20 20 []; Typed [108; 116; 8]; Typed [115; 13; 104]; Read false 20 20 []] blank_console =
    Ok ([Some (CSleep 20 []); None; None; Some (CRet 3 [108; 115; 10])], s') ∧
  c_sent s' = [108; 116; 8; 32; 8; 115; 10; 104] ∧ c_wakeups s' = 1%nat.
Proof.
  destruct (console_is_a_line_editor
    [Read false 20 20 []; Typed [108; 116; 8]; Typed [115; 13; 104]; Read false 20 20 []] blank_console blank_fresh
    ltac:(repeat constructor; simpl; lia)) as (rs & s' & E & -> & _ & Es & Ew).
  exists s'. split_and!; [rewrite E; by vm_compute|rewrite Es; by vm_compute|rewrite Ew; by vm_compute].
Defined.
