(* ===== verification/Kbd.v ===== *)
(** * The keyboard: [xv6/kbd.c] and [xv6/kbd.h], and the input half of [xv6/uart.c]

    Scan codes come in at a port and become the characters that [consoleintr] edits.
    The last section shows that a line typed on the keyboard is the line that a
    process reads from the console. *)

From S2P Require Import Prelude Ring Console ConsoleProps.

(** ** Constants and tables of [kbd.h] *)

Definition NO : Z := 0.
Definition SHIFT : Z := Z.shiftl 1 0.
Definition CTL : Z := Z.shiftl 1 1.
Definition ALT : Z := Z.shiftl 1 2.
Definition CAPSLOCK : Z := Z.shiftl 1 3.
Definition NUMLOCK : Z := Z.shiftl 1 4.
Definition SCROLLLOCK : Z := Z.shiftl 1 5.
Definition E0ESC : Z := Z.shiftl 1 6.

Definition KEY_HOME : Z := 0xE0.
Definition KEY_END : Z := 0xE1.
Definition KEY_UP : Z := 0xE2.
Definition KEY_DN : Z := 0xE3.
Definition KEY_LF : Z := 0xE4.
Definition KEY_RT : Z := 0xE5.
Definition KEY_PGUP : Z := 0xE6.
Definition KEY_PGDN : Z := 0xE7.
Definition KEY_INS : Z := 0xE8.
Definition KEY_DEL : Z := 0xE9.

(** An array of 256 bytes given by its first entries and by designated ones. *)
Definition table (first : list Z) (others : list (Z * Z)) (i : Z) : Z :=
  match first !! Z.to_nat i with
  | Some c => c
  | None => match find (λ e, e.1 =? i) others with Some e => e.2 | None => NO end
  end.

Definition shiftcode : Z → Z :=
  table [] [(0x1D, CTL); (0x2A, SHIFT); (0x36, SHIFT); (0x38, ALT); (0x9D, CTL); (0xB8, ALT)].

Definition togglecode : Z → Z := table [] [(0x3A, CAPSLOCK); (0x45, NUMLOCK); (0x46, SCROLLLOCK)].

Definition normalmap : Z → Z := table
  [NO;  0x1B; 49;  50;  51;  52;  53;  54;
   55;  56;  57;  48;  45;  61;  8;   9;
   113; 119; 101; 114; 116; 121; 117; 105;
   111; 112; 91;  93;  10;  NO;  97;  115;
   100; 102; 103; 104; 106; 107; 108; 59;
   39;  96;  NO;  92;  122; 120; 99;  118;
   98;  110; 109; 44;  46;  47;  NO;  42;
   NO;  32;  NO;  NO;  NO;  NO;  NO;  NO;
   NO;  NO;  NO;  NO;  NO;  NO;  NO;  55;
   56;  57;  45;  52;  53;  54;  43;  49;
   50;  51;  48;  46;  NO;  NO;  NO;  NO]
  [(0x9C, 10); (0xB5, 47); (0xC8, KEY_UP); (0xD0, KEY_DN); (0xC9, KEY_PGUP); (0xD1, KEY_PGDN);
   (0xCB, KEY_LF); (0xCD, KEY_RT); (0x97, KEY_HOME); (0xCF, KEY_END); (0xD2, KEY_INS); (0xD3, KEY_DEL)].

Definition shiftmap : Z → Z := table
  [NO;  27;  33;  64;  35;  36;  37;  94;
   38;  42;  40;  41;  95;  43;  8;   9;
   81;  87;  69;  82;  84;  89;  85;  73;
   79;  80;  123; 125; 10;  NO;  65;  83;
   68;  70;  71;  72;  74;  75;  76;  58;
   34;  126; NO;  124; 90;  88;  67;  86;
   66;  78;  77;  60;  62;  63;  NO;  42;
   NO;  32;  NO;  NO;  NO;  NO;  NO;  NO;
   NO;  NO;  NO;  NO;  NO;  NO;  NO;  55;
   56;  57;  45;  52;  53;  54;  43;  49;
   50;  51;  48;  46;  NO;  NO;  NO;  NO]
  [(0x9C, 10); (0xB5, 47); (0xC8, KEY_UP); (0xD0, KEY_DN); (0xC9, KEY_PGUP); (0xD1, KEY_PGDN);
   (0xCB, KEY_LF); (0xCD, KEY_RT); (0x97, KEY_HOME); (0xCF, KEY_END); (0xD2, KEY_INS); (0xD3, KEY_DEL)].

(** [C('/')] is negative before it is put in a [uchar]. *)
Definition ctlmap : Z → Z := table
  [NO;   NO;   NO;   NO;   NO;   NO;   NO;   NO;
   NO;   NO;   NO;   NO;   NO;   NO;   NO;   NO;
   C 81; C 87; C 69; C 82; C 84; C 89; C 85; C 73;
   C 79; C 80; NO;   NO;   13;   NO;   C 65; C 83;
   C 68; C 70; C 71; C 72; C 74; C 75; C 76; NO;
   NO;   NO;   NO;   C 92; C 90; C 88; C 67; C 86;
   C 66; C 78; C 77; NO;   NO;   u8 (C 47); NO;   NO]
  [(0x9C, 13); (0xB5, u8 (C 47)); (0xC8, KEY_UP); (0xD0, KEY_DN); (0xC9, KEY_PGUP); (0xD1, KEY_PGDN);
   (0xCB, KEY_LF); (0xCD, KEY_RT); (0x97, KEY_HOME); (0xCF, KEY_END); (0xD2, KEY_INS); (0xD3, KEY_DEL)].

(** ** [kbd.c] *)

Definition charcode : list (Z → Z) := [normalmap; shiftmap; ctlmap; ctlmap].

(** The translation of a character code under the caps lock. *)
Definition capslock (shift c : Z) : Z :=
  if negb (Z.land shift CAPSLOCK =? 0) then
    if (97 <=? c) && (c <=? 122) then u32 (c + (65 - 97))
    else if (65 <=? c) && (c <=? 90) then u32 (c + (97 - 65))
    else c
  else c.

(** The body of [kbdgetc] from the scan code on: the character, and [shift]. *)
Definition kbdgetc_data (shift data : Z) : Z * Z :=
  if data =? 0xE0 then (0, Z.lor shift E0ESC)
  else if negb (Z.land data 0x80 =? 0) then
    let data := if negb (Z.land shift E0ESC =? 0) then data else Z.land data 0x7F in
    (0, Z.ldiff shift (Z.lor (shiftcode data) E0ESC))
  else
    let '(data, shift) :=
      if negb (Z.land shift E0ESC =? 0) then (Z.lor data 0x80, Z.ldiff shift E0ESC) else (data, shift) in
    let shift := Z.lor shift (shiftcode data) in
    let shift := Z.lxor shift (togglecode data) in
    let c := (charcode !!! Z.to_nat (Z.land shift (Z.lor CTL SHIFT))) data in
    (capslock shift c, shift).

(** [kbdgetc] with the scan codes that wait at the port. *)
Definition kbdgetc (shift : Z) (port : list Z) : Z * Z * list Z :=
  match port with
  | [] => (-1, shift, [])
  | data :: port' => let '(c, shift') := kbdgetc_data shift data in (c, shift', port')
  end.

(** [kbdgetc] until it has none. *)
Fixpoint getcs (fuel : nat) (shift : Z) (port : list Z) : list Z * Z :=
  match fuel with
  | O => ([], shift)
  | S fuel' =>
      let '(c, shift', port') := kbdgetc shift port in
      if 0 <=? c then let '(cs, shift'') := getcs fuel' shift' port' in (c :: cs, shift'') else ([], shift')
  end.

(** [kbdintr]: what [consoleintr] does with these characters, and [shift] after it. *)
Definition kbdintr (shift : Z) (port : list Z) : K con (bool * Z) :=
  let '(cs, shift') := getcs (S (length port)) shift port in
  b ← consoleintr cs false;
  mret (b, shift').

(** [uartgetc] with the bytes that wait at the serial port, until it has none. *)
Definition uartintr (port : list Z) : K con bool :=
  s ← kget;
  consoleintr (if c_uart s then port else []) false.

(** ** What is typed

    The keyboard, told apart from the tables: a row of keys begins at a scan code, and
    its keys have the characters of a US layout, alone and with shift. *)
Definition rows : list (Z * list Z * list Z) := [
  (0x02, chars_of "1234567890-=", chars_of "!@#$%^&*()_+");
  (0x10, chars_of "qwertyuiop[]", chars_of "QWERTYUIOP{}");
  (0x1E, chars_of "asdfghjkl;'`", chars_of "ASDFGHJKL:" ++ [34] ++ chars_of "~");
  (0x2B, chars_of "\zxcvbnm,./", chars_of "|ZXCVBNM<>?");
  (0x39, chars_of " ", chars_of " ");
  (0x01, [27], [27]); (0x0F, [9], [9]); (0x1C, [10], [10])
].

(** The key that has [c] in the row of [chars] that begins at [d]. *)
Definition key_in (c d : Z) (chars : list Z) : option Z := (λ e, d + Z.of_nat e.1) <$> list_find (λ x, x = c) chars.

Fixpoint key_of (shifted : bool) (c : Z) (l : list (Z * list Z * list Z)) : option Z :=
  match l with
  | [] => None
  | (d, lower, upper) :: l' =>
      match key_in c d (if shifted then upper else lower) with Some k => Some k | None => key_of shifted c l' end
  end.

(** A key pressed and released, alone or while a modifier is held. *)
Definition tap (key : Z) : list Z := [key; key + 128].
Definition with_key (modifier : Z) (codes : list Z) : list Z := modifier :: codes ++ [modifier + 128].

(** The codes of typing [c] with the left or the right shift key: the control characters
    that have no key are those of control and a letter. *)
Definition strokes (right : bool) (c : Z) : list Z :=
  match key_of false c rows, key_of true c rows, key_of false (c + 96) rows with
  | Some d, _, _ => tap d
  | None, Some d, _ => with_key (if right then 0x36 else 0x2A) (tap d)
  | None, None, Some d => if (1 <=? c) && (c <=? 26) then with_key 0x1D (tap d) else []
  | None, None, None => []
  end.

(** A character with strokes of its own. *)
Definition typable (c : Z) : bool := (0 <? c) && (c <? 256) && negb (bool_decide (strokes false c = [])).

Definition type (right : bool) (text : list Z) : list Z := concat (map (strokes right) text).

(** The lock keys, with no modifier held. *)
Definition locks (caps num scroll : bool) : Z :=
  (if caps then 8 else 0) + (if num then 16 else 0) + (if scroll then 32 else 0).

(** The caps lock exchanges the cases of letters. *)
Definition cased (caps : bool) (c : Z) : Z :=
  if caps then
    if bool_decide (c ∈ chars_of "abcdefghijklmnopqrstuvwxyz") then c - 32
    else if bool_decide (c ∈ chars_of "ABCDEFGHIJKLMNOPQRSTUVWXYZ") then c + 32
    else c
  else c.

(** The characters of the codes, as [kbdgetc] gives them one after the other. *)
Fixpoint decode (shift : Z) (port : list Z) : list Z * Z :=
  match port with
  | [] => ([], shift)
  | data :: port' =>
      let '(c, shift') := kbdgetc_data shift data in
      let '(cs, shift'') := decode shift' port' in (c :: cs, shift'')
  end.

Definition visible (cs : list Z) : list Z := List.filter (λ c, negb (c =? 0)) cs.

Lemma table_range first others i :
  Forall (λ c, 0 ≤ c < 256) first → Forall (λ e : Z * Z, 0 ≤ e.2 < 256) others → 0 ≤ table first others i < 256.
Proof.
  intros Hf Ho. unfold table. destruct (first !! _) as [c|] eqn:E.
  - exact (proj1 (Forall_lookup _ _) Hf _ _ E).
  - destruct (find _ others) as [e|] eqn:E'; [|unfold NO; lia]. apply find_some in E' as [Hin _].
    apply (proj1 (List.Forall_forall _ _) Ho _ Hin).
Qed.

Lemma charcode_range k i : 0 ≤ (charcode !!! k) i < 256.
Proof.
  do 4 (destruct k as [|k]; [apply table_range; apply (bool_decide_unpack _); by vm_compute|]). split; vm_compute; done.
Qed.

Lemma capslock_range shift c : 0 ≤ c < 256 → 0 ≤ capslock shift c < 256.
Proof.
  intros Hc. unfold capslock. destruct (negb _); [|done].
  destruct ((97 <=? c) && (c <=? 122)) eqn:E1; [|destruct ((65 <=? c) && (c <=? 90)) eqn:E2; [|done]];
    rewrite u32_small; lia.
Qed.

Lemma kbdgetc_data_range shift data : 0 ≤ (kbdgetc_data shift data).1 < 256.
Proof.
  unfold kbdgetc_data. destruct (data =? 224); [simpl; lia|]. destruct (negb (Z.land data 128 =? 0)); [simpl; lia|].
  destruct (negb _); simpl; apply capslock_range, charcode_range.
Qed.

Lemma decode_range port : ∀ shift, Forall (λ c, 0 ≤ c < 256) (decode shift port).1.
Proof.
  induction port as [|data port IH]; intros shift; simpl; [constructor|].
  pose proof (kbdgetc_data_range shift data) as Hr. destruct (kbdgetc_data shift data) as [c shift'].
  pose proof (IH shift') as Hd. destruct (decode shift' port) as [cs shift'']. by constructor.
Qed.

Lemma getcs_decode port : ∀ fuel shift, (length port < fuel)%nat → getcs fuel shift port = decode shift port.
Proof.
  induction port as [|data port IH]; intros [|fuel] shift Hf; simpl in *; try lia; [done|].
  pose proof (kbdgetc_data_range shift data) as Hr. destruct (kbdgetc_data shift data) as [c shift']. simpl in Hr.
  rewrite (proj2 (Z.leb_le _ _)) by lia. rewrite IH by lia. done.
Qed.

Lemma decode_app p1 p2 shift :
  decode shift (p1 ++ p2) =
    let '(cs1, s1) := decode shift p1 in let '(cs2, s2) := decode s1 p2 in (cs1 ++ cs2, s2).
Proof.
  revert shift. induction p1 as [|data p1 IH]; intros shift; simpl; [by destruct (decode shift p2)|].
  destruct (kbdgetc_data shift data) as [c shift']. rewrite IH. destruct (decode shift' p1) as [cs1 s1].
  by destruct (decode s1 p2).
Qed.

Lemma typable_range c : typable c = true → 0 < c < 256.
Proof. unfold typable. lia. Qed.

(** Each character under each state of the locks. *)
Lemma strokes_ok right caps num scroll c : typable c = true →
  visible (decode (locks caps num scroll) (strokes right c)).1 = [cased caps c] ∧
  (decode (locks caps num scroll) (strokes right c)).2 = locks caps num scroll.
Proof.
  intros Hc. pose proof (typable_range c Hc). revert c Hc H.
  assert (Hall : Forall (λ c, typable c = true →
    visible (decode (locks caps num scroll) (strokes right c)).1 = [cased caps c] ∧
    (decode (locks caps num scroll) (strokes right c)).2 = locks caps num scroll) (seqZ 0 256))
    by (destruct right, caps, num, scroll; apply (bool_decide_unpack _); by vm_compute).
  intros c Hc Hr. apply (proj1 (Forall_forall _ _) Hall c); [apply elem_of_seqZ; lia|done].
Qed.

(** What can be typed: the printing characters, tab, newline, escape and the control
    characters of letters. *)
Lemma typable_all c : 32 ≤ c < 127 ∨ 1 ≤ c ≤ 27 → typable c = true.
Proof.
  assert (Hall : Forall (λ c, 32 ≤ c < 127 ∨ 1 ≤ c ≤ 27 → typable c = true) (seqZ 0 256)) by (apply (bool_decide_unpack _); by vm_compute).
  intros Hc. apply (proj1 (Forall_forall _ _) Hall c); [apply elem_of_seqZ; lia|done].
Qed.

Lemma visible_app l1 l2 : visible (l1 ++ l2) = visible l1 ++ visible l2.
Proof. apply List.filter_app. Qed.

Lemma type_ok right caps num scroll text : let l := locks caps num scroll in forallb typable text = true →
  visible (decode l (type right text)).1 = map (cased caps) text ∧ (decode l (type right text)).2 = l.
Proof.
  intros l. induction text as [|c text IH]; simpl; [done|]. intros [Hc Ht]%andb_prop.
  destruct (strokes_ok right caps num scroll c Hc) as [E1 E2]. fold l in E1, E2. destruct (IH Ht) as [I1 I2]. unfold type in *. simpl. rewrite decode_app.
  destruct (decode l (strokes right c)) as [cs1 s1]. simpl in E1, E2. subst s1.
  destruct (decode l _) as [cs2 s2]. simpl in *. by rewrite visible_app, E1, I1.
Qed.

(** ** From the keyboard to a reader *)

(** A character that is text for the console. *)
Definition plain (c : Z) : bool := negb (existsb (Z.eqb c) [0; C 68; C 72; 10; 13; C 80; C 85; 0x7f]).

Lemma plain_cased caps c : typable c = true → plain c = true → plain (cased caps c) = true.
Proof.
  assert (Hall : Forall (λ c, plain c = true → plain (cased caps c) = true) (seqZ 0 256)) by (destruct caps; apply (bool_decide_unpack _); by vm_compute).
  intros Hc%typable_range. apply (proj1 (Forall_forall _ _) Hall c). apply elem_of_seqZ. lia.
Qed.

Lemma ed_char_plain d line c : plain c = true → Z.of_nat (length d + length line) < 127 →
  ed_char (Editor d line) c = Editor d (line ++ [c]).
Proof.
  unfold plain. simpl. intros Hc Hl. unfold ed_char, INPUT_BUF. cbn [ed_done ed_line].
  rewrite !bool_decide_eq_false_2 by (rewrite !length_app; simpl; lia). unfold C in *.
  destruct (Z.eqb_spec c (80 - 64)); [lia|]. destruct (Z.eqb_spec c (85 - 64)); [lia|].
  destruct (Z.eqb_spec c (72 - 64)); [lia|]. destruct (Z.eqb_spec c 127); [lia|].
  destruct (Z.eqb_spec c 0); [lia|]. destruct (Z.eqb_spec c 13); [lia|]. simpl.
  destruct (Z.eqb_spec c 10); [lia|]. destruct (Z.eqb_spec c (68 - 64)); [lia|]. done.
Qed.

Lemma ed_plain cs : ∀ line, forallb plain cs = true → Z.of_nat (length line + length cs) ≤ 127 →
  foldl ed_char (Editor [] line) cs = Editor [] (line ++ cs).
Proof.
  induction cs as [|c cs IH]; intros line Hc Hl; simpl in *; [by rewrite app_nil_r|].
  apply andb_prop in Hc as [Hc Hcs]. rewrite ed_char_plain by (done || (simpl; lia)).
  rewrite IH; [by rewrite <- app_assoc|done|rewrite length_app; simpl; lia].
Qed.

Lemma ed_read_line killed target cs q : ∀ n dst, forallb plain cs = true → (length cs < n)%nat →
  ed_read killed target n (cs ++ 10 :: q) dst =
    (CRet (Z.of_nat target - Z.of_nat (n - S (length cs))) (dst ++ cs ++ [10]), q).
Proof.
  induction cs as [|c cs IH]; intros [|n] dst Hc Hn; simpl in *; try lia.
  - by rewrite Nat.sub_0_r.
  - apply andb_prop in Hc as [Hc Hcs].
    assert (c ≠ C 68 ∧ c ≠ 10) as [H4 H10] by (unfold plain, C in *; simpl in Hc; lia).
    rewrite (proj2 (Z.eqb_neq _ _) H4), (proj2 (Z.eqb_neq _ _) H10), IH by (done || lia). by rewrite <- app_assoc.
Qed.

Lemma ed_newline line : Z.of_nat (length line) ≤ 127 → ed_char (Editor [] line) 10 = Editor (line ++ [10]) [].
Proof. intros Hl. unfold ed_char, INPUT_BUF. simpl. by rewrite bool_decide_eq_false_2 by lia. Qed.

Lemma plain_map caps cs : forallb typable cs = true → forallb plain cs = true → forallb plain (map (cased caps) cs) = true.
Proof.
  induction cs as [|c cs IH]; simpl; [done|]. intros [Ht Hts]%andb_prop [Hc Hcs]%andb_prop. by rewrite plain_cased, IH.
Qed.

(** The console ignores what is not a character. *)
Lemma ed_visible cs : ∀ a, foldl ed_char a cs = foldl ed_char a (visible cs).
Proof. induction cs as [|c cs IH]; intros a; simpl; [done|]. by destruct (Z.eqb_spec c 0) as [-> |]; simpl; rewrite IH. Qed.

Lemma kbdintr_ok t a right caps num scroll text s : let l := locks caps num scroll in
  rep t a s → forallb typable text = true →
  runs (kbdintr l (type right text)) (λ r s', r.2 = l ∧ rep t (foldl ed_char a (map (cased caps) text)) s') s.
Proof.
  intros l Hr Ht. unfold kbdintr. rewrite getcs_decode by lia. pose proof (decode_range (type right text) l) as Hrange.
  destruct (type_ok right caps num scroll text Ht) as [E1 E2]. fold l in E1, E2. destruct (decode l (type right text)) as [cs l']. simpl in *. subst l'.
  kstep. eapply runs_mono; [by apply (consoleintr_ok t cs a false)|]. intros b s' (_ & Hr' & _). kstep.
  split; [done|]. by rewrite <- E1, <- ed_visible.
Qed.

(** C29. What is typed is what is read.  On a fresh console, with any of the lock keys
    on, the scan codes that a keyboard of US layout sends for a line and return (each key
    pressed and released, with a shift key or control held where the character needs it),
    followed by a read of at least that many bytes, give the process exactly the
    characters of the line, with upper and lower case letters exchanged when the caps
    lock is on, and the newline; the read does not sleep and the keyboard is back in the
    state it started in.  The line has up to 127 characters, which are the printing ones
    and the control characters of letters that the console does not interpret. *)
Theorem typed_line_is_read right caps num scroll line n s : con_fresh s →
  forallb typable line = true → forallb plain line = true → Z.of_nat (length line) ≤ 127 → (length line < n)%nat →
  let l := locks caps num scroll in
  runs (r ← kbdintr l (type right (line ++ [10])); x ← consoleread false n; mret (r.2, x))
    (λ r s', r = (l, CRet (Z.of_nat (length line) + 1) (map (cased caps) line ++ [10]))) s.
Proof.
  intros Hs Ht Hp Hlen Hn l. kstep. eapply runs_mono.
  { apply (kbdintr_ok 0 _ right caps num scroll (line ++ [10]) s (fresh_rep _ Hs)). by rewrite forallb_app, Ht. }
  fold l. intros r s1 [-> Hr]. pose proof (plain_map caps line Ht Hp) as Hp'.
  rewrite map_app, foldl_app, ed_plain in Hr; [|done|rewrite length_map; simpl; lia].
  assert (E10 : cased caps 10 = 10) by (by destruct caps).
  simpl in Hr. rewrite E10, ed_newline in Hr by (rewrite length_map; lia).
  kstep. eapply runs_mono; [by eapply consoleread_loop_ok|]. intros x s2 (t & _ & -> & _). kstep.
  cbn [ed_done]. rewrite ed_read_line by (done || (rewrite length_map; lia)). simpl. rewrite length_map. do 2 f_equal. lia.
Qed.

(** [Ls -l] typed with the caps lock on. *)
Lemma typed_line_is_read_witness : ∃ s',
  (r ← kbdintr 8 (type true (chars_of "Ls -l" ++ [10])); x ← consoleread false 100; mret (r.2, x)) blank_console =
    Ok ((8, CRet 6 (chars_of "lS -L" ++ [10])), s').
Proof.
  destruct (typed_line_is_read true true false false (chars_of "Ls -l") 100 blank_console blank_fresh
    ltac:(by vm_compute) ltac:(by vm_compute) ltac:(simpl; lia) ltac:(simpl; lia)) as (r & s' & E & Hr).
  exists s'. change (locks true false false) with 8 in E, Hr. rewrite E, Hr. by vm_compute.
Defined.
