(* ===== verification/Printf.v ===== *)
(** * Formatted output: [xv6/printf.c] and [cprintf] of [xv6/console.c]

    Two programs print formats: the user library with a small state machine, the
    kernel by looking one character ahead.  Both are compared with one reading of a
    format as a list of directives, and the digits they print with the number. *)

From S2P Require Import Prelude Console ConsoleProps.

(** ** [printf.c] *)

Definition udigits : list Z := [48; 49; 50; 51; 52; 53; 54; 55; 56; 57; 65; 66; 67; 68; 69; 70].

(** The bytes written so far, with their descriptors; [putc] ignores what [write] returns. *)
Definition putc (fd c : Z) : K (list (Z * Z)) unit := kmod (λ out, out ++ [(fd, u8 c)]).

Definition uprintint (fd xx base : Z) (sgn : bool) : K (list (Z * Z)) unit :=
  each (putc fd) (rev (int_buf udigits xx base sgn)).

Section printf.
(** The words after [fmt] on the stack, and the string at an address. *)
Context (args : nat → Z) (str : Z → list Z) (fd : Z).

(** The loop of [printf]; [state] is whether a [%] was just seen. *)
Fixpoint printf_loop (fmt : list Z) (state : bool) (ap : nat) : K (list (Z * Z)) unit :=
  match fmt with
  | [] => mret tt
  | c :: fmt =>
      if negb state then
        if c =? 37 then printf_loop fmt true ap else putc fd c;; printf_loop fmt false ap
      else if c =? 100 then uprintint fd (s32 (args ap)) 10 true;; printf_loop fmt false (S ap)
      else if (c =? 120) || (c =? 112) then uprintint fd (s32 (args ap)) 16 false;; printf_loop fmt false (S ap)
      else if c =? 115 then
        each (putc fd) (if args ap =? 0 then null_string else str (args ap));;
        printf_loop fmt false (S ap)
      else if c =? 99 then putc fd (args ap);; printf_loop fmt false (S ap)
      else if c =? 37 then putc fd c;; printf_loop fmt false ap
      else putc fd 37;; putc fd c;; printf_loop fmt false ap
  end.

Definition printf (fmt : list Z) : K (list (Z * Z)) unit := printf_loop fmt false 0.
End printf.

(** ** Formats *)

(** A directive: text, or the way a word is printed. *)
Inductive directive := Text (l : list Z) | Dec | Hex | Str | Chr.

(** A format read from left to right; [%] at the end is dropped, [%] and a character that
    is not a directive stand for themselves.  [chr] says whether [%c] is a directive. *)
Fixpoint directives (chr : bool) (fmt : list Z) : list directive :=
  match fmt with
  | [] => []
  | c :: fmt =>
      if c =? 37 then
        match fmt with
        | [] => []
        | c :: fmt =>
            (if c =? 100 then Dec
             else if (c =? 120) || (c =? 112) then Hex
             else if c =? 115 then Str
             else if chr && (c =? 99) then Chr
             else if c =? 37 then Text [37]
             else Text [37; c]) :: directives chr fmt
        end
      else Text [c] :: directives chr fmt
  end.

(** The text of an integer. *)
Definition int_text (ds : list Z) (xx base : Z) (sign : bool) : list Z := rev (int_buf ds xx base sign).

(** What the directives print for the words [args], the next being number [ap]. *)
Fixpoint render (ds : list Z) (args : nat → Z) (str : Z → list Z) (dirs : list directive) (ap : nat) : list Z :=
  match dirs with
  | [] => []
  | Text l :: dirs' => l ++ render ds args str dirs' ap
  | Dec :: dirs' => int_text ds (s32 (args ap)) 10 true ++ render ds args str dirs' (S ap)
  | Hex :: dirs' => int_text ds (s32 (args ap)) 16 false ++ render ds args str dirs' (S ap)
  | Str :: dirs' =>
      (if args ap =? 0 then null_string else str (args ap)) ++ render ds args str dirs' (S ap)
  | Chr :: dirs' => [args ap] ++ render ds args str dirs' (S ap)
  end.

(** Digits, the most significant first, and the number they denote. *)
Definition denotes (ds : list Z) (base : Z) (text : list Z) (x : Z) : Prop := ∃ dv,
  text = map (λ d, ds !!! Z.to_nat d) dv ∧ Forall (λ d, 0 ≤ d < base) dv ∧
  foldl (λ n d, n * base + d) 0 dv = x ∧ dv ≠ [] ∧ (head dv = Some 0 → dv = [0]).

(** ** The digits *)

Section digits.
Context (ds : list Z) (base : Z) (Hbase : 2 ≤ base).

Lemma put_digits_ok fuel : ∀ x buf, 0 ≤ x < base ^ Z.of_nat fuel → (0 < fuel)%nat →
  ∃ dv, put_digits ds fuel x base buf = buf ++ map (λ d, ds !!! Z.to_nat d) dv ∧
    Forall (λ d, 0 ≤ d < base) dv ∧ foldr (λ d n, n * base + d) 0 dv = x ∧ dv ≠ [] ∧
    (last dv = Some 0 → dv = [0]) ∧ ∀ k, (0 < k)%nat → x < base ^ Z.of_nat k → (length dv ≤ k)%nat.
Proof.
  induction fuel as [|fuel IH]; intros x buf Hx Hfuel; [lia|]. simpl.
  pose proof (Z.mod_pos_bound x base ltac:(lia)) as Hm. pose proof (Z.div_mod x base ltac:(lia)) as Hdm.
  assert (Hq : 0 ≤ x / base) by (apply Z.div_pos; lia).
  destruct (Z.eqb_spec (x / base) 0) as [E|E].
  - exists [x mod base]. simpl. split_and!; try done; [by apply Forall_singleton|lia|congruence].
  - assert (Hlt : ∀ k, x < base ^ Z.of_nat (S k) → x / base < base ^ Z.of_nat k).
    { intros k Hk. rewrite Nat2Z.inj_succ, Z.pow_succ_r in Hk by lia. apply Z.div_lt_upper_bound; lia. }
    destruct fuel as [|fuel']. { pose proof (Hlt 0%nat (proj2 Hx)) as H0. simpl in H0. lia. }
    destruct (IH (x / base) (buf ++ [ds !!! Z.to_nat (x mod base)])) as (dv & -> & Hd & Hv & Hne & Hl & Hk); [|lia|].
    { split; [done|apply Hlt, Hx]. }
    exists (x mod base :: dv). simpl. split_and!; [by rewrite <- app_assoc|by constructor|rewrite Hv; lia|done| |].
    + intros Elast. destruct dv as [|d dv]; [done|]. change (last (d :: dv) = Some 0) in Elast.
      rewrite (Hl Elast) in Hv. simpl in Hv. lia.
    + intros [|k] Hk0 Hxk; [lia|]. destruct k as [|k]; [pose proof (Hlt 0%nat Hxk) as H0; simpl in H0; lia|].
      apply le_n_S, Hk; [lia|by apply Hlt].
Qed.

Lemma foldl_rev_foldr dv n : foldl (λ n d, n * base + d) n (rev dv) = foldr (λ d n, n * base + d) n dv.
Proof.
  revert n. induction dv as [|d dv IH]; intros n; simpl; [done|]. rewrite foldl_app. simpl. by rewrite IH.
Qed.

(** The number without its sign. *)
Lemma put_digits_denotes x k : 0 ≤ x < 2 ^ 32 → (0 < k)%nat → 2 ^ 32 ≤ base ^ Z.of_nat k →
  denotes ds base (rev (put_digits ds 33 x base [])) x ∧ (length (put_digits ds 33 x base []) ≤ k)%nat.
Proof.
  intros Hx Hk0 Hk. destruct (put_digits_ok 33 x []) as (dv & -> & Hd & Hv & Hne & Hl & Hlen).
  { split; [lia|]. eapply Z.lt_le_trans; [apply Hx|]. etrans; [|apply (Z.pow_le_mono_l 2 base); lia]. done. }
  { lia. }
  simpl. rewrite <- map_rev, length_map. split; [|apply Hlen; lia].
  exists (rev dv). split_and!; [done|by apply Forall_rev|by rewrite foldl_rev_foldr| |].
  - intros E. apply (f_equal (@rev Z)) in E. by rewrite rev_involutive in E.
  - intros E. rewrite Hl; [done|]. rewrite rev_alt in E. by rewrite <- head_reverse.
Qed.
End digits.

(** The text of [xx]: its digits, after a minus sign when it is printed signed and is
    negative; printed unsigned, the 32 bits of [xx]. *)
Definition denotes_int (ds : list Z) (base : Z) (sign : bool) (text : list Z) (xx : Z) : Prop :=
  if sign && (xx <? 0) then ∃ l, text = 45 :: l ∧ denotes ds base l (- xx) else denotes ds base text (u32 xx).

Lemma int_text_denotes ds xx base sign k : 2 ≤ base → (0 < k)%nat → 2 ^ 32 ≤ base ^ Z.of_nat k →
  - 2 ^ 31 ≤ xx < 2 ^ 31 →
  denotes_int ds base sign (int_text ds xx base sign) xx ∧ (length (int_text ds xx base sign) ≤ S k)%nat.
Proof.
  intros Hb Hk0 Hk Hxx. unfold denotes_int, int_text, int_buf.
  destruct (sign && (xx <? 0)) eqn:E.
  - rewrite u32_small by lia. destruct (put_digits_denotes ds base Hb (- xx) k) as [Hd Hl]; [lia|done|done|].
    rewrite rev_app_distr. change (rev [45]) with [45]. split; [by eexists|].
    rewrite length_app, length_rev. simpl length at 1. lia.
  - destruct (put_digits_denotes ds base Hb (u32 xx) k) as [Hd Hl]; [apply u32_range|done|done|].
    rewrite length_rev. split; [done|lia].
Qed.

#[local] Opaque put_digits.

(** ** The two programs *)

Definition on_fd (fd : Z) (l : list Z) : list (Z * Z) := map (λ c, (fd, u8 c)) l.

Lemma each_putc fd l : ∀ out, each (putc fd) l out = Ok (tt, out ++ on_fd fd l).
Proof.
  induction l as [|c l IH]; intros out; simpl; [by rewrite app_nil_r|].
  unfold mbind, K_bind. simpl. rewrite IH. by rewrite <- app_assoc.
Qed.

Lemma each_consputc l : ∀ s, out_ok s → runs (each consputc l) (λ _ s', shown l s s') s.
Proof.
  induction l as [|c l IH]; intros s Ho; simpl; [kstep; by apply shown_nil|].
  kstep. eapply runs_mono; [by apply consputc_ok|]. intros [] s1 H1.
  eapply runs_mono; [apply IH, H1|]. intros [] s2 H2. exact (shown_app _ _ _ _ _ H1 H2).
Qed.

Section programs.
Context (args : nat → Z) (str : Z → list Z).

(** One write of the user program and then the rest. *)
Lemma runs_write fd l (m : K (list (Z * Z)) unit) rest w out :
  w out = Ok (tt, out ++ on_fd fd l) →
  runs m (λ _ o, o = (out ++ on_fd fd l) ++ on_fd fd rest) (out ++ on_fd fd l) →
  runs (w;; m) (λ _ o, o = out ++ on_fd fd (l ++ rest)) out.
Proof.
  intros Hw Hm. kstep. eapply runs_of_eq; [exact Hw|]. eapply runs_mono; [exact Hm|].
  intros [] o ->. unfold on_fd. by rewrite map_app, <- app_assoc.
Qed.

Lemma printf_loop_ok fd fmt : ∀ (state : bool) ap out,
  runs (printf_loop args str fd fmt state ap)
    (λ _ o, o = out ++ on_fd fd (render udigits args str (directives true (if state then 37 :: fmt else fmt)) ap)) out.
Proof.
  induction fmt as [|c fmt IH]; intros state ap out; simpl.
  { kstep. destruct state; simpl; by rewrite app_nil_r. }
  destruct state; simpl; [|destruct (Z.eqb_spec c 37) as [-> |Hc]; [apply (IH true)|apply (runs_write fd [c]); [done|apply (IH false)]]].
  destruct (c =? 100); [apply (runs_write fd (int_text _ _ _ _)); [apply each_putc|apply (IH false)]|].
  destruct ((c =? 120) || (c =? 112)); [apply (runs_write fd (int_text _ _ _ _)); [apply each_putc|apply (IH false)]|].
  destruct (c =? 115); [eapply (runs_write fd); [apply each_putc|apply (IH false)]|].
  destruct (c =? 99); [apply (runs_write fd [args ap]); [done|apply (IH false)]|].
  destruct (Z.eqb_spec c 37) as [-> |Hc]; [apply (runs_write fd [37]); [done|apply (IH false)]|].
  apply (runs_write fd [37] _ (c :: _)); [done|]. apply (runs_write fd [c]); [done|apply (IH false)].
Qed.

(** The same for the kernel. *)
Lemma runs_shown l (w m : K con unit) rest s : out_ok s →
  runs w (λ _ s', shown l s s') s → (∀ s, out_ok s → runs m (λ _ s', shown rest s s') s) →
  runs (w;; m) (λ _ s', shown (l ++ rest) s s') s.
Proof.
  intros Ho Hw Hm. kstep. eapply runs_mono; [exact Hw|]. intros [] s1 H1. eapply runs_mono; [apply Hm, H1|].
  intros [] s2 H2. by eapply shown_app.
Qed.

Lemma cprintf_loop_ok k : ∀ fmt ap s, (length fmt ≤ k)%nat → out_ok s →
  runs (cprintf_loop args str fmt ap) (λ _ s', shown (render digits args str (directives false fmt) ap) s s') s.
Proof.
  induction k as [|k IH]; intros [|c fmt] ap s Hk Ho; simpl in *; try lia; try (kstep; by apply shown_nil).
  destruct (Z.eqb_spec c 37) as [-> |Hc]; simpl.
  2:{ apply (runs_shown [c]); [done|by apply consputc_ok|]. intros s1 H1. apply IH; [lia|done]. }
  destruct fmt as [|c fmt]; simpl in *; [kstep; by apply shown_nil|].
  assert (Hrest : ∀ ap s1, out_ok s1 → runs (cprintf_loop args str fmt ap)
    (λ _ s', shown (render digits args str (directives false fmt) ap) s1 s') s1) by (intros; apply IH; [lia|done]).
  destruct (c =? 100); [apply runs_shown; [done|by apply each_consputc|auto]|].
  destruct ((c =? 120) || (c =? 112)); [apply runs_shown; [done|by apply each_consputc|auto]|].
  destruct (c =? 115); [apply runs_shown; [done|by apply each_consputc|auto]|].
  destruct (Z.eqb_spec c 37) as [-> |Hc]; simpl; [apply (runs_shown [37]); [done|by apply consputc_ok|auto]|].
  apply (runs_shown [37] _ _ (c :: _)); [done|by apply consputc_ok|]. intros s1 H1.
  apply (runs_shown [c]); [done|by apply consputc_ok|auto].
Qed.
End programs.

(** C30. Formatted output.  For every format and arguments, the user library's [printf]
    (a state machine) and the kernel's [cprintf] (which looks ahead, and panics on a null
    format) both return, the first having written and the second having shown exactly the
    rendering of the format's directives.  The directives are read in two ways that
    differ in one: [%c] is a character for [printf], and unknown to [cprintf]; an unknown
    directive is shown as it stands, and the digits above 9 are upper case in [printf]
    and lower case in [cprintf].  And for every
    [int] the digits printed denote it in base 10 or 16 without leading zeros, the most
    negative one included, and fit the buffer of 16 characters. *)
Theorem formats_are_rendered args str fd fmt :
  (∀ out, runs (printf args str fd fmt)
     (λ _ o, o = out ++ on_fd fd (render udigits args str (directives true fmt) 0)) out) ∧
  (∀ s, out_ok s → runs (cprintf args str (Some fmt)) (λ _ s', shown (render digits args str (directives false fmt) 0) s s') s) ∧
  (∀ s : con, cprintf args str None s = Panic "null fmt") ∧
  (∀ ds base (sign : bool) xx, base = 10 ∨ base = 16 → - 2 ^ 31 ≤ xx < 2 ^ 31 →
     denotes_int ds base sign (rev (int_buf ds xx base sign)) xx ∧ (length (int_buf ds xx base sign) ≤ 16)%nat).
Proof.
  split_and!.
  - intros out. apply (printf_loop_ok args str fd fmt false).
  - intros s Ho. by apply (cprintf_loop_ok args str (length fmt)).
  - done.
  - intros ds base sign xx Hb Hxx.
    destruct (int_text_denotes ds xx base sign 10) as [Hd Hl]; [lia|lia| |done|].
    { destruct Hb as [-> | ->]; done. }
    unfold int_text in *. rewrite length_rev in Hl. split; [done|lia].
Qed.

(** [printf(1, "%d%c%p\n", -2147483648, ' ', 48879)], and the same number on the console. *)
Lemma formats_are_rendered_witness :
  (∃ o, printf (λ i, [2147483648; 32; 48879] !!! i) (λ _, []) 1 [37; 100; 37; 99; 37; 112; 10] [] = Ok (tt, o) ∧
     map snd o = [45; 50; 49; 52; 55; 52; 56; 51; 54; 52; 56; 32; 66; 69; 69; 70; 10]) ∧
  ∃ s, cprintf (λ _, 48879) (λ _, []) (Some [37; 112]) blank_console = Ok (tt, s) ∧ c_sent s = [98; 101; 101; 102].
Proof.
  split.
  - destruct (formats_are_rendered (λ i, [2147483648; 32; 48879] !!! i) (λ _, []) 1 [37; 100; 37; 99; 37; 112; 10])
      as [Hp _]. destruct (Hp []) as ([] & o & E & ->). eexists. split; [exact E|by vm_compute].
  - destruct (formats_are_rendered (λ _, 48879) (λ _, []) 1 [37; 112]) as (_ & Hc & _).
    destruct (Hc blank_console (cf_out _ blank_fresh)) as ([] & s & E & Hs). exists s. split; [exact E|].
    rewrite (sh_sent _ _ _ Hs). by vm_compute.
Defined.
