(* ===== verification/Sem.v ===== *)
(** * Threads with semaphores

    The course programs on semaphores ([lab-05/buf.c], [lab-05/wordstack.c] and
    [ejemplossemaforos]) run threads that wait on and post POSIX semaphores around
    changes of shared data.  A thread is the list of operations it still has to do; any
    thread that is not blocked may take the next step.  A mutex that only its holder
    unlocks is a semaphore of value one.

    The laws below hold for any threads: a semaphore's value is balanced by the
    operations left, and every step uses up an operation. *)

From S2P Require Import Prelude.

(** An operation of a thread: [sem_wait], [sem_post], or a change of the shared data. *)
Inductive instr (A : Type) : Type :=
| Wait (s : nat)
| Post (s : nat)
| Do (a : A).
Arguments Wait {A} s.
Arguments Post {A} s.
Arguments Do {A} a.

Record sys (A D : Type) := Sys {
  sy_sem : nat → Z;
  sy_data : D;
  sy_threads : list (list (instr A))
}.
Arguments Sys {A D} _ _ _.
Arguments sy_sem {A D} _.
Arguments sy_data {A D} _.
Arguments sy_threads {A D} _.

Section machine.
Context {A D : Type} (act : A → D → D).
Implicit Types (st : sys A D) (p : list (instr A)).

(** The effect of an operation; [sem_wait] blocks while the value is zero. *)
Definition exec_instr (x : instr A) (sem : nat → Z) (d : D) : option ((nat → Z) * D) :=
  match x with
  | Wait s => if 0 <? sem s then Some (fupd sem s (sem s - 1), d) else None
  | Post s => Some (fupd sem s (sem s + 1), d)
  | Do a => Some (sem, act a d)
  end.

(** Thread [i] takes a step. *)
Definition step_thread (i : nat) (st : sys A D) : option (sys A D) :=
  match sy_threads st !! i with
  | Some (x :: rest) =>
      '(sem, d) ← exec_instr x (sy_sem st) (sy_data st);
      Some (Sys sem d (<[i := rest]> (sy_threads st)))
  | _ => None
  end.

Definition sstep (st st' : sys A D) : Prop := ∃ i, step_thread i st = Some st'.

(** Nobody can take a step. *)
Definition stuck (st : sys A D) : Prop := ∀ i, step_thread i st = None.

(** What the operations left will add to a semaphore. *)
Definition net1 (s : nat) (x : instr A) : Z :=
  match x with
  | Wait s' => if decide (s' = s) then -1 else 0
  | Post s' => if decide (s' = s) then 1 else 0
  | Do _ => 0
  end.

Definition net (s : nat) (p : list (instr A)) : Z := foldr (λ x n, net1 s x + n) 0 p.
Definition nets (s : nat) (ts : list (list (instr A))) : Z := sumf (net s) ts.

(** Operations left. *)
Definition ops_left (st : sys A D) : nat := sum_list (map length (sy_threads st)).

Lemma nets_insert s ts i x rest : ts !! i = Some (x :: rest) → nets s ts = net1 s x + nets s (<[i := rest]> ts).
Proof. intros E. unfold nets. rewrite (sumf_insert _ _ _ _ rest E). simpl. lia. Qed.

Lemma left_insert (ts : list (list (instr A))) i x rest : ts !! i = Some (x :: rest) →
  sum_list (map length ts) = S (sum_list (map length (<[i := rest]> ts))).
Proof.
  revert i. induction ts as [|p ts IH]; intros [|i] E; simplify_eq/=; [lia|]. rewrite (IH i E). lia.
Qed.

(** What a step is. *)
Lemma step_inv i st st' : step_thread i st = Some st' →
  ∃ x rest, sy_threads st !! i = Some (x :: rest) ∧ sy_threads st' = <[i := rest]> (sy_threads st) ∧
    exec_instr x (sy_sem st) (sy_data st) = Some (sy_sem st', sy_data st').
Proof.
  unfold step_thread. destruct (sy_threads st !! i) as [[|x rest]|] eqn:E; try done. simpl.
  destruct (exec_instr x _ _) as [[sem d]|] eqn:Ex; intros; simplify_eq/=. by exists x, rest.
Qed.

(** The law of a semaphore: its value and what is left to be done to it are constant. *)
Lemma balance_step s st st' : sstep st st' →
  sy_sem st' s + nets s (sy_threads st') = sy_sem st s + nets s (sy_threads st).
Proof.
  intros [i (x & rest & Ht & -> & Ex)%step_inv]. rewrite (nets_insert s _ _ _ _ Ht).
  destruct x as [s'|s'|a]; simpl in *; [destruct (0 <? sy_sem st s'); [|done]| |];
    injection Ex as <- _; unfold fupd; repeat case_decide; simplify_eq; lia.
Qed.

Lemma nonneg_step s st st' : sstep st st' → 0 ≤ sy_sem st s → 0 ≤ sy_sem st' s.
Proof.
  intros [i (x & rest & Ht & _ & Ex)%step_inv] H0.
  destruct x as [s'|s'|a]; simpl in *; [destruct (Z.ltb_spec 0 (sy_sem st s')); [|done]| |];
    injection Ex as <- _; unfold fupd; repeat case_decide; simplify_eq; lia.
Qed.

(** Every run is finite: a step uses up an operation. *)
Lemma left_nsteps k st st' : nsteps sstep k st st' → ops_left st = (k + ops_left st')%nat.
Proof.
  induction 1 as [|k st st1 st' [i (x & rest & Ht & Ets & _)%step_inv] _ IH]; [done|].
  assert (ops_left st = S (ops_left st1)) by (unfold ops_left; rewrite Ets; by eapply left_insert). lia.
Qed.

(** A thread at the front of which is an operation that does not block. *)
Lemma not_stuck i st x rest : stuck st → sy_threads st !! i = Some (x :: rest) → ∃ s, x = Wait s ∧ sy_sem st s ≤ 0.
Proof.
  intros Hs Ht. pose proof (Hs i) as Hi. unfold step_thread in Hi. rewrite Ht in Hi. simpl in Hi.
  destruct x as [s|s|a]; simpl in Hi; [|done|done]. exists s. split; [done|].
  destruct (Z.ltb_spec 0 (sy_sem st s)); [done|lia].
Qed.
End machine.

(** ** Runs that follow a schedule *)

Fixpoint run_schedule {A D} (act : A → D → D) (sched : list nat) (st : sys A D) : option (sys A D) :=
  match sched with
  | [] => Some st
  | i :: sched' => st1 ← step_thread act i st; run_schedule act sched' st1
  end.

Lemma run_schedule_nsteps {A D} (act : A → D → D) sched : ∀ st st', run_schedule act sched st = Some st' →
  nsteps (sstep act) (length sched) st st'.
Proof.
  induction sched as [|i sched IH]; intros st st' E; simpl in E; [simplify_eq; constructor|].
  destruct (step_thread act i st) as [st1|] eqn:E1; [|done]. simpl in E. eapply nsteps_l; [by exists i|by apply IH].
Qed.

Lemma done_stuck {A D} (act : A → D → D) (st : sys A D) k : sy_threads st = replicate k [] → stuck act st.
Proof.
  intros E i. unfold step_thread. rewrite E. destruct (replicate k [] !! i) as [p|] eqn:Ei; [|done].
  by apply lookup_replicate in Ei as [-> _].
Qed.
