(* ===== verification/Prodcons.v ===== *)
(** * Producer and consumer: [lab-05/buf.c] and [ejemplossemaforos/prodcons.c]

    One thread puts items in a buffer of a fixed number of places and one takes them
    out, with a mutex and two semaphores that count full and empty places.  The two
    programs differ in the size of the buffer, in the items and in how [main] gives the
    semaphores their values.  [main]'s checks of the command line, and the random
    waits, are left out: between two operations of a thread the other one may run
    anyway. *)

From S2P Require Import Prelude Ring Sem.

(** The shared buffer, and what the consumer read, by position. *)
Record shared := Shared { sh_slots : list Z; sh_results : list Z }.

(** [buf[k] = v] and [results[i] = buf[k]]. *)
Inductive access := Store (k v : Z) | Load (i k : Z).

Definition do_access (a : access) (d : shared) : shared :=
  match a with
  | Store k v => Shared (<[Z.to_nat k := v]> (sh_slots d)) (sh_results d)
  | Load i k => Shared (sh_slots d) (<[Z.to_nat i := sh_slots d !!! Z.to_nat k]> (sh_results d))
  end.

Definition MUTEX : nat := 0.
Definition LLENO : nat := 1.
Definition VACIO : nat := 2.

(** ** [lab-05/buf.c] *)

(** The loop of [producer]. *)
Definition producer (size items : Z) : list (instr access) :=
  concat (map (λ i, [Wait VACIO; Wait MUTEX; Do (Store (i mod size) i); Post MUTEX; Post LLENO]) (seqZ 0 items)).

(** The loop of [consumer] that fills [reader_results]. *)
Definition consumer (size items : Z) : list (instr access) :=
  concat (map (λ i, [Wait LLENO; Wait MUTEX; Do (Load i (i mod size)); Post MUTEX; Post VACIO]) (seqZ 0 items)).

(** The threads that [main] creates, with the semaphores; the arrays come from [malloc]. *)
Definition buf_threads (size items : Z) (slots results : list Z) : sys access shared :=
  Sys (fupd (fupd (fupd (λ _, 0) MUTEX 1) LLENO 0) VACIO size) (Shared slots results)
    [producer size items; consumer size items].

(** [main] goes on to destroy the mutex and the semaphores: the threads, what is
    destroyed, and what [main] has still to destroy.  To use what is destroyed is
    undefined. *)
Inductive buf_state :=
| Running (st : sys access shared) (gone : gset nat) (todo : list nat)
| Undefined.

Definition buf_main (size items : Z) (slots results : list Z) : buf_state :=
  Running (buf_threads size items slots results) ∅ [MUTEX; LLENO; VACIO].

(** What an operation uses. *)
Definition uses (x : instr access) : option nat :=
  match x with Wait s | Post s => Some s | Do _ => None end.

Inductive bstep : buf_state → buf_state → Prop :=
| bs_thread i x rest st st' gone todo :
    sy_threads st !! i = Some (x :: rest) → (∀ s, uses x = Some s → s ∉ gone) →
    step_thread do_access i st = Some st' →
    bstep (Running st gone todo) (Running st' gone todo)
| bs_undefined i x rest s st gone todo :
    sy_threads st !! i = Some (x :: rest) → uses x = Some s → s ∈ gone →
    bstep (Running st gone todo) Undefined
| bs_destroy s st gone todo :
    bstep (Running st gone (s :: todo)) (Running st ({[s]} ∪ gone) todo).

(** ** [ejemplossemaforos/prodcons.c] *)

Definition BUFFER_SIZE : Z := 5.

(** A [char] assigned [x]. *)
Definition s8 (x : Z) : Z := (x + 2 ^ 7) mod 2 ^ 8 - 2 ^ 7.

(** [item] when [gen] items were produced before. *)
Fixpoint item (gen : nat) : Z :=
  match gen with
  | O => s8 (64 + 1)
  | S gen' => s8 (item gen' + 1)
  end.

Definition productor (maxprod : Z) : list (instr access) :=
  concat (map (λ gen, [Wait VACIO; Wait MUTEX; Do (Store (gen mod BUFFER_SIZE) (item (Z.to_nat gen))); Post MUTEX; Post LLENO])
    (seqZ 0 maxprod)).

(** The results are the values that [item] takes, in order. *)
Definition consumidor (maxprod : Z) : list (instr access) :=
  concat (map (λ con, [Wait LLENO; Wait MUTEX; Do (Load con (con mod BUFFER_SIZE)); Post MUTEX; Post VACIO])
    (seqZ 0 maxprod)).

(** The semaphores are created with value one; then [BUFFER_SIZE - 1] posts and a wait. *)
Definition prodcons_sems : nat → Z :=
  let sem := λ _, 1 in
  let sem := Nat.iter (Z.to_nat (BUFFER_SIZE - 1)) (λ sem, fupd sem VACIO (sem VACIO + 1)) sem in
  fupd sem LLENO (sem LLENO - 1).

Definition prodcons_main (maxprod : Z) (slots taken : list Z) : sys access shared :=
  Sys prodcons_sems (Shared slots taken) [productor maxprod; consumidor maxprod].

(** ** The two threads in general *)

Section threads.
Context (size n : Z) (f : Z → Z).

Definition put_body (i : Z) : list (instr access) :=
  [Wait VACIO; Wait MUTEX; Do (Store (i mod size) (f i)); Post MUTEX; Post LLENO].
Definition get_body (i : Z) : list (instr access) :=
  [Wait LLENO; Wait MUTEX; Do (Load i (i mod size)); Post MUTEX; Post VACIO].

(** A thread that has done [k] operations of round [i]. *)
Definition at_round (body : Z → list (instr access)) (i : Z) (k : nat) : list (instr access) :=
  drop k (concat (map body (seqZ i (n - i)))).

(** Counts one when it holds. *)
Definition one (b : bool) : Z := if b then 1 else 0.
Definition inside (k : nat) : bool := (2 <=? k)%nat && (k <=? 3)%nat.

(** The items [from] up to [to], and the places of the two threads in their rounds. *)
Definition items_between (a b : Z) : list Z := map f (seqZ a (b - a)).

Record pc_inv (ip : Z) (kp : nat) (ic : Z) (kc : nat) (st : sys access shared) : Prop := {
  pi_ip : 0 ≤ ip ≤ n;
  pi_kp : (kp < 5)%nat ∧ (ip = n → kp = 0%nat);
  pi_ic : 0 ≤ ic ≤ n;
  pi_kc : (kc < 5)%nat ∧ (ic = n → kc = 0%nat);
  pi_threads : sy_threads st = [at_round put_body ip kp; at_round get_body ic kc];
  pi_vacio : sy_sem st VACIO = size - ip - one (1 <=? kp)%nat + ic;
  pi_lleno : sy_sem st LLENO = ip - ic - one (1 <=? kc)%nat;
  pi_mutex : sy_sem st MUTEX = 1 - one (inside kp) - one (inside kc);
  pi_sems : 0 ≤ sy_sem st VACIO ∧ 0 ≤ sy_sem st LLENO ∧ 0 ≤ sy_sem st MUTEX;
  pi_ring : ring_holds size (sh_slots (sy_data st)) (ic + one (3 <=? kc)%nat)
              (items_between (ic + one (3 <=? kc)%nat) (ip + one (3 <=? kp)%nat));
  pi_len : length (sh_results (sy_data st)) = Z.to_nat n;
  pi_results j : 0 ≤ j < ic + one (3 <=? kc)%nat → sh_results (sy_data st) !! Z.to_nat j = Some (f j)
}.

Hypothesis Hsize : 0 < size.

Lemma at_round_next body i k x : (∀ i, length (body i) = 5%nat) → 0 ≤ i → (k < 5)%nat → i < n → body i !! k = Some x →
  at_round body i k = x :: if decide (k = 4%nat) then at_round body (i + 1) 0 else at_round body i (S k).
Proof.
  intros Hb Hi Hk Hin Hx. unfold at_round. replace (n - i) with (Z.succ (n - (i + 1))) by lia.
  rewrite seqZ_cons by lia. simpl. replace (Z.pred (Z.succ (n - (i + 1)))) with (n - (i + 1)) by lia.
  rewrite !drop_app_le by (rewrite Hb; lia). rewrite (drop_S _ _ _ Hx). simpl. f_equal.
  replace (Z.succ i) with (i + 1) by lia. case_decide as E; [|done]. subst k.
  by rewrite (drop_ge (body i)) by (rewrite Hb; lia).
Qed.

Lemma at_round_done body i k : at_round body i k = [] → (∀ i, length (body i) = 5%nat) → 0 ≤ i ≤ n → (k < 5)%nat → i = n.
Proof.
  intros E Hb Hi Hk. destruct (decide (i = n)) as [|Hne]; [done|].
  destruct (lookup_lt_is_Some_2 (body i) k) as [x Hx]; [rewrite Hb; lia|].
  rewrite (at_round_next body i k x) in E; [done|done|lia|lia|lia|done].
Qed.

Lemma items_snoc a b : a ≤ b → items_between a (b + 1) = items_between a b ++ [f b].
Proof.
  intros Hab. unfold items_between. replace (b + 1 - a) with (b - a + 1) by lia.
  rewrite seqZ_app by lia. rewrite map_app. simpl. do 3 f_equal. lia.
Qed.

Lemma items_cons a b : a < b → items_between a b = f a :: items_between (a + 1) b.
Proof.
  intros Hab. unfold items_between. rewrite seqZ_cons by lia. simpl. do 3 f_equal; lia.
Qed.

Lemma length_items a b : a ≤ b → Z.of_nat (length (items_between a b)) = b - a.
Proof. intros. unfold items_between. rewrite length_map, length_seqZ. lia. Qed.

(** The next operation of each thread. *)
Lemma put_next ip kp ic kc st x rest : pc_inv ip kp ic kc st → at_round put_body ip kp = x :: rest →
  ip < n ∧ put_body ip !! kp = Some x ∧ rest = if decide (kp = 4%nat) then at_round put_body (ip + 1) 0 else at_round put_body ip (S kp).
Proof.
  intros [] E. assert (Hlt : ip < n).
  { destruct (decide (ip = n)) as [-> |]; [|lia]. unfold at_round in E. rewrite Z.sub_diag in E. simpl in E. by rewrite drop_nil in E. }
  destruct (lookup_lt_is_Some_2 (put_body ip) kp) as [y Hy]; [simpl; lia|].
  rewrite (at_round_next put_body ip kp y) in E; [|done|lia|lia|done|done]. by injection E as -> <-.
Qed.

Lemma get_next ip kp ic kc st x rest : pc_inv ip kp ic kc st → at_round get_body ic kc = x :: rest →
  ic < n ∧ get_body ic !! kc = Some x ∧ rest = if decide (kc = 4%nat) then at_round get_body (ic + 1) 0 else at_round get_body ic (S kc).
Proof.
  intros [] E. assert (Hlt : ic < n).
  { destruct (decide (ic = n)) as [-> |]; [|lia]. unfold at_round in E. rewrite Z.sub_diag in E. simpl in E. by rewrite drop_nil in E. }
  destruct (lookup_lt_is_Some_2 (get_body ic) kc) as [y Hy]; [simpl; lia|].
  rewrite (at_round_next get_body ic kc y) in E; [|done|lia|lia|done|done]. by injection E as -> <-.
Qed.

Lemma ring_store slots a b : ring_holds size slots a (items_between a b) → a ≤ b → b - a < size →
  ring_holds size (<[Z.to_nat (b mod size) := f b]> slots) a (items_between a (b + 1)).
Proof.
  intros Hr Hab Hroom. rewrite items_snoc by done. pose proof (length_items a b Hab) as Hl.
  pose proof (ring_put size Hsize slots a _ (f b) Hr ltac:(lia)) as Hp. rewrite Hl in Hp. by replace (a + (b - a)) with b in Hp by lia.
Qed.

Lemma ring_load slots a b : ring_holds size slots a (items_between a b) → a < b →
  slots !!! Z.to_nat (a mod size) = f a ∧ ring_holds size slots (a + 1) (items_between (a + 1) b).
Proof.
  intros Hr Hab. rewrite items_cons in Hr by done. split; [|by eapply ring_drop].
  apply list_lookup_total_correct. by eapply ring_first.
Qed.

(** The fields of the invariant after a step that changes one semaphore. *)
Ltac pc_fields Es Ed :=
  split; try rewrite <- Es; try rewrite <- Ed; rewrite ?fupd_eq, ?fupd_ne by done; try done; try lia;
  unfold one, inside in *; simpl in *; try done; try lia.

(** The producer takes a step: to the next operation, or to the next round. *)
Lemma put_step ip kp ic kc st st' : pc_inv ip kp ic kc st → step_thread do_access 0 st = Some st' →
  ∃ ip' kp', pc_inv ip' kp' ic kc st'.
Proof.
  intros Hi (x & rest & Ht & Ets & Ex)%step_inv. pose proof Hi as []. rewrite pi_threads0 in Ht, Ets. injection Ht as Ht.
  destruct (put_next _ _ _ _ _ _ _ Hi Ht) as (Hlt & Hx & ->). simpl in Ets.
  assert (Hpos : ic + one (3 <=? kc)%nat ≤ ip)
    by (clear - pi_lleno0 pi_sems0; unfold one in *; destruct kc as [|[|[|kc]]]; simpl in *; lia).
  pose proof (length_items (ic + one (3 <=? kc)%nat) ip Hpos) as Hlen.
  destruct kp as [|[|[|[|[|kp]]]]]; [..|lia]; simpl in Hx; injection Hx as <-; simpl in Ex;
    try (destruct (Z.ltb_spec 0 (sy_sem st VACIO)); [|done]); try (destruct (Z.ltb_spec 0 (sy_sem st MUTEX)); [|done]);
    injection Ex as Es Ed; (case_decide; [|try done]; try done).
  - exists ip, 1%nat. pc_fields Es Ed.
  - exists ip, 2%nat. pc_fields Es Ed.
  - exists ip, 3%nat. pc_fields Es Ed. apply ring_store; [by rewrite Z.add_0_r in pi_ring0|done|].
    clear - pi_vacio0 pi_sems0. destruct kc as [|[|[|kc]]]; simpl in *; lia.
  - exists ip, 4%nat. pc_fields Es Ed.
  - exists (ip + 1), 0%nat. pc_fields Es Ed. by rewrite Z.add_0_r.
Qed.

(** The consumer takes a step. *)
Lemma get_step ip kp ic kc st st' : pc_inv ip kp ic kc st → step_thread do_access 1 st = Some st' →
  ∃ ic' kc', pc_inv ip kp ic' kc' st'.
Proof.
  intros Hi (x & rest & Ht & Ets & Ex)%step_inv. pose proof Hi as []. rewrite pi_threads0 in Ht, Ets. injection Ht as Ht.
  destruct (get_next _ _ _ _ _ _ _ Hi Ht) as (Hlt & Hx & ->). simpl in Ets.
  destruct kc as [|[|[|[|[|kc]]]]]; [..|lia]; simpl in Hx; injection Hx as <-; simpl in Ex;
    try (destruct (Z.ltb_spec 0 (sy_sem st LLENO)); [|done]); try (destruct (Z.ltb_spec 0 (sy_sem st MUTEX)); [|done]);
    injection Ex as Es Ed; (case_decide; [|try done]; try done).
  - exists ic, 1%nat. pc_fields Es Ed.
  - exists ic, 2%nat. pc_fields Es Ed.
  - rewrite Z.add_0_r in pi_ring0. destruct (ring_load _ _ _ pi_ring0) as [Hload Hring].
    { clear - pi_lleno0 pi_sems0. unfold one in *; simpl in *. destruct kp as [|[|[|kp]]]; simpl in *; lia. }
    exists ic, 3%nat. pc_fields Es Ed; [by rewrite length_insert|]. intros j Hj. rewrite Hload.
    destruct (decide (j = ic)) as [-> |Hne]; [apply list_lookup_insert_eq; lia|].
    rewrite list_lookup_insert_ne by lia. apply pi_results0. lia.
  - exists ic, 4%nat. pc_fields Es Ed.
  - exists (ic + 1), 0%nat. pc_fields Es Ed; [by rewrite Z.add_0_r|]. intros j Hj. apply pi_results0. lia.
Qed.

Lemma pc_inv_step ip kp ic kc st st' : pc_inv ip kp ic kc st → sstep do_access st st' →
  ∃ ip' kp' ic' kc', pc_inv ip' kp' ic' kc' st'.
Proof.
  intros Hi [[|[|i]] Hs].
  - destruct (put_step _ _ _ _ _ _ Hi Hs) as (ip' & kp' & ?). eauto.
  - destruct (get_step _ _ _ _ _ _ Hi Hs) as (ic' & kc' & ?). eauto.
  - unfold step_thread in Hs. by rewrite (pi_threads _ _ _ _ _ Hi) in Hs.
Qed.

Lemma pc_inv_nsteps m st st' : nsteps (sstep do_access) m st st' →
  (∃ ip kp ic kc, pc_inv ip kp ic kc st) → ∃ ip kp ic kc, pc_inv ip kp ic kc st'.
Proof.
  induction 1 as [|m st st1 st' Hs _ IH]; [done|]. intros (ip & kp & ic & kc & Hi). apply IH. by eapply pc_inv_step.
Qed.

(** Nobody waits for ever. *)
Lemma pc_not_stuck ip kp ic kc st : pc_inv ip kp ic kc st → stuck do_access st → ip = n ∧ ic = n.
Proof.
  intros Hi Hstuck. pose proof Hi as []. destruct (at_round put_body ip kp) as [|x r] eqn:Ep.
  - apply at_round_done in Ep as ->; [|done|done|lia]. split; [done|].
    destruct (at_round get_body ic kc) as [|y r] eqn:Ec; [apply at_round_done in Ec; [done|done|done|lia]|].
    destruct (get_next _ _ _ _ _ _ _ Hi Ec) as (Hlt & Hy & _).
    destruct (not_stuck do_access 1 st y r Hstuck) as (s & -> & Hs); [by rewrite pi_threads0|].
    pose proof (proj2 pi_kp0 eq_refl) as ->. unfold one, inside in *.
    destruct kc as [|[|[|[|[|kc]]]]]; simpl in *; simplify_eq; lia.
  - destruct (put_next _ _ _ _ _ _ _ Hi Ep) as (Hlt & Hx & _).
    destruct (not_stuck do_access 0 st x r Hstuck) as (s & -> & Hs); [by rewrite pi_threads0|].
    destruct (at_round get_body ic kc) as [|y r'] eqn:Ec.
    + apply at_round_done in Ec as ->; [|done|done|lia]. unfold one, inside in *.
      pose proof (proj2 pi_kc0 eq_refl) as ->. destruct kp as [|[|[|[|[|kp]]]]]; simpl in *; simplify_eq; lia.
    + destruct (get_next _ _ _ _ _ _ _ Hi Ec) as (Hlt' & Hy & _).
      destruct (not_stuck do_access 1 st y r' Hstuck) as (s' & -> & Hs'); [by rewrite pi_threads0|].
      unfold one, inside in *.
      destruct kp as [|[|[|[|[|kp]]]]]; destruct kc as [|[|[|[|[|kc]]]]]; simpl in *; simplify_eq; lia.
Qed.
End threads.

(** ** What the programs promise *)

(** The thread is about to use the buffer. *)
Definition accessing (p : list (instr access)) : bool := match p with Do _ :: _ => true | _ => false end.

(** After [m] steps: there are at most [10 * n]; only one thread is at the buffer, and a
    consumer that is done leaves nothing for the producer to do; when the threads have
    stopped both are done and the consumer has the [n] items in order. *)
Definition delivered (m : nat) (st : sys access shared) (n : Z) (f : Z → Z) : Prop :=
  Z.of_nat m ≤ 10 * n ∧
  (∀ p c, sy_threads st = [p; c] → ¬ (accessing p = true ∧ accessing c = true) ∧ (c = [] → p = [])) ∧
  (stuck do_access st → Z.of_nat m = 10 * n ∧ sy_threads st = [[]; []] ∧ sh_results (sy_data st) = map f (seqZ 0 n)).

Definition delivers (st0 : sys access shared) (n : Z) (f : Z → Z) : Prop := ∀ m st,
  nsteps (sstep do_access) m st0 st → delivered m st n f.

Section delivery.
Context (size n : Z) (f : Z → Z) (Hsize : 0 < size).
Notation start sem slots results :=
  (Sys sem (Shared slots results) [at_round n (put_body size f) 0 0; at_round n (get_body size) 0 0]).

Lemma pc_inv_start sem (slots results : list Z) : 0 ≤ n → length slots = Z.to_nat size → length results = Z.to_nat n →
  sem MUTEX = 1 → sem LLENO = 0 → sem VACIO = size → pc_inv size n f 0 0 0 0 (start sem slots results).
Proof.
  intros Hn Hl Hr Hm Hll Hv. split; simpl; rewrite ?Hm, ?Hll, ?Hv; try done; try lia.
  by apply ring_nil.
Qed.

Lemma length_rounds (body : Z → list (instr access)) k : (∀ i, length (body i) = 5%nat) → 0 ≤ k → Z.of_nat (length (concat (map body (seqZ 0 k)))) = 5 * k.
Proof.
  intros Hb Hk. rewrite length_concat. assert (Hs : ∀ l, sum_list (map length (map body l)) = (5 * length l)%nat).
  { induction l as [|i l IH]; [done|]. simpl. rewrite Hb, IH. lia. }
  unfold fmap, list_fmap. rewrite Hs, length_seqZ. lia.
Qed.

Lemma ops_start sem slots results : 0 ≤ n → Z.of_nat (ops_left (start sem slots results)) = 10 * n.
Proof.
  intros Hn. unfold ops_left, at_round. simpl. rewrite !drop_0, Z.sub_0_r, Nat.add_0_r, Nat2Z.inj_add.
  rewrite !length_rounds by done. lia.
Qed.

Lemma in_section (body : Z → list (instr access)) i k x : 0 ≤ i → (k < 5)%nat → (∀ i, length (body i) = 5%nat) →
  (∀ i k, match body i !! k with Some (Do _) => k = 2%nat | _ => True end) →
  accessing (at_round n body i k) = x → x = true → k = 2%nat.
Proof.
  intros Hi Hk Hb Hd <- Ha. destruct (decide (i < n)) as [Hlt|Hge].
  - destruct (lookup_lt_is_Some_2 (body i) k) as [y Hy]; [rewrite Hb; lia|].
    rewrite (at_round_next n body i k y) in Ha by done. pose proof (Hd i k) as Hdk. rewrite Hy in Hdk. by destruct y.
  - unfold at_round in Ha. destruct (n - i) as [|p|p] eqn:E; [|lia|]; simpl in Ha; by rewrite drop_nil in Ha.
Qed.

Lemma results_all ic st kp : pc_inv size n f n kp ic 0 st → ic = n → sh_results (sy_data st) = map f (seqZ 0 n).
Proof.
  intros [] ->. apply list_eq. intros j. destruct (decide (j < Z.to_nat n)%nat) as [Hj|Hj].
  - pose proof (pi_results0 (Z.of_nat j)) as E. rewrite Nat2Z.id in E. rewrite E by (simpl; lia).
    symmetry. apply (list_lookup_fmap_Some f). exists (Z.of_nat j). split; [done|].
    apply lookup_seqZ. lia.
  - rewrite lookup_ge_None_2 by lia. symmetry. apply lookup_ge_None_2. rewrite length_map, length_seqZ. lia.
Qed.

Lemma delivery sem (slots results : list Z) : 0 ≤ n → length slots = Z.to_nat size → length results = Z.to_nat n →
  sem MUTEX = 1 → sem LLENO = 0 → sem VACIO = size → delivers (start sem slots results) n f.
Proof.
  intros Hn Hl Hr Hm Hll Hv m st Hrun.
  destruct (pc_inv_nsteps size n f Hsize m _ _ Hrun) as (ip & kp & ic & kc & Hi).
  { do 4 eexists. by apply pc_inv_start. }
  pose proof (left_nsteps _ _ _ _ Hrun) as Hleft. pose proof (ops_start sem slots results Hn) as Hops.
  split_and!; [lia| |].
  - intros p c Ets. pose proof Hi as []. rewrite Ets in pi_threads0. injection pi_threads0 as -> ->. split.
    + intros [Hp Hc].
      apply (in_section _ ip kp true) in Hp as ->; try done; [|lia|lia|by intros i [|[|[|[|[|k]]]]]].
      apply (in_section _ ic kc true) in Hc as ->; try done; [|lia|lia|by intros i [|[|[|[|[|k]]]]]].
      unfold one, inside in *. simpl in *. lia.
    + intros Ec. apply at_round_done in Ec as ->; [|done|done|lia].
      assert (ip = n) as -> by (unfold one in *; simpl in *; destruct kc; simpl in *; lia).
      rewrite (proj2 pi_kp0 eq_refl). unfold at_round. by rewrite Z.sub_diag.
  - intros Hs. destruct (pc_not_stuck _ _ _ Hsize _ _ _ _ _ Hi Hs) as [-> ->]. pose proof Hi as [].
    pose proof (proj2 pi_kp0 eq_refl) as ->. pose proof (proj2 pi_kc0 eq_refl) as ->.
    assert (Ets : sy_threads st = [[]; []]) by (rewrite pi_threads0; unfold at_round; by rewrite Z.sub_diag).
    split_and!; [|done|by eapply results_all]. unfold ops_left in Hleft at 2. rewrite Ets in Hleft. simpl in Hleft. lia.
Qed.
End delivery.

(** ** [main] of [buf.c] and its threads *)

(** Until something is destroyed only the threads took steps. *)
Lemma bsteps_threads m b b' : nsteps bstep m b b' → ∀ st0 gone0 todo0 st todo,
  b = Running st0 gone0 todo0 → b' = Running st ∅ todo → gone0 = ∅ ∧ todo0 = todo ∧ nsteps (sstep do_access) m st0 st.
Proof.
  induction 1 as [b|m b b1 b' Hs Hr IH]; intros st0 gone0 todo0 st todo E E'.
  { rewrite E in E'. injection E' as -> -> ->. by split_and!; [..|constructor]. }
  subst b'. destruct Hs as [i x rest st1 st2 gone todo1 Ht Hu Hst|i x rest s st1 gone todo1 Ht Hu Hg|s st1 gone todo1].
  - injection E as -> -> ->. destruct (IH _ _ _ _ _ eq_refl eq_refl) as (-> & -> & Hn). split_and!; [done|done|].
    eapply nsteps_l; [by exists i|exact Hn].
  - inversion Hr as [|? ? ? ? Hb]. inversion Hb.
  - destruct (IH _ _ _ _ _ eq_refl eq_refl) as (E1 & _). exfalso. set_solver.
Qed.

(** [main] may destroy everything first: then the first operation of the producer is
    undefined. *)
Lemma buf_main_destroys_too_early size items slots results : 0 < items →
  rtc bstep (buf_main size items slots results) Undefined.
Proof.
  intros Hi. unfold buf_main. do 3 (eapply rtc_l; [apply bs_destroy|]). apply rtc_once.
  assert (∃ rest, producer size items = Wait VACIO :: rest) as [rest E].
  { unfold producer. replace items with (Z.succ (items - 1)) by lia. rewrite seqZ_cons by lia. by eexists. }
  apply (bs_undefined 0 (Wait VACIO) rest VACIO); [simpl; by rewrite E|done|set_solver].
Qed.

(** C31. The bounded buffer delivers every item, once and in order.  For
    [ejemplossemaforos/prodcons.c] with any number of items, and for the threads of
    [lab-05/buf.c] with any size and number of items as long as its [main] has not
    destroyed the mutex or a semaphore: however the producer and the consumer are
    interleaved, they take at most ten operations per item, are never both at the
    buffer, no wait lasts for ever, and when nothing more can run the consumer has read
    exactly the items produced, in order, although the places of the buffer are used
    over and over.  A consumer that is done leaves a producer that is done, so that the
    [main] of [prodcons.c], which waits for the consumer only, destroys semaphores
    nobody uses.  ([buf_main_destroys_too_early]: the [main] of [buf.c] does not wait.) *)
Theorem bounded_buffer_delivers_in_order size items slots results maxprod slots' taken :
  0 < size → 0 ≤ items → length slots = Z.to_nat size → length results = Z.to_nat items →
  0 ≤ maxprod → length slots' = Z.to_nat BUFFER_SIZE → length taken = Z.to_nat maxprod →
  (∀ m st todo, nsteps bstep m (buf_main size items slots results) (Running st ∅ todo) → delivered m st items (λ i, i)) ∧
  delivers (prodcons_main maxprod slots' taken) maxprod (λ gen, item (Z.to_nat gen)).
Proof.
  intros Hsize Hitems Hs Hr Hmax Hs' Ht. split.
  - intros m st todo Hm. destruct (bsteps_threads _ _ _ Hm _ _ _ _ _ eq_refl eq_refl) as (_ & _ & Hn). revert m st Hm Hn. intros m st _. revert m st.
    pose proof (delivery size items (λ i, i) Hsize _ _ _ Hitems Hs Hr
      (eq_refl : fupd (fupd (fupd (λ _, 0) MUTEX 1) LLENO 0) VACIO size MUTEX = 1) eq_refl eq_refl) as Hd.
    unfold at_round in Hd. rewrite Z.sub_0_r in Hd. exact Hd.
  - pose proof (delivery BUFFER_SIZE maxprod (λ gen, item (Z.to_nat gen)) ltac:(done) prodcons_sems _ _ Hmax Hs' Ht
      eq_refl eq_refl eq_refl) as Hd.
    unfold at_round in Hd. rewrite Z.sub_0_r in Hd. exact Hd.
Qed.

Lemma nsteps_bstep m st st' todo : nsteps (sstep do_access) m st st' → nsteps bstep m (Running st ∅ todo) (Running st' ∅ todo).
Proof.
  induction 1 as [|m st st1 st' [i Hs] _ IH]; [constructor|]. econstructor; [|exact IH].
  destruct (step_inv _ _ _ _ Hs) as (x & rest & Hx & _). by eapply bs_thread; [exact Hx|set_solver|].
Qed.

(** Three items through one place. *)
Lemma bounded_buffer_delivers_in_order_witness :
  let st0 := buf_threads 1 3 [7] [7; 7; 7] in
  let sched := concat (replicate 3 [0; 0; 0; 0; 0; 1; 1; 1; 1; 1])%nat in
  ∃ st, run_schedule do_access sched st0 = Some st ∧ stuck do_access st ∧ sh_results (sy_data st) = [0; 1; 2].
Proof.
  intros st0 sched.
  destruct (bounded_buffer_delivers_in_order 1 3 [7] [7; 7; 7] 4 [0; 0; 0; 0; 0] [0; 0; 0; 0]) as [Hd _];
    [lia|lia|done|done|lia|done|done|].
  assert (Ht : sy_threads <$> run_schedule do_access sched st0 = Some [[]; []]) by (by vm_compute).
  destruct (run_schedule do_access sched st0) as [st|] eqn:E; [|done]. injection Ht as Ht.
  assert (Hstuck : stuck do_access st) by (by apply (done_stuck _ _ 2)).
  destruct (Hd _ _ _ (nsteps_bstep _ _ _ _ (run_schedule_nsteps _ _ _ _ E))) as (_ & _ & Hend). destruct (Hend Hstuck) as (_ & _ & Hres).
  exists st. split_and!; [done|done|]. rewrite Hres. by vm_compute.
Defined.
