(* ===== verification/Wordstack.v ===== *)
(** * A stack of words in shared memory: [lab-05/wordstack.c]

    Any number of processes push words on the stack and remove the last one, each under
    a mutex and with two semaphores that count words and room.  A process is one
    operation of the program; the mapping of the shared memory always succeeds.

    The mutex is initialised with the default attributes and so private to the process
    that made it, while the processes that lock it are others.  The model takes it to
    work, as a word in the shared memory does, as long as no process finds it locked; a
    process that does is outside of anything defined. *)

From S2P Require Import Prelude Sem.

Definition ITEMS : Z := 15.
Definition MAX_WORD : Z := 50.

(** [struct wordstack] without its locks; [heap] with its rows one after the other.  And
    what the processes that remove a word print meanwhile. *)
Record wordstack := Wordstack {
  ws_free : Z;
  ws_items : Z;
  ws_max_word : Z;
  ws_heap : list Z;
  ws_out : list Z
}.

(** The statements under the mutex. *)
Inductive change := PutWord (value : list Z) | FreeDec | ItemsInc | ClearTop | FreeInc | ItemsDec.

(** Bytes written one after the other from place [a] on. *)
Fixpoint write_from (a : Z) (l heap : list Z) : list Z :=
  match l with
  | [] => heap
  | c :: l' => write_from (a + 1) l' (<[Z.to_nat a := c]> heap)
  end.

Definition do_change (x : change) (d : wordstack) : wordstack :=
  match x with
  | PutWord value =>
      Wordstack (ws_free d) (ws_items d) (ws_max_word d) (write_from (ws_items d * MAX_WORD) value (ws_heap d)) (ws_out d)
  | FreeDec => Wordstack (ws_free d - 1) (ws_items d) (ws_max_word d) (ws_heap d) (ws_out d)
  | ItemsInc => Wordstack (ws_free d) (ws_items d + 1) (ws_max_word d) (ws_heap d) (ws_out d)
  | ClearTop =>
      let nuls := replicate (Z.to_nat (ws_max_word d)) 0 in
      Wordstack (ws_free d) (ws_items d) (ws_max_word d)
        (write_from ((ws_items d - 1) * MAX_WORD) nuls (ws_heap d)) (ws_out d ++ nuls)
  | FreeInc => Wordstack (ws_free d + 1) (ws_items d) (ws_max_word d) (ws_heap d) (ws_out d)
  | ItemsDec => Wordstack (ws_free d) (ws_items d - 1) (ws_max_word d) (ws_heap d) (ws_out d)
  end.

Definition WMUTEX : nat := 0.
Definition FULL : nat := 1.
Definition EMPTY : nat := 2.

Definition modify_canvas (value : list Z) : list (instr change) :=
  [Wait EMPTY; Wait WMUTEX; Do (PutWord value); Do FreeDec; Do ItemsInc; Post WMUTEX; Post FULL].

Definition remove_queue : list (instr change) :=
  [Wait FULL; Wait WMUTEX; Do ClearTop; Do FreeInc; Do ItemsDec; Post WMUTEX; Post EMPTY].

(** [create_queue] on new shared memory, which is zero. *)
Definition create_queue : wordstack * (nat → Z) :=
  (Wordstack ITEMS 0 MAX_WORD (replicate (Z.to_nat (ITEMS * MAX_WORD)) 0) [],
   fupd (fupd (fupd (λ _, 0) WMUTEX 1) FULL 0) EMPTY ITEMS).

(** A row of [print_queue], and all of them. *)
Definition print_row (d : wordstack) (i : Z) : list Z :=
  map (λ j, let c := ws_heap d !!! Z.to_nat (i * MAX_WORD + j) in if c =? 0 then 32 else c) (seqZ 0 MAX_WORD) ++ [124; 10].
Definition print_queue (d : wordstack) : list Z := concat (map (print_row d) (seqZ 0 ITEMS)).

(** A process: [-w] with a word, or [-r]. *)
Inductive wop := Push (w : list Z) | Pop.

Definition program (o : wop) : list (instr change) :=
  match o with Push w => modify_canvas w | Pop => remove_queue end.

Definition start_stack (ops : list wop) : sys change wordstack :=
  Sys create_queue.2 create_queue.1 (map program ops).

(** The processes at work, or one of them found the private mutex locked by another. *)
Inductive work := Working (st : sys change wordstack) | Undefined.

Inductive wstep : work → work → Prop :=
| ws_run t st st' : step_thread do_change t st = Some st' → wstep (Working st) (Working st')
| ws_locked t rest st :
    sy_threads st !! t = Some (Wait WMUTEX :: rest) → sy_sem st WMUTEX = 0 → wstep (Working st) Undefined.

(** ** The stack *)

(** The words, the last one pushed first. *)
Definition apply_op (a : list (list Z)) (o : wop) : list (list Z) :=
  match o with Push w => w :: a | Pop => tail a end.

Definition pad (w : list Z) : list Z := w ++ replicate (50 - length w) 0.

(** The memory between two operations. *)
Definition rows (a : list (list Z)) : list Z := concat (map pad (rev a)) ++ replicate (50 * (15 - length a)) 0.

Record holds_stack (a : list (list Z)) (d : wordstack) : Prop := {
  hs_fits : (length a ≤ 15)%nat;
  hs_words : Forall (λ w, (length w ≤ 50)%nat) a;
  hs_items : ws_items d = Z.of_nat (length a);
  hs_free : ws_free d = ITEMS - Z.of_nat (length a);
  hs_max : ws_max_word d = MAX_WORD;
  hs_heap : ws_heap d = rows a
}.

(** The word fits its row. *)
Definition fits_op (o : wop) : Prop := match o with Push w => (length w ≤ 50)%nat | Pop => True end.

(** The operation finds room, or a word. *)
Definition can_do (a : list (list Z)) (o : wop) : Prop :=
  match o with Push _ => (length a < 15)%nat | Pop => a ≠ [] end.

(** The statements of an operation under the mutex. *)
Definition changes (o : wop) : list change :=
  match o with Push w => [PutWord w; FreeDec; ItemsInc] | Pop => [ClearTop; FreeInc; ItemsDec] end.

Definition run_changes (l : list change) (d : wordstack) : wordstack := foldl (λ d x, do_change x d) d l.

Lemma write_from_app l : ∀ p q r, length q = length l → write_from (Z.of_nat (length p)) l (p ++ q ++ r) = p ++ l ++ r.
Proof.
  induction l as [|c l IH]; intros p q r Hl; simpl; [by destruct q|].
  destruct q as [|x q]; [done|]. simpl in Hl. rewrite Nat2Z.id, insert_app_r_alt, Nat.sub_diag by lia. simpl.
  pose proof (IH (p ++ [c]) q r ltac:(lia)) as E. rewrite length_app in E. simpl in E.
  replace (Z.of_nat (length p) + 1) with (Z.of_nat (length p + 1)) by lia.
  rewrite <- !app_assoc in E. exact E.
Qed.

Lemma length_pad w : (length w ≤ 50)%nat → length (pad w) = 50%nat.
Proof. intros. unfold pad. rewrite length_app, length_replicate. lia. Qed.

Lemma length_rows_of a : Forall (λ w, (length w ≤ 50)%nat) a → length (concat (map pad (rev a))) = (length a * 50)%nat.
Proof.
  induction 1 as [|w a Hw _ IH]; [done|]. simpl. rewrite map_app, concat_app, length_app, IH. simpl.
  rewrite app_nil_r, length_pad by done. lia.
Qed.

Lemma push_rows a w : Forall (λ w, (length w ≤ 50)%nat) a → (length w ≤ 50)%nat → (length a < 15)%nat →
  write_from (Z.of_nat (length a) * MAX_WORD) w (rows a) = rows (w :: a).
Proof.
  intros Ha Hw Hl. unfold rows. cbn [rev length]. rewrite map_app, concat_app, <- app_assoc. cbn [map concat]. rewrite app_nil_r.
  replace (Z.of_nat (length a) * MAX_WORD) with (Z.of_nat (length (concat (map pad (rev a)))))
    by (rewrite length_rows_of by done; unfold MAX_WORD; lia).
  replace (50 * (15 - length a))%nat with (length w + (50 - length w + 50 * (15 - S (length a))))%nat by lia.
  rewrite replicate_add, write_from_app by (by rewrite length_replicate).
  unfold pad. by rewrite replicate_add, <- !app_assoc.
Qed.

Lemma pop_rows a w : Forall (λ w, (length w ≤ 50)%nat) (w :: a) → (length a < 15)%nat →
  write_from (Z.of_nat (length a) * MAX_WORD) (replicate 50 0) (rows (w :: a)) = rows a.
Proof.
  intros [Hw Ha]%Forall_cons Hl. unfold rows. cbn [rev length]. rewrite map_app, concat_app, <- app_assoc.
  cbn [map concat]. rewrite app_nil_r.
  replace (Z.of_nat (length a) * MAX_WORD) with (Z.of_nat (length (concat (map pad (rev a)))))
    by (rewrite length_rows_of by done; unfold MAX_WORD; lia).
  rewrite write_from_app by (rewrite length_replicate; by apply length_pad). f_equal.
  rewrite <- replicate_add. f_equal. lia.
Qed.

(** The statements together push and pop. *)
Lemma changes_ok a o d : holds_stack a d → fits_op o →
  can_do a o → holds_stack (apply_op a o) (run_changes (changes o) d).
Proof.
  intros [] Hf Hroom. destruct o as [w|]; simpl in *.
  - split; simpl; [lia|by constructor|lia|lia|done|]. rewrite hs_items0, hs_heap0. by apply push_rows.
  - destruct a as [|w a]; [done|]. simpl in *. split; simpl; [lia|by apply Forall_cons in hs_words0 as [_ ?]|lia|lia|done|].
    rewrite hs_items0, hs_heap0, hs_max0. replace (Z.of_nat (S (length a)) - 1) with (Z.of_nat (length a)) by lia.
    apply (pop_rows a w); [done|lia].
Qed.

(** What the removals of a log print. *)
Definition nuls (log : list wop) : list Z := concat (map (λ o, match o with Push _ => [] | Pop => replicate 50 0 end) log).

Lemma changes_out a o d log : holds_stack a d → ws_out d = nuls log → ws_out (run_changes (changes o) d) = nuls (log ++ [o]).
Proof.
  intros [] E. unfold nuls. rewrite map_app, concat_app. fold (nuls log). rewrite <- E.
  destruct o; simpl; [by rewrite app_nil_r|]. by rewrite hs_max0.
Qed.

(** ** Many processes *)

(** A process and how many operations it has done. *)
Notation phase := (wop * nat)%type.

Definition rem (p : phase) : list (instr change) := drop p.2 (program p.1).

(** What the process has added to a semaphore so far. *)
Definition given (s : nat) (p : phase) : Z := net s (program p.1) - net s (rem p).

Definition is_inside (p : phase) : Z := if ((2 <=? p.2) && (p.2 <=? 5))%nat then 1 else 0.

(** What the process has added to the stack. *)
Definition grown (p : phase) : Z :=
  if (5 <=? p.2)%nat then match p.1 with Push _ => 1 | Pop => -1 end else 0.

(** The operations that took effect. *)
Definition effective (ph : list phase) : list wop := map fst (List.filter (λ p, 5 <=? p.2)%nat ph).

(** Every operation of the log could be done. *)
Definition valid_log (log : list wop) : Prop := ∀ l1 o l2, log = l1 ++ o :: l2 → can_do (foldl apply_op [] l1) o.

Record ws_inv (ops : list wop) (ph : list phase) (log : list wop) (st : sys change wordstack) : Prop := {
  wi_ops : map fst ph = ops;
  wi_k p : p ∈ ph → (p.2 ≤ 7)%nat;
  wi_threads : sy_threads st = map rem ph;
  wi_sems s : sy_sem st s + nets s (sy_threads st) = create_queue.2 s + nets s (map program ops);
  wi_nonneg s : 0 ≤ sy_sem st s;
  wi_log : log ≡ₚ effective ph;
  wi_valid : valid_log log;
  wi_size : Z.of_nat (length (foldl apply_op [] log)) = sumf grown ph;
  wi_data : ∃ d, (holds_stack (foldl apply_op [] log) d ∧ ws_out d = nuls log) ∧
    (∀ t o k, ph !! t = Some (o, k) → (3 ≤ k ≤ 4)%nat → sy_data st = run_changes (take (k - 2) (changes o)) d) ∧
    ((∀ t o k, ph !! t = Some (o, k) → ¬ (3 ≤ k ≤ 4)%nat) → sy_data st = d)
}.

Section inv.
Context (ops : list wop) (ph : list phase) (log : list wop) (st : sys change wordstack).
Context (Hi : ws_inv ops ph log st).

Lemma sem_given s : sy_sem st s = create_queue.2 s + sumf (given s) ph.
Proof.
  destruct Hi. pose proof (wi_sems0 s) as E. rewrite wi_threads0 in E. rewrite <- wi_ops0 in E. unfold nets in E.
  rewrite !sumf_map in E. unfold given.
  assert (Es : sumf (λ p, net s (program p.1) - net s (rem p)) ph =
    sumf (λ p, net s (program p.1)) ph + sumf (λ p, - net s (rem p)) ph) by (rewrite <- sumf_add; by apply sumf_eq).
  rewrite Es, sumf_opp. lia.
Qed.

(** Facts about a process in each of its phases. *)
Ltac phases p Hp :=
  let m := fresh "m" in let Hm := fresh "Hm" in
  pose proof (wi_k _ _ _ _ Hi _ Hp) as Hm; destruct p as [[?|] m]; simpl in Hm;
  do 8 (destruct m as [|m]; [by vm_compute|]); lia.

Lemma mutex_value : sy_sem st WMUTEX = 1 - sumf is_inside ph.
Proof.
  rewrite sem_given. assert (E : sumf (given WMUTEX) ph = sumf (λ p, - is_inside p) ph).
  { apply sumf_eq. intros p Hp. phases p Hp. }
  rewrite E, sumf_opp. change (create_queue.2 WMUTEX) with 1. lia.
Qed.

Lemma is_inside_pos p : 0 ≤ is_inside p.
Proof. unfold is_inside. destruct (_ && _); lia. Qed.

(** One process is inside. *)
Lemma only_one t u p q : ph !! t = Some p → ph !! u = Some q → is_inside p = 1 → is_inside q = 1 → t = u.
Proof.
  intros Hp Hq H1 H2. destruct (decide (t = u)) as [|Hne]; [done|].
  pose proof (sumf_two is_inside ph t u p q is_inside_pos Hp Hq Hne). pose proof mutex_value.
  pose proof (wi_nonneg _ _ _ _ Hi WMUTEX). lia.
Qed.

(** A process that is pushing has room, and one that is removing has a word. *)
Lemma room t o k : ph !! t = Some (o, k) → (1 ≤ k ≤ 4)%nat →
  can_do (foldl apply_op [] log) o.
Proof.
  intros Ht Hk. unfold can_do. pose proof (wi_size _ _ _ _ Hi) as Hsz.
  set (mid (push : bool) := λ p : phase,
    if ((1 <=? p.2) && (p.2 <=? 4))%nat && (match p.1 with Push _ => push | Pop => negb push end) then 1 else 0).
  assert (Hmid : ∀ push p, 0 ≤ mid push p) by (intros push p; unfold mid; destruct (_ && _); lia).
  assert (Hat : ∀ push, (match o with Push _ => push | Pop => negb push end) = true → 1 ≤ sumf (mid push) ph).
  { intros push Ho. pose proof (sumf_elem (mid push) ph t (o, k) (Hmid push) Ht) as Hle.
    replace (mid push (o, k)) with 1 in Hle; [done|]. unfold mid. cbn [fst snd].
    by rewrite Ho, (proj2 (Nat.leb_le 1 k)), (proj2 (Nat.leb_le k 4)) by lia. }
  destruct o as [w|].
  - pose proof (wi_nonneg _ _ _ _ Hi EMPTY) as H0. rewrite sem_given in H0.
    assert (Hle : sumf (λ p, grown p + mid true p) ph ≤ sumf (λ p, - given EMPTY p) ph)
      by (apply sumf_le; intros p Hp; phases p Hp).
    rewrite sumf_add, sumf_opp in Hle. pose proof (Hat true eq_refl). change (create_queue.2 EMPTY) with 15 in H0. lia.
  - pose proof (wi_nonneg _ _ _ _ Hi FULL) as H0. rewrite sem_given in H0.
    assert (Hle : sumf (λ p, given FULL p + mid false p) ph ≤ sumf grown ph)
      by (apply sumf_le; intros p Hp; phases p Hp).
    rewrite sumf_add in Hle. pose proof (Hat false eq_refl). change (create_queue.2 FULL) with 0 in H0.
    intros E. rewrite E in Hsz. simpl in Hsz. lia.
Qed.
End inv.

Lemma effective_step ph t o k : ph !! t = Some (o, k) →
  effective (<[t := (o, S k)]> ph) ≡ₚ if decide (k = 4%nat) then o :: effective ph else effective ph.
Proof.
  intros (l1 & l2 & -> & ->)%list_elem_of_split_length. unfold effective.
  rewrite insert_app_r_alt, Nat.sub_diag by lia. cbn [insert list_insert]. rewrite !List.filter_app. cbn [List.filter snd].
  case_decide as E; [subst k; simpl; rewrite !map_app; simpl; by rewrite Permutation_middle|].
  destruct (Nat.leb_spec 5 k), (Nat.leb_spec 5 (S k)); try lia; by rewrite !map_app.
Qed.

(** The process that takes a step. *)
Lemma ws_step_inv ops ph log st st' t : ws_inv ops ph log st → step_thread do_change t st = Some st' →
  ∃ o k x, ph !! t = Some (o, k) ∧ (k < 7)%nat ∧ program o !! k = Some x ∧
    sy_threads st' = map rem (<[t := (o, S k)]> ph) ∧
    exec_instr do_change x (sy_sem st) (sy_data st) = Some (sy_sem st', sy_data st').
Proof.
  intros [] (x & rest & Ht & Ets & Ex)%step_inv. rewrite wi_threads0 in Ht, Ets.
  apply list_lookup_fmap_Some in Ht as ([o k] & Er & Ht). unfold rem in Er. simpl in Er.
  assert (Hx : program o !! k = Some x) by (pose proof (lookup_drop (program o) k 0) as E; rewrite <- Er, Nat.add_0_r in E; by rewrite <- E).
  assert (Hk : (k < length (program o))%nat) by (by eapply lookup_lt_Some).
  exists o, k, x. split_and!; [done|by destruct o|done| |done].
  rewrite Ets. change (map rem (<[t := (o, S k)]> ph)) with (rem <$> <[t := (o, S k)]> ph).
  rewrite list_fmap_insert. change (map rem ph) with (rem <$> ph). do 2 f_equal. unfold rem. cbn [fst snd].
  rewrite (drop_S _ _ _ Hx) in Er. by injection Er.
Qed.

Lemma in_insert {B} (l : list B) t y p : p ∈ <[t := y]> l → p = y ∨ p ∈ l.
Proof.
  intros [i Hi]%list_elem_of_lookup. destruct (decide (i = t)) as [-> |Hne].
  - destruct (decide (t < length l)%nat); [rewrite list_lookup_insert_eq in Hi by done; left; by simplify_eq|].
    rewrite list_insert_ge in Hi by lia. right. by eapply list_elem_of_lookup_2.
  - rewrite list_lookup_insert_ne in Hi by done. right. by eapply list_elem_of_lookup_2.
Qed.

(** What happens to the data. *)
Lemma data_step ops ph log st t o k x sem' d' : ws_inv ops ph log st → Forall fits_op ops →
  ph !! t = Some (o, k) → (k < 7)%nat → program o !! k = Some x →
  exec_instr do_change x (sy_sem st) (sy_data st) = Some (sem', d') →
  let a := foldl apply_op [] log in
  let a' := if decide (k = 4%nat) then apply_op a o else a in
  (k = 4%nat → can_do a o) ∧
  ∃ d, (holds_stack a' d ∧ ws_out d = nuls (if decide (k = 4%nat) then log ++ [o] else log)) ∧
    (∀ u o' k', <[t := (o, S k)]> ph !! u = Some (o', k') → (3 ≤ k' ≤ 4)%nat → d' = run_changes (take (k' - 2) (changes o')) d) ∧
    ((∀ u o' k', <[t := (o, S k)]> ph !! u = Some (o', k') → ¬ (3 ≤ k' ≤ 4)%nat) → d' = d).
Proof.
  intros Hi Hops Ht Hk Hx Ex a a'. split.
  { intros ->. apply (room _ _ _ _ Hi t o 4 Ht). lia. }
  pose proof (wi_data _ _ _ _ Hi) as (d & [Hd Ho] & Hmid & Hout). fold a in Hd.
  assert (Hlt : (t < length ph)%nat) by (by eapply lookup_lt_Some).
  assert (Hself : <[t := (o, S k)]> ph !! t = Some (o, S k)) by (by apply list_lookup_insert_eq).
  assert (Hother : (2 ≤ k ≤ 4)%nat → ∀ u o' k', ph !! u = Some (o', k') → u ≠ t → ¬ (3 ≤ k' ≤ 4)%nat).
  { intros Hk2 u o' k' Hu Hne Hk'. apply Hne. eapply (only_one _ _ _ _ Hi); [exact Hu|exact Ht| |];
      unfold is_inside; cbn [snd]; rewrite (proj2 (Nat.leb_le _ _)), (proj2 (Nat.leb_le _ _)) by lia; done. }
  assert (Hcase : (2 ≤ k ≤ 4)%nat ∨ (k ≤ 1 ∨ 5 ≤ k)%nat) by lia. destruct Hcase as [Hin|Hnot].
  - (* one of the statements under the mutex *)
    assert (Hnow : sy_data st = run_changes (take (k - 2) (changes o)) d).
    { destruct (decide (k = 2%nat)) as [-> |].
      - rewrite Hout; [by destruct o|]. intros u o' k' Hu. destruct (decide (u = t)) as [-> |Hne]; [simplify_eq; lia|by eapply Hother].
      - eapply Hmid; [exact Ht|lia]. }
    assert (Hnext : d' = run_changes (take (S k - 2) (changes o)) d).
    { rewrite Hnow in Ex. destruct k as [|[|[|[|[|k]]]]]; try lia; destruct o; simpl in Hx; injection Hx as <-; simpl in Ex; by injection Ex. }
    unfold a'. case_decide as E4.
    + subst k. exists d'. split; [|split].
      * rewrite Hnext. replace (take (5 - 2) (changes o)) with (changes o) by (by destruct o).
        split; [|by eapply changes_out]. apply changes_ok; [done| |apply (room _ _ _ _ Hi t o 4 Ht); lia].
        rewrite <- (wi_ops _ _ _ _ Hi) in Hops. apply (proj1 (Forall_lookup _ _) Hops t).
        change (map fst ph) with (fst <$> ph). by rewrite list_lookup_fmap, Ht.
      * intros u o' k' Hu Hk'. destruct (decide (u = t)) as [-> |Hne]; [rewrite Hself in Hu; simplify_eq; lia|].
        rewrite list_lookup_insert_ne in Hu by done. exfalso. by eapply (Hother Hin).
      * done.
    + exists d. split; [done|split].
      * intros u o' k' Hu Hk'. destruct (decide (u = t)) as [-> |Hne]; [rewrite Hself in Hu; by simplify_eq|].
        rewrite list_lookup_insert_ne in Hu by done. exfalso. by eapply (Hother Hin).
      * intros Hno. exfalso. eapply (Hno t); [exact Hself|lia].
  - (* a semaphore *)
    assert (d' = sy_data st) as ->.
    { destruct k as [|[|[|[|[|[|[|k]]]]]]]; try lia; destruct o; simpl in Hx; injection Hx as <-; simpl in Ex;
        try (destruct (0 <? _); [|done]); by injection Ex. }
    unfold a'. rewrite !decide_False by lia. exists d. split; [done|split].
    + intros u o' k' Hu Hk'. destruct (decide (u = t)) as [-> |Hne]; [rewrite Hself in Hu; simplify_eq; lia|].
      rewrite list_lookup_insert_ne in Hu by done. by eapply Hmid.
    + intros Hno. apply Hout. intros u o' k' Hu. destruct (decide (u = t)) as [-> |Hne]; [simplify_eq; lia|].
      apply (Hno u o' k'). by rewrite list_lookup_insert_ne.
Qed.

Lemma valid_snoc log o : valid_log log → can_do (foldl apply_op [] log) o → valid_log (log ++ [o]).
Proof.
  intros Hv Ho l1 o' l2 E. destruct l2 as [|x l2 _] using rev_ind.
  - apply app_inj_tail in E as [-> ->]. done.
  - rewrite app_comm_cons, app_assoc in E. apply app_inj_tail in E as [E _]. by eapply Hv.
Qed.

Lemma length_apply a o : can_do a o →
  Z.of_nat (length (apply_op a o)) = Z.of_nat (length a) + match o with Push _ => 1 | Pop => -1 end.
Proof. destruct o as [w|]; simpl; [lia|]. intros Ha. destruct a; [done|]. simpl. lia. Qed.

Lemma ws_inv_step ops ph log st st' : Forall fits_op ops → ws_inv ops ph log st → sstep do_change st st' →
  ∃ ph' log', ws_inv ops ph' log' st'.
Proof.
  intros Hops Hi Hs. pose proof Hs as [t Ht]. destruct (ws_step_inv _ _ _ _ _ _ Hi Ht) as (o & k & x & Hph & Hk & Hx & Ets & Ex).
  destruct (data_step _ _ _ _ _ _ _ _ _ _ Hi Hops Hph Hk Hx Ex) as [Hcan Hdata].
  exists (<[t := (o, S k)]> ph), (if decide (k = 4%nat) then log ++ [o] else log). pose proof Hi as []. split.
  - change (map fst (<[t := (o, S k)]> ph)) with (fst <$> <[t := (o, S k)]> ph). rewrite list_fmap_insert. simpl.
    rewrite list_insert_id; [done|]. by rewrite list_lookup_fmap, Hph.
  - intros p [-> |Hp]%in_insert; [simpl; lia|by apply wi_k0].
  - done.
  - intros s. by rewrite (balance_step _ s _ _ Hs).
  - intros s. by eapply nonneg_step.
  - rewrite (effective_step _ _ _ _ Hph). case_decide; [|done]. by rewrite wi_log0, Permutation_app_comm.
  - case_decide; [|done]. apply valid_snoc; auto.
  - rewrite (sumf_insert _ _ _ _ (o, S k) Hph), <- wi_size0. unfold grown. cbn [fst snd].
    destruct (Nat.leb_spec 5 k), (Nat.leb_spec 5 (S k)); try lia; case_decide; try lia.
    rewrite foldl_app. simpl. rewrite length_apply by auto. lia.
  - revert Hdata. case_decide; [|done]. by rewrite foldl_app.
Qed.

Lemma ws_inv_start ops : ws_inv ops (map (λ o, (o, 0%nat)) ops) [] (start_stack ops).
Proof.
  assert (Hf : List.filter (λ p : phase, 5 <=? p.2)%nat (map (λ o, (o, 0%nat)) ops) = []) by (by induction ops).
  split; simpl.
  - rewrite map_map. by rewrite map_id.
  - intros p (o & -> & _)%list_elem_of_fmap. simpl. lia.
  - rewrite map_map. done.
  - done.
  - intros s. unfold fupd, ITEMS. repeat case_decide; lia.
  - unfold effective. by rewrite Hf.
  - intros [] ? ?; done.
  - clear Hf. induction ops; simpl; [done|]. by rewrite <- IHops.
  - exists create_queue.1. split; [|split; [intros t o k (x & [= -> ->] & _)%list_lookup_fmap_Some Hk; lia|done]].
    split; [|done]. split; [simpl; lia|done|done|done|done|done].
Qed.

Lemma ws_inv_nsteps ops m st st' : Forall fits_op ops → nsteps (sstep do_change) m st st' →
  (∃ ph log, ws_inv ops ph log st) → ∃ ph log, ws_inv ops ph log st'.
Proof.
  intros Hops. induction 1 as [|m st st1 st' Hs _ IH]; [done|]. intros (ph & log & Hi). apply IH. by eapply ws_inv_step.
Qed.

(** ** What is printed *)

(** The rows of the heap, the first word pushed first. *)
Definition all_rows (a : list (list Z)) : list (list Z) := map pad (rev a) ++ replicate (15 - length a) (replicate 50 0).

Definition blank (c : Z) : Z := if c =? 0 then 32 else c.

Lemma concat_replicate k (x : Z) n : concat (replicate k (replicate n x)) = replicate (n * k) x.
Proof. induction k as [|k IH]; simpl; [by rewrite Nat.mul_0_r|]. rewrite IH, <- replicate_add. f_equal. lia. Qed.

Lemma rows_concat a : rows a = concat (all_rows a).
Proof. unfold rows, all_rows. rewrite concat_app. f_equal. by rewrite concat_replicate. Qed.

Lemma lookup_rows (rws : list (list Z)) i r : Forall (λ r, length r = 50%nat) rws → rws !! i = Some r →
  ∀ j, (j < 50)%nat → concat rws !! (i * 50 + j)%nat = r !! j.
Proof.
  intros Hr. revert i. induction Hr as [|r' rws Hr' _ IH]; intros [|i] E j Hj; simplify_eq/=.
  - rewrite lookup_app_l by lia. done.
  - rewrite lookup_app_r by lia. rewrite <- (IH i E j Hj). f_equal. lia.
Qed.

Lemma all_rows_ok a : Forall (λ w, (length w ≤ 50)%nat) a → (length a ≤ 15)%nat →
  Forall (λ r, length r = 50%nat) (all_rows a) ∧ length (all_rows a) = 15%nat.
Proof.
  intros Ha Hl. unfold all_rows. rewrite length_app, length_map, length_rev, length_replicate. split; [|lia].
  apply Forall_app. split.
  - apply Forall_map. apply Forall_rev. eapply Forall_impl; [exact Ha|]. apply length_pad.
  - apply Forall_replicate. apply length_replicate.
Qed.

Lemma row_printed d a i r : holds_stack a d → all_rows a !! i = Some r →
  print_row d (Z.of_nat i) = map blank r ++ [124; 10].
Proof.
  intros [] Hr. destruct (all_rows_ok a) as [Hlen _]; [done|done|]. pose proof (proj1 (Forall_lookup _ _) Hlen _ _ Hr) as Hl. simpl in Hl.
  unfold print_row. f_equal. apply list_eq. intros j.
  destruct (decide (j < 50)%nat) as [Hj|Hj].
  - change (map ?f ?l) with (f <$> l). rewrite !list_lookup_fmap.
    rewrite (proj2 (lookup_seqZ 0 MAX_WORD j (Z.of_nat j))) by (unfold MAX_WORD; lia). simpl.
    destruct (lookup_lt_is_Some_2 r j) as [c Hc]; [lia|]. rewrite Hc. simpl.
    replace (Z.to_nat (Z.of_nat i * MAX_WORD + Z.of_nat j)) with (i * 50 + j)%nat by (unfold MAX_WORD; lia).
    rewrite hs_heap0, rows_concat. rewrite (list_lookup_total_correct _ _ c); [done|]. by rewrite (lookup_rows _ _ _ Hlen Hr).
  - rewrite !lookup_ge_None_2; [done|rewrite ?length_map, ?length_seqZ; unfold MAX_WORD; lia..].
Qed.

Lemma stack_printed d a : holds_stack a d → print_queue d = concat (map (λ r, map blank r ++ [124; 10]) (all_rows a)).
Proof.
  intros Hd. destruct (all_rows_ok a) as [_ Hl]; [apply Hd|apply Hd|]. unfold print_queue. f_equal. apply list_eq. intros i.
  change (map ?f ?l) with (f <$> l). rewrite !list_lookup_fmap. destruct (decide (i < 15)%nat) as [Hi|Hi].
  - rewrite (proj2 (lookup_seqZ 0 ITEMS i (Z.of_nat i))) by (unfold ITEMS; lia).
    destruct (lookup_lt_is_Some_2 (all_rows a) i) as [r Hr]; [lia|]. rewrite Hr. simpl. f_equal. by apply row_printed with a.
  - rewrite !lookup_ge_None_2; [done|rewrite ?length_seqZ; unfold ITEMS; lia..].
Qed.

(** ** What the program promises *)

(** Nobody waits but for room or for a word. *)
Lemma ws_stuck ops ph log st : ws_inv ops ph log st → stuck do_change st →
  sy_sem st WMUTEX = 1 ∧ ∀ t o k, ph !! t = Some (o, k) → k = 7%nat ∨ (k = 0%nat ∧ ¬ can_do (foldl apply_op [] log) o).
Proof.
  intros Hi Hs. pose proof Hi as [].
  assert (Hwait : ∀ t o k, ph !! t = Some (o, k) → (k < 7)%nat → ∃ s, program o !! k = Some (Wait s) ∧ sy_sem st s ≤ 0).
  { intros t o k Ht Hk. destruct (lookup_lt_is_Some_2 (program o) k) as [x Hx]; [by destruct o|].
    destruct (not_stuck do_change t st x (drop (S k) (program o)) Hs) as (s & -> & Hle); [|by exists s].
    rewrite wi_threads0. change (map rem ph) with (rem <$> ph). rewrite list_lookup_fmap, Ht. simpl. unfold rem. simpl. f_equal. by apply drop_S. }
  assert (Hk : ∀ t o k, ph !! t = Some (o, k) → (k ≤ 7)%nat) by (intros t o k Ht; apply (wi_k0 (o, k)); by eapply list_elem_of_lookup_2).
  assert (Hone : ∀ p, p ∈ ph → is_inside p = 0).
  { intros [o k] [t Ht]%list_elem_of_lookup. unfold is_inside. cbn [snd].
    destruct (Nat.leb_spec 2 k), (Nat.leb_spec k 5); simpl; try done.
    destruct (Hwait t o k Ht ltac:(lia)) as (s & Hx & _).
    destruct k as [|[|[|[|[|[|k]]]]]]; try lia; destruct o; done. }
  assert (Hm : sy_sem st WMUTEX = 1).
  { rewrite (mutex_value _ _ _ _ Hi). rewrite (sumf_eq _ (λ _, 0) _ Hone). assert (sumf (λ _ : phase, 0) ph = 0) by (clear; induction ph; simpl; lia). lia. }
  split; [done|].
  assert (Hend : ∀ t o k, ph !! t = Some (o, k) → k = 7%nat ∨ k = 0%nat).
  { intros t o k Ht. pose proof (Hk t o k Ht). destruct (decide (k = 7%nat)); [by left|].
    destruct (Hwait t o k Ht ltac:(lia)) as (s & Hx & Hle).
    destruct k as [|[|[|[|[|[|[|k]]]]]]]; try lia; destruct o; simpl in Hx; simplify_eq; lia. }
  intros t o k Ht. destruct (Hend t o k Ht) as [-> | ->]; [by left|right; split; [done|]].
  destruct (Hwait t o 0%nat Ht ltac:(lia)) as (s & Hx & Hle). intros Hcan. revert Hle. rewrite (sem_given _ _ _ _ Hi).
  assert (Hall : ∀ p, p ∈ ph → p.2 = 7%nat ∨ p.2 = 0%nat) by (intros [o' k'] [u Hu]%list_elem_of_lookup; by eapply Hend).
  destruct o as [w|]; simpl in Hx; injection Hx as <-; simpl in Hcan.
  - rewrite (sumf_eq _ (λ p, - grown p)); [rewrite sumf_opp, <- wi_size0; change (create_queue.2 EMPTY) with 15; lia|].
    intros [[w'|] k'] Hp; destruct (Hall _ Hp) as [E|E]; simpl in E; subst k'; by vm_compute.
  - rewrite (sumf_eq _ grown); [rewrite <- wi_size0; change (create_queue.2 FULL) with 0|].
    + destruct (foldl apply_op [] log); [done|]. simpl. lia.
    + intros [[w'|] k'] Hp; destruct (Hall _ Hp) as [E|E]; simpl in E; subst k'; by vm_compute.
Qed.

Definition changing (p : list (instr change)) : bool := match p with Do _ :: _ => true | _ => false end.

Lemma changing_inside ops ph log st t p : ws_inv ops ph log st → sy_threads st !! t = Some p → changing p = true →
  ∃ q, ph !! t = Some q ∧ is_inside q = 1.
Proof.
  intros [] Ht Hc. rewrite wi_threads0 in Ht. apply list_lookup_fmap_Some in Ht as ([o k] & -> & Hq). exists (o, k). split; [done|].
  unfold rem in Hc. simpl in Hc. destruct o as [w|]; do 7 (destruct k as [|k]; [by vm_compute|]); simpl in Hc; by rewrite drop_nil in Hc.
Qed.

(** The operations that took effect and the others. *)
Lemma effective_rest ph : ∃ rest, effective ph ++ rest ≡ₚ map fst ph.
Proof.
  induction ph as [|[o k] ph [rest IH]]; [by exists []|]. unfold effective in *. cbn [List.filter snd].
  destruct (5 <=? k)%nat; simpl.
  - exists rest. by rewrite IH.
  - exists (o :: rest). by rewrite <- Permutation_middle, IH.
Qed.

Lemma wsteps_run m w w' : nsteps wstep m w w' → ∀ st st', w = Working st → w' = Working st' → nsteps (sstep do_change) m st st'.
Proof.
  induction 1 as [w|m w w1 w' Hs Hr IH]; intros st st' -> E; [injection E as ->; constructor|]. subst w'.
  inversion Hs as [t ? st1 Ht|]; subst; [eapply nsteps_l; [by exists t|by apply IH]|]. inversion Hr as [|? ? ? ? Hb]. inversion Hb.
Qed.

Lemma run_wsteps m st st' : nsteps (sstep do_change) m st st' → nsteps wstep m (Working st) (Working st').
Proof. induction 1 as [|m st st1 st' [t Hs] _ IH]; [constructor|]. econstructor; [by eapply ws_run|exact IH]. Qed.

(** Two pushes are enough for a process to find the mutex locked. *)
Lemma wordstack_mutex_is_private w1 w2 : rtc wstep (Working (start_stack [Push w1; Push w2])) Undefined.
Proof.
  assert (E : run_schedule do_change [0; 0; 1]%nat (start_stack [Push w1; Push w2]) =
    Some (Sys (fupd (fupd (fupd create_queue.2 EMPTY 14) WMUTEX 0) EMPTY 13) create_queue.1
      [drop 2 (modify_canvas w1); drop 1 (modify_canvas w2)])) by done.
  apply run_schedule_nsteps in E. eapply rtc_r; [eapply rtc_nsteps_2, run_wsteps, E|]. by eapply (ws_locked 1).
Qed.


