(* ===== verification/Bootmain.v ===== *)
(** * The boot loader: [xv6/bootmain.c]

    The boot sector reads the kernel, an ELF file that starts at sector 1 of the disk,
    and jumps to its entry.  There is no kernel yet: memory is physical and the disk
    is reached through the ports of its controller, which are the parameters of this
    file. *)

From S2P Require Import Prelude Bytes Exec.

Definition SECTSIZE : Z := 512.

Definition ph_paddr (b : list Z) : Z := get32 b 12.

(** Physical memory by byte address, what was last written to each port, and the
    number of reads of the status port so far. *)
Record bst := Bst { b_mem : Z → Z; b_ports : Z → Z; b_polls : nat }.

(** Bytes [0, n) at address [a]; pointers are 32 bits. *)
Definition mbytes (m : Z → Z) (a n : Z) : list Z := (λ o, m (u32 (a + o))) <$> seqZ 0 n.

(** A row of bytes is stored from [a] on. *)
Definition mstore (m : Z → Z) (a : Z) (l : list Z) : Z → Z := λ x,
  if u32 (x - a) <? Z.of_nat (length l) then get8 l (u32 (x - a)) else m x.

Section boot.
(** What the status port shows at each read of it, a bound on the reads in a row that do not
    find it ready, and the data that the controller has for what is in its other ports. *)
Context (status : nat → Z) (patience : nat) (controller : (Z → Z) → list Z).

Definition inb_status : K bst Z := λ s, Ok (status (b_polls s), Bst (b_mem s) (b_ports s) (S (b_polls s))).

Definition boot_outb (port data : Z) : K bst unit :=
  kmod (λ s, Bst (b_mem s) (fupd (b_ports s) port (u8 data)) (b_polls s)).

(** [cnt] words from the data port to [dst]. *)
Definition boot_insl (dst cnt : Z) : K bst unit :=
  kmod (λ s, Bst (mstore (b_mem s) dst (take (Z.to_nat (4 * cnt)) (controller (b_ports s)))) (b_ports s) (b_polls s)).

Definition boot_stosb (addr data cnt : Z) : K bst unit :=
  kmod (λ s, Bst (mstore (b_mem s) addr (replicate (Z.to_nat cnt) (u8 data))) (b_ports s) (b_polls s)).

Fixpoint waitdisk_loop (fuel : nat) : K bst unit :=
  match fuel with
  | O => khang
  | S fuel' => d ← inb_status; if negb (Z.land d 0xC0 =? 0x40) then waitdisk_loop fuel' else mret tt
  end.

Definition waitdisk : K bst unit := waitdisk_loop (S patience).

Definition readsect (dst offset : Z) : K bst unit :=
  waitdisk;;
  boot_outb 0x1F2 1;;
  boot_outb 0x1F3 offset;;
  boot_outb 0x1F4 (offset ≫ 8);;
  boot_outb 0x1F5 (offset ≫ 16);;
  boot_outb 0x1F6 (Z.lor (offset ≫ 24) 0xE0);;
  boot_outb 0x1F7 0x20;;
  waitdisk;;
  boot_insl dst (SECTSIZE / 4).

Fixpoint readseg_loop (fuel : nat) (pa epa offset : Z) : K bst unit :=
  match fuel with
  | O => khang
  | S fuel' =>
      if pa <? epa then readsect pa offset;; readseg_loop fuel' (u32 (pa + SECTSIZE)) epa (u32 (offset + 1))
      else mret tt
  end.

Definition readseg (pa count offset : Z) : K bst unit :=
  let epa := u32 (pa + count) in
  let pa := u32 (pa - offset mod SECTSIZE) in
  let offset := u32 (offset / SECTSIZE + 1) in
  readseg_loop (Z.to_nat (count / SECTSIZE) + 3) pa epa offset.

(** The loop over the program headers, [k] of which are left.  A header is read again after
    the segment, as the source does. *)
Fixpoint load_segments (k : nat) (ph : Z) : K bst unit :=
  match k with
  | O => mret tt
  | S k' =>
      s ← kget;
      let h := mbytes (b_mem s) ph sizeof_proghdr in
      let pa := ph_paddr h in
      readseg pa (ph_filesz h) (ph_off h);;
      s ← kget;
      let h := mbytes (b_mem s) ph sizeof_proghdr in
      (if ph_filesz h <? ph_memsz h
       then boot_stosb (u32 (pa + ph_filesz h)) 0 (ph_memsz h - ph_filesz h) else mret tt);;
      load_segments k' (u32 (ph + sizeof_proghdr))
  end.

(** The address that is jumped to; [None] when the function returns instead. *)
Definition bootmain : K bst (option Z) :=
  let elf := 0x10000 in
  readseg elf 4096 0;;
  s ← kget;
  let h := mbytes (b_mem s) elf sizeof_elfhdr in
  if negb (elf_magic h =? ELF_MAGIC) then mret None
  else
    load_segments (Z.to_nat (elf_phnum h)) (u32 (elf + elf_phoff h));;
    s ← kget;
    mret (Some (elf_entry (mbytes (b_mem s) elf sizeof_elfhdr))).

(** ** Sectors *)

(** The sector that the controller's ports name. *)
Definition port_lba (p : Z → Z) : Z := p 0x1F3 + 2 ^ 8 * p 0x1F4 + 2 ^ 16 * p 0x1F5 + 2 ^ 24 * Z.land (p 0x1F6) 0xF.

(** What the loader relies on: the disk is ready within [patience] reads, and after a command to read
    one sector in linear addressing its data is the sector. *)
Context (sector : Z → list Z).
Context (Hready : ∀ n, ∃ k, (k ≤ patience)%nat ∧ Z.land (status (n + k)) 0xC0 = 0x40).
Context (Hread : ∀ p, p 0x1F2 = 1 → p 0x1F7 = 0x20 → Z.land (p 0x1F6) 0xF0 = 0xE0 → controller p = sector (port_lba p)).
Context (Hsector : ∀ n, bytes_ok SECTSIZE (sector n)).

Lemma waitdisk_loop_ok k : ∀ fuel s (Q : unit → bst → Prop), (k < fuel)%nat → Z.land (status (b_polls s + k)) 0xC0 = 0x40 →
  (∀ n, Q tt (Bst (b_mem s) (b_ports s) n)) → runs (waitdisk_loop fuel) Q s.
Proof.
  induction k as [|k IH]; intros [|fuel] s Q Hf Hk HQ; try lia; cbn [waitdisk_loop]; kstep; eexists _, _; (split; [done|]).
  - rewrite Nat.add_0_r in Hk. rewrite Hk, Z.eqb_refl. cbn [negb]. kstep. apply HQ.
  - destruct (negb _); [|kstep; apply HQ]. apply IH; [lia|simpl; by rewrite Nat.add_succ_r in Hk|exact HQ].
Qed.

Lemma waitdisk_ok s (Q : unit → bst → Prop) : (∀ n, Q tt (Bst (b_mem s) (b_ports s) n)) → runs waitdisk Q s.
Proof. intros HQ. destruct (Hready (b_polls s)) as (k & Hk & E). apply (waitdisk_loop_ok k); [lia|done|done]. Qed.

Lemma high_bits x : 0 ≤ x < 16 → Z.land (u8 (Z.lor x 0xE0)) 0xF0 = 0xE0 ∧ Z.land (u8 (Z.lor x 0xE0)) 0xF = x.
Proof.
  intros Hx. assert (H : x ∈ seqZ 0 16) by (apply elem_of_seqZ; lia). clear Hx. revert x H.
  apply (proj1 (Forall_forall _ _)). repeat constructor; by vm_compute.
Qed.

Lemma lba_bytes o : 0 ≤ o → u8 o + 2 ^ 8 * u8 (o ≫ 8) + 2 ^ 16 * u8 (o ≫ 16) + 2 ^ 24 * (o ≫ 24) = o.
Proof.
  intros Ho. unfold u8. rewrite !Z.shiftr_div_pow2 by lia. change (2 ^ 8) with 256. change (2 ^ 16) with 65536. change (2 ^ 24) with 16777216.
  pose proof (Z.div_mod o 256 ltac:(lia)). pose proof (Z.div_mod (o / 256) 256 ltac:(lia)). pose proof (Z.div_mod (o / 65536) 256 ltac:(lia)).
  replace (o / 65536) with (o / 256 / 256) in * by (rewrite Z.div_div by lia; done).
  replace (o / 16777216) with (o / 256 / 256 / 256) in * by (rewrite !Z.div_div by lia; done). lia.
Qed.

Lemma readsect_ok s dst offset (Q : unit → bst → Prop) : 0 ≤ offset < 2 ^ 28 →
  (∀ p n, Q tt (Bst (mstore (b_mem s) dst (sector offset)) p n)) → runs (readsect dst offset) Q s.
Proof.
  intros Ho HQ. unfold readsect. kstep. apply waitdisk_ok. intros n1. unfold boot_outb. do 12 kstep. kstep. apply waitdisk_ok. intros n2.
  unfold boot_insl. kstep. cbn [b_mem b_ports]. set (p := fupd _ 0x1F7 _).
  assert (H24 : 0 ≤ offset ≫ 24 < 16).
  { rewrite Z.shiftr_div_pow2 by lia. split; [apply Z.div_pos; lia|]. apply Z.div_lt_upper_bound; lia. }
  destruct (high_bits _ H24) as [Hf He]. rewrite Hread; [|done|done|exact Hf].
  replace (port_lba p) with offset; [|unfold port_lba; change (p 0x1F6) with (u8 (Z.lor (offset ≫ 24) 0xE0)); rewrite He;
    symmetry; apply lba_bytes; lia].
  destruct (Hsector offset) as [Hl _]. rewrite take_ge by (change (4 * (SECTSIZE / 4)) with SECTSIZE; lia). apply HQ.
Qed.

(** ** Segments *)

(** Byte [o] of the kernel's file, which starts at sector 1. *)
Definition filebyte (o : Z) : Z := get8 (sector (o / SECTSIZE + 1)) (o mod SECTSIZE).

Lemma mstore_at m a l x : 0 ≤ a → a + Z.of_nat (length l) ≤ 2 ^ 32 → 0 ≤ x < 2 ^ 32 →
  mstore m a l x = if (a <=? x) && (x <? a + Z.of_nat (length l)) then get8 l (x - a) else m x.
Proof.
  intros Ha Hl Hx. unfold mstore. destruct (Z.leb_spec a x).
  - rewrite u32_small by lia. bdestruct_all; simpl; lia || done.
  - unfold u32. replace (x - a) with (x - a + 2 ^ 32 + -1 * 2 ^ 32) at 1 by lia. rewrite Z_mod_plus_full, Z.mod_small by lia.
    bdestruct_all; simpl; lia || done.
Qed.

(** Sectors one after the other. *)
Lemma readseg_loop_ok fuel : ∀ n s pa epa offset (Q : unit → bst → Prop), 0 ≤ n < Z.of_nat fuel → 0 ≤ pa → 0 ≤ offset →
  epa ≤ pa + SECTSIZE * n → (0 < n → pa + SECTSIZE * (n - 1) < epa) → pa + SECTSIZE * n < 2 ^ 32 → offset + n < 2 ^ 28 →
  (∀ m p k, (∀ x, 0 ≤ x < 2 ^ 32 → m x =
     if (pa <=? x) && (x <? pa + SECTSIZE * n) then get8 (sector (offset + (x - pa) / SECTSIZE)) ((x - pa) mod SECTSIZE) else b_mem s x) →
     Q tt (Bst m p k)) →
  runs (readseg_loop fuel pa epa offset) Q s.
Proof.
  assert (HS : SECTSIZE = 512) by done. rewrite HS.
  induction fuel as [|fuel IH]; intros n s pa epa offset Q Hn Hpa Ho Hle Hlast Hmax Hoff HQ; [lia|]. cbn [readseg_loop].
  destruct (Z.ltb_spec pa epa) as [Hlt|Hge].
  2:{ assert (n = 0) as -> by lia. kstep. destruct s as [m p k]. apply HQ. intros x Hx. bdestruct_all; simpl; lia || done. }
  assert (0 < n) by lia. kstep. apply readsect_ok; [lia|]. intros p k. rewrite HS, !u32_small by lia.
  apply (IH (n - 1)); try lia. intros m p' k' Hm. apply HQ. intros x Hx. rewrite Hm by done. cbn [b_mem].
  destruct (Hsector offset) as [Hl _]. rewrite mstore_at by lia.
  destruct (Z.leb_spec (pa + 512) x).
  - replace (offset + 1 + (x - (pa + 512)) / 512) with (offset + (x - pa) / 512).
    2:{ replace (x - pa) with (x - (pa + 512) + 1 * 512) by lia. rewrite Z.div_add by lia. lia. }
    replace ((x - (pa + 512)) mod 512) with ((x - pa) mod 512); [bdestruct_all; simpl; lia || done|].
    replace (x - pa) with (x - (pa + 512) + 1 * 512) by lia. by rewrite Z_mod_plus_full.
  - bdestruct_all; simpl; try lia; try done. rewrite Z.div_small, Z.mod_small by lia. by rewrite Z.add_0_r.
Qed.

(** First address and number of sectors that are read for a segment. *)
Definition seg_lo (pa off : Z) : Z := pa - off mod SECTSIZE.
Definition seg_n (count off : Z) : Z := (count + off mod SECTSIZE + (SECTSIZE - 1)) / SECTSIZE.

Lemma readseg_ok s pa count off (Q : unit → bst → Prop) : 0 ≤ pa < 2 ^ 32 → 0 ≤ count < 2 ^ 32 → 0 ≤ off < 2 ^ 32 →
  0 ≤ seg_lo pa off → seg_lo pa off + SECTSIZE * seg_n count off < 2 ^ 32 →
  (∀ m p k, (∀ x, 0 ≤ x < 2 ^ 32 → m x =
     if (seg_lo pa off <=? x) && (x <? seg_lo pa off + SECTSIZE * seg_n count off) then filebyte (off + (x - pa)) else b_mem s x) →
     Q tt (Bst m p k)) →
  runs (readseg pa count off) Q s.
Proof.
  assert (HS : SECTSIZE = 512) by done. unfold seg_lo, seg_n, filebyte. rewrite HS. intros Hpa Hc Ho Hlo Hhi HQ.
  pose proof (Z.div_mod off 512 ltac:(lia)) as Hdm. pose proof (Z.mod_pos_bound off 512 ltac:(lia)) as Hmb.
  pose proof (Z.div_mod (count + off mod 512 + (512 - 1)) 512 ltac:(lia)) as Hn. pose proof (Z.mod_pos_bound (count + off mod 512 + (512 - 1)) 512 ltac:(lia)) as Hnb.
  pose proof (Z.div_mod count 512 ltac:(lia)) as Hcn. pose proof (Z.mod_pos_bound count 512 ltac:(lia)) as Hcb.
  set (n := (count + off mod 512 + (512 - 1)) / 512) in *. unfold readseg. rewrite HS.
  rewrite (u32_small (pa + count)) by lia. rewrite (u32_small (pa - off mod 512)) by lia. rewrite (u32_small (off / 512 + 1)) by lia.
  apply (readseg_loop_ok _ n); rewrite ?HS; try lia. intros m p k Hm. apply HQ. intros x Hx. rewrite Hm by done.
  set (lo := pa - off mod 512) in *. destruct (Z.leb_spec lo x); [|done]. destruct (Z.ltb_spec x (lo + 512 * n)); [|done]. cbn [andb].
  replace (off + (x - pa)) with ((x - lo) + off / 512 * 512) by (unfold lo; lia).
  rewrite Z.div_add, Z_mod_plus_full by lia. do 2 f_equal. lia.
Qed.

(** ** The kernel in memory *)

Definition fslice (o n : Z) : list Z := filebyte <$> seqZ o n.

(** The headers of the file, and where a segment is read to. *)
Definition hdr : list Z := fslice 0 sizeof_elfhdr.
Definition phdr (k : Z) : list Z := fslice (elf_phoff hdr + sizeof_proghdr * k) sizeof_proghdr.
Definition s_lo (b : list Z) : Z := seg_lo (ph_paddr b) (ph_off b).
Definition s_hi (b : list Z) : Z :=
  Z.max (ph_paddr b + ph_memsz b) (s_lo b + SECTSIZE * seg_n (ph_filesz b) (ph_off b)).

(** The segment is in memory: the bytes of the file, then zeroes. *)
Definition in_memory (m : Z → Z) (b : list Z) : Prop :=
  ∀ o, 0 ≤ o < ph_memsz b → m (ph_paddr b + o) = if o <? ph_filesz b then filebyte (ph_off b + o) else 0.

(** A kernel that can be loaded: its headers are in the first page, and its segments are in increasing
    order and away from the page at 0x10000, whole sectors counted. *)
Record loadable : Prop := {
  ld_magic : elf_magic hdr = ELF_MAGIC;
  ld_headers : elf_phoff hdr + sizeof_proghdr * elf_phnum hdr ≤ 4096;
  ld_fits k : 0 ≤ k < elf_phnum hdr → 0 ≤ s_lo (phdr k) ∧ s_hi (phdr k) < 2 ^ 32 ∧ ph_filesz (phdr k) ≤ ph_memsz (phdr k);
  ld_scratch k : 0 ≤ k < elf_phnum hdr → s_hi (phdr k) ≤ 0x10000 ∨ 0x11000 ≤ s_lo (phdr k);
  ld_order j k : 0 ≤ j < k → k < elf_phnum hdr → ph_paddr (phdr j) + ph_memsz (phdr j) ≤ s_lo (phdr k)
}.

Lemma bytes_ok_fslice o n : 0 ≤ n → bytes_ok n (fslice o n).
Proof.
  intros Hn. split; [unfold fslice; rewrite length_fmap, length_seqZ; lia|]. apply Forall_fmap, Forall_forall.
  intros x _. by eapply get8_range.
Qed.

(** The page at 0x10000 has the start of the file. *)
Definition scratch (m : Z → Z) : Prop := ∀ x, 0x10000 ≤ x < 0x11000 → m x = filebyte (x - 0x10000).

Lemma mbytes_scratch m o n : scratch m → 0 ≤ o → o + n ≤ 4096 → mbytes m (0x10000 + o) n = fslice o n.
Proof.
  intros Hm Ho Hn. unfold mbytes, fslice. apply list_eq. intros k. rewrite !list_lookup_fmap. destruct (decide (Z.of_nat k < n)).
  - rewrite !lookup_seqZ_lt by lia. cbn [fmap option_fmap option_map]. rewrite u32_small by lia. rewrite Hm by lia. do 2 f_equal. lia.
  - rewrite !lookup_seqZ_ge by lia. done.
Qed.

(** One segment, with a header that it does not overwrite. *)
Lemma load_one s ph b (f : K bst unit) (Q : unit → bst → Prop) : bytes_ok sizeof_proghdr b → 0 ≤ s_lo b → s_hi b < 2 ^ 32 → ph_filesz b ≤ ph_memsz b →
  (∀ m, (∀ x, 0 ≤ x < 2 ^ 32 → ¬ (s_lo b ≤ x < s_hi b) → m x = b_mem s x) → mbytes m ph sizeof_proghdr = b) →
  (∀ s', in_memory (b_mem s') b → (∀ x, 0 ≤ x < 2 ^ 32 → ¬ (s_lo b ≤ x < s_hi b) → b_mem s' x = b_mem s x) → runs f Q s') →
  runs (readseg (ph_paddr b) (ph_filesz b) (ph_off b);;
        s' ← kget;
        let h := mbytes (b_mem s') ph sizeof_proghdr in
        (if ph_filesz h <? ph_memsz h then boot_stosb (u32 (ph_paddr b + ph_filesz h)) 0 (ph_memsz h - ph_filesz h) else mret tt);; f) Q s.
Proof.
  intros Hb Hlo Hhi Hle Hre HQ. assert (HS : SECTSIZE = 512) by done. unfold s_hi, s_lo in *.
  pose proof (get32_range _ b 12 Hb : 0 ≤ ph_paddr b < 2 ^ 32) as Hpa. pose proof (get32_range _ b 16 Hb : 0 ≤ ph_filesz b < 2 ^ 32) as Hf.
  pose proof (get32_range _ b 4 Hb : 0 ≤ ph_off b < 2 ^ 32) as Ho. pose proof (get32_range _ b 20 Hb : 0 ≤ ph_memsz b < 2 ^ 32) as Hmz.
  assert (Hcover : ph_paddr b + ph_filesz b ≤ seg_lo (ph_paddr b) (ph_off b) + SECTSIZE * seg_n (ph_filesz b) (ph_off b)).
  { unfold seg_lo, seg_n. rewrite HS. pose proof (Z.mod_pos_bound (ph_off b) 512 ltac:(lia)).
    pose proof (Z.div_mod (ph_filesz b + ph_off b mod 512 + (512 - 1)) 512 ltac:(lia)).
    pose proof (Z.mod_pos_bound (ph_filesz b + ph_off b mod 512 + (512 - 1)) 512 ltac:(lia)). lia. }
  assert (Hbelow : seg_lo (ph_paddr b) (ph_off b) ≤ ph_paddr b) by (unfold seg_lo; pose proof (Z.mod_pos_bound (ph_off b) SECTSIZE ltac:(lia)); lia).
  set (lo := seg_lo _ _) in *. set (hi := lo + SECTSIZE * _) in *.
  kstep. apply readseg_ok; try done; fold lo; fold hi; try lia. intros m p k Hm. kstep. kstep. cbv zeta. cbn [b_mem].
  rewrite Hre by (intros x Hx Hout; rewrite Hm by done; bdestruct_all; simpl; lia || done). rewrite u32_small by lia. kstep.
  destruct (Z.ltb_spec (ph_filesz b) (ph_memsz b)) as [Hlt|Hge].
  - unfold boot_stosb. kstep. cbn [b_mem]. apply HQ; cbn [b_mem].
    + intros o Hof. rewrite mstore_at by (rewrite ?length_replicate; lia). rewrite length_replicate.
      rewrite Hm by lia. destruct (Z.ltb_spec o (ph_filesz b)); bdestruct_all; simpl; try lia.
      1: f_equal; lia.
      all: unfold get8; by rewrite lookup_replicate_2 by lia.
    + intros x Hx Hout. rewrite mstore_at by (rewrite ?length_replicate; lia). rewrite length_replicate, Hm by lia.
      bdestruct_all; simpl; lia || done.
  - kstep. apply HQ; cbn [b_mem].
    + intros o Hof. rewrite Hm by lia. bdestruct_all; simpl; try lia. f_equal. lia.
    + intros x Hx Hout. rewrite Hm by lia. bdestruct_all; simpl; lia || done.
Qed.

Lemma load_segments_ok (Hl : loadable) k : ∀ j s (Q : unit → bst → Prop), 0 ≤ j → j + Z.of_nat k = elf_phnum hdr → scratch (b_mem s) →
  (∀ s', scratch (b_mem s') → (∀ i, j ≤ i < elf_phnum hdr → in_memory (b_mem s') (phdr i)) →
     (∀ x, 0 ≤ x < 2 ^ 32 → (∀ i, j ≤ i < elf_phnum hdr → ¬ (s_lo (phdr i) ≤ x < s_hi (phdr i))) → b_mem s' x = b_mem s x) → Q tt s') →
  runs (load_segments k (0x10000 + elf_phoff hdr + sizeof_proghdr * j)) Q s.
Proof.
  assert (HZ : sizeof_proghdr = 32) by done. induction k as [|k IH]; intros j s Q Hj Hn Hs HQ; cbn [load_segments].
  { kstep. apply HQ; [done|intros; lia|done]. }
  destruct (ld_fits Hl j ltac:(lia)) as (Hlo & Hhi & Hle). pose proof (ld_headers Hl) as Hh. rewrite HZ in *.
  pose proof (get32_range _ hdr 28 (bytes_ok_fslice 0 sizeof_elfhdr ltac:(done)) : 0 ≤ elf_phoff hdr < 2 ^ 32) as Hp.
  kstep. kstep. replace (0x10000 + elf_phoff hdr + 32 * j) with (0x10000 + (elf_phoff hdr + 32 * j)) by lia.
  rewrite (mbytes_scratch _ _ _ Hs) by lia. change (fslice (elf_phoff hdr + 32 * j) 32) with (phdr j).
  apply load_one; try done; [by apply bytes_ok_fslice| |].
  { intros m' Hm'. apply mbytes_scratch; [|lia|lia]. intros x Hx. rewrite Hm'; [by apply Hs|lia|].
    destruct (ld_scratch Hl j ltac:(lia)); lia. }
  intros s1 Hm1 Hf1.
  rewrite u32_small by lia. replace (0x10000 + (elf_phoff hdr + 32 * j) + 32) with (0x10000 + elf_phoff hdr + 32 * (j + 1)) by lia.
  apply IH; [lia|lia| |].
  - intros x Hx. rewrite Hf1; [by apply Hs|lia|]. destruct (ld_scratch Hl j ltac:(lia)); lia.
  - intros s2 Hs2 Hm2 Hf2. apply HQ; [done| |].
    + intros i Hi. destruct (decide (i = j)) as [-> |]; [|apply Hm2; lia]. intros o Ho. rewrite Hf2; [by apply Hm1| |].
      * unfold s_hi in Hhi. pose proof (get32_range _ (phdr j) 12 (bytes_ok_fslice _ sizeof_proghdr ltac:(done)) : 0 ≤ ph_paddr (phdr j) < 2 ^ 32). lia.
      * intros i Hi' Hin. pose proof (ld_order Hl j i ltac:(lia) ltac:(lia)). lia.
    + intros x Hx Hout. rewrite Hf2; [apply Hf1; [done|apply Hout; lia]|done|]. intros i Hi'. apply Hout. lia.
Qed.

(** C35. The boot loader.  With a disk that gets ready and answers as its controller's manual
    says, [bootmain] returns only when the file at sector 1 is not an ELF file; for a kernel that
    can be loaded it jumps to the entry of the file with every segment in place, the
    bytes of the file followed by zeroes, and the rest of memory as it was but for the page it
    works in and the ends of the sectors it read. *)
Theorem bootmain_loads_the_kernel s :
  (loadable → runs bootmain (λ r s', r = Some (elf_entry hdr) ∧
     (∀ k, 0 ≤ k < elf_phnum hdr → in_memory (b_mem s') (phdr k)) ∧
     (∀ x, 0 ≤ x < 2 ^ 32 → ¬ (0x10000 ≤ x < 0x11000) → (∀ k, 0 ≤ k < elf_phnum hdr → ¬ (s_lo (phdr k) ≤ x < s_hi (phdr k))) →
        b_mem s' x = b_mem s x)) s) ∧
  (elf_magic hdr ≠ ELF_MAGIC → runs bootmain (λ r _, r = None) s).
Proof.
  assert (HS : SECTSIZE = 512) by done.
  assert (Hpage : ∀ Q, (∀ s1, scratch (b_mem s1) → (∀ x, 0 ≤ x < 2 ^ 32 → ¬ (0x10000 ≤ x < 0x11000) → b_mem s1 x = b_mem s x) → Q tt s1) →
    runs (readseg 0x10000 4096 0) Q s).
  { intros Q HQ. apply readseg_ok; [lia|lia|lia|by vm_compute|by vm_compute|].
    change (seg_lo 0x10000 0) with 0x10000. change (SECTSIZE * seg_n 4096 0) with 4096. intros m p k Hm. apply HQ.
    - intros x Hx. cbn [b_mem]. rewrite Hm by lia. bdestruct_all; simpl; try lia. f_equal; lia.
    - intros x Hx Hout. cbn [b_mem]. rewrite Hm by lia. bdestruct_all; simpl; lia || done. }
  pose proof (bytes_ok_fslice 0 sizeof_elfhdr ltac:(done)) as Hb.
  pose proof (get32_range _ hdr 28 Hb : 0 ≤ elf_phoff hdr < 2 ^ 32) as Hp. pose proof (get16_range _ hdr 44 Hb : 0 ≤ elf_phnum hdr < 2 ^ 16) as Hn.
  assert (Hh : ∀ m, scratch m → mbytes m 0x10000 sizeof_elfhdr = hdr) by (intros m Hm; by apply (mbytes_scratch m 0)).
  split; intros Hl; unfold bootmain; kstep; apply Hpage; intros s1 Hs1 Hf1; kstep; kstep; rewrite Hh by done.
  - rewrite (ld_magic Hl), Z.eqb_refl. cbn [negb]. pose proof (ld_headers Hl) as Hh'. assert (HZ : sizeof_proghdr = 32) by done.
    rewrite u32_small by lia. kstep. replace (0x10000 + elf_phoff hdr) with (0x10000 + elf_phoff hdr + sizeof_proghdr * 0) by lia.
    apply (load_segments_ok Hl); [lia|lia|done|]. intros s2 Hs2 Hm2 Hf2. kstep. kstep. kstep. rewrite Hh by done.
    split_and!; [done|done|]. intros x Hx Hout Hno. rewrite Hf2 by done. by apply Hf1.
  - rewrite (proj2 (Z.eqb_neq _ _) Hl). cbn [negb]. by kstep.
Qed.

End boot.

(** ** A small kernel *)

(** A header and a segment of 600 bytes in the file and 700 in memory, at 0x100000. *)
Definition tiny_header : list Z :=
  le32 ELF_MAGIC ++ replicate 20 0 ++ le32 0x10000C ++ le32 52 ++ replicate 12 0 ++ [1; 0] ++ replicate 6 0 ++
  le32 1 ++ le32 84 ++ le32 0 ++ le32 0x100054 ++ le32 600 ++ le32 700 ++ replicate 8 0.

Definition tiny_sector (n : Z) : list Z :=
  if n =? 1 then tiny_header ++ replicate 428 7 else replicate 512 (u8 n).

(** A drive that is busy every other time. *)
Definition tiny_status (n : nat) : Z := if Nat.even n then 0x80 else 0x50.

Definition tiny_controller (p : Z → Z) : list Z := tiny_sector (port_lba p).

Lemma bootmain_loads_the_kernel_witness :
  runs (bootmain tiny_status 1 tiny_controller)
    (λ r s', r = Some 0x10000C ∧ b_mem s' 0x100054 = 7 ∧ b_mem s' (0x100054 + 599) = 2 ∧ b_mem s' (0x100054 + 650) = 0 ∧ b_mem s' 0x200000 = 9)
    (Bst (λ _, 9) (λ _, 0) 0).
Proof.
  assert (Hph : ∀ k, 0 ≤ k < elf_phnum (hdr tiny_sector) → k = 0) by (intros k; change (elf_phnum (hdr tiny_sector)) with 1; lia).
  eapply runs_mono.
  - refine (proj1 (bootmain_loads_the_kernel tiny_status 1 tiny_controller tiny_sector _ _ _ _) _).
    + intros n. destruct (Nat.even n) eqn:E; [exists 1%nat|exists 0%nat]; (split; [lia|]); unfold tiny_status.
      * by rewrite Nat.even_add, E.
      * by rewrite Nat.add_0_r, E.
    + done.
    + intros n. unfold tiny_sector. case_match; (split; [by vm_compute|]).
      * apply (bool_decide_unpack _). by vm_compute.
      * apply Forall_replicate, u8_range.
    + split; [by vm_compute|by vm_compute| | |].
      * intros k ->%Hph. by vm_compute.
      * intros k ->%Hph. right. by vm_compute.
      * intros j k Hj Hk. rewrite (Hph k) in Hj by lia. lia.
  - intros r s' (-> & Hm & Hf). split_and!; [by vm_compute| | | |].
    + exact (Hm 0 ltac:(by vm_compute) 0 ltac:(by vm_compute)).
    + exact (Hm 0 ltac:(by vm_compute) 599 ltac:(by vm_compute)).
    + exact (Hm 0 ltac:(by vm_compute) 650 ltac:(by vm_compute)).
    + rewrite Hf; [done|lia|lia|]. intros k ->%Hph. change (s_lo (phdr tiny_sector 0)) with 0x100000. change (s_hi (phdr tiny_sector 0)) with 0x100400. lia.
Defined.
