(* ===== verification/Mp.v ===== *)
(** * Multiprocessor tables: [xv6/mp.c] and [xv6/mp.h]

    The firmware leaves a table of the processors in memory; the kernel looks for it,
    checks its sums and walks over its entries.  Memory is the byte memory of [Prelude]
    by virtual address; the interrupt mode register is behind two ports. *)

From S2P Require Import Prelude Mmu.

Definition NCPU : Z := 8.

(** Sizes of the structures, and fields of [struct mp] and [struct mpconf] by offset. *)
Definition sizeof_mp : Z := 16.
Definition sizeof_mpconf : Z := 44.
Definition sizeof_mpproc : Z := 20.
Definition sizeof_mpioapic : Z := 8.

Definition mp_physaddr (m : gmap Z Z) (p : Z) : Z := ld32 m (p + 4).
Definition mp_imcrp (m : gmap Z Z) (p : Z) : Z := rd m (p + 12).
Definition conf_length (m : gmap Z Z) (p : Z) : Z := rd m (p + 4) + 2 ^ 8 * rd m (p + 5).
Definition conf_version (m : gmap Z Z) (p : Z) : Z := rd m (p + 6).
Definition conf_lapicaddr (m : gmap Z Z) (p : Z) : Z := ld32 m (p + 36).

Definition MPPROC : Z := 0.
Definition MPBUS : Z := 1.
Definition MPIOAPIC : Z := 2.
Definition MPIOINTR : Z := 3.
Definition MPLINTR : Z := 4.

(** [cpus[i].apicid], [ncpu], [ioapicid], [lapic], and what was written to ports. *)
Record mpst := Mpst { mp_cpus : list Z; ncpu : Z; ioapicid : Z; lapic : Z; mp_out : list (Z * Z) }.

Fixpoint mp_sum_loop (m : gmap Z Z) (addr : Z) (len : nat) (acc : Z) : Z :=
  match len with
  | O => acc
  | S len' => mp_sum_loop m (u32 (addr + 1)) len' (s32 (acc + rd m addr))
  end.

Definition mp_sum (m : gmap Z Z) (addr len : Z) : Z := u8 (mp_sum_loop m addr (Z.to_nat len) 0).

(** [memcmp(p, lit, strlen(lit)) == 0]. *)
Fixpoint mem_is (m : gmap Z Z) (p : Z) (lit : list Z) : bool :=
  match lit with
  | [] => true
  | c :: lit' => (rd m p =? c) && mem_is m (u32 (p + 1)) lit'
  end.

Definition MP_sig : list Z := [95; 77; 80; 95].
Definition PCMP_sig : list Z := [80; 67; 77; 80].

(** The null pointer is [None]. *)
Fixpoint mpsearch1_loop (fuel : nat) (m : gmap Z Z) (p e : Z) : option Z :=
  match fuel with
  | O => None
  | S fuel' =>
      if p <? e then
        if mem_is m p MP_sig && (mp_sum m p sizeof_mp =? 0) then Some p
        else mpsearch1_loop fuel' m (u32 (p + sizeof_mp)) e
      else None
  end.

Definition mpsearch1 (m : gmap Z Z) (a len : Z) : option Z :=
  let addr := P2V a in
  let e := u32 (addr + len) in
  mpsearch1_loop (S (Z.to_nat len)) m addr e.

Definition mpsearch (m : gmap Z Z) : option Z :=
  let bda := P2V 0x400 in
  let p := Z.lor (rd m (bda + 0x0F) ≪ 8) (rd m (bda + 0x0E)) ≪ 4 in
  let first :=
    if negb (p =? 0) then mpsearch1 m p 1024
    else mpsearch1 m (u32 (Z.lor (rd m (bda + 0x14) ≪ 8) (rd m (bda + 0x13)) * 1024 - 1024)) 1024 in
  match first with
  | Some mp => Some mp
  | None => mpsearch1 m 0xF0000 0x10000
  end.

(** [conf] and [*pmp]. *)
Definition mpconfig (m : gmap Z Z) : option (Z * Z) :=
  match mpsearch m with
  | None => None
  | Some mp =>
      if mp_physaddr m mp =? 0 then None
      else
        let conf := P2V (mp_physaddr m mp) in
        if negb (mem_is m conf PCMP_sig) then None
        else if negb (conf_version m conf =? 1) && negb (conf_version m conf =? 4) then None
        else if negb (mp_sum m conf (conf_length m conf) =? 0) then None
        else Some (conf, mp)
  end.

Section mp.
Context (m : gmap Z Z).
(** What port 0x23 reads as. *)
Context (imcr : Z).

Definition mp_outb (port data : Z) : K mpst unit :=
  kmod (λ s, Mpst (mp_cpus s) (ncpu s) (ioapicid s) (lapic s) (mp_out s ++ [(port, u8 data)])).

Definition add_cpu (id : Z) : K mpst unit :=
  kmod (λ s, Mpst (<[Z.to_nat (ncpu s) := id]> (mp_cpus s)) (ncpu s + 1) (ioapicid s) (lapic s) (mp_out s)).

(** The loop over the entries; [break] in the [switch] leaves [p] where it is. *)
Fixpoint mpinit_loop (fuel : nat) (p e : Z) (ismp : bool) : K mpst bool :=
  match fuel with
  | O => khang
  | S fuel' =>
      if p <? e then
        let type := rd m p in
        if type =? MPPROC then
          s ← kget;
          (if ncpu s <? NCPU then add_cpu (rd m (p + 1)) else mret tt);;
          mpinit_loop fuel' (u32 (p + sizeof_mpproc)) e ismp
        else if type =? MPIOAPIC then
          kmod (λ s, Mpst (mp_cpus s) (ncpu s) (rd m (p + 1)) (lapic s) (mp_out s));;
          mpinit_loop fuel' (u32 (p + sizeof_mpioapic)) e ismp
        else if (type =? MPBUS) || (type =? MPIOINTR) || (type =? MPLINTR) then
          mpinit_loop fuel' (u32 (p + 8)) e ismp
        else mpinit_loop fuel' p e false
      else mret ismp
  end.

Definition mpinit : K mpst unit :=
  match mpconfig m with
  | None => kpanic "Expect to run on an SMP"
  | Some (conf, mp) =>
      kmod (λ s, Mpst (mp_cpus s) (ncpu s) (ioapicid s) (conf_lapicaddr m conf) (mp_out s));;
      ismp ← mpinit_loop (S (Z.to_nat (conf_length m conf))) (u32 (conf + sizeof_mpconf)) (u32 (conf + conf_length m conf)) true;
      kassert ismp "Didn't find a suitable machine";;
      if negb (mp_imcrp m mp =? 0) then mp_outb 0x22 0x70;; mp_outb 0x23 (Z.lor imcr 1) else mret tt
  end.

(** ** Tables *)

(** The entries of a table, with the bytes that the kernel does not look at. *)
Inductive mpentry :=
| EProc (apicid : Z) (rest : list Z)
| EIoapic (apicno : Z) (rest : list Z)
| EOther (type : Z) (rest : list Z).

Definition encode (e : mpentry) : list Z :=
  match e with
  | EProc a r => MPPROC :: a :: r
  | EIoapic a r => MPIOAPIC :: a :: r
  | EOther t r => t :: r
  end.

Definition entry_ok (e : mpentry) : Prop :=
  match e with
  | EProc _ r => length r = 18%nat
  | EIoapic _ r => length r = 6%nat
  | EOther t r => (t = MPBUS ∨ t = MPIOINTR ∨ t = MPLINTR) ∧ length r = 7%nat
  end.

Definition table (es : list mpentry) : list Z := concat (encode <$> es).

(** The processors of a table, and its last I/O interrupt controller. *)
Definition procs (es : list mpentry) : list Z := omap (λ e, match e with EProc a _ => Some a | _ => None end) es.
Definition last_ioapic (old : Z) (es : list mpentry) : Z :=
  foldl (λ x e, match e with EIoapic a _ => a | _ => x end) old es.

Definition mem_at (p : Z) (l : list Z) : Prop := ∀ i b, l !! i = Some b → rd m (p + Z.of_nat i) = b.

Lemma mem_at_app p l l' : mem_at p (l ++ l') ↔ mem_at p l ∧ mem_at (p + Z.of_nat (length l)) l'.
Proof.
  split.
  - intros H. split; [intros i b Hi; apply H; by apply lookup_app_l_Some|]. intros i b Hi. rewrite <- (H (length l + i)%nat b).
    + f_equal. lia.
    + rewrite lookup_app_r by lia. by replace (length l + i - length l)%nat with i by lia.
  - intros [H1 H2] i b [Hi|[Hge Hi]]%lookup_app_Some; [by apply H1|]. rewrite <- (H2 _ _ Hi). f_equal. lia.
Qed.

(** The processors [pre] were found. *)
Record found (pre : list Z) (io la : Z) (out : list (Z * Z)) (s : mpst) : Prop := {
  fo_len : length (mp_cpus s) = 8%nat;
  fo_ncpu : ncpu s = Z.min NCPU (Z.of_nat (length pre));
  fo_cpus : take (Z.to_nat (ncpu s)) (mp_cpus s) = take 8 pre;
  fo_io : ioapicid s = io;
  fo_lapic : lapic s = la;
  fo_out : mp_out s = out
}.

Lemma found_cpu pre io la out s a : found pre io la out s → ncpu s < NCPU → runs (add_cpu a) (λ _, found (pre ++ [a]) io la out) s.
Proof.
  intros [] Hlt. assert (HN : NCPU = 8) by done. unfold add_cpu. kstep. split; simpl; try done.
  - by rewrite length_insert.
  - rewrite length_app. simpl. lia.
  - assert (Hp : ncpu s = Z.of_nat (length pre)) by lia. assert (Hp8 : (length pre < 8)%nat) by lia.
    rewrite Hp in fo_cpus0 |- *. rewrite Nat2Z.id in fo_cpus0 |- *.
    replace (Z.to_nat (Z.of_nat (length pre) + 1)) with (S (length pre)) by lia.
    rewrite (take_ge pre) in fo_cpus0 by lia. rewrite (take_ge (pre ++ [a])) by (rewrite length_app; simpl; lia).
    rewrite (take_S_r _ _ a) by (apply list_lookup_insert_eq; lia). by rewrite take_insert_ge, fo_cpus0 by lia.
Qed.

Lemma mpinit_loop_ok es : ∀ fuel p e pre io la out s, (length es < fuel)%nat → Forall entry_ok es → mem_at p (table es) → 0 ≤ p →
  p + Z.of_nat (length (table es)) = e → e < 2 ^ 32 → found pre io la out s →
  runs (mpinit_loop fuel p e true) (λ r s', r = true ∧ found (pre ++ procs es) (last_ioapic io es) la out s') s.
Proof.
  induction es as [|x es IH]; intros [|fuel] p e pre io la out s Hf Hok Hm Hp He Hmax Hs; try (simpl in Hf; lia); cbn [mpinit_loop].
  { simpl in He. rewrite (proj2 (Z.ltb_ge p e)) by lia. kstep. by rewrite app_nil_r. }
  apply Forall_cons in Hok as [Hx Hok]. unfold table in Hm, He. rewrite fmap_cons in Hm, He. cbn [concat] in Hm, He. fold (table es) in Hm, He.
  rewrite length_app in He. apply mem_at_app in Hm as [Hmx Hm]. cbn [length] in Hf.
  assert (Hlen : Z.of_nat (length (encode x)) = match x with EProc _ _ => 20 | _ => 8 end).
  { destruct x; simpl in *; [lia|lia|]. destruct Hx. lia. }
  rewrite (proj2 (Z.ltb_lt p e)) by (destruct x; lia).
  destruct x as [a r|a r|t r]; cbn [encode] in Hmx, Hlen, Hm, He; rewrite ?Nat2Z.inj_add, ?Hlen in He; rewrite ?Hlen in Hm;
    pose proof (Hmx 0%nat _ eq_refl) as H0; rewrite Z.add_0_r in H0; rewrite H0.
  - pose proof (Hmx 1%nat a eq_refl) as H1. change (Z.of_nat 1) with 1 in H1. rewrite H1. cbn [Z.eqb MPPROC]. kstep. kstep. kstep.
    rewrite u32_small by (change sizeof_mpproc with 20; lia). change sizeof_mpproc with 20.
    assert (Hr : ∀ s1, found (pre ++ [a]) io la out s1 → runs (mpinit_loop fuel (p + 20) e true)
       (λ r0 s', r0 = true ∧ found (pre ++ procs (EProc a r :: es)) (last_ioapic io (EProc a r :: es)) la out s') s1).
    { intros s1 Hs1. eapply runs_mono; [apply (IH fuel (p + 20) e (pre ++ [a]) io la out s1); try done; lia|].
      intros b s2 [-> H2]. split; [done|]. by rewrite <- app_assoc in H2. }
    destruct (Z.ltb_spec (ncpu s) NCPU); [eapply runs_mono; [by apply (found_cpu pre)|intros []; apply Hr]|].
    kstep. apply Hr. destruct Hs.
    assert (HN : NCPU = 8) by done. split; try done; [rewrite length_app; simpl; lia|]. rewrite fo_cpus0, take_app_le; [done|lia].
  - pose proof (Hmx 1%nat a eq_refl) as H1. change (Z.of_nat 1) with 1 in H1. rewrite H1. change (MPIOAPIC =? MPPROC) with false. change (MPIOAPIC =? MPIOAPIC) with true. cbv iota. kstep. kstep.
    change sizeof_mpioapic with 8. rewrite u32_small by lia. apply IH; try done; try lia. by destruct Hs.
  - destruct Hx as [Ht _]. replace (t =? MPPROC) with false by (symmetry; destruct Ht as [-> | [-> | ->]]; done).
    replace (t =? MPIOAPIC) with false by (symmetry; destruct Ht as [-> | [-> | ->]]; done).
    replace ((t =? MPBUS) || (t =? MPIOINTR) || (t =? MPLINTR)) with true by (symmetry; destruct Ht as [-> | [-> | ->]]; done).
    rewrite u32_small by lia. apply IH; try done; lia.
Qed.

(** An entry of another type is never left. *)
Lemma unknown_stuck fuel : ∀ p e b s, p < e → ¬ (0 ≤ rd m p ≤ 4) → mpinit_loop fuel p e b s = Hang.
Proof.
  induction fuel as [|fuel IH]; intros p e b s Hp Ht; [done|]. cbn [mpinit_loop]. rewrite (proj2 (Z.ltb_lt p e)) by done.
  unfold MPPROC, MPIOAPIC, MPBUS, MPIOINTR, MPLINTR. rewrite !(proj2 (Z.eqb_neq _ _)) by lia. cbn [orb]. by apply IH.
Qed.

Lemma table_stuck es t : ∀ fuel p e s, Forall entry_ok es → mem_at p (table es ++ [t]) → ¬ (0 ≤ t ≤ 4) → 0 ≤ p →
  p + Z.of_nat (length (table es)) < e → e < 2 ^ 32 → mpinit_loop fuel p e true s = Hang.
Proof.
  induction es as [|x es IH]; intros fuel p e s Hok Hm Ht Hp He Hmax.
  { apply unknown_stuck; [simpl in He; lia|]. pose proof (Hm 0%nat t eq_refl) as E. rewrite Z.add_0_r in E. by rewrite E. }
  destruct fuel as [|fuel]; [done|]. cbn [mpinit_loop].
  apply Forall_cons in Hok as [Hx Hok]. unfold table in Hm, He. rewrite fmap_cons in Hm, He. cbn [concat] in Hm, He. fold (table es) in Hm, He.
  rewrite length_app in He. rewrite <- app_assoc in Hm. apply mem_at_app in Hm as [Hmx Hm].
  assert (Hlen : Z.of_nat (length (encode x)) = match x with EProc _ _ => 20 | _ => 8 end).
  { destruct x; simpl in *; [lia|lia|]. destruct Hx. lia. }
  rewrite (proj2 (Z.ltb_lt p e)) by (destruct x; lia).
  destruct x as [a r|a r|t' r]; cbn [encode] in Hmx, Hlen, Hm, He; rewrite ?Nat2Z.inj_add, ?Hlen in He; rewrite ?Hlen in Hm;
    pose proof (Hmx 0%nat _ eq_refl) as H0; rewrite Z.add_0_r in H0; rewrite H0.
  - change (MPPROC =? MPPROC) with true. cbv iota. rewrite (bind_ok kget _ s s s eq_refl). change sizeof_mpproc with 20. rewrite u32_small by lia.
    destruct (ncpu s <? NCPU); rewrite (bind_ok _ _ s tt _ eq_refl); apply IH; try done; lia.
  - change (MPIOAPIC =? MPPROC) with false. change (MPIOAPIC =? MPIOAPIC) with true. cbv iota. rewrite (bind_ok _ _ s tt _ eq_refl).
    change sizeof_mpioapic with 8. rewrite u32_small by lia. apply IH; try done; lia.
  - destruct Hx as [Hx _]. replace (t' =? MPPROC) with false by (symmetry; destruct Hx as [-> | [-> | ->]]; done).
    replace (t' =? MPIOAPIC) with false by (symmetry; destruct Hx as [-> | [-> | ->]]; done).
    replace ((t' =? MPBUS) || (t' =? MPIOINTR) || (t' =? MPLINTR)) with true by (symmetry; destruct Hx as [-> | [-> | ->]]; done).
    rewrite u32_small by lia. apply IH; try done; lia.
Qed.

(** ** Sums and the search *)

Lemma mp_sum_loop_spec (Hm : mem_ok m) len : ∀ addr acc, 0 ≤ acc → acc + 255 * Z.of_nat len < 2 ^ 31 → 0 ≤ addr → addr + Z.of_nat len < 2 ^ 32 →
  mp_sum_loop m addr len acc = acc + sumf (rd m) (seqZ addr (Z.of_nat len)).
Proof.
  induction len as [|len IH]; intros addr acc Ha Hb H0 H1; cbn [mp_sum_loop]; [simpl; lia|].
  pose proof (Hm addr) as Hr. change (2 ^ 8) with 256 in Hr. rewrite u32_small by lia. rewrite s32_small by lia.
  rewrite IH by lia. rewrite (seqZ_cons addr) by lia. cbn [sumf foldr]. replace (Z.pred (Z.of_nat (S len))) with (Z.of_nat len) by lia.
  replace (Z.succ addr) with (addr + 1) by lia. unfold sumf. lia.
Qed.

(** The sum of the bytes, modulo 256. *)
Lemma mp_sum_spec (Hm : mem_ok m) addr len : 0 ≤ addr → 0 ≤ len < 2 ^ 16 → addr + len < 2 ^ 32 →
  mp_sum m addr len = sumf (rd m) (seqZ addr len) mod 2 ^ 8.
Proof. intros Ha Hl He. unfold mp_sum, u8. rewrite (mp_sum_loop_spec Hm) by lia. rewrite Z2Nat.id by lia. done. Qed.

(** *** Where the structure may be

    What [mpsearch] is to find, said of the memory: a structure has the signature and
    bytes that sum to zero, and it is in the first KB of the extended BIOS data area, or
    where there is none in the last KB of base memory, or else in the ROM from 0xF0000 on,
    at a place that is a multiple of 16 from the beginning of the area. *)
Definition bytes_sum (a len : Z) : Z := sumf (rd m) (seqZ a len) mod 2 ^ 8.

Definition structure (a : Z) : bool :=
  bool_decide (rd m <$> seqZ (P2V a) 4 = chars_of "_MP_") && (bytes_sum (P2V a) 16 =? 0).

Definition bios_word (a : Z) : Z := rd m (P2V a) + 256 * rd m (P2V a + 1).
Definition ebda : Z := 16 * bios_word 0x40E.
Definition base_end : Z := 1024 * bios_word 0x413.

Fixpoint every16 (a : Z) (n : nat) : list Z :=
  match n with
  | O => []
  | S n' => a :: every16 (a + 16) n'
  end.

Definition places : list Z := every16 (if ebda =? 0 then base_end - 1024 else ebda) 64 ++ every16 0xF0000 4096.

(** A configuration table that is accepted. *)
Definition good_conf (conf : Z) : bool :=
  bool_decide (rd m <$> seqZ conf 4 = chars_of "PCMP") &&
  ((conf_version m conf =? 1) || (conf_version m conf =? 4)) && (bytes_sum conf (conf_length m conf) =? 0).

Lemma mem_is_spec lit : ∀ p, 0 ≤ p → p + Z.of_nat (length lit) < 2 ^ 32 →
  mem_is m p lit = bool_decide (rd m <$> seqZ p (Z.of_nat (length lit)) = lit).
Proof.
  induction lit as [|c lit IH]; intros p Hp Hl; cbn [mem_is length] in *; [done|].
  rewrite seqZ_cons by lia. replace (Z.pred (Z.of_nat (S (length lit)))) with (Z.of_nat (length lit)) by lia.
  rewrite fmap_cons, u32_small, IH by lia. replace (Z.succ p) with (p + 1) by lia.
  destruct (Z.eqb_spec (rd m p) c) as [-> |Hne]; simpl.
  - apply bool_decide_ext. split; [by intros ->|by intros [= ->]].
  - symmetry. apply bool_decide_eq_false. congruence.
Qed.

Lemma structure_found (Hm : mem_ok m) a : 0 ≤ a → a + 16 < 2 ^ 31 →
  mem_is m (P2V a) MP_sig && (mp_sum m (P2V a) sizeof_mp =? 0) = structure a.
Proof.
  intros Ha Hl. unfold structure, bytes_sum, P2V, KERNBASE. rewrite u32_small by lia.
  rewrite mem_is_spec by (cbn [length MP_sig]; lia). change sizeof_mp with 16. by rewrite mp_sum_spec by (done || lia).
Qed.

Lemma mpsearch1_loop_first (Hm : mem_ok m) n : ∀ fuel a, (n < fuel)%nat → 0 ≤ a → a + 16 * Z.of_nat n < 2 ^ 31 →
  mpsearch1_loop fuel m (P2V a) (P2V a + 16 * Z.of_nat n) = P2V <$> find structure (every16 a n).
Proof.
  induction n as [|n IH]; intros [|fuel] a Hf Ha Hl; try lia; cbn [mpsearch1_loop every16 find].
  { by rewrite (proj2 (Z.ltb_ge _ _)) by lia. }
  rewrite (proj2 (Z.ltb_lt _ _)), structure_found by (done || lia). destruct (structure a); [done|].
  assert (E : u32 (P2V a + sizeof_mp) = P2V (a + 16)).
  { change sizeof_mp with 16. unfold P2V, KERNBASE. rewrite !u32_small by (rewrite ?u32_small; lia). lia. }
  rewrite E, <- (IH fuel (a + 16)) by lia. f_equal. unfold P2V, KERNBASE. rewrite !u32_small by lia. lia.
Qed.

Lemma mpsearch1_first (Hm : mem_ok m) a n : 0 ≤ a → a + 16 * Z.of_nat n < 2 ^ 31 →
  mpsearch1 m a (16 * Z.of_nat n) = P2V <$> find structure (every16 a n).
Proof.
  intros Ha Hl. unfold mpsearch1. rewrite (u32_small (P2V a + _)); [apply mpsearch1_loop_first; (done || lia)|].
  unfold P2V, KERNBASE. rewrite u32_small by lia. lia.
Qed.

Lemma find_app {B} (f : B → bool) l1 l2 : find f (l1 ++ l2) = match find f l1 with Some x => Some x | None => find f l2 end.
Proof. induction l1 as [|x l1 IH]; simpl; [done|]. by destruct (f x). Qed.

(** The search finds the first structure. *)
Lemma mpsearch_first (Hm : mem_ok m) : ebda ≠ 0 ∨ 1024 ≤ base_end → mpsearch m = P2V <$> find structure places.
Proof.
  intros Hbase. unfold mpsearch, places.
  assert (Hb : ∀ a, 0 ≤ rd m a < 256) by exact Hm.
  assert (E0 : ∀ x y, 0 ≤ x < 256 → 0 ≤ y < 256 → Z.lor (x ≪ 8) y = y + 256 * x).
  { intros x y Hx Hy. rewrite Z.shiftl_mul_pow2 by lia. rewrite (lor_add x y 8) by lia. lia. }
  change (P2V 1024 + 15) with (P2V 0x40E + 1). change (P2V 1024 + 14) with (P2V 0x40E).
  change (P2V 1024 + 20) with (P2V 0x413 + 1). change (P2V 1024 + 19) with (P2V 0x413).
  rewrite !E0 by apply Hb. fold (bios_word 0x40E) (bios_word 0x413).
  assert (Hw : ∀ a, 0 ≤ bios_word a < 65536) by (intros a; unfold bios_word; pose proof (Hb (P2V a)); pose proof (Hb (P2V a + 1)); lia).
  pose proof (Hw 0x40E) as H1. pose proof (Hw 0x413) as H2. unfold ebda, base_end in *.
  rewrite Z.shiftl_mul_pow2 by lia. change (2 ^ 4) with 16. rewrite (Z.mul_comm _ 16), (Z.mul_comm (bios_word 0x413)), find_app.
  assert (Ef : (if negb (16 * bios_word 0x40E =? 0) then mpsearch1 m (16 * bios_word 0x40E) 1024
     else mpsearch1 m (u32 (1024 * bios_word 0x413 - 1024)) 1024) =
     P2V <$> find structure (every16 (if 16 * bios_word 0x40E =? 0 then 1024 * bios_word 0x413 - 1024 else 16 * bios_word 0x40E) 64)).
  { destruct (Z.eqb_spec (16 * bios_word 0x40E) 0); cbn [negb].
    - rewrite u32_small by lia. apply (mpsearch1_first Hm _ 64); lia.
    - apply (mpsearch1_first Hm _ 64); lia. }
  rewrite Ef. destruct (find structure (every16 _ 64)); [done|]. apply (mpsearch1_first Hm 0xF0000 4096); lia.
Qed.

(** The table of the structure at [a]. *)
Definition conf_of (a : Z) : Z := P2V (mp_physaddr m (P2V a)).

Lemma conf_length_range (Hm : mem_ok m) conf : 0 ≤ conf_length m conf < 2 ^ 16.
Proof. unfold conf_length. pose proof (Hm (conf + 4)). pose proof (Hm (conf + 5)). lia. Qed.

Lemma mpconfig_found (Hm : mem_ok m) a : mpsearch m = Some (P2V a) → conf_of a + 2 ^ 16 < 2 ^ 32 →
  mpconfig m = if negb (mp_physaddr m (P2V a) =? 0) && good_conf (conf_of a) then Some (conf_of a, P2V a) else None.
Proof.
  intros E Hc. unfold mpconfig, good_conf, bytes_sum. rewrite E. fold (conf_of a).
  assert (H0 : 0 ≤ conf_of a) by apply u32_range. pose proof (conf_length_range Hm (conf_of a)).
  rewrite mem_is_spec, mp_sum_spec by (done || (cbn [length PCMP_sig]; lia)).
  change (Z.of_nat (length PCMP_sig)) with 4. change (chars_of "PCMP") with PCMP_sig.
  destruct (mp_physaddr m (P2V a) =? 0), (bool_decide _), (conf_version m _ =? 1), (conf_version m _ =? 4), (_ mod 2 ^ 8 =? 0); done.
Qed.

Lemma length_table es : Forall entry_ok es → (8 * length es ≤ length (table es))%nat.
Proof.
  induction 1 as [|x es Hx _ IH]; [done|]. unfold table in *. rewrite fmap_cons. cbn [concat length]. rewrite length_app.
  destruct x; simpl in *; [lia|lia|]. destruct Hx. lia.
Qed.

(** C36. Finding the processors.  The kernel takes the first structure with the right
    signature and sum in the first KB of the extended BIOS data area (or, where there is
    none, in the last KB of base memory) and then in the ROM from 0xF0000 to 0xFFFFF.
    Without one, or when its table is missing or has a wrong signature, version or sum,
    [mpinit] panics.  With a table of known entries [mpinit] returns, and the processors
    it knows are the first eight of the table in their order, the I/O controller the
    last one listed, and the interrupt mode register is written when the structure asks
    for it; on a table with an entry of another type it does not return, however long the
    loop runs.  The table does not reach the end of the address space, base memory has a
    KB where there is no data area, and [mpinit] starts with no processor. *)
Theorem mpinit_reads_the_table s : mem_ok m → ebda ≠ 0 ∨ 1024 ≤ base_end →
  match find structure places with
  | None => mpinit s = Panic "Expect to run on an SMP"
  | Some a => let conf := conf_of a in let n := conf_length m conf in conf + 2 ^ 16 < 2 ^ 32 →
      if negb (mp_physaddr m (P2V a) =? 0) && good_conf conf then
        (∀ es, Forall entry_ok es → mem_at (conf + sizeof_mpconf) (table es) → n = sizeof_mpconf + Z.of_nat (length (table es)) →
           length (mp_cpus s) = 8%nat → ncpu s = 0 →
           runs mpinit (λ _, found (procs es) (last_ioapic (ioapicid s) es) (conf_lapicaddr m conf)
             (mp_out s ++ if mp_imcrp m (P2V a) =? 0 then [] else [(0x22, 0x70); (0x23, u8 (Z.lor imcr 1))])) s) ∧
        (∀ es t, Forall entry_ok es → mem_at (conf + sizeof_mpconf) (table es ++ [t]) → ¬ (0 ≤ t ≤ 4) →
           sizeof_mpconf + Z.of_nat (length (table es)) < n →
           mpinit s = Hang ∧ ∀ fuel s', mpinit_loop fuel (conf + sizeof_mpconf) (conf + n) true s' = Hang)
      else mpinit s = Panic "Expect to run on an SMP"
  end.
Proof.
  intros Hm Hbase. pose proof (mpsearch_first Hm Hbase) as Es. destruct (find structure places) as [a|]; simpl in Es.
  2:{ unfold mpinit, mpconfig. by rewrite Es. }
  intros conf n He. pose proof (mpconfig_found Hm a Es He) as E. fold conf in E.
  destruct (negb _ && good_conf conf); [|unfold mpinit; by rewrite E].
  assert (HZ : sizeof_mpconf = 44) by done. assert (Hconf : 0 ≤ conf) by apply u32_range.
  pose proof (conf_length_range Hm conf) as Hn. fold n in Hn. split.
  - intros es Hok Htab Hlen Hc8 H0. unfold mpinit. rewrite E. kstep. kstep. fold n. rewrite HZ in *.
    rewrite (u32_small (conf + 44)), (u32_small (conf + n)) by lia. pose proof (length_table es Hok) as Hes. kstep.
    eapply runs_mono; [apply (mpinit_loop_ok es _ _ _ [] (ioapicid s) (conf_lapicaddr m conf) (mp_out s)); try done; try lia|].
    { split; simpl; try done. by rewrite H0. }
    intros b s1 [-> Hf]. simpl app in Hf. kstep. kstep; [done|]. destruct (mp_imcrp m (P2V a) =? 0); cbn [negb].
    + kstep. by rewrite app_nil_r.
    + unfold mp_outb. kstep. kstep. kstep. destruct Hf. split; simpl; try done. by rewrite fo_out0, <- app_assoc.
  - intros es t Hok Htab Ht Hlt. split; [|intros; apply (table_stuck es t); (done || lia)]. unfold mpinit. rewrite E.
    rewrite (bind_ok _ _ s tt _ eq_refl). fold n. rewrite HZ in *.
    rewrite (u32_small (conf + 44)), (u32_small (conf + n)) by lia. unfold mbind, K_bind.
    by rewrite (table_stuck es t) by (done || lia).
Qed.

End mp.

(** ** A machine with two processors *)

Definition two_cpus : list mpentry :=
  [EProc 0 (replicate 18 0); EProc 1 (replicate 18 0); EOther MPBUS (replicate 7 0); EIoapic 2 (replicate 6 0)].

Definition two_memory : gmap Z Z :=
  let conf := PCMP_sig ++ [100; 0; 4; 0x84] ++ replicate 28 0 ++ [0; 0; 0xE0; 0xFE] ++ replicate 4 0 ++ table two_cpus in
  st_bytes (st_bytes (st_bytes ∅ (P2V 0x40E) [0xC0; 0x9F]) (P2V 0x9FC20) (MP_sig ++ [0; 0; 0x0F; 0; 1; 4; 0x91] ++ replicate 5 0)) (P2V 0xF0000) conf.

Lemma mpinit_reads_the_table_witness :
  mpsearch two_memory = Some (P2V 0x9FC20) ∧
  runs (mpinit two_memory 0) (λ _ s', ncpu s' = 2 ∧ take 2 (mp_cpus s') = [0; 1] ∧ ioapicid s' = 2 ∧ lapic s' = 0xFEE00000)
    (Mpst (replicate 8 0) 0 0 0 []).
Proof.
  split; [by vm_compute|].
  assert (Hm : mem_ok two_memory) by (apply mem_ok_st_bytes, mem_ok_st_bytes, mem_ok_st_bytes, mem_ok_empty).
  assert (Hb : ebda two_memory ≠ 0 ∨ 1024 ≤ base_end two_memory) by (left; by vm_compute).
  pose proof (mpinit_reads_the_table two_memory 0 (Mpst (replicate 8 0) 0 0 0 []) Hm Hb) as H.
  replace (find (structure two_memory) (places two_memory)) with (Some 0x9FC20) in H by (by vm_compute). cbv beta iota zeta in H.
  specialize (H ltac:(by vm_compute)). replace (negb _ && good_conf _ _) with true in H by (by vm_compute).
  change (conf_of two_memory 0x9FC20) with (P2V (mp_physaddr two_memory (P2V 0x9FC20))) in H.
  replace (mp_physaddr two_memory (P2V 0x9FC20)) with 0xF0000 in H by (by vm_compute).
  destruct H as [H _]. eapply runs_mono; [apply (H two_cpus)|].
  - by repeat constructor.
  - intros i b Hi. assert (Hlt : (i < 56)%nat) by (apply lookup_lt_Some in Hi; exact Hi).
    assert (Hall : Forall (λ i, rd two_memory (P2V 0xF0000 + sizeof_mpconf + Z.of_nat i) = table two_cpus !!! i) (seq 0 56))
      by (apply (bool_decide_unpack _); by vm_compute).
    rewrite Forall_forall in Hall. rewrite (Hall i) by (apply elem_of_seq; lia). by apply list_lookup_total_correct.
  - by vm_compute.
  - done.
  - done.
  - intros [] s' []. split_and!; [exact fo_ncpu0| |exact fo_io0|rewrite fo_lapic0; by vm_compute].
    rewrite fo_ncpu0 in fo_cpus0. exact fo_cpus0.
Defined.
