(* ===== verification/Wc.v ===== *)
(** * Counting and copying files: [xv6/wc.c] and [xv6/cat.c]

    Two filters over files that are read in pieces.  A file is what its successive [read]s
    return; what the programs print goes through [printf] of [Printf]. *)

From S2P Require Import Prelude Console Printf.

(** A [read]: the bytes it puts in [buf], none at the end of the file, or an error. *)
Abbreviation reads := (list (option (list Z))).

(** Strings of the programs. *)
Definition wc_fmt : list Z := [37; 100; 32; 37; 100; 32; 37; 100; 32; 37; 115; 10].
Definition wc_read_error : list Z := [119; 99; 58; 32; 114; 101; 97; 100; 32; 101; 114; 114; 111; 114; 10].
Definition wc_cannot_open : list Z :=
  [119; 99; 58; 32; 99; 97; 110; 110; 111; 116; 32; 111; 112; 101; 110; 32; 37; 115; 10].
Definition spaces : list Z := [32; 13; 9; 10; 11].

(** [strchr] of [ulib.c], for a string without its NUL: whether the character is found. *)
Fixpoint strchr_in (s : list Z) (c : Z) : bool :=
  match s with
  | [] => false
  | x :: s' => if x =? c then true else strchr_in s' c
  end.

(** [l], [w], [c] and [inword]. *)
Record wcst := Wcst { wc_l : Z; wc_w : Z; wc_c : Z; wc_inword : bool }.

(** The body of the loop over the buffer. *)
Definition wc_char (s : wcst) (b : Z) : wcst :=
  let c := s32 (wc_c s + 1) in
  let l := if b =? 10 then s32 (wc_l s + 1) else wc_l s in
  if strchr_in spaces b then Wcst l (wc_w s) c false
  else if negb (wc_inword s) then Wcst l (s32 (wc_w s + 1)) c true
  else Wcst l (wc_w s) c (wc_inword s).

(** The loop that reads; [n < 0] at its end is [true]. *)
Fixpoint wc_read (s : wcst) (rs : reads) : wcst * bool :=
  match rs with
  | [] => (s, false)
  | None :: _ => (s, true)
  | Some buf :: rs' => if 0 <? Z.of_nat (length buf) then wc_read (foldl wc_char s buf) rs' else (s, false)
  end.

Section wc.
(** The strings at the addresses in [argv], and the files by name. *)
Context (str : Z → list Z) (open : list Z → option reads).

(** [false] when the program exits in it. *)
Definition wc (rs : reads) (name : Z) : K (list (Z * Z)) bool :=
  let '(s, err) := wc_read (Wcst 0 0 0 false) rs in
  if (err : bool) then printf (λ _, 0) str 1 wc_read_error;; mret false
  else printf (λ k, nth k [wc_l s; wc_w s; wc_c s; name] 0) str 1 wc_fmt;; mret true.

Fixpoint wc_files (argv : list Z) : K (list (Z * Z)) unit :=
  match argv with
  | [] => mret tt
  | a :: argv' =>
      match open (str a) with
      | None => printf (λ _, a) str 1 wc_cannot_open
      | Some rs => ok ← wc rs a; if (ok : bool) then wc_files argv' else mret tt
      end
  end.

(** [stdin] is what descriptor 0 reads, [empty] the address of the empty string. *)
Definition wc_main (stdin : reads) (empty : Z) (argv : list Z) : K (list (Z * Z)) unit :=
  if Z.of_nat (length argv) <=? 1 then wc stdin empty;; mret tt else wc_files (drop 1 argv).

End wc.

(** ** [cat] *)

(** What [write] of a buffer to descriptor 1 returns is [w]; that many of its bytes are written. *)
Section cat.
Context (w : list Z → Z).

Definition cat_write_error : list Z := [99; 97; 116; 58; 32; 119; 114; 105; 116; 101; 32; 101; 114; 114; 111; 114; 10].
Definition cat_read_error : list Z := [99; 97; 116; 58; 32; 114; 101; 97; 100; 32; 101; 114; 114; 111; 114; 10].

Fixpoint cat (rs : reads) : K (list (Z * Z)) bool :=
  match rs with
  | [] => mret true
  | None :: _ => printf (λ _, 0) (λ _, []) 1 cat_read_error;; mret false
  | Some buf :: rs' =>
      if 0 <? Z.of_nat (length buf) then
        kmod (λ out, out ++ on_fd 1 (take (Z.to_nat (w buf)) buf));;
        if negb (w buf =? Z.of_nat (length buf)) then printf (λ _, 0) (λ _, []) 1 cat_write_error;; mret false
        else cat rs'
      else mret true
  end.

Definition cat_cannot_open : list Z :=
  [99; 97; 116; 58; 32; 99; 97; 110; 110; 111; 116; 32; 111; 112; 101; 110; 32; 37; 115; 10].

Fixpoint cat_files (str : Z → list Z) (open : list Z → option reads) (argv : list Z) : K (list (Z * Z)) unit :=
  match argv with
  | [] => mret tt
  | a :: argv' =>
      match open (str a) with
      | None => printf (λ _, a) str 1 cat_cannot_open
      | Some rs => ok ← cat rs; if (ok : bool) then cat_files str open argv' else mret tt
      end
  end.

Definition cat_main (str : Z → list Z) (open : list Z → option reads) (stdin : reads) (argv : list Z) : K (list (Z * Z)) unit :=
  if Z.of_nat (length argv) <=? 1 then cat stdin;; mret tt else cat_files str open (drop 1 argv).
End cat.

(** ** What is counted *)

Definition is_space (b : Z) : bool := bool_decide (b ∈ spaces).

Fixpoint lines (data : list Z) : Z :=
  match data with
  | [] => 0
  | b :: data' => (if b =? 10 then 1 else 0) + lines data'
  end.

(** A word starts at a character that is not a space and follows a space or the start of the file. *)
Fixpoint words_after (space : bool) (data : list Z) : Z :=
  match data with
  | [] => 0
  | b :: data' => (if space && negb (is_space b) then 1 else 0) + words_after (is_space b) data'
  end.

Definition nwords (data : list Z) : Z := words_after true data.

(** The file that reads without errors return: up to the first that returns nothing. *)
Fixpoint read_data (rs : reads) : option (list Z) :=
  match rs with
  | [] => Some []
  | None :: _ => None
  | Some [] :: _ => Some []
  | Some buf :: rs' => (buf ++.) <$> read_data rs'
  end.

(** The line that is printed for a file. *)
Definition report (data name : list Z) : list Z :=
  int_text udigits (lines data) 10 true ++ [32] ++ int_text udigits (nwords data) 10 true ++ [32] ++
  int_text udigits (Z.of_nat (length data)) 10 true ++ [32] ++ name ++ [10].

Section spec.
Context (str : Z → list Z) (open : list Z → option reads).

(** What [wc] prints for a file, and whether it goes on. *)
Definition wc_file (rs : reads) (name : list Z) : list Z * bool :=
  match read_data rs with
  | None => (wc_read_error, false)
  | Some data => (report data name, true)
  end.

(** The output for the files [names]: a report for each, up to the first that cannot be
    opened or read. *)
Fixpoint wc_spec (names : list (list Z)) : list Z :=
  match names with
  | [] => []
  | n :: names' =>
      match open n with
      | None => take 16 wc_cannot_open ++ n ++ [10]
      | Some rs => let '(o, go) := wc_file rs n in o ++ if (go : bool) then wc_spec names' else []
      end
  end.

Definition small (rs : reads) : Prop := ∀ data, read_data rs = Some data → Z.of_nat (length data) < 2 ^ 31.

(** ** Proofs *)

Lemma strchr_space b : strchr_in spaces b = is_space b.
Proof.
  unfold is_space. generalize spaces. intros l. induction l as [|x l IH]; [done|]. cbn [strchr_in]. destruct (Z.eqb_spec x b) as [-> |Hne].
  - symmetry. apply bool_decide_eq_true. by left.
  - rewrite IH. apply bool_decide_ext. rewrite elem_of_cons. naive_solver.
Qed.

Lemma words_bound space data : 0 ≤ words_after space data ≤ Z.of_nat (length data).
Proof. revert space. induction data as [|b data IH]; intros space; simpl; [lia|]. specialize (IH (is_space b)). case_match; lia. Qed.

Lemma lines_bound data : 0 ≤ lines data ≤ Z.of_nat (length data).
Proof. induction data as [|b data IH]; simpl; [lia|]. case_match; lia. Qed.

(** The counters after more characters. *)
Lemma wc_chars data : ∀ s, 0 ≤ wc_l s → 0 ≤ wc_w s → 0 ≤ wc_c s → wc_l s + Z.of_nat (length data) < 2 ^ 31 →
  wc_w s + Z.of_nat (length data) < 2 ^ 31 → wc_c s + Z.of_nat (length data) < 2 ^ 31 →
  let s' := foldl wc_char s data in
  wc_l s' = wc_l s + lines data ∧ wc_w s' = wc_w s + words_after (negb (wc_inword s)) data ∧
  wc_c s' = wc_c s + Z.of_nat (length data) ∧
  ∀ more, words_after (negb (wc_inword s)) (data ++ more) = words_after (negb (wc_inword s)) data + words_after (negb (wc_inword s')) more.
Proof.
  induction data as [|b data IH]; intros s Hl Hw Hc Bl Bw Bc; cbn [foldl length] in *.
  { simpl. split_and!; lia || done. }
  set (s1 := wc_char s b).
  assert (Hs1 : wc_l s1 = wc_l s + (if b =? 10 then 1 else 0) ∧ wc_w s1 = wc_w s + (if negb (wc_inword s) && negb (is_space b) then 1 else 0) ∧
    wc_c s1 = wc_c s + 1 ∧ negb (wc_inword s1) = is_space b).
  { unfold s1, wc_char. rewrite strchr_space. rewrite !(s32_small (_ + 1)) by lia.
    destruct (b =? 10), (is_space b), (wc_inword s); simpl; split_and!; lia || done. }
  destruct Hs1 as (E1 & E2 & E3 & E4).
  destruct (IH s1) as (F1 & F2 & F3 & F4); try (rewrite ?E1, ?E2, ?E3; repeat case_match; lia).
  rewrite E4 in *. cbn [lines words_after app]. split_and!; try lia. intros more. specialize (F4 more). lia.
Qed.

(** The pieces in which a file is read do not matter. *)
Lemma wc_read_ok rs : ∀ s,
  match read_data rs with
  | None => (wc_read s rs).2 = true
  | Some data => wc_read s rs = (foldl wc_char s data, false)
  end.
Proof.
  induction rs as [|[buf|] rs IH]; intros s; cbn [read_data wc_read]; [done| |done]. destruct buf as [|x buf]; [done|].
  set (l := x :: buf). rewrite (proj2 (Z.ltb_lt _ _)) by (unfold l; simpl; lia). specialize (IH (foldl wc_char s l)).
  destruct (read_data rs) as [data|]; cbn [fmap option_fmap option_map]; [by rewrite foldl_app|done].
Qed.

Lemma render_counts l w c a : 0 ≤ l < 2 ^ 31 → 0 ≤ w < 2 ^ 31 → 0 ≤ c < 2 ^ 31 → a ≠ 0 →
  render udigits (λ k, nth k [l; w; c; a] 0) str (directives true wc_fmt) 0 =
    int_text udigits l 10 true ++ [32] ++ int_text udigits w 10 true ++ [32] ++ int_text udigits c 10 true ++ [32] ++ str a ++ [10].
Proof.
  intros Hl Hw Hc Ha. change (directives true wc_fmt) with [Dec; Text [32]; Dec; Text [32]; Dec; Text [32]; Str; Text [10]].
  cbn [render nth]. rewrite (proj2 (Z.eqb_neq a 0)) by done. by rewrite !s32_small by lia.
Qed.

Lemma wc_ok rs a out : small rs → a ≠ 0 →
  runs (wc str rs a) (λ ok o, ok = (wc_file rs (str a)).2 ∧ o = out ++ on_fd 1 (wc_file rs (str a)).1) out.
Proof.
  intros Hs Ha. unfold wc, wc_file. pose proof (wc_read_ok rs (Wcst 0 0 0 false)) as Hr.
  destruct (read_data rs) as [data|] eqn:E.
  - rewrite Hr. specialize (Hs data E). destruct (wc_chars data (Wcst 0 0 0 false)) as (E1 & E2 & E3 & _); simpl; try lia.
    set (s := foldl _ _ _) in *. cbn [wc_l wc_w wc_c wc_inword negb Z.add] in E1, E2, E3. kstep. unfold printf.
    eapply runs_mono; [apply (printf_loop_ok (λ k, nth k [wc_l s; wc_w s; wc_c s; a] 0) str 1 wc_fmt false)|]. intros [] o ->. kstep.
    pose proof (lines_bound data). pose proof (words_bound true data). split; [done|].
    rewrite E1, E2, E3, render_counts; [done|lia..].
  - destruct (wc_read _ rs) as [s err]. cbn [snd] in Hr. rewrite Hr. kstep. unfold printf.
    eapply runs_mono; [apply (printf_loop_ok (λ _, 0) str 1 wc_read_error false)|]. intros [] o ->. kstep. done.
Qed.

Lemma wc_files_ok argv : ∀ out, Forall (λ a, a ≠ 0) argv → (∀ a rs, a ∈ argv → open (str a) = Some rs → small rs) →
  runs (wc_files str open argv) (λ _ o, o = out ++ on_fd 1 (wc_spec (map str argv))) out.
Proof.
  induction argv as [|a argv IH]; intros out Ha Hs; cbn [wc_files map wc_spec].
  { kstep. by rewrite app_nil_r. }
  apply Forall_cons in Ha as [Ha Ha']. destruct (open (str a)) as [rs|] eqn:E.
  - kstep. eapply runs_mono; [apply (wc_ok rs a out); [apply (Hs a); [by left|done]|done]|]. intros ok o [-> ->].
    destruct (wc_file rs (str a)) as [t go]. cbn [fst snd]. destruct go.
    + eapply runs_mono; [apply IH; [done|intros; eapply Hs; [by right|done]]|]. intros [] o ->. unfold on_fd. by rewrite map_app, app_assoc.
    + kstep. by rewrite app_nil_r.
  - unfold printf. eapply runs_mono; [apply (printf_loop_ok (λ _, a) str 1 wc_cannot_open false)|]. intros [] o ->. do 2 f_equal.
    replace (directives true wc_cannot_open) with (((λ c, Text [c]) <$> take 16 wc_cannot_open) ++ [Str; Text [10]]) by (by vm_compute).
    cbn [take wc_cannot_open fmap list_fmap app render]. by rewrite (proj2 (Z.eqb_neq a 0)) by done.
Qed.
End spec.

(** C37. Counting.  For files read in any pieces, [wc] prints for each of them the number of
    its lines, of its words (the places where a character that is not a space follows a
    space or the start of the file) and of its characters, in the order of the command
    line and up to the first file that cannot be opened or read; without arguments it
    counts the standard input. *)
Theorem wc_counts_lines_words_characters str open stdin empty prog argv out :
  Forall (λ a, a ≠ 0) (empty :: argv) → small stdin → (∀ a rs, a ∈ argv → open (str a) = Some rs → small rs) →
  runs (wc_main str open stdin empty (prog :: argv))
    (λ _ o, o = out ++ on_fd 1 (match argv with [] => (wc_file stdin (str empty)).1 | _ => wc_spec open (map str argv) end)) out.
Proof.
  intros [He Ha]%Forall_cons Hin Hs. unfold wc_main. destruct argv as [|a argv].
  - change (Z.of_nat (length [prog]) <=? 1) with true. cbv iota. kstep. eapply runs_mono; [by apply wc_ok|]. intros ok o [_ ->]. by kstep.
  - rewrite (proj2 (Z.leb_gt _ _)) by (simpl; lia). by apply wc_files_ok.
Qed.

(** [cat] copies what it reads, in any pieces. *)
Lemma cat_copies w rs data out : read_data rs = Some data → (∀ buf, w buf = Z.of_nat (length buf)) →
  runs (cat w rs) (λ ok o, ok = true ∧ o = out ++ on_fd 1 data) out.
Proof.
  intros Hd Hw. revert data out Hd. induction rs as [|[buf|] rs IH]; intros data out Hd; cbn [cat read_data] in *; simplify_eq.
  - kstep. by rewrite app_nil_r.
  - destruct buf as [|x buf]; simplify_eq.
    { change (0 <? Z.of_nat (length ([] : list Z))) with false. cbv iota. kstep. by rewrite app_nil_r. }
    destruct (read_data rs) as [more|] eqn:E; [|done]. cbn [fmap option_fmap option_map] in Hd. simplify_eq. set (l := x :: buf).
    rewrite (proj2 (Z.ltb_lt _ _)) by (unfold l; simpl; lia). kstep. kstep. rewrite Hw, Z.eqb_refl. cbn [negb].
    rewrite take_ge by lia. eapply runs_mono; [by apply IH|]. intros ok o [-> ->]. split; [done|]. unfold on_fd.
    change (x :: buf ++ more) with (l ++ more). by rewrite map_app, app_assoc.
Qed.

Lemma cat_concatenates w str open stdin prog argv datas out : (∀ buf, w buf = Z.of_nat (length buf)) → argv ≠ [] →
  Forall2 (λ a data, ∃ rs, open (str a) = Some rs ∧ read_data rs = Some data) argv datas →
  runs (cat_main w str open stdin (prog :: argv)) (λ _ o, o = out ++ on_fd 1 (concat datas)) out.
Proof.
  intros Hw Hne Hall. unfold cat_main. rewrite (proj2 (Z.leb_gt _ _)) by (destruct argv; [done|simpl; lia]). change (drop 1 (prog :: argv)) with (drop 0 argv). rewrite drop_0. clear Hne.
  revert out. induction Hall as [|a data argv datas (rs & Ho & Hd) _ IH]; intros out; cbn [cat_files concat].
  { kstep. by rewrite app_nil_r. }
  rewrite Ho. kstep. eapply runs_mono; [by apply cat_copies|]. intros ok o [-> ->]. eapply runs_mono; [apply IH|].
  intros [] o ->. unfold on_fd. by rewrite map_app, app_assoc.
Qed.

(** Two files, of which the second cannot be opened. *)
Lemma wc_counts_lines_words_characters_witness :
  runs (wc_main (λ a, if a =? 8 then [97] else [98]) (λ n, if bool_decide (n = [97]) then Some [Some [104; 111]; Some [108; 97; 32; 121]; Some [10]] else None)
          [] 4 [16; 8; 12])
    (λ _ o, map snd o = [49; 32; 50; 32; 55; 32; 97; 10] ++ [119; 99; 58; 32; 99; 97; 110; 110; 111; 116; 32; 111; 112; 101; 110; 32; 98; 10]) [].
Proof.
  eapply runs_mono.
  - apply (wc_counts_lines_words_characters (λ a, if a =? 8 then [97] else [98])
      (λ n, if bool_decide (n = [97]) then Some [Some [104; 111]; Some [108; 97; 32; 121]; Some [10]] else None) [] 4 16 [8; 12] []).
    + repeat constructor; lia.
    + intros data [= <-]. by vm_compute.
    + intros a rs _. case_bool_decide; [|done]. intros [= <-] data [= <-]. by vm_compute.
  - intros [] o ->. by vm_compute.
Defined.
