(* ===== verification/Uthread.v ===== *)
(** * User threads: [xv6/uthreadlib.c] and [xv6/uthread_switch.S]

    Threads of one process that give up the processor of their own accord.  Memory is
    made of words of four bytes at addresses that are multiples of four; registers
    are part of the state because [thread_switch] saves them on the stack of one
    thread and loads them from the stack of another.  Between calls of the library a
    thread runs code of its own. *)

From S2P Require Import Prelude.

Definition FREE : Z := 0.
Definition RUNNING : Z := 1.
Definition RUNNABLE : Z := 2.
Definition STACK_SIZE : Z := 8192.
Definition MAX_THREAD : nat := 8.

(** [struct thread]: its size and the addresses of its fields. *)
Definition sizeof_thread : Z := 4 + STACK_SIZE + 4.
Definition t_sp (t : Z) : Z := t.
Definition t_stack (t : Z) : Z := t + 4.
Definition t_state (t : Z) : Z := t + 4 + STACK_SIZE.

Record regs := Regs { eax : Z; ecx : Z; edx : Z; ebx : Z; ebp : Z; esi : Z; edi : Z; esp : Z; eip : Z }.

(** Memory, [current_thread], [next_thread] and the registers. *)
Record um := Um { u_mem : Z → Z; current_thread : Z; next_thread : Z; u_regs : regs }.

Definition set_esp (x : Z) (r : regs) : regs := Regs (eax r) (ecx r) (edx r) (ebx r) (ebp r) (esi r) (edi r) x (eip r).
Definition put_mem (a x : Z) (s : um) : um := Um (fupd (u_mem s) a x) (current_thread s) (next_thread s) (u_regs s).
Definition put_regs (r : regs) (s : um) : um := Um (u_mem s) (current_thread s) (next_thread s) r.
Definition set_current (t : Z) (s : um) : um := Um (u_mem s) t (next_thread s) (u_regs s).
Definition set_next (t : Z) (s : um) : um := Um (u_mem s) (current_thread s) t (u_regs s).

Definition push (x : Z) : K um unit :=
  kmod (λ s, let sp := esp (u_regs s) - 4 in put_mem sp x (put_regs (set_esp sp (u_regs s)) s)).

Definition pop : K um Z := λ s,
  let sp := esp (u_regs s) in Ok (u_mem s sp, put_regs (set_esp (sp + 4) (u_regs s)) s).

Definition pusha : K um unit :=
  s ← kget;
  let r := u_regs s in
  push (eax r);; push (ecx r);; push (edx r);; push (ebx r);; push (esp r);; push (ebp r);; push (esi r);; push (edi r).

Definition popa : K um unit :=
  di ← pop; si ← pop; bp ← pop; _ ← pop; bx ← pop; dx ← pop; cx ← pop; ax ← pop;
  kmod (λ s, put_regs (Regs ax cx dx bx bp si di (esp (u_regs s)) (eip (u_regs s))) s).

Definition ret : K um unit :=
  a ← pop;
  kmod (λ s, let r := u_regs s in put_regs (Regs (eax r) (ecx r) (edx r) (ebx r) (ebp r) (esi r) (edi r) (esp r) a) s).

(** [thread_switch], called from an instruction that is followed by the one at [ra].  It goes
    through [%eax], which [popa] loads in the end. *)
Definition thread_switch (ra : Z) : K um unit :=
  push ra;;
  pusha;;
  kmod (λ s, put_mem (t_sp (current_thread s)) (esp (u_regs s)) s);;
  kmod (λ s, put_regs (set_esp (u_mem s (t_sp (next_thread s))) (u_regs s)) s);;
  kmod (λ s, set_current (next_thread s) s);;
  kmod (set_next 0);;
  popa;;
  ret.

Section uthread.
(** The addresses of [all_thread] and of the instruction after the call of [thread_switch]. *)
Context (all_thread ra : Z).

Definition thread_end : Z := all_thread + sizeof_thread * Z.of_nat MAX_THREAD.

(** [for (t = all_thread; t < all_thread + MAX_THREAD; t++)] up to the first that satisfies [p]. *)
Fixpoint find_thread (k : nat) (t : Z) (p : Z → bool) : Z :=
  match k with
  | O => t
  | S k' => if p t then t else find_thread k' (t + sizeof_thread) p
  end.

Definition thread_init : K um unit :=
  kmod (set_current all_thread);;
  kmod (λ s, put_mem (t_state (current_thread s)) RUNNING s).

(** The process exits when there is nothing to run. *)
Definition thread_schedule : K um unit :=
  kmod (set_next 0);;
  s ← kget;
  let t := find_thread MAX_THREAD all_thread
             (λ t, (u_mem s (t_state t) =? RUNNABLE) && negb (t =? current_thread s)) in
  (if t <? thread_end then kmod (set_next t) else mret tt);;
  (if (thread_end <=? t) && (u_mem s (t_state (current_thread s)) =? RUNNABLE)
   then kmod (set_next (current_thread s)) else mret tt);;
  s ← kget;
  if next_thread s =? 0 then kpanic "thread_schedule: no runnable threads"
  else if negb (current_thread s =? next_thread s) then
    kmod (put_mem (t_state (next_thread s)) RUNNING);;
    thread_switch ra
  else kmod (set_next 0).

Definition thread_create (func : Z) : K um unit :=
  s ← kget;
  let t := find_thread MAX_THREAD all_thread (λ t, u_mem s (t_state t) =? FREE) in
  kmod (put_mem (t_sp t) (t_stack t + STACK_SIZE));;
  kmod (λ s, put_mem (t_sp t) (u_mem s (t_sp t) - 4) s);;
  kmod (λ s, put_mem (u_mem s (t_sp t)) func s);;
  kmod (λ s, put_mem (t_sp t) (u_mem s (t_sp t) - 32) s);;
  kmod (put_mem (t_state t) RUNNABLE).

Definition thread_yield : K um unit :=
  s ← kget;
  kmod (put_mem (t_state (current_thread s)) RUNNABLE);;
  thread_schedule.

Definition thread_exit : K um unit :=
  s ← kget;
  kmod (put_mem (t_state (current_thread s)) FREE);;
  thread_schedule.

Definition thread_id : K um Z := kgets current_thread.

(** ** Threads and their stacks *)

(** Thread [j]; the main thread has the stack of the process, [mlo, mhi). *)
Definition th (j : nat) : Z := all_thread + sizeof_thread * Z.of_nat j.
Context (mlo mhi : Z).
Definition lo (j : nat) : Z := if decide (j = 0%nat) then mlo else t_stack (th j).
Definition hi (j : nat) : Z := if decide (j = 0%nat) then mhi else t_stack (th j) + STACK_SIZE.

Context (Hpos : 0 < all_thread) (Halign : all_thread mod 4 = 0) (Hmain : mhi ≤ all_thread ∨ thread_end ≤ mlo).

(** The registers that [thread_switch] will load for a thread that is not running. *)
Definition saved (m : Z → Z) (t : Z) : regs :=
  let sp := m (t_sp t) in
  Regs (m (sp + 28)) (m (sp + 24)) (m (sp + 20)) (m (sp + 16)) (m (sp + 8)) (m (sp + 4)) (m sp) (sp + 36) (m (sp + 32)).

Definition regs_of (s : um) (j : nat) : regs :=
  if decide (current_thread s = th j) then u_regs s else saved (u_mem s) (th j).

Definition set_eip (x : Z) (r : regs) : regs := Regs (eax r) (ecx r) (edx r) (ebx r) (ebp r) (esi r) (edi r) (esp r) x.

Lemma fupd_at {B} (f : Z → B) a b x : x = a → fupd f a b x = b.
Proof. intros ->. apply fupd_eq. Qed.

Ltac mem := repeat first [rewrite fupd_at by lia | rewrite fupd_ne by lia].

Lemma runs_push x m c n p r (Q : unit → um → Prop) :
  Q tt (Um (fupd m (p - 4) x) c n (set_esp (p - 4) r)) → runs (push x) Q (Um m c n (set_esp p r)).
Proof. intros HQ. by eexists _, _. Qed.

Lemma runs_pop m c n p r (Q : Z → um → Prop) :
  Q (m p) (Um m c n (set_esp (p + 4) r)) → runs pop Q (Um m c n (set_esp p r)).
Proof. intros HQ. by eexists _, _. Qed.

(** The frame that [thread_switch] leaves on the stack. *)
Definition frame (m : Z → Z) (p : Z) (r : regs) : Z → Z :=
  fupd (fupd (fupd (fupd (fupd (fupd (fupd (fupd (fupd m (p - 4) ra) (p - 8) (eax r)) (p - 12) (ecx r)) (p - 16) (edx r)) (p - 20) (ebx r))
    (p - 24) (p - 4)) (p - 28) (ebp r)) (p - 32) (esi r)) (p - 36) (edi r).

Lemma runs_save m c n p r (f : K um unit) (Q : unit → um → Prop) :
  runs f Q (Um (frame m p r) c n (set_esp (p - 36) r)) → runs (push ra;; pusha;; f) Q (Um m c n (set_esp p r)).
Proof.
  intros HQ. kstep. apply runs_push. kstep. unfold pusha. kstep. kstep. cbn [u_regs set_esp eax ecx edx ebx ebp esi edi esp].
  do 7 (kstep; apply runs_push). apply runs_push. unfold frame in HQ.
  replace (p - 4 - 4) with (p - 8) by lia. replace (p - 8 - 4) with (p - 12) by lia. replace (p - 12 - 4) with (p - 16) by lia.
  replace (p - 16 - 4) with (p - 20) by lia. replace (p - 20 - 4) with (p - 24) by lia. replace (p - 24 - 4) with (p - 28) by lia.
  replace (p - 28 - 4) with (p - 32) by lia. replace (p - 32 - 4) with (p - 36) by lia. exact HQ.
Qed.

Lemma runs_restore m c n t r (Q : unit → um → Prop) :
  Q tt (Um m c n (saved m t)) → runs (popa;; ret) Q (Um m c n (set_esp (m (t_sp t)) r)).
Proof.
  intros HQ. set (p := m (t_sp t)). kstep. unfold popa. do 8 (kstep; apply runs_pop). kstep. cbn [u_regs set_esp put_regs esp eip u_mem current_thread next_thread].
  unfold ret. kstep. apply (runs_pop m c n (p + 4 + 4 + 4 + 4 + 4 + 4 + 4 + 4)
    (Regs (m (p + 4 + 4 + 4 + 4 + 4 + 4 + 4)) (m (p + 4 + 4 + 4 + 4 + 4 + 4)) (m (p + 4 + 4 + 4 + 4 + 4)) (m (p + 4 + 4 + 4 + 4)) (m (p + 4 + 4)) (m (p + 4)) (m p) 0 (eip r))).
  kstep. cbn [u_regs set_esp put_regs esp eip u_mem current_thread next_thread eax ecx edx ebx ebp esi edi]. unfold saved in HQ. fold p in HQ.
  replace (p + 4 + 4) with (p + 8) by lia. replace (p + 8 + 4 + 4) with (p + 16) by lia. replace (p + 16 + 4) with (p + 20) by lia.
  replace (p + 20 + 4) with (p + 24) by lia. replace (p + 24 + 4) with (p + 28) by lia. replace (p + 28 + 4) with (p + 32) by lia.
  replace (p + 32 + 4) with (p + 36) by lia. exact HQ.
Qed.

(** A frame holds the registers, and nothing else changes. *)
Lemma frame_saved m p r t : ¬ (p - 36 ≤ t < p) → saved (fupd (frame m p r) t (p - 36)) t = set_eip ra (set_esp p r).
Proof.
  intros Ht. unfold saved, t_sp. rewrite fupd_eq. unfold frame, set_eip. cbn [eax ecx edx ebx ebp esi edi esp set_esp].
  f_equal; mem; lia || done.
Qed.

Lemma frame_other m p r a : ¬ (p - 36 ≤ a < p) → frame m p r a = m a.
Proof. intros Ha. unfold frame. by mem. Qed.

(** What a switch from [cur] to [t] does, when what [t] saved is out of the way. *)
Lemma thread_switch_ok m cur t r (Q : unit → um → Prop) :
  (∀ a, esp r - 36 ≤ a < esp r ∨ a = cur → a ≠ t ∧ ¬ (m t ≤ a < m t + 36)) → ¬ (esp r - 36 ≤ cur < esp r) →
  (∀ m', m' cur = esp r - 36 → saved m' cur = set_eip ra r → (∀ a, ¬ (esp r - 36 ≤ a < esp r) → a ≠ cur → m' a = m a) →
     Q tt (Um m' t 0 (saved m t))) →
  runs (thread_switch ra) Q (Um m cur t r).
Proof.
  intros Hfar Hcur HQ. set (p := esp r) in *. assert (Er : r = set_esp p r) by (by destruct r).
  unfold thread_switch. rewrite Er at 1. apply runs_save. do 4 (kstep; kstep).
  cbn [put_mem put_regs set_current set_next u_regs u_mem current_thread next_thread]. unfold t_sp.
  set (m' := fupd (frame m p r) cur (esp (set_esp (p - 36) r))).
  assert (Hm' : ∀ a, ¬ (p - 36 ≤ a < p) → a ≠ cur → m' a = m a).
  { intros a Ha Hne. unfold m'. rewrite fupd_ne by done. by apply frame_other. }
  assert (Ht : m' t = m t).
  { apply Hm'; [intros Hin; by destruct (Hfar t); [left|]|intros ->; by destruct (Hfar cur); [right|]]. }
  assert (Es : saved m' t = saved m t).
  { unfold saved, t_sp. rewrite Ht. assert (E : ∀ o, 0 ≤ o < 36 → m' (m t + o) = m (m t + o)).
    { intros o Ho. apply Hm'; [intros Hin; destruct (Hfar (m t + o)) as [_ []]; [by left|lia]|].
      intros E. destruct (Hfar cur) as [_ []]; [by right|lia]. }
    pose proof (E 0 ltac:(lia)) as E0. rewrite Z.add_0_r in E0. rewrite E0, !E by lia. done. }
  apply (runs_restore m' t 0 t). rewrite Es. apply HQ; [unfold m'; by rewrite fupd_eq| |done].
  unfold m'. cbn [esp set_esp]. rewrite frame_saved by done. by destruct r.
Qed.

(** ** The scheduler *)

Definition state (s : um) (j : nat) : Z := u_mem s (t_state (th j)).

Lemma find_thread_spec p k : ∀ j, ∃ n, (n ≤ k)%nat ∧ find_thread k (th j) p = th (j + n) ∧
  (∀ x, (x < n)%nat → p (th (j + x)) = false) ∧ ((n < k)%nat → p (th (j + n)) = true).
Proof.
  induction k as [|k IH]; intros j; cbn [find_thread].
  { exists 0%nat. rewrite Nat.add_0_r. split_and!; [lia|done|lia|lia]. }
  destruct (p (th j)) eqn:E.
  - exists 0%nat. rewrite Nat.add_0_r. split_and!; [lia|done|lia|done].
  - replace (th j + sizeof_thread) with (th (S j)) by (unfold th; lia). destruct (IH (S j)) as (n & Hn & Ef & Hno & Hyes).
    exists (S n). rewrite Nat.add_succ_r. split_and!; [lia|done| |intros; apply Hyes; lia].
    intros [|x] Hx; [by rewrite Nat.add_0_r|]. rewrite Nat.add_succ_r. apply Hno. lia.
Qed.

Lemma th_inj j k : th j = th k → j = k.
Proof. unfold th. change sizeof_thread with 8200. lia. Qed.

(** The three ways a call of [thread_schedule] goes. *)
Inductive schedules (s : um) (i : nat) : Prop :=
| Sched_switch n : (n < MAX_THREAD)%nat → n ≠ i → state s n = RUNNABLE → (∀ j, (j < n)%nat → j ≠ i → state s j ≠ RUNNABLE) →
    thread_schedule s = thread_switch ra (put_mem (t_state (th n)) RUNNING (set_next (th n) s)) → schedules s i
| Sched_again : (∀ j, (j < MAX_THREAD)%nat → j ≠ i → state s j ≠ RUNNABLE) → state s i = RUNNABLE →
    thread_schedule s = Ok (tt, set_next 0 s) → schedules s i
| Sched_exit : (∀ j, (j < MAX_THREAD)%nat → state s j ≠ RUNNABLE) →
    thread_schedule s = Panic "thread_schedule: no runnable threads" → schedules s i.

Lemma thread_schedule_cases s i : (i < MAX_THREAD)%nat → current_thread s = th i → schedules s i.
Proof.
  intros Hi Hc. pose proof Hpos as Hpos'. set (p := λ t, (u_mem s (t_state t) =? RUNNABLE) && negb (t =? current_thread s)).
  destruct (find_thread_spec p MAX_THREAD 0) as (n & Hn & Ef & Hno & Hyes). rewrite Nat.add_0_l in *.
  change (th 0) with (all_thread + sizeof_thread * 0) in Ef. rewrite Z.mul_0_r, Z.add_0_r in Ef.
  assert (Hp : ∀ j, p (th j) = true ↔ state s j = RUNNABLE ∧ j ≠ i).
  { intros j. unfold p, state. rewrite andb_true_iff, negb_true_iff, Z.eqb_eq, Z.eqb_neq, Hc. split; intros [H1 H2]; (split; [done|]).
    - by intros ->.
    - by intros E%th_inj. }
  assert (Hno' : ∀ j, (j < n)%nat → j ≠ i → state s j ≠ RUNNABLE).
  { intros j Hj Hne E. specialize (Hno j Hj). rewrite Nat.add_0_l in Hno. assert (p (th j) = true) by (by apply Hp). congruence. }
  assert (Eend : thread_end = th MAX_THREAD) by done.
  assert (Hrun : thread_schedule s = (
    (if th n <? thread_end then kmod (set_next (th n)) else mret tt);;
    (if (thread_end <=? th n) && (u_mem s (t_state (current_thread s)) =? RUNNABLE) then kmod (set_next (current_thread s)) else mret tt);;
    s ← kget;
    if next_thread s =? 0 then kpanic "thread_schedule: no runnable threads"
    else if negb (current_thread s =? next_thread s) then kmod (put_mem (t_state (next_thread s)) RUNNING);; thread_switch ra
    else kmod (set_next 0)) (set_next 0 s)).
  { rewrite <- Ef. done. }
  destruct (decide (n < MAX_THREAD)%nat) as [Hlt|Hge].
  - apply (Sched_switch s i n); [done| | |done|]; [by apply Hp, Hyes..|]. rewrite Hrun.
    rewrite (proj2 (Z.ltb_lt (th n) thread_end)) by (rewrite Eend; unfold th; change sizeof_thread with 8200; lia).
    rewrite (proj2 (Z.leb_gt thread_end (th n))) by (rewrite Eend; unfold th; change sizeof_thread with 8200; lia). cbn [andb].
    rewrite (bind_ok _ _ _ tt _ eq_refl), (bind_ok _ _ _ tt _ eq_refl), (bind_ok _ _ _ _ _ eq_refl). cbn [set_next next_thread current_thread].
    rewrite (proj2 (Z.eqb_neq (th n) 0)) by (unfold th; change sizeof_thread with 8200; lia).
    assert (Hne : th i ≠ th n) by (intros E%th_inj; by apply (proj1 (Hp n) (Hyes Hlt))). rewrite Hc, (proj2 (Z.eqb_neq _ _) Hne). cbn [negb].
    by rewrite (bind_ok _ _ _ tt _ eq_refl).
  - assert (n = MAX_THREAD) as -> by lia. rewrite (proj2 (Z.ltb_ge (th MAX_THREAD) thread_end)) in Hrun by (rewrite Eend; lia).
    rewrite (proj2 (Z.leb_le thread_end (th MAX_THREAD))) in Hrun by (rewrite Eend; lia). cbn [andb] in Hrun. rewrite Hc in Hrun. fold (state s i) in Hrun.
    rewrite (bind_ok _ _ _ tt _ eq_refl) in Hrun. destruct (Z.eqb_spec (state s i) RUNNABLE) as [E|E];
      rewrite (bind_ok _ _ _ tt _ eq_refl), (bind_ok _ _ _ _ _ eq_refl) in Hrun; cbn [set_next next_thread current_thread] in Hrun.
    + apply Sched_again; [done|done|]. rewrite Hrun, Hc, Z.eqb_refl. rewrite (proj2 (Z.eqb_neq (th i) 0)) by (unfold th; change sizeof_thread with 8200; lia). done.
    + apply Sched_exit; [|done]. intros j Hj. destruct (decide (j = i)) as [-> |]; [done|by apply Hno'].
Qed.

(** ** Contexts are kept *)

Definition aligned (a : Z) : Prop := ∃ q, a = 4 * q.

(** Thread [j] has a frame of [thread_switch] at [sp], inside its stack. *)
Definition frame_at (j : nat) (sp : Z) : Prop := lo j ≤ sp ∧ sp + 36 ≤ hi j ∧ aligned sp.

(** Stacks, saved stack pointers and states are apart. *)
Lemma stack_apart j a : (j < MAX_THREAD)%nat → lo j ≤ a < hi j →
  (∀ k, (k < MAX_THREAD)%nat → a ≠ th k ∧ a ≠ t_state (th k) ∧ (k ≠ j → ¬ (lo k ≤ a < hi k))).
Proof.
  unfold lo, hi, thread_end, t_state, t_stack, th, MAX_THREAD in *. change sizeof_thread with 8200 in *. change STACK_SIZE with 8192 in *.
  intros Hj Ha k Hk. repeat case_decide; subst; lia.
Qed.

Lemma fields_apart j k : th j ≠ t_state (th k) ∧ (j ≠ k → th j ≠ th k ∧ t_state (th j) ≠ t_state (th k)).
Proof. unfold t_state, th. change sizeof_thread with 8200. change STACK_SIZE with 8192. lia. Qed.

(** A thread that is ready to run and does not. *)
Definition waiting (s : um) (j : nat) : Prop := (j < MAX_THREAD)%nat ∧ current_thread s ≠ th j ∧ state s j = RUNNABLE.

Record uinv (s : um) : Prop := {
  ui_cur : ∃ i, (i < MAX_THREAD)%nat ∧ current_thread s = th i ∧ lo i + 36 ≤ esp (u_regs s) ≤ hi i ∧ aligned (esp (u_regs s));
  ui_next : next_thread s = 0;
  ui_saved j : waiting s j → frame_at j (u_mem s (th j));
  ui_main : state s 0 ≠ FREE
}.

(** The thread is as it was: registers, and its stack above the stack pointer. *)
Definition same_thread (s s' : um) (j : nat) : Prop :=
  regs_of s' j = regs_of s j ∧ ∀ a, esp (regs_of s j) ≤ a < hi j → u_mem s' a = u_mem s a.

(** What a waiting thread saved does not change if neither its stack nor its stack pointer does. *)
Lemma saved_frame m m' j : frame_at j (m (th j)) → m' (th j) = m (th j) → (∀ a, lo j ≤ a < hi j → m' a = m a) →
  saved m' (th j) = saved m (th j).
Proof.
  intros (H1 & H2 & _) E Hs. unfold saved, t_sp. rewrite E. set (sp := m (th j)) in *.
  pose proof (Hs sp ltac:(lia)) as E0. rewrite E0. rewrite !Hs by lia. done.
Qed.

Lemma waiting_same s s' j : uinv s → waiting s j → u_mem s' (th j) = u_mem s (th j) → (∀ a, lo j ≤ a < hi j → u_mem s' a = u_mem s a) →
  (current_thread s' = th j → u_regs s' = saved (u_mem s) (th j)) → same_thread s s' j.
Proof.
  intros Hi Hw E Hs Hc. pose proof (ui_saved _ Hi j Hw) as Hf. destruct Hw as (_ & Hne & _). unfold same_thread, regs_of.
  rewrite (decide_False (P := current_thread s = th j)) by done. split.
  - case_decide; [by apply Hc|by apply saved_frame].
  - intros a Ha. apply Hs. destruct Hf as (H1 & _). unfold saved, t_sp in Ha. cbn [esp] in Ha. lia.
Qed.

(** A switch, with what it leaves behind. *)
Lemma switch_ok s i n : (i < MAX_THREAD)%nat → current_thread s = th i → lo i + 36 ≤ esp (u_regs s) ≤ hi i →
  (n < MAX_THREAD)%nat → n ≠ i → frame_at n (u_mem s (th n)) →
  runs (thread_switch ra) (λ _ s', current_thread s' = th n ∧ next_thread s' = 0 ∧ u_regs s' = saved (u_mem s) (th n) ∧
    saved (u_mem s') (th i) = set_eip ra (u_regs s) ∧ u_mem s' (th i) = esp (u_regs s) - 36 ∧
    ∀ a, ¬ (esp (u_regs s) - 36 ≤ a < esp (u_regs s)) → a ≠ th i → u_mem s' a = u_mem (put_mem (t_state (th n)) RUNNING s) a)
    (put_mem (t_state (th n)) RUNNING (set_next (th n) s)).
Proof.
  intros Hi Hc He Hn Hne Hf. destruct s as [m c nx r]. cbn [current_thread u_regs u_mem put_mem set_next next_thread] in *. subst c.
  set (m1 := fupd m (t_state (th n)) RUNNING). assert (Hin : ∀ a, esp r - 36 ≤ a < esp r → lo i ≤ a < hi i) by (intros; lia).
  assert (E1 : m1 (th n) = m (th n)) by (apply fupd_ne, fields_apart).
  assert (Es : saved m1 (th n) = saved m (th n)).
  { apply saved_frame; [done|done|]. intros a Ha. apply fupd_ne. by destruct (stack_apart n a Hn Ha n Hn) as (_ & ? & _). }
  change (put_mem (t_state (th n)) RUNNING (set_next (th n) (Um m (th i) nx r))) with (Um m1 (th i) (th n) r).
  apply thread_switch_ok.
  - rewrite E1. intros a [Ha| ->].
    + destruct (stack_apart i a Hi (Hin a Ha) n Hn) as (? & _ & Hd). destruct Hf. split; [done|]. specialize (Hd Hne). lia.
    + split; [by apply fields_apart|]. intros Ha. destruct Hf as (? & ? & _). by destruct (stack_apart n (th i) Hn ltac:(lia) i Hi) as (? & _).
  - intros Ha. by destruct (stack_apart i (th i) Hi (Hin _ Ha) i Hi) as (? & _).
  - intros m' H1 H2 H3. cbn [current_thread next_thread u_regs u_mem]. rewrite Es. split_and!; try done.
Qed.

(** The thread that [thread_schedule] chooses: the first in the table that is ready. *)
Definition chosen (s : um) (i n : nat) : Prop := waiting s n ∧ ∀ j, (j < n)%nat → j ≠ i → state s j ≠ RUNNABLE.

(** The registers and the stack of [i] after it gave up the processor. *)
Definition left_off (s s' : um) (i : nat) : Prop :=
  regs_of s' i = set_eip ra (u_regs s) ∧ (∀ a, esp (u_regs s) ≤ a < hi i → u_mem s' a = u_mem s a) ∧ state s' i = state s i.

(** What a step does to the threads that are waiting. *)
Definition keeps (s s' : um) : Prop :=
  ∀ j, waiting s j → same_thread s s' j ∧ (waiting s' j ∨ current_thread s' = th j).

Lemma switch_inv s s' i n : uinv s → (i < MAX_THREAD)%nat → current_thread s = th i → waiting s n → n ≠ i →
  current_thread s' = th n → next_thread s' = 0 → u_regs s' = saved (u_mem s) (th n) →
  saved (u_mem s') (th i) = set_eip ra (u_regs s) → u_mem s' (th i) = esp (u_regs s) - 36 →
  (∀ a, ¬ (esp (u_regs s) - 36 ≤ a < esp (u_regs s)) → a ≠ th i → u_mem s' a = u_mem (put_mem (t_state (th n)) RUNNING s) a) →
  uinv s' ∧ keeps s s' ∧ u_regs s' = regs_of s n ∧ left_off s s' i ∧ state s' n = RUNNING.
Proof.
  intros Hu Hi Hc Hw Hne Hc' Hn' Hr Hs Hsp Hm. destruct (ui_cur _ Hu) as (i0 & Hi0 & Ec & He & [q Hq]).
  assert (i0 = i) as -> by (apply th_inj; congruence). clear Hi0 Ec. pose proof (ui_saved _ Hu n Hw) as Hfn. pose proof Hw as (Hn & Hcn & Hst).
  assert (Hm1 : ∀ a, ¬ (esp (u_regs s) - 36 ≤ a < esp (u_regs s)) → a ≠ th i → a ≠ t_state (th n) → u_mem s' a = u_mem s a).
  { intros a H1 H2 H3. rewrite Hm by done. by apply fupd_ne. }
  assert (Hin : ∀ a, esp (u_regs s) - 36 ≤ a < esp (u_regs s) → lo i ≤ a < hi i) by (intros; lia).
  assert (Hstate : ∀ j, (j < MAX_THREAD)%nat → j ≠ n → state s' j = state s j).
  { intros j Hj Hjn. apply Hm1; [|by apply not_eq_sym, fields_apart|by apply fields_apart].
    intros Ha. by destruct (stack_apart i _ Hi (Hin _ Ha) j Hj) as (_ & ? & _). }
  assert (Hsn : state s' n = RUNNING).
  { unfold state. rewrite Hm; [apply fupd_eq| |by apply not_eq_sym, fields_apart].
    intros Ha. by destruct (stack_apart i _ Hi (Hin _ Ha) n Hn) as (_ & ? & _). }
  assert (Hth : ∀ j, (j < MAX_THREAD)%nat → j ≠ i → u_mem s' (th j) = u_mem s (th j)).
  { intros j Hj Hji. apply Hm1; [|by apply fields_apart|by apply fields_apart].
    intros Ha. by destruct (stack_apart i _ Hi (Hin _ Ha) j Hj) as (? & _). }
  assert (Hstack : ∀ j, (j < MAX_THREAD)%nat → j ≠ i → ∀ a, lo j ≤ a < hi j → u_mem s' a = u_mem s a).
  { intros j Hj Hji a Ha. pose proof (stack_apart j a Hj Ha) as Hap. destruct (Hap i Hi) as (H1 & _ & H2). destruct (Hap n Hn) as (_ & H3 & _).
    apply Hm1; [|done|done]. intros Hb. by apply (H2 (not_eq_sym Hji)), Hin. }
  assert (Hkeep : keeps s s').
  { intros j Hwj. pose proof Hwj as (Hj & Hcj & Hsj). assert (Hji : j ≠ i) by (intros ->; by apply Hcj). split.
    - apply waiting_same; [done|done|by apply Hth|by apply Hstack|]. intros E. rewrite Hc' in E. apply th_inj in E. subst j. done.
    - destruct (decide (j = n)) as [-> |Hjn]; [by right|left]. split_and!; [done| |by rewrite Hstate]. rewrite Hc'. by intros E%th_inj. }
  assert (Er : u_regs s' = regs_of s n) by (unfold regs_of; by rewrite decide_False by done).
  assert (Hleft : left_off s s' i).
  { split_and!; [|intros a Ha|by apply Hstate].
    - unfold regs_of. rewrite decide_False; [done|]. rewrite Hc'. by intros E%th_inj.
    - destruct (stack_apart i a Hi ltac:(lia) i Hi) as (? & _). destruct (stack_apart i a Hi ltac:(lia) n Hn) as (_ & ? & _).
      apply Hm1; [lia|done|done]. }
  split_and!; try done. split.
  - exists n. destruct Hfn as (F1 & F2 & [q' Hq']). rewrite Hr. cbn [saved esp]. unfold t_sp. split_and!; [done|done|lia|lia|]. exists (q' + 9). lia.
  - done.
  - intros j (Hj & Hcj & Hsj). rewrite Hc' in Hcj. assert (Hjn : j ≠ n) by (intros ->; by apply Hcj).
    destruct (decide (j = i)) as [-> |Hji].
    + rewrite Hsp. split_and!; [lia|lia|]. exists (q - 9). lia.
    + rewrite (Hth j Hj Hji). apply (ui_saved _ Hu). split_and!; [done| |by rewrite <- Hstate]. rewrite Hc. by intros E%th_inj.
  - destruct (decide (n = 0%nat)) as [-> |]; [rewrite Hsn; done|]. rewrite Hstate by (done || (unfold MAX_THREAD; lia)). apply Hu.
Qed.

Lemma schedule_ok s i : uinv s → (i < MAX_THREAD)%nat → current_thread s = th i →
  (∃ n s', chosen s i n ∧ thread_schedule s = Ok (tt, s') ∧ uinv s' ∧ keeps s s' ∧ current_thread s' = th n ∧
     u_regs s' = regs_of s n ∧ left_off s s' i ∧ state s' n = RUNNING) ∨
  ((∀ j, ¬ waiting s j) ∧ state s i = RUNNABLE ∧ thread_schedule s = Ok (tt, s)) ∨
  ((∀ j, ¬ waiting s j) ∧ state s i ≠ RUNNABLE ∧ thread_schedule s = Panic "thread_schedule: no runnable threads").
Proof.
  intros Hu Hi Hc. destruct (thread_schedule_cases s i Hi Hc) as [n Hn Hne Hst Hno Es|Hno Hst Es|Hno Es].
  - left. assert (Hw : waiting s n) by (split_and!; [done| |done]; rewrite Hc; intros E%th_inj; congruence).
    destruct (ui_cur _ Hu) as (i0 & Hi0 & Ec & He & _). assert (i0 = i) as -> by (apply th_inj; congruence).
    destruct (switch_ok s i n Hi Hc He Hn Hne (ui_saved _ Hu n Hw)) as ([] & s' & Er & H1 & H2 & H3 & H4 & H5 & H6).
    destruct (switch_inv s s' i n Hu Hi Hc Hw Hne H1 H2 H3 H4 H5 H6) as (K1 & K2 & K3 & K4 & K5).
    exists n, s'. split_and!; try done. by rewrite Es.
  - right. left. split_and!; [|done|].
    + intros j (Hj & Hcj & Hsj). apply (Hno j Hj); [|done]. intros ->. by apply Hcj.
    + rewrite Es. pose proof (ui_next _ Hu) as E. destruct s. simpl in *. by subst.
  - right. right. split_and!; [|by apply Hno|done]. intros j (Hj & Hcj & Hsj). by apply (Hno j Hj).
Qed.

(** ** Steps *)

(** A word that the running thread [i] has no business with: the table but for its own stack,
    and the stack of the main thread. *)
Definition foreign (i : nat) (a : Z) : Prop :=
  (all_thread ≤ a < thread_end ∧ ¬ (lo i ≤ a < hi i)) ∨ (i ≠ 0%nat ∧ mlo ≤ a < mhi).

(** Code of the running thread: any change of its registers and of memory that is not foreign to it, with
    room left on the stack for the frame of a switch. *)
Definition own_code (s s' : um) : Prop :=
  ∃ i, (i < MAX_THREAD)%nat ∧ current_thread s = th i ∧ current_thread s' = th i ∧ next_thread s' = next_thread s ∧
    lo i + 36 ≤ esp (u_regs s') ≤ hi i ∧ aligned (esp (u_regs s')) ∧ ∀ a, foreign i a → u_mem s' a = u_mem s a.

Inductive ustep (s s' : um) : Prop :=
| U_own : own_code s s' → ustep s s'
| U_create f : (∃ j, (j < MAX_THREAD)%nat ∧ state s j = FREE) → thread_create f s = Ok (tt, s') → ustep s s'
| U_schedule : thread_schedule s = Ok (tt, s') → ustep s s'
| U_yield : thread_yield s = Ok (tt, s') → ustep s s'
| U_exit : current_thread s ≠ th 0 → thread_exit s = Ok (tt, s') → ustep s s'.

(** The thread that runs is not free. *)
Definition alive (s : um) : Prop := ∀ i, (i < MAX_THREAD)%nat → current_thread s = th i → state s i ≠ FREE.

(** Memory that is the same in the fields and in the stacks of other threads. *)
Lemma quiet_step s s' : uinv s → current_thread s' = current_thread s → next_thread s' = 0 →
  (∀ i, (i < MAX_THREAD)%nat → current_thread s = th i → lo i + 36 ≤ esp (u_regs s') ≤ hi i ∧ aligned (esp (u_regs s'))) →
  (∀ j, waiting s j → u_mem s' (th j) = u_mem s (th j) ∧ state s' j = state s j ∧ ∀ a, lo j ≤ a < hi j → u_mem s' a = u_mem s a) →
  (∀ j, waiting s' j → waiting s j ∨ frame_at j (u_mem s' (th j))) → state s' 0 ≠ FREE → uinv s' ∧ keeps s s'.
Proof.
  intros Hu Hc Hn He Hm Hw H0. destruct (ui_cur _ Hu) as (i & Hi & Ec & _). destruct (He i Hi Ec) as [He1 He2]. split.
  - split; [exists i; split_and!; [done|congruence|lia|lia|done]|done| |done]. intros j Hj. destruct (Hw j Hj) as [Hj'|Hj']; [|done].
    destruct (Hm j Hj') as (-> & _). by apply (ui_saved _ Hu).
  - intros j Hj. destruct (Hm j Hj) as (E1 & E2 & E3). split; [apply waiting_same; try done; intros E; by destruct Hj as (_ & ? & _); congruence|].
    left. destruct Hj as (H1 & H2 & H3). split_and!; [done|congruence|congruence].
Qed.

Lemma own_code_ok s s' : uinv s → own_code s s' → uinv s' ∧ keeps s s' ∧ (alive s → alive s').
Proof.
  intros Hu (i & Hi & Hc & Hc' & Hn & He & Ha & Hm).
  assert (Hf : ∀ j a, (j < MAX_THREAD)%nat → a = th j ∨ a = t_state (th j) ∨ (j ≠ i ∧ lo j ≤ a < hi j) → foreign i a).
  { intros j a Hj Hcase. destruct Hcase as [-> |[-> |[Hji Hin]]].
    - left. split; [unfold thread_end, th, MAX_THREAD in *; change sizeof_thread with 8200; lia|]. intros Hin.
      by destruct (stack_apart i _ Hi Hin j Hj) as (? & _).
    - left. split; [unfold thread_end, th, t_state, MAX_THREAD in *; change sizeof_thread with 8200; change STACK_SIZE with 8192; lia|]. intros Hin.
      by destruct (stack_apart i _ Hi Hin j Hj) as (_ & ? & _).
    - destruct (stack_apart j a Hj Hin i Hi) as (_ & _ & Hno). unfold lo, hi in Hin. case_decide as E.
      + right. split; [congruence|done].
      + left. split; [|by apply Hno]. unfold thread_end, th, t_stack, MAX_THREAD in *. change sizeof_thread with 8200 in *. change STACK_SIZE with 8192 in *. lia. }
  assert (Hst : ∀ j, (j < MAX_THREAD)%nat → state s' j = state s j) by (intros j Hj; apply Hm, (Hf j); auto).
  assert (HM : (0 < MAX_THREAD)%nat) by (unfold MAX_THREAD; lia).
  destruct (quiet_step s s' Hu) as [K1 K2]; [congruence|rewrite Hn; apply Hu| | | | |split_and!; [done|done|]].
  - intros i' Hi' Ei'. assert (i' = i) as -> by (apply th_inj; congruence). done.
  - intros j (Hj & Hcj & Hsj). assert (j ≠ i) by (intros ->; congruence). split_and!; [by apply Hm, (Hf j); auto|by apply Hst|].
    intros a Hin. apply Hm, (Hf j); auto.
  - intros j (Hj & Hcj & Hsj). left. split_and!; [done|congruence|]. by rewrite <- Hst.
  - rewrite Hst by done. apply Hu.
  - intros Hal i' Hi' Ei'. rewrite Hst by done. apply Hal; [done|congruence].
Qed.

Lemma thread_create_ok s f : uinv s → alive s → (∃ j, (j < MAX_THREAD)%nat ∧ state s j = FREE) →
  ∃ s' n, thread_create f s = Ok (tt, s') ∧ uinv s' ∧ alive s' ∧ keeps s s' ∧
    (n < MAX_THREAD)%nat ∧ state s n = FREE ∧ waiting s' n ∧ eip (regs_of s' n) = f ∧ esp (regs_of s' n) = hi n ∧
    ∀ j, (j < MAX_THREAD)%nat → j ≠ n → state s' j = state s j.
Proof.
  intros Hu Hal (j0 & Hj0 & Hfree). set (p := λ t, u_mem s (t_state t) =? FREE).
  destruct (find_thread_spec p MAX_THREAD 0) as (n & Hn & Ef & Hno & Hyes). rewrite Nat.add_0_l in *.
  change (th 0) with (all_thread + sizeof_thread * 0) in Ef. rewrite Z.mul_0_r, Z.add_0_r in Ef.
  assert (Hlt : (n < MAX_THREAD)%nat).
  { destruct (decide (n = MAX_THREAD)) as [-> |]; [|lia]. specialize (Hno j0 Hj0). unfold p in Hno. rewrite Nat.add_0_l in Hno.
    unfold state in Hfree. rewrite Hfree in Hno. done. }
  specialize (Hyes Hlt). apply Z.eqb_eq in Hyes. fold (state s n) in Hyes.
  assert (Hn0 : n ≠ 0%nat) by (intros ->; by apply (ui_main _ Hu)).
  assert (Hcn : current_thread s ≠ th n) by (intros E; by apply (Hal n Hlt E)).
  set (t := th n). set (top := t_stack t + STACK_SIZE).
  assert (Htop : hi n = top ∧ lo n + 8192 = top ∧ t + 8196 = top ∧ t_state t = top).
  { unfold hi, lo. rewrite !decide_False by done. subst top t. unfold t_state, t_stack. change STACK_SIZE with 8192. lia. }
  destruct Htop as (Eh & El & Et & Ets).
  set (s1 := put_mem t top s). set (s2 := put_mem t (u_mem s1 t - 4) s1). set (s3 := put_mem (u_mem s2 t) f s2).
  set (s4 := put_mem t (u_mem s3 t - 32) s3). set (s5 := put_mem (t_state t) RUNNABLE s4).
  assert (Er : thread_create f s = Ok (tt, s5)).
  { unfold thread_create. rewrite (bind_ok kget _ s s s eq_refl). cbv zeta. fold p. rewrite Ef. unfold t_sp.
    by rewrite (bind_ok _ _ _ tt s1 eq_refl), (bind_ok _ _ _ tt s2 eq_refl), (bind_ok _ _ _ tt s3 eq_refl), (bind_ok _ _ _ tt s4 eq_refl). }
  assert (M1 : u_mem s1 t = top) by apply fupd_eq.
  assert (M2 : u_mem s2 t = top - 4) by (unfold s2; cbn [put_mem u_mem]; rewrite fupd_eq; unfold s1; cbn [put_mem u_mem]; by rewrite fupd_eq).
  assert (M3 : ∀ a, u_mem s3 a = if decide (a = top - 4) then f else if decide (a = t) then top - 4 else u_mem s a).
  { intros a. unfold s3. cbn [put_mem u_mem]. rewrite M2. unfold fupd at 1. case_decide; [done|].
    unfold s2. cbn [put_mem u_mem]. rewrite M1. unfold fupd at 1. case_decide; [done|]. unfold s1. cbn [put_mem u_mem]. by rewrite fupd_ne. }
  assert (M5 : ∀ a, u_mem s5 a = if decide (a = t_state t) then RUNNABLE else if decide (a = t) then top - 36 else if decide (a = top - 4) then f else u_mem s a).
  { intros a. unfold s5. cbn [put_mem u_mem]. unfold fupd at 1. case_decide; [done|]. unfold s4. cbn [put_mem u_mem]. unfold fupd at 1.
    rewrite !M3. rewrite (decide_False (P := t = top - 4)) by lia. rewrite (decide_True (P := t = t)) by done. repeat case_decide; try done; lia. }
  assert (Hfield : ∀ j, (j < MAX_THREAD)%nat → j ≠ n → u_mem s5 (th j) = u_mem s (th j) ∧ state s5 j = state s j ∧ ∀ a, lo j ≤ a < hi j → u_mem s5 a = u_mem s a).
  { intros j Hj Hjn. assert (Hno4 : ∀ a, a = top - 4 → lo n ≤ a < hi n) by (intros; lia).
    split_and!.
    - rewrite M5. rewrite decide_False by apply fields_apart. rewrite decide_False by (by intros E%th_inj). rewrite decide_False; [done|].
      intros E%Hno4. by destruct (stack_apart n _ Hlt E j Hj) as (? & _).
    - unfold state. rewrite M5. rewrite decide_False by (intros E; by apply (proj2 (proj2 (fields_apart j n) Hjn))).
      rewrite decide_False by (intros E; by destruct (fields_apart n j)). rewrite decide_False; [done|].
      intros E%Hno4. by destruct (stack_apart n _ Hlt E j Hj) as (_ & ? & _).
    - intros a Hin. destruct (stack_apart j a Hj Hin n Hlt) as (A1 & A2 & A3). rewrite M5, !decide_False; [done| |done|done].
      intros E%Hno4. by apply A3. }
  assert (Hsn : state s5 n = RUNNABLE) by (unfold state; rewrite M5; by rewrite decide_True).
  assert (Htn : u_mem s5 (th n) = top - 36) by (rewrite M5; rewrite decide_False by apply fields_apart; by rewrite decide_True).
  assert (Hwn : waiting s5 n) by done. assert (HM : (0 < MAX_THREAD)%nat) by (unfold MAX_THREAD; lia).
  destruct (quiet_step s s5 Hu) as [K1 K2]; [done|apply Hu| | | |by rewrite (proj1 (proj2 (Hfield 0%nat HM (not_eq_sym Hn0)))); apply Hu|].
  - intros i Hi Ei. destruct (ui_cur _ Hu) as (i' & Hi' & Ei' & He & Ha). assert (i' = i) as -> by (apply th_inj; congruence). done.
  - intros j (Hj & Hcj & Hsj). apply Hfield; [done|]. intros ->. rewrite Hyes in Hsj. done.
  - intros j (Hj & Hcj & Hsj). destruct (decide (j = n)) as [-> |Hjn]; [right|left].
    + rewrite Htn. split_and!; [lia|lia|]. destruct (proj1 (Z.mod_divide all_thread 4 ltac:(lia)) Halign) as [q Hq].
      exists (q + 2050 * Z.of_nat n + 2040). unfold top, t_stack, t, th. change sizeof_thread with 8200. change STACK_SIZE with 8192. lia.
    + split_and!; [done|done|]. by rewrite <- (proj1 (proj2 (Hfield j Hj Hjn))).
  - exists s5, n. split_and!; try done.
    + intros i Hi Ei. destruct (decide (i = n)) as [-> |Hin]; [by rewrite Hsn|]. rewrite (proj1 (proj2 (Hfield i Hi Hin))). by apply Hal.
    + unfold regs_of. rewrite decide_False by done. cbn [saved eip]. unfold t_sp. rewrite Htn, M5. fold t.
      rewrite !decide_False by lia. by rewrite decide_True by lia.
    + unfold regs_of. rewrite decide_False by done. cbn [saved esp]. unfold t_sp. rewrite Htn. lia.
    + intros j Hj Hjn. by apply Hfield.
Qed.

Lemma set_state_ok s i x : uinv s → (i < MAX_THREAD)%nat → current_thread s = th i → i ≠ 0%nat ∨ x ≠ FREE →
  let s0 := put_mem (t_state (th i)) x s in
  uinv s0 ∧ keeps s s0 ∧ state s0 i = x ∧ (∀ j, j ≠ i → state s0 j = state s j) ∧ (∀ j, waiting s0 j ↔ waiting s j).
Proof.
  intros Hu Hi Hc Hx s0.
  assert (Hst : ∀ j, j ≠ i → state s0 j = state s j) by (intros j Hj; unfold state, s0; cbn [put_mem u_mem]; apply fupd_ne; by apply (proj2 (fields_apart j i))).
  assert (Hsi : state s0 i = x) by apply fupd_eq.
  assert (Hw : ∀ j, waiting s0 j ↔ waiting s j).
  { intros j. unfold waiting. change (current_thread s0) with (current_thread s). destruct (decide (j = i)) as [-> |Hj]; [|by rewrite Hst].
    split; intros (_ & H & _); congruence. }
  destruct (quiet_step s s0 Hu) as [K1 K2]; [done|apply Hu| | | | |by split_and!].
  - intros i' Hi' Ei'. destruct (ui_cur _ Hu) as (k & Hk & Ek & He & Ha). assert (k = i') as -> by (apply th_inj; congruence). done.
  - intros j (Hj & Hcj & Hsj). assert (Hji : j ≠ i) by (intros ->; congruence). unfold s0. cbn [put_mem u_mem]. split_and!; [by apply fupd_ne, fields_apart|by apply Hst|].
    intros a Ha. apply fupd_ne. by destruct (stack_apart j a Hj Ha i Hi) as (_ & ? & _).
  - intros j Hj. left. by apply Hw.
  - destruct (decide (i = 0%nat)) as [-> |Hi0]; [rewrite Hsi; by destruct Hx|]. rewrite Hst by done. apply Hu.
Qed.

Lemma keeps_trans s s0 s' : current_thread s0 = current_thread s → keeps s s0 → keeps s0 s' → keeps s s'.
Proof.
  intros Hc K1 K2 j Hw. destruct (K1 j Hw) as [[E1 F1] [W|W]]; [|destruct Hw as (_ & ? & _); congruence].
  destruct (K2 j W) as [[E2 F2] W2]. split; [|done]. split; [congruence|]. intros a Ha. rewrite F2 by (by rewrite E1). by apply F1.
Qed.

(** A thread that gave up the processor to [n] and is ready, or goes on because no other is. *)
Definition yielded (s s' : um) (i : nat) : Prop :=
  (∃ n, chosen s i n ∧ current_thread s' = th n ∧ u_regs s' = regs_of s n ∧ waiting s' i ∧ regs_of s' i = set_eip ra (u_regs s) ∧
     ∀ a, esp (u_regs s) ≤ a < hi i → u_mem s' a = u_mem s a) ∨
  ((∀ j, ¬ waiting s j) ∧ current_thread s' = th i ∧ u_regs s' = u_regs s).

Lemma chosen_set s s0 i n : (∀ j, j ≠ i → state s0 j = state s j) → (∀ j, waiting s0 j ↔ waiting s j) → chosen s0 i n → chosen s i n.
Proof. intros Hst Hw [H1 H2]. split; [by apply Hw|]. intros j Hj Hne. rewrite <- Hst by done. by apply H2. Qed.

Lemma alive_scheduled s' n : uinv s' → current_thread s' = th n → state s' n ≠ FREE → alive s'.
Proof. intros _ Hc Hs i Hi Ei. assert (i = n) as -> by (apply th_inj; congruence). done. Qed.

Lemma regs_of_set s i x n : current_thread s = th i → n ≠ i → uinv s → waiting s n →
  regs_of (put_mem (t_state (th i)) x s) n = regs_of s n.
Proof.
  intros Hc Hne Hu Hw. pose proof Hw as (Hn & Hcn & _). unfold regs_of. cbn [current_thread put_mem]. rewrite !decide_False by done.
  apply saved_frame; [by apply (ui_saved _ Hu)|by apply fupd_ne, fields_apart|]. intros a Ha. apply fupd_ne.
  destruct (ui_cur _ Hu) as (k & Hk & Ek & _). assert (k = i) as -> by (apply th_inj; congruence). by destruct (stack_apart n a Hn Ha i Hk) as (_ & ? & _).
Qed.

Lemma yield_ok s i : uinv s → (i < MAX_THREAD)%nat → current_thread s = th i →
  ∃ s', thread_yield s = Ok (tt, s') ∧ uinv s' ∧ alive s' ∧ keeps s s' ∧ yielded s s' i.
Proof.
  intros Hu Hi Hc. assert (Hx : i ≠ 0%nat ∨ RUNNABLE ≠ FREE) by (by right). destruct (set_state_ok s i RUNNABLE Hu Hi Hc Hx) as (Hu0 & K0 & Hsi & Hst & Hw).
  set (s0 := put_mem (t_state (th i)) RUNNABLE s) in *.
  assert (Er : thread_yield s = thread_schedule s0) by (unfold thread_yield; rewrite (bind_ok kget _ s s s eq_refl), Hc; exact (bind_ok (kmod (put_mem (t_state (th i)) RUNNABLE)) _ s tt s0 eq_refl)).
  rewrite Er. destruct (schedule_ok s0 i Hu0 Hi Hc) as [(n & s' & Hch & Es & Hu' & K' & Hc' & Hr & (Hl1 & Hl2 & Hl3) & Hn)|[(Hno & _ & Es)|(_ & Hy & _)]]; [| |done].
  - assert (Hchs : chosen s i n) by (by eapply chosen_set). pose proof (proj1 Hchs) as Hwn.
    assert (Hne : n ≠ i) by (intros ->; destruct Hwn as (_ & ? & _); congruence).
    exists s'. split_and!; [done|done|by apply (alive_scheduled s' n); [done|done|rewrite Hn]|by apply (keeps_trans s s0)|].
    left. exists n. split_and!; [done|done| | |done|].
    + rewrite Hr. by apply regs_of_set.
    + split_and!; [done| |by rewrite Hl3]. rewrite Hc'. by intros E%th_inj.
    + intros a Ha. rewrite Hl2 by done. apply fupd_ne. destruct (ui_cur _ Hu) as (k & Hk & Ek & He & _). assert (k = i) as -> by (apply th_inj; congruence).
      by destruct (stack_apart i a Hi ltac:(lia) i Hi) as (_ & ? & _).
  - exists s0. split_and!; [done|done|by apply (alive_scheduled s0 i); [done|done|rewrite Hsi]|done|].
    right. split_and!; [|done|done]. intros j Hj. by apply (Hno j), Hw.
Qed.

(** [thread_exit] goes to another thread, or ends the process when none is ready. *)
Lemma exit_ok s i : uinv s → (i < MAX_THREAD)%nat → i ≠ 0%nat → current_thread s = th i →
  (∃ n s', thread_exit s = Ok (tt, s') ∧ chosen s i n ∧ uinv s' ∧ alive s' ∧ keeps s s' ∧ current_thread s' = th n ∧ u_regs s' = regs_of s n) ∨
  ((∀ j, ¬ waiting s j) ∧ thread_exit s = Panic "thread_schedule: no runnable threads").
Proof.
  intros Hu Hi Hi0 Hc. destruct (set_state_ok s i FREE Hu Hi Hc (or_introl Hi0)) as (Hu0 & K0 & Hsi & Hst & Hw).
  set (s0 := put_mem (t_state (th i)) FREE s) in *.
  assert (Er : thread_exit s = thread_schedule s0) by (unfold thread_exit; rewrite (bind_ok kget _ s s s eq_refl), Hc; exact (bind_ok (kmod (put_mem (t_state (th i)) FREE)) _ s tt s0 eq_refl)).
  rewrite Er. destruct (schedule_ok s0 i Hu0 Hi Hc) as [(n & s' & Hch & Es & Hu' & K' & Hc' & Hr & _ & Hn)|[(_ & Hx & _)|(Hno & _ & Es)]]; [|by rewrite Hsi in Hx|].
  - left. assert (Hchs : chosen s i n) by (by eapply chosen_set). pose proof (proj1 Hchs) as Hwn.
    assert (Hne : n ≠ i) by (intros ->; destruct Hwn as (_ & ? & _); congruence).
    exists n, s'. split_and!; [done|done|done|by apply (alive_scheduled s' n); [done|done|rewrite Hn]|by apply (keeps_trans s s0)|done|].
    rewrite Hr. by apply regs_of_set.
  - right. split; [|done]. intros j Hj. by apply (Hno j), Hw.
Qed.

Lemma ustep_ok s s' : uinv s → alive s → ustep s s' → uinv s' ∧ alive s' ∧ keeps s s'.
Proof.
  intros Hu Hal Hs. destruct (ui_cur _ Hu) as (i & Hi & Hc & _). destruct Hs as [H|f Hf E|E|E|Hm E].
  - destruct (own_code_ok s s' Hu H) as (? & ? & ?). auto.
  - destruct (thread_create_ok s f Hu Hal Hf) as (s1 & n & E1 & ? & ? & ? & _). rewrite E1 in E. by simplify_eq.
  - destruct (schedule_ok s i Hu Hi Hc) as [(n & s1 & _ & E1 & ? & ? & Hc1 & _ & _ & Hn)|[(_ & _ & E1)|(_ & _ & E1)]]; rewrite E1 in E; simplify_eq.
    + split_and!; [done|by apply (alive_scheduled s' n); [done|done|rewrite Hn]|done].
    + split_and!; [done|done|]. intros j Hj. split; [done|by left].
  - destruct (yield_ok s i Hu Hi Hc) as (s1 & E1 & ? & ? & ? & _). rewrite E1 in E. by simplify_eq.
  - assert (Hi0 : i ≠ 0%nat) by (intros ->; congruence).
    destruct (exit_ok s i Hu Hi Hi0 Hc) as [(n & s1 & E1 & _ & ? & ? & ? & _)|(_ & E1)]; rewrite E1 in E; by simplify_eq.
Qed.

(** The start: nothing in the table, the main thread on the stack of the process. *)
Record fresh (s : um) : Prop := {
  fr_free j : state s j = FREE;
  fr_next : next_thread s = 0;
  fr_esp : mlo + 36 ≤ esp (u_regs s) ≤ mhi ∧ aligned (esp (u_regs s))
}.

Lemma thread_init_ok s : fresh s → runs thread_init (λ _ s', uinv s' ∧ alive s' ∧ state s' 0 = RUNNING ∧ ∀ j, j ≠ 0%nat → state s' j = FREE) s.
Proof.
  intros []. unfold thread_init. kstep. kstep. kstep. cbn [set_current current_thread]. set (s' := put_mem _ _ _).
  assert (E0 : th 0 = all_thread) by (unfold th; lia).
  assert (H0 : state s' 0 = RUNNING) by (unfold state; rewrite E0; apply fupd_eq).
  assert (Hj : ∀ j, j ≠ 0%nat → state s' j = FREE).
  { intros j Hj. rewrite <- (fr_free0 j). unfold state, s'. cbn [put_mem set_current u_mem]. rewrite <- E0. apply fupd_ne. by apply (proj2 (fields_apart j 0)). }
  split_and!; [|intros i Hi E; assert (i = 0%nat) as -> by (apply th_inj; by rewrite E0); by rewrite H0|done|done].
  split; [exists 0%nat; split_and!; [unfold MAX_THREAD; lia|by rewrite E0|by apply fr_esp0..]|done| |by rewrite H0].
  intros j (_ & Hc & Hs). assert (Hj0 : j ≠ 0%nat) by (intros ->; by rewrite E0 in Hc). rewrite (Hj j Hj0) in Hs. done.
Qed.

(** C38. Cooperative threads.  After [thread_init] the table is well formed, and it stays so:
    under any code of the running thread that keeps to its own registers, its stack and
    memory that is no thread's; under [thread_create] while a slot of the table is free,
    which returns with a new thread ready to start at [func] at the top of its stack; under
    [thread_yield], which returns to the first thread of the table that is ready, whose
    registers become those it left with, and leaves the caller ready in turn, with the
    registers and the stack it had; and under [thread_exit] of a thread other than the main
    one, which goes to the first thread that is ready, or ends the process when none is.
    A thread that waits keeps its registers and its stack under each of these, and under
    any sequence of them, until it runs again.  ([alive]: the running thread's slot is not
    free.) *)
Theorem threads_resume_where_they_left :
  (∀ s, fresh s → runs thread_init (λ _ s', uinv s' ∧ alive s') s) ∧
  (∀ s s', uinv s → alive s → own_code s s' → uinv s' ∧ alive s' ∧ keeps s s') ∧
  (∀ s f, uinv s → alive s → (∃ j, (j < MAX_THREAD)%nat ∧ state s j = FREE) →
     runs (thread_create f) (λ _ s', uinv s' ∧ alive s' ∧ keeps s s' ∧
       ∃ n, (n < MAX_THREAD)%nat ∧ state s n = FREE ∧ waiting s' n ∧ eip (regs_of s' n) = f ∧ esp (regs_of s' n) = hi n ∧
         ∀ j, (j < MAX_THREAD)%nat → j ≠ n → state s' j = state s j) s) ∧
  (∀ s i, uinv s → (i < MAX_THREAD)%nat → current_thread s = th i →
     runs thread_yield (λ _ s', uinv s' ∧ alive s' ∧ keeps s s' ∧ yielded s s' i) s) ∧
  (∀ s i, uinv s → (i < MAX_THREAD)%nat → i ≠ 0%nat → current_thread s = th i →
     (∃ n, chosen s i n ∧
        runs thread_exit (λ _ s', uinv s' ∧ alive s' ∧ keeps s s' ∧ current_thread s' = th n ∧ u_regs s' = regs_of s n) s) ∨
     (∀ j, ¬ waiting s j) ∧ thread_exit s = Panic "thread_schedule: no runnable threads") ∧
  (∀ s s' j, uinv s → alive s → waiting s j → rtc (λ a b, ustep a b ∧ current_thread a ≠ th j) s s' →
     uinv s' ∧ alive s' ∧ same_thread s s' j ∧ (waiting s' j ∨ current_thread s' = th j)).
Proof.
  split_and!.
  - intros s Hf. eapply runs_mono; [by apply thread_init_ok|]. intros [] s' (? & ? & _). done.
  - intros s s' Hu Hal Ho. by apply (ustep_ok s s' Hu Hal (U_own _ _ Ho)).
  - intros s f Hu Hal Hf. destruct (thread_create_ok s f Hu Hal Hf) as (s' & n & E & H1 & H2 & H3 & Hn). exists tt, s'. eauto 10.
  - intros s i Hu Hi Hc. destruct (yield_ok s i Hu Hi Hc) as (s' & E & ? & ? & ? & ?). by exists tt, s'.
  - intros s i Hu Hi H0 Hc. destruct (exit_ok s i Hu Hi H0 Hc) as [(n & s' & E & Hch & ? & ? & ? & ? & ?)|[Hno E]]; [left|by right].
    exists n. split; [done|]. by exists tt, s'.
  - intros s s' j Hu Hal Hw Hr. induction Hr as [s|s s1 s' [Hs Hc] Hr IH]; [split_and!; [done|done|by split|by left]|].
    destruct (ustep_ok s s1 Hu Hal Hs) as (Hu1 & Hal1 & Hk). destruct (Hk j Hw) as [[E1 F1] [Hw1|Hc1]].
    + destruct (IH Hu1 Hal1 Hw1) as (? & ? & [E2 F2] & ?). split_and!; try done. split; [congruence|].
      intros a Ha. rewrite F2 by (by rewrite E1). by apply F1.
    + destruct Hr as [s1|s1 s2 s' [_ Hno] _]; [|done]. split_and!; try done. by right.
Qed.

(** Of three threads the third does not run while the first two only yield to each other. *)
Lemma yield_starves s i n : uinv s → (i < 8)%nat → (n < 8)%nat → current_thread s = th i → waiting s n → n ≠ i →
  (∀ k, (k < n)%nat → k ≠ i → state s k ≠ RUNNABLE) →
  runs thread_yield (λ _ s', current_thread s' = th n ∧ waiting s' i) s.
Proof.
  intros Hu Hi Hn Hc Hw Hne Hno. destruct (yield_ok s i Hu Hi Hc) as (s' & E & _ & _ & _ & [(k & [Hk Hmin] & Hck & _ & Hwi & _)|(H & _)]).
  - exists tt, s'. split; [done|]. split; [|done]. destruct (decide (k = n)) as [-> |Hkn]; [done|].
    destruct (decide (k < n)%nat) as [Hlt|Hge].
    + assert (k ≠ i) by (intros ->; destruct Hk as (_ & ? & _); congruence). exfalso. apply (Hno k); [done|done|]. apply Hk.
    + exfalso. apply (Hmin n); [lia|done|]. apply Hw.
  - exfalso. by apply (H n).
Qed.

End uthread.

(** ** The main thread and one other *)

Definition start : um := Um (λ _, 0) 0 0 (Regs 0 0 0 0 0 0 0 0x3000 0x100).

Lemma start_fresh : fresh 0x4000 0x2000 0x3000 start.
Proof. split; [done|done|]. split; [by vm_compute|by exists 0xC00]. Qed.

(** [main] creates a thread at 0x1000 and calls the scheduler: the thread starts there, at the top of its stack. *)
Lemma threads_resume_where_they_left_witness :
  ∃ s0 s1 s2, thread_init 0x4000 start = Ok (tt, s0) ∧ thread_create 0x4000 0x1000 s0 = Ok (tt, s1) ∧
    thread_schedule 0x4000 0x500 s1 = Ok (tt, s2) ∧ eip (u_regs s2) = 0x1000 ∧ uinv 0x4000 0x2000 0x3000 s2.
Proof.
  assert (Hm : 0x3000 ≤ 0x4000 ∨ thread_end 0x4000 ≤ 0x2000) by lia.
  destruct (thread_init_ok 0x4000 0x2000 0x3000 start start_fresh) as ([] & s0 & E0 & Hu0 & Ha0 & H00 & Hf0).
  assert (Hfree : ∃ j, (j < MAX_THREAD)%nat ∧ state 0x4000 s0 j = FREE) by (exists 1%nat; split; [unfold MAX_THREAD; lia|by apply Hf0]).
  destruct (thread_create_ok 0x4000 0x2000 0x3000 ltac:(done) Hm s0 0x1000 Hu0 Ha0 Hfree) as (s1 & n & E1 & Hu1 & Ha1 & _ & Hn & _ & Hw & Hip & _ & Hst).
  destruct (ui_cur _ _ _ _ Hu1) as (i & Hi & Hc & _).
  destruct (schedule_ok 0x4000 0x500 0x2000 0x3000 ltac:(lia) Hm s1 i Hu1 Hi Hc) as [(k & s2 & [(Hk & Hck & Hsk) _] & E2 & _ & _ & Hc2 & _)|[(Hno & _)|(Hno & _)]];
    [|by destruct (Hno n)..].
  assert (k = n) as ->.
  { destruct (decide (k = n)) as [|Hkn]; [done|]. rewrite (Hst k Hk Hkn) in Hsk. destruct (decide (k = 0%nat)) as [-> |Hk0].
    - by rewrite H00 in Hsk.
    - by rewrite (Hf0 k Hk0) in Hsk. }
  destruct (threads_resume_where_they_left 0x4000 0x500 0x2000 0x3000 ltac:(lia) ltac:(done) Hm) as (_ & _ & _ & _ & _ & Hthm).
  destruct (Hthm s1 s2 n Hu1 Ha1 Hw) as (Hu2 & _ & [Er _] & _).
  { apply rtc_once. split; [by apply U_schedule|apply Hw]. }
  exists s0, s1, s2. split_and!; [exact E0|exact E1|exact E2| |exact Hu2].
  rewrite <- Hip, <- Er. unfold regs_of. by rewrite decide_True.
Defined.
