(* ===== verification/Sysproc.v ===== *)
(** * System calls on processes: [xv6/sysproc.c]

    The calls that pass their arguments to the operations of [Proc], and [sys_pgcnt], which
    counts the user pages in the page table of the process.  The calls on the clock are in
    [Clock]. *)

From S2P Require Import Prelude Str Mmu Spinlock Kalloc Vm VmSpec VmUser VmCopy VmProps Proc ProcSpec ProcFork ProcProps Syscall.

(** ** The calls *)

(** [for(j=0; j < NPTENTRIES; j++)], with [k] entries to go. *)
Fixpoint pgcnt_table (m : gmap Z Z) (pte j : Z) (k : nat) (cnt : Z) : Z :=
  match k with
  | O => cnt
  | S k' =>
      pgcnt_table m pte (j + 1) k'
        (if Z.land (ld32 m (pte + 4 * j)) (Z.lor PTE_P PTE_U) =? Z.lor PTE_P PTE_U then s32 (cnt + 1) else cnt)
  end.

(** [for(i=0; i < NPDENTRIES; i++)], with [k] entries to go. *)
Fixpoint pgcnt_dir (m : gmap Z Z) (pgdir i : Z) (k : nat) (cnt : Z) : Z :=
  match k with
  | O => cnt
  | S k' =>
      let pde := ld32 m (pgdir + 4 * i) in
      pgcnt_dir m pgdir (i + 1) k'
        (if negb (Z.land pde PTE_P =? 0) then pgcnt_table m (P2V (PTE_ADDR pde)) 0 (Z.to_nat NPTENTRIES) cnt else cnt)
  end.

Section calls.
Context {F : Type} `{!FileOps F}.
Context (kend kdata ptable trapret forkret_addr : Z).
(** The processor, the calling process, and what it passed. *)
Context (c cur : nat) (u : uctx).

Definition sys_fork : K (pst F) Z := fork kend kdata ptable trapret forkret_addr c cur.

(** [exit] does not come back from [sched]. *)
Definition sys_exit : K (pst F) Z := exit ptable c cur;; mret 0.

(** Up to the return or to the sleep; [wait_resume] goes on from there. *)
Definition sys_wait : K (pst F) (option Z) := wait_begin kend ptable c cur.

Definition sys_kill : K (pst F) Z :=
  match argint u 0 with
  | None => mret (-1)
  | Some pid => kill ptable c pid
  end.

Definition sys_getpid : K (pst F) Z := x ← getp cur; mret (p_pid x).

Definition sys_sbrk : K (pst F) Z :=
  match argint u 0 with
  | None => mret (-1)
  | Some n =>
      x ← getp cur;
      let addr := s32 (p_sz x) in
      r ← growproc kend cur n;
      if r <? 0 then mret (-1) else mret addr
  end.

(** [trace] is a variable of [sysproc.c]. *)
Definition sys_trace : K Z Z :=
  match argint u 0 with
  | None => mret (-1)
  | Some v => kput v;; mret 0
  end.

Definition sys_answer : K (pst F) Z := mret 42.

(** The parent is read without a test: a null pointer faults. *)
Definition sys_getppid : K (pst F) Z :=
  x ← getp cur;
  match p_parent x with
  | Some q => y ← getp q; mret (p_pid y)
  | None => kpanic "trap"
  end.

Definition sys_pgcnt (s : pst F) : Z :=
  pgcnt_dir (k_mem (s_k s)) (p_pgdir (s_proc s !!! cur)) 0 (Z.to_nat NPDENTRIES) 0.
End calls.

(** ** Counting the pages *)

(** The pages that user code can reach. *)
Definition reach1 (m T : gmap Z Z) (q : Z) : Z := if accessible (entry m T q) then 1 else 0.
Definition reachable_pages (m T : gmap Z Z) : Z := sumf (reach1 m T) (seqZ 0 npages).

(** The test of the source. *)
Lemma flag_accessible e : (Z.land e (Z.lor PTE_P PTE_U) =? Z.lor PTE_P PTE_U) = accessible e.
Proof.
  unfold accessible. rewrite Z.land_lor_distr_r. change PTE_P with (2 ^ 0). change PTE_U with (2 ^ 2).
  rewrite !land_pow2 by done. by destruct (Z.testbit e 0), (Z.testbit e 2).
Qed.

(** A sum of zeroes and ones. *)
Lemma sumf_bits (f : Z → Z) l : (∀ x, 0 ≤ f x ≤ 1) → 0 ≤ sumf f l ≤ Z.of_nat (length l).
Proof. intros Hf. induction l as [|x l IH]; [done|]. cbn [sumf foldr length]. specialize (Hf x). unfold sumf in IH. lia. Qed.

Lemma seqZ_cons_nat i (k : nat) : seqZ i (Z.of_nat (S k)) = i :: seqZ (i + 1) (Z.of_nat k).
Proof. rewrite (seqZ_cons i) by lia. by replace (Z.pred (Z.of_nat (S k))) with (Z.of_nat k) by lia. Qed.

Lemma sumf_shift (f : Z → Z) a i (k : nat) : sumf (λ j, f (a + j)) (seqZ i (Z.of_nat k)) = sumf f (seqZ (a + i) (Z.of_nat k)).
Proof.
  revert i. induction k as [|k IH]; intros i; [done|]. rewrite !seqZ_cons_nat. cbn [sumf foldr].
  fold (sumf (λ j, f (a + j)) (seqZ (i + 1) (Z.of_nat k))). rewrite IH. by rewrite Z.add_assoc.
Qed.

Definition bit_at (m : gmap Z Z) (pte j : Z) : Z := if accessible (ld32 m (pte + 4 * j)) then 1 else 0.

Lemma bit_01 (b : bool) : 0 ≤ (if b then 1 else 0) ≤ 1.
Proof. destruct b; lia. Qed.

Lemma pgcnt_table_ok m pte k : ∀ j cnt, 0 ≤ cnt → cnt + Z.of_nat k < 2 ^ 31 →
  pgcnt_table m pte j k cnt = cnt + sumf (bit_at m pte) (seqZ j (Z.of_nat k)).
Proof.
  induction k as [|k IH]; intros j cnt H0 Hc; [simpl; lia|]. cbn [pgcnt_table]. rewrite flag_accessible, seqZ_cons_nat.
  cbn [sumf foldr]. unfold sumf in IH. unfold bit_at at 1. destruct (accessible _).
  - rewrite s32_small by lia. rewrite IH by lia. lia.
  - rewrite IH by lia. lia.
Qed.

(** The entries of page table [i]. *)
Lemma table_bits m T i t : T !! i = Some t →
  sumf (bit_at m t) (seqZ 0 NPTENTRIES) = sumf (reach1 m T) (seqZ (NPTENTRIES * i) NPTENTRIES).
Proof.
  intros Ht. pose proof (sumf_shift (reach1 m T) (NPTENTRIES * i) 0 (Z.to_nat NPTENTRIES)) as E.
  rewrite Z2Nat.id, Z.add_0_r in E by done. rewrite <- E. apply sumf_eq. intros j Hj%elem_of_seqZ.
  unfold bit_at, reach1, entry. unfold NPTENTRIES in *.
  replace ((1024 * i + j) / 1024) with i by (apply (Z.div_unique _ _ _ j); lia).
  replace ((1024 * i + j) mod 1024) with j by (apply (Z.mod_unique _ _ i); lia). by rewrite Ht.
Qed.

Lemma no_table_bits m T i : T !! i = None → sumf (reach1 m T) (seqZ (NPTENTRIES * i) NPTENTRIES) = 0.
Proof.
  intros Ht. transitivity (sumf (λ _ : Z, 0) (seqZ (NPTENTRIES * i) NPTENTRIES)).
  - apply sumf_eq. intros q Hq%elem_of_seqZ. unfold reach1, entry. unfold NPTENTRIES in *.
    replace (q / 1024) with i by (apply (Z.div_unique _ _ _ (q - 1024 * i)); lia). by rewrite Ht.
  - generalize (seqZ (NPTENTRIES * i) NPTENTRIES). intros l. induction l; [done|]. simpl. by rewrite IHl.
Qed.

Lemma pgcnt_dir_ok kend m pgdir T k : ∀ i cnt, pt kend m pgdir T → 0 ≤ i → i + Z.of_nat k = NPDENTRIES →
  0 ≤ cnt ≤ NPTENTRIES * i →
  pgcnt_dir m pgdir i k cnt = cnt + sumf (reach1 m T) (seqZ (NPTENTRIES * i) (NPTENTRIES * Z.of_nat k)).
Proof.
  assert (HN : NPTENTRIES = 1024) by done. assert (HD : NPDENTRIES = 1024) by done.
  induction k as [|k IH]; intros i cnt Hp Hi Hk Hc; [rewrite Z.mul_0_r; simpl; lia|]. cbn [pgcnt_dir].
  replace (NPTENTRIES * Z.of_nat (S k)) with (NPTENTRIES + NPTENTRIES * Z.of_nat k) by lia.
  rewrite seqZ_app, sumf_app by lia.
  replace (NPTENTRIES * i + NPTENTRIES) with (NPTENTRIES * (i + 1)) by lia.
  destruct (T !! i) as [t|] eqn:Et.
  - destruct (pt_tab _ _ _ _ Hp i t Et) as (_ & _ & _ & Hpr & Hf). apply Z.eqb_neq in Hpr. rewrite Hpr. cbn [negb].
    unfold frame in Hf. rewrite Hf. rewrite pgcnt_table_ok by lia. rewrite Z2Nat.id by lia.
    pose proof (sumf_bits (bit_at m t) (seqZ 0 NPTENTRIES) (λ x, bit_01 _)) as Hb. rewrite length_seqZ in Hb.
    rewrite IH by (done || lia). rewrite (table_bits m T i t Et). lia.
  - pose proof (pt_none _ _ _ _ Hp i ltac:(lia) Et) as Hpr. unfold present in Hpr.
    destruct (Z.land (ld32 m (pgdir + 4 * i)) PTE_P =? 0) eqn:E; [|apply Z.eqb_neq in E; tauto]. cbn [negb].
    rewrite (no_table_bits m T i Et), IH by (done || lia). lia.
Qed.

(** [sys_pgcnt] counts the pages that user code can reach. *)
Lemma pgcnt_counts {F} kend cur (s : pst F) x T : s_proc s !! cur = Some x → pt kend (k_mem (s_k s)) (p_pgdir x) T →
  sys_pgcnt cur s = reachable_pages (k_mem (s_k s)) T.
Proof.
  intros Hx Hp. unfold sys_pgcnt. rewrite (list_lookup_total_correct _ _ _ Hx).
  pose proof (pgcnt_dir_ok kend _ _ T (Z.to_nat NPDENTRIES) 0 0 Hp ltac:(lia) ltac:(rewrite Z2Nat.id; done) ltac:(lia)) as E.
  rewrite Z2Nat.id, Z.mul_0_r, Z.add_0_l, (Z.mul_comm NPTENTRIES) in E by done. exact E.
Qed.

(** The reachable pages from [lo] up to [hi]. *)
Definition reachable (m T : gmap Z Z) (lo hi : Z) : Z := sumf (reach1 m T) (seqZ lo (hi - lo)).

(** Only the pages of a range changed. *)
Lemma reach_range m T m' T' lo hi : 0 ≤ lo ≤ hi → hi ≤ npages →
  (∀ q, 0 ≤ q < npages → ¬ (lo ≤ q < hi) → reach1 m' T' q = reach1 m T q) →
  reachable_pages m' T' = reachable_pages m T + reachable m' T' lo hi - reachable m T lo hi.
Proof.
  intros Hlo Hhi Hout. unfold reachable_pages, reachable.
  replace npages with (lo + ((hi - lo) + (npages - hi))) by lia.
  rewrite seqZ_app, sumf_app, seqZ_app, !sumf_app by lia. rewrite Z.add_0_l.
  assert (Hsame : ∀ a n, 0 ≤ a → a + n ≤ npages → (∀ q, a ≤ q < a + n → ¬ (lo ≤ q < hi)) →
    sumf (reach1 m' T') (seqZ a n) = sumf (reach1 m T) (seqZ a n)).
  { intros a n Ha Hn Hq. apply sumf_eq. intros q Hel%elem_of_seqZ. apply Hout; [lia|by apply Hq]. }
  rewrite (Hsame 0 lo), (Hsame (lo + (hi - lo)) (npages - hi)) by (lia || (intros; lia)). lia.
Qed.

(** All of a range is reachable, or none. *)
Lemma reach_all m T lo hi b : lo ≤ hi → (∀ q, lo ≤ q < hi → reach1 m T q = b) → reachable m T lo hi = b * (hi - lo).
Proof.
  intros Hlo Hf. unfold reachable. rewrite (sumf_eq _ (λ _, b)).
  - assert (Hl : ∀ l : list Z, sumf (λ _, b) l = b * Z.of_nat (length l)).
    { induction l as [|y l IH]; [simpl; lia|]. cbn [sumf foldr length]. unfold sumf in IH. lia. }
    rewrite Hl, length_seqZ, Z2Nat.id by lia. done.
  - intros q Hel%elem_of_seqZ. apply Hf. lia.
Qed.

(** ** [sbrk] *)

Section sbrk.
Context {F : Type} `{!FileOps F}.
Context (kend : Z) (Hkend : KERNBASE < kend).
Context (cur : nat) (n : Z).

(** What [sbrk] relies on: the process and its memory.  The present pages below [KERNBASE]
    are its own, and none is present above the break. *)
Record brk_pre (x : proc) (l : list Z) (T : gmap Z Z) (s : pst F) : Prop := {
  bp_cur : s_proc s !! cur = Some x;
  bp_sz : 0 < p_sz x < KERNBASE;
  bp_vm : vinv kend (s_k s) l (p_pgdir x) T;
  bp_dir : p_kstack x ≠ 0;
  bp_user : user_ok kend (k_mem (s_k s)) l (p_pgdir x) T 0 (2 ^ 19);
  bp_none q : npg (p_sz x) ≤ q < 2 ^ 19 → ¬ present (entry (k_mem (s_k s)) T q)
}.

(** The same page is mapped, in the same way, or none before and after. *)
Definition same_entry (e e' : Z) : Prop := e' = e ∨ ¬ present e ∧ ¬ present e'.

(** The page table after the pages of the process went from [old] to [top]: the others are
    as they were; those given up are unmapped and free; the new ones are pages that were
    free, for the user to read and write, and zero. *)
Record moved (m : gmap Z Z) (l : list Z) (T : gmap Z Z) (old top : Z) (m' : gmap Z Z) (l' : list Z) (T' : gmap Z Z) : Prop := {
  mv_same q : 0 ≤ q < npages → ¬ (top ≤ q < old) → ¬ (old ≤ q < top) → same_entry (entry m T q) (entry m' T' q);
  mv_gone q : top ≤ q < old → ¬ present (entry m' T' q) ∧ (present (entry m T q) → frame (entry m T q) ∈ l');
  mv_new q : old ≤ q < top → let e := entry m' T' q in
    present e ∧ PTE_FLAGS e = Z.lor PTE_P (Z.lor PTE_W PTE_U) ∧ frame e ∈ l ∧ ∀ o, 0 ≤ o < PGSIZE → rd m' (frame e + o) = 0
}.

(** The break is at [sz'], and the process has its pages below [top]: [sys_pgcnt] counts
    the new ones more, and those given up that it had counted less. *)
Record broke (x : proc) (l : list Z) (T : gmap Z Z) (s s' : pst F) (sz' top : Z) : Prop := {
  bk_table : s_proc s' = <[cur := set_psz sz' x]> (s_proc s);
  bk_vm : ∃ l' T', vinv kend (s_k s') l' (p_pgdir x) T' ∧
    moved (k_mem (s_k s)) l T (npg (p_sz x)) top (k_mem (s_k s')) l' T';
  bk_count : sys_pgcnt cur s' = sys_pgcnt cur s + Z.max 0 (top - npg (p_sz x)) - reachable (k_mem (s_k s)) T top (npg (p_sz x))
}.

Lemma argint_range u v : argint u 0 = Some v → - 2 ^ 31 ≤ v < 2 ^ 31.
Proof. unfold argint, fetchint. case_match; [done|]. intros [= <-]. apply s32_range. Qed.

Lemma set_psz_same x : set_psz (p_sz x) x = x.
Proof. by destruct x. Qed.

(** The rest of [growproc], when the pages are settled. *)
Lemma grow_end x t i np fi lk k f sz' (Q : Z → pst F → Prop) : t !! cur = Some x → p_kstack x ≠ 0 → p_pgdir x ≠ 0 →
  Q 0 (Pst (<[cur := set_psz sz' x]> t) i np fi lk k f) →
  runs (upd cur (set_psz sz');; switchuvm cur;; mret 0) Q (Pst t i np fi lk k f).
Proof.
  intros Hx Hk Hd HQ. pose proof (lookup_lt_Some _ _ _ Hx). rewrite <- (list_insert_id t cur x Hx) at 1.
  kstep. apply runs_upd_slot; [done|]. kstep. unfold switchuvm. kstep. apply runs_getp_slot; [done|]. apply Z.eqb_neq in Hk, Hd.
  kstep. kstep; [simpl; by rewrite Hk|]. kstep; [simpl; by rewrite Hd|]. by kstep.
Qed.

Lemma not_present_reach e : ¬ present e → (if accessible e then 1 else 0) = 0.
Proof. unfold present, accessible. intros H. destruct (Z.eqb_spec (Z.land e PTE_P) 0); [done|tauto]. Qed.

Lemma user_accessible e : PTE_FLAGS e = 7 → accessible e = true.
Proof.
  intros H. rewrite <- flag_accessible. apply Z.eqb_eq. change (Z.lor PTE_P PTE_U) with 5.
  apply (f_equal (λ v, Z.land v 5)) in H. unfold PTE_FLAGS in H.
  replace (u32 e) with (Z.land e (Z.ones 32)) in H by (by rewrite Z.land_ones). by rewrite <- !Z.land_assoc in H.
Qed.

Lemma same_reach m T m' T' q : same_entry (entry m T q) (entry m' T' q) → reach1 m' T' q = reach1 m T q.
Proof. unfold reach1. intros [-> |[H1 H2]]; [done|]. by rewrite !not_present_reach. Qed.

Lemma reachable_none m T lo hi : hi ≤ lo → reachable m T lo hi = 0.
Proof. intros H. unfold reachable. by rewrite seqZ_nil by lia. Qed.

(** The count after a move. *)
Lemma moved_count m l T old top m' l' T' : 0 ≤ old ≤ npages → 0 ≤ top ≤ npages → moved m l T old top m' l' T' →
  (∀ q, old ≤ q < top → ¬ present (entry m T q)) →
  reachable_pages m' T' = reachable_pages m T + Z.max 0 (top - old) - reachable m T top old.
Proof.
  intros Ho Ht [Hs Hg Hn] Hno. destruct (decide (top ≤ old)) as [Hle|Hgt].
  - rewrite (reach_range m T m' T' top old) by (lia || (intros; apply same_reach, Hs; lia)).
    rewrite (reach_all m' T' top old 0); [lia|lia|]. intros q Hq. by apply not_present_reach, Hg.
  - rewrite (reach_range m T m' T' old top) by (lia || (intros; apply same_reach, Hs; lia)).
    rewrite (reachable_none m T top old) by lia.
    assert (E1 : reachable m' T' old top = 1 * (top - old)).
    { apply reach_all; [lia|]. intros q Hq. unfold reach1. rewrite user_accessible; [done|]. apply (Hn q Hq). }
    assert (E0 : reachable m T old top = 0 * (top - old)).
    { apply reach_all; [lia|]. intros q Hq. by apply not_present_reach, Hno. }
    rewrite E1, E0. lia.
Qed.

Lemma broke_intro x l T (s : pst F) k' l' T' sz' top : brk_pre x l T s → vinv kend k' l' (p_pgdir x) T' → 0 ≤ top ≤ 2 ^ 19 →
  moved (k_mem (s_k s)) l T (npg (p_sz x)) top (k_mem k') l' T' →
  broke x l T s (Pst (<[cur := set_psz sz' x]> (s_proc s)) (s_initproc s) (s_nextpid s) (s_first s) (s_lk s) k' (s_f s)) sz' top.
Proof.
  intros Hp Hv Ht Hmv. pose proof (bp_sz _ _ _ _ Hp) as Hsz. pose proof (npg_range (p_sz x) ltac:(unfold KERNBASE in *; lia)).
  assert (HN : npages = 2 ^ 20) by done. split; [done|by exists l', T'|].
  rewrite (pgcnt_counts kend cur _ (set_psz sz' x) T'); [| |apply Hv].
  - rewrite (pgcnt_counts kend cur s x T); [|apply Hp|apply (bp_vm _ _ _ _ Hp)]. eapply moved_count; [lia|lia|exact Hmv|].
    intros q Hq. apply (bp_none _ _ _ _ Hp). lia.
  - simpl. apply list_lookup_insert_eq, lookup_lt_is_Some. exists x. apply Hp.
Qed.

(** Nothing is moved. *)
Lemma moved_none m l T old : moved m l T old old m l T.
Proof. split; [by left|lia|lia]. Qed.

Lemma broke_same x l T (s : pst F) : brk_pre x l T s → broke x l T s s (p_sz x) (npg (p_sz x)).
Proof.
  intros Hp. split; [|exists l, T; split; [apply Hp|apply moved_none]|rewrite reachable_none; lia].
  rewrite set_psz_same. symmetry. apply list_insert_id, Hp.
Qed.

Lemma broke_end x l T (s : pst F) k' l' T' sz' top (Q : Z → pst F → Prop) : brk_pre x l T s → vinv kend k' l' (p_pgdir x) T' → 0 ≤ top ≤ 2 ^ 19 →
  moved (k_mem (s_k s)) l T (npg (p_sz x)) top (k_mem k') l' T' →
  (∀ s', broke x l T s s' sz' top → Q 0 s') →
  runs (upd cur (set_psz sz');; switchuvm cur;; mret 0) Q
    (Pst (s_proc s) (s_initproc s) (s_nextpid s) (s_first s) (s_lk s) k' (s_f s)).
Proof using Hkend.
  intros Hp Hv Ht Hmv HQ. apply (grow_end x); [apply Hp|apply Hp| |apply HQ; by eapply broke_intro].
  destruct (pt_dir _ _ _ _ (vi_pt _ _ _ _ _ Hv)) as [_ Hr]. unfold KERNBASE in *. lia.
Qed.

(** The process unchanged but for its pages. *)
Lemma broke_fail x l T t i np fi lk k f k' l' T' top : brk_pre x l T (Pst t i np fi lk k f) → vinv kend k' l' (p_pgdir x) T' → 0 ≤ top ≤ 2 ^ 19 →
  moved (k_mem k) l T (npg (p_sz x)) top (k_mem k') l' T' →
  broke x l T (Pst t i np fi lk k f) (Pst t i np fi lk k' f) (p_sz x) top.
Proof.
  intros Hp Hv Ht Hmv. pose proof (broke_intro x l T _ k' l' T' (p_sz x) top Hp Hv Ht Hmv) as B.
  cbn [s_proc s_initproc s_nextpid s_first s_lk s_k s_f] in B. by rewrite set_psz_same, list_insert_id in B by apply Hp.
Qed.

Lemma grow_up x l T (s : pst F) (Q : Z → pst F → Prop) : brk_pre x l T s → 0 < n → p_sz x + n < KERNBASE →
  (∀ s', broke x l T s s' (p_sz x + n) (npg (p_sz x + n)) → Q 0 s') →
  (∀ s', broke x l T s s' (p_sz x) (npg (p_sz x)) → Z.of_nat (length l) ≤ 1026 + (npg (p_sz x + n) - npg (p_sz x)) → Q (-1) s') →
  runs (growproc kend cur n) Q s.
Proof using Hkend.
  intros Hp Hpos Hlim Hgood Hbad. pose proof (bp_sz _ _ _ _ Hp) as Hsz. unfold growproc, getp. kstep. kstep.
  rewrite (list_lookup_total_correct _ _ _ (bp_cur _ _ _ _ Hp)). rewrite (proj2 (Z.ltb_lt 0 n)) by lia.
  assert (HK : KERNBASE = 2 ^ 31) by done. rewrite u32_small by lia. rewrite (proj2 (Z.eqb_neq n 0)) by lia.
  pose proof (npg_range (p_sz x) ltac:(lia)). pose proof (npg_range (p_sz x + n) ltac:(lia)).
  pose proof (npg_mono (p_sz x) (p_sz x + n) ltac:(lia)). assert (HN : npages = 2 ^ 20) by done.
  destruct s as [t i np fi lk k f]. kstep. apply runs_k.
  eapply (allocuvm_ok kend Hkend k l (p_pgdir x) T); [apply Hp|lia|lia| | |].
  - intros q Hq. apply (bp_none _ _ _ _ Hp). lia.
  - intros k' l' T' Hr Hl. cbn [negb andb]. rewrite Z.eqb_refl. kstep. apply Hbad; [|done].
    eapply (broke_fail x l T _ _ _ _ _ _ _ k' l' T'); [done|apply Hr|lia|]. split; [|lia|lia]. intros q Hq _ _.
    destruct (decide (npg (p_sz x) ≤ q < npg (p_sz x + n))) as [Hin|Hout]; [|left; by apply Hr].
    right. split; [apply (bp_none _ _ _ _ Hp); lia|by apply Hr].
  - intros k' l' T' Ha. rewrite (proj2 (Z.eqb_neq (p_sz x + n) 0)) by lia. cbn [negb andb].
    eapply (broke_end x l T (Pst t i np fi lk k f) k' l' T' (p_sz x + n) (npg (p_sz x + n))); [done|apply Ha|lia| |done].
    split; [|lia|apply Ha]. intros q Hq _ Hnq. left. by apply (ad_old _ _ _ _ _ _ _ _ _ _ _ _ Ha).
Qed.

(** A break that moves down to 0 gives the pages back and fails. *)
Lemma grow_down x l T (s : pst F) (Q : Z → pst F → Prop) : brk_pre x l T s → n < 0 → 0 ≤ p_sz x + n →
  (∀ s', 0 < p_sz x + n → broke x l T s s' (p_sz x + n) (npg (p_sz x + n)) → Q 0 s') →
  (∀ s', p_sz x + n = 0 → broke x l T s s' (p_sz x) 0 → Q (-1) s') →
  runs (growproc kend cur n) Q s.
Proof using Hkend.
  intros Hp Hneg Hlim Hgood Hbad. pose proof (bp_sz _ _ _ _ Hp) as Hsz. unfold growproc, getp. kstep. kstep.
  rewrite (list_lookup_total_correct _ _ _ (bp_cur _ _ _ _ Hp)). rewrite (proj2 (Z.ltb_ge 0 n)), (proj2 (Z.ltb_lt n 0)) by lia.
  assert (HK : KERNBASE = 2 ^ 31) by done. rewrite u32_small by lia. rewrite (proj2 (Z.eqb_neq n 0)) by lia.
  pose proof (npg_range (p_sz x) ltac:(lia)). pose proof (npg_range (p_sz x + n) ltac:(lia)).
  pose proof (npg_mono (p_sz x + n) (p_sz x) ltac:(lia)). assert (HN : npages = 2 ^ 20) by done.
  pose proof (bp_user _ _ _ _ Hp) as Hu.
  destruct s as [t i np fi lk k f]. cbn [s_proc s_k] in *. kstep. apply runs_k.
  eapply (deallocuvm_ok kend Hkend k l (p_pgdir x) T); [apply Hp|lia|lia| |].
  { split; intros; [apply (us_page _ _ _ _ _ _ _ Hu)|apply (us_inj _ _ _ _ _ _ _ Hu)]; done || lia. }
  intros k' fr Hun.
  assert (Hmv : moved (k_mem k) l T (npg (p_sz x)) (npg (p_sz x + n)) (k_mem k') (fr ++ l) T).
  { split; [| |lia].
    - intros q Hq Hnq _. left. rewrite (un_entry _ _ _ _ _ _ _ _ _ Hun), decide_False by (done || tauto). done.
    - intros q Hq. rewrite (un_entry _ _ _ _ _ _ _ _ _ Hun) by lia. split.
      + case_decide as Hd; [apply not_present_0|tauto].
      + intros Hpr. apply elem_of_app. left. apply (un_freed _ _ _ _ _ _ _ _ _ Hun). by exists q. }
  destruct (Z.eqb_spec (p_sz x + n) 0) as [E0|E0]; cbn [negb andb].
  - kstep. apply Hbad; [done|]. rewrite E0 in Hmv. change (npg 0) with 0 in Hmv. eapply broke_fail; [done|apply Hun|lia|exact Hmv].
  - eapply (broke_end x l T (Pst t i np fi lk k f)); [done|apply Hun| |exact Hmv|]; [lia|]. intros s'. apply Hgood. lia.
Qed.

(** The moves that change no page. *)
Lemma grow_stuck x l T (s : pst F) (Q : Z → pst F → Prop) : brk_pre x l T s → - 2 ^ 31 ≤ n < 2 ^ 31 →
  n = 0 ∨ p_sz x + n < 0 ∨ KERNBASE ≤ p_sz x + n →
  (p_sz x + n < KERNBASE → ∀ s', broke x l T s s' (p_sz x) (npg (p_sz x)) → Q 0 s') →
  (KERNBASE ≤ p_sz x + n → ∀ s', broke x l T s s' (p_sz x) (npg (p_sz x)) → Q (-1) s') →
  runs (growproc kend cur n) Q s.
Proof using Hkend.
  intros Hp Hr Hcase Hgood Hbad. pose proof (bp_sz _ _ _ _ Hp) as Hsz. unfold growproc, getp. kstep. kstep.
  rewrite (list_lookup_total_correct _ _ _ (bp_cur _ _ _ _ Hp)). assert (HK : KERNBASE = 2 ^ 31) by done.
  assert (Hend : p_sz x + n < KERNBASE → runs (upd cur (set_psz (p_sz x));; switchuvm cur;; mret 0) Q s).
  { intros Hlt. destruct s as [t i np fi lk k f].
    pose proof (npg_range (p_sz x) ltac:(lia)).
    apply (broke_end x l T (Pst t i np fi lk k f) k l T (p_sz x) (npg (p_sz x))); [done|apply Hp|lia|apply moved_none|auto]. }
  destruct s as [t i np fi lk k f]. destruct Hcase as [->|[Hneg|Hbig]].
  - change (0 <? 0) with false. cbv iota. kstep. kstep. apply Hend. lia.
  - rewrite (proj2 (Z.ltb_ge 0 n)), (proj2 (Z.ltb_lt n 0)), (proj2 (Z.eqb_neq n 0)) by lia. kstep. apply runs_k. unfold deallocuvm.
    replace (u32 (p_sz x + n)) with (2 ^ 32 + (p_sz x + n)) by (unfold u32; apply (Z.mod_unique _ _ (-1)); lia).
    rewrite (proj2 (Z.leb_le (p_sz x) (2 ^ 32 + (p_sz x + n)))) by lia. kstep. rewrite (proj2 (Z.eqb_neq (p_sz x) 0)) by lia. cbn [negb andb]. apply Hend. lia.
  - rewrite (proj2 (Z.ltb_lt 0 n)), (proj2 (Z.eqb_neq n 0)) by lia. kstep. apply runs_k. unfold allocuvm.
    rewrite u32_small, (proj2 (Z.leb_le KERNBASE (p_sz x + n))) by lia. kstep. cbn [negb andb]. rewrite Z.eqb_refl. kstep.
    apply Hbad; [done|]. by apply (broke_same x l T).
Qed.

End sbrk.

(** ** Example *)

(** A process of one page asks for two bytes. *)
Definition brk_ctx : uctx := Uctx 4096 (st32 ∅ 104 2) 100.

Lemma m_entry_none m q : m_same m → 1 ≤ q → ¬ present (entry m m_T q).
Proof.
  intros Hm Hq. unfold entry. destruct (m_T !! (q / NPTENTRIES)) as [t|] eqn:E; [|apply not_present_0].
  unfold m_T in E. apply lookup_singleton_Some in E as [E <-]. unfold NPTENTRIES in *. pose proof (Z_div_mod_eq_full q 1024). pose proof (Z.mod_pos_bound q 1024 ltac:(lia)).
  rewrite (ld32_ext _ m_mem) by (intros b Hb; apply Hm; unfold m_tab, m_free in *; lia).
  unfold m_mem. rewrite !ld32_st32_ne by (unfold m_dir, m_tab; lia). unfold ld32.
  rewrite !rd_wr_ne by (unfold m_tab, m_page; lia). apply not_present_0.
Qed.

Lemma one_brk_pre k l : kinv m_kend k l → m_same (k_mem k) → (∀ v, v ∈ l → m_free ≤ v) →
  brk_pre m_kend 0 (one_proc RUNNING) l m_T (one_state RUNNING k).
Proof.
  intros Hk Hm Hv. assert (Hpg : page_ok m_kend m_page) by (by apply m_page_ok).
  destruct (page_entry m_kend m_page 7 Hpg ltac:(done)) as (_ & _ & _ & Hfr & _). cbv zeta in Hfr.
  assert (Hno : ∀ q, 1 ≤ q → ¬ present (entry (k_mem k) m_T q)) by (intros; by apply m_entry_none).
  split; try done.
  - split; [done|by apply m_pt|]. intros v Hin. apply m_dis, Hv, Hin.
  - split; cbn [s_k one_state p_pgdir one_proc].
    + intros q Hq Hpr. destruct (decide (q = 0)) as [-> |]; [|by destruct (Hno q); [lia|]].
      rewrite (m_entry _ Hm), Hfr. split_and!; [done|by rewrite m_own; set_solver|]. intros Hin%Hv. unfold m_free, m_page in *. lia.
    + intros q r Hq Hr Hpq Hpr _. destruct (decide (q = 0)); [|by destruct (Hno q); [lia|]].
      destruct (decide (r = 0)); [lia|by destruct (Hno r); [lia|]].
  - intros q. change (npg (p_sz (one_proc RUNNING))) with 1. intros Hq. apply Hno. lia.
Qed.

