(* ===== verification/Clock.v ===== *)
(** * The clock: [sys_sleep] and [sys_uptime] of [xv6/sysproc.c], the timer of [xv6/trap.c]

    The timer interrupt counts ticks and wakes the processes asleep on the counter.
    [sys_sleep] is cut where it gives up the processor: [sys_sleep] runs up to its return
    or its sleep, [sys_sleep_resume] from there on.  [cstep] interleaves these and the timer
    with the steps of the process table of [ProcSpec]. *)

From S2P Require Import Prelude Str Mmu Spinlock Kalloc Vm VmProps Proc ProcSpec ProcInv ProcFork ProcProps Syscall.

(** ** Operations *)

Section clock.
Context {F : Type} `{!FileOps F}.
(** The addresses of [ptable], [tickslock] and [ticks]. *)
Context (ptable tickslock ticks_addr : Z).

Record tst := Tst { t_ticks : Z; t_p : pst F }.

Definition on_p {A} (m : K (pst F) A) : K tst A := λ s,
  match m (t_p s) with
  | Ok (a, p) => Ok (a, Tst (t_ticks s) p)
  | Panic e => Panic e
  | Hang => Hang
  end.

Definition acquire_ticks (c : nat) : K tst unit := on_p (on_lk (acquire c tickslock)).
Definition release_ticks (c : nat) : K tst unit := on_p (on_lk (release c tickslock)).

(** [case T_IRQ0 + IRQ_TIMER] of [trap], on processor [c]. *)
Definition trap_timer (c : nat) : K tst unit :=
  if (c =? 0)%nat then
    acquire_ticks c;;
    kmod (λ s, Tst (u32 (t_ticks s + 1)) (t_p s));;
    on_p (wakeup ptable c ticks_addr);;
    release_ticks c
  else mret tt.

(** The test of the loop of [sys_sleep] and what follows it: the result, or [None] when
    the process went to sleep. *)
Definition sleep_round (c cur : nat) (n ticks0 : Z) : K tst (option Z) :=
  ticks ← kgets t_ticks;
  if u32 (ticks - ticks0) <? u32 n then
    x ← on_p (getp cur);
    if p_killed x then
      release_ticks c;;
      mret (Some (-1))
    else
      on_p (sleep_begin ptable c (Some cur) ticks_addr tickslock);;
      mret None
  else
    release_ticks c;;
    mret (Some 0).

(** The result, or [n] and [ticks0] of the process that sleeps. *)
Definition sys_sleep (c cur : nat) (u : uctx) : K tst (Z + Z * Z) :=
  match argint u 0 with
  | None => mret (inl (-1))
  | Some n =>
      acquire_ticks c;;
      ticks0 ← kgets t_ticks;
      r ← sleep_round c cur n ticks0;
      mret (match r with Some v => inl v | None => inr (n, ticks0) end)
  end.

Definition sys_sleep_resume (c cur : nat) (n ticks0 : Z) : K tst (option Z) :=
  on_p (sleep_end ptable c cur tickslock);;
  sleep_round c cur n ticks0.

Definition sys_uptime (c : nat) : K tst Z :=
  acquire_ticks c;;
  xticks ← kgets t_ticks;
  release_ticks c;;
  mret (s32 xticks).

(** ** Interleavings *)

(** The state, the phase of every process, the timer interrupts so far on the first
    processor, and of every process asleep in [sys_sleep] its [n], its [ticks0] and the
    number of interrupts when it called. *)
Record clk := Clk {
  k_st : tst;
  k_ph : nat → phase;
  k_tot : Z;
  k_sl : nat → option (Z * Z * Z)
}.

(** What a step shows: [Back p n e r k] is the return [r] of [sys_sleep] with argument [n]
    in process [p], after [e] interrupts; [k] is the flag [killed]. *)
Inductive event :=
| Quiet
| Back (p : nat) (n e r : Z) (k : bool).

Definition killed (s : tst) (p : nat) : bool := p_killed (s_proc (t_p s) !!! p).

Context (kend kdata trapret forkret_addr : Z).

Inductive cstep : clk → event → clk → Prop :=
| cs_tick c s s' ph tot sl :
    trap_timer c s = Ok (tt, s') →
    cstep (Clk s ph tot sl) Quiet (Clk s' ph (if (c =? 0)%nat then tot + 1 else tot) sl)
| cs_now c cur u n r s s' ph tot sl :
    running (t_p s) cur → ph cur = Idle → argint u 0 = Some n →
    sys_sleep c cur u s = Ok (inl r, s') →
    cstep (Clk s ph tot sl) (Back cur n 0 r (killed s cur)) (Clk s' ph tot sl)
| cs_sleep c cur u n ticks0 s s' ph tot sl :
    running (t_p s) cur → ph cur = Idle →
    sys_sleep c cur u s = Ok (inr (n, ticks0), s') →
    cstep (Clk s ph tot sl) Quiet (Clk s' (fupd ph cur Asleep) tot (fupd sl cur (Some (n, ticks0, tot))))
| cs_again c cur n ticks0 tot0 s s' ph tot sl :
    running (t_p s) cur → sl cur = Some (n, ticks0, tot0) →
    sys_sleep_resume c cur n ticks0 s = Ok (None, s') →
    cstep (Clk s ph tot sl) Quiet (Clk s' ph tot sl)
| cs_back c cur n ticks0 tot0 r s s' ph tot sl :
    running (t_p s) cur → sl cur = Some (n, ticks0, tot0) →
    sys_sleep_resume c cur n ticks0 s = Ok (Some r, s') →
    cstep (Clk s ph tot sl) (Back cur n (tot - tot0) r (killed s cur))
      (Clk s' (fupd ph cur Idle) tot (fupd sl cur None))
| cs_proc s p' ph ph' tot sl :
    pstep kend kdata ptable trapret forkret_addr (Cfg (t_p s) ph) (Cfg p' ph') →
    (∀ p, sl p ≠ None → ph' p = ph p) →
    cstep (Clk s ph tot sl) Quiet (Clk (Tst (t_ticks s) p') ph' tot sl).

Definition cnext (g g' : clk) : Prop := ∃ e, cstep g e g'.

(** ** Invariant *)

(** A process in [sys_sleep]: if it is asleep, it is on the counter, and its time is not over. *)
Record sleeper (g : clk) (p : nat) (n ticks0 tot0 : Z) : Prop := {
  sl_phase : k_ph g p = Asleep;
  sl_start : ticks0 = u32 tot0;
  sl_time : tot0 ≤ k_tot g;
  sl_asleep v : views (t_p (k_st g)) !! p = Some v → v_state v = SLEEPING →
    v_chan v = ticks_addr ∧ u32 (t_ticks (k_st g) - ticks0) < u32 n
}.

Record clk_inv (g : clk) : Prop := {
  ci_ticks : t_ticks (k_st g) = u32 (k_tot g);
  ci_cfg : cfg_inv ptable (Cfg (t_p (k_st g)) (k_ph g));
  ci_sleeper p n ticks0 tot0 : k_sl g p = Some (n, ticks0, tot0) → sleeper g p n ticks0 tot0
}.

(** ** What the operations do *)

Lemma post_on_p {A} (m : K (pst F) A) (Q : A → tst → Prop) s :
  post m (λ a p, Q a (Tst (t_ticks s) p)) (t_p s) → post (on_p m) Q s.
Proof.
  intros Hm a s' E. unfold on_p in E. destruct (m (t_p s)) as [[a' p']| |] eqn:Em; [|done|done].
  injection E as <- <-. by apply (Hm a' p').
Qed.

Lemma post_lk {A} (m : K lkst A) (Q : A → pst F → Prop) s :
  (∀ a s', table_of s' = table_of s → s_proc s' = s_proc s → Q a s') → post (on_lk m) Q s.
Proof.
  intros HQ a s' E. unfold on_lk in E. destruct (m (s_lk s)) as [[a' lk]| |]; [|done|done].
  injection E as <- <-. by apply HQ.
Qed.

(** A fact about the table, for a program on the table. *)
Lemma post_table {A} (m : K (pst F) A) Q s : tpost (table_of s) m Q → post m (λ r s', Q r (table_of s')) s.
Proof. intros H. by apply H. Qed.

Lemma timer_post c s : post (trap_timer c) (λ _ s',
  t_ticks s' = (if (c =? 0)%nat then u32 (t_ticks s + 1) else t_ticks s) ∧
  table_of (t_p s') = if (c =? 0)%nat then at_all (wake_view ticks_addr) (table_of (t_p s)) else table_of (t_p s)) s.
Proof.
  unfold trap_timer, acquire_ticks, release_ticks. destruct (c =? 0)%nat; [|by pstep].
  pstep. apply post_on_p, post_lk. intros _ s1 T1 _. pstep. pstep. pstep. apply post_on_p. cbn [t_ticks t_p].
  eapply post_mono; [apply post_table, wakeup_table|]. intros [] s2 T2. cbv beta in T2. apply post_on_p, post_lk. intros _ s3 T3 _.
  cbn [t_ticks t_p] in *. by rewrite T3, T2, T1.
Qed.

(** The end of a round. *)
Definition rounded (cur : nat) (n ticks0 : Z) (s : tst) (r : option Z) (s' : tst) : Prop :=
  t_ticks s' = t_ticks s ∧
  match r with
  | Some v => table_of (t_p s') = table_of (t_p s) ∧
      (v = 0 ∧ u32 n ≤ u32 (t_ticks s - ticks0) ∨ v = -1 ∧ killed s cur = true)
  | None => table_of (t_p s') = at_slot cur (set_vstate SLEEPING ∘ set_vchan ticks_addr) (table_of (t_p s)) ∧
      u32 (t_ticks s - ticks0) < u32 n
  end.

Lemma round_post c cur n ticks0 s : post (sleep_round c cur n ticks0) (rounded cur n ticks0 s) s.
Proof.
  unfold sleep_round, release_ticks. pstep. pstep. destruct (Z.ltb_spec (u32 (t_ticks s - ticks0)) (u32 n)) as [Hlt|Hge].
  - pstep. apply post_on_p. unfold getp. pstep. destruct (p_killed _) eqn:Ek.
    + pstep. apply post_on_p, post_lk. intros _ s1 T1 _. pstep. split; [done|]. split; [done|]. by right.
    + pstep. apply post_on_p. eapply post_mono; [apply post_table, sleep_table|]. intros [] s1 T1. cbv beta in T1. pstep. by split.
  - pstep. apply post_on_p, post_lk. intros _ s1 T1 _. pstep. split; [done|]. split; [done|]. by left.
Qed.

Lemma sleep_post c cur u n s : argint u 0 = Some n → post (sys_sleep c cur u) (λ r s',
  ∃ r', r = match r' with Some v => inl v | None => inr (n, t_ticks s) end ∧ rounded cur n (t_ticks s) s r' s') s.
Proof.
  intros Hn. unfold sys_sleep, acquire_ticks. rewrite Hn. pstep. apply post_on_p, post_lk. intros _ s1 T1 P1. pstep. pstep. pstep.
  eapply post_mono; [apply round_post|]. intros r s' [H1 H2]. pstep. exists r. split; [done|]. unfold rounded, killed in *.
  cbn [t_ticks t_p] in *. by rewrite T1, P1 in H2.
Qed.

(** [sleep_end] clears the channel. *)
Lemma sleep_end_post c cur (s : pst F) : post (sleep_end ptable c cur tickslock) (λ _ s',
  table_of s' = at_slot cur (set_vchan 0) (table_of s) ∧ p_killed (s_proc s' !!! cur) = p_killed (s_proc s !!! cur)) s.
Proof.
  intros r s' E. split; [apply (table_eq _ _ _ _ _ (sleep_end_table _ _ _ _ _) E)|].
  enough (s_proc s' = alter (set_pchan 0) cur (s_proc s)) as ->.
  { rewrite !list_lookup_total_alt, list_lookup_alter_eq. by destruct (s_proc s !! cur). }
  revert r s' E. change (post (sleep_end ptable c cur tickslock) (λ _ s', s_proc s' = alter (set_pchan 0) cur (s_proc s)) s).
  unfold sleep_end, release_ptable, upd. pstep. pstep. destruct (negb _); [|by pstep].
  pstep. apply post_lk. intros _ s1 _ P1. apply post_lk. intros _ s2 _ P2. by rewrite P2, P1.
Qed.

Lemma resume_post c cur n ticks0 s : post (sys_sleep_resume c cur n ticks0) (λ r s', ∃ s1,
  table_of (t_p s1) = at_slot cur (set_vchan 0) (table_of (t_p s)) ∧ killed s1 cur = killed s cur ∧
  t_ticks s1 = t_ticks s ∧ rounded cur n ticks0 s1 r s') s.
Proof.
  unfold sys_sleep_resume. pstep. apply post_on_p. eapply post_mono; [apply sleep_end_post|]. intros _ p1 [T1 K1].
  eapply post_mono; [apply round_post|]. intros r s' Hr. by exists (Tst (t_ticks s) p1).
Qed.

(** ** The operations return *)

Section total.
Context (Hlocks : tickslock ≠ ptable ∧ tickslock ≠ 0).

Lemma runs_on_p {A} (m : K (pst F) A) (Q : A → tst → Prop) s :
  runs m (λ a p, Q a (Tst (t_ticks s) p)) (t_p s) → runs (on_p m) Q s.
Proof. intros (a & p & E & HQ). exists a, (Tst (t_ticks s) p). split; [|done]. unfold on_p. by rewrite E. Qed.

(** Processor [c] holds [tickslock] only, and [ptable.lock] is free. *)
Definition in_clock (c : nat) (b : bool) (lk : lkst) : Prop :=
  holds c tickslock b lk ∧ the_lock lk ptable = Spin 0 None.

(** What a round does. *)
Definition round_result (cur : nat) (x : proc) (n e : Z) (r : option Z) (s' : tst) : Prop :=
  if u32 n <=? e then r = Some 0
  else if p_killed x then r = Some (-1)
  else r = None ∧ ∃ y, s_proc (t_p s') !! cur = Some y ∧ p_state y = SLEEPING.

(** [sleep] on the counter lets go of [tickslock] with [ptable.lock] held. *)
Lemma doze_runs c b cur x t i np fi lk k f (Q : unit → pst F → Prop) : t !! cur = Some x → in_clock c b lk →
  (∀ t' lk', (∃ y, t' !! cur = Some y ∧ p_state y = SLEEPING) → Q tt (Pst t' i np fi lk' k f)) →
  runs (sleep_begin ptable c (Some cur) ticks_addr tickslock) Q (Pst t i np fi lk k f).
Proof using Hlocks.
  intros Hx [[Hc Hl] Hp] HQ. destruct Hlocks as [Hne H0]. unfold sleep_begin, acquire_ptable. apply Z.eqb_neq in H0. rewrite H0.
  pose proof (lookup_lt_Some _ _ _ Hx). kstep. kstep; [done|]. rewrite (proj2 (Z.eqb_neq _ _) Hne). cbn [negb].
  kstep. kstep. apply runs_lk. eapply (acquire_held c ptable b {[tickslock]}); [done|set_solver|done|]. intros lk1 C1 L1.
  apply runs_lk. eapply release_held; [exact C1|set_solver|by rewrite L1, decide_False|]. intros lk2 C2 L2.
  replace (({[ptable]} ∪ {[tickslock]}) ∖ {[tickslock]} : gset Z) with ({[ptable]} : gset Z) in C2 by set_solver.
  assert (Hh : holds c ptable b lk2) by (split; [done|by rewrite L2, decide_False, L1, decide_True]).
  rewrite <- (list_insert_id t cur x Hx). kstep. apply runs_upd_slot; [done|]. kstep. apply runs_upd_slot; [done|].
  assert (Hy : <[cur := set_pstate SLEEPING (set_pchan ticks_addr x)]> t !! cur = Some (set_pstate SLEEPING (set_pchan ticks_addr x)))
    by (by apply list_lookup_insert_eq).
  eapply sched_runs; [done|exact Hy|done|]. intros lk3 _. apply HQ. by eexists.
Qed.

Lemma round_runs c b cur x n ticks0 s : s_proc (t_p s) !! cur = Some x → in_clock c b (s_lk (t_p s)) →
  runs (sleep_round c cur n ticks0) (round_result cur x n (u32 (t_ticks s - ticks0))) s.
Proof using Hlocks.
  intros Hx Hc. unfold sleep_round, release_ticks, round_result. destruct s as [tk [t i np fi lk k f]]. cbn [t_p s_proc s_lk t_ticks] in *.
  assert (Hrel : ∀ v (Q : option Z → tst → Prop), (∀ s', Q (Some v) s') →
    runs (on_p (on_lk (release c tickslock));; mret (Some v)) Q (Tst tk (Pst t i np fi lk k f))).
  { intros v Q HQ. kstep. apply runs_on_p, runs_lk. eapply release_runs; [apply Hc|]. intros lk' _. kstep. apply HQ. }
  kstep. kstep. cbn [t_ticks]. rewrite Z.ltb_antisym. destruct (u32 n <=? u32 (tk - ticks0)); cbn [negb]; [by apply Hrel|].
  kstep. apply runs_on_p. unfold getp. kstep. cbn [s_proc t_p t_ticks]. rewrite (list_lookup_total_correct _ _ _ Hx).
  destruct (p_killed x); [by apply Hrel|]. kstep. apply runs_on_p. cbn [t_p t_ticks].
  eapply doze_runs; [done|done|]. intros t' lk' Hy. kstep. by split.
Qed.

Lemma call_runs c b cur x u n s : argint u 0 = Some n → s_proc (t_p s) !! cur = Some x →
  quiet c tickslock b (s_lk (t_p s)) → the_lock (s_lk (t_p s)) ptable = Spin 0 None →
  runs (sys_sleep c cur u) (λ r s', ∃ r', r = match r' with Some v => inl v | None => inr (n, t_ticks s) end ∧ round_result cur x n 0 r' s') s.
Proof using Hlocks.
  intros Hn Hx [Hc Hl] Hp. unfold sys_sleep, acquire_ticks. rewrite Hn. destruct s as [tk [t i np fi lk k f]]. cbn [t_p s_proc s_lk t_ticks] in *.
  kstep. apply runs_on_p, runs_lk. eapply acquire_held; [done|set_solver|done|]. intros lk1 C1 L1. rewrite union_empty_r_L in C1.
  kstep. kstep. kstep. cbn [t_ticks]. eapply runs_mono; [eapply (round_runs c b cur x)|].
  - done.
  - destruct Hlocks. split; [split; [done|by rewrite L1, decide_True]|]. cbn [t_p s_lk]. by rewrite L1, decide_False by congruence.
  - cbn [t_ticks]. rewrite Z.sub_diag. intros r' s' Hr. kstep. by exists r'.
Qed.

Lemma resume_runs c b cur x n ticks0 s : s_proc (t_p s) !! cur = Some x →
  holds c ptable b (s_lk (t_p s)) → the_lock (s_lk (t_p s)) tickslock = Spin 0 None →
  runs (sys_sleep_resume c cur n ticks0) (round_result cur x n (u32 (t_ticks s - ticks0))) s.
Proof using Hlocks.
  intros Hx [Hc Hl] Ht. destruct (Hlocks) as [Hne _]. unfold sys_sleep_resume, sleep_end, release_ptable.
  rewrite (proj2 (Z.eqb_neq _ _) Hne). cbn [negb]. pose proof (lookup_lt_Some _ _ _ Hx).
  destruct s as [tk [t i np fi lk k f]]. cbn [t_p s_proc s_lk t_ticks] in *. rewrite <- (list_insert_id t cur x Hx).
  kstep. apply runs_on_p. kstep. apply runs_upd_slot; [done|]. kstep. apply runs_lk.
  eapply release_held; [exact Hc|set_solver|done|]. intros lk1 C1 L1. rewrite difference_diag_L in C1.
  apply runs_lk. eapply acquire_held; [exact C1|set_solver|by rewrite L1, decide_False|]. intros lk2 C2 L2. rewrite union_empty_r_L in C2.
  eapply (round_runs c b cur (set_pchan 0 x)); cbn [t_p s_proc s_lk].
  - by apply list_lookup_insert_eq.
  - split; [split; [done|by rewrite L2, decide_True]|]. by rewrite L2, decide_False, L1, decide_True by congruence.
Qed.
End total.

(** ** The steps keep the invariant *)

Context (Hticks : other_chan ptable ticks_addr).

Lemma elapsed tot tot0 : u32 (u32 tot - u32 tot0) = u32 (tot - tot0).
Proof. unfold u32. symmetry. apply Zminus_mod. Qed.

(** A step of others leaves a process in [sys_sleep] alone, but for waking it. *)
Lemma sleeper_ext g g' p n ticks0 tot0 : sleeper g p n ticks0 tot0 → k_ph g' p = k_ph g p → k_tot g' = k_tot g →
  t_ticks (k_st g') = t_ticks (k_st g) → dozing p (views (t_p (k_st g))) (views (t_p (k_st g'))) →
  sleeper g' p n ticks0 tot0.
Proof.
  intros [A1 A2 A3 A4] Hph Htot Ht Hd. split; [congruence|done|lia|]. intros v' Hv' Hs.
  destruct (Hd v' Hv' Hs) as (v & Hv & Hvs & Hch). destruct (A4 v Hv Hvs). rewrite Ht. split; [congruence|done].
Qed.

Lemma dozing_slot p cur f (s s' : pst F) : p ≠ cur → table_of s' = at_slot cur f (table_of s) → dozing p (views s) (views s').
Proof. intros Hne E. change (views s') with (t_v (table_of s')). rewrite E. apply (doze_slot p (table_of s)). done. Qed.

Lemma dozing_same p (s s' : pst F) : table_of s' = table_of s → dozing p (views s) (views s').
Proof. intros E. change (views s') with (t_v (table_of s')). rewrite E. apply doze_same. Qed.

Lemma clk_tick c s s' ph tot sl : clk_inv (Clk s ph tot sl) → trap_timer c s = Ok (tt, s') →
  clk_inv (Clk s' ph (if (c =? 0)%nat then tot + 1 else tot) sl).
Proof.
  intros Hi E. apply timer_post in E as [Et Ea]. pose proof (ci_ticks _ Hi) as Ht. pose proof (ci_cfg _ Hi) as Hc. cbn [k_st k_tot k_ph] in *.
  destruct (c =? 0)%nat.
  - split; cbn [k_st k_tot k_ph k_sl].
    + rewrite Et, Ht. unfold u32. apply Zplus_mod_idemp_l.
    + eapply cfg_states; [done|done|apply wake_states].
    + intros p n ticks0 tot0 Hp. destruct (ci_sleeper _ Hi _ _ _ _ Hp) as [A1 A2 A3 A4]. cbn [k_st k_tot k_ph] in *.
      split; cbn [k_st k_tot k_ph]; [done|done|lia|]. change (views (t_p s')) with (t_v (table_of (t_p s'))).
      rewrite Ea, lookup_at_all. intros v' (v & Hv & ->)%fmap_Some Hs. exfalso.
      destruct (wake_view_spec ticks_addr v) as (_ & _ & _ & [[W1 W2]|[_ W]]); [|congruence].
      rewrite W1 in Hs. destruct (A4 v Hv Hs) as [Hch _]. by apply W2.
  - split; cbn [k_st k_tot k_ph k_sl]; [congruence|by eapply cfg_same|]. intros p n ticks0 tot0 Hp.
    eapply (sleeper_ext (Clk s ph tot sl)); [by apply Hi|done|done|done|]. by apply dozing_same.
Qed.

(** A round that returns, or goes to sleep, of the process [cur]: [ph] is its phase outside. *)
Lemma clk_round cur n ticks0 tot0 s0 s s' ph0 ph tot sl r : clk_inv (Clk s0 ph0 tot sl) →
  ph cur = Idle → (∀ p, p ≠ cur → ph p = ph0 p) → cfg_inv ptable (Cfg (t_p s) ph) → running (t_p s) cur →
  (∀ p, p ≠ cur → dozing p (views (t_p s0)) (views (t_p s))) → t_ticks s = t_ticks s0 →
  ticks0 = u32 tot0 → tot0 ≤ tot → rounded cur n ticks0 s r s' →
  clk_inv (Clk s' (fupd ph cur (match r with Some _ => Idle | None => Asleep end)) tot
    (fupd sl cur (match r with Some _ => None | None => Some (n, ticks0, tot0) end))).
Proof using Hticks.
  intros Hi Hid Hph Hc Hru Hd Ht Ht0 Htot [Et Hr]. pose proof (ci_ticks _ Hi) as Hti. cbn [k_st k_tot] in Hti.
  assert (Hd' : ∀ p, p ≠ cur → dozing p (views (t_p s)) (views (t_p s'))).
  { intros p Hp. destruct r; destruct Hr as [E _]; [by apply dozing_same|by eapply dozing_slot]. }
  split; cbn [k_st k_tot k_ph k_sl].
  - congruence.
  - destruct r; destruct Hr as [E _]; [|by eapply cfg_sleep]. eapply cfg_same; [done|done|].
    intros i. unfold fupd. case_decide; congruence.
  - intros p m tk0 to0 Hp. destruct (decide (p = cur)) as [-> |Hne].
    + rewrite fupd_eq in Hp. destruct r; [done|]. injection Hp as <- <- <-. destruct Hr as [E Hlt].
      split; cbn [k_st k_tot k_ph]; [by rewrite fupd_eq|done|done|]. change (views (t_p s')) with (t_v (table_of (t_p s'))).
      rewrite E, lookup_at_slot, decide_True by done. intros v (w & Hw & ->)%fmap_Some _. by rewrite Et.
    + rewrite fupd_ne in Hp by done. pose proof (ci_sleeper _ Hi _ _ _ _ Hp) as Hs.
      assert (sleeper (Clk s ph tot sl) p m tk0 to0) as Hs1.
      { eapply sleeper_ext; [exact Hs|by apply Hph|done|done|by apply Hd]. }
      eapply sleeper_ext; [exact Hs1|by apply fupd_ne|done|done|by apply Hd'].
Qed.

Lemma clk_inv_ext s ph ph' tot sl sl' : (∀ p, ph' p = ph p) → (∀ p, sl' p = sl p) →
  clk_inv (Clk s ph tot sl) → clk_inv (Clk s ph' tot sl').
Proof.
  intros Hph Hsl Hi. split; cbn [k_st k_tot k_ph k_sl].
  - apply (ci_ticks _ Hi).
  - eapply cfg_same; [apply (ci_cfg _ Hi)|done|done].
  - intros p n ticks0 tot0. rewrite Hsl. intros Hp. pose proof (ci_sleeper _ Hi _ _ _ _ Hp) as Hs.
    eapply sleeper_ext; [exact Hs|apply Hph|done|done|apply doze_same].
Qed.

Lemma running_slot (s s' : pst F) cur f : running s cur → table_of s' = at_slot cur f (table_of s) →
  (∀ v, v_state (f v) = v_state v) → running s' cur.
Proof.
  intros (u & Hu & Hr)%running_view E Hf.
  assert (Hv : views s' !! cur = Some (f u)).
  { change (views s') with (t_v (table_of s')). rewrite E, lookup_at_slot, decide_True by done. simpl. by rewrite Hu. }
  unfold views in Hv. rewrite list_lookup_fmap in Hv. apply fmap_Some in Hv as (x & Hx & Ex). exists x. split; [done|].
  change (p_state x) with (v_state (view_of x)). by rewrite <- Ex, Hf.
Qed.

(** [sys_sleep] from the outside, and the end of a sleep. *)
Lemma clk_call c cur u n s s' ph tot sl r : clk_inv (Clk s ph tot sl) → running (t_p s) cur → ph cur = Idle →
  argint u 0 = Some n → sys_sleep c cur u s = Ok (r, s') →
  clk_inv (match r with
    | inl _ => Clk s' ph tot sl
    | inr (m, ticks0) => Clk s' (fupd ph cur Asleep) tot (fupd sl cur (Some (m, ticks0, tot)))
    end).
Proof using Hticks.
  intros Hi Hru Hid Hn E. apply (sleep_post c cur u n s Hn) in E as (r' & -> & Hr).
  pose proof (clk_round cur n (t_ticks s) tot s s s' ph ph tot sl r' Hi Hid (λ _ _, eq_refl) (ci_cfg _ Hi) Hru
    (λ _ _, doze_same _ _) eq_refl (ci_ticks _ Hi) (Z.le_refl _) Hr) as H.
  destruct r'; [|done]. eapply clk_inv_ext; [| |exact H].
  - intros p. unfold fupd. case_decide; congruence.
  - intros p. unfold fupd. case_decide as Ep; [|done]. subst p. destruct (sl cur) as [[[]]|] eqn:Es; [|done].
    pose proof (sl_phase _ _ _ _ _ (ci_sleeper _ Hi _ _ _ _ Es)) as Hph. cbn [k_ph] in Hph. congruence.
Qed.

Lemma clk_resume c cur n ticks0 tot0 s s' ph tot sl r : clk_inv (Clk s ph tot sl) → running (t_p s) cur →
  sl cur = Some (n, ticks0, tot0) → sys_sleep_resume c cur n ticks0 s = Ok (r, s') →
  clk_inv (match r with
    | Some _ => Clk s' (fupd ph cur Idle) tot (fupd sl cur None)
    | None => Clk s' ph tot sl
    end).
Proof using Hticks.
  intros Hi Hru Hsl E. apply resume_post in E as (s1 & T1 & _ & Et & Hr).
  destruct (ci_sleeper _ Hi _ _ _ _ Hsl) as [A1 A2 A3 _]. cbn [k_ph k_tot] in A1, A3.
  assert (Hc1 : cfg_inv ptable (Cfg (t_p s1) (fupd ph cur Idle))) by (eapply cfg_sleep_end; [apply (ci_cfg _ Hi)|done|done|done]).
  pose proof (clk_round cur n ticks0 tot0 s s1 s' ph (fupd ph cur Idle) tot sl r Hi (fupd_eq _ _ _)
    (λ p Hp, fupd_ne _ _ _ _ Hp) Hc1 (running_slot _ _ _ _ Hru T1 (λ _, eq_refl)) (λ p Hp, dozing_slot p cur _ _ _ Hp T1) Et A2 A3 Hr) as H.
  destruct r; (eapply clk_inv_ext; [| |exact H]); intros p; unfold fupd; repeat case_decide; congruence.
Qed.

Lemma clk_step g e g' : clk_inv g → cstep g e g' → clk_inv g'.
Proof using Hticks.
  intros Hi Hs. destruct Hs as [c s s' ph tot sl E|c cur u n r s s' ph tot sl Hru Hid Hn E|c cur u n ticks0 s s' ph tot sl Hru Hid E
    |c cur n ticks0 tot0 s s' ph tot sl Hru Hsl E|c cur n ticks0 tot0 r s s' ph tot sl Hru Hsl E|s p' ph ph' tot sl Hp Hsame].
  - by eapply clk_tick.
  - by apply (clk_call _ _ _ _ _ _ _ _ _ _ Hi Hru Hid Hn E).
  - destruct (argint u 0) as [m|] eqn:Hn; [|unfold sys_sleep in E; by rewrite Hn in E].
    by apply (clk_call _ _ _ _ _ _ _ _ _ _ Hi Hru Hid Hn E).
  - by apply (clk_resume _ _ _ _ _ _ _ _ _ _ _ Hi Hru Hsl E).
  - by apply (clk_resume _ _ _ _ _ _ _ _ _ _ _ Hi Hru Hsl E).
  - pose proof (ci_cfg _ Hi) as Hc. cbn [k_st k_ph] in Hc. split; cbn [k_st k_tot k_ph k_sl t_ticks t_p].
    + apply (ci_ticks _ Hi).
    + by eapply cfg_step.
    + intros p n ticks0 tot0 Hsl. pose proof (ci_sleeper _ Hi _ _ _ _ Hsl) as Hs. pose proof (sl_phase _ _ _ _ _ Hs) as Hph. cbn [k_ph] in Hph.
      assert (Hph' : ph' p = ph p) by (apply Hsame; by rewrite Hsl).
      eapply sleeper_ext; [exact Hs|done|done|done|]. apply (asleep_stays _ _ _ _ _ _ _ _ Hc Hp); cbn [g_ph]; congruence.
Qed.

Lemma clk_start s : booted (t_p s) → t_ticks s = 0 → clk_inv (Clk s (λ _, Idle) 0 (λ _, None)).
Proof. intros Hb H0. split; [done|by apply booted_inv|done]. Qed.

Lemma sleeper_elapsed g p n ticks0 tot0 : clk_inv g → k_sl g p = Some (n, ticks0, tot0) → u32 n ≤ k_tot g - tot0 < 2 ^ 32 →
  u32 n ≤ u32 (t_ticks (k_st g) - ticks0).
Proof.
  intros Hi Hsl He. destruct (ci_sleeper _ Hi _ _ _ _ Hsl) as [_ A2 A3 _].
  rewrite (ci_ticks _ Hi), A2, elapsed, (u32_small (k_tot g - tot0)) by lia. lia.
Qed.

(** A return of [sys_sleep]. *)
Lemma clk_back g p n e r k g' : clk_inv g → cstep g (Back p n e r k) g' → e < 2 ^ 32 → r = 0 ∧ u32 n ≤ e ∨ r = -1 ∧ k = true.
Proof.
  intros Hi Hs He. inversion Hs as [|c cur u n' r' s s' ph tot sl Hru Hid Hn E| | |c cur n' ticks0 tot0 r' s s' ph tot sl Hru Hsl E|]; subst.
  - apply (sleep_post c p u n s Hn) in E as ([v|] & Er & _ & Hr); [|done]. injection Er as <-.
    destruct Hr as [_ [[-> Hle]|[-> Hk]]]; [left|by right]. by rewrite Z.sub_diag in Hle.
  - apply resume_post in E as (s1 & _ & Hk1 & Et & _ & _ & Hr). destruct (ci_sleeper _ Hi _ _ _ _ Hsl) as [_ A2 A3 _].
    pose proof (ci_ticks _ Hi) as Ht. cbn [k_st k_tot] in *.
    rewrite Et, Ht, A2, elapsed, (u32_small (tot - tot0)) in Hr by lia. rewrite Hk1 in Hr. tauto.
Qed.

(** C39. Sleeping on the clock, under every interleaving of [sys_sleep], the timer and the
    process table.  The counter is the number of timer interrupts, modulo [2^32].
    [sys_sleep] returns 0 only when the [n] ticks it was asked for are over, and -1 only to
    a killed process.  A process whose ticks are over is not asleep: it is ready to run, and
    once it has the processor the call returns 0, so no wakeup is lost.
    And a call whose argument can be read returns, or puts the caller to sleep, at once.
    Fewer than [2^32] ticks pass during a call. *)
Theorem sleepers_wake_on_time (s : tst) g :
  tickslock ≠ ptable ∧ tickslock ≠ 0 → booted (t_p s) → t_ticks s = 0 →
  rtc cnext (Clk s (λ _, Idle) 0 (λ _, None)) g →
  let st := k_st g in
  t_ticks st = u32 (k_tot g) ∧
  (∀ p n e r k g', cstep g (Back p n e r k) g' → e < 2 ^ 32 → r = 0 ∧ u32 n ≤ e ∨ r = -1 ∧ k = true) ∧
  (∀ p n ticks0 tot0, k_sl g p = Some (n, ticks0, tot0) → u32 n ≤ k_tot g - tot0 < 2 ^ 32 →
     ready p (views (t_p st)) ∧
     ∀ c b, holds c ptable b (s_lk (t_p st)) → the_lock (s_lk (t_p st)) tickslock = Spin 0 None →
       runs (sys_sleep_resume c p n ticks0) (λ r _, r = Some 0) st) ∧
  (∀ p x c b u n, s_proc (t_p st) !! p = Some x → argint u 0 = Some n →
     quiet c tickslock b (s_lk (t_p st)) → the_lock (s_lk (t_p st)) ptable = Spin 0 None →
     runs (sys_sleep c p u) (λ r s', if u32 n =? 0 then r = inl 0 else if p_killed x then r = inl (-1)
       else r = inr (n, t_ticks st) ∧ ∃ y, s_proc (t_p s') !! p = Some y ∧ p_state y = SLEEPING) st).
Proof using Hticks.
  intros Hlocks Hb H0 Hr st.
  assert (Hi : clk_inv g).
  { eapply rtc_invariant; [|apply (clk_start s Hb H0)|exact Hr]. intros g1 g2 Hi1 [e Hs]. by eapply clk_step. }
  split_and!; [apply (ci_ticks _ Hi)| | |].
  - intros p n e r k g' Hs He. by eapply clk_back.
  - intros p n ticks0 tot0 Hsl He. pose proof (ci_sleeper _ Hi _ _ _ _ Hsl) as Hs.
    pose proof (sleeper_elapsed g p n ticks0 tot0 Hi Hsl He) as Eu.
    destruct (ci_cfg _ Hi) as (i0 & _ & Hpi).
    destruct (pi_phase _ _ _ _ _ Hpi p) as (v & Hv & Ha); [cbn [g_ph]; by rewrite (sl_phase _ _ _ _ _ Hs)|]. cbn [g_st] in Hv.
    split.
    + exists v. split; [done|]. destruct Ha as [Hz|[?|?]]; [|by left|by right].
      destruct (sl_asleep _ _ _ _ _ Hs v Hv Hz) as [_ Hlt]. lia.
    + intros c b Hh Hl. unfold views in Hv. rewrite list_lookup_fmap in Hv. apply fmap_Some in Hv as (x & Hx & _).
      eapply runs_mono; [by eapply resume_runs|]. unfold round_result. intros r s'. fold st in Eu. by rewrite (proj2 (Z.leb_le _ _) Eu).
  - intros p x c b u n Hx Hn Hq Hp. eapply runs_mono; [by eapply call_runs|]. intros r s' (r' & -> & Hr'). unfold round_result in Hr'.
    pose proof (u32_range n). destruct (Z.eqb_spec (u32 n) 0) as [E|E].
    + rewrite (proj2 (Z.leb_le _ _)) in Hr' by lia. by subst.
    + rewrite (proj2 (Z.leb_gt _ _)) in Hr' by lia. destruct (p_killed x); [by subst|]. by destruct Hr' as [-> ?].
Qed.
End clock.

(** ** Example *)

#[local] Existing Instance no_files.

(** The first process sleeps for one tick, and the timer wakes it. *)
Definition nap_ctx : uctx := Uctx 4096 (st32 ∅ 104 1) 100.
Definition nap_state (st : procstate) (chan : Z) : tst :=
  Tst 0 (Pst (<[0%nat := set_pstate st (set_pchan chan (one_proc RUNNING))]> (replicate NPROC proc0)) (Some 0%nat) 2 true
    (Lkst (λ _, Cpu true 0 false) ∅) m_start tt).

Lemma sleepers_wake_on_time_witness : ∃ g : clk,
  rtc (cnext 7 9 8 m_kend m_kdata 0 0) (Clk (nap_state RUNNABLE 0) (λ _, Idle) 0 (λ _, None)) g ∧
  k_sl g 0%nat = Some (1, 0, 0) ∧ ready 0 (views (t_p (k_st g))).
Proof.
  assert (E2 : ∃ s2, sys_sleep 7 9 8 0 0 nap_ctx (nap_state RUNNING 0) = Ok (inr (1, 0), s2) ∧
    t_ticks s2 = 0 ∧ table_of (t_p s2) = table_of (t_p (nap_state SLEEPING 8))).
  { eexists. split; [vm_compute; reflexivity|]. by split. }
  destruct E2 as (s2 & E2 & Ht2 & Hv2).
  assert (E4 : ∃ s4, trap_timer 7 9 8 0 (nap_state SLEEPING 8) = Ok (tt, s4)).
  { eexists. vm_compute; reflexivity. }
  destruct E4 as (s4 & E4).
  assert (E1 : pstep m_kend m_kdata 7 0 0 (Cfg (t_p (nap_state RUNNABLE 0)) (λ _, Idle)) (Cfg (t_p (nap_state RUNNING 0)) (λ _, Idle))).
  { apply (ps_pick _ _ _ _ _ 0%nat); [reflexivity|by vm_compute; lia|vm_compute; reflexivity]. }
  assert (E3 : pstep m_kend m_kdata 7 0 0 (Cfg (t_p s2) (fupd (λ _, Idle) 0%nat Asleep)) (Cfg (t_p (nap_state SLEEPING 8)) (fupd (λ _, Idle) 0%nat Asleep))).
  { apply ps_other; symmetry; [exact (f_equal t_v Hv2)|exact (f_equal t_init Hv2)|exact (f_equal t_next Hv2)]. }
  assert (R1 : running (t_p (nap_state RUNNING 0)) 0) by (eexists; split; reflexivity).
  set (g := Clk s4 (fupd (λ _, Idle) 0%nat Asleep) 1 (fupd (λ _, None) 0%nat (Some (1, 0, 0)))).
  assert (Hr : rtc (cnext 7 9 8 m_kend m_kdata 0 0) (Clk (nap_state RUNNABLE 0) (λ _, Idle) 0 (λ _, None)) g).
  { eapply rtc_l; [exists Quiet; apply (cs_proc _ _ _ _ _ _ _ _ _ _ _ _ _ E1); done|].
    eapply rtc_l; [exists Quiet; apply (cs_sleep _ _ _ _ _ _ _ _ _ _ _ _ _ _ _ _ _ R1 eq_refl E2)|].
    eapply rtc_l; [exists Quiet; apply (cs_proc _ _ _ _ _ _ _ _ _ _ _ _ _ E3); done|].
    rewrite Ht2. apply rtc_once. exists Quiet.
    apply (cs_tick 7 9 8 m_kend m_kdata 0 0 0%nat (nap_state SLEEPING 8) s4 _ 0 _ E4). }
  eexists. split; [exact Hr|]. split; [done|].
  assert (Ha : other_chan 7 8) by (split; [done|]; intros p _; unfold proc_addr; lia).
  assert (Hb : booted (t_p (nap_state RUNNABLE 0))).
  { exists 0%nat. split; [vm_compute; reflexivity|]. split; [unfold NPROC; lia|]. split; reflexivity. }
  destruct (sleepers_wake_on_time 7 9 8 m_kend m_kdata 0 0 Ha (nap_state RUNNABLE 0) g ltac:(lia) Hb eq_refl Hr) as (_ & _ & Hw & _).
  apply (Hw 0%nat 1 0 0 eq_refl). cbn [k_tot g]. change (u32 1) with 1. lia.
Defined.
